(* ===== verification/_CoqProject ===== *)
-Q . S2P
Prelude.v
Bytes.v
Text.v
Errors.v
Types.v
Encoding.v
Subspace.v
SchemaTypes.v
Fdb.v
MemFdb.v
Cdc.v
Consumer.v
Ids.v
Index.v
TermIndex.v
Namespace.v
Jobs.v
SchemaRegistry.v
Node.v
NodeAtomic.v
NodeSpec.v
NodeReplica.v
NodeTypes.v
Edge.v
EdgeSpec.v
EdgeList.v
EdgeCascade.v
EdgeWrite.v
NodeDelete.v
Predicate.v
Planner.v
Cel.v
Executor.v
ExecutorSpec.v
TermQuery.v
QueryExamples.v
Rows.v
Replication.v
Security.v
Service.v
Auth.v
Pql.v
PqlSpec.v
WatchState.v
Watch.v
WatchLoop.v
WatchSpec.v
WatchDeliver.v
WatchExamples.v
StateM.v
JobExecutor.v
JobSpec.v
JobDrop.v
JobExamples.v
RocksCache.v
Projector.v
RocksSpec.v
ProjectorSpec.v
RocksExamples.v
Wire.v
GraphService.v
GraphSpec.v
GraphExamples.v
ReplService.v
Config.v
Replicator.v
ReplicatorSpec.v
ReplicatorExamples.v
Server.v
Traversal.v
TraversalSpec.v
TraversalExamples.v
QueryService.v
QuerySpec.v
AdminService.v
AdminSpec.v
SchemaInput.v
SchemaInputSpec.v
Operator.v
OperatorSpec.v
