(* ===== verification/Prelude.v ===== *)
(** * PelagoDB: a verification library

    PelagoDB is a property-graph database on FoundationDB, written in Rust
    (src/crates/).  Nodes and edges of typed, versioned schemas live in the key
    space of an ordered transactional store, next to the index rows, term
    statistics and change log that the queries, watches and replicas read.  This
    library models the stores, the query engine, the services and the background tasks of
    the program as executable functions and proves what makes them correct.

    ** Parts of the program and files of the library

    - [Prelude], [Bytes], [Text]: automation, machine integers and bytes, the
      texts of numbers and UTF-8 as the Rust standard library handles them.
    - [Errors], [Types], [Encoding]: pelago-core (errors.rs, types.rs,
      encoding.rs) and the status mapping of pelago-api/src/error.rs.  The error
      type is the inductive type [PelagoError]; a fallible function returns
      [result].
    - [Subspace]: pelago-storage/src/subspace.rs, the layout of keys.
    - [SchemaTypes]: pelago-core/src/schema.rs.
    - [Fdb], [MemFdb]: pelago-storage/src/db.rs, mutation.rs and failpoints.rs.
      [Fdb] is the interface of the FoundationDB client as a class: one key space
      with reads, writes, ordered range reads in batches and versionstamped keys,
      with its documented laws in [FdbLaws]; [MemFdb] implements it by a finite
      map, so that the hypotheses of every theorem can be met.  The world
      ([World]) is the key space, the schema cache, the allocator's batches, the
      failpoints and a clock; an operation is a function of the monad [M], which
      may fail at any call the database may refuse ([env_fault]) or at a
      failpoint.  The CBOR codec is a class too ([Cbor], [CborLaws]): decoding
      returns the stored value in the form serde gives it ([canon_props]).
    - [Cdc], [Consumer]: cdc.rs and consumer.rs, the change log and its readers.
    - [Ids]: ids.rs, batched identifiers.
    - [Index], [TermIndex]: index.rs and term_index.rs.
    - [Namespace], [Jobs], [SchemaRegistry]: namespace.rs, jobs.rs, schema.rs and
      cache.rs.
    - [Node], [NodeAtomic], [NodeSpec], [NodeDelete]: node.rs.
    - [Edge], [EdgeSpec], [EdgeList], [EdgeCascade], [EdgeWrite]: edge.rs.
    - [Predicate], [Planner], [Cel]: predicate.rs, plan.rs, planner.rs and cel.rs
      of pelago-query.  The interpreter of filters is a class ([CelEngine]); a
      function that may panic returns a [panics].
    - [Executor], [ExecutorSpec], [TermQuery]: executor.rs, as read-only operations
      on the world; [QueryExamples] holds a concrete store with two nodes and the
      witnesses of the theorems on queries.
    - [Rows]: families of rows keyed by tuples, with the lemmas that the stores of
      small records share; [Replication]: replication.rs of pelago-storage, site
      claims, positions and the replicator lease; [Security]: security.rs.
    - [Service]: the monad of a server's calls: a state that contains the world,
      with a gRPC status as the error; [HasWorld] is the interface through which a
      handler reaches the database.  [Auth]: auth_service.rs, authz.rs and
      service_common.rs of pelago-api and auth_identity.rs of pelago-server.
    - [Pql], [PqlSpec]: ast.rs, resolver.rs, compiler.rs and explain.rs of the
      query language.
    - [WatchState]: watch_state.rs.  [Watch], [WatchLoop]: watch_service.rs of
      pelago-api and its modules; [WatchSpec], [WatchDeliver], [WatchExamples]: what
      a subscription sees.  A task is a state of its own beside the world, and its
      channel is a list with the room that the consumer leaves.
    - [StateM], [JobExecutor], [JobSpec], [JobDrop], [JobExamples]:
      job_executor.rs and job_worker.rs.
    - [RocksCache], [Projector], [RocksSpec], [ProjectorSpec], [RocksExamples]: the
      cache of rocks_cache/ (store.rs, read_path.rs, projector.rs) over the
      interface of RocksDB as a class, implemented by a finite map in
      [RocksExamples].
    - [Wire]: the messages of proto/pelago.proto and their conversion in
      schema_service.rs; [GraphService], [GraphSpec], [GraphExamples]: the handlers
      of schema_service.rs, node_service.rs, edge_service.rs and health_service.rs.
    - [ReplService]: replication_service.rs, the sending side of replication;
      [Replicator], [ReplicatorSpec], [ReplicatorExamples]: replicator.rs of
      pelago-server, the receiving side; [NodeReplica]: what replicated changes do
      to the nodes.
    - [Config]: config.rs of pelago-core and the settings in main.rs; [Server]: the
      interceptor, the table of services and the background tasks of main.rs.
    - [NodeTypes]: the typing of nodes by their schemas.
    - [Traversal], [TraversalSpec], [TraversalExamples]: traversal.rs of
      pelago-query, the search along the hops of a traversal.
    - [QueryService], [QuerySpec]: the handlers of query_service.rs; the parser of
      the query language is a class ([PqlParser]).  [AdminService], [AdminSpec]: the
      handlers of admin_service.rs.
    - [SchemaInput], [SchemaInputSpec]: schema_input.rs and commands/schema.rs of
      pelago-cli, the texts of schemas; JSON is read by a class.
    - [Operator], [OperatorSpec]: api/v1alpha1.rs, webhook.rs, resources/mod.rs,
      status.rs and controller.rs of pelago-operator.  The Kubernetes API is a class
      ([KubeApi]) with its laws ([KubeLaws]), implemented in memory in
      [OperatorSpec].
    Function and type names follow the source; a record field carries a prefix
    where two Rust structs share its name.

    ** What the theorems show

    - Nodes.  [represents] relates a key space to an abstract map from node ids
      to properties: data rows, index rows, term rows, document frequencies and
      document count are exactly those of the map.  Creation, update and deletion
      implement the operations on the map, on every branch and under any faults
      ([NodeSpec], [NodeDelete]); values of unique properties are distinct; a
      failed operation leaves no trace ([NodeAtomic]).
    - Edges.  [edges_wf] says that every row of the edge subspace belongs to a
      stored edge all of whose rows are there.  Creation and deletion add and
      remove one edge, listings return exactly the edges of a node, and the
      cascade of a node deletion ends and removes exactly the edges of the node.
    - Queries.  A plan of a conjunction covers it.  On a store that represents a
      map of nodes, a full scan and an index scan over values of one width return
      exactly the nodes of the map that match, in order and cut into pages; an
      expression answered from the term index returns exactly the matching nodes,
      which rests on the exactness of the frequency counters.
    - Change log.  Every mutation appends one entry at the stamp of its commit;
      reading returns the entries after a position; a consumer sees every entry
      exactly once.
    - Schemas.  Registration stores the next version and moves the pointer
      atomically; replicas apply versions in order; the cache serves what the
      registry stores.
    - Encodings and keys.  Index encodings keep the order of values, packed
      strings are prefix free, and keys of different subspaces are different.
    - Replication.  A replicator handles the entries of its peer's site once and in
      order and saves its position after each batch ([ReplicatorSpec]); a replicated
      update wins or loses by owner and time ([NodeReplica]); at most one process
      holds the lease of a scope at any time ([Replication]).
    - Watches.  In every interleaving a subscription reads a prefix of the log, its
      matched set is the result of its query there and its events are the changes of
      that result; a resume position skips no entry; the limits of the registry hold
      ([WatchSpec], [WatchDeliver]).
    - Cache.  The cache is the replay of the log up to its mark, and a session read
      returns a state that contains the commits it has to see ([ProjectorSpec]).
    - Jobs.  The removal of a type ends and leaves nothing of the type ([JobDrop]);
      the retention of the log takes nothing from a consumer ([JobSpec]).
    - Access.  Authorization decides as specified and writes its audit record,
      revoked tokens are refused, path rules are globs, and the services behind the
      interceptor run for authenticated principals only ([Auth], [Security],
      [Server]).
    - Services.  Values and schemas survive the wire ([Wire]); the pages of a listing
      are complete ([GraphSpec]); the blocks of a query are ordered ([PqlSpec]), its
      variables are bound when they are read and its set operations are those of
      sets of nodes ([QuerySpec]); dropping an index or a namespace removes its rows
      and no others ([AdminSpec]).
    - Traversal.  The pages of a traversal hold one path to each node that the hops
      reach and fewer hops do not, each a walk along stored edges, and following the
      tokens ends ([TraversalSpec]).
    - Schema texts.  The parser of statements ends on every input, and the statement
      written for a schema is read back and registered as that schema
      ([SchemaInputSpec]).
    - Operator.  The server that a valid site deploys replicates from the peers and
      for the scopes of the site; a reconciliation brings the objects of a site to
      what it says and changes nothing when the site is refused or a secret is
      missing; the index of secrets is exact for sites with different names
      ([OperatorSpec]).
    - Findings.  Where the code does not do what it means to, a theorem shows the
      behaviour on a concrete input or in general: an update that leaves a stale
      index entry, a cascade that never ends, a deletion that cannot be resumed,
      edges that share a row, filters the planner drops, text equality that matches
      prefixes, pages that skip a node, events that a slow consumer loses, a cache
      that serves stale sessions, a service without authentication, a printed schema
      that loses its edges, autoscaled replicas that are set back.

    ** Fuel and bounds

    Recursion is structural but in a few loops.  [range_loop] reads at most
    [limit] batches, one row at least in each, so the limit is enough fuel
    ([get_range_complete]).  The cascade takes a number of rounds and returns
    [None] when they are used up; [cascade_complete] shows that one round more
    than the node has rows is enough, and [cascade_never_ends] that without the
    well-formedness of the namespace no number is.  The batches of a job take a
    number that [drop_type_removes_all] bounds by the rows and phases of the type;
    the search of a traversal takes one round per entry of its queue, which
    [traversal_finds_waves] bounds by what the hops can fan out; clearing a prefix
    takes one round more than the prefix has rows ([drop_index_exact]);
    the parser of statements takes one round more than there are tokens
    ([parse_schema_sql_total]);
    the loop of [kahn] takes one round per block, and the scan of the change log in
    [collect_loop] one more than the log has entries, which their theorems show to
    be enough.  Loops that run until a shutdown (the worker, the projector, a
    subscription, a replicator) are iterated a given number of turns, or as often
    as the environment likes in a step relation.  Integers are in Z with the width
    of the source: saturating, wrapping and checked operations are written out.
    Theorems on counters assume that the counters are not about to overflow
    ([room], [alloc_ok]).

    ** Not modelled

    Concurrency between transactions is not modelled: an operation reads and
    commits on the key space it started from, which is what FoundationDB
    guarantees to a transaction that commits, but several operations of the code
    read outside their write transaction; those races are recorded as findings.
    The step relations of [WatchDeliver] and [Replication] interleave whole
    transactions.  The texts of log messages, metrics and spans are left out.
    The nodes of a hop are fetched one after the other, and the items of a response
    stream are a list.  The explain call of the query service prints floating-point
    numbers in their debug form and is left out.  The parser of the query language and of the
    command line, the protocol code and TLS are generated or external.  The HTTP
    servers for documentation and the user interface, the CLI apart from the texts of
    schemas, and the listeners and the leader election of the operator are input and
    output.  The files of pelago-storage/src/watch/ are
    declared by no module. *)

From Stdlib Require Export ZArith Lia.
From Stdlib Require Export Strings.Byte.
From stdpp Require Export base gmap strings list fin_maps sorting.
#[global] Open Scope Z_scope.
#[global] Set Default Goal Selector "!".

(** ** Automation *)

(** [simp_eq] normalises the hypotheses of an executable model: injectivity of
    constructors, contradictory constructors and trivial conjunctions. *)
Ltac simp_eq := repeat (simplify_eq/= || destruct_and?).

(** Case analysis on the innermost [match] of the goal or of a hypothesis. *)
Ltac case_goal := repeat (case_match; simp_eq; try done).

(** [znorm] prepares goals on machine integers for [lia]. *)
Ltac zdiv := Z.to_euclidean_division_equations; lia.

Create HintDb pelago.
Create HintDb pelago_frame.

(** ** Bytes

    A [u8] inside a buffer is a [Byte.byte]; [u8b] reads it as an integer and
    [b8] writes the low eight bits of an integer ([as u8]). *)

Abbreviation byte := Init.Byte.byte.
Abbreviation bytes := (list Init.Byte.byte).

Definition u8b (b : byte) : Z := Z.of_N (Byte.to_N b).

Definition b8 (z : Z) : byte :=
  match Byte.of_N (Z.to_N (z mod 256)) with Some b => b | None => Byte.x00 end.

#[export] Instance byte_eq_dec : EqDecision byte := Byte.byte_eq_dec.

#[export] Instance byte_countable : Countable byte.
Proof. refine (inj_countable Byte.to_N Byte.of_N _). intros b. apply Byte.of_to_N. Defined.

Lemma u8b_range b : 0 <= u8b b < 256.
Proof.
  unfold u8b. pose proof (Byte.to_N_bounded b) as H.
  apply N2Z.inj_le in H. simpl in H. lia.
Qed.

Lemma u8b_inj b c : u8b b = u8b c -> b = c.
Proof.
  unfold u8b. intros H%N2Z.inj.
  pose proof (Byte.of_to_N b) as Hb. rewrite H, Byte.of_to_N in Hb. congruence.
Qed.

Lemma u8b_b8 z : u8b (b8 z) = z mod 256.
Proof.
  unfold u8b, b8. pose proof (Z.mod_pos_bound z 256 ltac:(lia)).
  destruct (Byte.of_N _) eqn:E.
  - apply Byte.to_of_N in E. rewrite E. lia.
  - apply Byte.of_N_None_iff in E. lia.
Qed.

Lemma b8_u8b b : b8 (u8b b) = b.
Proof. apply u8b_inj. rewrite u8b_b8. apply Z.mod_small, u8b_range. Qed.

Lemma b8_mod z : b8 (z mod 256) = b8 z.
Proof. apply u8b_inj. rewrite !u8b_b8. apply Z.mod_mod. lia. Qed.

#[export] Instance u8b_Inj : Inj (=) (=) u8b.
Proof. exact u8b_inj. Qed.

(** ** Lists *)

Lemma elem_of_take_1 {A} (x : A) n l : x ∈ take n l -> x ∈ l.
Proof. intros (i & Hi & _)%elem_of_take. by eapply list_elem_of_lookup_2. Qed.

Lemma filter_all_true {A} (Q : A -> Prop) `{!forall x, Decision (Q x)} (l : list A) :
  (forall x, x ∈ l -> Q x) -> filter Q l = l.
Proof.
  induction l as [|x l IH]; [done|]. intros Hq. rewrite filter_cons_True by (apply Hq; left).
  f_equal. apply IH. intros. apply Hq. by right.
Qed.

(** [injection] would unfold the tails. *)
Lemma cons_tail {A} (x y : A) l l' : x :: l = y :: l' -> x = y /\ l = l'.
Proof. intros H. by injection H. Qed.
