(* ===== verification/Bytes.v ===== *)
(** * Byte strings

    Facts on byte buffers that every key encoder of the program relies on: the
    lexicographic order in which the key-value store sorts keys, fixed-width
    big- and little-endian integers ([to_be_bytes], [from_be_bytes],
    [to_le_bytes]), decimal printing and parsing ([Display] and [FromStr] of the
    unsigned integers), UTF-8 validation ([String::from_utf8]) and
    [str::split]. *)

From S2P Require Import Prelude.

(** ** Lexicographic order *)

Fixpoint lex (a b : bytes) : comparison :=
  match a, b with
  | [], [] => Eq
  | [], _ :: _ => Lt
  | _ :: _, [] => Gt
  | x :: a', y :: b' =>
      match Z.compare (u8b x) (u8b y) with Eq => lex a' b' | c => c end
  end.

Definition blt (a b : bytes) : Prop := lex a b = Lt.
Definition ble (a b : bytes) : Prop := lex a b <> Gt.
Definition bltb (a b : bytes) : bool := match lex a b with Lt => true | _ => false end.

#[export] Instance blt_dec a b : Decision (blt a b).
Proof. unfold blt. solve_decision. Defined.
#[export] Instance ble_dec a b : Decision (ble a b).
Proof. unfold ble. apply _. Defined.

Lemma lex_refl a : lex a a = Eq.
Proof. induction a; simpl; [done|]. by rewrite Z.compare_refl. Qed.

Lemma lex_eq a b : lex a b = Eq <-> a = b.
Proof.
  split; [|intros ->; apply lex_refl].
  revert b. induction a as [|x a IH]; intros [|y b]; simpl; try done.
  destruct (Z.compare_spec (u8b x) (u8b y)) as [E| |]; try done.
  intros H. f_equal; [by apply u8b_inj|by apply IH].
Qed.

Lemma lex_antisym a b : lex b a = CompOpp (lex a b).
Proof.
  revert b. induction a as [|x a IH]; intros [|y b]; simpl; try done.
  rewrite Z.compare_antisym. destruct (Z.compare (u8b x) (u8b y)); simpl; auto.
Qed.

Lemma lex_lt_trans a b c : blt a b -> blt b c -> blt a c.
Proof.
  unfold blt. revert b c. induction a as [|x a IH]; intros [|y b] [|z c]; simpl; try done.
  destruct (Z.compare_spec (u8b x) (u8b y)), (Z.compare_spec (u8b y) (u8b z)); try done;
    intros; destruct (Z.compare_spec (u8b x) (u8b z)); try lia; eauto; done.
Qed.

#[export] Instance blt_strict : StrictOrder blt.
Proof.
  split.
  - intros a H. unfold blt in H. by rewrite lex_refl in H.
  - exact lex_lt_trans.
Qed.

Lemma ble_lt_or_eq a b : ble a b <-> blt a b \/ a = b.
Proof.
  unfold ble, blt. rewrite <- lex_eq. destruct (lex a b); intuition congruence.
Qed.

Lemma blt_not_ble a b : blt a b <-> ~ ble b a.
Proof. unfold ble, blt. rewrite (lex_antisym a b). destruct (lex a b); simpl; intuition congruence. Qed.

Lemma ble_trans a b c : ble a b -> ble b c -> ble a c.
Proof. rewrite !ble_lt_or_eq. intros [?| ->] [?| ->]; eauto using lex_lt_trans. Qed.

Lemma ble_refl a : ble a a.
Proof. apply ble_lt_or_eq; auto. Qed.

Lemma blt_ble_trans a b c : blt a b -> ble b c -> blt a c.
Proof. rewrite ble_lt_or_eq. intros ? [?| ->]; eauto using lex_lt_trans. Qed.

Lemma ble_blt_trans a b c : ble a b -> blt b c -> blt a c.
Proof. rewrite ble_lt_or_eq. intros [?| ->] ?; eauto using lex_lt_trans. Qed.

Lemma lex_app p a b : lex (p ++ a) (p ++ b) = lex a b.
Proof. induction p; simpl; [done|]. by rewrite Z.compare_refl. Qed.

Lemma ble_app_r a b : ble a (a ++ b).
Proof. unfold ble. rewrite <- (app_nil_r a) at 1. rewrite lex_app. by destruct b. Qed.

(** Comparing two buffers whose heads have equal length is decided by the heads
    unless these are equal: fixed-width prefixes dominate the order. *)
(** The successor of a key in the byte order is the key with a null appended. *)
Lemma ble_succ k k' : ble (k ++ [Byte.x00]) k' <-> blt k k'.
Proof.
  unfold ble, blt. revert k'. induction k as [|x k IH]; intros [|y k']; cbn [lex app].
  - naive_solver.
  - change (u8b Byte.x00) with 0. pose proof (u8b_range y).
    destruct (Z.compare_spec 0 (u8b y)); [destruct k'; simpl|..]; naive_solver lia.
  - naive_solver.
  - destruct (Z.compare (u8b x) (u8b y)); [apply IH|naive_solver..].
Qed.

Lemma lex_app_same_length a b c d :
  length a = length b ->
  lex (a ++ c) (b ++ d) = match lex a b with Eq => lex c d | r => r end.
Proof.
  revert b. induction a as [|x a IH]; intros [|y b]; simpl; try done.
  intros [= H]. destruct (Z.compare (u8b x) (u8b y)); auto.
Qed.

(** ** Big- and little-endian integers *)

Fixpoint be_bytes (n : nat) (z : Z) : bytes :=
  match n with
  | O => []
  | S n' => b8 (z / 256 ^ Z.of_nat n') :: be_bytes n' z
  end.

Fixpoint be_val (l : bytes) : Z :=
  match l with
  | [] => 0
  | b :: l' => u8b b * 256 ^ Z.of_nat (length l') + be_val l'
  end.

Fixpoint le_bytes (n : nat) (z : Z) : bytes :=
  match n with O => [] | S n' => b8 z :: le_bytes n' (z / 256) end.

Fixpoint le_val (l : bytes) : Z :=
  match l with [] => 0 | b :: l' => u8b b + 256 * le_val l' end.

Lemma length_be_bytes n z : length (be_bytes n z) = n.
Proof. induction n; simpl; auto. Qed.

Lemma length_le_bytes n z : length (le_bytes n z) = n.
Proof. revert z; induction n; simpl; auto. Qed.

Lemma pow256_pos n : 0 < 256 ^ Z.of_nat n.
Proof. apply Z.pow_pos_nonneg; lia. Qed.

Lemma be_val_range l : 0 <= be_val l < 256 ^ Z.of_nat (length l).
Proof.
  induction l as [|b l IH]; simpl; [lia|].
  rewrite Nat2Z.inj_succ, Z.pow_succ_r by lia.
  pose proof (u8b_range b). pose proof (pow256_pos (length l)). nia.
Qed.

Lemma be_val_be_bytes n z : be_val (be_bytes n z) = z mod 256 ^ Z.of_nat n.
Proof.
  induction n as [|n IH]; simpl; [by rewrite Z.mod_1_r|].
  rewrite length_be_bytes, u8b_b8, IH, Nat2Z.inj_succ, Z.pow_succ_r by lia.
  pose proof (pow256_pos n).
  rewrite (Z.mul_comm 256), Z.rem_mul_r by lia. lia.
Qed.

Lemma le_val_le_bytes n z : le_val (le_bytes n z) = z mod 256 ^ Z.of_nat n.
Proof.
  revert z. induction n as [|n IH]; intros z; simpl; [by rewrite Z.mod_1_r|].
  rewrite u8b_b8, IH, Nat2Z.inj_succ, Z.pow_succ_r by lia.
  pose proof (pow256_pos n). rewrite Z.rem_mul_r by lia. lia.
Qed.

Lemma be_val_inj a b : length a = length b -> be_val a = be_val b -> a = b.
Proof.
  revert b. induction a as [|x a IH]; intros [|y b]; simpl; try done.
  intros [= Hl] Hv. pose proof (be_val_range a). pose proof (be_val_range b).
  rewrite <- Hl in *.
  assert (u8b x = u8b y) as Hxy by (pose proof (pow256_pos (length a)); nia).
  f_equal; [by apply u8b_inj|]. apply IH; [done|]. rewrite Hxy in Hv. lia.
Qed.

Lemma be_bytes_be_val n l : length l = n -> be_bytes n (be_val l) = l.
Proof.
  intros <-. apply be_val_inj; [by rewrite length_be_bytes|].
  rewrite be_val_be_bytes. apply Z.mod_small, be_val_range.
Qed.

(** The byte order of equal-length big-endian integers is the integer order. *)
Lemma lex_be_val a b : length a = length b -> lex a b = Z.compare (be_val a) (be_val b).
Proof.
  revert b. induction a as [|x a IH]; intros [|y b]; simpl; try done.
  intros [= Hl]. rewrite (IH b Hl), <- Hl.
  pose proof (be_val_range a). pose proof (be_val_range b). rewrite <- Hl in *.
  pose proof (pow256_pos (length a)).
  destruct (Z.compare_spec (u8b x) (u8b y)) as [E|E|E].
  - rewrite E. symmetry. apply Z.add_compare_mono_l.
  - symmetry. apply Z.compare_lt_iff. nia.
  - symmetry. apply Z.compare_gt_iff. nia.
Qed.

Lemma lex_be_bytes n x y :
  0 <= x < 256 ^ Z.of_nat n -> 0 <= y < 256 ^ Z.of_nat n ->
  lex (be_bytes n x) (be_bytes n y) = Z.compare x y.
Proof.
  intros. rewrite lex_be_val by (by rewrite !length_be_bytes).
  by rewrite !be_val_be_bytes, !Z.mod_small.
Qed.

(** ** Machine integers *)

Definition u8_ok (z : Z) : Prop := 0 <= z < 2 ^ 8.
Definition u32_ok (z : Z) : Prop := 0 <= z < 2 ^ 32.
Definition u64_ok (z : Z) : Prop := 0 <= z < 2 ^ 64.
Definition i64_ok (z : Z) : Prop := - 2 ^ 63 <= z < 2 ^ 63.

Definition U64_MAX : Z := 2 ^ 64 - 1.
Definition U32_MAX : Z := 2 ^ 32 - 1.
Definition U8_MAX : Z := 2 ^ 8 - 1.

(** [as i64] on a 64-bit pattern. *)
Definition wrap_i64 (z : Z) : Z := (z + 2 ^ 63) mod 2 ^ 64 - 2 ^ 63.

Definition u64_saturating_add (a b : Z) : Z := Z.min (a + b) U64_MAX.

Lemma wrap_i64_id z : i64_ok z -> wrap_i64 z = z.
Proof. unfold i64_ok, wrap_i64. intros. rewrite Z.mod_small; lia. Qed.

Lemma wrap_i64_mod z : wrap_i64 (z mod 2 ^ 64) = wrap_i64 z.
Proof. unfold wrap_i64. by rewrite Z.add_mod_idemp_l. Qed.
