(* ===== verification/Text.v ===== *)
(** * Text

    Rust strings as the program uses them: a [String] is its UTF-8 bytes
    ([sbytes]); [from_utf8] validates; [show_u]/[show_i] are [Display] of the
    integer types and [parse_u] is [FromStr] of the unsigned ones, with its
    accepted leading plus sign, its digit check and its overflow check; [split_on]
    is [str::split] on a one-byte separator. *)

From S2P Require Import Prelude Bytes.

Definition sbytes (s : string) : bytes := String.list_byte_of_string s.
Definition bstr (b : bytes) : string := String.string_of_list_byte b.

Lemma sbytes_app s s' : sbytes (s ++ s') = sbytes s ++ sbytes s'.
Proof. unfold sbytes, String.list_byte_of_string. induction s as [|c s IH]; [done|]. exact (f_equal (cons (Ascii.byte_of_ascii c)) IH). Qed.

Lemma bstr_sbytes s : bstr (sbytes s) = s.
Proof. apply String.string_of_list_byte_of_string. Qed.

Lemma sbytes_bstr b : sbytes (bstr b) = b.
Proof. apply String.list_byte_of_string_of_list_byte. Qed.

#[export] Instance sbytes_Inj : Inj (=) (=) sbytes.
Proof. intros a b H. by rewrite <- (bstr_sbytes a), H, bstr_sbytes. Qed.

(** ** UTF-8 *)

Definition in_range (lo hi : Z) (b : byte) : bool := (lo <=? u8b b) && (u8b b <=? hi).
Definition cont_byte (b : byte) : bool := in_range 0x80 0xBF b.

(** The well-formed byte sequences of UTF-8, as [core::str::from_utf8] accepts
    them. *)
Fixpoint utf8_valid (l : bytes) : bool :=
  match l with
  | [] => true
  | b0 :: l1 =>
      if in_range 0 0x7F b0 then utf8_valid l1 else
      match l1 with
      | [] => false
      | b1 :: l2 =>
          if in_range 0xC2 0xDF b0 then cont_byte b1 && utf8_valid l2 else
          match l2 with
          | [] => false
          | b2 :: l3 =>
              if in_range 0xE0 0xEF b0 then
                (if u8b b0 =? 0xE0 then in_range 0xA0 0xBF b1
                 else if u8b b0 =? 0xED then in_range 0x80 0x9F b1
                 else cont_byte b1) && cont_byte b2 && utf8_valid l3
              else
              match l3 with
              | [] => false
              | b3 :: l4 =>
                  in_range 0xF0 0xF4 b0 &&
                  (if u8b b0 =? 0xF0 then in_range 0x90 0xBF b1
                   else if u8b b0 =? 0xF4 then in_range 0x80 0x8F b1
                   else cont_byte b1) && cont_byte b2 && cont_byte b3 && utf8_valid l4
              end
          end
      end
  end.

(** [String::from_utf8(v).ok()] *)
Definition from_utf8 (l : bytes) : option string :=
  if utf8_valid l then Some (bstr l) else None.

(** A string of the program is valid UTF-8. *)
Definition str_ok (s : string) : Prop := utf8_valid (sbytes s) = true.

Lemma from_utf8_sbytes s : str_ok s -> from_utf8 (sbytes s) = Some s.
Proof. unfold from_utf8, str_ok. intros ->. by rewrite bstr_sbytes. Qed.

(** ** Decimal integers *)

Definition digit (d : Z) : byte := b8 (48 + d).
Definition is_digit (b : byte) : bool := in_range 48 57 b.

Fixpoint dec_aux (fuel : nat) (n : Z) (acc : bytes) : bytes :=
  match fuel with
  | O => acc
  | S f => if n <? 10 then digit n :: acc else dec_aux f (n / 10) (digit (n mod 10) :: acc)
  end.

(** [Display] of an unsigned integer; the fuel is its number of bits. *)
Definition show_u (n : Z) : bytes := dec_aux (S (Z.to_nat (Z.log2 n))) n [].

(** [Display] of a signed integer. *)
Definition show_i (n : Z) : bytes :=
  if n <? 0 then Byte.x2d :: show_u (- n) else show_u n.

Fixpoint parse_digits (max acc : Z) (l : bytes) : option Z :=
  match l with
  | [] => Some acc
  | c :: l' =>
      if is_digit c then
        let acc' := acc * 10 + (u8b c - 48) in
        if acc' <=? max then parse_digits max acc' l' else None
      else None
  end.

(** [str::parse] at an unsigned type with maximum [max]. *)
Definition parse_u (max : Z) (l : bytes) : option Z :=
  match l with
  | [] => None
  | [c] => if u8b c =? 43 then None else parse_digits max 0 l
  | c :: l' => if u8b c =? 43 then parse_digits max 0 l' else parse_digits max 0 l
  end.

Lemma u8b_digit d : 0 <= d < 10 -> u8b (digit d) = 48 + d.
Proof. intros. unfold digit. rewrite u8b_b8. apply Z.mod_small. lia. Qed.

Lemma is_digit_digit d : 0 <= d < 10 -> is_digit (digit d) = true.
Proof.
  intros. unfold is_digit, in_range. rewrite u8b_digit by lia.
  apply andb_true_intro. split; apply Z.leb_le; lia.
Qed.

Lemma parse_dec_aux max fuel n rest :
  0 <= n <= max -> n < 10 ^ Z.of_nat fuel ->
  parse_digits max 0 (dec_aux fuel n rest) = parse_digits max n rest.
Proof.
  revert n rest. induction fuel as [|f IH]; intros n rest Hn Hf.
  { simpl in Hf. by replace n with 0 by lia. }
  rewrite Nat2Z.inj_succ, Z.pow_succ_r in Hf by lia. simpl.
  destruct (Z.ltb_spec n 10) as [Hs|Hs].
  - simpl. rewrite is_digit_digit, u8b_digit by lia.
    replace (0 * 10 + (48 + n - 48)) with n by lia.
    by destruct (Z.leb_spec n max); [|lia].
  - assert (0 <= n mod 10 < 10) by (apply Z.mod_pos_bound; lia).
    pose proof (Z.div_mod n 10).
    rewrite IH by zdiv. simpl. rewrite is_digit_digit, u8b_digit by lia.
    replace (n / 10 * 10 + (48 + n mod 10 - 48)) with n by lia.
    by destruct (Z.leb_spec n max); [|lia].
Qed.

Lemma show_u_fuel n : 0 <= n -> n < 10 ^ Z.of_nat (S (Z.to_nat (Z.log2 n))).
Proof.
  intros Hn. pose proof (Z.log2_nonneg n).
  rewrite Nat2Z.inj_succ, Z2Nat.id by lia.
  destruct (Z.eq_dec n 0) as [->|]; [done|].
  pose proof (Z.log2_spec n ltac:(lia)) as [_ H1].
  eapply Z.lt_le_trans; [exact H1|]. apply Z.pow_le_mono_l; lia.
Qed.

Lemma dec_aux_Forall (P : byte -> Prop) fuel n acc :
  (forall d, 0 <= d < 10 -> P (digit d)) -> 0 <= n -> Forall P acc -> Forall P (dec_aux fuel n acc).
Proof.
  intros HP. revert n acc. induction fuel as [|f IH]; intros n acc Hn Hacc; simpl; [done|].
  destruct (Z.ltb_spec n 10); [constructor; auto|].
  apply IH; [zdiv|]. constructor; [|done]. apply HP, Z.mod_pos_bound. lia.
Qed.

(** Only decimal digits are printed. *)
Lemma show_u_digits n : 0 <= n -> Forall (fun b => is_digit b = true) (show_u n).
Proof. intros. apply dec_aux_Forall; [exact is_digit_digit|lia|constructor]. Qed.

Lemma dec_aux_length fuel n acc : (length acc <= length (dec_aux fuel n acc))%nat.
Proof.
  revert n acc. induction fuel as [|f IH]; intros n acc; simpl; [lia|].
  destruct (n <? 10); simpl; [lia|].
  etrans; [|apply IH]. simpl. lia.
Qed.

Lemma show_u_nonempty n : show_u n <> [].
Proof.
  unfold show_u. simpl. destruct (n <? 10); [done|].
  intros H. pose proof (dec_aux_length (Z.to_nat (Z.log2 n)) (n / 10) [digit (n mod 10)]) as Hl.
  rewrite H in Hl. simpl in Hl. lia.
Qed.

Lemma parse_u_digits max l :
  l <> [] -> Forall (fun b => is_digit b = true) l -> parse_u max l = parse_digits max 0 l.
Proof.
  destruct l as [|c l]; [done|]. intros _ [Hc _]%Forall_cons.
  assert ((u8b c =? 43) = false) as E.
  { unfold is_digit, in_range in Hc. apply andb_prop in Hc as [H%Z.leb_le _].
    apply Z.eqb_neq. lia. }
  unfold parse_u. rewrite E. by destruct l.
Qed.

(** Parsing a printed integer gives it back, for every integer in the range of
    the type. *)
Lemma parse_show_u max n : 0 <= n <= max -> parse_u max (show_u n) = Some n.
Proof.
  intros Hn. rewrite parse_u_digits by (apply show_u_nonempty || apply show_u_digits; lia).
  unfold show_u. rewrite parse_dec_aux; [done|lia|apply show_u_fuel; lia].
Qed.

Lemma show_u_inj m n : 0 <= m -> 0 <= n -> show_u m = show_u n -> m = n.
Proof.
  intros Hm Hn H.
  pose proof (parse_show_u (Z.max m n) m ltac:(lia)) as E.
  rewrite H, parse_show_u in E by lia. congruence.
Qed.

Lemma parse_digits_range max acc l n :
  0 <= acc <= max -> parse_digits max acc l = Some n -> 0 <= n <= max.
Proof.
  revert acc. induction l as [|c l IH]; intros acc Ha; simpl; [naive_solver|].
  destruct (is_digit c) eqn:Hd; [|done].
  unfold is_digit, in_range in Hd. apply andb_prop in Hd as [?%Z.leb_le _].
  destruct (Z.leb_spec (acc * 10 + (u8b c - 48)) max); [|done].
  apply IH. lia.
Qed.

Lemma parse_u_range max l n : 0 <= max -> parse_u max l = Some n -> 0 <= n <= max.
Proof.
  intros Hm. unfold parse_u. intros H. repeat case_match; try discriminate;
    eapply (parse_digits_range max 0); eauto; lia.
Qed.

(** ** Splitting *)

Fixpoint split_on (sep : byte) (l : bytes) : list bytes :=
  match l with
  | [] => [[]]
  | c :: l' =>
      if decide (c = sep) then [] :: split_on sep l'
      else match split_on sep l' with
           | p :: ps => (c :: p) :: ps
           | [] => [[c]]
           end
  end.

Lemma split_on_none sep l : sep ∉ l -> split_on sep l = [l].
Proof.
  induction l as [|c l IH]; [done|]. intros [Hc Hl]%not_elem_of_cons. simpl.
  rewrite decide_False by congruence. by rewrite IH.
Qed.

Lemma split_on_app sep l r :
  sep ∉ l -> split_on sep (l ++ sep :: r) = l :: split_on sep r.
Proof.
  induction l as [|c l IH]; [intros _; simpl; by rewrite decide_True|].
  intros [Hc Hl]%not_elem_of_cons. simpl. rewrite decide_False by congruence.
  by rewrite IH.
Qed.

Lemma show_u_no_sep n sep : 0 <= n -> is_digit sep = false -> sep ∉ show_u n.
Proof.
  intros Hn Hs Hin. pose proof (show_u_digits n Hn) as Hf.
  rewrite Forall_forall in Hf. specialize (Hf _ Hin). congruence.
Qed.

(** ** [str::trim]

    The encodings of the characters with the Unicode property White_Space. *)
Definition white_space : list bytes :=
  [[Byte.x09]; [Byte.x0a]; [Byte.x0b]; [Byte.x0c]; [Byte.x0d]; [Byte.x20];
   [Byte.xc2; Byte.x85]; [Byte.xc2; Byte.xa0]; [Byte.xe1; Byte.x9a; Byte.x80];
   [Byte.xe2; Byte.x80; Byte.x80]; [Byte.xe2; Byte.x80; Byte.x81]; [Byte.xe2; Byte.x80; Byte.x82];
   [Byte.xe2; Byte.x80; Byte.x83]; [Byte.xe2; Byte.x80; Byte.x84]; [Byte.xe2; Byte.x80; Byte.x85];
   [Byte.xe2; Byte.x80; Byte.x86]; [Byte.xe2; Byte.x80; Byte.x87]; [Byte.xe2; Byte.x80; Byte.x88];
   [Byte.xe2; Byte.x80; Byte.x89]; [Byte.xe2; Byte.x80; Byte.x8a]; [Byte.xe2; Byte.x80; Byte.xa8];
   [Byte.xe2; Byte.x80; Byte.xa9]; [Byte.xe2; Byte.x80; Byte.xaf]; [Byte.xe2; Byte.x81; Byte.x9f];
   [Byte.xe3; Byte.x80; Byte.x80]].

Fixpoint strip_prefix (p l : bytes) : option bytes :=
  match p, l with
  | [], _ => Some l
  | b :: p', c :: l' => if decide (b = c) then strip_prefix p' l' else None
  | _ :: _, [] => None
  end.

(** Strip one of the sequences at the front, if any matches. *)
Fixpoint strip_any (ps : list bytes) (l : bytes) : option bytes :=
  match ps with
  | [] => None
  | p :: ps' => match strip_prefix p l with Some l' => Some l' | None => strip_any ps' l end
  end.

(** Every round strips at least one byte, so the length is fuel enough. *)
Fixpoint strip_all (fuel : nat) (ps : list bytes) (l : bytes) : bytes :=
  match fuel with
  | O => l
  | S f => match strip_any ps l with Some l' => strip_all f ps l' | None => l end
  end.

Definition trim (s : string) : string :=
  let l := strip_all (length (sbytes s)) white_space (sbytes s) in
  bstr (rev (strip_all (length l) (map (@rev byte) white_space) (rev l))).

Example trim_ex : trim "  7 " = "7" /\ trim "   " = "".
Proof. vm_compute. done. Qed.

(** Visible ASCII characters are not trimmed. *)
Definition visible (b : byte) : Prop := in_range 33 126 b = true.

Lemma strip_any_visible b l : visible b -> strip_any white_space (b :: l) = None /\ strip_any (map (@rev byte) white_space) (b :: l) = None.
Proof. unfold visible. destruct b; intros Hb; try discriminate Hb; split; reflexivity. Qed.

Lemma trim_visible l b b' : head l = Some b -> last l = Some b' -> visible b -> visible b' -> trim (bstr l) = bstr l.
Proof.
  intros Hh Hl Hb Hb'. unfold trim. rewrite sbytes_bstr. destruct l as [|c l]; [done|]. injection Hh as ->.
  assert (E : strip_all (length (b :: l)) white_space (b :: l) = b :: l) by (cbn [length strip_all]; by rewrite (proj1 (strip_any_visible b l Hb))).
  rewrite E. clear E. f_equal. rewrite <- (rev_involutive (b :: l)) at 3. f_equal.
  assert (Hr : exists r, rev (b :: l) = b' :: r).
  { apply last_Some in Hl as [r Hr]. exists (rev r). rewrite Hr. by rewrite rev_app_distr. }
  destruct Hr as [r ->]. cbn [length strip_all]. by rewrite (proj2 (strip_any_visible b' r Hb')).
Qed.

(** ** Characters

    A character is a leading byte with its continuation bytes. *)
Definition chars (l : bytes) : list bytes :=
  snd (foldr (fun b st => if cont_byte b then (b :: fst st, snd st) else ([], (b :: fst st) :: snd st))
         (@nil byte, @nil bytes) l).

Definition ascii_alphanumeric (b : byte) : bool :=
  in_range 48 57 b || in_range 65 90 b || in_range 97 122 b.

(** [char::is_alphanumeric] follows the Unicode tables; on ASCII it accepts the
    letters and digits. *)
Class CharClass := {
  char_alphanumeric : bytes -> bool;
  char_alphanumeric_ascii : forall b r, u8b b < 128 -> char_alphanumeric (b :: r) = ascii_alphanumeric b
}.

(** ASCII letters and digits only. *)
Definition ascii_class : CharClass.
Proof.
  refine {| char_alphanumeric := fun c => match c with b :: _ => ascii_alphanumeric b | [] => false end |}.
  done.
Defined.

Lemma chars_ascii b l : u8b b < 128 -> b ∈ l -> exists r, b :: r ∈ chars l.
Proof.
  intros Hb. assert (Hc : cont_byte b = false).
  { unfold cont_byte, in_range. destruct (Z.leb_spec 0x80 (u8b b)); [lia|done]. }
  unfold chars. induction l as [|c l IH]; [by intros ?%not_elem_of_nil|]. cbn [foldr].
  set (st := foldr _ _ l) in *. intros [->|Hin]%elem_of_cons.
  - rewrite Hc. cbn [snd]. eexists. left.
  - destruct (IH Hin) as [r Hr]. destruct (cont_byte c); cbn [snd]; exists r; [done|by right].
Qed.
