(* ===== verification/Errors.v ===== *)
(** * Errors

    [PelagoError] of [pelago-core/src/errors.rs] with its error codes, categories
    and metadata, and the gRPC status mapping of [pelago-api/src/error.rs].
    Every fallible operation of the library returns a [result]. *)

From S2P Require Import Prelude Bytes Text.

Inductive PelagoError :=
  (* validation *)
  | UnregisteredType (entity_type : string)
  | MissingRequired (entity_type field : string)
  | TypeMismatch (field expected actual : string)
  | ExtraProperty (field : string)
  | CelSyntax (expression message : string)
  | CelType (field message : string)
  | InvalidId (value : string)
  | InvalidValue (field reason : string)
  | SchemaValidation (message : string)
  (* referential *)
  | SourceNotFound (entity_type node_id : string)
  | TargetNotFound (entity_type node_id : string)
  | NodeNotFound (entity_type node_id : string)
  | EdgeNotFound (source_node target_node label : string)
  | TargetTypeMismatch (edge_type expected actual : string)
  | UndeclaredEdgeType (entity_type edge_type : string)
  (* consistency *)
  | UniqueConstraintViolation (entity_type field value : string)
  | VersionConflict (entity_type node_id : string)
  | SchemaMismatch (expected actual : Z)
  | NamespaceSchemaOwnershipConflict (database namespace owner_site_id actor_site_id : string)
  (* timeout *)
  | QueryTimeout (timeout_ms elapsed_ms : Z)
  | TraversalTimeout (max_depth reached_depth : Z)
  | TransactionTimeout
  (* resource *)
  | TraversalLimit (max_results current_count : Z)
  | MutationScopeTooLarge (operation : string)
      (estimated_mutated_keys estimated_write_bytes estimated_cascade_edges : Z)
      (recommended_mode : string)
  | TxConflictRetryExhausted (operation : string) (attempts : Z)
  | TxWallBudgetExceeded (operation : string) (elapsed_ms budget_ms : Z)
  | SnapshotBudgetExceeded (operation : string)
      (scanned_keys result_bytes elapsed_ms budget_ms : Z)
  | SnapshotExpired (operation : string)
  (* internal *)
  | FdbUnavailable (msg : string)
  | Internal (msg : string).

#[export] Instance PelagoError_eq_dec : EqDecision PelagoError.
Proof. solve_decision. Defined.

(** ** Results *)

Inductive result (A : Type) := Ok (a : A) | Err (e : PelagoError).
Arguments Ok {A} a.
Arguments Err {A} e.

#[export] Instance result_eq_dec `{EqDecision A} : EqDecision (result A).
Proof. solve_decision. Defined.

#[export] Instance result_ret : MRet result := fun A a => Ok a.
#[export] Instance result_bind : MBind result := fun A B f r =>
  match r with Ok a => f a | Err e => Err e end.
#[export] Instance result_fmap : FMap result := fun A B f r =>
  match r with Ok a => Ok (f a) | Err e => Err e end.

(** [Option::ok_or_else] *)
Definition ok_or {A} (o : option A) (e : PelagoError) : result A :=
  match o with Some a => Ok a | None => Err e end.

Definition is_ok {A} (r : result A) : bool := match r with Ok _ => true | Err _ => false end.

Lemma bind_Ok {A B} (f : A -> result B) r b :
  (r ≫= f) = Ok b <-> exists a, r = Ok a /\ f a = Ok b.
Proof. destruct r; naive_solver. Qed.

Lemma bind_Err {A B} (f : A -> result B) r e :
  (r ≫= f) = Err e <-> r = Err e \/ exists a, r = Ok a /\ f a = Err e.
Proof. destruct r; naive_solver. Qed.

Lemma ok_or_Ok {A} (o : option A) e a : ok_or o e = Ok a <-> o = Some a.
Proof. destruct o; naive_solver. Qed.

(** ** Codes and categories *)

Definition code (e : PelagoError) : string :=
  match e with
  | UnregisteredType _ => "ERR_VALIDATION_UNREGISTERED_TYPE"
  | MissingRequired _ _ => "ERR_VALIDATION_MISSING_REQUIRED"
  | TypeMismatch _ _ _ => "ERR_VALIDATION_TYPE_MISMATCH"
  | ExtraProperty _ => "ERR_VALIDATION_EXTRA_PROPERTY"
  | CelSyntax _ _ => "ERR_VALIDATION_CEL_SYNTAX"
  | CelType _ _ => "ERR_VALIDATION_CEL_TYPE"
  | InvalidId _ => "ERR_VALIDATION_INVALID_ID"
  | InvalidValue _ _ => "ERR_VALIDATION_INVALID_VALUE"
  | SchemaValidation _ => "ERR_VALIDATION_SCHEMA"
  | SourceNotFound _ _ => "ERR_REF_SOURCE_NOT_FOUND"
  | TargetNotFound _ _ => "ERR_REF_TARGET_NOT_FOUND"
  | NodeNotFound _ _ => "ERR_REF_NODE_NOT_FOUND"
  | EdgeNotFound _ _ _ => "ERR_REF_EDGE_NOT_FOUND"
  | TargetTypeMismatch _ _ _ => "ERR_REF_TARGET_TYPE_MISMATCH"
  | UndeclaredEdgeType _ _ => "ERR_REF_UNDECLARED_EDGE"
  | UniqueConstraintViolation _ _ _ => "ERR_CONSISTENCY_UNIQUE_VIOLATION"
  | VersionConflict _ _ => "ERR_CONSISTENCY_VERSION_CONFLICT"
  | SchemaMismatch _ _ => "ERR_CONSISTENCY_SCHEMA_MISMATCH"
  | NamespaceSchemaOwnershipConflict _ _ _ _ =>
      "ERR_CONSISTENCY_NAMESPACE_SCHEMA_OWNERSHIP_CONFLICT"
  | QueryTimeout _ _ => "ERR_TIMEOUT_QUERY"
  | TraversalTimeout _ _ => "ERR_TIMEOUT_TRAVERSAL"
  | TransactionTimeout => "ERR_TIMEOUT_TRANSACTION"
  | TraversalLimit _ _ => "ERR_RESOURCE_TRAVERSAL_LIMIT"
  | MutationScopeTooLarge _ _ _ _ _ => "ERR_RESOURCE_MUTATION_SCOPE_TOO_LARGE"
  | TxConflictRetryExhausted _ _ => "ERR_CONSISTENCY_TX_CONFLICT_RETRY_EXHAUSTED"
  | TxWallBudgetExceeded _ _ _ => "ERR_TIMEOUT_TX_WALL_BUDGET_EXCEEDED"
  | SnapshotBudgetExceeded _ _ _ _ _ => "ERR_CONSISTENCY_SNAPSHOT_BUDGET_EXCEEDED"
  | SnapshotExpired _ => "ERR_CONSISTENCY_SNAPSHOT_EXPIRED"
  | FdbUnavailable _ => "ERR_INTERNAL_FDB_UNAVAILABLE"
  | Internal _ => "ERR_INTERNAL_UNEXPECTED"
  end.

Definition category (e : PelagoError) : string :=
  match e with
  | UnregisteredType _ | MissingRequired _ _ | TypeMismatch _ _ _ | ExtraProperty _
  | CelSyntax _ _ | CelType _ _ | InvalidId _ | InvalidValue _ _ | SchemaValidation _ =>
      "VALIDATION"
  | SourceNotFound _ _ | TargetNotFound _ _ | NodeNotFound _ _ | EdgeNotFound _ _ _
  | TargetTypeMismatch _ _ _ | UndeclaredEdgeType _ _ => "REFERENTIAL"
  | UniqueConstraintViolation _ _ _ | VersionConflict _ _ | SchemaMismatch _ _
  | NamespaceSchemaOwnershipConflict _ _ _ _ | TxConflictRetryExhausted _ _
  | SnapshotBudgetExceeded _ _ _ _ _ | SnapshotExpired _ => "CONSISTENCY"
  | QueryTimeout _ _ | TraversalTimeout _ _ | TransactionTimeout
  | TxWallBudgetExceeded _ _ _ => "TIMEOUT"
  | TraversalLimit _ _ | MutationScopeTooLarge _ _ _ _ _ => "RESOURCE"
  | FdbUnavailable _ | Internal _ => "INTERNAL"
  end.

(** [usize], [u64] and [u32] rendered with [to_string]. *)
Definition ustr (n : Z) : string := bstr (show_u n).

Definition metadata (e : PelagoError) : gmap string string :=
  match e with
  | UnregisteredType entity_type => {["entity_type" := entity_type]}
  | MissingRequired entity_type field =>
      <["field" := field]> {["entity_type" := entity_type]}
  | TypeMismatch field expected actual =>
      <["actual" := actual]> (<["expected" := expected]> {["field" := field]})
  | ExtraProperty field => {["field" := field]}
  | InvalidId value => {["value" := value]}
  | InvalidValue field reason => <["reason" := reason]> {["field" := field]}
  | NodeNotFound entity_type node_id
  | SourceNotFound entity_type node_id
  | TargetNotFound entity_type node_id =>
      <["node_id" := node_id]> {["entity_type" := entity_type]}
  | UniqueConstraintViolation entity_type field value =>
      <["value" := value]> (<["field" := field]> {["entity_type" := entity_type]})
  | QueryTimeout timeout_ms elapsed_ms =>
      <["elapsed_ms" := ustr elapsed_ms]> {["timeout_ms" := ustr timeout_ms]}
  | TraversalLimit max_results current_count =>
      <["current_count" := ustr current_count]> {["max_results" := ustr max_results]}
  | MutationScopeTooLarge operation keys write_bytes cascade_edges mode =>
      <["recommended_mode" := mode]>
      (<["estimated_cascade_edges" := ustr cascade_edges]>
      (<["estimated_write_bytes" := ustr write_bytes]>
      (<["estimated_mutated_keys" := ustr keys]> {["operation" := operation]})))
  | TxConflictRetryExhausted operation attempts =>
      <["attempts" := ustr attempts]> {["operation" := operation]}
  | TxWallBudgetExceeded operation elapsed_ms budget_ms =>
      <["budget_ms" := ustr budget_ms]>
      (<["elapsed_ms" := ustr elapsed_ms]> {["operation" := operation]})
  | SnapshotBudgetExceeded operation scanned_keys result_bytes elapsed_ms budget_ms =>
      <["budget_ms" := ustr budget_ms]>
      (<["elapsed_ms" := ustr elapsed_ms]>
      (<["result_bytes" := ustr result_bytes]>
      (<["scanned_keys" := ustr scanned_keys]> {["operation" := operation]})))
  | SnapshotExpired operation => {["operation" := operation]}
  | NamespaceSchemaOwnershipConflict database namespace owner actor =>
      <["actor_site_id" := actor]>
      (<["owner_site_id" := owner]>
      (<["namespace" := namespace]> {["database" := database]}))
  | _ => ∅
  end.

(** ** gRPC status codes *)

Inductive Code :=
  InvalidArgument | NotFound | FailedPrecondition | AlreadyExists | Aborted
  | DeadlineExceeded | ResourceExhausted | Unavailable | CodeInternal | OutOfRange
  | Unauthenticated | PermissionDenied | Cancelled.

#[export] Instance Code_eq_dec : EqDecision Code.
Proof. solve_decision. Defined.

Definition to_status (e : PelagoError) : Code :=
  match e with
  | UnregisteredType _ | MissingRequired _ _ | TypeMismatch _ _ _ | ExtraProperty _
  | CelSyntax _ _ | CelType _ _ | InvalidId _ | InvalidValue _ _ | SchemaValidation _ =>
      InvalidArgument
  | SourceNotFound _ _ | TargetNotFound _ _ | NodeNotFound _ _ | EdgeNotFound _ _ _
  | UndeclaredEdgeType _ _ => NotFound
  | TargetTypeMismatch _ _ _ => FailedPrecondition
  | UniqueConstraintViolation _ _ _ => AlreadyExists
  | VersionConflict _ _ | SchemaMismatch _ _ | NamespaceSchemaOwnershipConflict _ _ _ _
  | TxConflictRetryExhausted _ _ | SnapshotExpired _ => Aborted
  | SnapshotBudgetExceeded _ _ _ _ _ => FailedPrecondition
  | QueryTimeout _ _ | TraversalTimeout _ _ | TransactionTimeout
  | TxWallBudgetExceeded _ _ _ => DeadlineExceeded
  | TraversalLimit _ _ | MutationScopeTooLarge _ _ _ _ _ => ResourceExhausted
  | FdbUnavailable _ => Unavailable
  | Internal _ => CodeInternal
  end.

(** ** The error contract *)

(** The code prefix that belongs to a category. *)
Definition category_prefix (c : string) : string :=
  if decide (c = "REFERENTIAL") then "ERR_REF_" else ("ERR_" ++ c ++ "_")%string.

(** The statuses a category may map to. *)
Definition category_statuses (c : string) : list Code :=
  if decide (c = "VALIDATION") then [InvalidArgument]
  else if decide (c = "REFERENTIAL") then [NotFound; FailedPrecondition]
  else if decide (c = "CONSISTENCY") then [AlreadyExists; Aborted; FailedPrecondition]
  else if decide (c = "TIMEOUT") then [DeadlineExceeded]
  else if decide (c = "RESOURCE") then [ResourceExhausted]
  else [Unavailable; CodeInternal].

(** The discriminant of the enum. *)
Definition variant (e : PelagoError) : nat :=
  match e with
  | UnregisteredType _ => 0 | MissingRequired _ _ => 1 | TypeMismatch _ _ _ => 2
  | ExtraProperty _ => 3 | CelSyntax _ _ => 4 | CelType _ _ => 5 | InvalidId _ => 6
  | InvalidValue _ _ => 7 | SchemaValidation _ => 8 | SourceNotFound _ _ => 9
  | TargetNotFound _ _ => 10 | NodeNotFound _ _ => 11 | EdgeNotFound _ _ _ => 12
  | TargetTypeMismatch _ _ _ => 13 | UndeclaredEdgeType _ _ => 14
  | UniqueConstraintViolation _ _ _ => 15 | VersionConflict _ _ => 16
  | SchemaMismatch _ _ => 17 | NamespaceSchemaOwnershipConflict _ _ _ _ => 18
  | QueryTimeout _ _ => 19 | TraversalTimeout _ _ => 20 | TransactionTimeout => 21
  | TraversalLimit _ _ => 22 | MutationScopeTooLarge _ _ _ _ _ => 23
  | TxConflictRetryExhausted _ _ => 24 | TxWallBudgetExceeded _ _ _ => 25
  | SnapshotBudgetExceeded _ _ _ _ _ => 26 | SnapshotExpired _ => 27
  | FdbUnavailable _ => 28 | Internal _ => 29
  end.

Lemma code_variant e1 e2 : code e1 = code e2 -> variant e1 = variant e2.
Proof. destruct e1, e2; simpl; (reflexivity || discriminate). Qed.

(** The error contract of the API.  A code identifies the variant, it
    carries the prefix of its category, and the gRPC status is one of those of
    the category. *)
Theorem error_contract e :
  (forall e', code e = code e' <-> variant e = variant e') /\
  String.prefix (category_prefix (category e)) (code e) = true /\
  to_status e ∈ category_statuses (category e).
Proof.
  split; [|split].
  - intros e'. split; [apply code_variant|]. destruct e, e'; simpl; done.
  - destruct e; reflexivity.
  - destruct e; (apply (bool_decide_unpack _); vm_compute; exact I).
Qed.
