(* ===== verification/Types.v ===== *)
(** * Core types

    [pelago-core/src/types.rs]: node and edge identifiers with their 9-byte and
    textual forms, property values and property types.

    A [u8] or [u64] field is a [Z] within the range of its type ([node_id_ok]);
    an [f64] is its 64-bit pattern ([to_bits]), compared with IEEE equality. *)

From S2P Require Import Prelude Bytes Text Errors.

(** ** Identifiers *)

Record NodeId := mkNodeId { site : Z; seq : Z }.
Record EdgeId := mkEdgeId { esite : Z; eseq : Z }.

#[export] Instance NodeId_eq_dec : EqDecision NodeId.
Proof. solve_decision. Defined.
#[export] Instance EdgeId_eq_dec : EqDecision EdgeId.
Proof. solve_decision. Defined.

Definition node_id_ok (n : NodeId) : Prop := u8_ok (site n) /\ u64_ok (seq n).
Definition edge_id_ok (n : EdgeId) : Prop := u8_ok (esite n) /\ u64_ok (eseq n).

Inductive ParseIdError := InvalidFormat | InvalidSite | InvalidSeq.

Module NodeIds.
Definition to_bytes (n : NodeId) : bytes := b8 (site n) :: be_bytes 8 (seq n).

(** The caller passes exactly nine bytes ([&[u8; 9]]). *)
Definition from_bytes (b : bytes) : NodeId :=
  mkNodeId (u8b (nth 0 b Byte.x00)) (be_val (firstn 8 (skipn 1 b))).

Definition try_from_slice (b : bytes) : option NodeId :=
  if decide (length b = 9%nat) then Some (from_bytes b) else None.

Definition origin_site (n : NodeId) : Z := site n.

(** [Display]: site and sequence in decimal, joined by an underscore. *)
Definition to_string (n : NodeId) : string :=
  bstr (show_u (site n) ++ [Byte.x5f] ++ show_u (seq n)).

Definition from_str (s : string) : NodeId + ParseIdError :=
  match split_on Byte.x5f (sbytes s) with
  | [p0; p1] =>
      match parse_u U8_MAX p0 with
      | None => inr InvalidSite
      | Some si =>
          match parse_u U64_MAX p1 with
          | None => inr InvalidSeq
          | Some se => inl (mkNodeId si se)
          end
      end
  | _ => inr InvalidFormat
  end.
End NodeIds.

Module EdgeIds.
Definition to_bytes (n : EdgeId) : bytes := b8 (esite n) :: be_bytes 8 (eseq n).

Definition from_bytes (b : bytes) : EdgeId :=
  mkEdgeId (u8b (nth 0 b Byte.x00)) (be_val (firstn 8 (skipn 1 b))).

Definition try_from_slice (b : bytes) : option EdgeId :=
  if decide (length b = 9%nat) then Some (from_bytes b) else None.

Definition to_string (n : EdgeId) : string :=
  bstr (show_u (esite n) ++ [Byte.x5f] ++ show_u (eseq n)).

Definition from_str (s : string) : EdgeId + ParseIdError :=
  match split_on Byte.x5f (sbytes s) with
  | [p0; p1] =>
      match parse_u U8_MAX p0 with
      | None => inr InvalidSite
      | Some si =>
          match parse_u U64_MAX p1 with
          | None => inr InvalidSeq
          | Some se => inl (mkEdgeId si se)
          end
      end
  | _ => inr InvalidFormat
  end.
End EdgeIds.

(** ** Values *)

(** [Float] carries the bit pattern of the [f64]. *)
Inductive Value :=
  | VString (s : string)
  | VInt (n : Z)
  | VFloat (bits : Z)
  | VBool (b : bool)
  | VTimestamp (t : Z)
  | VBytes (b : bytes)
  | VNull.

#[export] Instance Value_eq_dec : EqDecision Value.
Proof. solve_decision. Defined.

Definition value_ok (v : Value) : Prop :=
  match v with
  | VInt n | VTimestamp n => i64_ok n
  | VFloat b => u64_ok b
  | VString s => str_ok s
  | _ => True
  end.

Definition F64_INF : Z := 0x7FF0000000000000.
Definition f64_abs (bits : Z) : Z := bits mod 2 ^ 63.
Definition f64_is_nan (bits : Z) : bool := F64_INF <? f64_abs bits.

(** IEEE equality: a NaN equals nothing, the two zeros are equal. *)
Definition f64_eq (a b : Z) : bool :=
  negb (f64_is_nan a) && negb (f64_is_nan b)
  && ((a =? b) || ((f64_abs a =? 0) && (f64_abs b =? 0))).

(** The derived [PartialEq] of [Value]. *)
Definition value_eqb (v w : Value) : bool :=
  match v, w with
  | VString a, VString b => bool_decide (a = b)
  | VInt a, VInt b => a =? b
  | VFloat a, VFloat b => f64_eq a b
  | VBool a, VBool b => Bool.eqb a b
  | VTimestamp a, VTimestamp b => a =? b
  | VBytes a, VBytes b => bool_decide (a = b)
  | VNull, VNull => true
  | _, _ => false
  end.

Abbreviation Props := (gmap string Value).

(** [HashMap<String, Value>] equality: same size, and every entry of the first
    has an equal entry in the second. *)
Definition props_eqb (m1 m2 : Props) : bool :=
  Nat.eqb (size m1) (size m2) &&
  bool_decide (map_Forall (fun k v =>
    (match m2 !! k with Some w => value_eqb v w | None => false end) = true) m1).

Definition type_name (v : Value) : string :=
  match v with
  | VString _ => "string" | VInt _ => "int" | VFloat _ => "float" | VBool _ => "bool"
  | VTimestamp _ => "timestamp" | VBytes _ => "bytes" | VNull => "null"
  end.

Definition is_null (v : Value) : bool := match v with VNull => true | _ => false end.

Definition as_string (v : Value) : option string :=
  match v with VString s => Some s | _ => None end.
Definition as_int (v : Value) : option Z := match v with VInt n => Some n | _ => None end.
Definition as_float (v : Value) : option Z := match v with VFloat f => Some f | _ => None end.
Definition as_bool (v : Value) : option bool := match v with VBool b => Some b | _ => None end.
Definition as_timestamp (v : Value) : option Z :=
  match v with VTimestamp t => Some t | _ => None end.
Definition as_bytes (v : Value) : option bytes := match v with VBytes b => Some b | _ => None end.

(** ** Property types *)

Inductive PropertyType := PString | PInt | PFloat | PBool | PTimestamp | PBytes.

#[export] Instance PropertyType_eq_dec : EqDecision PropertyType.
Proof. solve_decision. Defined.

Definition matches (t : PropertyType) (v : Value) : bool :=
  match t, v with
  | PString, VString _ | PInt, VInt _ | PFloat, VFloat _ | PBool, VBool _
  | PTimestamp, VTimestamp _ | PBytes, VBytes _ => true
  | _, VNull => true
  | _, _ => false
  end.

Definition as_str (t : PropertyType) : string :=
  match t with
  | PString => "string" | PInt => "int" | PFloat => "float" | PBool => "bool"
  | PTimestamp => "timestamp" | PBytes => "bytes"
  end.

(** ** Facts *)

Lemma matches_type_name t v : matches t v = true <-> v = VNull \/ type_name v = as_str t.
Proof. destruct t, v; simpl; intuition congruence. Qed.

Lemma value_eqb_refl v : (forall b, v = VFloat b -> f64_is_nan b = false) -> value_eqb v v = true.
Proof.
  destruct v; simpl; intros H; try rewrite bool_decide_true by done; try done.
  - lia.
  - unfold f64_eq. rewrite (H bits eq_refl), Z.eqb_refl. done.
  - apply Bool.eqb_reflx.
  - lia.
Qed.

(** Equality of values is Leibniz equality outside floats. *)
Lemma value_eqb_eq v w : value_eqb v w = true -> v = w \/ exists a b, v = VFloat a /\ w = VFloat b.
Proof.
  destruct v, w; simpl; try done; intros H; try (left; f_equal; first
    [by apply bool_decide_eq_true in H | by apply Z.eqb_eq in H | by apply Bool.eqb_prop]);
    right; by eauto.
Qed.

Lemma length_node_bytes n : length (NodeIds.to_bytes n) = 9%nat.
Proof. unfold NodeIds.to_bytes. simpl. done. Qed.

Lemma from_to_bytes n : node_id_ok n -> NodeIds.from_bytes (NodeIds.to_bytes n) = n.
Proof.
  intros [Hs Hq]. destruct n as [si se]. unfold NodeIds.from_bytes, NodeIds.to_bytes.
  cbn [site seq nth skipn].
  rewrite drop_0, (take_ge (be_bytes 8 se) 8) by (rewrite length_be_bytes; done).
  rewrite u8b_b8, be_val_be_bytes.
  unfold u8_ok, u64_ok in *. simpl in Hs, Hq.
  rewrite !Z.mod_small; [done|..]; simpl; lia.
Qed.

Lemma to_from_bytes b : length b = 9%nat -> NodeIds.to_bytes (NodeIds.from_bytes b) = b.
Proof.
  destruct b as [|x b]; [done|]. intros [= H].
  unfold NodeIds.to_bytes, NodeIds.from_bytes. cbn [site seq nth skipn].
  rewrite b8_u8b, drop_0, take_ge by lia. by rewrite be_bytes_be_val.
Qed.

Lemma from_bytes_ok b : node_id_ok (NodeIds.from_bytes b).
Proof.
  unfold NodeIds.from_bytes, node_id_ok, u8_ok, u64_ok. cbn [site seq].
  split; [apply u8b_range|]. pose proof (be_val_range (firstn 8 (skipn 1 b))) as [H1 H2].
  split; [done|]. eapply Z.lt_le_trans; [exact H2|].
  change (2 ^ 64) with (256 ^ 8). apply Z.pow_le_mono_r; [lia|].
  pose proof (length_take_le (skipn 1 b) 8).
  rewrite length_take. lia.
Qed.

Lemma to_bytes_inj m n : node_id_ok m -> node_id_ok n -> NodeIds.to_bytes m = NodeIds.to_bytes n -> m = n.
Proof. intros Hm Hn H. by rewrite <- (from_to_bytes m), H, from_to_bytes. Qed.

Lemma underscore_not_digit : is_digit Byte.x5f = false.
Proof. reflexivity. Qed.

Lemma from_str_to_string n : node_id_ok n -> NodeIds.from_str (NodeIds.to_string n) = inl n.
Proof.
  intros [Hs Hq]. unfold u8_ok, u64_ok in *. destruct n as [si se]. cbn [site seq] in *.
  unfold NodeIds.from_str, NodeIds.to_string. cbn [site seq]. rewrite sbytes_bstr.
  change ([Byte.x5f] ++ show_u se) with (Byte.x5f :: show_u se).
  rewrite split_on_app, split_on_none by (apply show_u_no_sep; [lia|apply underscore_not_digit]).
  rewrite !parse_show_u by (unfold U8_MAX, U64_MAX; lia). done.
Qed.

Lemma from_str_ok s n : NodeIds.from_str s = inl n -> node_id_ok n.
Proof.
  unfold NodeIds.from_str, node_id_ok, u8_ok, u64_ok. intros H. case_goal.
  repeat match goal with H : parse_u _ _ = Some _ |- _ => apply parse_u_range in H; [|done] end.
  unfold U8_MAX, U64_MAX in *. simpl. lia.
Qed.

(** Node identifiers survive both of their external forms.  The 9-byte
    form decodes to the identifier and has length nine, the textual form parses
    back to it, and the byte order of the 9-byte forms is the order on
    (site, sequence), which makes a range scan by site possible. *)
Theorem node_id_roundtrip m n :
  node_id_ok m -> node_id_ok n ->
  NodeIds.try_from_slice (NodeIds.to_bytes n) = Some n /\
  NodeIds.from_str (NodeIds.to_string n) = inl n /\
  lex (NodeIds.to_bytes m) (NodeIds.to_bytes n)
    = match Z.compare (site m) (site n) with Eq => Z.compare (seq m) (seq n) | c => c end.
Proof.
  intros Hm Hn. split; [|split].
  - unfold NodeIds.try_from_slice. rewrite length_node_bytes, decide_True by done.
    by rewrite from_to_bytes.
  - by apply from_str_to_string.
  - destruct Hm as [Hm1 Hm2], Hn as [Hn1 Hn2]. unfold u8_ok, u64_ok in *.
    unfold NodeIds.to_bytes. cbn [lex].
    rewrite !u8b_b8, !Z.mod_small by lia.
    destruct (Z.compare (site m) (site n)); try done.
    apply lex_be_bytes; simpl; lia.
Qed.

Lemma node_id_roundtrip_witness :
  NodeIds.from_str (NodeIds.to_string (mkNodeId 255 18446744073709551615))
    = inl (mkNodeId 255 18446744073709551615).
Proof.
  refine (proj1 (proj2 (node_id_roundtrip (mkNodeId 1 100) (mkNodeId 255 18446744073709551615) _ _)));
    unfold node_id_ok, u8_ok, u64_ok; simpl; lia.
Defined.

Lemma edge_from_str s :
  EdgeIds.from_str s =
    match NodeIds.from_str s with inl n => inl (mkEdgeId (site n) (seq n)) | inr e => inr e end.
Proof. unfold EdgeIds.from_str, NodeIds.from_str. by repeat case_match. Qed.

(** Edge identifiers have the same two forms. *)
Theorem edge_id_roundtrip n :
  edge_id_ok n ->
  EdgeIds.try_from_slice (EdgeIds.to_bytes n) = Some n /\
  EdgeIds.from_str (EdgeIds.to_string n) = inl n.
Proof.
  destruct n as [si se]. intros H. unfold edge_id_ok in H. cbn [esite eseq] in H.
  pose proof (from_to_bytes (mkNodeId si se) H) as H1.
  pose proof (from_str_to_string (mkNodeId si se) H) as H2.
  split.
  - unfold NodeIds.to_bytes, NodeIds.from_bytes in H1.
    unfold EdgeIds.try_from_slice, EdgeIds.to_bytes, EdgeIds.from_bytes.
    cbn [esite eseq site seq] in *. rewrite decide_True by done.
    exact (f_equal (fun n => Some (mkEdgeId (site n) (seq n))) H1).
  - rewrite edge_from_str. change (EdgeIds.to_string (mkEdgeId si se))
      with (NodeIds.to_string (mkNodeId si se)). by rewrite H2.
Qed.

(** The textual form is not unique.  [FromStr] accepts a leading
    plus sign and leading zeros, so different strings name the same node. *)
Theorem from_str_aliases :
  NodeIds.from_str "1_5" = inl (mkNodeId 1 5) /\
  NodeIds.from_str "01_5" = inl (mkNodeId 1 5) /\
  NodeIds.from_str "+1_+005" = inl (mkNodeId 1 5).
Proof. repeat split; vm_compute; reflexivity. Qed.
