(* ===== verification/Encoding.v ===== *)
(** * Index and tuple encodings

    [pelago-core/src/encoding.rs]: order-preserving encodings of integers and
    floats, the encoding of a value at an index position, and the tuple builder
    that assembles keys.  The CBOR helpers of that file call a third-party codec;
    they are the interface [Cbor] of the file [Fdb]. *)

From Stdlib Require Import SpecFloat.
From S2P Require Import Prelude Bytes Text Errors Types.

(** ** Integers *)

(** [bytes[0] ^= 0x80] *)
Definition flip_sign (b : bytes) : bytes :=
  match b with b0 :: r => b8 (Z.lxor (u8b b0) 0x80) :: r | [] => [] end.

Definition encode_int_for_index (n : Z) : bytes := flip_sign (be_bytes 8 n).

Definition decode_int_from_index (b : bytes) : Z := wrap_i64 (be_val (flip_sign b)).

(** ** Floats *)

Definition SIGN_BIT : Z := 0x8000000000000000.

(** [!x] on a [u64]. *)
Definition u64_not (x : Z) : Z := Z.lxor x U64_MAX.

Definition encode_float_for_index (bits : Z) : bytes :=
  let encoded := if negb (Z.land bits SIGN_BIT =? 0) then u64_not bits
                 else Z.lxor bits SIGN_BIT in
  be_bytes 8 encoded.

Definition decode_float_from_index (b : bytes) : Z :=
  let encoded := be_val b in
  if Z.land encoded SIGN_BIT =? 0 then u64_not encoded else Z.lxor encoded SIGN_BIT.

Definition encode_value_for_index (v : Value) : result bytes :=
  match v with
  | VString s => Ok (sbytes s)
  | VInt n => Ok (encode_int_for_index n)
  | VFloat f => Ok (encode_float_for_index f)
  | VTimestamp t => Ok (encode_int_for_index t)
  | VBool b => Ok [if b then Byte.x01 else Byte.x00]
  | VBytes b => Ok b
  | VNull => Err (Internal "Cannot encode null for index")
  end.

(** ** Tuple builder *)

Record TupleBuilder := mkTuple { buf : bytes }.

(** A null byte inside an element is escaped. *)
Definition escape (l : bytes) : bytes :=
  flat_map (fun b => if decide (b = Byte.x00) then [Byte.x00; Byte.xff] else [b]) l.

Module Tuple.
Definition new : TupleBuilder := mkTuple [].
Definition add_string (t : TupleBuilder) (s : string) : TupleBuilder :=
  mkTuple (buf t ++ [Byte.x02] ++ escape (sbytes s) ++ [Byte.x00]).
Definition add_bytes (t : TupleBuilder) (b : bytes) : TupleBuilder :=
  mkTuple (buf t ++ [Byte.x01] ++ escape b ++ [Byte.x00]).
Definition add_raw_bytes (t : TupleBuilder) (b : bytes) : TupleBuilder := mkTuple (buf t ++ b).
Definition add_int (t : TupleBuilder) (n : Z) : TupleBuilder :=
  mkTuple (buf t ++ [Byte.x14] ++ encode_int_for_index n).
Definition add_marker (t : TupleBuilder) (m : byte) : TupleBuilder := mkTuple (buf t ++ [m]).
Definition build (t : TupleBuilder) : bytes := buf t.
Definition build_range_end (t : TupleBuilder) : bytes := buf t ++ [Byte.xff].
End Tuple.

(** ** Integer encoding: facts *)

Lemma flip_byte b : u8b (b8 (Z.lxor (u8b b) 0x80)) = if u8b b <? 128 then u8b b + 128 else u8b b - 128.
Proof. destruct b; reflexivity. Qed.

Lemma length_flip_sign b : length (flip_sign b) = length b.
Proof. by destruct b. Qed.

Lemma flip_sign_involutive b : flip_sign (flip_sign b) = b.
Proof.
  destruct b as [|x b]; [done|]. simpl. f_equal. apply u8b_inj. rewrite !flip_byte.
  pose proof (u8b_range x).
  destruct (Z.ltb_spec (u8b x) 128); case_match; lia.
Qed.

Lemma flip_sign_val b :
  length b = 8%nat ->
  be_val (flip_sign b) = if be_val b <? 2 ^ 63 then be_val b + 2 ^ 63 else be_val b - 2 ^ 63.
Proof.
  destruct b as [|x b]; [done|]. intros [= H]. cbn [flip_sign be_val].
  rewrite flip_byte, H. pose proof (be_val_range b) as Hr. rewrite H in Hr.
  change (256 ^ Z.of_nat 7) with (2 ^ 56) in *. pose proof (u8b_range x).
  destruct (Z.ltb_spec (u8b x) 128), (Z.ltb_spec (u8b x * 2 ^ 56 + be_val b) (2 ^ 63)); lia.
Qed.

Lemma encode_int_val n : i64_ok n -> be_val (encode_int_for_index n) = n + 2 ^ 63.
Proof.
  intros Hn. unfold encode_int_for_index. rewrite flip_sign_val by apply length_be_bytes.
  rewrite be_val_be_bytes. change (256 ^ Z.of_nat 8) with (2 ^ 64). unfold i64_ok in Hn.
  destruct (Z.ltb_spec (n mod 2 ^ 64) (2 ^ 63)); zdiv.
Qed.

Lemma length_encode_int n : length (encode_int_for_index n) = 8%nat.
Proof. unfold encode_int_for_index. by rewrite length_flip_sign, length_be_bytes. Qed.

Lemma decode_encode_int n : i64_ok n -> decode_int_from_index (encode_int_for_index n) = n.
Proof.
  intros Hn. unfold decode_int_from_index, encode_int_for_index.
  rewrite flip_sign_involutive, be_val_be_bytes.
  change (256 ^ Z.of_nat 8) with (2 ^ 64). by rewrite wrap_i64_mod, wrap_i64_id.
Qed.

Lemma encode_int_inj m n :
  i64_ok m -> i64_ok n -> encode_int_for_index m = encode_int_for_index n -> m = n.
Proof. intros Hm Hn H. by rewrite <- (decode_encode_int m), H, decode_encode_int. Qed.

Lemma encode_int_lex m n :
  i64_ok m -> i64_ok n ->
  lex (encode_int_for_index m) (encode_int_for_index n) = Z.compare m n.
Proof.
  intros Hm Hn. rewrite lex_be_val by (by rewrite !length_encode_int).
  rewrite !encode_int_val by done. rewrite !(Z.add_comm _ (2 ^ 63)). apply Z.add_compare_mono_l.
Qed.

(** The integer index encoding is order preserving and invertible over
    the whole of [i64]. *)
Theorem int_index_encoding m n :
  i64_ok m -> i64_ok n ->
  length (encode_int_for_index n) = 8%nat /\
  decode_int_from_index (encode_int_for_index n) = n /\
  lex (encode_int_for_index m) (encode_int_for_index n) = Z.compare m n.
Proof.
  intros. split; [apply length_encode_int|]. split; [by apply decode_encode_int|].
  by apply encode_int_lex.
Qed.

Lemma int_index_encoding_witness :
  lex (encode_int_for_index (-9223372036854775808)) (encode_int_for_index 9223372036854775807) = Lt.
Proof.
  exact (proj2 (proj2 (int_index_encoding (-9223372036854775808) 9223372036854775807
    ltac:(unfold i64_ok; lia) ltac:(unfold i64_ok; lia)))).
Defined.

(** ** Float encoding: facts *)

Lemma land_pow2 b n : 0 <= n -> Z.land b (2 ^ n) = if Z.testbit b n then 2 ^ n else 0.
Proof.
  intros Hn. apply Z.bits_inj'. intros i Hi. rewrite Z.land_spec, Z.pow2_bits_eqb by lia.
  destruct (Z.testbit b n) eqn:E; rewrite ?Z.pow2_bits_eqb, ?Z.bits_0 by lia;
    destruct (Z.eqb_spec n i); subst; rewrite ?E, ?andb_false_r; done.
Qed.

Lemma land_sign bits : u64_ok bits -> Z.land bits SIGN_BIT = if bits <? 2 ^ 63 then 0 else 2 ^ 63.
Proof.
  intros Hb. unfold u64_ok in Hb. change SIGN_BIT with (2 ^ 63). rewrite land_pow2 by lia.
  rewrite Z.testbit_eqb by lia.
  destruct (Z.ltb_spec bits (2 ^ 63)), (Z.eqb_spec (bits / 2 ^ 63 mod 2) 1); try done; zdiv.
Qed.

Lemma u64_not_val b : u64_ok b -> u64_not b = 2 ^ 64 - 1 - b.
Proof.
  intros Hb. unfold u64_not. pose proof (Z.add_lxor_2land b U64_MAX) as H.
  assert (Z.land b U64_MAX = b) as E.
  { change U64_MAX with (Z.ones 64). rewrite Z.land_ones by lia. apply Z.mod_small, Hb. }
  rewrite E in H. unfold U64_MAX in *. lia.
Qed.

Lemma lxor_sign b :
  u64_ok b -> Z.lxor b SIGN_BIT = if b <? 2 ^ 63 then b + 2 ^ 63 else b - 2 ^ 63.
Proof.
  intros Hb. pose proof (Z.add_lxor_2land b SIGN_BIT) as H. rewrite land_sign in H by done.
  change SIGN_BIT with (2 ^ 63) in *. destruct (b <? 2 ^ 63); lia.
Qed.

(** The position of a float among all 64-bit patterns: negative patterns in
    reverse order of magnitude below the positive ones. *)
Definition f64_key (bits : Z) : Z :=
  if bits <? 2 ^ 63 then bits + 2 ^ 63 else 2 ^ 64 - 1 - bits.

Lemma encode_float_key bits : u64_ok bits -> encode_float_for_index bits = be_bytes 8 (f64_key bits).
Proof.
  intros Hb. unfold encode_float_for_index, f64_key. rewrite land_sign by done.
  rewrite lxor_sign, u64_not_val by done. by destruct (bits <? 2 ^ 63).
Qed.

Lemma f64_key_range bits : u64_ok bits -> 0 <= f64_key bits < 256 ^ Z.of_nat 8.
Proof.
  unfold u64_ok, f64_key. change (256 ^ Z.of_nat 8) with (2 ^ 64).
  intros. destruct (Z.ltb_spec bits (2 ^ 63)); lia.
Qed.

Lemma decode_encode_float bits :
  u64_ok bits -> decode_float_from_index (encode_float_for_index bits) = bits.
Proof.
  intros Hb. rewrite encode_float_key by done. unfold decode_float_from_index.
  pose proof (f64_key_range bits Hb). rewrite be_val_be_bytes, Z.mod_small by done.
  assert (u64_ok (f64_key bits)) as Hk by (unfold u64_ok; lia).
  rewrite land_sign, lxor_sign, u64_not_val by done. unfold f64_key, u64_ok in *.
  destruct (Z.ltb_spec bits (2 ^ 63)); repeat case_match; lia.
Qed.

Lemma encode_float_lex a b :
  u64_ok a -> u64_ok b ->
  lex (encode_float_for_index a) (encode_float_for_index b) = Z.compare (f64_key a) (f64_key b).
Proof. intros. rewrite !encode_float_key by done. apply lex_be_bytes; by apply f64_key_range. Qed.

(** *** The reference semantics of a bit pattern

    [f64_spec] reads a pattern as a binary64 number of the standard library's
    formalisation of IEEE 754; [SFcompare] is its comparison. *)
Definition f64_spec (bits : Z) : spec_float :=
  let s := 2 ^ 63 <=? bits in
  let a := f64_abs bits in
  let e := a / 2 ^ 52 in let m := a mod 2 ^ 52 in
  if e =? 2047 then if m =? 0 then S754_infinity s else S754_nan
  else if e =? 0 then
    if m =? 0 then S754_zero s else S754_finite s (Z.to_pos m) (-1074)
  else S754_finite s (Z.to_pos (m + 2 ^ 52)) (e - 1075).

(** Sign and magnitude of a pattern, and how its position follows from them. *)
Lemma f64_sign_mag bits :
  u64_ok bits ->
  0 <= f64_abs bits < 2 ^ 63 /\
  bits = (if 2 ^ 63 <=? bits then 2 ^ 63 else 0) + f64_abs bits /\
  f64_key bits = if 2 ^ 63 <=? bits then 2 ^ 63 - 1 - f64_abs bits else 2 ^ 63 + f64_abs bits.
Proof.
  unfold u64_ok, f64_abs, f64_key. intros.
  destruct (Z.leb_spec (2 ^ 63) bits), (Z.ltb_spec bits (2 ^ 63)); zdiv.
Qed.

(** Comparison of magnitudes through exponent and significand. *)
Lemma mag_split a :
  0 <= a < 2 ^ 63 ->
  a = 2 ^ 52 * (a / 2 ^ 52) + (a mod 2 ^ 52) /\ 0 <= a mod 2 ^ 52 < 2 ^ 52 /\ 0 <= a / 2 ^ 52 < 2048.
Proof. intros. zdiv. Qed.

Lemma to_pos_compare_cont p q :
  0 < p -> 0 < q -> Pos.compare_cont Eq (Z.to_pos p) (Z.to_pos q) = Z.compare p q.
Proof. intros. symmetry. by apply Z2Pos.inj_compare. Qed.

(** The IEEE comparison of two patterns that are not NaN, in terms of their
    positions; only the two zeros compare equal at different positions. *)
Lemma f64_compare_key a b :
  u64_ok a -> u64_ok b -> f64_is_nan a = false -> f64_is_nan b = false ->
  SFcompare (f64_spec a) (f64_spec b) =
    Some (if f64_eq a b then Eq else Z.compare (f64_key a) (f64_key b)).
Proof.
  intros Ha Hb Hna Hnb.
  destruct (f64_sign_mag a Ha) as (Hra & Hea & Hka), (f64_sign_mag b Hb) as (Hrb & Heb & Hkb).
  unfold f64_eq. rewrite Hna, Hnb, Hka, Hkb. unfold f64_is_nan, F64_INF in *. unfold f64_spec.
  destruct (mag_split (f64_abs a) Hra) as (Hsa & Hma & Hpa),
    (mag_split (f64_abs b) Hrb) as (Hsb & Hmb & Hpb).
  apply Z.ltb_ge in Hna, Hnb.
  set (ea := f64_abs a / 2 ^ 52) in *. set (ma := f64_abs a mod 2 ^ 52) in *.
  set (eb := f64_abs b / 2 ^ 52) in *. set (mb := f64_abs b mod 2 ^ 52) in *.
  clearbody ea ma eb mb. change (negb false && negb false) with true. rewrite andb_true_l.
  repeat match goal with
  | |- context [?x =? ?y] => destruct (Z.eqb_spec x y); try lia
  | |- context [2 ^ 63 <=? ?y] => destruct (Z.leb_spec (2 ^ 63) y); try lia
  end; cbn [SFcompare orb andb]; rewrite ?to_pos_compare_cont by lia; f_equal;
  repeat match goal with
  | |- context [Z.compare ?x ?y] => destruct (Z.compare_spec x y); cbn [CompOpp]; try lia
  end; try reflexivity.
Qed.

(** The float index encoding is invertible on every bit pattern, and on
    numbers its byte order refines the IEEE 754 order: the encodings compare as
    the numbers do, and numbers that compare equal are exactly the equal ones. *)
Theorem float_index_encoding a b :
  u64_ok a -> u64_ok b ->
  decode_float_from_index (encode_float_for_index a) = a /\
  (f64_is_nan a = false -> f64_is_nan b = false ->
   SFcompare (f64_spec a) (f64_spec b) =
     Some (if f64_eq a b then Eq
           else lex (encode_float_for_index a) (encode_float_for_index b))).
Proof.
  intros Ha Hb. split; [by apply decode_encode_float|]. intros Hna Hnb.
  rewrite encode_float_lex by done. by apply f64_compare_key.
Qed.

(** -0.1 is below 0.1 and encodes below it. *)
Lemma float_index_encoding_witness :
  SFcompare (f64_spec 13817750086345562522) (f64_spec 4591870180066957722) = Some Lt /\
  lex (encode_float_for_index 13817750086345562522) (encode_float_for_index 4591870180066957722) = Lt.
Proof.
  assert (u64_ok 13817750086345562522) by (unfold u64_ok; lia).
  assert (u64_ok 4591870180066957722) by (unfold u64_ok; lia).
  split; [|vm_compute; reflexivity].
  rewrite (proj2 (float_index_encoding 13817750086345562522 4591870180066957722
    ltac:(assumption) ltac:(assumption)) ltac:(vm_compute; reflexivity) ltac:(vm_compute; reflexivity)).
  vm_compute. reflexivity.
Defined.

(** ** Tuple elements: facts

    An element is its type byte, its escaped bytes and a terminating null.  The
    encoding is self-delimiting as long as the next byte of the key is not the
    escape byte 0xFF. *)

Definition not_ff (l : bytes) : Prop := hd_error l <> Some Byte.xff.

Lemma escape_nil : escape [] = [].
Proof. reflexivity. Qed.

Lemma escape_cons b l :
  escape (b :: l) = (if decide (b = Byte.x00) then [Byte.x00; Byte.xff] else [b]) ++ escape l.
Proof. reflexivity. Qed.

Lemma u8b_pos b : b <> Byte.x00 -> 0 < u8b b.
Proof.
  intros Hb. pose proof (u8b_range b). destruct (Z.eq_dec (u8b b) 0) as [E|]; [|lia].
  destruct Hb. by apply u8b_inj.
Qed.

Lemma compare_null_l b : b <> Byte.x00 -> Z.compare (u8b Byte.x00) (u8b b) = Lt.
Proof. intros H%u8b_pos. by apply Z.compare_lt_iff. Qed.

Lemma compare_null_r b : b <> Byte.x00 -> Z.compare (u8b b) (u8b Byte.x00) = Gt.
Proof. intros H%u8b_pos. apply Z.compare_gt_iff. change (u8b Byte.x00) with 0. lia. Qed.

Lemma u8b_lt_ff b : b <> Byte.xff -> u8b b < 255.
Proof.
  intros Hb. pose proof (u8b_range b). destruct (Z.eq_dec (u8b b) 255) as [E|]; [|lia].
  destruct Hb. by apply u8b_inj.
Qed.

Lemma lex_null_not_ff x l : not_ff x -> lex (Byte.x00 :: x) (Byte.x00 :: Byte.xff :: l) = Lt.
Proof.
  intros Hx. cbn [lex]. rewrite Z.compare_refl. destruct x as [|b x]; [done|]. cbn [lex].
  assert (b <> Byte.xff) as Hb%u8b_lt_ff by (intros ->; by apply Hx).
  change (u8b Byte.xff) with 255.
  by rewrite (proj2 (Z.compare_lt_iff _ _) Hb).
Qed.

(** The order of two terminated elements is the order of their contents, then
    that of what follows. *)
Lemma lex_escape a b x y :
  not_ff x -> not_ff y ->
  lex (escape a ++ Byte.x00 :: x) (escape b ++ Byte.x00 :: y) =
    match lex a b with Eq => lex x y | c => c end.
Proof.
  intros Hx Hy. revert b. induction a as [|c a IH]; intros [|d b].
  - rewrite escape_nil, !app_nil_l. cbn [lex]. by rewrite Z.compare_refl.
  - rewrite escape_nil, app_nil_l, escape_cons. case_decide as Hd.
    + subst. by rewrite <- app_assoc, <- !app_comm_cons, lex_null_not_ff.
    + rewrite <- app_assoc. cbn [lex app]. by rewrite compare_null_l.
  - rewrite escape_nil, app_nil_l, escape_cons. case_decide as Hc.
    + subst. by rewrite <- app_assoc, <- !app_comm_cons, lex_antisym, lex_null_not_ff.
    + rewrite <- app_assoc. cbn [lex app]. by rewrite compare_null_r.
  - rewrite !escape_cons, <- !app_assoc. cbn [lex].
    destruct (decide (c = Byte.x00)) as [->|Hc], (decide (d = Byte.x00)) as [->|Hd].
    + rewrite <- !app_comm_cons. cbn [lex]. rewrite !Z.compare_refl. apply IH.
    + rewrite <- !app_comm_cons. cbn [lex]. by rewrite compare_null_l.
    + rewrite <- !app_comm_cons. cbn [lex]. by rewrite compare_null_r.
    + rewrite <- !app_comm_cons. cbn [lex app]. destruct (Z.compare (u8b c) (u8b d)); auto.
Qed.

Lemma escape_inj_ff a b x y :
  not_ff x -> not_ff y ->
  escape a ++ Byte.x00 :: x = escape b ++ Byte.x00 :: y -> a = b /\ x = y.
Proof.
  intros Hx Hy H. pose proof (lex_escape a b x y Hx Hy) as E.
  rewrite H, lex_refl in E. destruct (lex a b) eqn:Ea; try done.
  split; apply lex_eq; congruence.
Qed.

Lemma escape_no_null a : Byte.x00 ∉ a -> escape a = a.
Proof.
  induction a as [|c a IH]; [done|]. intros [Hc Ha]%not_elem_of_cons.
  rewrite escape_cons, decide_False by congruence. by rewrite IH.
Qed.

(** Null-free elements are delimited whatever follows them. *)
Lemma escape_inj_no_null a b x y :
  Byte.x00 ∉ a -> Byte.x00 ∉ b ->
  escape a ++ Byte.x00 :: x = escape b ++ Byte.x00 :: y -> a = b /\ x = y.
Proof.
  intros Ha Hb. rewrite !escape_no_null by done. revert b Hb.
  induction a as [|c a IH]; intros [|d b] Hb; cbn [app]; intros H; simplify_eq.
  - done.
  - by apply not_elem_of_cons in Hb as [? _].
  - by apply not_elem_of_cons in Ha as [? _].
  - apply not_elem_of_cons in Ha as [_ Ha], Hb as [_ Hb].
    destruct (IH Ha b Hb) as [-> ->]; done.
Qed.

Lemma length_escape_inj a b : escape a = escape b -> a = b.
Proof.
  intros H. apply (escape_inj_ff a b [] []); [done..|]. by rewrite H.
Qed.

(** The complete encoding of a string element. *)
Definition enc_str (s : string) : bytes := Byte.x02 :: escape (sbytes s) ++ [Byte.x00].
Definition enc_bytes (b : bytes) : bytes := Byte.x01 :: escape b ++ [Byte.x00].
Definition no_null (s : string) : Prop := Byte.x00 ∉ sbytes s.

#[export] Instance no_null_dec s : Decision (no_null s).
Proof. unfold no_null. apply _. Defined.

Lemma enc_str_app s x : enc_str s ++ x = Byte.x02 :: escape (sbytes s) ++ Byte.x00 :: x.
Proof. unfold enc_str. by rewrite <- app_comm_cons, <- app_assoc. Qed.

Lemma enc_str_inj s t x y :
  not_ff x -> not_ff y -> enc_str s ++ x = enc_str t ++ y -> s = t /\ x = y.
Proof.
  intros Hx Hy. rewrite !enc_str_app. intros [= H].
  apply escape_inj_ff in H as [H ->]; [|done..]. split; [|done]. by apply (inj sbytes).
Qed.

Lemma enc_str_inj_no_null s t x y :
  no_null s -> no_null t -> enc_str s ++ x = enc_str t ++ y -> s = t /\ x = y.
Proof.
  intros Hs Ht. rewrite !enc_str_app. intros [= H].
  apply escape_inj_no_null in H as [H ->]; [|done..]. split; [|done]. by apply (inj sbytes).
Qed.

Lemma enc_bytes_app s x : enc_bytes s ++ x = Byte.x01 :: escape s ++ Byte.x00 :: x.
Proof. unfold enc_bytes. by rewrite <- app_comm_cons, <- app_assoc. Qed.

Lemma enc_bytes_inj s t x y :
  not_ff x -> not_ff y -> enc_bytes s ++ x = enc_bytes t ++ y -> s = t /\ x = y.
Proof.
  intros Hx Hy. rewrite !enc_bytes_app. intros [= H]. by apply escape_inj_ff in H.
Qed.

Lemma not_ff_cons b l : b <> Byte.xff -> not_ff (b :: l).
Proof. unfold not_ff. simpl. congruence. Qed.
Lemma not_ff_enc_str s x : not_ff (enc_str s ++ x).
Proof. rewrite enc_str_app. by apply not_ff_cons. Qed.
Lemma not_ff_enc_bytes s x : not_ff (enc_bytes s ++ x).
Proof. rewrite enc_bytes_app. by apply not_ff_cons. Qed.
Lemma not_ff_nil : not_ff [].
Proof. done. Qed.
#[export] Hint Resolve not_ff_nil not_ff_enc_str not_ff_enc_bytes : pelago.

(** String elements of a tuple key are delimited and ordered: when what
    follows does not begin with the escape byte 0xFF, the keys are equal only if
    the strings and the remainders are, and they sort by the strings first. *)
Theorem tuple_string_order t s1 s2 r1 r2 :
  not_ff r1 -> not_ff r2 ->
  let k1 := Tuple.build (Tuple.add_raw_bytes (Tuple.add_string t s1) r1) in
  let k2 := Tuple.build (Tuple.add_raw_bytes (Tuple.add_string t s2) r2) in
  (k1 = k2 <-> s1 = s2 /\ r1 = r2) /\
  lex k1 k2 = match lex (sbytes s1) (sbytes s2) with Eq => lex r1 r2 | c => c end.
Proof.
  intros H1 H2 k1 k2. subst k1 k2. unfold Tuple.build, Tuple.add_raw_bytes, Tuple.add_string.
  cbn [buf]. rewrite <- !app_assoc. split.
  - split; [|by intros [-> ->]]. intros H%app_inv_head.
    apply (enc_str_inj s1 s2); [done..|]. by rewrite !enc_str_app.
  - rewrite lex_app. cbn [app lex]. rewrite Z.compare_refl. by apply lex_escape.
Qed.

Lemma tuple_string_order_witness :
  Tuple.build (Tuple.add_raw_bytes (Tuple.add_string Tuple.new "a") [Byte.x01])
    <> Tuple.build (Tuple.add_raw_bytes (Tuple.add_string Tuple.new "ab") []).
Proof.
  intros H. apply (proj1 (tuple_string_order Tuple.new "a" "ab" [Byte.x01] []
    ltac:(done) ltac:(done))) in H. by destruct H.
Defined.

(** Without that condition the tuple encoding is ambiguous.  Raw
    bytes that begin with 0xFF, such as the 9-byte form of a node of site 255,
    turn the terminator into an escaped null. *)
Theorem tuple_ff_ambiguous :
  Tuple.build (Tuple.add_raw_bytes (Tuple.add_string Tuple.new "a") [Byte.xff; Byte.x62; Byte.x00])
  = Tuple.build (Tuple.add_string Tuple.new (bstr [Byte.x61; Byte.x00; Byte.x62])).
Proof. reflexivity. Qed.
