(* ===== verification/Subspace.v ===== *)
(** * Key space layout

    [pelago-storage/src/subspace.rs]: the hierarchical prefixes
    (database, namespace, subspace) under which every component stores its keys,
    and the prefix range that scans use.  The theorems state what the rest of
    the library relies on: keys of different subspaces never meet, and the range
    from a prefix to [range_end] holds exactly the keys whose byte after the
    prefix is not 0xFF. *)

From S2P Require Import Prelude Bytes Text Errors Types Encoding.

Module markers.
Definition SYS := "_sys".
Definition DB := "_db".
Definition NS := "_ns".
Definition SCHEMA := "_schema".
Definition CDC := "_cdc".
Definition JOBS := "_jobs".
Definition IDS := "_ids".
Definition DATA := "data".
Definition LOC := "loc".
Definition IDX := "idx".
Definition EDGE := "edge".
Definition META := "_meta".
End markers.

Module edge_markers.
Definition FORWARD : byte := Byte.x66.
Definition FORWARD_META : byte := Byte.x6d.
Definition REVERSE : byte := Byte.x72.
End edge_markers.

Record Subspace := mkSubspace { prefix : bytes }.

Module Sub.
Definition root : Subspace := mkSubspace [].
Definition database (db : string) : Subspace :=
  mkSubspace (Tuple.build (Tuple.add_string Tuple.new db)).
Definition namespace (db ns : string) : Subspace :=
  mkSubspace (Tuple.build (Tuple.add_string (Tuple.add_string Tuple.new db) ns)).

(** The private [subspace] method: it does not escape the name. *)
Definition subspace (s : Subspace) (name : string) : Subspace :=
  mkSubspace (prefix s ++ [Byte.x02] ++ sbytes name ++ [Byte.x00]).

Definition system : Subspace := subspace root markers.SYS.
Definition schema (s : Subspace) : Subspace := subspace s markers.SCHEMA.
Definition data (s : Subspace) : Subspace := subspace s markers.DATA.
Definition index (s : Subspace) : Subspace := subspace s markers.IDX.
Definition edge (s : Subspace) : Subspace := subspace s markers.EDGE.
Definition cdc (s : Subspace) : Subspace := subspace s markers.CDC.
Definition jobs (s : Subspace) : Subspace := subspace s markers.JOBS.
Definition ids (s : Subspace) : Subspace := subspace s markers.IDS.
Definition meta (s : Subspace) : Subspace := subspace s markers.META.
Definition child (s : Subspace) (name : string) : Subspace := subspace s name.

Definition pack (s : Subspace) : TupleBuilder := Tuple.add_raw_bytes Tuple.new (prefix s).
Definition range_end (s : Subspace) : bytes := prefix s ++ [Byte.xff].
End Sub.

(** ** Prefix ranges *)

(** The half-open key range of a scan. *)
Definition in_scan (b e k : bytes) : Prop := ble b k /\ blt k e.
#[export] Instance in_scan_dec b e k : Decision (in_scan b e k).
Proof. unfold in_scan. apply _. Defined.

Lemma lex_ff r : lex r [Byte.xff] = Lt <-> not_ff r.
Proof.
  destruct r as [|b r]; simpl; [done|]. change (u8b Byte.xff) with 255.
  destruct (decide (b = Byte.xff)) as [->|Hb].
  - change (u8b Byte.xff) with 255. rewrite Z.compare_refl. unfold not_ff. simpl.
    split; [by destruct r|done].
  - pose proof (u8b_lt_ff b Hb) as H. rewrite (proj2 (Z.compare_lt_iff _ _) H).
    split; [intros _; by apply not_ff_cons|done].
Qed.

(** A prefix scan returns exactly the keys that extend the prefix with a byte
    other than 0xFF. *)
Lemma in_scan_prefix p k : in_scan p (p ++ [Byte.xff]) k <-> exists r, k = p ++ r /\ not_ff r.
Proof.
  split.
  - intros [H1 H2]. assert (exists r, k = p ++ r) as [r ->].
    { revert k H1 H2. induction p as [|b p IH]; intros k H1 H2; [by exists k|].
      destruct k as [|c k]; [done|]. unfold ble, blt in *. cbn [lex app] in *.
      rewrite Z.compare_antisym in H2.
      destruct (Z.compare_spec (u8b b) (u8b c)) as [E|E|E]; simpl in H2; try done.
      apply u8b_inj in E as <-. destruct (IH k) as [r ->]; [done..|]. by exists r. }
    exists r. split; [done|]. apply lex_ff. unfold blt in H2. by rewrite lex_app in H2.
  - intros (r & -> & Hr). split; [apply ble_app_r|]. unfold blt.
    rewrite lex_app. by apply lex_ff.
Qed.

(** ** Built keys as concatenations *)

Lemma buf_add_string t s : buf (Tuple.add_string t s) = buf t ++ enc_str s.
Proof. reflexivity. Qed.
Lemma buf_add_bytes t b : buf (Tuple.add_bytes t b) = buf t ++ enc_bytes b.
Proof. reflexivity. Qed.
Lemma buf_add_raw_bytes t b : buf (Tuple.add_raw_bytes t b) = buf t ++ b.
Proof. reflexivity. Qed.
Lemma buf_add_int t n : buf (Tuple.add_int t n) = buf t ++ Byte.x14 :: encode_int_for_index n.
Proof. reflexivity. Qed.
Lemma buf_add_marker t m : buf (Tuple.add_marker t m) = buf t ++ [m].
Proof. reflexivity. Qed.
Lemma buf_pack s : buf (Sub.pack s) = prefix s.
Proof. reflexivity. Qed.
Lemma buf_new : buf Tuple.new = [].
Proof. reflexivity. Qed.
#[export] Hint Rewrite buf_add_string buf_add_bytes buf_add_raw_bytes buf_add_int buf_add_marker
  buf_pack buf_new : tuple.

(** [tuple_norm] turns built keys into right-nested concatenations. *)
Ltac tuple_norm := unfold Tuple.build in *; autorewrite with tuple; rewrite <- ?app_assoc.

(** ** Namespaced keys *)

Lemma prefix_namespace db ns : prefix (Sub.namespace db ns) = enc_str db ++ enc_str ns.
Proof. reflexivity. Qed.

Lemma prefix_subspace s m : no_null m -> prefix (Sub.subspace s m) = prefix s ++ enc_str m.
Proof.
  intros Hm. unfold Sub.subspace, enc_str. simpl. by rewrite escape_no_null.
Qed.

(** The full key of an entry [r] of subspace [m] of a namespace. *)
Lemma ns_key db ns m r :
  no_null m ->
  prefix (Sub.subspace (Sub.namespace db ns) m) ++ r
    = enc_str db ++ (enc_str ns ++ (enc_str m ++ r)).
Proof.
  intros Hm. rewrite prefix_subspace by done. rewrite prefix_namespace. by rewrite <- !app_assoc.
Qed.

Lemma ns_key_inj db ns m r db' ns' m' r' :
  no_null m -> no_null m' ->
  prefix (Sub.subspace (Sub.namespace db ns) m) ++ r
    = prefix (Sub.subspace (Sub.namespace db' ns') m') ++ r' ->
  db = db' /\ ns = ns' /\ m = m' /\ r = r'.
Proof.
  intros Hm Hm'. rewrite !ns_key by done. intros H.
  apply enc_str_inj in H as [-> H]; [|apply not_ff_enc_str..].
  apply enc_str_inj in H as [-> H]; [|apply not_ff_enc_str..].
  apply enc_str_inj_no_null in H as [-> H]; done.
Qed.

(** Keys of different subspaces of a namespace are different. *)
Lemma subspace_ne db ns m r m' r' :
  no_null m -> no_null m' -> m <> m' ->
  prefix (Sub.subspace (Sub.namespace db ns) m) ++ r <> prefix (Sub.subspace (Sub.namespace db ns) m') ++ r'.
Proof. intros Hm Hm' Hne E. by apply ns_key_inj in E as (_ & _ & ? & _). Qed.

(** The subspace names the program uses contain no null byte. *)
Definition all_markers : list string :=
  [markers.SYS; markers.DB; markers.NS; markers.SCHEMA; markers.CDC; markers.JOBS; markers.IDS;
   markers.DATA; markers.LOC; markers.IDX; markers.EDGE; markers.META].

Lemma no_null_marker m : m ∈ all_markers -> no_null m.
Proof.
  assert (Forall no_null all_markers) as H by (apply (bool_decide_unpack _); vm_compute; exact I).
  rewrite Forall_forall in H. auto.
Qed.

Ltac marker := apply no_null_marker; apply (bool_decide_unpack _); vm_compute; exact I.

(** Key-space separation.  Two keys of the layout are equal only if they
    belong to the same database, namespace and subspace and have the same
    remainder, for all database and namespace names, null bytes included. *)
Theorem subspace_disjoint db ns m r db' ns' m' r' :
  no_null m -> no_null m' ->
  prefix (Sub.child (Sub.namespace db ns) m) ++ r
    = prefix (Sub.child (Sub.namespace db' ns') m') ++ r' <->
  db = db' /\ ns = ns' /\ m = m' /\ r = r'.
Proof.
  intros Hm Hm'. split; [by apply ns_key_inj|by intros (-> & -> & -> & ->)].
Qed.

Lemma subspace_disjoint_witness :
  prefix (Sub.child (Sub.namespace "db" "ns") markers.DATA) ++ [Byte.x01]
    <> prefix (Sub.child (Sub.namespace "db" "ns") markers.IDX) ++ [Byte.x01].
Proof.
  intros H. apply (proj1 (subspace_disjoint "db" "ns" markers.DATA [Byte.x01] "db" "ns" markers.IDX [Byte.x01]
    ltac:(marker) ltac:(marker))) in H.
  destruct H as (_ & _ & H & _). discriminate H.
Defined.

(** What a prefix scan of a subspace sees.  The keys between a subspace's
    prefix and its [range_end] are those that continue with a byte other than
    0xFF; a key of the subspace that continues with 0xFF is invisible to it. *)
Theorem subspace_scan s k :
  in_scan (prefix s) (Sub.range_end s) k <-> exists r, k = prefix s ++ r /\ hd_error r <> Some Byte.xff.
Proof. apply in_scan_prefix. Qed.
