(* ===== verification/SchemaTypes.v ===== *)
(** * Schema types

    [pelago-core/src/schema.rs]: entity schemas, property and edge definitions
    and the policies that drive validation, with their builder methods. *)

From S2P Require Import Prelude Bytes Text Errors Types.

Inductive IndexType := IdxNone | IdxUnique | IdxEquality | IdxRange.
Inductive EdgeDirection := Outgoing | Bidirectional.
Inductive OwnershipMode := SourceSite | Independent.
Inductive ExtrasPolicy := Reject | Allow | Warn.
Inductive EdgeTarget := Specific (name : string) | Polymorphic.

#[export] Instance IndexType_eq_dec : EqDecision IndexType.
Proof. solve_decision. Defined.
#[export] Instance EdgeDirection_eq_dec : EqDecision EdgeDirection.
Proof. solve_decision. Defined.
#[export] Instance OwnershipMode_eq_dec : EqDecision OwnershipMode.
Proof. solve_decision. Defined.
#[export] Instance ExtrasPolicy_eq_dec : EqDecision ExtrasPolicy.
Proof. solve_decision. Defined.
#[export] Instance EdgeTarget_eq_dec : EqDecision EdgeTarget.
Proof. solve_decision. Defined.

Record PropertyDef := mkPropertyDef {
  property_type : PropertyType;
  required : bool;
  index : IndexType;
  default_value : option Value
}.

Record EdgeDef := mkEdgeDef {
  target : EdgeTarget;
  direction : EdgeDirection;
  edge_properties : gmap string PropertyDef;
  sort_key : option string;
  ownership : OwnershipMode
}.

Record SchemaMeta := mkSchemaMeta {
  allow_undeclared_edges : bool;
  extras_policy : ExtrasPolicy
}.

Record EntitySchema := mkEntitySchema {
  name : string;
  version : Z;
  properties : gmap string PropertyDef;
  edges : gmap string EdgeDef;
  meta : SchemaMeta;
  created_at : Z;
  created_by : string
}.

(** ** Builders *)

Module Meta.
Definition default : SchemaMeta := mkSchemaMeta false Allow.
Definition strict : SchemaMeta := mkSchemaMeta false Reject.
Definition permissive : SchemaMeta := mkSchemaMeta true Allow.
End Meta.

Module PropDefs.
Definition new (t : PropertyType) : PropertyDef := mkPropertyDef t false IdxNone None.
Definition require (p : PropertyDef) : PropertyDef :=
  mkPropertyDef (property_type p) true (index p) (default_value p).
Definition with_index (p : PropertyDef) (i : IndexType) : PropertyDef :=
  mkPropertyDef (property_type p) (required p) i (default_value p).
Definition with_default (p : PropertyDef) (v : Value) : PropertyDef :=
  mkPropertyDef (property_type p) (required p) (index p) (Some v).
End PropDefs.

Module EdgeDefs.
Definition new (t : EdgeTarget) : EdgeDef := mkEdgeDef t Outgoing ∅ None SourceSite.
Definition bidirectional (e : EdgeDef) : EdgeDef :=
  mkEdgeDef (target e) Bidirectional (edge_properties e) (sort_key e) (ownership e).
Definition with_sort_key (e : EdgeDef) (k : string) : EdgeDef :=
  mkEdgeDef (target e) (direction e) (edge_properties e) (Some k) (ownership e).
Definition with_property (e : EdgeDef) (n : string) (p : PropertyDef) : EdgeDef :=
  mkEdgeDef (target e) (direction e) (<[n := p]> (edge_properties e)) (sort_key e) (ownership e).
End EdgeDefs.

Module Schemas.
Definition new (n : string) : EntitySchema := mkEntitySchema n 1 ∅ ∅ Meta.default 0 "".
Definition with_property (s : EntitySchema) (n : string) (p : PropertyDef) : EntitySchema :=
  mkEntitySchema (name s) (version s) (<[n := p]> (properties s)) (edges s) (meta s)
    (created_at s) (created_by s).
Definition with_edge (s : EntitySchema) (n : string) (e : EdgeDef) : EntitySchema :=
  mkEntitySchema (name s) (version s) (properties s) (<[n := e]> (edges s)) (meta s)
    (created_at s) (created_by s).
Definition with_meta (s : EntitySchema) (m : SchemaMeta) : EntitySchema :=
  mkEntitySchema (name s) (version s) (properties s) (edges s) m (created_at s) (created_by s).
Definition set_version (s : EntitySchema) (v : Z) : EntitySchema :=
  mkEntitySchema (name s) v (properties s) (edges s) (meta s) (created_at s) (created_by s).
Definition set_name (s : EntitySchema) (n : string) : EntitySchema :=
  mkEntitySchema n (version s) (properties s) (edges s) (meta s) (created_at s) (created_by s).
End Schemas.

Definition is_polymorphic (t : EdgeTarget) : bool :=
  match t with Polymorphic => true | Specific _ => false end.

Definition is_indexed (i : IndexType) : bool := match i with IdxNone => false | _ => true end.

(** [selectivity] as the bit patterns of 1.0, 0.01, 0.10 and 0.50. *)
Definition selectivity (i : IndexType) : Z :=
  match i with
  | IdxNone => 0x3FF0000000000000
  | IdxUnique => 0x3F847AE147AE147B
  | IdxEquality => 0x3FB999999999999A
  | IdxRange => 0x3FE0000000000000
  end.

(** ** Iteration over a [HashMap]

    The order in which a hash map is iterated is unspecified.  [HashIter] is that
    order: any listing of the entries, without repetition. *)
Class HashIter := {
  hm_iter : forall {K : Type} `{Countable K} {A : Type}, gmap K A -> list (K * A);
  hm_iter_perm : forall {K : Type} `{Countable K} {A : Type} (m : gmap K A), hm_iter m ≡ₚ map_to_list m
}.

#[export] Instance map_to_list_iter : HashIter | 100 :=
  {| hm_iter := fun K _ _ A m => map_to_list m; hm_iter_perm := fun K _ _ A m => reflexivity _ |}.

Section Iter.
Context `{HashIter}.

Lemma elem_of_hm_iter `{Countable K} {A} (m : gmap K A) k v : (k, v) ∈ hm_iter m <-> m !! k = Some v.
Proof. rewrite hm_iter_perm. apply elem_of_map_to_list. Qed.

Lemma NoDup_hm_iter `{Countable K} {A} (m : gmap K A) : NoDup (hm_iter m).*1.
Proof. rewrite hm_iter_perm. apply NoDup_fst_map_to_list. Qed.
End Iter.
