(* ===== verification/Fdb.v ===== *)
(** * The storage substrate

    What the storage layer runs on, as interfaces with laws, and the effect monad
    in which its operations are written.

    - [Fdb S]: a FoundationDB key space in state [S]: point reads, writes,
      clears, ordered range reads in batches, pinned read versions and the
      [SetVersionstampedKey] mutation.  [FdbLaws S] states the documented
      behaviour the program relies on.
    - [Cbor A]: the CBOR codec of a type; [CborLaws A canon] its round trip.
    - [M S A]: operations over a [World]: the key space, the schema cache, the
      identifier allocator, the failpoint registry and a clock.  Every call that
      reaches the database consumes a tick, at which the environment may fail it.
    - [db_*], [create_transaction], [commit_or_internal]: [PelagoDb] of
      [pelago-storage/src/db.rs] and [mutation.rs].  A transaction is a private
      version of the key space; [commit] publishes it. *)

From S2P Require Import Prelude Bytes Text Errors Types Encoding Subspace SchemaTypes.

(** ** Interfaces *)

Class Fdb (S : Type) := {
  kv_get : S -> bytes -> option bytes;
  kv_set : S -> bytes -> bytes -> S;
  kv_clear : S -> bytes -> S;
  (** all rows of the half-open range, in key order *)
  kv_range : S -> bytes -> bytes -> list (bytes * bytes);
  (** one batch of a limited range read: the rows, and the begin key and
      limit of the range that remains, if any *)
  kv_batch : S -> bytes -> bytes -> nat -> nat -> list (bytes * bytes) * option (bytes * nat);
  (** the key space at a pinned read version *)
  kv_at_version : S -> Z -> S;
  (** the versionstamp the next commit is given *)
  kv_stamp : S -> bytes;
  (** the [SetVersionstampedKey] mutation *)
  kv_svk : S -> bytes -> bytes -> S
}.

Definition STAMP_MAX : bytes := repeat Byte.xff 10.

Class FdbLaws (S : Type) `{Fdb S} := {
  kv_get_set : forall s k v k', kv_get (kv_set s k v) k' = if decide (k = k') then Some v else kv_get s k';
  kv_get_clear : forall s k k', kv_get (kv_clear s k) k' = if decide (k = k') then None else kv_get s k';
  kv_range_elem : forall s b e k v, (k, v) ∈ kv_range s b e <-> in_scan b e k /\ kv_get s k = Some v;
  kv_range_sorted : forall s b e, StronglySorted (fun x y => blt x.1 y.1) (kv_range s b e);
  kv_batch_spec : forall s b e lim it rows cont,
    kv_batch s b e lim it = (rows, cont) ->
    match cont with
    | None => rows = firstn lim (kv_range s b e)
    | Some (b', lim') =>
        (lim' < lim)%nat /\ firstn lim (kv_range s b e) = rows ++ firstn lim' (kv_range s b' e)
    end;
  kv_stamp_length : forall s, length (kv_stamp s) = 10%nat;
  kv_stamp_set : forall s k v, kv_stamp (kv_set s k v) = kv_stamp s;
  kv_stamp_clear : forall s k, kv_stamp (kv_clear s k) = kv_stamp s;
  kv_get_svk : forall s p q v k,
    Z.of_nat (length p) < 2 ^ 32 ->
    kv_get (kv_svk s (p ++ repeat Byte.x00 10 ++ q ++ le_bytes 4 (Z.of_nat (length p))) v) k
      = if decide (k = p ++ kv_stamp s ++ q) then Some v else kv_get s k;
  kv_stamp_svk : forall s k v, blt (kv_stamp s) STAMP_MAX -> blt (kv_stamp s) (kv_stamp (kv_svk s k v))
}.

(** A CBOR codec; failures carry the codec's message. *)
Class Cbor (A : Type) := {
  cbor_encode : A -> bytes + string;
  cbor_decode : bytes -> A + string
}.

(** Encoding succeeds with a non-empty buffer, and decoding gives the canonical
    form of the value, for values the codec preserves. *)
Class CborLaws (A : Type) `{Cbor A} (canon : A -> A) (storable : A -> Prop) := {
  cbor_total : forall a, exists b, cbor_encode a = inl b /\ b <> [];
  cbor_roundtrip : forall a b, storable a -> cbor_encode a = inl b -> cbor_decode b = inl (canon a)
}.

Definition encode_cbor `{Cbor A} (a : A) : result bytes :=
  match cbor_encode a with
  | inl b => Ok b
  | inr e => Err (Internal ("CBOR encode error: " ++ e))
  end.

Definition decode_cbor `{Cbor A} (b : bytes) : result A :=
  match cbor_decode b with
  | inl a => Ok a
  | inr e => Err (Internal ("CBOR decode error: " ++ e))
  end.

Lemma encode_cbor_total `{CborLaws A canon storable} (a : A) : exists b, encode_cbor a = Ok b /\ b <> [].
Proof. destruct (cbor_total a) as (b & E & Hb). exists b. unfold encode_cbor. by rewrite E. Qed.

Lemma decode_encode_cbor `{CborLaws A canon storable} (a : A) b :
  storable a -> encode_cbor a = Ok b -> decode_cbor b = Ok (canon a).
Proof.
  unfold encode_cbor, decode_cbor. intros Ha E. destruct (cbor_encode a) eqn:Ee; simplify_eq.
  by rewrite (cbor_roundtrip a b Ha Ee).
Qed.

(** ** How a value comes back from the codec

    [Value] is an untagged enum: the codec writes the payload alone, and reading
    takes the first variant, in declaration order, that accepts it.  A timestamp
    is written as an integer and the [Int] variant comes first.  Whether the bits
    of a NaN survive is not documented, so NaN is outside the round trip. *)
Definition canon_value (v : Value) : Value :=
  match v with VTimestamp t => VInt t | _ => v end.

Definition canon_props (m : Props) : Props := canon_value <$> m.

Definition storable_value (v : Value) : Prop :=
  match v with VFloat b => f64_is_nan b = false | _ => True end.

Definition storable_props (m : Props) : Prop := map_Forall (fun _ v => storable_value v) m.

(** An optional default is written as null when it is the null value, which is
    read as absent. *)
Definition canon_def (d : PropertyDef) : PropertyDef :=
  mkPropertyDef (property_type d) (required d) (index d)
    (match default_value d with Some VNull => None | Some v => Some (canon_value v) | None => None end).

Definition canon_edge_def (d : EdgeDef) : EdgeDef :=
  mkEdgeDef (target d) (direction d) (canon_def <$> edge_properties d) (sort_key d) (ownership d).

Definition canon_schema (s : EntitySchema) : EntitySchema :=
  mkEntitySchema (name s) (version s) (canon_def <$> properties s) (canon_edge_def <$> edges s)
    (meta s) (created_at s) (created_by s).

Definition storable_def (d : PropertyDef) : Prop :=
  match default_value d with Some v => storable_value v | None => True end.

Definition storable_schema (s : EntitySchema) : Prop :=
  map_Forall (fun _ d => storable_def d) (properties s) /\
  map_Forall (fun _ e => map_Forall (fun _ d => storable_def d) (edge_properties e)) (edges s).

(** ** The world *)

(** [FailAction] of [failpoints.rs]. *)
Inductive FailAction := Off | ReturnError (remaining : option Z).

(** The clock and the faults of the database, indexed by ticks. *)
Record Env := mkEnv { env_now : nat -> Z; env_fault : nat -> option string }.

Definition no_faults (env : Env) : Prop := forall n, env_fault env n = None.

Record World (S : Type) := mkWorld {
  w_kv : S;
  w_cache : gmap (string * string * string) EntitySchema;
  w_alloc : gmap string (Z * Z);
  w_failpoints : gmap string FailAction;
  w_tick : nat
}.
Arguments mkWorld {S}.
Arguments w_kv {S}.
Arguments w_cache {S}.
Arguments w_alloc {S}.
Arguments w_failpoints {S}.
Arguments w_tick {S}.

Definition set_kv {S} (w : World S) (s : S) : World S :=
  mkWorld s (w_cache w) (w_alloc w) (w_failpoints w) (w_tick w).
Definition set_cache {S} (w : World S) c : World S :=
  mkWorld (w_kv w) c (w_alloc w) (w_failpoints w) (w_tick w).
Definition set_alloc {S} (w : World S) a : World S :=
  mkWorld (w_kv w) (w_cache w) a (w_failpoints w) (w_tick w).
Definition set_failpoints {S} (w : World S) f : World S :=
  mkWorld (w_kv w) (w_cache w) (w_alloc w) f (w_tick w).
Definition next_tick {S} (w : World S) : World S :=
  mkWorld (w_kv w) (w_cache w) (w_alloc w) (w_failpoints w) (w_tick w + 1).

Definition M (S A : Type) : Type := Env -> World S -> result A * World S.

#[export] Instance M_ret {S} : MRet (M S) := fun A a env w => (Ok a, w).
#[export] Instance M_bind {S} : MBind (M S) := fun A B f m env w =>
  match m env w with
  | (Ok a, w') => f a env w'
  | (Err e, w') => (Err e, w')
  end.

Definition lift {S A} (r : result A) : M S A := fun env w => (r, w).
Definition throw {S A} (e : PelagoError) : M S A := lift (Err e).
Definition get_world {S} : M S (World S) := fun env w => (Ok w, w).
Definition put_world {S} (w' : World S) : M S unit := fun env w => (Ok tt, w').

(** [when c m]: an [if] without an else branch. *)
Definition when {S} (c : bool) (m : M S unit) : M S unit := if c then m else mret tt.

(** Run an operation and keep its error as a value. *)
Definition attempt {S A} (m : M S A) : M S (result A) := fun env w =>
  let '(r, w') := m env w in (Ok r, w').

(** A [for] loop whose body may return early with an error. *)
Fixpoint for_each {S A} (l : list A) (f : A -> M S unit) : M S unit :=
  match l with [] => mret tt | x :: l' => f x ;; for_each l' f end.

(** A [for] loop that threads an accumulator. *)
Fixpoint fold_m {S A B} (l : list A) (f : B -> A -> M S B) (b : B) : M S B :=
  match l with [] => mret b | x :: l' => b' ← f b x; fold_m l' f b' end.

(** ** Primitive effects *)

(** [SystemTime::now()] in microseconds. *)
Definition now {S} : M S Z := fun env w => (Ok (env_now env (w_tick w)), next_tick w).

(** A call to the database that may fail with the error [mk] builds. *)
Definition may_fail {S} (mk : string -> PelagoError) : M S unit := fun env w =>
  (match env_fault env (w_tick w) with Some e => Err (mk e) | None => Ok tt end, next_tick w).

Definition unavailable (e : string) : PelagoError :=
  FdbUnavailable ("Failed to create transaction: " ++ e).

Module Failpoints.
Definition should_fire (a : FailAction) : bool * FailAction :=
  match a with
  | Off => (false, Off)
  | ReturnError (Some n) =>
      if n =? 0 then (false, ReturnError (Some n)) else (true, ReturnError (Some (n - 1)))
  | ReturnError None => (true, ReturnError None)
  end.

Definition configure {S} (name : string) (a : FailAction) : M S unit :=
  w ← get_world; put_world (set_failpoints w (<[name := a]> (w_failpoints w))).

Definition clear {S} (name : string) : M S unit :=
  w ← get_world; put_world (set_failpoints w (delete name (w_failpoints w))).

Definition inject {S} (name : string) : M S unit := fun env w =>
  match w_failpoints w !! name with
  | None => (Ok tt, w)
  | Some a =>
      let '(fires, a') := should_fire a in
      let w' := set_failpoints w (<[name := a']> (w_failpoints w)) in
      if fires then (Err (Internal ("Injected failpoint triggered: " ++ name)), w')
      else (Ok tt, w')
  end.

(** [char::is_ascii_alphanumeric] and [to_ascii_lowercase] on one byte. *)
Definition label_byte (b : byte) : byte :=
  if in_range 65 90 b then b8 (u8b b + 32)
  else if in_range 97 122 b || in_range 48 57 b then b
  else Byte.x5f.

(** One output character per character: the continuation bytes of a
    multi-byte character are dropped with it. *)
Definition action_label (action : string) : string :=
  bstr (map label_byte (List.filter (fun b => negb (cont_byte b)) (sbytes action))).

Definition inject_action {S} (pre action : string) : M S unit :=
  inject (pre ++ "." ++ action_label action)%string.
End Failpoints.

(** ** [PelagoDb] *)

Section Db.
Context {S : Type} `{Fdb S}.

Definition create_transaction : M S S :=
  may_fail unavailable ;; w ← get_world; mret (w_kv w).

Definition snapshot (t : S) (read_version : option Z) : S :=
  match read_version with Some v => kv_at_version t v | None => t end.

(** A read inside a transaction; [mk] is the error of the call site. *)
Definition trx_get (mk : string -> PelagoError) (t : S) (key : bytes) : M S (option bytes) :=
  may_fail mk ;; mret (kv_get t key).

Definition get_at_read_version (key : bytes) (read_version : option Z) : M S (option bytes) :=
  t ← create_transaction;
  trx_get (fun e => Internal ("Get failed: " ++ e)) (snapshot t read_version) key.

Definition db_get (key : bytes) : M S (option bytes) := get_at_read_version key None.

Definition commit (mk : string -> PelagoError) (t : S) : M S unit :=
  may_fail mk ;; w ← get_world; put_world (set_kv w t).

Definition db_set (key value : bytes) : M S unit :=
  t ← create_transaction;
  commit (fun e => Internal ("Commit failed: " ++ e)) (kv_set t key value).

Definition db_clear (key : bytes) : M S unit :=
  t ← create_transaction;
  commit (fun e => Internal ("Commit failed: " ++ e)) (kv_clear t key).

(** The batching loop of [get_range_at_read_version]. *)
Fixpoint range_loop (fuel : nat) (t : S) (b e : bytes) (lim iteration : nat)
    (out : list (bytes * bytes)) : M S (list (bytes * bytes)) :=
  may_fail (fun m => Internal ("Get range failed: " ++ m)) ;;
  let '(rows, cont) := kv_batch t b e lim iteration in
  match cont, fuel with
  | Some (b', lim'), Datatypes.S f => range_loop f t b' e lim' (iteration + 1) (out ++ rows)
  | _, _ => mret (out ++ rows)
  end.

(** Every batch but the last shrinks the limit, so the limit is fuel enough. *)
Definition get_range_at_read_version (b e : bytes) (limit : nat) (read_version : option Z)
    : M S (list (bytes * bytes)) :=
  if Nat.eqb limit 0 then mret [] else
  t ← create_transaction;
  range_loop limit (snapshot t read_version) b e limit 1 [].

Definition get_range (b e : bytes) (limit : nat) : M S (list (bytes * bytes)) :=
  get_range_at_read_version b e limit None.

(** [mutation::commit_or_internal] *)
Definition commit_or_internal (t : S) (action : string) : M S unit :=
  Failpoints.inject "tx.commit.before" ;;
  Failpoints.inject_action "tx.commit.before_action" action ;;
  commit (fun e => Internal ("Failed to " ++ action ++ ": " ++ e)) t.
End Db.

(** ** Reasoning about runs *)

(** [run_ok m env w a w']: from [w] the operation returns [a] and leaves [w']. *)
Definition run_ok {S A} (m : M S A) (env : Env) (w : World S) (a : A) (w' : World S) : Prop :=
  m env w = (Ok a, w').
Definition run_err {S A} (m : M S A) (env : Env) (w : World S) (e : PelagoError) (w' : World S) : Prop :=
  m env w = (Err e, w').

Section Run.
Context {S : Type}.
Implicit Types (w : World S) (env : Env).

Lemma bind_ok {A B} (m : M S A) (f : A -> M S B) env w b w' :
  (m ≫= f) env w = (Ok b, w') <->
  exists a w1, m env w = (Ok a, w1) /\ f a env w1 = (Ok b, w').
Proof.
  unfold mbind, M_bind. destruct (m env w) as [[a|e] w1]; [|naive_solver].
  split; [by eauto|]. intros (? & ? & [= <- <-] & ?). done.
Qed.

Lemma bind_err {A B} (m : M S A) (f : A -> M S B) env w e w' :
  (m ≫= f) env w = (Err e, w') <->
  m env w = (Err e, w') \/ exists a w1, m env w = (Ok a, w1) /\ f a env w1 = (Err e, w').
Proof. unfold mbind, M_bind. destruct (m env w) as [[a|e'] w1]; naive_solver. Qed.

Lemma bind_run {A B} (m : M S A) (f : A -> M S B) env w a w1 :
  m env w = (Ok a, w1) -> (m ≫= f) env w = f a env w1.
Proof. unfold mbind, M_bind. by intros ->. Qed.

Lemma bind_run_err {A B} (m : M S A) (f : A -> M S B) env w e w1 :
  m env w = (Err e, w1) -> (m ≫= f) env w = (Err e, w1).
Proof. unfold mbind, M_bind. by intros ->. Qed.
End Run.

(** *** Effects on the world

    [steps R m]: every run of [m], successful or not, relates the worlds by [R].
    [errs R m]: every failing run does.  With [R] "the key space is unchanged",
    [errs R m] is atomicity: an operation that fails has written nothing. *)

Definition steps {S A} (R : World S -> World S -> Prop) (m : M S A) : Prop :=
  forall env w, R w (m env w).2.
Definition errs {S A} (R : World S -> World S -> Prop) (m : M S A) : Prop :=
  forall env w e w', m env w = (Err e, w') -> R w w'.
Definition total {S A} (m : M S A) : Prop := forall env w, exists a w', m env w = (Ok a, w').

Section Effects.
Context {S : Type} (R : World S -> World S -> Prop) `{!PreOrder R}.

Lemma steps_ret {A} (a : A) : steps R (mret a : M S A).
Proof. intros env w. simpl. reflexivity. Qed.

Lemma steps_bind {A B} (m : M S A) (f : A -> M S B) :
  steps R m -> (forall a, steps R (f a)) -> steps R (m ≫= f).
Proof.
  intros Hm Hf env w. unfold mbind, M_bind. specialize (Hm env w).
  destruct (m env w) as [[a|e] w1]; simpl in *; [|done]. etrans; [exact Hm|apply Hf].
Qed.

Lemma steps_lift {A} (r : result A) : steps R (lift r).
Proof. intros env w. simpl. reflexivity. Qed.

Lemma steps_get_world : steps R get_world.
Proof. intros env w. simpl. reflexivity. Qed.

Lemma steps_for_each {A} (l : list A) (f : A -> M S unit) :
  (forall x, steps R (f x)) -> steps R (for_each l f).
Proof.
  intros Hf. induction l; simpl; [apply steps_ret|]. apply steps_bind; auto.
Qed.

Lemma steps_fold_m {A B} (l : list A) (f : B -> A -> M S B) b :
  (forall b x, steps R (f b x)) -> steps R (fold_m l f b).
Proof.
  intros Hf. revert b. induction l; intros b; simpl; [apply steps_ret|]. apply steps_bind; auto.
Qed.

Lemma steps_errs {A} (m : M S A) : steps R m -> errs R m.
Proof. intros Hm env w e w' E. specialize (Hm env w). by rewrite E in Hm. Qed.

Lemma errs_bind {A B} (m : M S A) (f : A -> M S B) :
  steps R m -> (forall a, errs R (f a)) -> errs R (m ≫= f).
Proof.
  intros Hm Hf env w e w' [E|(a & w1 & E1 & E2)]%bind_err.
  - specialize (Hm env w). by rewrite E in Hm.
  - specialize (Hm env w). rewrite E1 in Hm. etrans; [exact Hm|]. by eapply Hf.
Qed.

(** A tail that cannot fail does not spoil atomicity. *)
Lemma errs_bind_total {A B} (m : M S A) (f : A -> M S B) :
  errs R m -> (forall a, total (f a)) -> errs R (m ≫= f).
Proof.
  intros Hm Hf env w e w' [E|(a & w1 & E1 & E2)]%bind_err; [by eapply Hm|].
  destruct (Hf a env w1) as (? & ? & E3). congruence.
Qed.
End Effects.

Lemma total_ret {S A} (a : A) : total (mret a : M S A).
Proof. intros env w. by exists a, w. Qed.
Lemma total_bind {S A B} (m : M S A) (f : A -> M S B) :
  total m -> (forall a, total (f a)) -> total (m ≫= f).
Proof.
  intros Hm Hf env w. destruct (Hm env w) as (a & w1 & E). destruct (Hf a env w1) as (b & w2 & E2).
  exists b, w2. by rewrite (bind_run _ _ _ _ _ _ E).
Qed.
Lemma total_attempt {S A} (m : M S A) : total (attempt m).
Proof. intros env w. unfold attempt. destruct (m env w). eauto. Qed.
Lemma total_for_each {S A} (l : list A) (f : A -> M S unit) :
  (forall x, total (f x)) -> total (for_each l f).
Proof. intros Hf. induction l; simpl; [apply total_ret|]. apply total_bind; auto. Qed.
Lemma total_now {S} : total (now : M S Z).
Proof. intros env w. unfold now. eauto. Qed.

(** The relation of read-only operations. *)
Definition same_kv {S} (w w' : World S) : Prop := w_kv w' = w_kv w.
#[export] Instance same_kv_preorder {S} : PreOrder (@same_kv S).
Proof. split; [done|]. unfold same_kv. intros ? ? ? H1 H2. by rewrite H2. Qed.

(** Read-only operations also leave the cache coherent; a stronger relation can
    be used with the same lemmas. *)
#[export] Hint Resolve steps_ret steps_lift steps_get_world total_ret total_now total_attempt : pelago.

(** Only the tick differs. *)
Definition idle {S} (w w' : World S) : Prop :=
  w_kv w' = w_kv w /\ w_cache w' = w_cache w /\ w_alloc w' = w_alloc w /\ w_failpoints w' = w_failpoints w.
#[export] Instance idle_preorder {S} : PreOrder (@idle S).
Proof. split; [done|]. unfold idle. intros ? ? ?. intuition congruence. Qed.
Lemma idle_tick {S} (w : World S) : idle w (next_tick w).
Proof. done. Qed.

(** A relation that allows at least what a read does. *)
Class Frame {S} (R : World S -> World S -> Prop) := {
  frame_preorder :: PreOrder R;
  frame_idle : forall w w', idle w w' -> R w w'
}.
#[export] Instance same_kv_frame {S} : Frame (@same_kv S).
Proof. split; [apply _|]. by intros w w' [? _]. Qed.
#[export] Instance idle_frame {S} : Frame (@idle S).
Proof. split; [apply _|done]. Qed.
#[export] Hint Extern 0 (Frame _) => apply _ : pelago.

Section ReadOnly.
Context {S : Type} `{Fdb S} (R : World S -> World S -> Prop) `{!Frame R}.

Lemma steps_may_fail mk : steps R (may_fail mk : M S unit).
Proof. intros env w. by apply frame_idle. Qed.
Lemma steps_now : steps R (now : M S Z).
Proof. intros env w. by apply frame_idle. Qed.
Lemma steps_create_transaction : steps R (create_transaction : M S S).
Proof. apply steps_bind; [apply _|apply steps_may_fail|intros]. apply steps_bind; [apply _|apply steps_get_world; apply _|intros; apply steps_ret; apply _]. Qed.
Lemma steps_trx_get mk t k : steps R (trx_get mk t k : M S (option bytes)).
Proof. apply steps_bind; [apply _|apply steps_may_fail|intros; apply steps_ret; apply _]. Qed.
Lemma steps_get_at_read_version k v : steps R (get_at_read_version k v : M S (option bytes)).
Proof. apply steps_bind; [apply _|apply steps_create_transaction|intros; apply steps_trx_get]. Qed.
Lemma steps_db_get k : steps R (db_get k : M S (option bytes)).
Proof. apply steps_get_at_read_version. Qed.
Lemma steps_range_loop fuel t b e lim it out : steps R (range_loop fuel t b e lim it out : M S _).
Proof.
  revert b lim it out. induction fuel as [|f IH]; intros b lim it out; simpl;
    (apply steps_bind; [apply _|apply steps_may_fail|intros _]);
    repeat case_match; auto; apply steps_ret; apply _.
Qed.
Lemma steps_get_range_at_read_version b e n v : steps R (get_range_at_read_version b e n v : M S _).
Proof.
  unfold get_range_at_read_version. case_match; [apply steps_ret; apply _|].
  apply steps_bind; [apply _|apply steps_create_transaction|intros; apply steps_range_loop].
Qed.
Lemma steps_get_range b e n : steps R (get_range b e n : M S _).
Proof. apply steps_get_range_at_read_version. Qed.
Lemma steps_attempt {A} (m : M S A) : steps R m -> steps R (attempt m).
Proof. intros Hm env w. specialize (Hm env w). unfold attempt. by destruct (m env w). Qed.
End ReadOnly.

(** A committed write is a step of [R] when writing the key is. *)
Lemma steps_db_set {S} `{Fdb S} (R : World S -> World S -> Prop) `{!Frame R} k v :
  (forall w, R w (set_kv w (kv_set (w_kv w) k v))) -> steps R (db_set k v : M S unit).
Proof.
  intros Hset env w. unfold db_set, create_transaction, commit, mbind, M_bind, may_fail, get_world, put_world, mret, M_ret.
  destruct (env_fault env (w_tick w)); [by apply frame_idle|]. cbn.
  destruct (env_fault env (w_tick w + 1)%nat); cbn; [by apply frame_idle|].
  etrans; [apply (frame_idle w (next_tick (next_tick w))); done|].
  apply (Hset (next_tick (next_tick w))).
Qed.

(** A relation on the key spaces of the worlds. *)
Class FrameKv {S} (R : World S -> World S -> Prop) := {
  fkv_preorder :: PreOrder R;
  fkv_same : forall w w', w_kv w' = w_kv w -> R w w'
}.
#[export] Instance FrameKv_Frame {S} (R : World S -> World S -> Prop) `{!FrameKv R} : Frame R | 10.
Proof. split; [apply _|]. intros w w' [? _]. by apply fkv_same. Qed.
#[export] Instance same_kv_frame_kv {S} : FrameKv (@same_kv S).
Proof. split; [apply _|done]. Qed.
#[export] Hint Extern 0 (FrameKv _) => apply _ : pelago.

Section Atomicity.
Context {S : Type} `{Fdb S} (R : World S -> World S -> Prop) `{!FrameKv R}.

Lemma steps_inject n : steps R (Failpoints.inject n : M S unit).
Proof. intros env w. apply fkv_same. unfold Failpoints.inject. repeat case_match; done. Qed.

(** A commit that reports an error has published nothing. *)
Lemma errs_commit mk t : errs R (commit mk t : M S unit).
Proof.
  intros env w e w'. unfold commit. intros [E|(a & w1 & E1 & E2)]%bind_err.
  - unfold may_fail in E. simplify_eq. by apply fkv_same.
  - done.
Qed.
Lemma errs_commit_or_internal t a : errs R (commit_or_internal t a : M S unit).
Proof.
  apply errs_bind; [apply _|apply steps_inject|intros _].
  apply errs_bind; [apply _|apply steps_inject|intros _]. apply errs_commit.
Qed.
End Atomicity.

(** Unfold the primitive effects of a run. *)
Ltac unfold_M :=
  cbv [db_set db_clear create_transaction commit may_fail get_world put_world trx_get
       mbind M_bind mret M_ret lift throw now].

Lemma db_set_cases {S} `{Fdb S} env (w : World S) k v :
  (is_ok (db_set k v env w).1 = false /\ w_kv (db_set k v env w).2 = w_kv w) \/
  ((db_set k v env w).1 = Ok tt /\ w_kv (db_set k v env w).2 = kv_set (w_kv w) k v).
Proof. unfold_M. repeat (destruct (env_fault _ _); simpl; auto). Qed.

#[export] Hint Resolve steps_may_fail steps_now steps_inject steps_create_transaction steps_trx_get
  steps_get_at_read_version steps_db_get steps_get_range_at_read_version steps_get_range steps_attempt
  errs_commit errs_commit_or_internal : pelago.

(** [solve_steps] proves that an operation is read-only and [solve_errs] that it
    is atomic, following its structure. *)
Ltac solve_steps :=
  repeat first
    [ progress intros
    | match goal with
      | |- steps _ (_ ≫= _) => apply steps_bind; [apply _| |]
      | |- steps _ (mret _) => apply steps_ret; apply _
      | |- steps _ (lift _) => apply steps_lift; apply _
      | |- steps _ (throw _) => apply steps_lift; apply _
      | |- steps _ get_world => apply steps_get_world; apply _
      | |- steps _ (when _ _) => unfold when
      | |- steps _ (for_each _ _) => apply steps_for_each; [apply _|]
      | |- steps _ (fold_m _ _ _) => apply steps_fold_m; [apply _|]
      end
    | solve [eauto with pelago]
    | case_match ].

Ltac solve_errs :=
  repeat first
    [ progress intros
    | solve [apply steps_errs; solve_steps]
    | match goal with
      | |- errs _ (_ ≫= _) =>
          first [ apply errs_bind; [apply _|solve [solve_steps]|]
                | apply errs_bind_total; [|solve [intros; repeat first [apply total_bind; [|intros] | solve [eauto with pelago]]]] ]
      end
    | solve [eauto with pelago]
    | case_match ].

(** ** Sorted rows *)

(** Two strictly sorted lists with the same elements are equal. *)
Lemma sorted_ext (l1 l2 : list (bytes * bytes)) :
  StronglySorted (fun x y => blt x.1 y.1) l1 -> StronglySorted (fun x y => blt x.1 y.1) l2 ->
  (forall x, x ∈ l1 <-> x ∈ l2) -> l1 = l2.
Proof.
  assert (forall a b : bytes, blt a b -> ~ blt b a) as Hasym.
  { intros a b H1 H2. apply (irreflexivity blt a). by etrans. }
  revert l2. induction l1 as [|x l1 IH]; intros [|y l2] H1 H2 He; [done|..].
  - exfalso. assert (y ∈ @nil (bytes * bytes)) as Hy by (apply He; left). by apply not_elem_of_nil in Hy.
  - exfalso. assert (x ∈ @nil (bytes * bytes)) as Hy by (apply He; left). by apply not_elem_of_nil in Hy.
  - apply StronglySorted_inv in H1 as [H1 F1], H2 as [H2 F2].
    rewrite Forall_forall in F1, F2.
    assert (x = y) as ->.
    { assert (x ∈ y :: l2) as [?|Hx]%elem_of_cons by (apply He; left); [done|].
      assert (y ∈ x :: l1) as [?|Hy]%elem_of_cons by (apply He; left); [done|].
      exfalso. by eapply Hasym; [apply F1, Hy|apply F2, Hx]. }
    f_equal. apply IH; [done..|]. intros z. split; intros Hz.
    + assert (z ∈ y :: l2) as [->|?]%elem_of_cons by (apply He; by right); [|done].
      exfalso. apply (irreflexivity blt y.1), F1, Hz.
    + assert (z ∈ y :: l1) as [->|?]%elem_of_cons by (apply He; by right); [|done].
      exfalso. apply (irreflexivity blt y.1), F2, Hz.
Qed.

Lemma sorted_app (l1 l2 : list (bytes * bytes)) :
  StronglySorted (fun x y => blt x.1 y.1) l1 -> StronglySorted (fun x y => blt x.1 y.1) l2 ->
  (forall x y, x ∈ l1 -> y ∈ l2 -> blt x.1 y.1) ->
  StronglySorted (fun x y => blt x.1 y.1) (l1 ++ l2).
Proof.
  induction l1 as [|x l1 IH]; [done|]. intros [H1 Hf]%StronglySorted_inv H2 Hlt. simpl.
  constructor; [apply IH; set_solver|]. apply Forall_app. split; [done|].
  apply Forall_forall. set_solver.
Qed.

Lemma sorted_filter (P : bytes * bytes -> Prop) `{!forall x, Decision (P x)} l :
  StronglySorted (fun x y => blt x.1 y.1) l -> StronglySorted (fun x y => blt x.1 y.1) (filter P l).
Proof.
  induction l as [|x l IH]; [done|]. intros [H1 Hf]%StronglySorted_inv.
  rewrite filter_cons. case_decide; [|auto]. constructor; [auto|].
  rewrite Forall_forall in Hf |- *. intros y [_ Hy]%list_elem_of_filter. auto.
Qed.

(** ** Runs without faults *)

Section NoFaults.
Context {S : Type} `{FdbLaws S}.
Context (env : Env) (Henv : no_faults env).
Implicit Types w : World S.

Lemma run_may_fail mk w : may_fail mk env w = (Ok tt, next_tick w).
Proof. unfold may_fail. by rewrite Henv. Qed.

Lemma run_create_transaction w : create_transaction env w = (Ok (w_kv w), next_tick w).
Proof. unfold create_transaction. by rewrite (bind_run _ _ _ _ _ _ (run_may_fail _ _)). Qed.

Lemma run_trx_get mk t k w : trx_get mk t k env w = (Ok (kv_get t k), next_tick w).
Proof. unfold trx_get. by rewrite (bind_run _ _ _ _ _ _ (run_may_fail _ _)). Qed.

Lemma run_get_at_read_version k v w :
  get_at_read_version k v env w
    = (Ok (kv_get (snapshot (w_kv w) v) k), next_tick (next_tick w)).
Proof.
  unfold get_at_read_version. rewrite (bind_run _ _ _ _ _ _ (run_create_transaction _)).
  apply run_trx_get.
Qed.

Lemma run_db_get k w : db_get k env w = (Ok (kv_get (w_kv w) k), next_tick (next_tick w)).
Proof. apply run_get_at_read_version. Qed.

Lemma run_commit mk t w : commit mk t env w = (Ok tt, set_kv (next_tick w) t).
Proof. unfold commit. by rewrite (bind_run _ _ _ _ _ _ (run_may_fail _ _)). Qed.
End NoFaults.

Section NoFailpoints.
Context {S : Type} `{Fdb S} (env : Env) (Henv : no_faults env).
Implicit Types w : World S.

Definition no_failpoints w : Prop := w_failpoints w = ∅.

Lemma run_inject w n : no_failpoints w -> Failpoints.inject n env w = (Ok tt, w).
Proof. intros Hf. unfold Failpoints.inject. by rewrite Hf, lookup_empty. Qed.

Lemma run_commit_or_internal t a w :
  no_failpoints w -> commit_or_internal t a env w = (Ok tt, set_kv (next_tick w) t).
Proof.
  intros Hf. unfold commit_or_internal. rewrite (bind_run _ _ _ _ _ _ (run_inject w _ Hf)).
  unfold Failpoints.inject_action.
  rewrite (bind_run _ _ _ _ _ _ (run_inject w _ Hf)). unfold commit, may_fail. unfold mbind, M_bind. by rewrite Henv.
Qed.
End NoFailpoints.

Lemma run_lift {S A B} (a : A) (f : A -> M S B) env w : (lift (Ok a) ≫= f) env w = f a env w.
Proof. reflexivity. Qed.
Lemma run_ret {S A B} (a : A) (f : A -> M S B) env w : (mret a ≫= f) env w = f a env w.
Proof. reflexivity. Qed.
Lemma run_throw {S A B} e (f : A -> M S B) env w : (throw e ≫= f) env w = (Err e, w).
Proof. reflexivity. Qed.
Lemma run_now {S B} (f : Z -> M S B) env w :
  (now ≫= f) env w = f (env_now env (w_tick w)) env (next_tick w).
Proof. reflexivity. Qed.
Lemma run_get_world {S B} (f : World S -> M S B) env w : (get_world ≫= f) env w = f w env w.
Proof. reflexivity. Qed.
Lemma run_put_world {S B} (f : unit -> M S B) env w w' : (put_world w' ≫= f) env w = f tt env w'.
Proof. reflexivity. Qed.

(** [mrun Henv] runs the straight-line prefix of an operation. *)
Ltac mrun Henv :=
  repeat first
    [ rewrite run_lift | rewrite run_ret | rewrite run_throw | rewrite run_now
    | rewrite run_get_world | rewrite run_put_world
    | rewrite (bind_run _ _ _ _ _ _ (run_create_transaction _ Henv _))
    | rewrite (bind_run _ _ _ _ _ _ (run_trx_get _ Henv _ _ _ _))
    | rewrite (bind_run _ _ _ _ _ _ (run_db_get _ Henv _ _))
    | rewrite (bind_run _ _ _ _ _ _ (run_get_at_read_version _ Henv _ _ _))
    | rewrite (bind_run _ _ _ _ _ _ (run_may_fail _ Henv _ _))
    | rewrite (bind_run _ _ _ _ _ _ (run_commit _ Henv _ _ _)) ].

(** The same, through failpoints, when none is set ([Hfp]). *)
Ltac mrunf Henv Hfp :=
  repeat first
    [ progress (mrun Henv)
    | match goal with
      | |- context [mbind _ (Failpoints.inject ?n) ?env ?w] =>
          rewrite (bind_run _ _ _ _ _ _ (run_inject env w n Hfp))
      | |- context [mbind _ (commit_or_internal ?t ?a) ?env ?w] =>
          rewrite (bind_run _ _ _ _ _ _ (run_commit_or_internal env Henv t a w Hfp))
      end ].

(** The batching loop returns the first [lim] rows of the range, however the
    database cuts it into batches. *)
Lemma run_range_loop {S} `{FdbLaws S} env (Henv : no_faults env) fuel (t : S) b e lim it out w :
  (lim <= fuel)%nat ->
  exists n, range_loop fuel t b e lim it out env w
    = (Ok (out ++ firstn lim (kv_range t b e)),
       mkWorld (w_kv w) (w_cache w) (w_alloc w) (w_failpoints w) n).
Proof.
  revert b lim it out w. induction fuel as [|f IH]; intros b lim it out w Hl; simpl;
    rewrite (bind_run _ _ _ _ _ _ (run_may_fail env Henv _ _));
    destruct (kv_batch t b e lim it) as [rows cont] eqn:E;
    apply kv_batch_spec in E; destruct cont as [[b' lim']|].
  - lia.
  - subst. eexists. reflexivity.
  - destruct E as [Hlt ->]. destruct (IH b' lim' (it + 1)%nat (out ++ rows) (next_tick w) ltac:(lia)) as [n ->].
    exists n. by rewrite <- app_assoc.
  - subst. eexists. reflexivity.
Qed.

Lemma run_get_range_at {S} `{FdbLaws S} env (Henv : no_faults env) b e limit v (w : World S) :
  exists n, get_range_at_read_version b e limit v env w
    = (Ok (firstn limit (kv_range (snapshot (w_kv w) v) b e)),
       mkWorld (w_kv w) (w_cache w) (w_alloc w) (w_failpoints w) n).
Proof.
  unfold get_range_at_read_version. destruct (Nat.eqb_spec limit 0) as [->|Hne].
  { exists (w_tick w). by destruct w. }
  rewrite (bind_run _ _ _ _ _ _ (run_create_transaction env Henv _)).
  destruct (run_range_loop env Henv limit (snapshot (w_kv w) v) b e limit 1 [] (next_tick w)
    ltac:(lia)) as [n ->]. by exists n.
Qed.

(** ** Counting the rows of a range *)

Section Count.
Context {S : Type} `{FdbLaws S}.
Implicit Types (t : S) (b e k : bytes).

Definition keys_in t b e : list bytes := (kv_range t b e).*1.

Lemma elem_of_keys_in t b e k : k ∈ keys_in t b e <-> in_scan b e k /\ is_Some (kv_get t k).
Proof.
  unfold keys_in. rewrite list_elem_of_fmap. split.
  - intros ([k' v] & -> & [Hs Hg]%kv_range_elem). eauto.
  - intros [Hs [v Hv]]. exists (k, v). split; [done|]. by apply kv_range_elem.
Qed.

Lemma NoDup_sorted (l : list (bytes * bytes)) :
  StronglySorted (fun x y => blt x.1 y.1) l -> NoDup l.*1.
Proof.
  induction l as [|x l IH]; [constructor|]. intros [Hl Hx]%StronglySorted_inv.
  constructor; [|auto]. intros (y & E & Hy)%list_elem_of_fmap.
  rewrite Forall_forall in Hx. specialize (Hx y Hy). rewrite E in Hx. by apply (irreflexivity blt y.1).
Qed.

Lemma NoDup_keys_in t b e : NoDup (keys_in t b e).
Proof. apply NoDup_sorted, kv_range_sorted. Qed.

(** Only the presence of the keys matters for the number of rows. *)
Lemma count_same t t' b e :
  (forall k, in_scan b e k -> (is_Some (kv_get t' k) <-> is_Some (kv_get t k))) ->
  length (keys_in t' b e) = length (keys_in t b e).
Proof.
  intros Hk. apply Permutation_length, NoDup_Permutation; [apply NoDup_keys_in..|].
  intros k. rewrite !elem_of_keys_in. split; intros [? ?]; (split; [done|]); by apply Hk.
Qed.

(** If only the key [k] of the range appears, there is one more row. *)
Lemma count_added t t' b e k :
  in_scan b e k -> kv_get t k = None -> is_Some (kv_get t' k) ->
  (forall k', k' <> k -> in_scan b e k' -> (is_Some (kv_get t' k') <-> is_Some (kv_get t k'))) ->
  length (keys_in t' b e) = Datatypes.S (length (keys_in t b e)).
Proof.
  intros Hs Hn Hp Hk. change (Datatypes.S (length (keys_in t b e))) with (length (k :: keys_in t b e)).
  apply Permutation_length, NoDup_Permutation; [apply NoDup_keys_in|constructor; [|apply NoDup_keys_in]|].
  { rewrite elem_of_keys_in, Hn. by intros [_ [? ?]]. }
  intros k'. rewrite elem_of_cons, !elem_of_keys_in.
  destruct (decide (k' = k)) as [->|Hne]; [naive_solver|]. split.
  - intros [? ?]. right. split; [done|]. by apply Hk.
  - intros [?|[? ?]]; [done|]. split; [done|]. by apply Hk.
Qed.
(** If no key of the range appears, there are no more rows. *)
Lemma count_le t t' b e :
  (forall k, in_scan b e k -> is_Some (kv_get t' k) -> is_Some (kv_get t k)) ->
  (length (keys_in t' b e) <= length (keys_in t b e))%nat.
Proof.
  intros Hk. apply submseteq_length, NoDup_submseteq; [apply NoDup_keys_in|].
  intros k. rewrite !elem_of_keys_in. intros [? ?]. auto.
Qed.

(** If moreover one disappears, there are fewer. *)
Lemma count_lt t t' b e k :
  (forall k, in_scan b e k -> is_Some (kv_get t' k) -> is_Some (kv_get t k)) ->
  in_scan b e k -> is_Some (kv_get t k) -> kv_get t' k = None ->
  (length (keys_in t' b e) < length (keys_in t b e))%nat.
Proof.
  intros Hk Hs Hp Hn.
  assert (k :: keys_in t' b e ⊆+ keys_in t b e) as Hsub%submseteq_length; [|simpl in Hsub; lia].
  apply NoDup_submseteq.
  - constructor; [|apply NoDup_keys_in]. rewrite elem_of_keys_in, Hn. by intros [_ [? ?]].
  - intros k' [->|Hin]%elem_of_cons; apply elem_of_keys_in; [done|]. apply elem_of_keys_in in Hin as [? ?]. auto.
Qed.

(** Clearing or writing a list of keys. *)
Lemma get_clear_keys t (l : list bytes) k : kv_get (foldl (fun t k => kv_clear t k) t l) k = if decide (k ∈ l) then None else kv_get t k.
Proof.
  revert t. induction l as [|x l IH]; intros t; cbn [foldl]; [by rewrite decide_False by apply not_elem_of_nil|].
  rewrite IH, kv_get_clear. destruct (decide (k ∈ l)), (decide (x = k)); repeat case_decide; set_solver.
Qed.

Lemma get_set_keys t b (l : list bytes) k : kv_get (foldl (fun t k => kv_set t k b) t l) k = if decide (k ∈ l) then Some b else kv_get t k.
Proof.
  revert t. induction l as [|x l IH]; intros t; cbn [foldl]; [by rewrite decide_False by apply not_elem_of_nil|].
  rewrite IH, kv_get_set. destruct (decide (k ∈ l)), (decide (x = k)); repeat case_decide; set_solver.
Qed.

Lemma length_keys_in t b e : length (keys_in t b e) = length (kv_range t b e).
Proof. apply length_map. Qed.
End Count.

(** A range read returns exactly the first [limit] rows of the range in
    key order, independently of how the database splits it into batches; the
    batching loop always ends, and the key space is untouched. *)
Theorem get_range_complete {S} `{FdbLaws S} env b e limit (w : World S) :
  no_faults env ->
  exists n, get_range b e limit env w
    = (Ok (firstn limit (kv_range (w_kv w) b e)),
       mkWorld (w_kv w) (w_cache w) (w_alloc w) (w_failpoints w) n).
Proof. intros Henv. exact (run_get_range_at env Henv b e limit None w). Qed.

(** A loop of checks succeeds exactly when every check does. *)
Lemma for_each_checks {S A} `{Fdb S} env (l : list A) (f : A -> M S unit) (C : A -> World S -> Prop) w :
  (forall x w, exists r w', f x env w = (r, w') /\ idle w w' /\ (r = Ok tt <-> C x w)) ->
  (forall x w w', idle w w' -> C x w -> C x w') ->
  exists r w', for_each l f env w = (r, w') /\ idle w w' /\ (r = Ok tt <-> forall x, x ∈ l -> C x w).
Proof.
  intros Hf Hc. revert w. induction l as [|x l IH]; intros w; cbn [for_each].
  { exists (Ok tt), w. split; [done|]. split; [done|]. split; [|done]. intros _ x Hx. by apply not_elem_of_nil in Hx. }
  destruct (Hf x w) as (r & w1 & E & Hw & Hr). destruct r as [[]|e].
  - destruct (IH w1) as (r2 & w2 & E2 & Hw2 & Hr2). rewrite (bind_run _ _ _ _ _ _ E). exists r2, w2.
    split; [done|]. split; [by etrans|]. rewrite Hr2. setoid_rewrite elem_of_cons. split.
    + intros Hl y [->|Hy]; [by apply Hr|]. apply (Hc y w1 w); [|by apply Hl].
      unfold idle in *. intuition congruence.
    + intros Hl y Hy. apply (Hc y w w1); auto.
  - rewrite (bind_run_err _ _ _ _ _ _ E). exists (Err e), w1. split; [done|]. split; [done|].
    split; [done|]. intros Hl. apply Hr. apply Hl. left.
Qed.

(** ** Faults that do not strike

    A run that returns a value under some faults is also a run without faults:
    the results on fault-free environments extend to every successful run. *)

Definition calm (env : Env) : Env := mkEnv (env_now env) (fun _ => None).
Lemma calm_no_faults env : no_faults (calm env).
Proof. done. Qed.

Definition settles {S A} (m : M S A) : Prop :=
  forall env w a w', m env w = (Ok a, w') -> m (calm env) w = (Ok a, w').

Section Settles.
Context {S : Type} `{Fdb S}.

Lemma settles_ret {A} (a : A) : settles (mret a : M S A).
Proof. by intros env w b w' E. Qed.
Lemma settles_lift {A} (r : result A) : settles (lift r : M S A).
Proof. by intros env w b w' E. Qed.
Lemma settles_get_world : settles (get_world : M S _).
Proof. by intros env w b w' E. Qed.
Lemma settles_put_world w0 : settles (put_world w0 : M S _).
Proof. by intros env w b w' E. Qed.
Lemma settles_now : settles (now : M S _).
Proof. by intros env w b w' E. Qed.
Lemma settles_inject n : settles (Failpoints.inject n : M S _).
Proof. by intros env w b w' E. Qed.
Lemma settles_may_fail mk : settles (may_fail mk : M S _).
Proof. intros env w [] w'. unfold may_fail. cbn. by destruct (env_fault env (w_tick w)). Qed.
Lemma settles_bind {A B} (m : M S A) (f : A -> M S B) :
  settles m -> (forall a, settles (f a)) -> settles (m ≫= f).
Proof.
  intros Hm Hf env w b w' (a & w1 & E1 & E2)%bind_ok.
  rewrite (bind_run _ _ _ _ _ _ (Hm _ _ _ _ E1)). by apply Hf.
Qed.
Lemma settles_for_each {A} (l : list A) (f : A -> M S unit) :
  (forall x, settles (f x)) -> settles (for_each l f).
Proof. intros Hf. induction l; simpl; [apply settles_ret|]. apply settles_bind; auto. Qed.
Lemma settles_fold_m {A B} (l : list A) (f : B -> A -> M S B) b :
  (forall b x, settles (f b x)) -> settles (fold_m l f b).
Proof.
  intros Hf. revert b. induction l; intros b; simpl; [apply settles_ret|]. apply settles_bind; auto.
Qed.
Lemma settles_create_transaction : settles (create_transaction : M S S).
Proof.
  apply settles_bind; [apply settles_may_fail|intros _].
  apply settles_bind; [apply settles_get_world|intros ?; apply settles_ret].
Qed.
Lemma settles_trx_get mk t k : settles (trx_get mk t k : M S _).
Proof. apply settles_bind; [apply settles_may_fail|intros _; apply settles_ret]. Qed.
Lemma settles_get_at_read_version k v : settles (get_at_read_version k v : M S _).
Proof. apply settles_bind; [apply settles_create_transaction|intros; apply settles_trx_get]. Qed.
Lemma settles_db_get k : settles (db_get k : M S _).
Proof. apply settles_get_at_read_version. Qed.
Lemma settles_commit mk t : settles (commit mk t : M S _).
Proof.
  apply settles_bind; [apply settles_may_fail|intros _].
  apply settles_bind; [apply settles_get_world|intros ?; apply settles_put_world].
Qed.
Lemma settles_commit_or_internal t a : settles (commit_or_internal t a : M S _).
Proof.
  apply settles_bind; [apply settles_inject|intros _].
  apply settles_bind; [apply settles_inject|intros _; apply settles_commit].
Qed.
Lemma settles_range_loop fuel t b e lim it out : settles (range_loop fuel t b e lim it out : M S _).
Proof.
  revert b lim it out. induction fuel as [|f IH]; intros b lim it out; simpl;
    (apply settles_bind; [apply settles_may_fail|intros _]);
    repeat case_match; auto using settles_ret.
Qed.
Lemma settles_get_range b e n v : settles (get_range_at_read_version b e n v : M S _).
Proof.
  unfold get_range_at_read_version. case_match; [apply settles_ret|].
  apply settles_bind; [apply settles_create_transaction|intros; apply settles_range_loop].
Qed.
End Settles.

#[export] Hint Resolve settles_ret settles_lift settles_get_world settles_put_world settles_now settles_inject
  settles_may_fail settles_create_transaction settles_trx_get settles_get_at_read_version settles_db_get
  settles_commit settles_commit_or_internal settles_get_range : pelago.

Ltac solve_settles :=
  repeat first
    [ progress intros
    | match goal with
      | |- settles (_ ≫= _) => apply settles_bind
      | |- settles (throw _) => apply settles_lift
      | |- settles (for_each _ _) => apply settles_for_each
      | |- settles (fold_m _ _ _) => apply settles_fold_m
      end
    | solve [eauto with pelago]
    | case_match ].
