(* ===== verification/MemFdb.v ===== *)
(** * A concrete substrate

    An in-memory key space that satisfies [FdbLaws] and codecs that satisfy
    [CborLaws]: the laws can hold, and the examples of the library are evaluated
    on it.  Nothing of the program is modelled here. *)

From S2P Require Import Prelude Bytes Text Errors Types Encoding Subspace SchemaTypes Fdb.

Record MemKv := mkMem { mem_map : gmap bytes bytes; mem_next : Z }.

Definition mem_stamp (s : MemKv) : bytes := be_bytes 10 (Z.max 0 (Z.min (mem_next s) (256 ^ 10 - 1))).

Definition key_le (x y : bytes * bytes) : Prop := ble x.1 y.1.
#[export] Instance key_le_dec x y : Decision (key_le x y).
Proof. unfold key_le. apply _. Defined.
#[export] Instance key_le_total : Total key_le.
Proof.
  intros x y. unfold key_le, ble. rewrite (lex_antisym x.1 y.1).
  destruct (lex x.1 y.1); simpl; auto.
Qed.
#[export] Instance key_le_trans : Transitive key_le.
Proof. intros x y z. unfold key_le. apply ble_trans. Qed.

Definition mem_range (s : MemKv) (b e : bytes) : list (bytes * bytes) :=
  merge_sort key_le (map_to_list (filter (fun kv => in_scan b e kv.1) (mem_map s))).

Definition mem_svk (s : MemKv) (k v : bytes) : MemKv :=
  let n := (length k - 4)%nat in
  let off := Z.to_nat (le_val (skipn n k)) in
  let body := firstn n k in
  mkMem (<[firstn off body ++ mem_stamp s ++ skipn (off + 10) body := v]> (mem_map s))
    (Z.min (Z.max 0 (mem_next s) + 1) (256 ^ 10 - 1)).

(** Ranges are read in batches of at most two rows. *)
Definition mem_batch (s : MemKv) (b e : bytes) (lim it : nat)
    : list (bytes * bytes) * option (bytes * nat) :=
  match firstn lim (mem_range s b e) with
  | r1 :: r2 :: _ :: _ => ([r1; r2], Some (r2.1 ++ [Byte.x00], (lim - 2)%nat))
  | rows => (rows, None)
  end.

#[export] Instance mem_fdb : Fdb MemKv := {|
  kv_get s k := mem_map s !! k;
  kv_set s k v := mkMem (<[k := v]> (mem_map s)) (mem_next s);
  kv_clear s k := mkMem (delete k (mem_map s)) (mem_next s);
  kv_range := mem_range;
  kv_batch := mem_batch;
  kv_at_version s v := s;
  kv_stamp := mem_stamp;
  kv_svk := mem_svk
|}.

Lemma mem_range_elem s b e k v : (k, v) ∈ mem_range s b e <-> in_scan b e k /\ mem_map s !! k = Some v.
Proof.
  unfold mem_range. rewrite merge_sort_Permutation, elem_of_map_to_list, map_lookup_filter_Some.
  simpl. tauto.
Qed.

Lemma sorted_strict (l : list (bytes * bytes)) :
  NoDup l.*1 -> StronglySorted key_le l -> StronglySorted (fun x y => blt x.1 y.1) l.
Proof.
  induction l as [|x l IH]; [constructor|].
  rewrite fmap_cons. intros [Hx Hl]%NoDup_cons Hs. apply StronglySorted_inv in Hs as [Hs Hf].
  constructor; [auto|]. rewrite Forall_forall in Hf |- *. intros y Hy.
  specialize (Hf y Hy). unfold key_le in Hf. apply ble_lt_or_eq in Hf as [?|Heq]; [done|].
  destruct Hx. rewrite Heq. by apply list_elem_of_fmap_2.
Qed.

Lemma mem_range_sorted s b e : StronglySorted (fun x y => blt x.1 y.1) (mem_range s b e).
Proof.
  apply sorted_strict.
  - unfold mem_range. rewrite merge_sort_Permutation. apply NoDup_fst_map_to_list.
  - apply StronglySorted_merge_sort; apply _.
Qed.

Lemma mem_range_after s b e l x r :
  mem_range s b e = l ++ x :: r -> mem_range s (x.1 ++ [Byte.x00]) e = r.
Proof.
  intros E. pose proof (mem_range_sorted s b e) as Hs. rewrite E in Hs.
  apply sorted_ext.
  - apply mem_range_sorted.
  - clear E. induction l as [|y l IH]; [by apply StronglySorted_inv in Hs as [? _]|].
    apply IH. by apply StronglySorted_inv in Hs as [? _].
  - intros [k v]. rewrite mem_range_elem. unfold in_scan. rewrite ble_succ.
    assert (forall y, y ∈ r -> blt x.1 y.1) as Hr.
    { clear E. induction l as [|z l IH].
      - apply StronglySorted_inv in Hs as [_ Hf]. by rewrite Forall_forall in Hf.
      - apply IH. by apply StronglySorted_inv in Hs as [? _]. }
    assert (forall y, y ∈ l ++ [x] -> ble y.1 x.1) as Hl.
    { intros y [Hy| ->%list_elem_of_singleton]%elem_of_app; [|apply ble_refl].
      clear E Hr. induction l as [|z l IH]; [by apply not_elem_of_nil in Hy|].
      apply StronglySorted_inv in Hs as [Hs Hf]. apply elem_of_cons in Hy as [->|Hy]; [|by apply IH].
      rewrite Forall_forall in Hf. apply ble_lt_or_eq. left. apply Hf. set_solver. }
    assert (x ∈ mem_range s b e) as Hx by (rewrite E; set_solver).
    destruct x as [xk xv]. apply mem_range_elem in Hx as [[Hbx _] _]. simpl in *. split.
    + intros [[Hlt He] Hg]. assert ((k, v) ∈ mem_range s b e) as Hin.
      { apply mem_range_elem. split; [|done]. split; [|done].
        eapply ble_trans; [exact Hbx|]. apply ble_lt_or_eq; auto. }
      rewrite E in Hin. change (l ++ (xk, xv) :: r) with (l ++ [(xk, xv)] ++ r) in Hin.
      rewrite app_assoc in Hin. apply elem_of_app in Hin as [Hin|]; [|done].
      exfalso. apply Hl in Hin. simpl in Hin. by apply blt_not_ble in Hlt.
    + intros Hin. assert ((k, v) ∈ mem_range s b e) as Hm by (rewrite E; set_solver).
      apply mem_range_elem in Hm as [[_ He] Hg]. by apply Hr in Hin.
Qed.

#[export] Instance mem_fdb_laws : FdbLaws MemKv.
Proof.
  split; cbn [kv_get kv_set kv_clear kv_range kv_batch kv_stamp kv_svk mem_fdb mem_map].
  - intros. apply lookup_insert.
  - intros. apply lookup_delete.
  - apply mem_range_elem.
  - apply mem_range_sorted.
  - intros s b e lim it rows cont. unfold mem_batch.
    destruct (firstn lim (mem_range s b e)) as [|r1 [|r2 [|r3 rest]]] eqn:E; intros ?; simplify_eq; try done.
    assert (mem_range s b e = [r1] ++ r2 :: drop 2 (mem_range s b e)) as E2.
    { destruct lim as [|[|lim]], (mem_range s b e) as [|? [|? ?]]; simplify_eq/=; by rewrite ?drop_0. }
    rewrite (mem_range_after _ _ _ _ _ _ E2).
    assert (3 <= lim)%nat by (apply (f_equal length) in E; rewrite length_take in E; simpl in E; lia).
    split; [lia|]. rewrite <- E. rewrite E2 at 1. destruct lim as [|[|lim]]; [lia..|].
    simpl. by rewrite Nat.sub_0_r.
  - intros s. apply length_be_bytes.
  - done.
  - done.
  - intros s p q v k Hp. unfold mem_svk. cbn [mem_map].
    set (raw := p ++ repeat Byte.x00 10 ++ q ++ le_bytes 4 (Z.of_nat (length p))).
    assert (raw = (p ++ repeat Byte.x00 10 ++ q) ++ le_bytes 4 (Z.of_nat (length p))) as ->
      by (subst raw; by rewrite <- !app_assoc).
    rewrite length_app, length_le_bytes, Nat.add_sub, drop_app_length, take_app_length.
    rewrite le_val_le_bytes, Z.mod_small by (change (256 ^ Z.of_nat 4) with (2 ^ 32); lia).
    rewrite Nat2Z.id, take_app_length.
    rewrite <- drop_drop, drop_app_length, drop_app_ge by done.
    change (length (repeat Byte.x00 10)) with 10%nat. rewrite Nat.sub_diag, drop_0.
    rewrite lookup_insert. by repeat case_decide.
  - intros s k v. unfold mem_svk, mem_stamp. cbn [mem_next].
    change (256 ^ 10 - 1) with 1208925819614629174706175. unfold blt, STAMP_MAX.
    change (repeat Byte.xff 10) with (be_bytes 10 1208925819614629174706175). intros Hlt.
    rewrite lex_be_bytes, Z.compare_lt_iff in Hlt
      by (change (256 ^ Z.of_nat 10) with 1208925819614629174706176; lia).
    rewrite lex_be_bytes, Z.compare_lt_iff
      by (change (256 ^ Z.of_nat 10) with 1208925819614629174706176; lia).
    lia.
Qed.

(** ** A codec for countable types

    The bits of the canonical number of a value, one per byte. *)

Fixpoint pos_bytes (p : positive) : bytes :=
  match p with xH => [Byte.x02] | xO p' => Byte.x00 :: pos_bytes p' | xI p' => Byte.x01 :: pos_bytes p' end.

Fixpoint bytes_pos (l : bytes) : option positive :=
  match l with
  | [] => None
  | b :: l' =>
      if decide (b = Byte.x02) then Some xH
      else if decide (b = Byte.x00) then xO <$> bytes_pos l' else xI <$> bytes_pos l'
  end.

Lemma bytes_pos_bytes p : bytes_pos (pos_bytes p) = Some p.
Proof. induction p as [p IH|p IH|]; simpl; by rewrite ?IH. Qed.

Definition countable_cbor (A : Type) `{Countable A} (canon : A -> A) : Cbor A := {|
  cbor_encode a := inl (pos_bytes (encode a));
  cbor_decode b := match bytes_pos b ≫= decode with Some a => inl (canon a) | None => inr "malformed" end
|}.

Lemma countable_cbor_laws (A : Type) `{Countable A} (canon : A -> A) storable :
  @CborLaws A (countable_cbor A canon) canon storable.
Proof.
  split.
  - intros a. exists (pos_bytes (encode a)). split; [done|]. by destruct (encode a).
  - intros a b _ [= <-]. simpl. rewrite bytes_pos_bytes. simpl. by rewrite decode_encode.
Qed.

#[export] Instance Value_countable : Countable Value.
Proof.
  refine (inj_countable'
    (fun v => match v with
      | VString s => inl (inl s) | VInt n => inl (inr (inl n)) | VFloat n => inl (inr (inr (inl n)))
      | VBool b => inr (inl b) | VTimestamp t => inl (inr (inr (inr t))) | VBytes b => inr (inr (inl b))
      | VNull => inr (inr (inr tt)) end)
    (fun x => match x with
      | inl (inl s) => VString s | inl (inr (inl n)) => VInt n | inl (inr (inr (inl n))) => VFloat n
      | inr (inl b) => VBool b | inl (inr (inr (inr t))) => VTimestamp t | inr (inr (inl b)) => VBytes b
      | inr (inr (inr _)) => VNull end) _).
  by intros [].
Defined.

#[export] Instance PropertyType_countable : Countable PropertyType.
Proof.
  refine (inj_countable
    (fun t => match t with PString => 0 | PInt => 1 | PFloat => 2 | PBool => 3 | PTimestamp => 4 | PBytes => 5 end)%nat
    (fun n => match n with 0 => Some PString | 1 => Some PInt | 2 => Some PFloat | 3 => Some PBool
                         | 4 => Some PTimestamp | 5 => Some PBytes | _ => None end)%nat _).
  by intros [].
Defined.

#[export] Instance IndexType_countable : Countable IndexType.
Proof.
  refine (inj_countable
    (fun t => match t with IdxNone => 0 | IdxUnique => 1 | IdxEquality => 2 | IdxRange => 3 end)%nat
    (fun n => match n with 0 => Some IdxNone | 1 => Some IdxUnique | 2 => Some IdxEquality
                         | 3 => Some IdxRange | _ => None end)%nat _).
  by intros [].
Defined.

#[export] Instance PropertyDef_eq_dec : EqDecision PropertyDef.
Proof. solve_decision. Defined.
#[export] Instance PropertyDef_countable : Countable PropertyDef.
Proof.
  refine (inj_countable' (fun d => (property_type d, required d, index d, default_value d))
    (fun '(t, r, i, v) => mkPropertyDef t r i v) _). by intros [].
Defined.

#[export] Instance EdgeDef_eq_dec : EqDecision EdgeDef.
Proof. solve_decision. Defined.
#[export] Instance EdgeDef_countable : Countable EdgeDef.
Proof.
  refine (inj_countable' (fun d =>
    (match target d with Specific s => Some s | Polymorphic => None end,
     match direction d with Outgoing => true | Bidirectional => false end,
     edge_properties d, sort_key d,
     match ownership d with SourceSite => true | Independent => false end))
    (fun '(t, di, p, k, o) => mkEdgeDef (match t with Some s => Specific s | None => Polymorphic end)
       (if di then Outgoing else Bidirectional) p k (if o then SourceSite else Independent)) _).
  by intros [[] [] ? ? []].
Defined.

#[export] Instance SchemaMeta_eq_dec : EqDecision SchemaMeta.
Proof. solve_decision. Defined.
#[export] Instance EntitySchema_eq_dec : EqDecision EntitySchema.
Proof. solve_decision. Defined.
#[export] Instance EntitySchema_countable : Countable EntitySchema.
Proof.
  refine (inj_countable' (fun s =>
    (name s, version s, properties s, edges s,
     (allow_undeclared_edges (meta s),
      match extras_policy (meta s) with Reject => Some true | Allow => Some false | Warn => None end),
     created_at s, created_by s))
    (fun '(n, v, p, e, (u, x), ca, cb) => mkEntitySchema n v p e
       (mkSchemaMeta u (match x with Some true => Reject | Some false => Allow | None => Warn end)) ca cb) _).
  by intros [? ? ? ? [? []] ? ?].
Defined.

#[export] Instance schema_cbor : Cbor EntitySchema | 100 := countable_cbor EntitySchema canon_schema.

Lemma get_range_complete_witness :
  exists n, get_range [Byte.x01] [Byte.x05] 3 (mkEnv (fun _ => 0) (fun _ => None))
      (mkWorld (mkMem (list_to_map [([Byte.x04], []); ([Byte.x01], []); ([Byte.x07], []); ([Byte.x03], []); ([Byte.x02], [])]) 1) ∅ ∅ ∅ 0)
    = (Ok [([Byte.x01], []); ([Byte.x02], []); ([Byte.x03], [])],
       mkWorld (mkMem (list_to_map [([Byte.x04], []); ([Byte.x01], []); ([Byte.x07], []); ([Byte.x03], []); ([Byte.x02], [])]) 1) ∅ ∅ ∅ n).
Proof.
  destruct (get_range_complete (mkEnv (fun _ => 0) (fun _ => None)) [Byte.x01] [Byte.x05] 3
    (mkWorld (mkMem (list_to_map [([Byte.x04], []); ([Byte.x01], []); ([Byte.x07], []); ([Byte.x03], []); ([Byte.x02], [])]) 1) ∅ ∅ ∅ 0)) as [n E].
  - intros k. reflexivity.
  - exists n. rewrite E. vm_compute. reflexivity.
Defined.
