(* ===== verification/Cdc.v ===== *)
(** * Change data capture

    [pelago-storage/src/cdc.rs]: versionstamps, CDC entries, the accumulator that
    writes one entry per transaction and the readers of the log. *)

From S2P Require Import Prelude Bytes Text Errors Types Encoding Subspace SchemaTypes Fdb MemFdb.

(** ** Versionstamps *)

Module Versionstamp.
(** Ten bytes, compared lexicographically. *)
Abbreviation t := bytes.
Definition zero : t := repeat Byte.x00 10.

Definition from_bytes (b : bytes) : option t :=
  if decide (length b = 10%nat) then Some b else None.

(** The carry loop of [next], from the last byte to the first. *)
Fixpoint carry (rev_bytes : bytes) : bytes :=
  match rev_bytes with
  | [] => []
  | b :: r => if u8b b <? 0xFF then b8 (u8b b + 1) :: r else Byte.x00 :: carry r
  end.

Definition next (v : t) : t := rev (carry (rev v)).

Definition is_zero (v : t) : bool := bool_decide (v = zero).

(** [Display]: two lower-case hexadecimal digits per byte. *)
Definition hex_digit (d : Z) : byte := if d <? 10 then b8 (48 + d) else b8 (87 + d).
Definition to_string (v : t) : string :=
  bstr (flat_map (fun b => [hex_digit (u8b b / 16); hex_digit (u8b b mod 16)]) v).
End Versionstamp.

(** ** Entries *)

Inductive CdcOperation :=
  | NodeCreate (entity_type node_id : string) (properties : Props) (home_site : string)
  | NodeUpdate (entity_type node_id : string) (changed_properties old_properties : Props)
  | NodeDelete (entity_type node_id : string)
  | EdgeCreate (source_type source_id target_type target_id edge_type edge_id : string)
      (properties : Props)
  | EdgeDelete (source_type source_id target_type target_id edge_type : string)
  | SchemaRegister (entity_type : string) (version : Z) (schema : EntitySchema)
  | OwnershipTransfer (entity_type node_id previous_site_id current_site_id : string).

Record CdcEntry := mkCdcEntry {
  entry_site : string;
  timestamp : Z;
  batch_id : option string;
  operations : list CdcOperation
}.

Definition legacy_missing_schema_payload : EntitySchema := Schemas.set_version (Schemas.new "") 0.

(** One operation of [normalize_legacy_schema_registers]. *)
Definition normalize_op (op : CdcOperation) : CdcOperation :=
  match op with
  | SchemaRegister entity_type version schema =>
      let schema := if decide (name schema = "") then Schemas.set_name schema entity_type else schema in
      let schema := if SchemaTypes.version schema =? 0 then Schemas.set_version schema version else schema in
      SchemaRegister entity_type version schema
  | _ => op
  end.

Definition normalize_legacy_schema_registers (e : CdcEntry) : CdcEntry :=
  mkCdcEntry (entry_site e) (timestamp e) (batch_id e) (map normalize_op (operations e)).

(** Entries as the codec returns them. *)
Definition canon_op (op : CdcOperation) : CdcOperation :=
  match op with
  | NodeCreate et id p h => NodeCreate et id (canon_props p) h
  | NodeUpdate et id c o => NodeUpdate et id (canon_props c) (canon_props o)
  | EdgeCreate st si ty ti l id p => EdgeCreate st si ty ti l id (canon_props p)
  | SchemaRegister et v s => SchemaRegister et v (canon_schema s)
  | _ => op
  end.

Definition canon_entry (e : CdcEntry) : CdcEntry :=
  mkCdcEntry (entry_site e) (timestamp e) (batch_id e) (map canon_op (operations e)).

Definition storable_op (op : CdcOperation) : Prop :=
  match op with
  | NodeCreate _ _ p _ => storable_props p
  | NodeUpdate _ _ c o => storable_props c /\ storable_props o
  | EdgeCreate _ _ _ _ _ _ p => storable_props p
  | SchemaRegister _ _ s => storable_schema s
  | _ => True
  end.

Definition storable_entry (e : CdcEntry) : Prop := Forall storable_op (operations e).

(** ** Writing and reading *)

Record CdcAccumulator := mkAccumulator { acc_site : string; acc_operations : list CdcOperation }.

Section Cdc.
Context {S : Type} `{Fdb S} `{Cbor CdcEntry}.

Definition new_accumulator (site_id : string) : CdcAccumulator := mkAccumulator site_id [].

Definition push (a : CdcAccumulator) (op : CdcOperation) : CdcAccumulator :=
  mkAccumulator (acc_site a) (acc_operations a ++ [op]).

Definition is_empty (a : CdcAccumulator) : bool :=
  match acc_operations a with [] => true | _ => false end.

Definition cdc_subspace (database namespace : string) : Subspace :=
  Sub.cdc (Sub.namespace database namespace).

(** The key with the versionstamp placeholder and the offset trailer. *)
Definition cdc_template_key (database namespace : string) : bytes :=
  let p := prefix (cdc_subspace database namespace) in
  p ++ repeat Byte.x00 10 ++ le_bytes 4 (Z.of_nat (length p)).

Definition write_cdc_entry (t : S) (database namespace : string) (entry : CdcEntry) : result S :=
  value ← encode_cbor entry;
  Ok (kv_svk t (cdc_template_key database namespace) value).

Definition flush (a : CdcAccumulator) (t : S) (database namespace : string) : M S S :=
  if is_empty a then mret t else
  ts ← now;
  lift (write_cdc_entry t database namespace (mkCdcEntry (acc_site a) ts None (acc_operations a))).

Definition append_cdc_entry (database namespace : string) (entry : CdcEntry) : M S unit :=
  match operations entry with
  | [] => mret tt
  | _ =>
      t ← create_transaction;
      t ← lift (write_cdc_entry t database namespace entry);
      Failpoints.inject "cdc.append.before_commit" ;;
      commit (fun e => Internal ("Failed to append CDC entry: " ++ e)) t
  end.

(** The loop of [read_cdc_entries] over the rows of the range. *)
Fixpoint decode_rows (prefix_len : nat) (rows : list (bytes * bytes))
    : result (list (Versionstamp.t * CdcEntry)) :=
  match rows with
  | [] => Ok []
  | (key, value) :: rows' =>
      match Versionstamp.from_bytes (skipn prefix_len key) with
      | Some vs =>
          entry ← decode_cbor value;
          rest ← decode_rows prefix_len rows';
          Ok ((vs, normalize_legacy_schema_registers entry) :: rest)
      | None => decode_rows prefix_len rows'
      end
  end.

Definition read_cdc_entries (database namespace : string) (after : option Versionstamp.t)
    (limit : nat) : M S (list (Versionstamp.t * CdcEntry)) :=
  let sub := cdc_subspace database namespace in
  let range_start := match after with
                     | Some vs => prefix sub ++ Versionstamp.next vs
                     | None => prefix sub end in
  rows ← get_range range_start (Sub.range_end sub) limit;
  lift (decode_rows (length (prefix sub)) rows).

Definition cdc_position_exists (database namespace : string) (vs : Versionstamp.t) : M S bool :=
  if Versionstamp.is_zero vs then mret true else
  row ← db_get (prefix (cdc_subspace database namespace) ++ vs);
  mret (bool_decide (is_Some row)).

Definition oldest_cdc_position (database namespace : string) : M S (option Versionstamp.t) :=
  let sub := cdc_subspace database namespace in
  rows ← get_range (prefix sub) (Sub.range_end sub) 1;
  match rows with
  | [] => mret None
  | (key, _) :: _ =>
      let n := length (prefix sub) in
      if Nat.ltb (length key) (n + 10) then mret None
      else mret (Versionstamp.from_bytes (firstn 10 (skipn n key)))
  end.
End Cdc.

(** ** Versionstamps: facts *)

Lemma carry_val l :
  Exists (fun b => b <> Byte.xff) l ->
  be_val (rev (Versionstamp.carry l)) = be_val (rev l) + 1.
Proof.
  assert (forall l b, be_val (l ++ [b]) = be_val l * 256 + u8b b) as Hsnoc.
  { intros m b. induction m as [|x m IH]; [simpl; lia|].
    rewrite <- app_comm_cons. cbn [be_val]. rewrite IH, length_app, Nat2Z.inj_add. simpl length.
    rewrite Z.pow_add_r by lia. change (256 ^ Z.of_nat 1) with 256. lia. }
  induction l as [|b l IH]; intros Hex; [by inversion Hex|]. cbn [Versionstamp.carry].
  destruct (Z.ltb_spec (u8b b) 0xFF) as [Hb|Hb].
  - cbn [rev]. rewrite !Hsnoc, u8b_b8, Z.mod_small by (pose proof (u8b_range b); lia). lia.
  - cbn [rev]. rewrite !Hsnoc. rewrite IH.
    + change (u8b Byte.x00) with 0. pose proof (u8b_range b). lia.
    + apply Exists_cons in Hex as [Hne|]; [|done]. apply u8b_lt_ff in Hne. lia.
Qed.

Lemma length_carry l : length (Versionstamp.carry l) = length l.
Proof. induction l; simpl; [done|]. case_match; simpl; auto. Qed.

Lemma length_next v : length (Versionstamp.next v) = length v.
Proof. unfold Versionstamp.next. by rewrite length_rev, length_carry, length_rev. Qed.

(** Below the maximum, [next] is the successor. *)
Lemma next_val v :
  length v = 10%nat -> v <> STAMP_MAX -> be_val (Versionstamp.next v) = be_val v + 1.
Proof.
  intros Hl Hv. unfold Versionstamp.next. rewrite carry_val, rev_involutive; [done|].
  apply Exists_rev. destruct (decide (Exists (fun b => b <> Byte.xff) v)) as [|Hn]; [done|].
  destruct Hv. apply not_Exists_Forall in Hn; [|apply _].
  assert (Forall (fun b => b = Byte.xff) v) as Hf.
  { eapply Forall_impl; [exact Hn|]. intros b Hb. simpl in Hb. by destruct (decide (b = Byte.xff)). }
  unfold STAMP_MAX. rewrite <- Hl. clear - Hf. induction Hf; simpl; [done|]. by f_equal.
Qed.

Lemma next_blt_iff v x :
  length v = 10%nat -> length x = 10%nat -> v <> STAMP_MAX ->
  ble (Versionstamp.next v) x <-> blt v x.
Proof.
  intros Hv Hx Hm. unfold ble, blt.
  rewrite !lex_be_val by (by rewrite ?length_next, Hx). rewrite next_val by done.
  rewrite Z.compare_lt_iff. fold (be_val v + 1 <= be_val x). lia.
Qed.

(** C-next: [next] is the least versionstamp strictly greater than its argument:
    it is ten bytes long, and the versionstamps from it on are exactly those
    after the argument.  This holds for every versionstamp but the last one. *)
Theorem versionstamp_next_least v :
  length v = 10%nat -> v <> STAMP_MAX ->
  length (Versionstamp.next v) = 10%nat /\ blt v (Versionstamp.next v) /\
  forall x, length x = 10%nat -> ble (Versionstamp.next v) x <-> blt v x.
Proof.
  intros Hl Hm. split; [by rewrite length_next|]. split.
  - apply next_blt_iff; [done|by rewrite length_next|done|apply ble_refl].
  - intros x Hx. by apply next_blt_iff.
Qed.

Lemma versionstamp_next_least_witness :
  Versionstamp.next [Byte.x00; Byte.x00; Byte.x00; Byte.x00; Byte.x00; Byte.x00; Byte.x00; Byte.x01; Byte.xff; Byte.xff]
    = [Byte.x00; Byte.x00; Byte.x00; Byte.x00; Byte.x00; Byte.x00; Byte.x00; Byte.x02; Byte.x00; Byte.x00] /\
  length (Versionstamp.next [Byte.x00; Byte.x00; Byte.x00; Byte.x00; Byte.x00; Byte.x00; Byte.x00; Byte.x01; Byte.xff; Byte.xff]) = 10%nat.
Proof.
  split; [vm_compute; reflexivity|].
  exact (proj1 (versionstamp_next_least
    [Byte.x00; Byte.x00; Byte.x00; Byte.x00; Byte.x00; Byte.x00; Byte.x00; Byte.x01; Byte.xff; Byte.xff]
    ltac:(reflexivity) ltac:(discriminate))).
Defined.

(** ** The log *)

Section Log.
Context {S : Type} `{FdbLaws S} `{CborLaws CdcEntry canon_entry storable_entry}.
Context (database namespace : string).
Implicit Types (s t : S) (w : World S).

Let P : bytes := prefix (cdc_subspace database namespace).

(** The decoded rows of the CDC subspace, oldest first. *)
Definition cdc_log s : list (Versionstamp.t * CdcEntry) :=
  match decode_rows (length P) (kv_range s P (P ++ [Byte.xff])) with Ok l => l | Err _ => [] end.

(** A well-formed log: every key of the subspace ends in a ten-byte
    versionstamp issued before the next one, and its value decodes. *)
Definition cdc_wf s : Prop :=
  forall r v, kv_get s (P ++ r) = Some v ->
    length r = 10%nat /\ not_ff r /\ blt Versionstamp.zero r /\ blt r (kv_stamp s) /\
    exists e, decode_cbor v = Ok e.

(** The versionstamp counter is in its working range. *)
Definition stamp_ok s : Prop :=
  not_ff (kv_stamp s) /\ blt Versionstamp.zero (kv_stamp s).

Definition dec_row (kv : bytes * bytes) : Versionstamp.t * CdcEntry :=
  (skipn (length P) kv.1,
   match decode_cbor kv.2 with
   | Ok e => normalize_legacy_schema_registers e
   | Err _ => mkCdcEntry "" 0 None [] end).

Lemma skipn_prefix r : skipn (length P) (P ++ r) = r.
Proof. apply drop_app_length. Qed.

Lemma decode_rows_ok rows :
  Forall (fun kv => length (skipn (length P) kv.1) = 10%nat /\ exists e, decode_cbor (A:=CdcEntry) kv.2 = Ok e) rows ->
  decode_rows (length P) rows = Ok (map dec_row rows).
Proof.
  induction 1 as [|[k v] rows [Hl [e He]] _ IH]; [done|]. cbn [decode_rows map].
  unfold Versionstamp.from_bytes. rewrite decide_True by done. rewrite IH.
  simpl in He. unfold dec_row at 2. cbn [fst snd]. by rewrite He.
Qed.

(** Rows of a well-formed log. *)
Lemma log_rows s k v :
  cdc_wf s -> (k, v) ∈ kv_range s P (P ++ [Byte.xff]) <->
  exists r, k = P ++ r /\ kv_get s (P ++ r) = Some v.
Proof.
  intros Hwf. rewrite kv_range_elem, in_scan_prefix. split.
  - intros [(r & -> & _) Hg]. eauto.
  - intros (r & -> & Hg). split; [|done]. exists r. split; [done|]. by apply Hwf in Hg as (_ & ? & _).
Qed.

Lemma sub_rows_ok s b e n :
  cdc_wf s -> (forall k v, (k, v) ∈ kv_range s b e -> (k, v) ∈ kv_range s P (P ++ [Byte.xff])) ->
  decode_rows (length P) (firstn n (kv_range s b e)) = Ok (map dec_row (firstn n (kv_range s b e))).
Proof.
  intros Hwf Hsub. apply decode_rows_ok, Forall_forall. intros [k v] Hin.
  apply elem_of_take in Hin as (i & Hi & _). apply list_elem_of_lookup_2 in Hi.
  apply Hsub, log_rows in Hi as (r & -> & Hg); [|done]. cbn [fst snd]. rewrite skipn_prefix.
  apply Hwf in Hg. naive_solver.
Qed.

Lemma cdc_log_rows s : cdc_wf s -> cdc_log s = map dec_row (kv_range s P (P ++ [Byte.xff])).
Proof.
  intros Hwf. unfold cdc_log.
  rewrite <- (take_ge (kv_range s P (P ++ [Byte.xff])) (length (kv_range s P (P ++ [Byte.xff])))) at 1 by done.
  rewrite sub_rows_ok by done. by rewrite take_ge.
Qed.

(** Reading after a versionstamp is a range restricted to later stamps. *)
Lemma range_after s vs :
  cdc_wf s -> length vs = 10%nat -> vs <> STAMP_MAX ->
  kv_range s (P ++ Versionstamp.next vs) (P ++ [Byte.xff])
    = filter (fun kv => blt vs (skipn (length P) kv.1)) (kv_range s P (P ++ [Byte.xff])).
Proof.
  intros Hwf Hl Hm. apply sorted_ext; [apply kv_range_sorted|apply sorted_filter, kv_range_sorted|].
  intros [k v]. rewrite list_elem_of_filter, (log_rows s k v Hwf). cbn [fst].
  rewrite kv_range_elem. unfold in_scan. split.
  - intros [[Hb He] Hg]. assert (in_scan P (P ++ [Byte.xff]) k) as (r & -> & Hr)%in_scan_prefix.
    { split; [|done]. eapply ble_trans; [apply ble_app_r|exact Hb]. }
    rewrite skipn_prefix. split; [|by eauto].
    unfold ble in Hb. rewrite lex_app in Hb. apply next_blt_iff; [done| |done|done].
    by apply Hwf in Hg as (? & _).
  - intros [Hlt (r & -> & Hg)]. rewrite skipn_prefix in Hlt. pose proof Hg as (Hr & Hff & _)%Hwf.
    split; [|done]. split.
    + unfold ble. rewrite lex_app. by apply next_blt_iff.
    + unfold blt. rewrite lex_app. by apply lex_ff.
Qed.

Lemma filter_map_dec_row vs rows :
  map dec_row (filter (fun kv => blt vs (skipn (length P) kv.1)) rows)
    = filter (fun e => blt vs e.1) (map dec_row rows).
Proof.
  induction rows as [|x rows IH]; [done|]. rewrite filter_cons. cbn [map]. rewrite filter_cons.
  change (dec_row x).1 with (skipn (length P) x.1).
  destruct (decide (blt vs (skipn (length P) x.1))); cbn [map]; by rewrite IH.
Qed.

(** The entries a reader positioned after [vs] has not seen. *)
Definition log_after s (after : option Versionstamp.t) : list (Versionstamp.t * CdcEntry) :=
  match after with
  | Some vs => filter (fun e => blt vs e.1) (cdc_log s)
  | None => cdc_log s
  end.

Lemma run_read_cdc_entries env w after limit :
  no_faults env -> cdc_wf (w_kv w) ->
  (forall vs, after = Some vs -> length vs = 10%nat /\ vs <> STAMP_MAX) ->
  exists n, read_cdc_entries database namespace after limit env w
    = (Ok (firstn limit (log_after (w_kv w) after)),
       mkWorld (w_kv w) (w_cache w) (w_alloc w) (w_failpoints w) n).
Proof.
  intros Henv Hwf Hafter. unfold read_cdc_entries. fold P.
  set (b := match after with Some vs => P ++ Versionstamp.next vs | None => P end).
  destruct (run_get_range_at env Henv b (Sub.range_end (cdc_subspace database namespace)) limit None w)
    as [n Hrun].
  exists n. rewrite (bind_run _ _ _ _ _ _ Hrun). unfold lift. f_equal. cbn [snapshot].
  change (Sub.range_end (cdc_subspace database namespace)) with (P ++ [Byte.xff]).
  assert (map dec_row (kv_range (w_kv w) b (P ++ [Byte.xff])) = log_after (w_kv w) after) as Hlog.
  { subst b. destruct after as [vs|]; unfold log_after; rewrite cdc_log_rows by done; [|done].
    destruct (Hafter vs eq_refl). by rewrite range_after, filter_map_dec_row. }
  rewrite sub_rows_ok; [by rewrite <- Hlog, <- firstn_map|done|].
  intros k v. subst b. destruct after as [vs|]; [|done].
  destruct (Hafter vs eq_refl). rewrite range_after by done. by intros [_ ?]%list_elem_of_filter.
Qed.

(** The log depends on the keys of its subspace only. *)
Lemma cdc_log_frame s s' :
  (forall r, kv_get s' (P ++ r) = kv_get s (P ++ r)) -> cdc_log s' = cdc_log s.
Proof.
  intros Hf. unfold cdc_log.
  cut (kv_range s' P (P ++ [Byte.xff]) = kv_range s P (P ++ [Byte.xff])); [by intros ->|].
  apply sorted_ext; [apply kv_range_sorted..|]. intros [k v]. rewrite !kv_range_elem.
  split; intros [Hin Hg]; (split; [done|]);
    apply in_scan_prefix in Hin as (r & -> & _); congruence.
Qed.

Lemma cdc_wf_frame s s' :
  (forall r, kv_get s' (P ++ r) = kv_get s (P ++ r)) -> kv_stamp s' = kv_stamp s -> cdc_wf s -> cdc_wf s'.
Proof. intros Hf Hs Hwf r v Hg. rewrite Hf in Hg. rewrite Hs. by apply Hwf. Qed.

(** *** Appending *)

Hypothesis Hshort : Z.of_nat (length P) < 2 ^ 32.

Lemma kv_get_template s v k :
  kv_get (kv_svk s (cdc_template_key database namespace) v) k
    = if decide (k = P ++ kv_stamp s) then Some v else kv_get s k.
Proof.
  pose proof (kv_get_svk s P [] v k Hshort) as E. by rewrite app_nil_l, app_nil_r in E.
Qed.

Lemma range_append s v :
  cdc_wf s -> stamp_ok s ->
  kv_range (kv_svk s (cdc_template_key database namespace) v) P (P ++ [Byte.xff])
    = kv_range s P (P ++ [Byte.xff]) ++ [(P ++ kv_stamp s, v)].
Proof.
  intros Hwf [Hff _]. apply sorted_ext; [apply kv_range_sorted| |].
  - apply sorted_app; [apply kv_range_sorted|repeat constructor|].
    intros [k w] y Hk ->%list_elem_of_singleton. apply log_rows in Hk as (r & -> & Hg); [|done].
    apply Hwf in Hg as (_ & _ & _ & Hlt & _). unfold blt in *. cbn [fst]. by rewrite lex_app.
  - intros [k w]. rewrite elem_of_app, list_elem_of_singleton, !kv_range_elem, kv_get_template.
    split.
    + intros [Hin Hg]. case_decide; simplify_eq; auto.
    + intros [[Hin Hg]|[= -> ->]].
      * split; [done|]. rewrite decide_False; [done|]. intros ->.
        apply Hwf in Hg as (_ & _ & _ & Hlt & _). by apply (irreflexivity blt) in Hlt.
      * rewrite decide_True by done. split; [|done]. apply in_scan_prefix. eauto.
Qed.

Lemma cdc_wf_append s v e :
  cdc_wf s -> stamp_ok s -> blt (kv_stamp s) STAMP_MAX -> decode_cbor (A:=CdcEntry) v = Ok e ->
  cdc_wf (kv_svk s (cdc_template_key database namespace) v).
Proof.
  intros Hwf [Hff Hz] Hmax He r v' Hg. rewrite kv_get_template in Hg.
  pose proof (kv_stamp_svk s (cdc_template_key database namespace) v Hmax) as Hlt.
  case_decide as Hk; simplify_eq.
  - repeat split; eauto using kv_stamp_length.
  - apply Hwf in Hg as (? & ? & ? & ? & ?). repeat split; eauto using lex_lt_trans.
Qed.

Lemma write_cdc_entry_log t entry :
  cdc_wf t -> stamp_ok t -> storable_entry entry ->
  exists t', write_cdc_entry t database namespace entry = Ok t' /\
    cdc_log t' = cdc_log t ++ [(kv_stamp t, normalize_legacy_schema_registers (canon_entry entry))] /\
    (forall k, k <> P ++ kv_stamp t -> kv_get t' k = kv_get t k) /\
    (blt (kv_stamp t) STAMP_MAX -> cdc_wf t').
Proof.
  intros Hwf Hst Hs. destruct (encode_cbor_total entry) as (v & Ev & _).
  pose proof (decode_encode_cbor entry v Hs Ev) as Hd.
  unfold write_cdc_entry. rewrite Ev. eexists. split; [reflexivity|].
  set (t' := kv_svk t (cdc_template_key database namespace) v). split; [|split].
  - unfold cdc_log. subst t'. rewrite range_append by done.
    rewrite decode_rows_ok; [rewrite map_app; f_equal|].
    + pose proof (cdc_log_rows t Hwf) as El. unfold cdc_log in El. symmetry. exact El.
    + cbn [map]. unfold dec_row. cbn [fst snd]. by rewrite Hd, skipn_prefix.
    + apply Forall_app. split; [|constructor; [|constructor]; cbn [fst snd]; rewrite skipn_prefix; eauto using kv_stamp_length].
      apply Forall_forall. intros [k u] Hin. apply log_rows in Hin as (r & -> & Hg); [|done].
      cbn [fst snd]. rewrite skipn_prefix. apply Hwf in Hg. naive_solver.
  - intros k Hk. subst t'. rewrite kv_get_template. by rewrite decide_False.
  - intros Hmax. by eapply cdc_wf_append.
Qed.

(** Flushing a non-empty accumulator. *)
Lemma run_flush env acc t w :
  cdc_wf t -> stamp_ok t -> Forall storable_op (acc_operations acc) -> acc_operations acc <> [] ->
  exists t', flush acc t database namespace env w = (Ok t', next_tick w) /\
    cdc_log t' = cdc_log t ++ [(kv_stamp t, normalize_legacy_schema_registers (canon_entry
      (mkCdcEntry (acc_site acc) (env_now env (w_tick w)) None (acc_operations acc))))] /\
    (forall k, (forall r, k <> P ++ r) -> kv_get t' k = kv_get t k) /\
    (blt (kv_stamp t) STAMP_MAX -> cdc_wf t').
Proof.
  intros Hwf Hst Hs Hne. unfold flush, is_empty.
  destruct (acc_operations acc) as [|op ops] eqn:E; [done|]. rewrite run_now.
  destruct (write_cdc_entry_log t (mkCdcEntry (acc_site acc) (env_now env (w_tick w)) None (op :: ops)) Hwf Hst)
    as (t' & Ew & Hlog & Hother & Hwf'); [done|].
  rewrite Ew. exists t'. split; [done|]. split; [done|]. split; [|done]. intros k Hk. by apply Hother.
Qed.

(** A flush writes at most one key, in the log. *)
Lemma run_flush_frame env acc t w :
  exists t' w', flush acc t database namespace env w = (Ok t', w') /\ idle w w' /\
    forall k, (forall r, k <> P ++ r) -> kv_get t' k = kv_get t k.
Proof.
  unfold flush. destruct (is_empty acc); [by exists t, w|]. rewrite run_now. unfold write_cdc_entry.
  destruct (encode_cbor_total (mkCdcEntry (acc_site acc) (env_now env (w_tick w)) None (acc_operations acc))) as (b & -> & _).
  eexists _, _. split; [reflexivity|]. split; [done|]. intros k Hk. rewrite kv_get_template, decide_False; [done|].
  intros ->. by eapply Hk.
Qed.

(** The end of a mutation: flush, failpoint, commit. *)
Lemma run_finish {A} env acc t fp action (a : A) w :
  no_faults env -> no_failpoints w ->
  cdc_wf t -> stamp_ok t -> Forall storable_op (acc_operations acc) -> acc_operations acc <> [] ->
  exists t' ts w', (t ← flush acc t database namespace; Failpoints.inject fp ;; commit_or_internal t action ;; mret a) env w
      = (Ok a, w') /\
    w_kv w' = t' /\ w_cache w' = w_cache w /\ w_alloc w' = w_alloc w /\ no_failpoints w' /\
    cdc_log t' = cdc_log t ++ [(kv_stamp t, normalize_legacy_schema_registers (canon_entry
      (mkCdcEntry (acc_site acc) ts None (acc_operations acc))))] /\
    (forall k, (forall r, k <> P ++ r) -> kv_get t' k = kv_get t k) /\
    (blt (kv_stamp t) STAMP_MAX -> cdc_wf t').
Proof.
  intros Henv Hfp Hwf Hst Hs Hne. destruct (run_flush env acc t w Hwf Hst Hs Hne) as (t' & Ef & Hlog & Hoth & Hwf').
  rewrite (bind_run _ _ _ _ _ _ Ef). mrunf Henv Hfp. eexists t', _, _. split; [reflexivity|]. done.
Qed.
End Log.

(** The CDC entry of a transaction is appended to the log of its
    namespace, at the versionstamp of the commit and after every earlier entry,
    in the form the codec returns; no other key changes, and the log stays
    well formed. *)
Theorem cdc_append {S} `{FdbLaws S} `{CborLaws CdcEntry canon_entry storable_entry}
    (database namespace : string) (t : S) (entry : CdcEntry) :
  Z.of_nat (length (prefix (cdc_subspace database namespace))) < 2 ^ 32 ->
  cdc_wf database namespace t -> stamp_ok t -> storable_entry entry ->
  exists t', write_cdc_entry t database namespace entry = Ok t' /\
    cdc_log database namespace t'
      = cdc_log database namespace t
        ++ [(kv_stamp t, normalize_legacy_schema_registers (canon_entry entry))] /\
    (forall k, k <> prefix (cdc_subspace database namespace) ++ kv_stamp t -> kv_get t' k = kv_get t k) /\
    (blt (kv_stamp t) STAMP_MAX -> cdc_wf database namespace t').
Proof. intros. by apply write_cdc_entry_log. Qed.

(** The readers of the log see it exactly.  [read_cdc_entries] returns the
    first [limit] entries strictly after the given versionstamp, oldest first,
    with none missing. *)
Theorem read_cdc_entries_exact {S} `{FdbLaws S} `{CborLaws CdcEntry canon_entry storable_entry}
    (database namespace : string) env (w : World S) after limit :
  no_faults env -> cdc_wf database namespace (w_kv w) ->
  (forall vs, after = Some vs -> length vs = 10%nat /\ vs <> STAMP_MAX) ->
  exists n, read_cdc_entries database namespace after limit env w
    = (Ok (firstn limit (log_after database namespace (w_kv w) after)),
       mkWorld (w_kv w) (w_cache w) (w_alloc w) (w_failpoints w) n).
Proof. intros. by apply run_read_cdc_entries. Qed.

(** ** A concrete instance *)

#[export] Instance CdcOperation_eq_dec : EqDecision CdcOperation.
Proof. solve_decision. Defined.

#[export] Instance CdcOperation_countable : Countable CdcOperation.
Proof.
  refine (inj_countable'
    (fun op => match op with
      | NodeCreate a b p h => inl (inl (a, b, p, h))
      | NodeUpdate a b c o => inl (inr (a, b, c, o))
      | NodeDelete a b => inr (inl (inl (a, b)))
      | EdgeCreate a b c d e f p => inr (inl (inr (a, b, c, d, e, f, p)))
      | EdgeDelete a b c d e => inr (inr (inl (a, b, c, d, e)))
      | SchemaRegister a v s => inr (inr (inr (inl (a, v, s))))
      | OwnershipTransfer a b c d => inr (inr (inr (inr (a, b, c, d)))) end)
    (fun x => match x with
      | inl (inl (a, b, p, h)) => NodeCreate a b p h
      | inl (inr (a, b, c, o)) => NodeUpdate a b c o
      | inr (inl (inl (a, b))) => NodeDelete a b
      | inr (inl (inr (a, b, c, d, e, f, p))) => EdgeCreate a b c d e f p
      | inr (inr (inl (a, b, c, d, e))) => EdgeDelete a b c d e
      | inr (inr (inr (inl (a, v, s)))) => SchemaRegister a v s
      | inr (inr (inr (inr (a, b, c, d)))) => OwnershipTransfer a b c d end) _).
  by intros [].
Defined.

#[export] Instance CdcEntry_eq_dec : EqDecision CdcEntry.
Proof. solve_decision. Defined.
#[export] Instance CdcEntry_countable : Countable CdcEntry.
Proof.
  refine (inj_countable' (fun e => (entry_site e, timestamp e, batch_id e, operations e))
    (fun '(a, b, c, d) => mkCdcEntry a b c d) _). by intros [].
Defined.

#[export] Instance cdc_cbor : Cbor CdcEntry | 100 := countable_cbor CdcEntry canon_entry.
#[export] Instance cdc_cbor_laws : CborLaws CdcEntry canon_entry storable_entry.
Proof. apply countable_cbor_laws. Qed.

Definition empty_kv : MemKv := mkMem ∅ 1.
Definition quiet_env : Env := mkEnv (fun n => Z.of_nat n) (fun _ => None).
Definition empty_world : World MemKv := mkWorld empty_kv ∅ ∅ ∅ 0.
Definition sample_entry : CdcEntry := mkCdcEntry "1" 7 None [NodeDelete "Person" "1_0"].

Lemma quiet_env_ok : no_faults quiet_env.
Proof. done. Qed.

Lemma empty_kv_wf db ns : cdc_wf db ns empty_kv.
Proof. intros r v Hg. unfold kv_get in Hg. simpl in Hg. by rewrite lookup_empty in Hg. Qed.

Lemma empty_kv_stamp : stamp_ok empty_kv.
Proof. split; [vm_compute; discriminate|vm_compute; reflexivity]. Qed.

Lemma cdc_append_witness :
  exists t', write_cdc_entry empty_kv "db" "ns" sample_entry = Ok t' /\ length (cdc_log "db" "ns" t') = 1%nat.
Proof.
  destruct (cdc_append "db" "ns" empty_kv sample_entry) as (t' & E & Hlog & _).
  - vm_compute. reflexivity.
  - apply empty_kv_wf.
  - apply empty_kv_stamp.
  - repeat constructor.
  - exists t'. split; [exact E|]. rewrite Hlog. vm_compute. reflexivity.
Defined.

Lemma read_cdc_entries_exact_witness :
  exists n, read_cdc_entries "db" "ns" (Some Versionstamp.zero) 5 quiet_env empty_world
    = (Ok [], mkWorld empty_kv ∅ ∅ ∅ n).
Proof.
  destruct (read_cdc_entries_exact "db" "ns" quiet_env empty_world (Some Versionstamp.zero) 5) as [n E].
  - exact quiet_env_ok.
  - apply empty_kv_wf.
  - intros vs [= <-]. split; [reflexivity|discriminate].
  - exists n. rewrite E. reflexivity.
Defined.
