(* ===== verification/Consumer.v ===== *)
(** * CDC consumers

    [pelago-storage/src/consumer.rs]: a consumer reads the log after its
    high-water mark, acknowledges batches and checkpoints the mark.  The consumer
    is an object mutated through [&mut self]: an operation returns the consumer
    after it together with its outcome, so that a failed checkpoint still leaves
    the advanced mark in memory. *)

From S2P Require Import Prelude Bytes Text Errors Types Encoding Subspace SchemaTypes Fdb MemFdb Cdc.

Record ConsumerConfig := mkConsumerConfig {
  consumer_id : string;
  cfg_database : string;
  cfg_namespace : string;
  batch_size : nat;
  checkpoint_interval : Z;
  poll_interval : Z
}.

Module Config.
(** Intervals in microseconds. *)
Definition new (consumer_id database namespace : string) : ConsumerConfig :=
  mkConsumerConfig consumer_id database namespace 1000 5000000 100000.
Definition with_batch_size (c : ConsumerConfig) (n : nat) : ConsumerConfig :=
  mkConsumerConfig (consumer_id c) (cfg_database c) (cfg_namespace c) n (checkpoint_interval c) (poll_interval c).
Definition with_checkpoint_interval (c : ConsumerConfig) (i : Z) : ConsumerConfig :=
  mkConsumerConfig (consumer_id c) (cfg_database c) (cfg_namespace c) (batch_size c) i (poll_interval c).
End Config.

Record CdcConsumer := mkConsumer {
  config : ConsumerConfig;
  hwm : Versionstamp.t;
  last_checkpoint : Z
}.

(** The body of [extract_tuple_string] after its type byte. *)
Fixpoint untuple (data : bytes) : bytes :=
  match data with
  | [] => []
  | b :: r =>
      if decide (b = Byte.x00) then
        match r with
        | c :: r' => if decide (c = Byte.xff) then Byte.x00 :: untuple r' else []
        | [] => []
        end
      else b :: untuple r
  end.

Definition extract_tuple_string (data : bytes) : string :=
  match data with
  | b :: r => if decide (b = Byte.x02) then default "" (from_utf8 (untuple r)) else ""
  | [] => ""
  end.

Section Consumer.
Context {S : Type} `{Fdb S} `{Cbor CdcEntry}.

Definition checkpoint_key (c : ConsumerConfig) : bytes :=
  Tuple.build (Tuple.add_string (Tuple.add_string
    (Sub.pack (Sub.meta (Sub.namespace (cfg_database c) (cfg_namespace c)))) "cdc_checkpoints")
    (consumer_id c)).

Definition load_hwm (c : ConsumerConfig) : M S Versionstamp.t :=
  row ← db_get (checkpoint_key c);
  match row with
  | Some b => lift (ok_or (Versionstamp.from_bytes b) (Internal "Invalid CDC checkpoint data"))
  | None => mret Versionstamp.zero
  end.

Definition new_consumer (c : ConsumerConfig) : M S CdcConsumer :=
  h ← load_hwm c; t ← now; mret (mkConsumer c h t).

Definition save_hwm (c : CdcConsumer) : M S (CdcConsumer * result unit) :=
  r ← attempt (Failpoints.inject "consumer.checkpoint.before_write" ;;
               db_set (checkpoint_key (config c)) (hwm c));
  match r with
  | Ok _ => t ← now; mret (mkConsumer (config c) (hwm c) t, Ok tt)
  | Err e => mret (c, Err e)
  end.

Definition poll_batch (c : CdcConsumer) : M S (list (Versionstamp.t * CdcEntry)) :=
  let after := if Versionstamp.is_zero (hwm c) then None else Some (hwm c) in
  read_cdc_entries (cfg_database (config c)) (cfg_namespace (config c)) after (batch_size (config c)).

Definition advance (c : CdcConsumer) (vs : Versionstamp.t) : CdcConsumer :=
  if decide (blt (hwm c) vs) then mkConsumer (config c) vs (last_checkpoint c) else c.

Definition ack_through (c : CdcConsumer) (vs : Versionstamp.t) : M S (CdcConsumer * result unit) :=
  let c1 := advance c vs in
  t ← now;
  if checkpoint_interval (config c1) <=? Z.max 0 (t - last_checkpoint c1)
  then save_hwm c1 else mret (c1, Ok tt).

Definition ack_batch (c : CdcConsumer) (entries : list (Versionstamp.t * CdcEntry))
    : M S (CdcConsumer * result unit) :=
  match last entries with
  | Some (vs, _) => ack_through c vs
  | None => mret (c, Ok tt)
  end.

Definition checkpoint (c : CdcConsumer) : M S (CdcConsumer * result unit) := save_hwm c.

Definition fetch_all_checkpoints (database namespace : string)
    : M S (list (string * Versionstamp.t)) :=
  let p := Tuple.build (Tuple.add_string
    (Sub.pack (Sub.meta (Sub.namespace database namespace))) "cdc_checkpoints") in
  rows ← get_range p (p ++ [Byte.xff]) 1000;
  mret (omap (fun kv => match Versionstamp.from_bytes kv.2 with
                        | Some vs => Some (extract_tuple_string (skipn (length p) kv.1), vs)
                        | None => None end) rows).

(** The loop of a worker: poll, process, acknowledge. *)
Fixpoint consume (rounds : nat) (c : CdcConsumer) (seen : list (Versionstamp.t * CdcEntry))
    : M S (list (Versionstamp.t * CdcEntry) * CdcConsumer) :=
  match rounds with
  | O => mret (seen, c)
  | Datatypes.S k =>
      batch ← poll_batch c;
      r ← ack_batch c batch;
      consume k r.1 (seen ++ batch)
  end.
End Consumer.

(** ** Tuple strings *)

Lemma untuple_escape a r : not_ff r -> untuple (escape a ++ Byte.x00 :: r) = a.
Proof.
  intros Hr. induction a as [|b a IH].
  - simpl. destruct r as [|c r]; [done|]. rewrite decide_False; [done|]. intros ->. by apply Hr.
  - rewrite escape_cons, <- app_assoc. case_decide as Hb; simpl.
    + by rewrite IH, Hb.
    + rewrite decide_False by done. by rewrite IH.
Qed.

(** Reading a consumer name back from a checkpoint key gives the name
    that was packed, escaped null bytes included. *)
Theorem extract_tuple_string_packed s r :
  str_ok s -> not_ff r -> extract_tuple_string (enc_str s ++ r) = s.
Proof.
  intros Hs Hr. rewrite enc_str_app. unfold extract_tuple_string.
  rewrite decide_True, untuple_escape by done. by rewrite from_utf8_sbytes.
Qed.

Lemma extract_tuple_string_packed_witness :
  extract_tuple_string (enc_str (bstr [Byte.x61; Byte.x00; Byte.x62]) ++ []) = bstr [Byte.x61; Byte.x00; Byte.x62].
Proof. apply extract_tuple_string_packed; [vm_compute; reflexivity|done]. Defined.

(** ** Delivery *)

Section Delivery.
Context {S : Type} `{FdbLaws S} `{CborLaws CdcEntry canon_entry storable_entry}.
Context (env : Env) (Henv : no_faults env).
Context (database namespace : string).
Implicit Types (s : S) (w : World S).

Let P : bytes := prefix (cdc_subspace database namespace).
Abbreviation log := (cdc_log database namespace).
Abbreviation wf := (cdc_wf database namespace).

(** The entries beyond a mark. *)
Definition beyond s (h : Versionstamp.t) : list (Versionstamp.t * CdcEntry) :=
  filter (fun e => blt h e.1) (log s).

Lemma log_sorted s : wf s -> StronglySorted (fun x y => blt x.1 y.1) (log s).
Proof.
  intros Hwf. rewrite cdc_log_rows by done. fold P.
  assert (forall x, x ∈ kv_range s P (P ++ [Byte.xff]) -> exists r, x.1 = P ++ r) as Hk.
  { intros [k v] Hin. apply (log_rows database namespace) in Hin as (r & -> & _); [eauto|done]. }
  pose proof (kv_range_sorted s P (P ++ [Byte.xff])) as Hs. revert Hk Hs.
  generalize (kv_range s P (P ++ [Byte.xff])). induction l as [|x l IH]; [constructor|].
  intros Hk [Hs Hf]%StronglySorted_inv. cbn [map]. constructor; [apply IH; [set_solver|done]|].
  apply Forall_forall. intros y (z & -> & Hz)%list_elem_of_fmap.
  rewrite Forall_forall in Hf. specialize (Hf z Hz).
  destruct (Hk x ltac:(set_solver)) as [r1 E1], (Hk z ltac:(set_solver)) as [r2 E2].
  cbn [dec_row fst]. fold P. unfold blt in *. rewrite E1, E2 in *. rewrite lex_app in Hf.
  by rewrite !drop_app_length.
Qed.

Lemma log_stamps s e : wf s -> e ∈ log s -> length e.1 = 10%nat /\ not_ff e.1 /\ blt Versionstamp.zero e.1.
Proof.
  intros Hwf. rewrite cdc_log_rows by done. fold P. intros (kv & -> & Hin)%list_elem_of_fmap.
  destruct kv as [k v]. apply (log_rows database namespace) in Hin as (r & -> & Hg); [|done].
  cbn [dec_row fst]. fold P. rewrite drop_app_length. apply Hwf in Hg. naive_solver.
Qed.

(** What a consumer reads next is what lies beyond its mark, whether or not it
    starts from the beginning. *)
Lemma log_after_beyond s h :
  wf s -> log_after database namespace s (if Versionstamp.is_zero h then None else Some h) = beyond s h.
Proof.
  intros Hwf. unfold Versionstamp.is_zero, beyond. case_bool_decide as Hz; [subst|done].
  cbn [log_after]. pose proof (fun e => log_stamps s e Hwf) as Hst.
  symmetry. apply filter_all_true. intros e He. by apply Hst.
Qed.

(** In a sorted log, the entries beyond the last one of a prefix are the rest. *)
Lemma beyond_last (l : list (Versionstamp.t * CdcEntry)) h n x :
  StronglySorted (fun x y => blt x.1 y.1) l ->
  last (firstn n (filter (fun e => blt h e.1) l)) = Some x ->
  filter (fun e => blt x.1 e.1) l = skipn n (filter (fun e => blt h e.1) l).
Proof.
  intros Hs. revert n. induction l as [|y l IH]; intros n Hlast; [by destruct n|].
  apply StronglySorted_inv in Hs as [Hs Hf]. rewrite Forall_forall in Hf.
  rewrite (filter_cons (fun e => blt h e.1)) in Hlast |- *. case_decide as Hy.
  - destruct n as [|n]; [done|]. cbn [firstn skipn] in *.
    destruct (firstn n (filter (fun e => blt h e.1) l)) as [|z zs] eqn:E in Hlast.
    + cbn in Hlast. simplify_eq. rewrite filter_cons_False by (apply (irreflexivity blt x.1)).
      assert (filter (fun e => blt h e.1) l = l) as Hall.
      { apply filter_all_true. intros z Hz. etrans; [exact Hy|by apply Hf]. }
      assert (filter (fun e => blt x.1 e.1) l = l) as Hall2.
      { apply filter_all_true. intros z Hz. by apply Hf. }
      rewrite Hall in E |- *. rewrite Hall2. destruct n; [done|]. by destruct l.
    + rewrite last_cons_cons, <- E in Hlast. rewrite filter_cons_False; [by apply IH|].
      assert (x ∈ l) as Hx.
      { by apply last_Some_elem_of, elem_of_take_1, list_elem_of_filter in Hlast as [_ ?]. }
      intros Hlt. apply (irreflexivity blt y.1). etrans; [by apply Hf|exact Hlt].
  - rewrite filter_cons_False; [by apply IH|].
    assert (x ∈ l) as Hx.
    { by apply last_Some_elem_of, elem_of_take_1, list_elem_of_filter in Hlast as [_ ?]. }
    intros Hlt. apply (irreflexivity blt y.1). etrans; [by apply Hf|exact Hlt].
Qed.

(** *** Runs of the consumer *)

Definition consumer_ok (c : CdcConsumer) : Prop :=
  cfg_database (config c) = database /\ cfg_namespace (config c) = namespace /\
  length (hwm c) = 10%nat /\ hwm c <> STAMP_MAX.

Lemma run_poll_batch w c :
  wf (w_kv w) -> consumer_ok c ->
  exists n, poll_batch c env w
    = (Ok (firstn (batch_size (config c)) (beyond (w_kv w) (hwm c))),
       mkWorld (w_kv w) (w_cache w) (w_alloc w) (w_failpoints w) n).
Proof.
  intros Hwf (Hdb & Hns & Hl & Hm). unfold poll_batch. rewrite Hdb, Hns.
  destruct (run_read_cdc_entries database namespace env w
    (if Versionstamp.is_zero (hwm c) then None else Some (hwm c)) (batch_size (config c)) Henv Hwf) as [n ->].
  { intros vs Hvs. case_match; simplify_eq. done. }
  exists n. by rewrite log_after_beyond.
Qed.

(** Outside the checkpoint key a consumer leaves the key space alone. *)
Definition only_key (k : bytes) s s' : Prop :=
  (forall k', k' <> k -> kv_get s' k' = kv_get s k') /\ kv_stamp s' = kv_stamp s.

Lemma only_key_refl k s : only_key k s s.
Proof. done. Qed.

Lemma save_hwm_run env' w c :
  exists c' r w', save_hwm c env' w = (Ok (c', r), w') /\
    config c' = config c /\ hwm c' = hwm c /\
    only_key (checkpoint_key (config c)) (w_kv w) (w_kv w').
Proof.
  unfold save_hwm, attempt.
  set (m := Failpoints.inject "consumer.checkpoint.before_write" ;; db_set (checkpoint_key (config c)) (hwm c)).
  assert (only_key (checkpoint_key (config c)) (w_kv w) (w_kv (m env' w).2)) as Hk.
  { unfold m, mbind, M_bind. pose proof (steps_inject (S:=S) same_kv "consumer.checkpoint.before_write" env' w) as Hi.
    destruct (Failpoints.inject _ env' w) as [[[]|e] w1]; simpl in *; unfold same_kv in Hi; rewrite <- Hi; [|done].
    destruct (db_set_cases env' w1 (checkpoint_key (config c)) (hwm c)) as [[_ ->]|[_ ->]]; [done|].
    split; [|by rewrite kv_stamp_set]. intros k' Hk'. by rewrite kv_get_set, decide_False. }
  unfold mbind, M_bind. destruct (m env' w) as [[u|e] w1]; simpl in *.
  - unfold now. do 3 eexists. split; [reflexivity|]. done.
  - do 3 eexists. split; [reflexivity|]. done.
Qed.

Lemma ack_batch_run env' w c batch :
  exists c' r w', ack_batch c batch env' w = (Ok (c', r), w') /\
    config c' = config c /\
    hwm c' = match last batch with
             | Some e => if decide (blt (hwm c) e.1) then e.1 else hwm c | None => hwm c end /\
    only_key (checkpoint_key (config c)) (w_kv w) (w_kv w').
Proof.
  unfold ack_batch. destruct (last batch) as [[vs e]|]; [|by eexists _, _, _].
  unfold ack_through. cbn [fst].
  assert (config (advance c vs) = config c) as Hc by (unfold advance; by case_decide).
  assert (hwm (advance c vs) = if decide (blt (hwm c) vs) then vs else hwm c) as Hh
    by (unfold advance; by case_decide).
  rewrite (bind_run now _ env' w _ _ eq_refl).
  destruct (checkpoint_interval (config (advance c vs)) <=? _).
  - destruct (save_hwm_run env' (next_tick w) (advance c vs)) as (c' & r & w' & -> & H1' & H2' & H3').
    exists c', r, w'. split; [done|]. rewrite H1', H2', Hc in *. done.
  - eexists _, _, _. split; [reflexivity|]. done.
Qed.

(** The checkpoint key lies outside the log. *)
Lemma checkpoint_key_not_cdc c r : P ++ r <> checkpoint_key c.
Proof.
  unfold checkpoint_key, P, cdc_subspace. tuple_norm. unfold Sub.cdc, Sub.meta. intros E.
  apply ns_key_inj in E as (_ & _ & E & _); [discriminate E|marker..].
Qed.

Lemma only_key_log c s s' :
  only_key (checkpoint_key c) s s' -> wf s -> wf s' /\ log s' = log s.
Proof.
  intros [Hk Hs] Hwf.
  assert (forall r, kv_get s' (P ++ r) = kv_get s (P ++ r)) as Hf
    by (intros r; apply Hk, checkpoint_key_not_cdc).
  split; [by eapply cdc_wf_frame|by apply cdc_log_frame].
Qed.

Lemma run_consume rounds w c seen :
  wf (w_kv w) -> consumer_ok c -> (0 < batch_size (config c))%nat ->
  exists c' w', consume rounds c seen env w
    = (Ok (seen ++ firstn (rounds * batch_size (config c)) (beyond (w_kv w) (hwm c)), c'), w') /\
    wf (w_kv w') /\ log (w_kv w') = log (w_kv w) /\ consumer_ok c' /\
    beyond (w_kv w') (hwm c') = skipn (rounds * batch_size (config c)) (beyond (w_kv w) (hwm c)).
Proof.
  revert w c seen. induction rounds as [|k IH]; intros w c seen Hwf Hc Hb.
  { exists c, w. simpl. rewrite app_nil_r, drop_0. done. }
  cbn [consume]. destruct (run_poll_batch w c Hwf Hc) as [n Hpoll].
  rewrite (bind_run _ _ _ _ _ _ Hpoll).
  set (b := batch_size (config c)) in *. set (R := beyond (w_kv w) (hwm c)) in *.
  set (w1 := mkWorld (w_kv w) (w_cache w) (w_alloc w) (w_failpoints w) n).
  destruct (ack_batch_run env w1 c (firstn b R)) as (c' & r & w' & Hack & Hcfg & Hhwm & Honly).
  rewrite (bind_run _ _ _ _ _ _ Hack). cbn [fst]. simpl in Honly.
  destruct (only_key_log _ _ _ Honly Hwf) as [Hwf' Hlog'].
  assert (Hc' : consumer_ok c' /\ beyond (w_kv w') (hwm c') = skipn b R).
  { unfold consumer_ok. rewrite Hcfg. destruct Hc as (? & ? & Hl & Hm).
    destruct (last (firstn b R)) as [e|] eqn:El.
    - assert (e ∈ log (w_kv w) /\ blt (hwm c) e.1) as [He Hlt].
      { apply last_Some_elem_of, elem_of_take_1 in El. subst R. unfold beyond in El.
        apply list_elem_of_filter in El as [? ?]. done. }
      rewrite decide_True in Hhwm by done. rewrite Hhwm.
      pose proof (log_stamps _ _ Hwf He) as (Hl' & Hff & _). split.
      + repeat split; [done..|]. intros E. rewrite E in Hff. by apply Hff.
      + unfold beyond. rewrite Hlog'. subst R. unfold beyond in El |- *.
        apply beyond_last; [by apply log_sorted|done].
    - rewrite Hhwm. split; [done|]. unfold beyond. rewrite Hlog'.
      apply last_None in El. fold (beyond (w_kv w) (hwm c)). fold R.
      destruct R; [by rewrite drop_nil|]. by destruct b; [lia|]. }
  destruct Hc' as [Hc' Hbey].
  destruct (IH w' c' (seen ++ firstn b R) Hwf' Hc' ltac:(by rewrite Hcfg)) as (c'' & w'' & -> & ? & Hl2 & ? & Hb2).
  rewrite Hcfg in *. fold b in Hb2 |- *. rewrite Hbey in *. exists c'', w''. split.
  - f_equal. f_equal. f_equal. rewrite <- app_assoc. f_equal.
    rewrite Nat.mul_succ_l, (Nat.add_comm _ b), <- take_take_drop. done.
  - split; [done|]. split; [congruence|]. split; [done|]. rewrite Hb2, drop_drop. f_equal; lia.
Qed.
End Delivery.


