(* ===== verification/Ids.v ===== *)
(** * Identifier allocation

    [pelago-storage/src/ids.rs]: sequence numbers are taken from a counter in the
    key space in batches; the rest of a batch is kept in memory, in a map shared
    by all requests ([w_alloc] of the world), behind one lock. *)

From S2P Require Import Prelude Bytes Text Errors Types Encoding Subspace SchemaTypes Fdb MemFdb Cdc.

Record IdAllocator := mkIdAllocator { alloc_site_id : Z; alloc_batch_size : Z }.

Definition counter_key (sub : Subspace) (entity_type : string) (site_id : Z) : bytes :=
  Tuple.build (Tuple.add_int (Tuple.add_string (Sub.pack sub) entity_type) site_id).

(** The key of the in-memory map: the three names joined by colons. *)
Definition cache_key (database namespace entity_type : string) : string :=
  (database ++ ":" ++ namespace ++ ":" ++ entity_type)%string.

(** The counter stored at a key; malformed bytes count as zero. *)
Definition read_counter (row : option bytes) : Z :=
  match row with
  | Some b => if Nat.eqb (length b) 8 then be_val b else 0
  | None => 0
  end.

Section Ids.
Context {S : Type} `{Fdb S}.

(** The transaction of [allocate_batch_from_fdb]; the retry loop of the client
    library runs it to completion or reports one error. *)
Definition allocate_batch_from_fdb (a : IdAllocator) (database namespace entity_type : string) : M S Z :=
  let key := counter_key (Sub.ids (Sub.namespace database namespace)) entity_type (alloc_site_id a) in
  let failed e := Internal ("Transaction failed: " ++ e) in
  may_fail failed ;;
  w ← get_world;
  row ← trx_get failed (w_kv w) key;
  let current := read_counter row in
  let new_value := u64_saturating_add current (alloc_batch_size a) in
  commit failed (kv_set (w_kv w) key (be_bytes 8 new_value)) ;;
  mret current.

Definition allocate (a : IdAllocator) (database namespace entity_type : string) : M S (Z * Z) :=
  let ck := cache_key database namespace entity_type in
  w ← get_world;
  let '(next, batch_end) := default (0, 0) (w_alloc w !! ck) in
  put_world (set_alloc w (<[ck := (next, batch_end)]> (w_alloc w))) ;;
  st ← (if batch_end <=? next then
          start ← allocate_batch_from_fdb a database namespace entity_type;
          mret (start, (start + alloc_batch_size a) mod 2 ^ 64)
        else mret (next, batch_end));
  let '(id, batch_end') := st in
  w ← get_world;
  put_world (set_alloc w (<[ck := ((id + 1) mod 2 ^ 64, batch_end')]> (w_alloc w))) ;;
  mret (alloc_site_id a, id).
End Ids.

(** ** Specification

    The abstract allocator of a (database, namespace, type) is a single number,
    the next sequence number it will issue. *)

Section Spec.
Context {S : Type} `{FdbLaws S}.
Context (a : IdAllocator).
Implicit Types (w : World S).

Definition counter w (db ns et : string) : Z :=
  read_counter (kv_get (w_kv w) (counter_key (Sub.ids (Sub.namespace db ns)) et (alloc_site_id a))).

(** The batch in memory, empty if there is none. *)
Definition batch w (db ns et : string) : Z * Z := default (0, 0) (w_alloc w !! cache_key db ns et).

Definition next_id w (db ns et : string) : Z :=
  let '(next, batch_end) := batch w db ns et in
  if batch_end <=? next then counter w db ns et else next.

(** The batch in memory was taken from the counter. *)
Definition alloc_inv w (db ns et : string) : Prop :=
  0 <= counter w db ns et < 2 ^ 64 /\
  0 <= (batch w db ns et).1 /\
  ((batch w db ns et).1 < (batch w db ns et).2 -> (batch w db ns et).2 <= counter w db ns et).

Lemma read_counter_range row : 0 <= read_counter row < 2 ^ 64.
Proof.
  unfold read_counter. destruct row as [l|]; [|lia].
  destruct (Nat.eqb_spec (length l) 8) as [E|]; [|lia].
  pose proof (be_val_range l) as Hr. by rewrite E in Hr.
Qed.

Lemma read_counter_be z : 0 <= z < 2 ^ 64 -> read_counter (Some (be_bytes 8 z)) = z.
Proof.
  intros Hz. unfold read_counter. rewrite length_be_bytes. cbn [Nat.eqb].
  rewrite be_val_be_bytes. by apply Z.mod_small.
Qed.

Lemma alloc_view w db ns et nx be c :
  w_alloc w !! cache_key db ns et = Some (nx, be) -> counter w db ns et = c ->
  next_id w db ns et = (if be <=? nx then c else nx) /\
  (0 <= nx -> (nx < be -> be <= c) -> alloc_inv w db ns et).
Proof.
  intros Ha Hc. unfold next_id, alloc_inv, batch. rewrite Ha, Hc. split; [done|].
  intros. split; [rewrite <- Hc; apply read_counter_range|done].
Qed.

(** Everything but the key [k] is as before. *)
Definition kv_upto (k : bytes) (s s' : S) : Prop :=
  (forall k', k' <> k -> kv_get s' k' = kv_get s k') /\ kv_stamp s' = kv_stamp s.

Lemma run_allocate_batch env w db ns et :
  no_faults env ->
  let key := counter_key (Sub.ids (Sub.namespace db ns)) et (alloc_site_id a) in
  exists n, allocate_batch_from_fdb a db ns et env w
    = (Ok (counter w db ns et),
       mkWorld (kv_set (w_kv w) key
                 (be_bytes 8 (u64_saturating_add (counter w db ns et) (alloc_batch_size a))))
         (w_cache w) (w_alloc w) (w_failpoints w) n).
Proof.
  intros Henv key. unfold allocate_batch_from_fdb.
  rewrite (bind_run _ _ _ _ _ _ (run_may_fail env Henv _ w)).
  rewrite (bind_run get_world _ env (next_tick w) _ _ eq_refl).
  rewrite (bind_run _ _ _ _ _ _ (run_trx_get env Henv _ _ _ _)).
  rewrite (bind_run _ _ _ _ _ _ (run_commit env Henv _ _ _)). eexists. reflexivity.
Qed.

(** The effect of an allocation on the world. *)
Definition allocates w w' (db ns et : string) : Prop :=
  next_id w db ns et < next_id w' db ns et /\ alloc_inv w' db ns et /\
  (forall ck, ck <> cache_key db ns et -> w_alloc w' !! ck = w_alloc w !! ck) /\
  kv_upto (counter_key (Sub.ids (Sub.namespace db ns)) et (alloc_site_id a)) (w_kv w) (w_kv w') /\
  w_cache w' = w_cache w /\ w_failpoints w' = w_failpoints w.

Lemma run_allocate env w db ns et :
  no_faults env -> 0 < alloc_batch_size a -> alloc_inv w db ns et ->
  counter w db ns et + alloc_batch_size a < 2 ^ 64 ->
  exists w', allocate a db ns et env w = (Ok (alloc_site_id a, next_id w db ns et), w') /\
    allocates w w' db ns et.
Proof.
  intros Henv Hb (Hc & Hn & Hbe) Hmax. unfold allocate, allocates. unfold next_id at 1 2.
  rewrite (bind_run get_world _ env w _ _ eq_refl). unfold batch in *.
  destruct (default (0, 0) (w_alloc w !! cache_key db ns et)) as [nx be] eqn:Eb. cbn [fst snd] in *.
  rewrite (bind_run (put_world _) _ env w _ _ eq_refl). set (w1 := set_alloc w _).
  assert (counter w1 db ns et = counter w db ns et) as Ec by done.
  destruct (Z.leb_spec be nx) as [Hle|Hlt].
  - destruct (run_allocate_batch env w1 db ns et Henv) as [n Hrun]. rewrite Ec in Hrun.
    set (key := counter_key _ _ _) in *. set (cn := counter w db ns et) in *.
    rewrite (bind_run _ _ _ _ _ _ (eq_trans (bind_run _ _ _ _ _ _ Hrun) eq_refl)).
    rewrite (bind_run get_world _ env _ _ _ eq_refl), (bind_run (put_world _) _ env _ _ _ eq_refl).
    eexists. split; [reflexivity|]. unfold u64_saturating_add, U64_MAX.
    rewrite Z.min_l, !Z.mod_small by lia. set (w' := set_alloc _ _).
    destruct (alloc_view w' db ns et (cn + 1) (cn + alloc_batch_size a) (cn + alloc_batch_size a))
      as [-> Hinv].
    { apply lookup_insert_eq. }
    { unfold counter. subst w'. cbn. fold key. rewrite kv_get_set, decide_True by done.
      apply read_counter_be. lia. }
    split; [destruct (Z.leb_spec (cn + alloc_batch_size a) (cn + 1)); lia|].
    split; [apply Hinv; lia|]. split; [|split; [|done]].
    + intros ck Hck. subst w' w1. cbn. by rewrite !lookup_insert_ne.
    + subst w'. cbn. split; [|apply kv_stamp_set]. intros k' Hk'. by rewrite kv_get_set, decide_False.
  - rewrite (bind_run (mret _) _ env _ _ _ eq_refl).
    rewrite (bind_run get_world _ env _ _ _ eq_refl), (bind_run (put_world _) _ env _ _ _ eq_refl).
    eexists. split; [reflexivity|]. rewrite !Z.mod_small by lia. set (w' := set_alloc _ _).
    destruct (alloc_view w' db ns et (nx + 1) be (counter w db ns et)) as [-> Hinv].
    { apply lookup_insert_eq. }
    { done. }
    split; [destruct (Z.leb_spec be (nx + 1)); lia|].
    split; [apply Hinv; lia|]. split; [|done].
    intros ck Hck. subst w' w1. cbn. by rewrite !lookup_insert_ne.
Qed.
End Spec.

(** ** Consequences *)

(** A run of allocations, of any types and in any order. *)
Fixpoint allocate_all {S} `{Fdb S} (a : IdAllocator) (reqs : list (string * string * string))
    : M S (list (string * string * string * Z)) :=
  match reqs with
  | [] => mret []
  | (db, ns, et) :: rest =>
      r ← allocate a db ns et;
      out ← allocate_all a rest;
      mret ((db, ns, et, r.2) :: out)
  end.

(** The sequence numbers issued to one type. *)
Definition issued (k : string * string * string) (out : list (string * string * string * Z)) : list Z :=
  omap (fun x => if decide (x.1 = k) then Some x.2 else None) out.

Section Sequences.
Context {S : Type} `{FdbLaws S}.
Context (a : IdAllocator) (env : Env) (Henv : no_faults env) (Hb : 0 < alloc_batch_size a).
Implicit Types (w : World S).

Lemma counter_key_inj db ns et db' ns' et' :
  counter_key (Sub.ids (Sub.namespace db ns)) et (alloc_site_id a)
    = counter_key (Sub.ids (Sub.namespace db' ns')) et' (alloc_site_id a) ->
  (db, ns, et) = (db', ns', et').
Proof.
  unfold counter_key. tuple_norm. unfold Sub.ids. intros E.
  apply ns_key_inj in E as (-> & -> & _ & E); [|marker..].
  by apply enc_str_inj in E as [-> _]; [|apply not_ff_cons..].
Qed.

(** Types with different cache keys do not disturb each other. *)
Lemma allocates_frame w w' db ns et db' ns' et' :
  allocates a w w' db ns et -> cache_key db' ns' et' <> cache_key db ns et ->
  next_id a w' db' ns' et' = next_id a w db' ns' et' /\
  counter a w' db' ns' et' = counter a w db' ns' et' /\
  (alloc_inv a w db' ns' et' -> alloc_inv a w' db' ns' et').
Proof.
  intros (_ & _ & Ha & [Hk _] & _) Hck.
  assert (counter a w' db' ns' et' = counter a w db' ns' et') as Ec.
  { unfold counter. f_equal. apply Hk. intros E. apply counter_key_inj in E. by simplify_eq. }
  unfold next_id, alloc_inv, batch. rewrite Ec, Ha by done. done.
Qed.

(** The counters of the requested types have room for [room] more batches. *)
Definition room_for w (keys : list (string * string * string)) (room : nat) : Prop :=
  forall db ns et, (db, ns, et) ∈ keys ->
    alloc_inv a w db ns et /\ counter a w db ns et + Z.of_nat room * alloc_batch_size a < 2 ^ 64.

Lemma allocate_counter w w' db ns et :
  allocate a db ns et env w = (Ok (alloc_site_id a, next_id a w db ns et), w') ->
  alloc_inv a w db ns et -> counter a w db ns et + alloc_batch_size a < 2 ^ 64 ->
  counter a w' db ns et <= counter a w db ns et + alloc_batch_size a.
Proof.
  intros Hrun (Hc & Hn & Hbe) Hmax. revert Hrun. unfold allocate, batch in *.
  rewrite (bind_run get_world _ env w _ _ eq_refl).
  destruct (default (0, 0) (w_alloc w !! cache_key db ns et)) as [nx be].
  rewrite (bind_run (put_world _) _ env w _ _ eq_refl). set (w1 := set_alloc w _).
  destruct (be <=? nx).
  - destruct (run_allocate_batch a env w1 db ns et Henv) as [n Hrun].
    rewrite (bind_run _ _ _ _ _ _ (eq_trans (bind_run _ _ _ _ _ _ Hrun) eq_refl)).
    rewrite (bind_run get_world _ env _ _ _ eq_refl), (bind_run (put_world _) _ env _ _ _ eq_refl).
    intros E%(f_equal snd). unfold mret, M_ret in E. cbn [snd] in E. subst w'. unfold counter at 1. cbn [w_kv set_alloc]. rewrite kv_get_set, decide_True by done.
    change (counter a w1 db ns et) with (counter a w db ns et).
    unfold u64_saturating_add, U64_MAX. rewrite Z.min_l by lia. rewrite read_counter_be by lia. lia.
  - rewrite (bind_run (mret _) _ env _ _ _ eq_refl).
    rewrite (bind_run get_world _ env _ _ _ eq_refl), (bind_run (put_world _) _ env _ _ _ eq_refl).
    intros [= _ <-]. change (counter a (set_alloc w1 _) db ns et) with (counter a w db ns et). lia.
Qed.

Lemma run_allocate_all reqs w :
  (forall k k', k ∈ reqs -> k' ∈ reqs -> cache_key k.1.1 k.1.2 k.2 = cache_key k'.1.1 k'.1.2 k'.2 -> k = k') ->
  room_for w reqs (length reqs) ->
  exists out w', allocate_all a reqs env w = (Ok out, w') /\
    forall db ns et, (db, ns, et) ∈ reqs ->
      StronglySorted Z.lt (issued (db, ns, et) out) /\
      Forall (fun id => next_id a w db ns et <= id) (issued (db, ns, et) out).
Proof.
  revert w. induction reqs as [|[[db ns] et] reqs IH]; intros w Hinj Hroom.
  { exists [], w. split; [done|]. intros ? ? ? Hin. by apply not_elem_of_nil in Hin. }
  cbn [allocate_all length] in *.
  destruct (Hroom db ns et ltac:(left)) as [Hinv Hmax].
  destruct (run_allocate a env w db ns et Henv Hb Hinv ltac:(nia)) as (w1 & Hrun & Heff).
  pose proof (allocate_counter w w1 db ns et Hrun Hinv ltac:(nia)) as Hcnt.
  rewrite (bind_run _ _ _ _ _ _ Hrun).
  destruct (IH w1) as (out & w2 & Hall & Hprop).
  { intros k k' Hk Hk'. apply Hinj; by right. }
  { intros db' ns' et' Hin. destruct (Hroom db' ns' et' ltac:(by right)) as [Hinv' Hmax'].
    destruct (decide ((db', ns', et') = (db, ns, et))) as [[= -> -> ->]|Hne].
    - split; [apply Heff|]. rewrite Nat2Z.inj_succ in Hmax. nia.
    - destruct (allocates_frame _ _ _ _ _ db' ns' et' Heff) as (_ & -> & Hi).
      { intros E. apply Hne. symmetry. apply (Hinj (db, ns, et) (db', ns', et')); [left|by right|done]. }
      split; [auto|nia]. }
  rewrite (bind_run _ _ _ _ _ _ Hall). eexists _, w2. split; [reflexivity|].
  intros db' ns' et' Hin. unfold issued. cbn [omap list_omap fst snd].
  fold (issued (db', ns', et') out).
  destruct (decide ((db', ns', et') ∈ reqs)) as [Hin'|Hnin].
  - destruct (Hprop db' ns' et' Hin') as [Hs Hf]. case_decide as Heq.
    + injection Heq as <- <- <-. destruct Heff as [Hlt _]. split.
      * constructor; [done|]. eapply Forall_impl; [exact Hf|]. simpl. lia.
      * constructor; [lia|]. eapply Forall_impl; [exact Hf|]. simpl. lia.
    + split; [done|]. destruct (allocates_frame _ _ _ _ _ db' ns' et' Heff) as (E & _).
      { intros E. apply Heq. apply (Hinj (db, ns, et) (db', ns', et')); [left|done|done]. }
      by rewrite E in Hf.
  - apply elem_of_cons in Hin as [[= -> -> ->]|]; [|done].
    assert (issued (db, ns, et) out = []) as ->.
    { clear - Hall Hnin. revert w1 w2 out Hall.
      induction reqs as [|[[d n] e] reqs IH]; intros w1 w2 out Hall.
      - by injection Hall as <- _.
      - cbn [allocate_all] in Hall. apply bind_ok in Hall as (r & w3 & _ & Hall).
        apply bind_ok in Hall as (out' & w4 & Hall & [= <- <-]).
        unfold issued. cbn. rewrite decide_False by set_solver.
        eapply IH; [set_solver|exact Hall]. }
    rewrite decide_True by done. split; [repeat constructor|]. repeat constructor. lia.
Qed.
End Sequences.

(** A restart forgets the batches in memory. *)
Definition restart {S} (w : World S) : World S := set_alloc w ∅.

Lemma restart_next_id {S} `{FdbLaws S} a (w : World S) db ns et :
  alloc_inv a w db ns et ->
  next_id a w db ns et <= next_id a (restart w) db ns et /\ alloc_inv a (restart w) db ns et.
Proof.
  intros (Hc & Hn & Hbe). unfold next_id, alloc_inv, restart, batch in *.
  change (counter a (set_alloc w ∅)) with (counter a w). cbn [set_alloc w_alloc].
  rewrite lookup_empty. cbn.
  destruct (default (0, 0) (w_alloc w !! cache_key db ns et)) as [nx be]. cbn [fst snd] in *.
  destruct (Z.leb_spec be nx); lia.
Qed.


Definition sample_reqs : list (string * string * string) :=
  [("db", "ns", "Person"); ("db", "ns", "Company"); ("db", "ns", "Person")].


(** Different types can share a cache key, because the names are
    joined with an unescaped colon.  Then the batch of one type is used for the
    other, whose own counter does not move: after a restart the same number is
    issued to the same type again. *)
Theorem cache_key_collision :
  let alloc db ns et := allocate (S:=MemKv) (mkIdAllocator 1 100) db ns et quiet_env in
  let w1 := (alloc "a" "b:c" "T" empty_world).2 in
  let r2 := alloc "a:b" "c" "T" w1 in
  let r3 := alloc "a:b" "c" "T" (restart r2.2) in
  let r4 := alloc "a:b" "c" "T" r3.2 in
  cache_key "a" "b:c" "T" = cache_key "a:b" "c" "T" /\ r2.1 = Ok (1, 1) /\ r4.1 = Ok (1, 1).
Proof. vm_compute. auto. Qed.
