(* ===== verification/Index.v ===== *)
(** * Property indexes

    [pelago-storage/src/index.rs]: the index entries of a node, the entries an
    update removes, and the keys both are stored under; [write_index_entry] of
    [node.rs]. *)

From S2P Require Import Prelude Bytes Text Errors Types Encoding Subspace SchemaTypes Fdb MemFdb Cdc.

Module index_markers.
Definition UNIQUE : byte := Byte.x75.
Definition EQUALITY : byte := Byte.x65.
Definition RANGE : byte := Byte.x72.
End index_markers.

Inductive IndexEntryType := EUnique | EEquality | ERange.

Record IndexEntry := mkIndexEntry {
  ie_key : bytes;
  entry_type : IndexEntryType;
  value_bytes : option bytes
}.

#[export] Instance IndexEntryType_eq_dec : EqDecision IndexEntryType.
Proof. solve_decision. Defined.
#[export] Instance IndexEntry_eq_dec : EqDecision IndexEntry.
Proof. solve_decision. Defined.

(** The common head of the index keys of a property. *)
Definition index_key_head (idx : Subspace) (entity_type prop_name : string) (m : byte) : TupleBuilder :=
  Tuple.add_marker (Tuple.add_string (Tuple.add_string (Sub.pack idx) entity_type) prop_name) m.

(** The [IndexType::None] arm of the source is [unreachable!()]: the callers skip
    properties without an index. *)
Definition build_index_entry (idx : Subspace) (entity_type prop_name : string) (node_id : bytes)
    (prop_def : PropertyDef) (value : Value) : result IndexEntry :=
  encoded_value ← encode_value_for_index value;
  match index prop_def with
  | IdxUnique =>
      Ok (mkIndexEntry (Tuple.build (Tuple.add_raw_bytes
            (index_key_head idx entity_type prop_name index_markers.UNIQUE) encoded_value))
          EUnique (Some node_id))
  | IdxEquality =>
      Ok (mkIndexEntry (Tuple.build (Tuple.add_raw_bytes (Tuple.add_raw_bytes
            (index_key_head idx entity_type prop_name index_markers.EQUALITY) encoded_value) node_id))
          EEquality None)
  | IdxRange =>
      Ok (mkIndexEntry (Tuple.build (Tuple.add_raw_bytes (Tuple.add_raw_bytes
            (index_key_head idx entity_type prop_name index_markers.RANGE) encoded_value) node_id))
          ERange None)
  | IdxNone => Err (Internal "unreachable")
  end.

Section Index.
Context `{HashIter}.

Fixpoint entries_loop (idx : Subspace) (entity_type : string) (node_id : bytes)
    (defs : list (string * PropertyDef)) (props : Props) : result (list IndexEntry) :=
  match defs with
  | [] => Ok []
  | (prop_name, prop_def) :: defs' =>
      if decide (index prop_def = IdxNone) then entries_loop idx entity_type node_id defs' props
      else match props !! prop_name with
           | Some v =>
               if is_null v then entries_loop idx entity_type node_id defs' props
               else
                 entry ← build_index_entry idx entity_type prop_name node_id prop_def v;
                 rest ← entries_loop idx entity_type node_id defs' props;
                 Ok (entry :: rest)
           | None => entries_loop idx entity_type node_id defs' props
           end
  end.

Definition compute_index_entries (sub : Subspace) (entity_type : string) (node_id : bytes)
    (schema : EntitySchema) (props : Props) : result (list IndexEntry) :=
  entries_loop (Sub.index sub) entity_type node_id (hm_iter (properties schema)) props.

(** Whether an update from [old_val] removes its entry. *)
Definition needs_removal (old_val : Value) (new_value : option Value) : bool :=
  match new_value with
  | Some new_val => if is_null new_val then true else negb (value_eqb old_val new_val)
  | None => true
  end.

Fixpoint removals_loop (idx : Subspace) (entity_type : string) (node_id : bytes)
    (defs : list (string * PropertyDef)) (old_props new_props : Props) : result (list IndexEntry) :=
  match defs with
  | [] => Ok []
  | (prop_name, prop_def) :: defs' =>
      if decide (index prop_def = IdxNone) then removals_loop idx entity_type node_id defs' old_props new_props
      else match old_props !! prop_name with
           | Some old_val =>
               if is_null old_val then removals_loop idx entity_type node_id defs' old_props new_props
               else if needs_removal old_val (new_props !! prop_name) then
                 entry ← build_index_entry idx entity_type prop_name node_id prop_def old_val;
                 rest ← removals_loop idx entity_type node_id defs' old_props new_props;
                 Ok (entry :: rest)
               else removals_loop idx entity_type node_id defs' old_props new_props
           | None => removals_loop idx entity_type node_id defs' old_props new_props
           end
  end.

Definition compute_index_removals (sub : Subspace) (entity_type : string) (node_id : bytes)
    (schema : EntitySchema) (old_props new_props : Props) : result (list IndexEntry) :=
  removals_loop (Sub.index sub) entity_type node_id (hm_iter (properties schema)) old_props new_props.
End Index.

Section Write.
Context {S : Type} `{Fdb S}.

Definition write_index_entry (t : S) (entry : IndexEntry) : result S :=
  match entry_type entry with
  | EUnique =>
      value ← ok_or (value_bytes entry) (Internal "Unique index entry missing value");
      Ok (kv_set t (ie_key entry) value)
  | EEquality | ERange => Ok (kv_set t (ie_key entry) [])
  end.

Fixpoint write_index_entries (t : S) (entries : list IndexEntry) : result S :=
  match entries with
  | [] => Ok t
  | e :: es => t ← write_index_entry t e; write_index_entries t es
  end.

Fixpoint clear_index_entries (t : S) (entries : list IndexEntry) : S :=
  match entries with
  | [] => t
  | e :: es => clear_index_entries (kv_clear t (ie_key e)) es
  end.
End Write.

(** ** The entries of a node *)

Section Entries.
Context `{HashIter}.
Context (sub : Subspace) (entity_type : string) (node_id : bytes) (schema : EntitySchema).

(** [indexed p d v e]: property [p] with definition [d] and non-null value [v]
    has the index entry [e]. *)
Definition indexed (p : string) (d : PropertyDef) (v : Value) (e : IndexEntry) : Prop :=
  properties schema !! p = Some d /\ index d <> IdxNone /\ v <> VNull /\
  build_index_entry (Sub.index sub) entity_type p node_id d v = Ok e.

Lemma is_null_spec v : is_null v = true <-> v = VNull.
Proof. destruct v; simpl; split; congruence. Qed.

Lemma is_null_false v : is_null v = false <-> v <> VNull.
Proof. destruct v; simpl; split; congruence. Qed.

Lemma encode_value_ok v : v <> VNull -> exists b, encode_value_for_index v = Ok b.
Proof. destruct v; simpl; intros; try congruence; eauto. Qed.

Lemma build_index_entry_ok idx et p nid d v :
  index d <> IdxNone -> v <> VNull -> exists e, build_index_entry idx et p nid d v = Ok e.
Proof.
  intros Hd Hv. unfold build_index_entry. destruct (encode_value_ok v Hv) as [b ->]. simpl.
  destruct (index d); try congruence; eauto.
Qed.

Lemma entries_loop_ok idx et nid defs props :
  exists es, entries_loop idx et nid defs props = Ok es /\
    forall e, e ∈ es <-> exists p d v, (p, d) ∈ defs /\ index d <> IdxNone /\ props !! p = Some v /\ v <> VNull /\
      build_index_entry idx et p nid d v = Ok e.
Proof.
  induction defs as [|[p d] defs (es & E & IH)]; cbn [entries_loop].
  { exists []. split; [done|]. intros e. split; [by intros ?%not_elem_of_nil|].
    intros (p & d & v & Hin & _). by apply not_elem_of_nil in Hin. }
  assert (Hskip : (forall v, index d <> IdxNone -> props !! p = Some v -> v <> VNull -> False) ->
    forall e, e ∈ es <-> exists p' d' v, (p', d') ∈ (p, d) :: defs /\ index d' <> IdxNone /\
      props !! p' = Some v /\ v <> VNull /\ build_index_entry idx et p' nid d' v = Ok e).
  { intros Hno e. rewrite IH. split.
    - intros (p' & d' & v & ? & ?). exists p', d', v. split; [by right|done].
    - intros (p' & d' & v & [[= -> ->]|Hin]%elem_of_cons & ? & ? & ? & ?); [by exfalso; eauto|].
      exists p', d', v. done. }
  case_decide as Hd; [exists es; split; [done|]; apply Hskip; congruence|].
  destruct (props !! p) as [v|] eqn:Hp; [|exists es; split; [done|]; apply Hskip; congruence].
  destruct (is_null v) eqn:Hn.
  { exists es. split; [done|]. apply is_null_spec in Hn. apply Hskip. congruence. }
  apply is_null_false in Hn. destruct (build_index_entry_ok idx et p nid d v Hd Hn) as [e0 E0].
  rewrite E0, E. cbn. exists (e0 :: es). split; [done|].
  intros e. rewrite elem_of_cons, IH. split.
  - intros [->|(p' & d' & v' & ? & ?)]; [exists p, d, v; split; [left|done]|].
    exists p', d', v'. split; [by right|done].
  - intros (p' & d' & v' & [[= -> ->]|Hin]%elem_of_cons & ? & ? & ? & ?).
    + left. congruence.
    + right. by exists p', d', v'.
Qed.

(** Computing the entries never fails; they are those of the indexed, non-null
    properties. *)
Lemma compute_index_entries_ok props :
  exists es, compute_index_entries sub entity_type node_id schema props = Ok es /\
    forall e, e ∈ es <-> exists p d v, indexed p d v e /\ props !! p = Some v.
Proof.
  destruct (entries_loop_ok (Sub.index sub) entity_type node_id (hm_iter (properties schema)) props) as (es & E & He).
  exists es. split; [done|]. intros e. rewrite He. unfold indexed.
  setoid_rewrite elem_of_hm_iter. naive_solver.
Qed.

Lemma removals_filter idx et nid defs old_props new_props :
  removals_loop idx et nid defs old_props new_props
    = entries_loop idx et nid defs (filter (fun kv => needs_removal kv.2 (new_props !! kv.1) = true) old_props).
Proof.
  induction defs as [|[p d] defs IH]; cbn [removals_loop entries_loop]; [done|].
  rewrite IH. case_decide; [done|].
  destruct (old_props !! p) as [v|] eqn:Hp.
  - destruct (needs_removal v (new_props !! p)) eqn:Hr.
    + rewrite (proj2 (map_lookup_filter_Some _ _ _ _) (conj Hp Hr)). done.
    + rewrite (proj2 (map_lookup_filter_None _ _ _)); [by destruct (is_null v)|].
      right. intros v' Hv'. simpl. congruence.
  - rewrite (proj2 (map_lookup_filter_None _ _ _)); [done|by left].
Qed.

Lemma compute_index_removals_ok old_props new_props :
  exists es, compute_index_removals sub entity_type node_id schema old_props new_props = Ok es /\
    forall e, e ∈ es <-> exists p d v, indexed p d v e /\ old_props !! p = Some v /\
      needs_removal v (new_props !! p) = true.
Proof.
  unfold compute_index_removals. rewrite removals_filter.
  destruct (compute_index_entries_ok (filter (fun kv => needs_removal kv.2 (new_props !! kv.1) = true) old_props)) as (es & E & He).
  exists es. split; [exact E|]. intros e. rewrite He.
  setoid_rewrite map_lookup_filter_Some. simpl. naive_solver.
Qed.
End Entries.

(** ** Keys *)

Definition marker_of (i : IndexType) : byte :=
  match i with
  | IdxUnique => index_markers.UNIQUE | IdxEquality => index_markers.EQUALITY | _ => index_markers.RANGE
  end.

Lemma marker_of_not_ff i : marker_of i <> Byte.xff.
Proof. by destruct i. Qed.

Definition index_tail (i : IndexType) (node_id : bytes) : bytes :=
  match i with IdxUnique => [] | _ => node_id end.

(** The value stored at an entry's key. *)
Definition entry_value (e : IndexEntry) : bytes :=
  match entry_type e with EUnique => default [] (value_bytes e) | _ => [] end.

Lemma build_index_entry_key idx et p nid d v e :
  build_index_entry idx et p nid d v = Ok e ->
  exists b, encode_value_for_index v = Ok b /\
    ie_key e = prefix idx ++ (enc_str et ++ (enc_str p ++ (marker_of (index d) :: b ++ index_tail (index d) nid))) /\
    entry_value e = match index d with IdxUnique => nid | _ => [] end /\
    (entry_type e = EUnique -> value_bytes e = Some nid).
Proof.
  unfold build_index_entry. intros (b & Hb & E)%bind_Ok. exists b. split; [done|].
  destruct (index d); simplify_eq; cbn [ie_key entry_value entry_type value_bytes];
    unfold index_key_head; tuple_norm; repeat split; try done; by rewrite ?app_nil_r.
Qed.

Lemma encode_value_len_indep v b : encode_value_for_index v = Ok b -> v <> VNull.
Proof. by destruct v. Qed.

(** Entries of one node under the same key are the same entry. *)
Lemma indexed_key_inj sub et nid schema p d v e p' d' v' e' :
  indexed sub et nid schema p d v e -> indexed sub et nid schema p' d' v' e' ->
  ie_key e = ie_key e' ->
  p = p' /\ d = d' /\ encode_value_for_index v = encode_value_for_index v' /\ e = e'.
Proof.
  intros (Hp & Hd & Hv & E) (Hp' & Hd' & Hv' & E') Hk.
  pose proof E as (b & Hb & K & _)%build_index_entry_key.
  pose proof E' as (b' & Hb' & K' & _)%build_index_entry_key.
  rewrite K, K' in Hk. apply app_inv_head in Hk.
  apply enc_str_inj in Hk as [_ Hk]; [|apply not_ff_enc_str..].
  apply enc_str_inj in Hk as [-> Hk]; [|apply not_ff_cons, marker_of_not_ff..].
  rewrite Hp' in Hp. injection Hp as ->. injection Hk as Hk. apply app_inv_tail in Hk as ->.
  repeat split; [congruence|]. unfold build_index_entry in E, E'. rewrite Hb in E. rewrite Hb' in E'. congruence.
Qed.

(** ** Effects of writing and clearing *)

Section WriteFacts.
Context {S : Type} `{FdbLaws S}.
Implicit Types (t : S) (es : list IndexEntry).

Lemma clear_index_entries_get t es k :
  kv_get (clear_index_entries t es) k = if decide (k ∈ map ie_key es) then None else kv_get t k.
Proof.
  revert t. induction es as [|e es IH]; intros t; cbn [clear_index_entries map].
  { rewrite decide_False by apply not_elem_of_nil. done. }
  rewrite IH, kv_get_clear. repeat case_decide; set_solver.
Qed.

Lemma clear_index_entries_stamp t es : kv_stamp (clear_index_entries t es) = kv_stamp t.
Proof. revert t. induction es; intros t; simpl; [done|]. by rewrite IHes, kv_stamp_clear. Qed.

(** Entries as [build_index_entry] makes them. *)
Definition well_built (e : IndexEntry) : Prop := entry_type e = EUnique -> is_Some (value_bytes e).

Lemma write_index_entry_ok t e :
  well_built e -> write_index_entry t e = Ok (kv_set t (ie_key e) (entry_value e)).
Proof.
  intros Hw. unfold write_index_entry, entry_value. destruct (entry_type e) eqn:E; [|done..].
  destruct (Hw E) as [v ->]. done.
Qed.

Lemma write_index_entries_ok t es :
  Forall well_built es ->
  (forall e e', e ∈ es -> e' ∈ es -> ie_key e = ie_key e' -> e = e') ->
  exists t', write_index_entries t es = Ok t' /\ kv_stamp t' = kv_stamp t /\
    (forall k, k ∉ map ie_key es -> kv_get t' k = kv_get t k) /\
    (forall e, e ∈ es -> kv_get t' (ie_key e) = Some (entry_value e)).
Proof.
  revert t. induction es as [|e es IH]; intros t Hw Hinj; cbn [write_index_entries].
  { exists t. repeat split; try done. intros e He. by apply not_elem_of_nil in He. }
  apply Forall_cons in Hw as [He Hw]. rewrite write_index_entry_ok by done. cbn.
  destruct (IH (kv_set t (ie_key e) (entry_value e)) Hw) as (t' & E & Hs & Hout & Hin).
  { intros e1 e2 H1 H2. apply Hinj; by right. }
  exists t'. split; [done|]. split; [by rewrite Hs, kv_stamp_set|]. split.
  - intros k [Hk1 Hk2]%not_elem_of_cons. rewrite Hout by done.
    by rewrite kv_get_set, decide_False by congruence.
  - intros e' [->|He']%elem_of_cons; [|auto].
    destruct (decide (e ∈ es)); [auto|].
    destruct (decide (ie_key e ∈ map ie_key es)) as [(e2 & Hk & He2)%list_elem_of_fmap|Hn].
    + rewrite (Hinj e e2); [auto|left|by right|done].
    + rewrite Hout by done. by rewrite kv_get_set, decide_True.
Qed.
End WriteFacts.

(** ** Maintenance across an update *)

(** No float property changes between the two zeros, which are equal as numbers
    but have different index keys. *)
Definition no_zero_flip (old_props new_props : Props) : Prop :=
  forall p a b, old_props !! p = Some (VFloat a) -> new_props !! p = Some (VFloat b) ->
    f64_eq a b = true -> a = b.

Section Update.
Context {S : Type} `{FdbLaws S} `{HashIter}.
Context (sub : Subspace) (et : string) (nid : bytes) (schema : EntitySchema).

Abbreviation entries := (compute_index_entries sub et nid schema).

Lemma entries_well_built props es : entries props = Ok es -> Forall well_built es.
Proof.
  intros E. destruct (compute_index_entries_ok sub et nid schema props) as (es' & E' & Hin).
  rewrite E in E'. injection E' as <-. apply Forall_forall.
  intros e (p & d & v & (_ & _ & _ & Hb) & _)%Hin Ht.
  apply build_index_entry_key in Hb as (b & _ & _ & _ & Hv). rewrite Hv by done. eauto.
Qed.

Lemma entries_key_inj props es e props' es' e' :
  entries props = Ok es -> e ∈ es -> entries props' = Ok es' -> e' ∈ es' ->
  ie_key e = ie_key e' -> e = e'.
Proof.
  intros E He E' He' Hk.
  destruct (compute_index_entries_ok sub et nid schema props) as (es1 & E1 & Hin).
  destruct (compute_index_entries_ok sub et nid schema props') as (es2 & E2 & Hin').
  rewrite E in E1. rewrite E' in E2. injection E1 as <-. injection E2 as <-.
  apply Hin in He as (p & d & v & He & _). apply Hin' in He' as (p' & d' & v' & He' & _).
  by eapply indexed_key_inj.
Qed.

(** An entry of the old properties that is not among those of the new ones is
    scheduled for removal. *)
Lemma stale_entry_removed old_props new_props olds news rems e :
  no_zero_flip old_props new_props ->
  entries old_props = Ok olds -> entries new_props = Ok news ->
  compute_index_removals sub et nid schema old_props new_props = Ok rems ->
  e ∈ olds -> e ∉ news -> e ∈ rems.
Proof.
  intros Hz E E' Er He Hne.
  destruct (compute_index_entries_ok sub et nid schema old_props) as (es1 & E1 & Hin1).
  destruct (compute_index_entries_ok sub et nid schema new_props) as (es2 & E2 & Hin2).
  destruct (compute_index_removals_ok sub et nid schema old_props new_props) as (es3 & E3 & Hin3).
  rewrite E in E1. rewrite E' in E2. rewrite Er in E3. simplify_eq.
  apply Hin1 in He as (p & d & v & He & Hv). apply Hin3. exists p, d, v. split; [done|]. split; [done|].
  destruct (needs_removal v (new_props !! p)) eqn:Hr; [done|]. destruct Hne. apply Hin2.
  unfold needs_removal in Hr. destruct (new_props !! p) as [v'|] eqn:Hv'; [|done].
  destruct (is_null v') eqn:Hn; [done|]. apply negb_false_iff in Hr.
  assert (v = v') as ->.
  { apply value_eqb_eq in Hr as Hc. destruct Hc as [?|(a & b & -> & ->)]; [done|].
    f_equal. by eapply Hz. }
  exists p, d, v'. done.
Qed.
End Update.

(** Clearing the removals of an update and writing the new entries. *)
Lemma run_index_update {S} `{FdbLaws S} `{HashIter} (sub : Subspace) (et : string) (nid : bytes)
    (schema : EntitySchema) (old_props new_props : Props) (t : S) :
  no_zero_flip old_props new_props ->
  exists rems adds olds t',
    compute_index_removals sub et nid schema old_props new_props = Ok rems /\
    compute_index_entries sub et nid schema new_props = Ok adds /\
    compute_index_entries sub et nid schema old_props = Ok olds /\
    write_index_entries (clear_index_entries t rems) adds = Ok t' /\
    (forall e, e ∈ adds -> kv_get t' (ie_key e) = Some (entry_value e)) /\
    (forall e, e ∈ olds -> e ∉ adds -> kv_get t' (ie_key e) = None) /\
    (forall k, k ∉ map ie_key olds -> k ∉ map ie_key adds -> kv_get t' k = kv_get t k).
Proof.
  intros Hz.
  destruct (compute_index_removals_ok sub et nid schema old_props new_props) as (rems & Er & Hrem).
  destruct (compute_index_entries_ok sub et nid schema new_props) as (adds & Ea & Hadd).
  destruct (compute_index_entries_ok sub et nid schema old_props) as (olds & Eo & Hold).
  destruct (write_index_entries_ok (clear_index_entries t rems) adds) as (t' & Ew & _ & Hout & Hin).
  { by eapply entries_well_built. }
  { intros e e' He He' Hk. exact (entries_key_inj sub et nid schema new_props adds e new_props adds e' Ea He Ea He' Hk). }
  exists rems, adds, olds, t'. repeat split; [done..| |].
  - intros e He Hne. rewrite Hout.
    + rewrite clear_index_entries_get, decide_True; [done|].
      apply list_elem_of_fmap. exists e. split; [done|]. by eapply stale_entry_removed.
    + intros (e' & Hk & He')%list_elem_of_fmap. apply Hne.
      by rewrite (entries_key_inj sub et nid schema old_props olds e new_props adds e' Eo He Ea He' Hk).
  - intros k Hk1 Hk2. rewrite Hout by done. rewrite clear_index_entries_get, decide_False; [done|].
    intros (e & -> & He)%list_elem_of_fmap. apply Hk1, list_elem_of_fmap. exists e. split; [done|].
    apply Hrem in He as (p & d & v & He & Hv & _). apply Hold. eauto.
Qed.

(** Index maintenance across an update is exact.  Clearing the
    computed removals and then writing the entries of the new properties leaves
    every entry of the new properties in place with its value, removes every
    entry the node no longer has, and touches no key that is not an entry of the
    old or the new properties. *)
Theorem index_update_exact {S} `{FdbLaws S} `{HashIter} (sub : Subspace) (et : string) (nid : bytes)
    (schema : EntitySchema) (old_props new_props : Props) (t : S) :
  no_zero_flip old_props new_props ->
  exists rems adds olds t',
    compute_index_removals sub et nid schema old_props new_props = Ok rems /\
    compute_index_entries sub et nid schema new_props = Ok adds /\
    compute_index_entries sub et nid schema old_props = Ok olds /\
    write_index_entries (clear_index_entries t rems) adds = Ok t' /\
    (forall e, e ∈ adds -> kv_get t' (ie_key e) = Some (entry_value e)) /\
    (forall e, e ∈ olds -> e ∉ adds -> kv_get t' (ie_key e) = None) /\
    (forall k, k ∉ map ie_key olds -> k ∉ map ie_key adds -> kv_get t' k = kv_get t k).
Proof. apply run_index_update. Qed.

Definition age_schema : EntitySchema :=
  Schemas.with_property (Schemas.new "Person") "age" (PropDefs.with_index (PropDefs.new PInt) IdxRange).

Lemma index_update_exact_witness :
  exists rems adds olds t',
    compute_index_removals (Sub.namespace "db" "ns") "Person" (NodeIds.to_bytes (mkNodeId 1 0)) age_schema
      {["age" := VInt 30]} {["age" := VInt 31]} = Ok rems /\
    compute_index_entries (Sub.namespace "db" "ns") "Person" (NodeIds.to_bytes (mkNodeId 1 0)) age_schema
      {["age" := VInt 31]} = Ok adds /\
    compute_index_entries (Sub.namespace "db" "ns") "Person" (NodeIds.to_bytes (mkNodeId 1 0)) age_schema
      {["age" := VInt 30]} = Ok olds /\
    write_index_entries (clear_index_entries empty_kv rems) adds = Ok t' /\ length adds = 1%nat.
Proof.
  destruct (index_update_exact (Sub.namespace "db" "ns") "Person" (NodeIds.to_bytes (mkNodeId 1 0)) age_schema
      {["age" := VInt 30]} {["age" := VInt 31]} empty_kv) as (rems & adds & olds & t' & H1 & H2 & H3 & H4 & _).
  - intros p a b Ha. apply lookup_singleton_Some in Ha as [_ Ha]. discriminate Ha.
  - exists rems, adds, olds, t'. repeat split; [exact H1|exact H2|exact H3|exact H4|].
    vm_compute in H2. injection H2 as <-. reflexivity.
Defined.

Definition score_schema : EntitySchema :=
  Schemas.with_property (Schemas.new "Person") "score" (PropDefs.with_index (PropDefs.new PFloat) IdxRange).

(** An update of an indexed float from 0.0 to -0.0 leaves a stale
    entry.  The two values compare equal, so nothing is removed, but they have
    different keys, so the node ends up in the index twice. *)
Theorem zero_flip_leaves_stale_entry :
  let nid := NodeIds.to_bytes (mkNodeId 1 0) in
  let sub := Sub.namespace "db" "ns" in
  let old_props : Props := {["score" := VFloat 0]} in
  let new_props : Props := {["score" := VFloat 0x8000000000000000]} in
  compute_index_removals sub "Person" nid score_schema old_props new_props = Ok [] /\
  exists e e', compute_index_entries sub "Person" nid score_schema old_props = Ok [e] /\
    compute_index_entries sub "Person" nid score_schema new_props = Ok [e'] /\ ie_key e <> ie_key e'.
Proof.
  split; [vm_compute; reflexivity|]. eexists _, _.
  split; [vm_compute; reflexivity|]. split; [vm_compute; reflexivity|]. vm_compute. discriminate.
Qed.
