(* ===== verification/TermIndex.v ===== *)
(** * The term posting index

    [pelago-storage/src/term_index.rs]: one empty row per (field, value, node),
    a document-frequency counter per (field, value) and a document counter per
    entity type, all maintained in the transaction of the node mutation. *)

From S2P Require Import Prelude Bytes Text Errors Types Encoding Subspace SchemaTypes Fdb MemFdb Cdc.

Module term_markers.
Definition TERM_POSTING : byte := Byte.x74.
Definition DF_STAT : byte := Byte.x64.
Definition NDOCS_STAT : byte := Byte.x6e.
End term_markers.

Definition TEMPLATE_FIELD_SHOW_SCHEME_SHOT_SEQUENCE := "__tpl_show_scheme_shot_sequence".
Definition TEMPLATE_FIELD_SHOW_SCHEME_SHOT_SEQUENCE_TASK_LABEL :=
  "__tpl_show_scheme_shot_sequence_task_label".

Record TermKey := mkTermKey { field : string; encoded_value : bytes }.
Record TermPosting := mkTermPosting { tp_key : bytes; term : TermKey }.
Record TermPostingChanges := mkTermPostingChanges {
  additions : list TermPosting;
  removals : list TermPosting
}.

#[export] Instance TermKey_eq_dec : EqDecision TermKey.
Proof. solve_decision. Defined.
#[export] Instance TermKey_countable : Countable TermKey.
Proof.
  refine (inj_countable' (fun t => (field t, encoded_value t)) (fun p => mkTermKey p.1 p.2) _).
  by intros [].
Defined.
#[export] Instance TermPosting_eq_dec : EqDecision TermPosting.
Proof. solve_decision. Defined.

Definition extract_string (props : Props) (f : string) : option string :=
  match props !! f with
  | Some (VString s) => if String.eqb s "" then None else Some s
  | _ => None
  end.

Definition encode_term_value (v : Value) : result (option bytes) :=
  match v with
  | VNull => Ok None
  | VBytes _ => Ok None
  | _ => b ← encode_value_for_index v; Ok (Some b)
  end.

Definition posting_prefix (idx : Subspace) (entity_type f : string) (enc : bytes) : bytes :=
  Tuple.build (Tuple.add_bytes (Tuple.add_string
    (Tuple.add_marker (Tuple.add_string (Sub.pack idx) entity_type) term_markers.TERM_POSTING) f) enc).

Definition df_key (idx : Subspace) (entity_type f : string) (enc : bytes) : bytes :=
  Tuple.build (Tuple.add_bytes (Tuple.add_string
    (Tuple.add_marker (Tuple.add_string (Sub.pack idx) entity_type) term_markers.DF_STAT) f) enc).

Definition n_docs_key (idx : Subspace) (entity_type : string) : bytes :=
  Tuple.build (Tuple.add_marker (Tuple.add_string (Sub.pack idx) entity_type) term_markers.NDOCS_STAT).

Definition build_posting (idx : Subspace) (entity_type f : string) (enc node_id : bytes) : TermPosting :=
  mkTermPosting
    (Tuple.build (Tuple.add_raw_bytes (Tuple.add_bytes (Tuple.add_string
       (Tuple.add_marker (Tuple.add_string (Sub.pack idx) entity_type) term_markers.TERM_POSTING) f) enc) node_id))
    (mkTermKey f enc).

(** The posting of one template value; the [expect] of the source is on strings,
    which always encode. *)
Definition template_posting (idx : Subspace) (entity_type f value : string) (node_id : bytes)
    : result (list TermPosting) :=
  enc ← encode_term_value (VString value);
  Ok (match enc with Some e => [build_posting idx entity_type f e node_id] | None => [] end).

Definition append_template_postings (idx : Subspace) (entity_type : string) (node_id : bytes)
    (props : Props) (postings : list TermPosting) : result (list TermPosting) :=
  match extract_string props "show", extract_string props "scheme",
        extract_string props "shot", extract_string props "sequence" with
  | Some show, Some scheme, Some shot, Some sequence =>
      let shot_sequence_value := (show ++ "|" ++ scheme ++ "|" ++ shot ++ "|" ++ sequence)%string in
      p ← template_posting idx entity_type TEMPLATE_FIELD_SHOW_SCHEME_SHOT_SEQUENCE shot_sequence_value node_id;
      match extract_string props "task", extract_string props "label" with
      | Some task, Some label =>
          let full_template_value := (shot_sequence_value ++ "|" ++ task ++ "|" ++ label)%string in
          q ← template_posting idx entity_type TEMPLATE_FIELD_SHOW_SCHEME_SHOT_SEQUENCE_TASK_LABEL
                full_template_value node_id;
          Ok (postings ++ p ++ q)
      | _, _ => Ok (postings ++ p)
      end
  | _, _, _, _ => Ok postings
  end.

Fixpoint postings_loop (idx : Subspace) (entity_type : string) (node_id : bytes)
    (props : list (string * Value)) : result (list TermPosting) :=
  match props with
  | [] => Ok []
  | (f, value) :: props' =>
      enc ← encode_term_value value;
      rest ← postings_loop idx entity_type node_id props';
      Ok (match enc with
          | Some e => build_posting idx entity_type f e node_id :: rest
          | None => rest
          end)
  end.

(** Collecting postings into a map by key: a later one replaces an earlier one. *)
Definition posting_map (l : list TermPosting) : gmap bytes TermPosting :=
  foldl (fun m p => <[tp_key p := p]> m) ∅ l.

Section Compute.
Context `{HashIter}.

Definition compute_term_postings (sub : Subspace) (entity_type : string) (node_id : bytes)
    (props : Props) : result (list TermPosting) :=
  let idx := Sub.index sub in
  postings ← postings_loop idx entity_type node_id (hm_iter props);
  append_template_postings idx entity_type node_id props postings.

(** The postings of one map whose keys the other lacks. *)
Definition postings_missing (m other : gmap bytes TermPosting) : list TermPosting :=
  omap (fun kp => if decide (is_Some (other !! kp.1)) then None else Some kp.2) (hm_iter m).

Definition compute_term_posting_changes (sub : Subspace) (entity_type : string) (node_id : bytes)
    (old_props new_props : Props) : result TermPostingChanges :=
  old_postings ← compute_term_postings sub entity_type node_id old_props;
  new_postings ← compute_term_postings sub entity_type node_id new_props;
  let old_map := posting_map old_postings in
  let new_map := posting_map new_postings in
  Ok (mkTermPostingChanges (postings_missing new_map old_map) (postings_missing old_map new_map)).
End Compute.

(** ** Counters *)

Definition counter_value (b : bytes) : Z := wrap_i64 (be_val b).

(** [*entry(term).or_insert(0) += d] for each posting. *)
Definition bump (d : Z) (m : gmap TermKey Z) (l : list TermPosting) : gmap TermKey Z :=
  foldl (fun m p => <[term p := wrap_i64 (default 0 (m !! term p) + d)]> m) m l.

Definition term_deltas (changes : TermPostingChanges) : gmap TermKey Z :=
  bump (-1) (bump 1 ∅ (additions changes)) (removals changes).

Section Apply.
Context {S : Type} `{Fdb S} `{HashIter}.

Definition read_i64_counter (t : S) (key : bytes) : M S Z :=
  row ← trx_get (fun e => Internal ("Failed reading term counter: " ++ e)) t key;
  match row with
  | Some b =>
      if Nat.eqb (length b) 8 then mret (counter_value b)
      else throw (Internal ("Invalid term counter length: " ++ bstr (show_u (Z.of_nat (length b)))))
  | None => mret 0
  end.

(** Read, add, clamp at zero, and store or clear. *)
Definition add_to_counter (t : S) (key : bytes) (delta : Z) : M S S :=
  current ← read_i64_counter t key;
  let next := Z.max (wrap_i64 (current + delta)) 0 in
  mret (if next =? 0 then kv_clear t key else kv_set t key (be_bytes 8 next)).

Definition clear_postings (t : S) (l : list TermPosting) : S :=
  foldl (fun t p => kv_clear t (tp_key p)) t l.
Definition set_postings (t : S) (l : list TermPosting) : S :=
  foldl (fun t p => kv_set t (tp_key p) []) t l.

Definition apply_term_posting_changes (t : S) (sub : Subspace) (entity_type : string)
    (changes : TermPostingChanges) (n_docs_delta : Z) : M S S :=
  let t := clear_postings t (removals changes) in
  let t := set_postings t (additions changes) in
  let idx := Sub.index sub in
  t ← fold_m (hm_iter (term_deltas changes)) (fun t td =>
        let '(tm, delta) := td in
        if delta =? 0 then mret t
        else add_to_counter t (df_key idx entity_type (field tm) (encoded_value tm)) delta) t;
  if n_docs_delta =? 0 then mret t
  else add_to_counter t (n_docs_key idx entity_type) n_docs_delta.

(** ** Reads *)

Definition make_posting_start_after (pre node_id : bytes) : bytes := pre ++ node_id ++ [Byte.x00].

Definition extract_node_id_from_posting_key (key : bytes) : result bytes :=
  if Nat.ltb (length key) 9 then Err (Internal "Term posting key too short")
  else Ok (drop (length key - 9) key).

Definition list_posting_node_ids_after_at_read_version (database namespace entity_type f : string)
    (value : Value) (after_node_id : option bytes) (limit : nat) (read_version : option Z)
    : M S (list bytes) :=
  enc ← lift (encode_term_value value);
  match enc with
  | None => mret []
  | Some e =>
      let pre := posting_prefix (Sub.index (Sub.namespace database namespace)) entity_type f e in
      let range_start := match after_node_id with
                         | Some n => make_posting_start_after pre n
                         | None => pre
                         end in
      rows ← get_range_at_read_version range_start (pre ++ [Byte.xff]) (Nat.max limit 1) read_version;
      fold_m rows (fun out kv =>
        id ← lift (extract_node_id_from_posting_key kv.1); mret (out ++ [id])) []
  end.

Definition list_posting_node_ids_after (database namespace entity_type f : string)
    (value : Value) (after_node_id : option bytes) (limit : nat) : M S (list bytes) :=
  list_posting_node_ids_after_at_read_version database namespace entity_type f value after_node_id limit None.

Definition list_posting_node_ids (database namespace entity_type f : string)
    (value : Value) (limit : nat) : M S (list bytes) :=
  list_posting_node_ids_after_at_read_version database namespace entity_type f value None limit None.

(** A counter read outside a transaction; [what] names it in the error. *)
Definition read_count (what : string) (key : bytes) (read_version : option Z) : M S (option Z) :=
  row ← get_at_read_version key read_version;
  match row with
  | Some b =>
      if Nat.eqb (length b) 8 then mret (Some (Z.max (counter_value b) 0))
      else throw (Internal ("Invalid " ++ what ++ " counter length: " ++ bstr (show_u (Z.of_nat (length b)))))
  | None => mret None
  end.

Definition get_document_frequency_at_read_version (database namespace entity_type f : string)
    (value : Value) (read_version : option Z) : M S (option Z) :=
  enc ← lift (encode_term_value value);
  match enc with
  | None => mret (Some 0)
  | Some e =>
      read_count "term DF" (df_key (Sub.index (Sub.namespace database namespace)) entity_type f e) read_version
  end.

Definition get_document_frequency (database namespace entity_type f : string) (value : Value)
    : M S (option Z) :=
  get_document_frequency_at_read_version database namespace entity_type f value None.

Definition get_document_count_at_read_version (database namespace entity_type : string)
    (read_version : option Z) : M S (option Z) :=
  read_count "n_docs" (n_docs_key (Sub.index (Sub.namespace database namespace)) entity_type) read_version.

Definition get_document_count (database namespace entity_type : string) : M S (option Z) :=
  get_document_count_at_read_version database namespace entity_type None.
End Apply.

(** ** The terms of a node *)

(** The template terms of a node's properties. *)
Definition template_terms (props : Props) : list TermKey :=
  match extract_string props "show", extract_string props "scheme",
        extract_string props "shot", extract_string props "sequence" with
  | Some show, Some scheme, Some shot, Some sequence =>
      let v := (show ++ "|" ++ scheme ++ "|" ++ shot ++ "|" ++ sequence)%string in
      mkTermKey TEMPLATE_FIELD_SHOW_SCHEME_SHOT_SEQUENCE (sbytes v) ::
      match extract_string props "task", extract_string props "label" with
      | Some task, Some label =>
          [mkTermKey TEMPLATE_FIELD_SHOW_SCHEME_SHOT_SEQUENCE_TASK_LABEL
             (sbytes (v ++ "|" ++ task ++ "|" ++ label)%string)]
      | _, _ => []
      end
  | _, _, _, _ => []
  end.

(** [has_term props tm]: the node is found under the term [tm]. *)
Definition has_term (props : Props) (tm : TermKey) : Prop :=
  (exists v, props !! field tm = Some v /\ encode_term_value v = Ok (Some (encoded_value tm))) \/
  tm ∈ template_terms props.

Lemma encode_term_value_ok v : exists r, encode_term_value v = Ok r.
Proof. destruct v; simpl; eauto. Qed.

Section Terms.
Context `{HashIter}.
Context (sub : Subspace) (et : string) (nid : bytes).
Implicit Types (props : Props) (tm : TermKey).

Definition posting tm : TermPosting := build_posting (Sub.index sub) et (field tm) (encoded_value tm) nid.

Lemma term_posting tm : term (posting tm) = tm.
Proof. by destruct tm. Qed.

Definition value_terms (l : list (string * Value)) : list TermKey :=
  omap (fun fv => match encode_term_value fv.2 with
                  | Ok (Some e) => Some (mkTermKey fv.1 e) | _ => None end) l.

Lemma postings_loop_eq l :
  postings_loop (Sub.index sub) et nid l = Ok (map posting (value_terms l)).
Proof.
  induction l as [|[f v] l IH]; [done|]. cbn [postings_loop].
  unfold value_terms in *. cbn [omap list_omap fst snd].
  destruct (encode_term_value_ok v) as [r ->]. cbn. rewrite IH. cbn. by destruct r.
Qed.

Lemma append_template_eq props l :
  append_template_postings (Sub.index sub) et nid props l = Ok (l ++ map posting (template_terms props)).
Proof.
  unfold append_template_postings, template_terms.
  destruct (extract_string props "show"), (extract_string props "scheme"), (extract_string props "shot"),
    (extract_string props "sequence"); try by rewrite app_nil_r.
  by destruct (extract_string props "task"), (extract_string props "label").
Qed.

Definition all_terms props : list TermKey := value_terms (hm_iter props) ++ template_terms props.

Lemma compute_term_postings_eq props :
  compute_term_postings sub et nid props = Ok (map posting (all_terms props)).
Proof.
  unfold compute_term_postings, all_terms. rewrite postings_loop_eq. cbn.
  by rewrite append_template_eq, map_app.
Qed.

Lemma elem_of_all_terms props tm : tm ∈ all_terms props <-> has_term props tm.
Proof.
  unfold all_terms, has_term. rewrite elem_of_app.
  apply or_iff_compat_r. unfold value_terms. rewrite list_elem_of_omap. split.
  - intros ([f v] & Hin & E). cbn [fst snd] in E. apply elem_of_hm_iter in Hin.
    destruct (encode_term_value v) as [[e|]|] eqn:Ev; simplify_eq. eauto.
  - intros (v & Hp & E). exists (field tm, v). split; [by apply elem_of_hm_iter|].
    cbn [fst snd]. rewrite E. by destruct tm.
Qed.

(** No property is named like a template field, so no term is listed twice. *)
Definition no_template_fields props : Prop :=
  props !! TEMPLATE_FIELD_SHOW_SCHEME_SHOT_SEQUENCE = None /\
  props !! TEMPLATE_FIELD_SHOW_SCHEME_SHOT_SEQUENCE_TASK_LABEL = None.

Lemma NoDup_value_terms l : NoDup l.*1 -> NoDup (value_terms l).
Proof.
  induction l as [|[f v] l IH]; [constructor|]. cbn [fmap list_fmap fst]. intros [Hf Hl]%NoDup_cons.
  unfold value_terms in *. cbn [omap list_omap fst snd].
  destruct (encode_term_value v) as [[e|]|]; [|auto..]. constructor; [|auto].
  intros ([f' v'] & Hin & E)%list_elem_of_omap. cbn [fst snd] in E.
  destruct (encode_term_value v') as [[e'|]|]; simplify_eq.
  apply Hf, list_elem_of_fmap. by exists (f, v').
Qed.

Lemma template_terms_field props tm :
  tm ∈ template_terms props ->
  field tm = TEMPLATE_FIELD_SHOW_SCHEME_SHOT_SEQUENCE \/
  field tm = TEMPLATE_FIELD_SHOW_SCHEME_SHOT_SEQUENCE_TASK_LABEL.
Proof. unfold template_terms. repeat case_match; set_solver. Qed.

Lemma NoDup_template_terms props : NoDup (template_terms props).
Proof.
  unfold template_terms. repeat case_match; repeat constructor; set_solver.
Qed.

Lemma NoDup_all_terms props : no_template_fields props -> NoDup (all_terms props).
Proof.
  intros [H1 H2]. apply NoDup_app. split; [apply NoDup_value_terms, NoDup_hm_iter|].
  split; [|apply NoDup_template_terms].
  intros tm ([f v] & Hin & E)%list_elem_of_omap Ht%template_terms_field.
  apply elem_of_hm_iter in Hin. cbn [fst snd] in E.
  destruct (encode_term_value v) as [[e|]|]; simplify_eq. cbn [field] in Ht.
  destruct Ht as [-> | ->]; congruence.
Qed.
End Terms.

(** ** Keys *)

Section Keys.
Context (idx : Subspace) (et : string).

(** The keys of the term index of an entity type: its postings and counters. *)
Definition term_key_of (k : bytes) : Prop :=
  exists m r, k = prefix idx ++ (enc_str et ++ m :: r) /\
    (m = term_markers.TERM_POSTING \/ m = term_markers.DF_STAT \/ m = term_markers.NDOCS_STAT).

Lemma posting_prefix_eq f e :
  posting_prefix idx et f e
    = prefix idx ++ (enc_str et ++ (term_markers.TERM_POSTING :: enc_str f ++ enc_bytes e)).
Proof. unfold posting_prefix. tuple_norm. done. Qed.
Lemma df_key_eq f e :
  df_key idx et f e = prefix idx ++ (enc_str et ++ (term_markers.DF_STAT :: enc_str f ++ enc_bytes e)).
Proof. unfold df_key. tuple_norm. done. Qed.
Lemma n_docs_key_eq : n_docs_key idx et = prefix idx ++ (enc_str et ++ [term_markers.NDOCS_STAT]).
Proof. unfold n_docs_key. tuple_norm. done. Qed.
Lemma posting_key f e nid : tp_key (build_posting idx et f e nid) = posting_prefix idx et f e ++ nid.
Proof. unfold build_posting, posting_prefix. cbn [tp_key]. tuple_norm. done. Qed.

Lemma term_key_posting f e nid : term_key_of (posting_prefix idx et f e ++ nid).
Proof.
  rewrite posting_prefix_eq. eexists _, _. split; [|by left]. by rewrite <- !app_assoc.
Qed.
Lemma term_key_df f e : term_key_of (df_key idx et f e).
Proof. rewrite df_key_eq. eexists _, _. split; [done|]. by right; left. Qed.
Lemma term_key_n_docs : term_key_of (n_docs_key idx et).
Proof. rewrite n_docs_key_eq. eexists _, []. split; [done|]. by right; right. Qed.

Lemma posting_prefix_inj f e r f' e' r' :
  not_ff r -> not_ff r' ->
  posting_prefix idx et f e ++ r = posting_prefix idx et f' e' ++ r' -> f = f' /\ e = e' /\ r = r'.
Proof.
  intros Hr Hr'. rewrite !posting_prefix_eq, <- !app_assoc, <- !app_comm_cons, <- !app_assoc.
  intros [_ H]%app_inv_head%app_inv_head%cons_tail.
  apply enc_str_inj in H as [-> H]; [|apply not_ff_enc_bytes..].
  by apply enc_bytes_inj in H as [-> ->].
Qed.

Lemma df_key_inj f e f' e' : df_key idx et f e = df_key idx et f' e' -> f = f' /\ e = e'.
Proof.
  rewrite !df_key_eq. intros [_ H]%app_inv_head%app_inv_head%cons_tail.
  rewrite <- (app_nil_r (enc_bytes e)), <- (app_nil_r (enc_bytes e')) in H.
  apply enc_str_inj in H as [-> H]; [|apply not_ff_enc_bytes..].
  by apply enc_bytes_inj in H as [-> _].
Qed.

Lemma posting_not_df f e r f' e' : posting_prefix idx et f e ++ r <> df_key idx et f' e'.
Proof.
  rewrite posting_prefix_eq, df_key_eq, <- !app_assoc. intros H%app_inv_head%app_inv_head. discriminate H.
Qed.
Lemma posting_not_n_docs f e r : posting_prefix idx et f e ++ r <> n_docs_key idx et.
Proof.
  rewrite posting_prefix_eq, n_docs_key_eq, <- !app_assoc. intros H%app_inv_head%app_inv_head. discriminate H.
Qed.
Lemma df_not_n_docs f e : df_key idx et f e <> n_docs_key idx et.
Proof. rewrite df_key_eq, n_docs_key_eq. intros H%app_inv_head%app_inv_head. discriminate H. Qed.

(** The scan of a term sees the postings of that term and of no other. *)
Lemma posting_in_scan f e f' e' nid :
  not_ff nid ->
  in_scan (posting_prefix idx et f e) (posting_prefix idx et f e ++ [Byte.xff])
    (posting_prefix idx et f' e' ++ nid) <-> f = f' /\ e = e'.
Proof.
  intros Hn. rewrite in_scan_prefix. split.
  - intros (r & E & Hr). by apply posting_prefix_inj in E as (-> & -> & _).
  - intros [-> ->]. by exists nid.
Qed.
End Keys.

(** ** Deltas *)

Lemma bump_lookup d m l tm :
  NoDup (map term l) ->
  default 0 (bump d m l !! tm)
    = if decide (tm ∈ map term l) then wrap_i64 (default 0 (m !! tm) + d) else default 0 (m !! tm).
Proof.
  revert m. induction l as [|p l IH]; intros m Hnd; cbn [map].
  { by rewrite decide_False by apply not_elem_of_nil. }
  cbn [map] in Hnd. apply NoDup_cons in Hnd as [Hp Hnd].
  unfold bump in *. cbn [foldl]. rewrite (IH _ Hnd).
  destruct (decide (tm = term p)) as [->|Hne].
  - rewrite decide_False by done. rewrite lookup_insert_eq, decide_True by left. done.
  - rewrite lookup_insert_ne by congruence.
    destruct (decide (tm ∈ map term l)) as [Hin|Hin].
    + by rewrite decide_True by (by right).
    + by rewrite decide_False by (by intros [?|?]%elem_of_cons).
Qed.

(** The change of a term's document frequency. *)
Definition delta_of (ch : TermPostingChanges) (tm : TermKey) : Z :=
  (if decide (tm ∈ map term (additions ch)) then 1 else 0) -
  (if decide (tm ∈ map term (removals ch)) then 1 else 0).

Lemma term_deltas_lookup ch tm :
  NoDup (map term (additions ch)) -> NoDup (map term (removals ch)) ->
  default 0 (term_deltas ch !! tm) = delta_of ch tm.
Proof.
  intros Ha Hr. unfold term_deltas. rewrite (bump_lookup (-1)) by done.
  rewrite (bump_lookup 1) by done. rewrite lookup_empty. unfold delta_of. by repeat case_decide.
Qed.

(** ** Counters in the key space *)

(** A counter is absent at zero. *)
Definition count_row (n : Z) : option bytes := if n =? 0 then None else Some (be_bytes 8 n).

Lemma counter_value_be n : 0 <= n < 2 ^ 63 -> counter_value (be_bytes 8 n) = n.
Proof.
  intros Hn. unfold counter_value. rewrite be_val_be_bytes. change (256 ^ Z.of_nat 8) with (2 ^ 64).
  rewrite wrap_i64_mod. apply wrap_i64_id. unfold i64_ok. lia.
Qed.

Section Counters.
Context {S : Type} `{FdbLaws S}.
Context (env : Env) (Henv : no_faults env).
Implicit Types (t : S) (w : World S).

Lemma run_add_to_counter t key n d w :
  kv_get t key = count_row n -> 0 <= n < 2 ^ 63 -> 0 <= n + d < 2 ^ 63 ->
  exists t', add_to_counter t key d env w = (Ok t', next_tick w) /\
    kv_get t' key = count_row (n + d) /\ (forall k, k <> key -> kv_get t' k = kv_get t k) /\
    kv_stamp t' = kv_stamp t.
Proof.
  intros Hk Hn Hd.
  assert (E : read_i64_counter t key env w = (Ok n, next_tick w)).
  { unfold read_i64_counter. rewrite (bind_run _ _ _ _ _ _ (run_trx_get env Henv _ _ _ _)), Hk.
    unfold count_row. destruct (Z.eqb_spec n 0) as [->|]; [done|].
    rewrite length_be_bytes, counter_value_be by lia. done. }
  unfold add_to_counter. rewrite (bind_run _ _ _ _ _ _ E).
  rewrite wrap_i64_id, Z.max_l by (unfold i64_ok; lia). unfold count_row.
  eexists. split; [reflexivity|]. destruct (n + d =? 0).
  - rewrite kv_get_clear, decide_True by done. split; [done|]. split; [|apply kv_stamp_clear].
    intros k Hne. by rewrite kv_get_clear, decide_False by congruence.
  - rewrite kv_get_set, decide_True by done. split; [done|]. split; [|apply kv_stamp_set].
    intros k Hne. by rewrite kv_get_set, decide_False by congruence.
Qed.

Context (idx : Subspace) (et : string).
Let df (tm : TermKey) := df_key idx et (field tm) (encoded_value tm).
Let step (t : S) (td : TermKey * Z) : M S S :=
  let '(tm, delta) := td in
  if delta =? 0 then mret t else add_to_counter t (df_key idx et (field tm) (encoded_value tm)) delta.

Lemma df_inj tm tm' : df tm = df tm' -> tm = tm'.
Proof. destruct tm, tm'. intros [? ?]%df_key_inj. simpl in *. by subst. Qed.

Lemma run_df_step t tm d n w :
  kv_get t (df tm) = count_row n -> 0 <= n < 2 ^ 63 -> 0 <= n + d < 2 ^ 63 ->
  exists t' w', step t (tm, d) env w = (Ok t', w') /\ idle w w' /\
    kv_get t' (df tm) = count_row (n + d) /\ (forall k, k <> df tm -> kv_get t' k = kv_get t k) /\
    kv_stamp t' = kv_stamp t.
Proof.
  intros Hk Hn Hd. unfold step. destruct (Z.eqb_spec d 0) as [->|].
  - exists t, w. rewrite Z.add_0_r. done.
  - destruct (run_add_to_counter t (df tm) n d w Hk Hn Hd) as (t' & E & ?). exists t', (next_tick w). done.
Qed.

Lemma run_df_loop l (count : TermKey -> Z) t w :
  NoDup l.*1 -> (forall tm, kv_get t (df tm) = count_row (count tm)) ->
  (forall tm, 0 <= count tm < 2 ^ 63) -> (forall tm d, (tm, d) ∈ l -> 0 <= count tm + d < 2 ^ 63) ->
  exists t' w', fold_m l step t env w = (Ok t', w') /\ idle w w' /\
    (forall tm d, (tm, d) ∈ l -> kv_get t' (df tm) = count_row (count tm + d)) /\
    (forall k, (forall tm, tm ∈ l.*1 -> k <> df tm) -> kv_get t' k = kv_get t k) /\
    kv_stamp t' = kv_stamp t.
Proof.
  revert count t w. induction l as [|[tm d] l IH]; intros count t w Hnd Hc Hb Hd.
  { exists t, w. split; [done|]. split; [done|]. split; [|done]. intros ? ? H1%not_elem_of_nil. done. }
  cbn [fmap list_fmap fst] in Hnd. apply NoDup_cons in Hnd as [Htm Hnd].
  destruct (run_df_step t tm d (count tm) w (Hc tm) (Hb tm)) as (t1 & w1 & E1 & Hw1 & Hk1 & Ho1 & Hs1).
  { apply Hd. left. }
  cbn [fold_m]. rewrite (bind_run _ _ _ _ _ _ E1).
  set (count' := fun tm' => if decide (tm' = tm) then count tm + d else count tm').
  destruct (IH count' t1 w1 Hnd) as (t' & w' & E & Hw & Hin & Hout & Hs).
  - intros tm'. unfold count'. case_decide as Ht; [by subst|]. rewrite Ho1; [apply Hc|].
    by intros ?%df_inj.
  - intros tm'. unfold count'. case_decide; [apply Hd; left|apply Hb].
  - intros tm' d' Hin. unfold count'. rewrite decide_False; [apply Hd; by right|].
    intros ->. apply Htm, list_elem_of_fmap. by exists (tm, d').
  - exists t', w'. split; [done|]. split; [by etrans|]. split; [|split; [|congruence]].
    + intros tm' d' [[= -> ->]|Hl]%elem_of_cons.
      * rewrite Hout; [done|]. intros tm' Ht' ->%df_inj. done.
      * rewrite (Hin _ _ Hl). unfold count'. rewrite decide_False; [done|].
        intros ->. apply Htm, list_elem_of_fmap. by exists (tm, d').
    + intros k Hk. rewrite Hout; [apply Ho1, Hk; left|]. intros tm' Ht'. apply Hk. by right.
Qed.
End Counters.

(** ** The index as a whole *)

Section Invariant.
Context {S : Type} `{FdbLaws S} `{HashIter}.
Context (sub : Subspace) (et : string).
Implicit Types (t : S) (tm : TermKey) (nid : bytes).
Let idx := Sub.index sub.

Definition posting_key_of tm nid : bytes := posting_prefix idx et (field tm) (encoded_value tm) ++ nid.

(** The number of rows a scan of the term returns. *)
Definition term_rows t tm : Z :=
  let p := posting_prefix idx et (field tm) (encoded_value tm) in
  Z.of_nat (length (keys_in t p (p ++ [Byte.xff]))).

(** Every document-frequency counter is the number of rows of its term. *)
Definition df_exact t : Prop :=
  forall tm, kv_get t (df_key idx et (field tm) (encoded_value tm)) = count_row (term_rows t tm).

(** The node [nid] is listed under exactly the terms [tms]. *)
Definition listed t nid (tms : list TermKey) : Prop :=
  forall tm, is_Some (kv_get t (posting_key_of tm nid)) <-> tm ∈ tms.

(** The changes move one node from the terms [P] to the terms [Q], without
    repetition. *)
Record changes_ok nid (P Q : list TermKey) (ch : TermPostingChanges) : Prop := {
  co_adds : Forall (fun p => p = posting sub et nid (term p)) (additions ch);
  co_rems : Forall (fun p => p = posting sub et nid (term p)) (removals ch);
  co_nodup_adds : NoDup (map term (additions ch));
  co_nodup_rems : NoDup (map term (removals ch));
  co_elem_adds : forall tm, tm ∈ map term (additions ch) <-> tm ∈ Q /\ tm ∉ P;
  co_elem_rems : forall tm, tm ∈ map term (removals ch) <-> tm ∈ P /\ tm ∉ Q
}.

Lemma clear_postings_get t l k :
  kv_get (clear_postings t l) k = if decide (k ∈ map tp_key l) then None else kv_get t k.
Proof.
  revert t. induction l as [|p l IH]; intros t; cbn [clear_postings foldl map].
  { by rewrite decide_False by apply not_elem_of_nil. }
  unfold clear_postings in IH. rewrite IH, kv_get_clear. repeat case_decide; set_solver.
Qed.

Lemma set_postings_get t l k :
  kv_get (set_postings t l) k = if decide (k ∈ map tp_key l) then Some [] else kv_get t k.
Proof.
  revert t. induction l as [|p l IH]; intros t; cbn [set_postings foldl map].
  { by rewrite decide_False by apply not_elem_of_nil. }
  unfold set_postings in IH. rewrite IH, kv_get_set. repeat case_decide; set_solver.
Qed.

Lemma postings_stamp t l l' : kv_stamp (set_postings (clear_postings t l) l') = kv_stamp t.
Proof.
  unfold set_postings, clear_postings.
  transitivity (kv_stamp (foldl (fun t p => kv_clear t (tp_key p)) t l)).
  - generalize (foldl (fun t p => kv_clear t (tp_key p)) t l). induction l' as [|p l' IH]; intros s; [done|].
    cbn [foldl]. by rewrite IH, kv_stamp_set.
  - revert t. induction l as [|p l IH]; intros s; [done|]. cbn [foldl]. by rewrite IH, kv_stamp_clear.
Qed.

Lemma posting_key_term nid tm : tp_key (posting sub et nid tm) = posting_key_of tm nid.
Proof. exact (posting_key idx et (field tm) (encoded_value tm) nid). Qed.

Lemma elem_of_posting_keys nid l k :
  Forall (fun p => p = posting sub et nid (term p)) l ->
  k ∈ map tp_key l <-> exists tm, tm ∈ map term l /\ k = posting_key_of tm nid.
Proof.
  intros Hl. rewrite Forall_forall in Hl. setoid_rewrite list_elem_of_fmap. split.
  - intros (p & -> & Hp). exists (term p). split; [by exists p|]. rewrite (Hl p Hp) at 1. apply posting_key_term.
  - intros (tm & (p & -> & Hp) & ->). exists p. split; [|done]. rewrite (Hl p Hp) at 2. symmetry. apply posting_key_term.
Qed.

Lemma posting_key_of_inj tm nid tm' nid' :
  not_ff nid -> not_ff nid' -> posting_key_of tm nid = posting_key_of tm' nid' -> tm = tm' /\ nid = nid'.
Proof.
  intros Hn Hn' E. apply posting_prefix_inj in E as (Hf & He & ->); [|done..].
  destruct tm, tm'. simpl in *. by subst.
Qed.

Lemma own_key nid l tm :
  not_ff nid -> Forall (fun p => p = posting sub et nid (term p)) l ->
  posting_key_of tm nid ∈ map tp_key l <-> tm ∈ map term l.
Proof.
  intros Hn Hl. rewrite elem_of_posting_keys by done. split; [|eauto].
  intros (tm' & Hin & [-> _]%posting_key_of_inj); done.
Qed.

(** The rows after the postings are rewritten. *)
Lemma changed_rows t nid P Q ch :
  not_ff nid -> changes_ok nid P Q ch -> listed t nid P ->
  let t1 := set_postings (clear_postings t (removals ch)) (additions ch) in
  listed t1 nid Q /\
  (forall k, (forall tm, k <> posting_key_of tm nid) -> kv_get t1 k = kv_get t k) /\
  (forall tm, term_rows t1 tm = term_rows t tm + delta_of ch tm).
Proof.
  intros Hn [Ha Hr Hna Hnr Hea Her] Hl t1.
  assert (Hown : forall tm, kv_get t1 (posting_key_of tm nid)
    = if decide (tm ∈ map term (additions ch)) then Some []
      else if decide (tm ∈ map term (removals ch)) then None else kv_get t (posting_key_of tm nid)).
  { intros tm. unfold t1. rewrite set_postings_get, clear_postings_get.
    pose proof (own_key nid (additions ch) tm Hn Ha). pose proof (own_key nid (removals ch) tm Hn Hr).
    repeat case_decide; tauto. }
  assert (Hother : forall k, (forall tm, k <> posting_key_of tm nid) -> kv_get t1 k = kv_get t k).
  { intros k Hk. unfold t1. rewrite set_postings_get, clear_postings_get.
    rewrite !decide_False; [done|..]; (rewrite elem_of_posting_keys by done; intros (tm & _ & ?); by eapply Hk). }
  split; [|split; [done|]].
  - intros tm. rewrite Hown. specialize (Hl tm). specialize (Hea tm). specialize (Her tm).
    destruct (decide (tm ∈ map term (additions ch))), (decide (tm ∈ map term (removals ch)));
      rewrite ?is_Some_alt in *; destruct (decide (tm ∈ P)), (decide (tm ∈ Q)); intuition.
  - intros tm. unfold term_rows, delta_of.
    set (p := posting_prefix idx et (field tm) (encoded_value tm)).
    assert (Hscan : in_scan p (p ++ [Byte.xff]) (posting_key_of tm nid)) by (by apply posting_in_scan).
    assert (Hsame : forall k, k <> posting_key_of tm nid -> in_scan p (p ++ [Byte.xff]) k -> kv_get t1 k = kv_get t k).
    { intros k Hne Hs. apply Hother. intros tm' ->. apply posting_in_scan in Hs as [Hf He]; [|done].
      destruct tm, tm'. simpl in *. congruence. }
    specialize (Hown tm). specialize (Hl tm). specialize (Hea tm). specialize (Her tm).
    destruct (decide (tm ∈ map term (additions ch))) as [Hi|Hi], (decide (tm ∈ map term (removals ch))) as [Hj|Hj].
    + tauto.
    + rewrite (count_added t t1 p (p ++ [Byte.xff]) (posting_key_of tm nid)); [lia|done|..].
      * apply eq_None_not_Some. rewrite Hl. tauto.
      * rewrite Hown. eauto.
      * intros k Hk Hs. by rewrite Hsame.
    + rewrite (count_added t1 t p (p ++ [Byte.xff]) (posting_key_of tm nid)); [lia|done|done|..].
      * apply Hl. tauto.
      * intros k Hk Hs. by rewrite Hsame.
    + rewrite (count_same t t1); [lia|]. intros k Hs.
      destruct (decide (k = posting_key_of tm nid)) as [->|]; [by rewrite Hown|by rewrite Hsame].
Qed.

Lemma df_not_posting tm tm' nid : df_key idx et (field tm) (encoded_value tm) <> posting_key_of tm' nid.
Proof. intros E. symmetry in E. by apply posting_not_df in E. Qed.

Lemma n_docs_not_posting tm nid : n_docs_key idx et <> posting_key_of tm nid.
Proof. intros E. symmetry in E. by apply posting_not_n_docs in E. Qed.

(** The number of rows of a term only depends on its postings. *)
Lemma term_rows_ext t t' tm :
  (forall r, not_ff r -> kv_get t' (posting_key_of tm r) = kv_get t (posting_key_of tm r)) ->
  term_rows t' tm = term_rows t tm.
Proof.
  intros He. unfold term_rows. f_equal. apply count_same.
  intros k (r & -> & Hr)%in_scan_prefix. fold (posting_key_of tm r). by rewrite He.
Qed.

Definition n_docs t (n : Z) : Prop := kv_get t (n_docs_key idx et) = count_row n /\ 0 <= n < 2 ^ 63.

(** Applying the changes of one node. *)
Lemma run_apply_changes env t nid P Q ch n d w :
  no_faults env -> not_ff nid -> changes_ok nid P Q ch -> listed t nid P -> df_exact t ->
  (forall tm, term_rows t tm < 2 ^ 63 - 1) -> n_docs t n -> 0 <= n + d < 2 ^ 63 ->
  exists t' w', apply_term_posting_changes t sub et ch d env w = (Ok t', w') /\ idle w w' /\
    listed t' nid Q /\ df_exact t' /\ n_docs t' (n + d) /\
    (forall tm nid', not_ff nid' -> nid' <> nid -> kv_get t' (posting_key_of tm nid') = kv_get t (posting_key_of tm nid')) /\
    (forall k, ~ term_key_of idx et k -> kv_get t' k = kv_get t k) /\ kv_stamp t' = kv_stamp t.
Proof.
  intros Henv Hn Hch Hl Hdf Hmax [Hnd Hn0] Hnd'. unfold apply_term_posting_changes.
  destruct (changed_rows t nid P Q ch Hn Hch Hl) as (Hl1 & Ho1 & Hr1).
  pose proof (postings_stamp t (removals ch) (additions ch)) as Hs1.
  set (t1 := set_postings _ _) in *. clearbody t1.
  assert (Hdelta : forall tm d', (tm, d') ∈ hm_iter (term_deltas ch) -> d' = delta_of ch tm).
  { intros tm d' Hin%elem_of_hm_iter. rewrite <- term_deltas_lookup by apply Hch. by rewrite Hin. }
  destruct (run_df_loop env Henv idx et (hm_iter (term_deltas ch)) (term_rows t) t1 w) as
    (t2 & w2 & E2 & Hw2 & Hin2 & Hout2 & Hs2).
  { apply NoDup_hm_iter. }
  { intros tm. rewrite Ho1; [apply Hdf|]. intros ?. apply df_not_posting. }
  { intros tm. specialize (Hmax tm). unfold term_rows in *. lia. }
  { intros tm d' ->%Hdelta. rewrite <- Hr1. split; [unfold term_rows; lia|]. rewrite Hr1.
    specialize (Hmax tm). unfold delta_of. repeat case_decide; lia. }
  rewrite (bind_run _ _ _ _ _ _ E2).
  assert (Hp2 : forall tm r, kv_get t2 (posting_key_of tm r) = kv_get t1 (posting_key_of tm r)).
  { intros tm r. apply Hout2. intros tm' _ E. symmetry in E. by apply df_not_posting in E. }
  assert (Hd2 : df_exact t2).
  { intros tm. rewrite (term_rows_ext t1 t2) by auto. rewrite Hr1.
    destruct (term_deltas ch !! tm) as [d'|] eqn:Ed.
    - apply elem_of_hm_iter in Ed. rewrite (Hin2 tm d' Ed). by rewrite (Hdelta _ _ Ed).
    - rewrite Hout2.
      + rewrite Ho1 by (intros ?; apply df_not_posting). rewrite <- term_deltas_lookup by apply Hch.
        rewrite Ed, Z.add_0_r. apply Hdf.
      + intros tm' ([tm2 d2] & -> & Hin)%list_elem_of_fmap E. apply elem_of_hm_iter in Hin.
        apply df_inj in E as ->. cbn [fst] in *. congruence. }
  assert (Hn2 : kv_get t2 (n_docs_key idx et) = count_row n).
  { rewrite Hout2, Ho1; [done|intros ?; apply n_docs_not_posting|].
    intros tm _ E. symmetry in E. by apply df_not_n_docs in E. }
  assert (exists t' w', (if d =? 0 then mret t2 else add_to_counter t2 (n_docs_key idx et) d) env w2 = (Ok t', w') /\
    idle w2 w' /\ kv_get t' (n_docs_key idx et) = count_row (n + d) /\
    (forall k, k <> n_docs_key idx et -> kv_get t' k = kv_get t2 k) /\ kv_stamp t' = kv_stamp t2)
    as (t' & w' & E & Hw & Hnk & Hok & Hs).
  { destruct (Z.eqb_spec d 0) as [->|]; [exists t2, w2; by rewrite Z.add_0_r|].
    destruct (run_add_to_counter env Henv t2 (n_docs_key idx et) n d w2) as (t' & E & Hk & Ho & Hs); [done..|].
    exists t', (next_tick w2). done. }
  assert (Hp : forall tm r, kv_get t' (posting_key_of tm r) = kv_get t1 (posting_key_of tm r)).
  { intros tm r. rewrite Hok; [apply Hp2|]. apply not_eq_sym, n_docs_not_posting. }
  exists t', w'. split; [exact E|]. split; [by etrans|]. split; [|split; [|split; [|split; [|split]]]].
  - intros tm. rewrite Hp. apply Hl1.
  - intros tm. rewrite (term_rows_ext t2 t') by (intros; rewrite Hp; symmetry; apply Hp2).
    rewrite Hok by apply df_not_n_docs. apply Hd2.
  - done.
  - intros tm nid' Hf Hne. rewrite Hp. apply Ho1. by intros tm' [_ ->]%posting_key_of_inj.
  - intros k Hk. rewrite Hok by (intros ->; apply Hk, term_key_n_docs).
    rewrite Hout2 by (intros ? _ ->; apply Hk, term_key_df). apply Ho1. intros tm ->. apply Hk, term_key_posting.
  - congruence.
Qed.

(** *** The changes the node operations compute *)

Lemma posting_map_terms nid l :
  posting_map (map (posting sub et nid) l)
    = foldl (fun m tm => <[posting_key_of tm nid := posting sub et nid tm]> m) ∅ l.
Proof.
  unfold posting_map. generalize (∅ : gmap bytes TermPosting). induction l as [|tm l IH]; intros m; [done|].
  cbn [map foldl]. rewrite IH. by rewrite posting_key_term.
Qed.

Lemma posting_map_lookup nid l k p :
  not_ff nid -> posting_map (map (posting sub et nid) l) !! k = Some p <->
  exists tm, tm ∈ l /\ k = posting_key_of tm nid /\ p = posting sub et nid tm.
Proof.
  intros Hn. rewrite posting_map_terms.
  assert (Hgen : forall m : gmap bytes TermPosting,
    foldl (fun m tm => <[posting_key_of tm nid := posting sub et nid tm]> m) m l !! k = Some p <->
    (exists tm, tm ∈ l /\ k = posting_key_of tm nid /\ p = posting sub et nid tm) \/
    (~ (exists tm, tm ∈ l /\ k = posting_key_of tm nid) /\ m !! k = Some p)).
  { induction l as [|tm l IH]; intros m; cbn [foldl]; [set_solver|]. rewrite IH, lookup_insert_Some.
    setoid_rewrite elem_of_cons. split.
    - intros [?|[Hno [[Hk Hp]|[Hk Hm]]]]; [left; naive_solver|left; naive_solver|].
      right. split; [|done]. intros (tm' & [->|?] & ?); naive_solver.
    - intros [(tm' & [->|Hin] & -> & ->)|[Hno Hm]].
      + destruct (decide (tm ∈ l)) as [?|Hni]; [left; eauto|].
        right. split; [|by left]. intros (tm' & Hin & [-> _]%posting_key_of_inj); done.
      + left. eauto.
      + right. split; [naive_solver|]. right. split; [|done]. intros E. apply Hno. eauto. }
  rewrite Hgen. set_solver.
Qed.

Lemma map_terms nid l : map term (map (posting sub et nid) l) = l.
Proof. rewrite map_map. rewrite <- (map_id l) at 2. apply map_ext. intros tm. apply term_posting. Qed.

Lemma NoDup_map_omap (other : gmap bytes TermPosting) (l : list (bytes * TermPosting)) :
  NoDup l.*1 -> (forall k p, (k, p) ∈ l -> tp_key p = k) ->
  NoDup (map tp_key (omap (fun kp => if decide (is_Some (other !! kp.1)) then None else Some kp.2) l)).
Proof.
  induction l as [|[k p] l IH]; [constructor|]. cbn [fmap list_fmap fst omap list_omap snd].
  intros [Hk Hl]%NoDup_cons Hkp. assert (IH' := IH Hl ltac:(intros; apply Hkp; by right)).
  case_decide; [done|]. cbn [map]. constructor; [|done]. rewrite (Hkp k p) by left.
  intros (q & E & ([k' q'] & Hin & Hq)%list_elem_of_omap)%list_elem_of_fmap. cbn [fst snd] in Hq.
  case_decide; [done|]. injection Hq as ->. apply Hk, list_elem_of_fmap. exists (k', q). split; [|done].
  cbn. rewrite E. apply Hkp. by right.
Qed.

Lemma NoDup_missing nid l l' :
  not_ff nid ->
  NoDup (map term (postings_missing (posting_map (map (posting sub et nid) l)) (posting_map (map (posting sub et nid) l')))).
Proof.
  intros Hn. unfold postings_missing. set (m := posting_map (map _ l)).
  assert (Hm : forall k p, (k, p) ∈ hm_iter m -> k = posting_key_of (term p) nid /\ tp_key p = k).
  { intros k p Hin%elem_of_hm_iter. apply posting_map_lookup in Hin as (tm & _ & -> & ->); [|done].
    rewrite term_posting. split; [done|]. apply posting_key_term. }
  pose proof (NoDup_map_omap (posting_map (map (posting sub et nid) l')) (hm_iter m) (NoDup_hm_iter m)
    (fun k p Hin => proj2 (Hm k p Hin))) as Hnd.
  set (ps := omap _ _) in *.
  assert (Hps : map tp_key ps = map (fun tm => posting_key_of tm nid) (map term ps)).
  { rewrite map_map. apply list_fmap_ext. intros i p Hp%list_elem_of_lookup_2.
    apply list_elem_of_omap in Hp as ([k q] & Hin & Hq). cbn [fst snd] in Hq. case_decide; [done|]. injection Hq as ->.
    destruct (Hm k p Hin) as [<- <-]. done. }
  rewrite Hps in Hnd. by eapply NoDup_fmap_1.
Qed.

Lemma compute_changes_ok nid old_props new_props :
  not_ff nid ->
  exists ch, compute_term_posting_changes sub et nid old_props new_props = Ok ch /\
    changes_ok nid (all_terms old_props) (all_terms new_props) ch.
Proof.
  intros Hn. unfold compute_term_posting_changes. rewrite !compute_term_postings_eq. cbn.
  eexists. split; [reflexivity|].
  assert (Hmiss : forall l l', (forall p, p ∈ postings_missing (posting_map (map (posting sub et nid) l)) (posting_map (map (posting sub et nid) l')) <->
    exists tm, p = posting sub et nid tm /\ tm ∈ l /\ tm ∉ l')).
  { intros l l' p. unfold postings_missing. rewrite list_elem_of_omap. split.
    - intros ([k q] & Hin%elem_of_hm_iter & E). cbn [fst snd] in E. case_decide as Hs; [done|]. injection E as ->.
      apply posting_map_lookup in Hin as (tm & Hin & -> & ->); [|done]. exists tm. split; [done|]. split; [done|].
      intros Hl'. apply Hs. eexists. apply posting_map_lookup; eauto.
    - intros (tm & -> & Hin & Hni). exists (posting_key_of tm nid, posting sub et nid tm).
      split; [apply elem_of_hm_iter, posting_map_lookup; eauto|]. cbn [fst snd].
      rewrite decide_False; [done|]. intros [q Hq]. apply posting_map_lookup in Hq as (tm' & Hin' & E & _); [|done].
      apply posting_key_of_inj in E as [-> _]; done. }
  split; cbn [additions removals].
  - apply Forall_forall. intros p (tm & -> & _)%Hmiss. by rewrite term_posting.
  - apply Forall_forall. intros p (tm & -> & _)%Hmiss. by rewrite term_posting.
  - by apply NoDup_missing.
  - by apply NoDup_missing.
  - intros tm. rewrite list_elem_of_fmap. setoid_rewrite Hmiss. split.
    + intros (p & -> & tm' & -> & ? & ?). by rewrite term_posting.
    + intros [? ?]. exists (posting sub et nid tm). rewrite term_posting. eauto.
  - intros tm. rewrite list_elem_of_fmap. setoid_rewrite Hmiss. split.
    + intros (p & -> & tm' & -> & ? & ?). by rewrite term_posting.
    + intros [? ?]. exists (posting sub et nid tm). rewrite term_posting. eauto.
Qed.

(** A node that gets its first terms, and one that loses all of them. *)
Lemma create_changes_ok nid props :
  no_template_fields props ->
  changes_ok nid [] (all_terms props) (mkTermPostingChanges (map (posting sub et nid) (all_terms props)) []).
Proof.
  intros Hp. split; cbn [additions removals]; rewrite ?map_terms; try (by constructor); try set_solver.
  - apply Forall_forall. intros p (tm & -> & _)%list_elem_of_fmap. by rewrite term_posting.
  - by apply NoDup_all_terms.
Qed.

Lemma delete_changes_ok nid props :
  no_template_fields props ->
  changes_ok nid (all_terms props) [] (mkTermPostingChanges [] (map (posting sub et nid) (all_terms props))).
Proof.
  intros Hp. split; cbn [additions removals]; rewrite ?map_terms; try (by constructor); try set_solver.
  - apply Forall_forall. intros p (tm & -> & _)%list_elem_of_fmap. by rewrite term_posting.
  - by apply NoDup_all_terms.
Qed.
End Invariant.

(** Maintenance of the term index across an update.  If the node is
    listed under the terms of its old properties and every document-frequency
    counter equals the number of rows of its term, then computing and applying
    the changes succeeds, lists the node under the terms of its new properties
    and under no other, leaves every other node's rows and every key outside the
    term index alone, and every counter is again the number of rows of its term. *)
Theorem term_update_counts {S} `{FdbLaws S} `{HashIter} env (sub : Subspace) (et : string) (nid : bytes)
    (old_props new_props : Props) (t : S) (n d : Z) (w : World S) :
  no_faults env -> not_ff nid ->
  listed sub et t nid (all_terms old_props) -> df_exact sub et t ->
  (forall tm, term_rows sub et t tm < 2 ^ 63 - 1) -> n_docs sub et t n -> 0 <= n + d < 2 ^ 63 ->
  exists ch t' w',
    compute_term_posting_changes sub et nid old_props new_props = Ok ch /\
    apply_term_posting_changes t sub et ch d env w = (Ok t', w') /\ idle w w' /\
    (forall tm, is_Some (kv_get t' (posting_key_of sub et tm nid)) <-> has_term new_props tm) /\
    df_exact sub et t' /\ n_docs sub et t' (n + d) /\
    (forall tm nid', not_ff nid' -> nid' <> nid ->
       kv_get t' (posting_key_of sub et tm nid') = kv_get t (posting_key_of sub et tm nid')) /\
    (forall k, ~ term_key_of (Sub.index sub) et k -> kv_get t' k = kv_get t k).
Proof.
  intros Henv Hn Hl Hdf Hmax Hnd Hd.
  destruct (compute_changes_ok sub et nid old_props new_props Hn) as (ch & Ech & Hch).
  destruct (run_apply_changes sub et env t nid _ _ ch n d w Henv Hn Hch Hl Hdf Hmax Hnd Hd)
    as (t' & w' & E & Hw & Hl' & Hdf' & Hnd' & Hoth & Hfr & _).
  exists ch, t', w'. repeat (split; [done|]). split; [|done].
  intros tm. rewrite (Hl' tm). apply elem_of_all_terms.
Qed.

Definition ctx_sub : Subspace := Sub.namespace "db" "ns".

Lemma empty_get k : kv_get empty_kv k = None.
Proof. reflexivity. Qed.

Lemma empty_term_rows sub et tm : term_rows sub et empty_kv tm = 0.
Proof. reflexivity. Qed.

Lemma term_update_counts_witness :
  exists ch t' w',
    compute_term_posting_changes ctx_sub "Context" (NodeIds.to_bytes (mkNodeId 1 7)) ∅ {["task" := VString "fx"]} = Ok ch /\
    apply_term_posting_changes empty_kv ctx_sub "Context" ch 1 quiet_env empty_world = (Ok t', w') /\
    df_exact ctx_sub "Context" t'.
Proof.
  destruct (term_update_counts quiet_env ctx_sub "Context" (NodeIds.to_bytes (mkNodeId 1 7)) ∅
    {["task" := VString "fx"]} empty_kv 0 1 empty_world) as (ch & t' & w' & E1 & E2 & _ & _ & E3 & _).
  - apply quiet_env_ok.
  - intros E. vm_compute in E. discriminate E.
  - intros tm. rewrite empty_get. split; [intros [? [=]]|]. intros Hin. vm_compute in Hin. by apply not_elem_of_nil in Hin.
  - intros tm. rewrite empty_get, empty_term_rows. reflexivity.
  - intros tm. rewrite empty_term_rows. lia.
  - split; [reflexivity|lia].
  - lia.
  - exists ch, t', w'. split; [exact E1|]. split; [exact E2|exact E3].
Defined.

(** ** Listing the nodes of a term *)

Section Listing.
Context {S : Type} `{FdbLaws S}.
Context (sub : Subspace) (et : string).
Implicit Types (t : S) (tm : TermKey).

(** The node ids a scan of the term sees, in order. *)
Definition term_nodes t tm : list bytes :=
  let p := posting_prefix (Sub.index sub) et (field tm) (encoded_value tm) in
  map (drop (length p)) (keys_in t p (p ++ [Byte.xff])).

Lemma elem_of_term_nodes t tm nid :
  nid ∈ term_nodes t tm <-> not_ff nid /\ is_Some (kv_get t (posting_key_of sub et tm nid)).
Proof.
  unfold term_nodes. rewrite list_elem_of_fmap. split.
  - intros (k & -> & [Hs Hk]%elem_of_keys_in). apply in_scan_prefix in Hs as (r & -> & Hr).
    by rewrite drop_app_length.
  - intros [Hf Hs]. exists (posting_key_of sub et tm nid). unfold posting_key_of. rewrite drop_app_length.
    split; [done|]. apply elem_of_keys_in. split; [apply in_scan_prefix; eauto|done].
Qed.

(** Rows of the term carry nine-byte node ids. *)
Definition nine_bytes t tm : Prop := forall nid, nid ∈ term_nodes t tm -> length nid = 9%nat.

Definition after (a : option bytes) (nid : bytes) : Prop :=
  match a with Some a => blt a nid | None => True end.
#[export] Instance after_dec a nid : Decision (after a nid).
Proof. destruct a; apply _. Defined.

Lemma posting_range_after t p a e :
  kv_range t (make_posting_start_after p a) e = filter (fun kv => blt (p ++ a) kv.1) (kv_range t p e).
Proof.
  apply sorted_ext; [apply kv_range_sorted|apply sorted_filter, kv_range_sorted|].
  intros [k v]. rewrite list_elem_of_filter, !kv_range_elem. unfold make_posting_start_after, in_scan.
  rewrite app_assoc, ble_succ. cbn [fst]. split; [|tauto]. intros [[H1 H2] H3].
  split; [done|]. split; [split; [|done]|done]. eapply ble_trans; [apply (ble_app_r p a)|].
  by apply ble_lt_or_eq; left.
Qed.

Lemma run_extract env (rows : list (bytes * bytes)) out (w : World S) :
  Forall (fun kv => (9 <= length kv.1)%nat) rows ->
  fold_m rows (fun out kv => id ← lift (extract_node_id_from_posting_key kv.1); mret (out ++ [id])) out env w
    = (Ok (out ++ map (fun kv => drop (length kv.1 - 9) kv.1) rows), w).
Proof.
  revert out. induction rows as [|[k v] rows IH]; intros out Hr; cbn [fold_m map].
  { by rewrite app_nil_r. }
  apply Forall_cons in Hr as [Hk Hr]. cbn [fst] in *.
  assert (Hx : extract_node_id_from_posting_key k = Ok (drop (length k - 9) k)).
  { unfold extract_node_id_from_posting_key. by destruct (Nat.ltb_spec (length k) 9); [lia|]. }
  rewrite (bind_run _ _ env w (out ++ [drop (length k - 9) k]) w) by (by rewrite Hx).
  rewrite IH by done. by rewrite <- app_assoc.
Qed.

Definition last9 (kv : bytes * bytes) : bytes := drop (length kv.1 - 9) kv.1.

Lemma ids_of_rows (p : bytes) a (l : list (bytes * bytes)) :
  (forall kv, kv ∈ l -> exists r, kv.1 = p ++ r /\ length r = 9%nat) ->
  map last9 (filter (fun kv => after (app p <$> a) kv.1) l) = filter (after a) (map (drop (length p)) l.*1).
Proof.
  induction l as [|[k v] l IH]; [done|]. intros Hl.
  destruct (Hl (k, v)) as (r & Hk & Hr); [left|]. cbn [fst] in Hk. subst k.
  assert (IH' := IH ltac:(intros; apply Hl; by right)).
  cbn [fmap list_fmap map fst]. rewrite drop_app_length.
  assert (Haft : after (app p <$> a) (p ++ r) <-> after a r).
  { destruct a as [n|]; simpl; [|done]. unfold blt. by rewrite lex_app. }
  rewrite !filter_cons. cbn [fst].
  destruct (decide (after (app p <$> a) (p ++ r))), (decide (after a r)); try tauto.
  cbn [map]. rewrite IH'. unfold last9 at 1. cbn [fst]. rewrite length_app, Hr.
  replace (length p + 9 - 9)%nat with (length p) by lia. by rewrite drop_app_length.
Qed.

(** A page is a segment of the listing. *)
Lemma page_rows t tm a :
  let p := posting_prefix (Sub.index sub) et (field tm) (encoded_value tm) in
  let rows := kv_range t (match a with Some n => make_posting_start_after p n | None => p end) (p ++ [Byte.xff]) in
  nine_bytes t tm ->
  Forall (fun kv => (9 <= length kv.1)%nat) rows /\ map last9 rows = filter (after a) (term_nodes t tm).
Proof.
  intros p rows H9.
  assert (Hrow : forall kv, kv ∈ kv_range t p (p ++ [Byte.xff]) -> exists r, kv.1 = p ++ r /\ length r = 9%nat).
  { intros [k v] [Hs Hg]%kv_range_elem. apply in_scan_prefix in Hs as (r & -> & Hr). exists r. split; [done|].
    apply H9. apply elem_of_term_nodes. eauto. }
  assert (Hrows : rows = filter (fun kv => after (app p <$> a) kv.1) (kv_range t p (p ++ [Byte.xff]))).
  { unfold rows. destruct a as [n|]; [apply posting_range_after|symmetry; by apply filter_all_true]. }
  rewrite Hrows. split; [|by apply ids_of_rows].
  apply Forall_forall. intros kv [_ Hin]%list_elem_of_filter.
  destruct (Hrow kv Hin) as (r & -> & Hr). rewrite length_app. lia.
Qed.

(** A page of the listing, at any read version. *)
Lemma run_list_posting env (Henv : no_faults env) (db ns f : string) (v : Value) (e : bytes) a limit (rv : option Z) (w : World S) :
  sub = Sub.namespace db ns -> encode_term_value v = Ok (Some e) ->
  nine_bytes (snapshot (w_kv w) rv) (mkTermKey f e) ->
  exists w', list_posting_node_ids_after_at_read_version db ns et f v a limit rv env w
    = (Ok (firstn (Nat.max limit 1) (filter (after a) (term_nodes (snapshot (w_kv w) rv) (mkTermKey f e)))), w') /\ idle w w'.
Proof.
  intros Hsub Hv H9. unfold list_posting_node_ids_after_at_read_version. rewrite Hv, run_lift. cbv zeta. rewrite <- Hsub.
  destruct (run_get_range_at env Henv
    (match a with Some n => make_posting_start_after (posting_prefix (Sub.index sub) et f e) n
     | None => posting_prefix (Sub.index sub) et f e end)
    (posting_prefix (Sub.index sub) et f e ++ [Byte.xff]) (Nat.max limit 1) rv w) as [n E].
  rewrite (bind_run _ _ _ _ _ _ E). destruct (page_rows (snapshot (w_kv w) rv) (mkTermKey f e) a H9) as [Hlen Hids].
  cbn [field encoded_value] in Hlen, Hids. rewrite run_extract by (by apply Forall_take). eexists.
  split; [rewrite <- Hids, firstn_map; reflexivity|done].
Qed.
End Listing.

(** Listing the nodes of a term.  A page holds the first [limit] node
    ids of the term that come after the cursor, in order; a node is in the listing
    of the term exactly when its posting row exists and its id does not start with
    0xFF (site 255). *)
Theorem list_posting_page {S} `{FdbLaws S} env (db ns et f : string) (v : Value) (e : bytes)
    (a : option bytes) (limit : nat) (w : World S) :
  let sub := Sub.namespace db ns in
  let tm := mkTermKey f e in
  no_faults env -> encode_term_value v = Ok (Some e) -> nine_bytes sub et (w_kv w) tm ->
  exists w',
    list_posting_node_ids_after db ns et f v a limit env w
      = (Ok (firstn (Nat.max limit 1) (filter (after a) (term_nodes sub et (w_kv w) tm))), w') /\
    w_kv w' = w_kv w /\
    (forall nid, nid ∈ term_nodes sub et (w_kv w) tm <->
       hd_error nid <> Some Byte.xff /\ is_Some (kv_get (w_kv w) (posting_key_of sub et tm nid))).
Proof.
  intros sub tm Henv Hv H9. destruct (run_list_posting sub et env Henv db ns f v e a limit None w eq_refl Hv H9) as (w' & E & Hw & _).
  exists w'. split; [exact E|]. split; [done|intros; apply elem_of_term_nodes].
Qed.

Lemma list_posting_page_witness :
  exists w', list_posting_node_ids_after "db" "ns" "Context" "task" (VString "fx") None 10 quiet_env empty_world
    = (Ok [], w').
Proof.
  destruct (list_posting_page quiet_env "db" "ns" "Context" "task" (VString "fx") (sbytes "fx") None 10 empty_world)
    as (w' & E & _).
  - apply quiet_env_ok.
  - reflexivity.
  - intros nid Hin. vm_compute in Hin. by apply not_elem_of_nil in Hin.
  - exists w'. exact E.
Defined.

Definition count_after_create (props : Props) : option (option bytes * Z) :=
  let nid := NodeIds.to_bytes (mkNodeId 1 7) in
  match compute_term_postings ctx_sub "Context" nid props with
  | Ok ps =>
      match (apply_term_posting_changes empty_kv ctx_sub "Context" (mkTermPostingChanges ps []) 1 quiet_env empty_world).1 with
      | Ok t =>
          let e := sbytes "a|b|c|d" in
          Some (kv_get t (df_key (Sub.index ctx_sub) "Context" TEMPLATE_FIELD_SHOW_SCHEME_SHOT_SEQUENCE e),
                term_rows ctx_sub "Context" t (mkTermKey TEMPLATE_FIELD_SHOW_SCHEME_SHOT_SEQUENCE e))
      | Err _ => None
      end
  | Err _ => None
  end.

(** A property named like a template field is counted twice.  A node
    whose own properties produce the template term a second time has one row
    under it but is counted twice, so the counter no longer is the number of rows. *)
Theorem template_field_double_count :
  count_after_create
    (list_to_map [("show", VString "a"); ("scheme", VString "b"); ("shot", VString "c"); ("sequence", VString "d");
                  (TEMPLATE_FIELD_SHOW_SCHEME_SHOT_SEQUENCE, VString "a|b|c|d")])
    = Some (count_row 2, 1).
Proof. vm_compute. reflexivity. Qed.
