(* ===== verification/Namespace.v ===== *)
(** * Namespace settings

    [pelago-storage/src/namespace.rs]: the schema owner of a namespace, a
    compare-and-set register with an epoch. *)

From S2P Require Import Prelude Bytes Text Errors Types Encoding Subspace SchemaTypes Fdb MemFdb Cdc.

Record NamespaceSettings := mkNamespaceSettings {
  ns_database : string;
  ns_namespace : string;
  schema_owner_site_id : option string;
  epoch : Z;
  ns_updated_at : Z
}.

Definition unrestricted (database namespace : string) : NamespaceSettings :=
  mkNamespaceSettings database namespace None 0 0.

Definition enforce_schema_owner (s : NamespaceSettings) (actor_site_id : string) : result unit :=
  match schema_owner_site_id s with
  | Some owner =>
      if String.eqb owner actor_site_id then Ok tt
      else Err (NamespaceSchemaOwnershipConflict (ns_database s) (ns_namespace s) owner actor_site_id)
  | None => Ok tt
  end.

Definition namespace_settings_subspace (database namespace : string) : Subspace :=
  Sub.child (Sub.child (Sub.namespace database namespace) markers.NS) "settings".

Definition namespace_settings_key (database namespace : string) : bytes :=
  prefix (namespace_settings_subspace database namespace).

Definition normalize_owner_site_id (owner_site_id : option string) : option string :=
  match owner_site_id with
  | Some site => let trimmed := trim site in if String.eqb trimmed "" then None else Some trimmed
  | None => None
  end.

Definition normalize_required_site_id (value f : string) : result string :=
  let trimmed := trim value in
  if String.eqb trimmed "" then Err (InvalidValue f "site id cannot be empty") else Ok trimmed.

Section Namespace.
Context {S : Type} `{Fdb S} `{Cbor NamespaceSettings}.

Definition get_namespace_settings (database namespace : string) : M S (option NamespaceSettings) :=
  row ← db_get (namespace_settings_key database namespace);
  match row with
  | Some b => s ← lift (decode_cbor b); mret (Some s)
  | None => mret None
  end.

Definition enforce_namespace_schema_owner (database namespace actor_site_id : string) : M S unit :=
  settings ← get_namespace_settings database namespace;
  match settings with
  | Some s => lift (enforce_schema_owner s actor_site_id)
  | None => mret tt
  end.

(** The settings of the transaction, unrestricted when there are none. *)
Definition existing_settings (t : S) (database namespace : string) : M S NamespaceSettings :=
  existing ← trx_get (fun e => Internal ("namespace settings get failed: " ++ e)) t
               (namespace_settings_key database namespace);
  match existing with
  | Some b => lift (decode_cbor b)
  | None => mret (unrestricted database namespace)
  end.

Definition set_namespace_schema_owner (database namespace : string) (owner_site_id : option string)
    : M S NamespaceSettings :=
  t ← create_transaction;
  settings ← existing_settings t database namespace;
  let normalized_owner := normalize_owner_site_id owner_site_id in
  let changed := negb (bool_decide (schema_owner_site_id settings = normalized_owner)) in
  updated ← now;
  let settings' := mkNamespaceSettings (ns_database settings) (ns_namespace settings)
    (if changed then normalized_owner else schema_owner_site_id settings)
    (if changed then u64_saturating_add (epoch settings) 1 else epoch settings) updated in
  value ← lift (encode_cbor settings');
  commit (fun e => Internal ("namespace settings commit failed: " ++ e))
    (kv_set t (namespace_settings_key database namespace) value) ;;
  mret settings'.

Definition transfer_namespace_schema_owner (database namespace expected_owner_site_id target_owner_site_id : string)
    : M S NamespaceSettings :=
  expected ← lift (normalize_required_site_id expected_owner_site_id "expected_owner_site_id");
  target ← lift (normalize_required_site_id target_owner_site_id "target_owner_site_id");
  t ← create_transaction;
  settings ← existing_settings t database namespace;
  let owner := default "" (schema_owner_site_id settings) in
  if negb (String.eqb owner expected) then
    throw (NamespaceSchemaOwnershipConflict database namespace
      (if String.eqb owner "" then "<unassigned>" else owner) expected)
  else if negb (String.eqb expected target) then
    updated ← now;
    let settings' := mkNamespaceSettings (ns_database settings) (ns_namespace settings)
      (Some target) (u64_saturating_add (epoch settings) 1) updated in
    value ← lift (encode_cbor settings');
    commit (fun e => Internal ("namespace transfer ownership commit failed: " ++ e))
      (kv_set t (namespace_settings_key database namespace) value) ;;
    mret settings'
  else mret settings.
End Namespace.

(** ** Properties *)

Lemma run_get_settings {S} `{FdbLaws S} `{Cbor NamespaceSettings} env (Henv : no_faults env) db ns (w : World S) :
  get_namespace_settings db ns env w
    = (match kv_get (w_kv w) (namespace_settings_key db ns) with
       | Some b => s ← decode_cbor b; Ok (Some s)
       | None => Ok None
       end, next_tick (next_tick w)).
Proof.
  unfold get_namespace_settings. mrun Henv. case_match; [|done].
  unfold mbind, M_bind, lift. by destruct (decode_cbor _).
Qed.

Section Facts.
Context {S : Type} `{FdbLaws S} `{CborLaws NamespaceSettings id (fun _ => True)}.
Context (env : Env) (Henv : no_faults env) (db ns : string).
Implicit Types w : World S.

(** The stored settings are absent or readable. *)
Definition settings_at w (s : NamespaceSettings) : Prop :=
  match kv_get (w_kv w) (namespace_settings_key db ns) with
  | Some b => decode_cbor b = Ok s
  | None => s = unrestricted db ns
  end.

Definition owner_of (s : NamespaceSettings) : string := default "" (schema_owner_site_id s).

Lemma settings_at_fun w s s' : settings_at w s -> settings_at w s' -> s = s'.
Proof. unfold settings_at. case_match; congruence. Qed.

Lemma run_existing w s :
  settings_at w s -> existing_settings (w_kv w) db ns env (next_tick w) = (Ok s, next_tick (next_tick w)).
Proof.
  unfold settings_at, existing_settings. intros Hs. mrun Henv. case_match; [by rewrite Hs|by subst].
Qed.

Lemma settings_at_set w s b n :
  encode_cbor s = Ok b ->
  settings_at (mkWorld (kv_set (w_kv w) (namespace_settings_key db ns) b) (w_cache w) (w_alloc w) (w_failpoints w) n) s.
Proof.
  intros Eb. unfold settings_at. cbn [w_kv]. rewrite kv_get_set, decide_True by done.
  by rewrite (decode_encode_cbor s b I Eb).
Qed.

(** The outcomes of a transfer from a readable state. *)
Lemma run_transfer w s expected target :
  settings_at w s -> trim expected <> "" -> trim target <> "" ->
  exists r w', transfer_namespace_schema_owner db ns expected target env w = (r, w') /\
    if decide (owner_of s = trim expected) then
      if decide (trim expected = trim target) then r = Ok s /\ w_kv w' = w_kv w
      else exists s', r = Ok s' /\ settings_at w' s' /\ schema_owner_site_id s' = Some (trim target) /\
             epoch s' = u64_saturating_add (epoch s) 1 /\
             (forall k, k <> namespace_settings_key db ns -> kv_get (w_kv w') k = kv_get (w_kv w) k)
    else w_kv w' = w_kv w /\
      r = Err (NamespaceSchemaOwnershipConflict db ns
            (if String.eqb (owner_of s) "" then "<unassigned>" else owner_of s) (trim expected)).
Proof.
  intros Hs He Ht. unfold transfer_namespace_schema_owner, normalize_required_site_id.
  destruct (String.eqb_spec (trim expected) ""); [done|]. destruct (String.eqb_spec (trim target) ""); [done|].
  mrun Henv. rewrite (bind_run _ _ _ _ _ _ (run_existing w s Hs)). fold (owner_of s).
  destruct (decide (owner_of s = trim expected)) as [Ho|Ho].
  - rewrite (proj2 (String.eqb_eq _ _) Ho). cbn [negb].
    destruct (decide (trim expected = trim target)) as [Hx|Hx].
    + rewrite (proj2 (String.eqb_eq _ _) Hx). eexists _, _. split; [reflexivity|]. done.
    + rewrite (proj2 (String.eqb_neq _ _) Hx). cbn [negb]. mrun Henv.
      set (s' := mkNamespaceSettings _ _ _ _ _). destruct (encode_cbor_total s') as (b & Eb & _).
      rewrite Eb. mrun Henv. eexists _, _. split; [reflexivity|]. exists s'. split; [done|].
      split; [exact (settings_at_set w s' b _ Eb)|]. split; [done|]. split; [done|].
      intros k Hk. cbn [w_kv set_kv next_tick]. by rewrite kv_get_set, decide_False by congruence.
  - rewrite (proj2 (String.eqb_neq _ _) Ho). eexists _, _. split; [reflexivity|]. done.
Qed.
End Facts.

(** Transferring the schema owner is a compare-and-set.  When the current
    owner is the expected one, the transfer succeeds, the epoch grows by one, the
    new owner and nobody else passes the ownership check, and a second transfer
    from the same expected owner is refused and changes nothing. *)
Theorem transfer_owner_cas {S} `{FdbLaws S} `{CborLaws NamespaceSettings id (fun _ => True)}
    env (db ns expected target other : string) (w : World S) (s : NamespaceSettings) :
  no_faults env -> settings_at db ns w s -> owner_of s = trim expected ->
  trim expected <> "" -> trim target <> "" -> trim expected <> trim target -> trim other <> "" ->
  exists s' w', transfer_namespace_schema_owner db ns expected target env w = (Ok s', w') /\
    epoch s' = u64_saturating_add (epoch s) 1 /\
    (forall actor, (enforce_namespace_schema_owner db ns actor env w').1 = Ok tt <-> actor = trim target) /\
    (exists w'', transfer_namespace_schema_owner db ns expected other env w' =
       (Err (NamespaceSchemaOwnershipConflict db ns (trim target) (trim expected)), w'') /\ w_kv w'' = w_kv w').
Proof.
  intros Henv Hs Ho He Ht Hne Hot.
  destruct (run_transfer env Henv db ns w s expected target Hs He Ht) as (r & w' & E & Hr).
  rewrite decide_True, decide_False in Hr by done. destruct Hr as (s' & -> & Hs' & Hown & Hep & _).
  exists s', w'. split; [done|]. split; [done|]. split.
  - intros actor. unfold enforce_namespace_schema_owner.
    pose proof (run_get_settings env Henv db ns w') as El. unfold settings_at in Hs'.
    destruct (kv_get (w_kv w') (namespace_settings_key db ns)) as [b|] eqn:Eb; [|by subst s'].
    rewrite Hs' in El. rewrite (bind_run _ _ _ _ _ _ El). unfold lift, enforce_schema_owner. rewrite Hown. cbn [fst].
    destruct (String.eqb_spec (trim target) actor); naive_solver.
  - destruct (run_transfer env Henv db ns w' s' expected other Hs' He Hot) as (r & w'' & E2 & Hr2).
    unfold owner_of in Hr2. rewrite Hown in Hr2. cbn [default] in Hr2. rewrite decide_False in Hr2 by (simpl; congruence).
    destruct Hr2 as [Hk ->]. exists w''. split; [|done]. rewrite E2. do 3 f_equal. simpl.
    by destruct (String.eqb_spec (trim target) "").
Qed.

#[export] Instance NamespaceSettings_eq_dec : EqDecision NamespaceSettings.
Proof. solve_decision. Defined.
#[export] Instance NamespaceSettings_countable : Countable NamespaceSettings.
Proof.
  refine (inj_countable' (fun s => (ns_database s, ns_namespace s, schema_owner_site_id s, epoch s, ns_updated_at s))
    (fun '(a, b, c, d, e) => mkNamespaceSettings a b c d e) _). by intros [].
Defined.
#[export] Instance namespace_cbor : Cbor NamespaceSettings | 100 := countable_cbor NamespaceSettings id.
#[export] Instance namespace_cbor_laws : CborLaws NamespaceSettings id (fun _ => True).
Proof. apply countable_cbor_laws. Qed.

Definition owned_world : World MemKv :=
  (set_namespace_schema_owner "db" "ns" (Some " 1 ") quiet_env empty_world).2.

Lemma transfer_owner_cas_witness :
  exists s' w', transfer_namespace_schema_owner "db" "ns" "1" "2" quiet_env owned_world = (Ok s', w') /\ epoch s' = 2.
Proof.
  destruct (transfer_owner_cas quiet_env "db" "ns" "1" "2" "3" owned_world (mkNamespaceSettings "db" "ns" (Some "1") 1 2))
    as (s' & w' & E & Hep & _).
  - apply quiet_env_ok.
  - vm_compute. reflexivity.
  - vm_compute. reflexivity.
  - vm_compute. discriminate.
  - vm_compute. discriminate.
  - vm_compute. discriminate.
  - vm_compute. discriminate.
  - exists s', w'. split; [exact E|exact Hep].
Defined.
