(* ===== verification/Jobs.v ===== *)
(** * Background jobs

    [pelago-storage/src/jobs.rs]: the job records of a namespace.  Job ids are
    UUIDs of a third-party library, a parameter. *)

From S2P Require Import Prelude Bytes Text Errors Types Encoding Subspace SchemaTypes Fdb MemFdb Cdc.

Inductive JobType :=
  | IndexBackfill (entity_type property_name : string) (index_type : IndexType)
  | StripProperty (entity_type property_name : string)
  | CdcRetention (max_retention_secs : Z) (checkpoint_aware : bool)
  | OrphanedEdgeCleanup (deleted_entity_type : string)
  | DeleteNodeCascade (entity_type node_id : string)
  | DropEntityTypeCleanup (entity_type : string).

Definition job_type_name (j : JobType) : string :=
  match j with
  | IndexBackfill _ _ _ => "IndexBackfill"
  | StripProperty _ _ => "StripProperty"
  | CdcRetention _ _ => "CdcRetention"
  | OrphanedEdgeCleanup _ => "OrphanedEdgeCleanup"
  | DeleteNodeCascade _ _ => "DeleteNodeCascade"
  | DropEntityTypeCleanup _ => "DropEntityTypeCleanup"
  end.

Inductive JobStatus := Pending | Running | Completed | Failed.

(** [progress_pct] is the bit pattern of an [f64]. *)
Record JobState := mkJobState {
  job_id : string;
  job_type : JobType;
  status : JobStatus;
  progress_cursor : option bytes;
  progress_pct : Z;
  total_items : option Z;
  processed_items : Z;
  job_created_at : Z;
  job_updated_at : Z;
  job_database : string;
  job_namespace : string;
  job_error : option string
}.

#[export] Instance JobType_eq_dec : EqDecision JobType.
Proof. solve_decision. Defined.
#[export] Instance JobStatus_eq_dec : EqDecision JobStatus.
Proof. solve_decision. Defined.
#[export] Instance JobState_eq_dec : EqDecision JobState.
Proof. solve_decision. Defined.

Definition storable_job (j : JobState) : Prop := f64_is_nan (progress_pct j) = false.

(** [Uuid::now_v7]: a string that depends on the moment it is drawn. *)
Class UuidSource := { uuid_now_v7 : nat -> string }.

Definition job_key (database namespace id : string) : bytes :=
  Tuple.build (Tuple.add_string (Sub.pack (Sub.jobs (Sub.namespace database namespace))) id).

Definition actionable (j : JobState) : bool :=
  match status j with Pending | Running => true | Completed | Failed => false end.

Section Jobs.
Context {S : Type} `{Fdb S} `{Cbor JobState} `{UuidSource}.

Definition fresh_uuid : M S string := fun env w => (Ok (uuid_now_v7 (w_tick w)), next_tick w).

Definition create_job (database namespace : string) (jt : JobType) : M S JobState :=
  id ← fresh_uuid;
  t ← now;
  let job := mkJobState id jt Pending None 0 None 0 t t database namespace None in
  value ← lift (encode_cbor job);
  db_set (job_key database namespace id) value ;;
  mret job.

Definition update_job (job : JobState) : M S unit :=
  t ← now;
  let job' := mkJobState (job_id job) (job_type job) (status job) (progress_cursor job) (progress_pct job)
    (total_items job) (processed_items job) (job_created_at job) t (job_database job) (job_namespace job)
    (job_error job) in
  value ← lift (encode_cbor job');
  db_set (job_key (job_database job) (job_namespace job) (job_id job)) value.

Definition get_job (database namespace id : string) : M S (option JobState) :=
  row ← db_get (job_key database namespace id);
  match row with
  | Some b => j ← lift (decode_cbor b); mret (Some j)
  | None => mret None
  end.

Definition job_rows (database namespace : string) : M S (list (bytes * bytes)) :=
  let sub := Sub.jobs (Sub.namespace database namespace) in
  get_range (prefix sub) (Sub.range_end sub) 1000.

Definition find_actionable_jobs (database namespace : string) : M S (list JobState) :=
  rows ← job_rows database namespace;
  fold_m rows (fun jobs kv =>
    job ← lift (decode_cbor kv.2); mret (if actionable job then jobs ++ [job] else jobs)) [].

Definition list_jobs (database namespace : string) : M S (list JobState) :=
  rows ← job_rows database namespace;
  fold_m rows (fun jobs kv => job ← lift (decode_cbor kv.2); mret (jobs ++ [job])) [].
End Jobs.

(** ** A concrete instance *)

#[export] Instance JobType_countable : Countable JobType.
Proof.
  refine (inj_countable'
    (fun j => match j with
      | IndexBackfill a b c => inl (inl (a, b, c)) | StripProperty a b => inl (inr (a, b))
      | CdcRetention a b => inr (inl (inl (a, b))) | OrphanedEdgeCleanup a => inr (inl (inr a))
      | DeleteNodeCascade a b => inr (inr (inl (a, b))) | DropEntityTypeCleanup a => inr (inr (inr a)) end)
    (fun x => match x with
      | inl (inl (a, b, c)) => IndexBackfill a b c | inl (inr (a, b)) => StripProperty a b
      | inr (inl (inl (a, b))) => CdcRetention a b | inr (inl (inr a)) => OrphanedEdgeCleanup a
      | inr (inr (inl (a, b))) => DeleteNodeCascade a b | inr (inr (inr a)) => DropEntityTypeCleanup a end) _).
  by intros [].
Defined.

#[export] Instance JobStatus_countable : Countable JobStatus.
Proof.
  refine (inj_countable
    (fun t => match t with Pending => 0 | Running => 1 | Completed => 2 | Failed => 3 end)%nat
    (fun n => match n with 0 => Some Pending | 1 => Some Running | 2 => Some Completed
                         | 3 => Some Failed | _ => None end)%nat _).
  by intros [].
Defined.

#[export] Instance JobState_countable : Countable JobState.
Proof.
  refine (inj_countable'
    (fun j => (job_id j, job_type j, status j, progress_cursor j, progress_pct j, total_items j, processed_items j,
       job_created_at j, job_updated_at j, job_database j, job_namespace j, job_error j))
    (fun '(a, b, c, d, e, f, g, h, i, j, k, l) => mkJobState a b c d e f g h i j k l) _).
  by intros [].
Defined.

#[export] Instance job_cbor : Cbor JobState | 100 := countable_cbor JobState id.
#[export] Instance job_cbor_laws : CborLaws JobState id storable_job.
Proof. apply countable_cbor_laws. Qed.

Definition tick_uuid : UuidSource := {| uuid_now_v7 := fun n => bstr (show_u (Z.of_nat n)) |}.
