(* ===== verification/SchemaRegistry.v ===== *)
(** * The schema registry

    [pelago-storage/src/schema.rs] and [cache.rs]: versioned schemas of a
    namespace, their validation, registration (local and replicated) and lookup
    through the in-memory cache. *)

From S2P Require Import Prelude Bytes Text Errors Types Encoding Subspace SchemaTypes Fdb MemFdb Cdc Namespace Jobs.

(** ** The cache *)

Module Cache.
Definition get {S} (db ns entity_type : string) : M S (option EntitySchema) :=
  w ← get_world; mret (w_cache w !! (db, ns, entity_type)).
Definition insert {S} (db ns : string) (schema : EntitySchema) : M S unit :=
  w ← get_world; put_world (set_cache w (<[(db, ns, name schema) := schema]> (w_cache w))).
Definition invalidate {S} (db ns entity_type : string) : M S unit :=
  w ← get_world; put_world (set_cache w (delete (db, ns, entity_type) (w_cache w))).
Definition clear {S} : M S unit :=
  w ← get_world; put_world (set_cache w ∅).
End Cache.

(** ** Keys and versions *)

Definition latest_version_key (sub : Subspace) (entity_type : string) : bytes :=
  Tuple.build (Tuple.add_string (Tuple.add_string (Sub.pack sub) entity_type) "latest").

Definition version_key (sub : Subspace) (entity_type : string) (v : Z) : bytes :=
  Tuple.build (Tuple.add_int (Tuple.add_string (Tuple.add_string (Sub.pack sub) entity_type) "v") v).

Definition encode_version (v : Z) : bytes := be_bytes 4 v.

Definition decode_version (b : bytes) : result Z :=
  if Nat.eqb (length b) 4 then Ok (be_val b)
  else Err (Internal ("Invalid version bytes length: " ++ bstr (show_u (Z.of_nat (length b))))).

(** [l.iter().position(|&b| b == 0)] with the parts around it. *)
Fixpoint split_null (l : bytes) : option (bytes * bytes) :=
  match l with
  | [] => None
  | b :: l' =>
      if decide (b = Byte.x00) then Some ([], l')
      else match split_null l' with Some (p, q) => Some (b :: p, q) | None => None end
  end.

Definition extract_entity_type_from_latest_key (sub : Subspace) (key : bytes) : option string :=
  match strip_prefix (prefix sub) key with
  | Some (tag :: entity_bytes) =>
      if decide (tag = Byte.x02) then
        match split_null entity_bytes with
        | Some (raw, after_entity) =>
            match from_utf8 raw with
            | Some entity_type =>
                if Nat.ltb (length after_entity) 2 then None
                else match after_entity with
                     | t :: latest_start =>
                         if decide (t = Byte.x02) then
                           match strip_prefix (sbytes "latest" ++ [Byte.x00]) latest_start with
                           | Some _ => Some entity_type
                           | None => None
                           end
                         else None
                     | [] => None
                     end
            | None => None
            end
        | None => None
        end
      else None
  | _ => None
  end.

(** ** Validation *)

Section Validate.
Context `{CharClass} `{HashIter}.

Definition name_char (c : bytes) : bool := char_alphanumeric c || bool_decide (c = [Byte.x5f]).

Fixpoint validate_property_names (l : list string) : result unit :=
  match l with
  | [] => Ok tt
  | p :: l' =>
      if String.eqb p "" then Err (SchemaValidation "Property name cannot be empty")
      else validate_property_names l'
  end.

Definition validate_edge_def (edge_name : string) (d : EdgeDef) : result unit :=
  if String.eqb edge_name "" then Err (SchemaValidation "Edge name cannot be empty")
  else
    match sort_key d with
    | Some k =>
        if bool_decide (is_Some (edge_properties d !! k)) then Ok tt
        else Err (SchemaValidation ("Edge '" ++ edge_name ++ "' sort_key '" ++ k ++ "' is not a defined edge property"))
    | None => Ok tt
    end ≫= fun _ =>
    if decide (ownership d = Independent) then
      Err (SchemaValidation ("Edge '" ++ edge_name ++ "' uses ownership=independent, which is not supported in v1"))
    else Ok tt.

Fixpoint validate_edges (l : list (string * EdgeDef)) : result unit :=
  match l with
  | [] => Ok tt
  | (n, d) :: l' => _ ← validate_edge_def n d; validate_edges l'
  end.

Definition validate_schema (s : EntitySchema) : result unit :=
  if String.eqb (name s) "" then Err (SchemaValidation "Schema name cannot be empty")
  else if negb (forallb name_char (chars (sbytes (name s)))) then
    Err (SchemaValidation ("Schema name '" ++ name s ++
      "' contains invalid characters (only alphanumeric and underscore allowed)"))
  else
    _ ← validate_property_names (map fst (hm_iter (properties s)));
    validate_edges (hm_iter (edges s)).
End Validate.

(** ** Operations *)

Section Registry.
Context {S : Type} `{Fdb S} `{Cbor EntitySchema} `{Cbor CdcEntry} `{Cbor NamespaceSettings} `{Cbor JobState}.
Context `{CharClass} `{HashIter} `{UuidSource}.

Definition schema_subspace (database namespace : string) : Subspace :=
  Sub.schema (Sub.namespace database namespace).

Definition get_schema_version (database namespace entity_type : string) (v : Z) : M S (option EntitySchema) :=
  row ← db_get (version_key (schema_subspace database namespace) entity_type v);
  match row with
  | Some b => s ← lift (decode_cbor b); mret (Some s)
  | None => mret None
  end.

(** The current version of a type, 0 when it has none. *)
Definition current_version (database namespace entity_type : string) : M S Z :=
  row ← db_get (latest_version_key (schema_subspace database namespace) entity_type);
  match row with
  | Some b => lift (decode_version b)
  | None => mret 0
  end.

(** Backfill jobs for the properties the new version indexes and the old one did
    not; failures are ignored. *)
Definition create_backfill_jobs (database namespace : string) (schema : EntitySchema) (current : Z) : M S unit :=
  if 0 <? current then
    old ← attempt (get_schema_version database namespace (name schema) current);
    match old with
    | Ok (Some old_schema) =>
        for_each (hm_iter (properties schema)) (fun pd =>
          let '(prop_name, new_def) := pd in
          let old_index := match properties old_schema !! prop_name with
                           | Some d => index d | None => IdxNone end in
          if decide (index new_def <> IdxNone /\ old_index = IdxNone) then
            _ ← attempt (create_job database namespace (IndexBackfill (name schema) prop_name (index new_def)));
            mret tt
          else mret tt)
    | _ => mret tt
    end
  else mret tt.

Definition register_schema (site_id database namespace : string) (schema : EntitySchema) : M S Z :=
  lift (validate_schema schema) ;;
  enforce_namespace_schema_owner database namespace site_id ;;
  let sub := schema_subspace database namespace in
  current ← current_version database namespace (name schema);
  let new_version := (current + 1) mod 2 ^ 32 in
  let schema := Schemas.set_version schema new_version in
  schema_bytes ← lift (encode_cbor schema);
  t ← create_transaction;
  let cdc := new_accumulator site_id in
  let t := kv_set t (latest_version_key sub (name schema)) (encode_version new_version) in
  let t := kv_set t (version_key sub (name schema) new_version) schema_bytes in
  let cdc := push cdc (SchemaRegister (name schema) new_version schema) in
  t ← flush cdc t database namespace;
  commit (fun e => Internal ("Schema registration failed: " ++ e)) t ;;
  Cache.insert database namespace schema ;;
  create_backfill_jobs database namespace schema current ;;
  mret new_version.

Definition apply_replica_schema_register (database namespace : string) (schema : EntitySchema)
    (expected_version : Z) (origin_site_id : string) : M S bool :=
  lift (validate_schema schema) ;;
  enforce_namespace_schema_owner database namespace origin_site_id ;;
  let sub := schema_subspace database namespace in
  current ← current_version database namespace (name schema);
  if expected_version <=? current then mret false
  else if negb ((current + 1) mod 2 ^ 32 =? expected_version) then
    throw (SchemaMismatch ((current + 1) mod 2 ^ 32) expected_version)
  else
    let schema := Schemas.set_version schema expected_version in
    schema_bytes ← lift (encode_cbor schema);
    t ← create_transaction;
    let t := kv_set t (latest_version_key sub (name schema)) (encode_version expected_version) in
    let t := kv_set t (version_key sub (name schema) expected_version) schema_bytes in
    commit (fun e => Internal ("Replicated schema register failed: " ++ e)) t ;;
    Cache.insert database namespace schema ;;
    create_backfill_jobs database namespace schema current ;;
    mret true.

Definition get_schema (database namespace entity_type : string) : M S (option EntitySchema) :=
  cached ← Cache.get database namespace entity_type;
  match cached with
  | Some schema => mret (Some schema)
  | None =>
      let sub := schema_subspace database namespace in
      row ← db_get (latest_version_key sub entity_type);
      match row with
      | None => mret None
      | Some b =>
          v ← lift (decode_version b);
          row ← db_get (version_key sub entity_type v);
          match row with
          | None =>
              throw (Internal ("Schema version " ++ bstr (show_u v) ++ " for " ++ entity_type ++
                " exists but data is missing"))
          | Some schema_bytes =>
              schema ← lift (decode_cbor schema_bytes);
              Cache.insert database namespace schema ;;
              mret (Some schema)
          end
      end
  end.

Definition list_schemas (database namespace : string) : M S (list string) :=
  let sub := schema_subspace database namespace in
  results ← get_range (prefix sub) (Sub.range_end sub) 1000;
  mret (foldl (fun out kv =>
    match extract_entity_type_from_latest_key sub kv.1 with
    | Some et => if decide (et ∈ out) then out else out ++ [et]
    | None => out
    end) [] results).

Definition get_latest_version (database namespace entity_type : string) : M S (option Z) :=
  row ← db_get (latest_version_key (schema_subspace database namespace) entity_type);
  match row with
  | Some b => v ← lift (decode_version b); mret (Some v)
  | None => mret None
  end.

Definition invalidate_cache (database namespace entity_type : string) : M S unit :=
  Cache.invalidate database namespace entity_type.
End Registry.

(** ** Atomicity *)

Section Atomic.
Context {S : Type} `{Fdb S} `{Cbor EntitySchema} `{Cbor CdcEntry} `{Cbor NamespaceSettings} `{Cbor JobState}.
Context `{CharClass} `{HashIter} `{UuidSource}.

Lemma steps_enforce_owner db ns a : steps same_kv (enforce_namespace_schema_owner db ns a : M S unit).
Proof. unfold enforce_namespace_schema_owner, get_namespace_settings. solve_steps. Qed.

Lemma steps_current_version db ns et : steps same_kv (current_version db ns et : M S Z).
Proof. unfold current_version. solve_steps. Qed.

Lemma steps_flush acc (t : S) db ns : steps same_kv (flush acc t db ns : M S S).
Proof. unfold flush. solve_steps. Qed.

Lemma total_cache_insert db ns s : total (Cache.insert db ns s : M S unit).
Proof. intros env w. unfold Cache.insert. rewrite run_get_world. eauto. Qed.

Lemma total_backfill db ns s c : total (create_backfill_jobs db ns s c : M S unit).
Proof.
  unfold create_backfill_jobs. case_match; [|apply total_ret].
  apply total_bind; [apply total_attempt|]. intros [[old|]|e]; [|apply total_ret..].
  apply total_for_each. intros [p d]. case_decide; [|apply total_ret].
  apply total_bind; [apply total_attempt|]. intros _. apply total_ret.
Qed.

Lemma total_publish {A} db ns s c (a : A) :
  total (Cache.insert db ns s ;; create_backfill_jobs db ns s c ;; mret a : M S A).
Proof.
  apply total_bind; [apply total_cache_insert|]. intros _.
  apply total_bind; [apply total_backfill|]. intros _. apply total_ret.
Qed.
End Atomic.

#[export] Hint Resolve steps_enforce_owner steps_current_version steps_flush : pelago.

(** Registering a schema, locally or from a replica, either
    succeeds or writes nothing: whatever fails (validation, ownership, a version
    gap, the codec, any database call), the key space is as before. *)
Theorem schema_registration_atomic {S} `{Fdb S} `{Cbor EntitySchema} `{Cbor CdcEntry} `{Cbor NamespaceSettings}
    `{Cbor JobState} `{CharClass} `{HashIter} `{UuidSource} (site db ns origin : string) (schema : EntitySchema) (v : Z) :
  errs same_kv (register_schema (S:=S) site db ns schema) /\
  errs same_kv (apply_replica_schema_register (S:=S) db ns schema v origin).
Proof.
  split.
  - unfold register_schema. do 6 (apply errs_bind; [apply _|solve_steps|intros ?]).
    apply errs_bind_total; [solve_errs|]. intros _. apply total_publish.
  - unfold apply_replica_schema_register. do 3 (apply errs_bind; [apply _|solve_steps|intros ?]).
    case_match; [solve_errs|]. case_match; [solve_errs|].
    do 2 (apply errs_bind; [apply _|solve_steps|intros ?]).
    apply errs_bind_total; [solve_errs|]. intros _. apply total_publish.
Qed.

(** ** Keys *)

Section RegistryKeys.
Context (db ns : string).
Let P := prefix (schema_subspace db ns).

Lemma latest_key_eq et : latest_version_key (schema_subspace db ns) et = P ++ (enc_str et ++ enc_str "latest").
Proof. unfold latest_version_key. tuple_norm. done. Qed.

Lemma version_key_eq et v :
  version_key (schema_subspace db ns) et v
    = P ++ (enc_str et ++ (enc_str "v" ++ Byte.x14 :: encode_int_for_index v)).
Proof. unfold version_key. tuple_norm. done. Qed.

Lemma latest_key_inj et et' :
  latest_version_key (schema_subspace db ns) et = latest_version_key (schema_subspace db ns) et' -> et = et'.
Proof.
  rewrite !latest_key_eq. intros E%app_inv_head. apply enc_str_inj in E as [-> _]; [done|..];
    rewrite <- (app_nil_r (enc_str "latest")); apply not_ff_enc_str.
Qed.

Lemma version_key_inj et v et' v' :
  i64_ok v -> i64_ok v' ->
  version_key (schema_subspace db ns) et v = version_key (schema_subspace db ns) et' v' -> et = et' /\ v = v'.
Proof.
  intros Hv Hv'. rewrite !version_key_eq. intros E%app_inv_head.
  apply enc_str_inj in E as [-> E]; [|apply not_ff_enc_str..].
  apply enc_str_inj in E as [_ E]; [|by apply not_ff_cons..].
  apply cons_tail in E as [_ E]. split; [done|]. by apply encode_int_inj.
Qed.

Lemma latest_not_version et et' v :
  latest_version_key (schema_subspace db ns) et <> version_key (schema_subspace db ns) et' v.
Proof.
  rewrite latest_key_eq, version_key_eq. intros E%app_inv_head.
  rewrite <- (app_nil_r (enc_str "latest")) in E.
  apply enc_str_inj in E as [_ E]; [|apply not_ff_enc_str..].
  apply enc_str_inj in E as [E _]; [discriminate E|done|by apply not_ff_cons].
Qed.
End RegistryKeys.

(** ** Registration *)

(** Only job records change. *)
Definition jobs_only {S} `{Fdb S} (db ns : string) (w w' : World S) : Prop :=
  (forall k, (forall r, k <> prefix (Sub.jobs (Sub.namespace db ns)) ++ r) -> kv_get (w_kv w') k = kv_get (w_kv w) k) /\
  kv_stamp (w_kv w') = kv_stamp (w_kv w) /\ w_cache w' = w_cache w /\ w_alloc w' = w_alloc w /\
  w_failpoints w' = w_failpoints w.

#[export] Instance jobs_only_frame {S} `{Fdb S} db ns : Frame (@jobs_only S _ db ns).
Proof.
  split; [split; [done|]|].
  - intros w1 w2 w3 (Ha & ? & ? & ? & ?) (Hb & ? & ? & ? & ?). split; [|intuition congruence].
    intros k Hk. by rewrite Hb, Ha.
  - unfold jobs_only. intros w w' (-> & -> & -> & ->). done.
Qed.

Section Register.
Context {S : Type} `{FdbLaws S}.
Context `{CborLaws EntitySchema canon_schema storable_schema} `{CborLaws CdcEntry canon_entry storable_entry}.
Context `{Cbor NamespaceSettings} `{CborLaws JobState id storable_job}.
Context `{CharClass} `{HashIter} `{UuidSource}.
Context (env : Env) (Henv : no_faults env) (db ns : string).
Implicit Types (w : World S) (s : EntitySchema).
Let sub := schema_subspace db ns.

Lemma steps_create_job jt : steps (jobs_only db ns) (create_job db ns jt : M S JobState).
Proof.
  unfold create_job. apply steps_bind; [apply _|intros env' w; by apply frame_idle|intros id].
  do 2 (apply steps_bind; [apply _|solve_steps|intros ?]).
  apply steps_bind; [apply _|apply steps_db_set|solve_steps].
  - apply _.
  - intros w. unfold jobs_only. cbn [w_kv set_kv]. rewrite kv_stamp_set. split; [|done].
    intros k Hk. rewrite kv_get_set, decide_False; [done|]. intros <-. eapply Hk. unfold job_key. tuple_norm. done.
Qed.

Lemma steps_backfill s c : steps (jobs_only db ns) (create_backfill_jobs db ns s c : M S unit).
Proof.
  unfold create_backfill_jobs. case_match; [|solve_steps]. apply steps_bind; [apply _| |].
  - apply steps_attempt. unfold get_schema_version. solve_steps.
  - intros [[old|]|e]; [|solve_steps..]. apply steps_for_each; [apply _|]. intros [p d]. case_decide; [|solve_steps].
    apply steps_bind; [apply _|apply steps_attempt, steps_create_job|solve_steps].
Qed.

(** The version a type is at, and who may register. *)
Definition version_at w (et : string) (v : Z) : Prop :=
  match kv_get (w_kv w) (latest_version_key sub et) with
  | Some b => decode_version b = Ok v
  | None => v = 0
  end.

Definition may_register w (site : string) : Prop :=
  match kv_get (w_kv w) (namespace_settings_key db ns) with
  | Some b => exists st : NamespaceSettings, decode_cbor b = Ok st /\ enforce_schema_owner st site = Ok tt
  | None => True
  end.

Lemma run_enforce_owner w site :
  may_register w site -> enforce_namespace_schema_owner db ns site env w = (Ok tt, next_tick (next_tick w)).
Proof.
  intros Hm. unfold enforce_namespace_schema_owner, may_register in *.
  pose proof (run_get_settings env Henv db ns w) as El.
  destruct (kv_get (w_kv w) (namespace_settings_key db ns)) as [b|].
  - destruct Hm as (st & Hd & Ho). rewrite Hd in El. rewrite (bind_run _ _ _ _ _ _ El). unfold lift. by rewrite Ho.
  - by rewrite (bind_run _ _ _ _ _ _ El).
Qed.

Lemma run_current_version w et v :
  version_at w et v -> current_version db ns et env w = (Ok v, next_tick (next_tick w)).
Proof.
  intros Hv. unfold current_version, version_at in *. fold sub. mrun Henv. case_match; [|by subst].
  unfold lift. by rewrite Hv.
Qed.

Lemma decode_encode_version v : 0 <= v < 2 ^ 32 -> decode_version (encode_version v) = Ok v.
Proof.
  intros Hv. unfold decode_version, encode_version. rewrite length_be_bytes. cbn [Nat.eqb].
  rewrite be_val_be_bytes. f_equal. apply Z.mod_small. by change (256 ^ Z.of_nat 4) with (2 ^ 32).
Qed.

(** The two writes of a registration. *)
Definition put_schema (t : S) (et : string) (v : Z) (b : bytes) : S :=
  kv_set (kv_set t (latest_version_key sub et) (encode_version v)) (version_key sub et v) b.

(** The effect of registering [s] at its version. *)
Record registered (t t' : S) s : Prop := {
  rg_latest : kv_get t' (latest_version_key sub (name s)) = Some (encode_version (version s));
  rg_version : exists b, kv_get t' (version_key sub (name s) (version s)) = Some b /\ decode_cbor b = Ok (canon_schema s);
  rg_other : forall k, (forall r, k <> prefix (Sub.cdc (Sub.namespace db ns)) ++ r) ->
    (forall r, k <> prefix (Sub.jobs (Sub.namespace db ns)) ++ r) ->
    k <> latest_version_key sub (name s) -> k <> version_key sub (name s) (version s) -> kv_get t' k = kv_get t k
}.

Lemma latest_not_sub m r et : no_null m -> m <> markers.SCHEMA ->
  latest_version_key sub et <> prefix (Sub.subspace (Sub.namespace db ns) m) ++ r.
Proof.
  intros Hm Hne. unfold sub. rewrite latest_key_eq. apply subspace_ne; [marker|done|congruence].
Qed.
Lemma version_not_sub m r et v : no_null m -> m <> markers.SCHEMA ->
  version_key sub et v <> prefix (Sub.subspace (Sub.namespace db ns) m) ++ r.
Proof.
  intros Hm Hne. unfold sub. rewrite version_key_eq. apply subspace_ne; [marker|done|congruence].
Qed.

Lemma put_schema_get t et v b k :
  kv_get (put_schema t et v b) k =
    if decide (version_key sub et v = k) then Some b
    else if decide (latest_version_key sub et = k) then Some (encode_version v) else kv_get t k.
Proof. unfold put_schema. by rewrite !kv_get_set. Qed.

(** A key space that agrees with [put_schema] off the change log and the jobs. *)
Lemma registered_intro t t' s b :
  storable_schema s -> encode_cbor s = Ok b ->
  (forall k, (forall r, k <> prefix (Sub.cdc (Sub.namespace db ns)) ++ r) ->
     (forall r, k <> prefix (Sub.jobs (Sub.namespace db ns)) ++ r) ->
     kv_get t' k = kv_get (put_schema t (name s) (version s) b) k) ->
  registered t t' s.
Proof.
  intros Hs Hb Hk. split.
  - rewrite Hk, put_schema_get, decide_False, decide_True; [done|done|..].
    + intros E. symmetry in E. by apply latest_not_version in E.
    + intros r. apply latest_not_sub; [marker|done].
    + intros r. apply latest_not_sub; [marker|done].
  - exists b. split; [|by apply decode_encode_cbor]. rewrite Hk, put_schema_get, decide_True; [done|done|..];
      intros r; apply version_not_sub; (marker || done).
  - intros k Hc Hj Hl Hv. rewrite Hk by done. rewrite put_schema_get, !decide_False; congruence.
Qed.

Lemma put_schema_log t et v b : cdc_log db ns (put_schema t et v b) = cdc_log db ns t.
Proof.
  apply cdc_log_frame. intros r. rewrite put_schema_get, !decide_False; [done|..].
  - apply latest_not_sub; [marker|done].
  - apply version_not_sub; [marker|done].
Qed.
Lemma put_schema_wf t et v b : cdc_wf db ns t -> cdc_wf db ns (put_schema t et v b).
Proof.
  apply cdc_wf_frame; [|by unfold put_schema; rewrite !kv_stamp_set].
  intros r. rewrite put_schema_get, !decide_False; [done|..].
  - apply latest_not_sub; [marker|done].
  - apply version_not_sub; [marker|done].
Qed.

(** The tail of both registrations: commit, cache, backfill. *)
Lemma run_publish {A} mk t s c (a : A) w :
  exists w', (commit mk t ;; Cache.insert db ns s ;; create_backfill_jobs db ns s c ;; mret a) env w = (Ok a, w') /\
    jobs_only db ns (set_cache (set_kv w t) (<[(db, ns, name s) := s]> (w_cache w))) w'.
Proof.
  mrun Henv. unfold Cache.insert.
  assert (Ei : forall w1 : World S, (w ← get_world; put_world (set_cache w (<[(db, ns, name s) := s]> (w_cache w)))) env w1
    = (Ok tt, set_cache w1 (<[(db, ns, name s) := s]> (w_cache w1)))) by done.
  rewrite (bind_run _ _ _ _ _ _ (Ei _)).
  destruct (total_backfill db ns s c env (set_cache (set_kv (next_tick w) t) (<[(db, ns, name s) := s]> (w_cache w))))
    as ([] & w' & Eb).
  pose proof (steps_backfill s c env (set_cache (set_kv (next_tick w) t) (<[(db, ns, name s) := s]> (w_cache w)))) as Hj.
  cbn [w_cache set_kv next_tick]. rewrite (bind_run _ _ _ _ _ _ Eb). rewrite Eb in Hj. exists w'. split; [done|exact Hj].
Qed.

Lemma jobs_only_log w w' : jobs_only db ns w w' -> cdc_log db ns (w_kv w') = cdc_log db ns (w_kv w).
Proof.
  intros (Hk & _). apply cdc_log_frame. intros r. apply Hk. intros r'. apply subspace_ne; [marker|marker|done].
Qed.

Lemma run_register site s w v :
  validate_schema s = Ok tt -> may_register w site -> version_at w (name s) v -> 0 <= v -> v + 1 < 2 ^ 32 ->
  storable_schema s -> Z.of_nat (length (prefix (cdc_subspace db ns))) < 2 ^ 32 ->
  cdc_wf db ns (w_kv w) -> stamp_ok (w_kv w) ->
  let s' := Schemas.set_version s (v + 1) in
  exists w' ts, register_schema site db ns s env w = (Ok (v + 1), w') /\
    registered (w_kv w) (w_kv w') s' /\ w_cache w' = <[(db, ns, name s) := s']> (w_cache w) /\
    cdc_log db ns (w_kv w') = cdc_log db ns (w_kv w) ++ [(kv_stamp (w_kv w),
      normalize_legacy_schema_registers (canon_entry (mkCdcEntry site ts None [SchemaRegister (name s) (v + 1) s'])))].
Proof.
  intros Hval Hown Hcur Hv0 Hv Hst Hshort Hwf Hstamp s'. unfold register_schema. rewrite Hval, run_lift.
  rewrite (bind_run _ _ _ _ _ _ (run_enforce_owner w site Hown)). set (w1 := next_tick (next_tick w)).
  rewrite (bind_run _ _ _ _ _ _ (run_current_version w1 (name s) v Hcur)). set (w2 := next_tick (next_tick w1)).
  rewrite Z.mod_small by lia. fold s'.
  destruct (encode_cbor_total s') as (b & Eb & _). rewrite Eb. mrun Henv.
  change (kv_set (kv_set (w_kv w2) _ _) _ _) with (put_schema (w_kv w) (name s') (v + 1) b).
  assert (Hst' : storable_schema s') by exact Hst.
  destruct (run_flush db ns Hshort env (push (new_accumulator site) (SchemaRegister (name s') (v + 1) s'))
    (put_schema (w_kv w) (name s') (v + 1) b) (next_tick w2)) as (t & Ef & Hlog & Hoth & _).
  { by apply put_schema_wf. }
  { unfold stamp_ok, put_schema. by rewrite !kv_stamp_set. }
  { by apply Forall_singleton. }
  { done. }
  rewrite (bind_run _ _ _ _ _ _ Ef).
  destruct (run_publish (fun e => Internal ("Schema registration failed: " ++ e)) t s' v (v + 1) (next_tick (next_tick w2)))
    as (w' & Ep & Hj).
  exists w', (env_now env (w_tick (next_tick w2))). split; [exact Ep|]. split; [|split].
  - apply (registered_intro _ _ s' b Hst' Eb). intros k Hc Hjk.
    destruct Hj as (Hj & _). rewrite (Hj k Hjk). cbn [w_kv set_cache set_kv]. by apply Hoth.
  - destruct Hj as (_ & _ & Hcache & _). rewrite Hcache. done.
  - rewrite (jobs_only_log _ _ Hj). cbn [w_kv set_cache set_kv]. rewrite Hlog, put_schema_log.
    unfold put_schema. by rewrite !kv_stamp_set.
Qed.

(** A replicated registration, in each of the three cases. *)
Lemma run_replica_register origin s w v e :
  validate_schema s = Ok tt -> may_register w origin -> version_at w (name s) v -> 0 <= v -> v + 1 < 2 ^ 32 ->
  storable_schema s ->
  exists r w', apply_replica_schema_register db ns s e origin env w = (r, w') /\
    if decide (e <= v) then r = Ok false /\ idle w w'
    else if decide (e = v + 1) then
      r = Ok true /\ registered (w_kv w) (w_kv w') (Schemas.set_version s e) /\
      w_cache w' = <[(db, ns, name s) := Schemas.set_version s e]> (w_cache w)
    else r = Err (SchemaMismatch (v + 1) e) /\ idle w w'.
Proof.
  intros Hval Hown Hcur Hv0 Hv Hst. unfold apply_replica_schema_register. rewrite Hval, run_lift.
  rewrite (bind_run _ _ _ _ _ _ (run_enforce_owner w origin Hown)). set (w1 := next_tick (next_tick w)).
  rewrite (bind_run _ _ _ _ _ _ (run_current_version w1 (name s) v Hcur)). set (w2 := next_tick (next_tick w1)).
  rewrite Z.mod_small by lia.
  destruct (decide (e <= v)) as [Hle|Hgt].
  { destruct (Z.leb_spec e v); [|lia]. eexists _, _. split; [reflexivity|]. done. }
  destruct (Z.leb_spec e v); [lia|]. destruct (decide (e = v + 1)) as [->|Hne].
  - rewrite Z.eqb_refl. cbn [negb]. set (s' := Schemas.set_version s (v + 1)).
    destruct (encode_cbor_total s') as (b & Eb & _). rewrite Eb, run_lift.
    rewrite (bind_run _ _ _ _ _ _ (run_create_transaction env Henv w2)).
    change (kv_set (kv_set (w_kv w2) _ _) _ _) with (put_schema (w_kv w) (name s') (v + 1) b).
    destruct (run_publish (fun m => Internal ("Replicated schema register failed: " ++ m))
      (put_schema (w_kv w) (name s') (v + 1) b) s' v true (next_tick w2)) as (w' & Ep & Hj).
    eexists _, w'. split; [exact Ep|]. split; [done|]. destruct Hj as (Hj & _ & Hcache & _). split; [|by rewrite Hcache].
    apply (registered_intro _ _ s' b Hst Eb). intros k Hc Hjk. rewrite (Hj k Hjk). done.
  - destruct (Z.eqb_spec (v + 1) e); [lia|]. eexists _, _. split; [reflexivity|]. done.
Qed.

Lemma registered_version_at w w' s : 
  registered (w_kv w) (w_kv w') s -> 0 <= version s < 2 ^ 32 -> version_at w' (name s) (version s).
Proof. intros [Hl _ _] Hv. unfold version_at. rewrite Hl. by apply decode_encode_version. Qed.

Lemma registered_may_register w w' s site :
  registered (w_kv w) (w_kv w') s -> may_register w site -> may_register w' site.
Proof.
  intros [_ _ Ho] Hm. unfold may_register.
  assert (Hk : exists r, namespace_settings_key db ns = prefix (Sub.subspace (Sub.namespace db ns) markers.NS) ++ r).
  { exists (enc_str "settings"). apply prefix_subspace. apply (bool_decide_unpack _). vm_compute. exact I. }
  destruct Hk as [r Hr].
  assert (Hne : forall m r', no_null m -> m <> markers.NS -> prefix (Sub.subspace (Sub.namespace db ns) markers.NS) ++ r
    <> prefix (Sub.subspace (Sub.namespace db ns) m) ++ r').
  { intros m r' Hm' Hne. apply subspace_ne; [marker|done|congruence]. }
  rewrite Ho; [exact Hm|..]; rewrite Hr.
  - intros r'. apply Hne; [marker|done].
  - intros r'. apply Hne; [marker|done].
  - unfold sub. rewrite latest_key_eq. apply Hne; [marker|done].
  - unfold sub. rewrite version_key_eq. apply Hne; [marker|done].
Qed.
End Register.

Lemma run_get_schema_version {S} `{FdbLaws S} `{Cbor EntitySchema} env (Henv : no_faults env) db ns et v (w : World S) :
  get_schema_version db ns et v env w
    = (match kv_get (w_kv w) (version_key (schema_subspace db ns) et v) with
       | Some b => s ← decode_cbor b; Ok (Some s)
       | None => Ok None
       end, next_tick (next_tick w)).
Proof.
  unfold get_schema_version. mrun Henv. case_match; [|done].
  unfold mbind, M_bind, lift. by destruct (decode_cbor _).
Qed.

(** C28: registering a schema.  The owner's registration of a valid schema
    gets the next version number; afterwards that version reads back as the
    codec's form of the schema and is the latest, every other version of every
    type reads back as before, and one entry for it is appended to the change
    log. *)
Theorem register_schema_correct {S} `{FdbLaws S} `{CborLaws EntitySchema canon_schema storable_schema}
    `{CborLaws CdcEntry canon_entry storable_entry} `{Cbor NamespaceSettings} `{CborLaws JobState id storable_job}
    `{CharClass} `{HashIter} `{UuidSource} env (site db ns : string) (s : EntitySchema) (w : World S) (v : Z) :
  no_faults env -> validate_schema s = Ok tt -> may_register db ns w site -> version_at db ns w (name s) v ->
  0 <= v -> v + 1 < 2 ^ 32 -> storable_schema s -> Z.of_nat (length (prefix (cdc_subspace db ns))) < 2 ^ 32 ->
  cdc_wf db ns (w_kv w) -> stamp_ok (w_kv w) ->
  let s' := Schemas.set_version s (v + 1) in
  exists w' ts, register_schema site db ns s env w = (Ok (v + 1), w') /\
    (get_latest_version db ns (name s) env w').1 = Ok (Some (v + 1)) /\
    (get_schema_version db ns (name s) (v + 1) env w').1 = Ok (Some (canon_schema s')) /\
    (forall et u, 0 <= u < 2 ^ 32 -> et <> name s \/ u <> v + 1 ->
       (get_schema_version db ns et u env w').1 = (get_schema_version db ns et u env w).1) /\
    cdc_log db ns (w_kv w') = cdc_log db ns (w_kv w) ++ [(kv_stamp (w_kv w),
      normalize_legacy_schema_registers (canon_entry (mkCdcEntry site ts None [SchemaRegister (name s) (v + 1) s'])))].
Proof.
  intros Henv Hval Hown Hcur Hv0 Hv Hst Hshort Hwf Hstamp s'.
  destruct (run_register env Henv db ns site s w v Hval Hown Hcur Hv0 Hv Hst Hshort Hwf Hstamp)
    as (w' & ts & E & Hreg & _ & Hlog). fold s' in Hreg.
  exists w', ts. split; [exact E|]. destruct Hreg as [Hl (b & Hb & Hd) Ho].
  change (name s') with (name s) in *. change (version s') with (v + 1) in *.
  split; [|split; [|split; [|exact Hlog]]].
  - unfold get_latest_version. mrun Henv. rewrite Hl.
    rewrite decode_encode_version by lia. done.
  - rewrite run_get_schema_version by done. cbn [fst]. rewrite Hb, Hd. done.
  - intros et u Hu Hne. rewrite !run_get_schema_version by done. cbn [fst]. rewrite Ho; [done|..].
    + intros r. apply version_not_sub; [marker|done].
    + intros r. apply version_not_sub; [marker|done].
    + intros X. symmetry in X. by apply latest_not_version in X.
    + intros [-> ->]%version_key_inj; [|unfold i64_ok; lia..]. naive_solver.
Qed.

(** C29: replicated registrations are applied in version order and
    once.  A version at or below the current one is ignored, the next version is
    installed, and ignored when delivered again, and a version beyond the next one
    is refused; only the second case writes. *)
Theorem replica_schema_in_order {S} `{FdbLaws S} `{CborLaws EntitySchema canon_schema storable_schema}
    `{CborLaws CdcEntry canon_entry storable_entry} `{Cbor NamespaceSettings} `{CborLaws JobState id storable_job}
    `{CharClass} `{HashIter} `{UuidSource} env (origin db ns : string) (s : EntitySchema) (w : World S) (v e : Z) :
  no_faults env -> validate_schema s = Ok tt -> may_register db ns w origin -> version_at db ns w (name s) v ->
  0 <= v -> v + 2 < 2 ^ 32 -> storable_schema s ->
  exists r w', apply_replica_schema_register db ns s e origin env w = (r, w') /\
    (e <= v -> r = Ok false /\ w_kv w' = w_kv w) /\
    (v + 1 < e -> r = Err (SchemaMismatch (v + 1) e) /\ w_kv w' = w_kv w) /\
    (e = v + 1 -> r = Ok true /\
       (get_schema_version db ns (name s) e env w').1 = Ok (Some (canon_schema (Schemas.set_version s e))) /\
       exists w'', apply_replica_schema_register db ns s e origin env w' = (Ok false, w'') /\ w_kv w'' = w_kv w').
Proof.
  intros Henv Hval Hown Hcur Hv0 Hv Hst.
  destruct (run_replica_register env Henv db ns origin s w v e Hval Hown Hcur Hv0 ltac:(lia) Hst) as (r & w' & E & Hr).
  exists r, w'. split; [done|]. split; [|split].
  - intros Hle. rewrite decide_True in Hr by done. destruct Hr as [-> [? _]]. done.
  - intros Hgt. rewrite !decide_False in Hr by lia. destruct Hr as [-> [? _]]. done.
  - intros ->. rewrite decide_False, decide_True in Hr by lia. destruct Hr as (-> & Hreg & _).
    split; [done|]. split.
    + destruct Hreg as [_ (b & Hb & Hd) _]. rewrite run_get_schema_version by done.
      cbn [name version Schemas.set_version] in Hb. cbn [fst]. by rewrite Hb, Hd.
    + pose proof (registered_version_at db ns w w' _ Hreg ltac:(simpl; lia)) as Hcur'.
      pose proof (registered_may_register db ns w w' _ origin Hreg Hown) as Hown'.
      destruct (run_replica_register env Henv db ns origin s w' (v + 1) (v + 1) Hval Hown' Hcur' ltac:(lia) ltac:(lia) Hst)
        as (r2 & w'' & E2 & Hr2). rewrite decide_True in Hr2 by lia. destruct Hr2 as [-> [? _]]. eauto.
Qed.

(** What the registry serves after a registration.  The process that
    registered the schema serves the schema itself from its cache; a process with
    an empty cache serves the codec's form of it, in which a timestamp default has
    become an integer and a null default is gone. *)
Theorem get_schema_after_register {S} `{FdbLaws S} `{CborLaws EntitySchema canon_schema storable_schema}
    `{CborLaws CdcEntry canon_entry storable_entry} `{Cbor NamespaceSettings} `{CborLaws JobState id storable_job}
    `{CharClass} `{HashIter} `{UuidSource} env (site db ns : string) (s : EntitySchema) (w : World S) (v : Z) :
  no_faults env -> validate_schema s = Ok tt -> may_register db ns w site -> version_at db ns w (name s) v ->
  0 <= v -> v + 1 < 2 ^ 32 -> storable_schema s -> Z.of_nat (length (prefix (cdc_subspace db ns))) < 2 ^ 32 ->
  cdc_wf db ns (w_kv w) -> stamp_ok (w_kv w) ->
  let s' := Schemas.set_version s (v + 1) in
  exists w', register_schema site db ns s env w = (Ok (v + 1), w') /\
    (get_schema db ns (name s) env w').1 = Ok (Some s') /\
    (get_schema db ns (name s) env (set_cache w' ∅)).1 = Ok (Some (canon_schema s')).
Proof.
  intros Henv Hval Hown Hcur Hv0 Hv Hst Hshort Hwf Hstamp s'.
  destruct (run_register env Henv db ns site s w v Hval Hown Hcur Hv0 Hv Hst Hshort Hwf Hstamp)
    as (w' & ts & E & Hreg & Hcache & _). fold s' in Hreg, Hcache.
  exists w'. split; [exact E|]. destruct Hreg as [Hl (b & Hb & Hd) Ho].
  change (name s') with (name s) in *. change (version s') with (v + 1) in *. unfold get_schema, Cache.get. split.
  - rewrite (bind_run _ _ env w' (Some s') w'); [done|]. rewrite run_get_world, Hcache, lookup_insert_eq. done.
  - rewrite (bind_run _ _ env _ None (set_cache w' ∅)) by done. mrun Henv. cbn [w_kv set_cache]. rewrite Hl.
    rewrite decode_encode_version by lia. mrun Henv. cbn [w_kv set_cache next_tick]. rewrite Hb, Hd. done.
Qed.

(** ** Listing *)

Lemma strip_prefix_app p l : strip_prefix p (p ++ l) = Some l.
Proof. induction p as [|b p IH]; [by destruct l|]. simpl. by rewrite decide_True. Qed.

Lemma split_null_app p l : Byte.x00 ∉ p -> split_null (p ++ Byte.x00 :: l) = Some (p, l).
Proof.
  induction p as [|b p IH]; intros Hp; cbn [app split_null]; [by rewrite decide_True|].
  apply not_elem_of_cons in Hp as [Hb Hp]. rewrite decide_False by congruence. by rewrite IH.
Qed.

Lemma valid_name_no_null `{CharClass} `{HashIter} s : validate_schema s = Ok tt -> no_null (name s).
Proof.
  unfold validate_schema. case_match; [done|]. destruct (forallb name_char _) eqn:Ef; [|done]. intros _ Hin.
  apply (chars_ascii Byte.x00) in Hin as [r Hr]; [|reflexivity].
  rewrite forallb_forall in Ef. specialize (Ef (Byte.x00 :: r) ltac:(by apply list_elem_of_In)).
  unfold name_char in Ef. rewrite char_alphanumeric_ascii in Ef by reflexivity. apply orb_prop in Ef as [Ef|Ef]; [done|].
  by apply bool_decide_eq_true in Ef.
Qed.

Lemma extract_latest db ns et :
  no_null et -> str_ok et ->
  extract_entity_type_from_latest_key (schema_subspace db ns) (latest_version_key (schema_subspace db ns) et) = Some et.
Proof.
  intros Hn Hu. unfold extract_entity_type_from_latest_key. rewrite latest_key_eq, strip_prefix_app, enc_str_app.
  rewrite decide_True by done. rewrite escape_no_null, split_null_app by done.
  by rewrite from_utf8_sbytes by done.
Qed.

Lemma extract_version db ns et v :
  no_null et ->
  extract_entity_type_from_latest_key (schema_subspace db ns) (version_key (schema_subspace db ns) et v) = None.
Proof.
  intros Hn. unfold extract_entity_type_from_latest_key. rewrite version_key_eq, strip_prefix_app, enc_str_app.
  rewrite decide_True by done. rewrite escape_no_null, split_null_app by done.
  destruct (from_utf8 _); [|done]. by case_match.
Qed.

(** The rows of a schema subspace that only registrations have written. *)
Definition registry_wf {S} `{Fdb S} (db ns : string) (t : S) : Prop :=
  forall k v, (k, v) ∈ kv_range t (prefix (schema_subspace db ns)) (Sub.range_end (schema_subspace db ns)) ->
    exists et, no_null et /\ str_ok et /\
      (k = latest_version_key (schema_subspace db ns) et \/ exists u, k = version_key (schema_subspace db ns) et u).

(** Listing the schemas of a namespace returns every registered type
    exactly once, as long as the registry has at most 1000 rows. *)
Theorem list_schemas_exact {S} `{FdbLaws S} env (db ns : string) (w : World S) :
  no_faults env -> registry_wf db ns (w_kv w) ->
  (length (kv_range (w_kv w) (prefix (schema_subspace db ns)) (Sub.range_end (schema_subspace db ns))) <= 1000)%nat ->
  exists l w', list_schemas db ns env w = (Ok l, w') /\ w_kv w' = w_kv w /\ NoDup l /\
    forall et, no_null et -> str_ok et ->
      et ∈ l <-> is_Some (kv_get (w_kv w) (latest_version_key (schema_subspace db ns) et)).
Proof.
  intros Henv Hwf Hlen. unfold list_schemas.
  destruct (run_get_range_at env Henv (prefix (schema_subspace db ns)) (Sub.range_end (schema_subspace db ns)) 1000 None w)
    as [n E]. unfold get_range. rewrite (bind_run _ _ _ _ _ _ E). cbn [snapshot] in *. rewrite take_ge by done.
  eexists _, _. split; [reflexivity|]. split; [done|]. clear E Hlen.
  set (f := fun out (kv : bytes * bytes) => _). set (rows := kv_range _ _ _) in *.
  assert (Hgen : forall l out, NoDup out -> NoDup (foldl f out l) /\ forall et, et ∈ foldl f out l <->
    et ∈ out \/ exists kv, kv ∈ l /\ extract_entity_type_from_latest_key (schema_subspace db ns) kv.1 = Some et).
  { induction l as [|kv l IH]; intros out Hnd; cbn [foldl]; [split; [done|]; set_solver|].
    destruct (IH (f out kv)) as [IH1 IH2].
    { unfold f. case_match; [|done]. case_decide; [done|]. apply NoDup_app. split; [done|].
      split; [set_solver|apply NoDup_singleton]. }
    split; [done|]. intros et. rewrite IH2. setoid_rewrite elem_of_cons.
    assert (Hf : et ∈ f out kv <-> et ∈ out \/ extract_entity_type_from_latest_key (schema_subspace db ns) kv.1 = Some et).
    { unfold f. case_match; [|naive_solver]. case_decide; [naive_solver|]. rewrite elem_of_app, list_elem_of_singleton. naive_solver. }
    rewrite Hf. naive_solver. }
  destruct (Hgen rows [] ltac:(constructor)) as [Hnd Hin]. split; [done|]. intros et Hn Hu. rewrite Hin. split.
  - intros [?%not_elem_of_nil|([k v] & Hkv & Hx)]; [done|]. cbn [fst] in Hx.
    destruct (Hwf k v Hkv) as (et' & Hn' & Hu' & [->|[u ->]]).
    + rewrite extract_latest in Hx by done. injection Hx as ->. apply kv_range_elem in Hkv as [_ ->]. eauto.
    + by rewrite extract_version in Hx.
  - intros [v Hv]. right. exists (latest_version_key (schema_subspace db ns) et, v). split; [|by apply extract_latest].
    apply kv_range_elem. split; [|done]. rewrite latest_key_eq. apply in_scan_prefix. eexists. split; [done|].
    apply not_ff_enc_str.
Qed.

(** ** A concrete registry *)

#[export] Instance schema_cbor_laws : CborLaws EntitySchema canon_schema storable_schema.
Proof. apply countable_cbor_laws. Qed.
#[local] Existing Instances ascii_class tick_uuid.

Definition person_schema : EntitySchema :=
  Schemas.with_property
    (Schemas.with_property (Schemas.new "Person") "name" (PropDefs.require (PropDefs.new PString)))
    "age" (PropDefs.with_index (PropDefs.new PInt) IdxRange).

Lemma person_storable : storable_schema person_schema.
Proof.
  unfold storable_schema, person_schema, Schemas.with_property, Schemas.new. cbn [properties edges].
  split; [|apply map_Forall_empty]. do 2 (apply map_Forall_insert_2; [done|]). apply map_Forall_empty.
Qed.

Lemma person_valid : validate_schema person_schema = Ok tt.
Proof. vm_compute. reflexivity. Qed.

Lemma register_schema_correct_witness :
  exists w' ts, register_schema "1" "db" "ns" person_schema quiet_env empty_world = (Ok 1, w') /\
    cdc_log "db" "ns" (w_kv w') = cdc_log "db" "ns" empty_kv ++ [(kv_stamp empty_kv,
      normalize_legacy_schema_registers (canon_entry (mkCdcEntry "1" ts None
        [SchemaRegister "Person" 1 (Schemas.set_version person_schema 1)])))].
Proof.
  destruct (register_schema_correct quiet_env "1" "db" "ns" person_schema empty_world 0) as (w' & ts & E & _ & _ & _ & Hlog).
  - apply quiet_env_ok.
  - apply person_valid.
  - exact I.
  - reflexivity.
  - lia.
  - lia.
  - apply person_storable.
  - vm_compute. reflexivity.
  - apply empty_kv_wf.
  - apply empty_kv_stamp.
  - exists w', ts. split; [exact E|exact Hlog].
Defined.

Lemma replica_schema_in_order_witness :
  exists w', apply_replica_schema_register "db" "ns" person_schema 3 "1" quiet_env empty_world
    = (Err (SchemaMismatch 1 3), w') /\ w_kv w' = empty_kv.
Proof.
  destruct (replica_schema_in_order quiet_env "1" "db" "ns" person_schema empty_world 0 3) as (r & w' & E & _ & Hgap & _).
  - apply quiet_env_ok.
  - apply person_valid.
  - exact I.
  - reflexivity.
  - lia.
  - lia.
  - apply person_storable.
  - destruct (Hgap ltac:(lia)) as [-> Hk]. exists w'. split; [exact E|exact Hk].
Defined.

Lemma get_schema_after_register_witness :
  exists w', register_schema "1" "db" "ns" person_schema quiet_env empty_world = (Ok 1, w') /\
    (get_schema "db" "ns" "Person" quiet_env w').1 = Ok (Some (Schemas.set_version person_schema 1)).
Proof.
  destruct (get_schema_after_register quiet_env "1" "db" "ns" person_schema empty_world 0) as (w' & E & Hg & _).
  - apply quiet_env_ok.
  - apply person_valid.
  - exact I.
  - reflexivity.
  - lia.
  - lia.
  - apply person_storable.
  - vm_compute. reflexivity.
  - apply empty_kv_wf.
  - apply empty_kv_stamp.
  - exists w'. split; [exact E|exact Hg].
Defined.

Lemma list_schemas_exact_witness :
  exists l w', list_schemas "db" "ns" quiet_env empty_world = (Ok l, w') /\ NoDup l.
Proof.
  destruct (list_schemas_exact quiet_env "db" "ns" empty_world) as (l & w' & E & _ & Hnd & _).
  - apply quiet_env_ok.
  - intros k v Hin. vm_compute in Hin. by apply not_elem_of_nil in Hin.
  - vm_compute. lia.
  - exists l, w'. split; [exact E|exact Hnd].
Defined.
