(* ===== verification/Node.v ===== *)
(** * Nodes

    [pelago-storage/src/node.rs]: creation, lookup, update and ownership transfer
    of nodes, and the application of replicated changes.  Deletion cascades to the
    edges and is in [NodeDelete]. *)

From S2P Require Import Prelude Bytes Text Errors Types Encoding Subspace SchemaTypes Fdb MemFdb Cdc Ids Index TermIndex Namespace Jobs SchemaRegistry.

(** ** Data *)

Record NodeData := mkNodeData {
  nd_properties : Props;
  nd_locality : Z;
  nd_created_at : Z;
  nd_updated_at : Z
}.

Record StoredNode := mkStoredNode {
  sn_id : string;
  sn_entity_type : string;
  sn_properties : Props;
  sn_locality : Z;
  sn_created_at : Z;
  sn_updated_at : Z
}.

Definition canon_node (d : NodeData) : NodeData :=
  mkNodeData (canon_props (nd_properties d)) (nd_locality d) (nd_created_at d) (nd_updated_at d).
Definition storable_node (d : NodeData) : Prop := storable_props (nd_properties d).

(** The node as the API returns it. *)
Definition stored_of (id entity_type : string) (d : NodeData) : StoredNode :=
  mkStoredNode id entity_type (nd_properties d) (nd_locality d) (nd_created_at d) (nd_updated_at d).

Record NodeStore := mkNodeStore { id_allocator : IdAllocator; site_id : string }.

(** [{:?}] of a value, which appears in the message of a uniqueness violation. *)
Class DebugValue := { fmt_debug : Value -> string }.

(** ** Keys and ownership *)

Definition data_key (sub : Subspace) (entity_type : string) (node_id : bytes) : bytes :=
  Tuple.build (Tuple.add_raw_bytes (Tuple.add_string (Sub.pack sub) entity_type) node_id).

Definition locality_key (sub : Subspace) (entity_type : string) (site : Z) (node_id : bytes) : bytes :=
  Tuple.build (Tuple.add_raw_bytes (Tuple.add_int (Tuple.add_string (Sub.pack sub) entity_type) site) node_id).

Definition delete_guard_key (sub : Subspace) (entity_type : string) (node_id : bytes) : bytes :=
  Tuple.build (Tuple.add_raw_bytes (Tuple.add_string (Tuple.add_string (Sub.pack sub) "__deleting") entity_type) node_id).

Definition parse_u8 (s : string) : option Z := parse_u U8_MAX (sbytes s).

Definition local_site_id (site_id : string) : option Z := parse_u8 site_id.

Definition parse_site_id (value f : string) : result Z :=
  ok_or (parse_u8 value) (InvalidValue f ("'" ++ value ++ "' is not a valid site id")).

Definition enforce_local_ownership (site_id entity_type node_id : string) (owner_site : Z) : result unit :=
  match local_site_id site_id with
  | Some local_site => if local_site =? owner_site then Ok tt else Err (VersionConflict entity_type node_id)
  | None => Ok tt
  end.

Definition parse_node_id (node_id : string) : result NodeId :=
  match NodeIds.from_str node_id with
  | inl n => Ok n
  | inr _ => Err (InvalidId node_id)
  end.

(** ** Validation *)

Section Validation.
Context `{HashIter}.

Fixpoint check_required (entity_type : string) (defs : list (string * PropertyDef)) (props : Props) : result unit :=
  match defs with
  | [] => Ok tt
  | (p, d) :: defs' =>
      if required d then
        match props !! p with
        | None | Some VNull => Err (MissingRequired entity_type p)
        | _ => check_required entity_type defs' props
        end
      else check_required entity_type defs' props
  end.

Fixpoint check_types (schema : EntitySchema) (props : list (string * Value)) : result unit :=
  match props with
  | [] => Ok tt
  | (p, v) :: props' =>
      match properties schema !! p with
      | Some d =>
          if matches (property_type d) v then check_types schema props'
          else Err (TypeMismatch p (as_str (property_type d)) (type_name v))
      | None =>
          match extras_policy (meta schema) with
          | Reject => Err (ExtraProperty p)
          | Warn | Allow => check_types schema props'
          end
      end
  end.

Definition validate_properties (entity_type : string) (schema : EntitySchema) (props : Props) : result unit :=
  _ ← check_required entity_type (hm_iter (properties schema)) props;
  check_types schema (hm_iter props).

Definition apply_defaults (schema : EntitySchema) (props : Props) : Props :=
  foldl (fun props pd =>
    match props !! pd.1 with
    | Some _ => props
    | None => match default_value pd.2 with Some v => <[pd.1 := v]> props | None => props end
    end) props (hm_iter (properties schema)).
End Validation.

(** Overlay: [merged.insert(k, v)] for every changed property. *)
Definition merge_properties `{HashIter} (old_props new_props : Props) : Props :=
  foldl (fun m kv => <[kv.1 := kv.2]> m) old_props (hm_iter new_props).

Definition unique_key (database namespace entity_type property : string) (encoded : bytes) : bytes :=
  Tuple.build (Tuple.add_raw_bytes
    (index_key_head (Sub.index (Sub.namespace database namespace)) entity_type property index_markers.UNIQUE) encoded).

(** ** Operations *)

Section NodeOps.
Context {S : Type} `{Fdb S} `{Cbor NodeData} `{Cbor EntitySchema} `{Cbor CdcEntry}.
Context `{HashIter} `{DebugValue}.

Definition require_schema (database namespace entity_type : string) : M S EntitySchema :=
  schema ← get_schema database namespace entity_type;
  lift (ok_or schema (UnregisteredType entity_type)).

Definition check_unique_constraint (database namespace entity_type property : string) (value : Value)
    : M S (option string) :=
  encoded_value ← lift (encode_value_for_index value);
  row ← db_get (unique_key database namespace entity_type property encoded_value);
  match row with
  | Some b => if Nat.eqb (length b) 9 then mret (Some (NodeIds.to_string (NodeIds.from_bytes b))) else mret None
  | None => mret None
  end.

Definition check_unique_constraint_in_txn (t : S) (database namespace entity_type property : string)
    (value : Value) (current_node_id : bytes) : M S unit :=
  encoded_value ← lift (encode_value_for_index value);
  row ← trx_get (fun e => Internal ("Unique constraint check failed: " ++ e)) t
          (unique_key database namespace entity_type property encoded_value);
  match row with
  | Some b =>
      if decide (b = current_node_id) then mret tt
      else throw (UniqueConstraintViolation entity_type property (fmt_debug value))
  | None => mret tt
  end.

(** The loop of [create_node] over the unique properties. *)
Definition check_unique_property (database namespace entity_type : string) (props : Props)
    (pd : string * PropertyDef) : M S unit :=
  let '(prop_name, prop_def) := pd in
  if decide (index prop_def = IdxUnique) then
    match props !! prop_name with
    | Some value =>
        existing ← check_unique_constraint database namespace entity_type prop_name value;
        match existing with
        | Some _ => throw (UniqueConstraintViolation entity_type prop_name (fmt_debug value))
        | None => mret tt
        end
    | None => mret tt
    end
  else mret tt.

Definition check_unique_on_create (database namespace entity_type : string) (schema : EntitySchema)
    (props : Props) : M S unit :=
  for_each (hm_iter (properties schema)) (check_unique_property database namespace entity_type props).

(** The data, index and term rows of a new node, in a transaction. *)
Definition write_new_node (t : S) (database namespace entity_type : string)
    (node_id : bytes) (index_entries : list IndexEntry) (term_additions : list TermPosting)
    (node_data : bytes) : M S S :=
  let sub := Sub.namespace database namespace in
  let t := kv_set t (data_key (Sub.data sub) entity_type node_id) node_data in
  t ← lift (write_index_entries t index_entries);
  apply_term_posting_changes t sub entity_type (mkTermPostingChanges term_additions []) 1.

Definition create_node (st : NodeStore) (database namespace entity_type : string) (properties : Props)
    : M S StoredNode :=
  schema ← require_schema database namespace entity_type;
  let properties := apply_defaults schema properties in
  lift (validate_properties entity_type schema properties) ;;
  check_unique_on_create database namespace entity_type schema properties ;;
  id ← allocate (id_allocator st) database namespace entity_type;
  let node_id := mkNodeId id.1 id.2 in
  let node_id_bytes := NodeIds.to_bytes node_id in
  created ← now;
  let d := mkNodeData properties id.1 created created in
  let sub := Sub.namespace database namespace in
  index_entries ← lift (compute_index_entries sub entity_type node_id_bytes schema properties);
  term_additions ← lift (compute_term_postings sub entity_type node_id_bytes properties);
  node_data ← lift (encode_cbor d);
  t ← create_transaction;
  let cdc := new_accumulator (site_id st) in
  t ← write_new_node t database namespace entity_type node_id_bytes index_entries term_additions node_data;
  let cdc := push cdc (NodeCreate entity_type (NodeIds.to_string node_id) properties (site_id st)) in
  t ← flush cdc t database namespace;
  Failpoints.inject "node.create.after_cdc_flush" ;;
  commit_or_internal t "create node" ;;
  mret (stored_of (NodeIds.to_string node_id) entity_type d).

Definition get_node_at_read_version (database namespace entity_type node_id : string)
    (read_version : option Z) : M S (option StoredNode) :=
  parsed ← lift (parse_node_id node_id);
  row ← get_at_read_version
          (data_key (Sub.data (Sub.namespace database namespace)) entity_type (NodeIds.to_bytes parsed)) read_version;
  match row with
  | Some b => d ← lift (decode_cbor b); mret (Some (stored_of node_id entity_type d))
  | None => mret None
  end.

Definition get_node (database namespace entity_type node_id : string) : M S (option StoredNode) :=
  get_node_at_read_version database namespace entity_type node_id None.

Definition get_nodes_batch_at_read_version (database namespace entity_type : string) (node_ids : list string)
    (read_version : option Z) : M S (list (option StoredNode)) :=
  match node_ids with
  | [] => mret []
  | _ =>
      t ← create_transaction;
      fold_m node_ids (fun out node_id =>
        parsed ← lift (parse_node_id node_id);
        row ← trx_get (fun e => Internal ("Get failed: " ++ e)) (snapshot t read_version)
                (data_key (Sub.data (Sub.namespace database namespace)) entity_type (NodeIds.to_bytes parsed));
        match row with
        | Some b => d ← lift (decode_cbor b); mret (out ++ [Some (stored_of node_id entity_type d)])
        | None => mret (out ++ [None])
        end) []
  end.

Definition get_nodes_batch (database namespace entity_type : string) (node_ids : list string)
    : M S (list (option StoredNode)) :=
  get_nodes_batch_at_read_version database namespace entity_type node_ids None.

(** The stored data of a node that must exist. *)
Definition require_node (database namespace entity_type node_id : string) (node_id_bytes : bytes) : M S NodeData :=
  row ← db_get (data_key (Sub.data (Sub.namespace database namespace)) entity_type node_id_bytes);
  b ← lift (ok_or row (NodeNotFound entity_type node_id));
  lift (decode_cbor b).

(** The unique properties whose value changes. *)
Definition unique_constraints_to_check (schema : EntitySchema) (old_props merged : Props) : list (string * Value) :=
  omap (fun pd =>
    let '(prop_name, prop_def) := pd in
    if decide (index prop_def = IdxUnique) then
      match merged !! prop_name with
      | Some new_value =>
          if is_null new_value then None
          else match old_props !! prop_name with
               | Some old_value => if value_eqb old_value new_value then None else Some (prop_name, new_value)
               | None => Some (prop_name, new_value)
               end
      | None => None
      end
    else None) (hm_iter (properties schema)).

(** The index and term rows of an updated node and its data, in a transaction. *)
Definition write_updated_node (t : S) (database namespace entity_type : string) (node_id : bytes)
    (rems adds : list IndexEntry) (term_changes : TermPostingChanges) (node_data : bytes) : M S S :=
  let sub := Sub.namespace database namespace in
  let t := clear_index_entries t rems in
  t ← lift (write_index_entries t adds);
  t ← apply_term_posting_changes t sub entity_type term_changes 0;
  mret (kv_set t (data_key (Sub.data sub) entity_type node_id) node_data).

Definition update_node (st : NodeStore) (database namespace entity_type node_id : string) (new_properties : Props)
    : M S StoredNode :=
  schema ← require_schema database namespace entity_type;
  parsed ← lift (parse_node_id node_id);
  let node_id_bytes := NodeIds.to_bytes parsed in
  let sub := Sub.namespace database namespace in
  existing ← require_node database namespace entity_type node_id node_id_bytes;
  lift (enforce_local_ownership (site_id st) entity_type node_id (nd_locality existing)) ;;
  let old_properties := nd_properties existing in
  let merged := merge_properties old_properties new_properties in
  lift (validate_properties entity_type schema merged) ;;
  let to_check := unique_constraints_to_check schema old_properties merged in
  rems ← lift (compute_index_removals sub entity_type node_id_bytes schema old_properties merged);
  adds ← lift (compute_index_entries sub entity_type node_id_bytes schema merged);
  term_changes ← lift (compute_term_posting_changes sub entity_type node_id_bytes old_properties merged);
  updated ← now;
  let d := mkNodeData merged (nd_locality existing) (nd_created_at existing) updated in
  node_data ← lift (encode_cbor d);
  t ← create_transaction;
  let cdc := new_accumulator (site_id st) in
  for_each to_check (fun pv =>
    check_unique_constraint_in_txn t database namespace entity_type pv.1 pv.2 node_id_bytes) ;;
  t ← write_updated_node t database namespace entity_type node_id_bytes rems adds term_changes node_data;
  let cdc := push cdc (NodeUpdate entity_type node_id new_properties old_properties) in
  t ← flush cdc t database namespace;
  Failpoints.inject "node.update.after_cdc_flush" ;;
  commit_or_internal t "update node" ;;
  mret (stored_of node_id entity_type d).

Definition transfer_ownership (st : NodeStore) (database namespace entity_type node_id : string)
    (target_site_id : Z) : M S (bool * Z * Z) :=
  parsed ← lift (parse_node_id node_id);
  let node_id_bytes := NodeIds.to_bytes parsed in
  let key := data_key (Sub.data (Sub.namespace database namespace)) entity_type node_id_bytes in
  existing ← require_node database namespace entity_type node_id node_id_bytes;
  let previous_site_id := nd_locality existing in
  lift (enforce_local_ownership (site_id st) entity_type node_id previous_site_id) ;;
  if previous_site_id =? target_site_id then mret (false, previous_site_id, target_site_id)
  else
    updated ← now;
    node_data ← lift (encode_cbor (mkNodeData (nd_properties existing) target_site_id (nd_created_at existing) updated));
    t ← create_transaction;
    let t := kv_set t key node_data in
    let cdc := push (new_accumulator (site_id st))
      (OwnershipTransfer entity_type node_id (bstr (show_u previous_site_id)) (bstr (show_u target_site_id))) in
    t ← flush cdc t database namespace;
    Failpoints.inject "node.transfer_ownership.after_cdc_flush" ;;
    commit_or_internal t "transfer ownership" ;;
    mret (true, previous_site_id, target_site_id).

(** ** Replicated changes *)

Definition apply_replica_node_create (database namespace entity_type node_id : string) (properties : Props)
    (home_site : string) (event_timestamp : Z) (origin_site : string) : M S bool :=
  if negb (String.eqb home_site origin_site) then throw (VersionConflict entity_type node_id)
  else
    schema ← require_schema database namespace entity_type;
    lift (validate_properties entity_type schema properties) ;;
    parsed ← lift (parse_node_id node_id);
    let node_id_bytes := NodeIds.to_bytes parsed in
    home_site_id ← lift (parse_site_id home_site "home_site");
    let sub := Sub.namespace database namespace in
    row ← db_get (data_key (Sub.data sub) entity_type node_id_bytes);
    match row with
    | Some b =>
        existing ← lift (decode_cbor b);
        mret ((nd_locality existing =? home_site_id) && props_eqb (nd_properties existing) properties)
    | None =>
        index_entries ← lift (compute_index_entries sub entity_type node_id_bytes schema properties);
        term_additions ← lift (compute_term_postings sub entity_type node_id_bytes properties);
        let d := mkNodeData properties home_site_id event_timestamp event_timestamp in
        node_data ← lift (encode_cbor d);
        t ← create_transaction;
        t ← write_new_node t database namespace entity_type node_id_bytes index_entries term_additions node_data;
        commit_or_internal t "apply replicated node create" ;;
        mret true
    end.

Definition apply_replica_node_update (database namespace entity_type node_id : string)
    (changed_properties old_properties : Props) (event_timestamp : Z) (origin_site : string) : M S bool :=
  actor_site ← lift (parse_site_id origin_site "origin_site");
  schema ← require_schema database namespace entity_type;
  parsed ← lift (parse_node_id node_id);
  let node_id_bytes := NodeIds.to_bytes parsed in
  let sub := Sub.namespace database namespace in
  existing ← require_node database namespace entity_type node_id node_id_bytes;
  let ownership_mismatch := negb (nd_locality existing =? actor_site) in
  if ownership_mismatch && (event_timestamp <=? nd_updated_at existing) then mret false
  else if negb (props_eqb (nd_properties existing) old_properties) && (event_timestamp <=? nd_updated_at existing)
  then mret false
  else
    let merged := merge_properties (nd_properties existing) changed_properties in
    lift (validate_properties entity_type schema merged) ;;
    rems ← lift (compute_index_removals sub entity_type node_id_bytes schema (nd_properties existing) merged);
    adds ← lift (compute_index_entries sub entity_type node_id_bytes schema merged);
    term_changes ← lift (compute_term_posting_changes sub entity_type node_id_bytes (nd_properties existing) merged);
    node_data ← lift (encode_cbor (mkNodeData merged
      (if ownership_mismatch then actor_site else nd_locality existing)
      (nd_created_at existing) (Z.max (nd_updated_at existing) event_timestamp)));
    t ← create_transaction;
    t ← write_updated_node t database namespace entity_type node_id_bytes rems adds term_changes node_data;
    commit_or_internal t "apply replicated node update" ;;
    mret true.

Definition apply_replica_ownership_transfer (database namespace entity_type node_id previous_site_id
    current_site_id : string) (event_timestamp : Z) (origin_site : string) : M S bool :=
  actor_site ← lift (parse_site_id origin_site "origin_site");
  previous ← lift (parse_site_id previous_site_id "previous_site_id");
  current ← lift (parse_site_id current_site_id "current_site_id");
  if negb (actor_site =? previous) then mret false
  else
    parsed ← lift (parse_node_id node_id);
    let node_id_bytes := NodeIds.to_bytes parsed in
    let key := data_key (Sub.data (Sub.namespace database namespace)) entity_type node_id_bytes in
    existing ← require_node database namespace entity_type node_id node_id_bytes;
    if negb (nd_locality existing =? previous) && (event_timestamp <? nd_updated_at existing) then mret false
    else
      node_data ← lift (encode_cbor (mkNodeData (nd_properties existing) current (nd_created_at existing) event_timestamp));
      t ← create_transaction;
      let t := kv_set t key node_data in
      commit_or_internal t "apply replicated ownership transfer" ;;
      mret true.
End NodeOps.

(** ** A concrete codec of node rows *)

#[export] Instance NodeData_eq_dec : EqDecision NodeData.
Proof. solve_decision. Defined.
#[export] Instance NodeData_countable : Countable NodeData.
Proof.
  refine (inj_countable' (fun d => (nd_properties d, nd_locality d, nd_created_at d, nd_updated_at d))
    (fun '(p, l, c, u) => mkNodeData p l c u) _). by intros [].
Defined.

#[export] Instance node_cbor : Cbor NodeData | 100 := countable_cbor NodeData canon_node.
#[export] Instance node_cbor_laws : CborLaws NodeData canon_node storable_node.
Proof. apply countable_cbor_laws. Qed.

#[export] Instance debug_type : DebugValue | 100 := {| fmt_debug := type_name |}.
