(* ===== verification/NodeAtomic.v ===== *)
(** * Nodes: atomicity

    Whatever fails in a node operation, the key space is left as it was; a failed
    creation may have used up sequence numbers.  And an operation that returns a
    value behaves as it does without faults. *)

From S2P Require Import Prelude Bytes Text Errors Types Encoding Subspace SchemaTypes Fdb MemFdb Cdc Ids Index TermIndex Namespace Jobs SchemaRegistry Node.

(** Only the counters of the allocator change. *)
Definition ids_only {S} `{Fdb S} (db ns : string) (w w' : World S) : Prop :=
  (forall k, (forall r, k <> prefix (Sub.ids (Sub.namespace db ns)) ++ r) -> kv_get (w_kv w') k = kv_get (w_kv w) k) /\
  kv_stamp (w_kv w') = kv_stamp (w_kv w).

#[export] Instance ids_only_frame {S} `{Fdb S} db ns : FrameKv (@ids_only S _ db ns).
Proof.
  split; [split; [done|]|].
  - intros w1 w2 w3 [Ha ?] [Hb ?]. split; [|congruence]. intros k Hk. by rewrite Hb, Ha.
  - unfold ids_only. by intros w w' ->.
Qed.

Section Steps.
Context {S : Type} `{Fdb S} `{Cbor NodeData} `{Cbor EntitySchema} `{Cbor CdcEntry} `{HashIter} `{DebugValue}.
Context (R : World S -> World S -> Prop) `{!FrameKv R}.

Lemma steps_cache_get db ns et : steps R (Cache.get db ns et : M S _).
Proof. unfold Cache.get. solve_steps. Qed.
Lemma steps_cache_insert db ns s : steps R (Cache.insert db ns s : M S _).
Proof. intros env w. by apply fkv_same. Qed.
Hint Resolve steps_cache_get steps_cache_insert : pelago.

Lemma steps_get_schema db ns et : steps R (get_schema db ns et : M S _).
Proof. unfold get_schema. solve_steps. Qed.
Hint Resolve steps_get_schema : pelago.
Lemma steps_require_schema db ns et : steps R (require_schema db ns et : M S _).
Proof. unfold require_schema. solve_steps. Qed.
Lemma steps_require_node db ns et id b : steps R (require_node db ns et id b : M S _).
Proof. unfold require_node. solve_steps. Qed.
Lemma steps_check_unique db ns et schema props : steps R (check_unique_on_create db ns et schema props : M S _).
Proof.
  unfold check_unique_on_create. apply steps_for_each; [apply _|]. intros [p d].
  unfold check_unique_property, check_unique_constraint. solve_steps.
Qed.
Lemma steps_check_in_txn t db ns et p v nid : steps R (check_unique_constraint_in_txn t db ns et p v nid : M S _).
Proof. unfold check_unique_constraint_in_txn. solve_steps. Qed.
Lemma steps_add_to_counter t k d : steps R (add_to_counter t k d : M S _).
Proof. unfold add_to_counter, read_i64_counter. solve_steps. Qed.
Hint Resolve steps_add_to_counter : pelago.
Lemma steps_apply_terms t sub et ch d : steps R (apply_term_posting_changes t sub et ch d : M S _).
Proof. unfold apply_term_posting_changes. solve_steps. Qed.
Hint Resolve steps_apply_terms : pelago.
Lemma steps_write_new t db ns et nid es ps b : steps R (write_new_node t db ns et nid es ps b : M S _).
Proof. unfold write_new_node. solve_steps. Qed.
Lemma steps_write_updated t db ns et nid es ps ch b : steps R (write_updated_node t db ns et nid es ps ch b : M S _).
Proof. unfold write_updated_node. solve_steps. Qed.
Lemma steps_flush_any acc t db ns : steps R (flush acc t db ns : M S _).
Proof. unfold flush. solve_steps. Qed.
End Steps.

#[export] Hint Resolve steps_get_schema steps_require_schema steps_require_node steps_check_unique steps_check_in_txn
  steps_apply_terms steps_write_new steps_write_updated steps_flush_any : pelago.

(** The allocator only writes counters. *)
Lemma steps_allocate_batch {S} `{FdbLaws S} a db ns et env (w : World S) :
  ids_only db ns w (allocate_batch_from_fdb a db ns et env w).2.
Proof.
  assert (Hkey : exists r, counter_key (Sub.ids (Sub.namespace db ns)) et (alloc_site_id a) = prefix (Sub.ids (Sub.namespace db ns)) ++ r).
  { unfold counter_key. tuple_norm. eauto. }
  unfold allocate_batch_from_fdb. set (key := counter_key _ _ _) in *. clearbody key. destruct Hkey as [rk ->]. unfold_M.
  destruct (env_fault env (w_tick w)); [by apply fkv_same|]. cbn.
  destruct (env_fault env (w_tick w + 1)%nat); [by apply fkv_same|]. cbn.
  destruct (env_fault env (w_tick w + 1 + 1)%nat); [by apply fkv_same|]. cbn.
  split; cbn [w_kv set_kv]; [|apply kv_stamp_set]. intros k Hk. rewrite kv_get_set, decide_False; [done|].
  intros <-. by eapply Hk.
Qed.

Lemma steps_allocate {S} `{FdbLaws S} a db ns et : steps (ids_only db ns) (allocate a db ns et : M S _).
Proof.
  intros env w. unfold allocate. rewrite run_get_world.
  destruct (default (0, 0) (w_alloc w !! cache_key db ns et)) as [nx be]. rewrite run_put_world.
  set (w1 := set_alloc w _). set (m := if be <=? nx then _ else _ : M S (Z * Z)).
  assert (Hm : ids_only db ns w1 (m env w1).2).
  { unfold m. destruct (be <=? nx); [|by apply fkv_same]. pose proof (steps_allocate_batch a db ns et env w1) as Hb.
    unfold mbind, M_bind. by destruct (allocate_batch_from_fdb a db ns et env w1) as [[z|e] w2]. }
  etrans; [apply (fkv_same w w1); done|]. etrans; [exact Hm|].
  unfold mbind at 1, M_bind. destruct (m env w1) as [[[id be']|e] w2]; [|done].
  by apply fkv_same.
Qed.


Definition ghost_update : result StoredNode * World MemKv :=
  update_node (mkNodeStore (mkIdAllocator 1 100) "1") "db" "ns" "Ghost" "1_0" ∅ quiet_env empty_world.


(** ** Successful runs *)

Section Settle.
Context {S : Type} `{FdbLaws S} `{Cbor NodeData} `{Cbor EntitySchema} `{Cbor CdcEntry} `{HashIter} `{DebugValue}.

Lemma settles_get_schema db ns et : settles (get_schema db ns et : M S _).
Proof. unfold get_schema, Cache.get, Cache.insert. solve_settles. Qed.
Hint Resolve settles_get_schema : pelago.

Lemma settles_allocate a db ns et : settles (allocate a db ns et : M S _).
Proof. unfold allocate, allocate_batch_from_fdb. solve_settles. Qed.
Hint Resolve settles_allocate : pelago.

Lemma settles_apply_terms t sub et ch d : settles (apply_term_posting_changes t sub et ch d : M S _).
Proof. unfold apply_term_posting_changes, add_to_counter, read_i64_counter. solve_settles. Qed.
Hint Resolve settles_apply_terms : pelago.

Lemma settles_flush acc t db ns : settles (flush acc t db ns : M S _).
Proof. unfold flush. solve_settles. Qed.
Hint Resolve settles_flush : pelago.

Lemma settles_create_node st db ns et props : settles (create_node st db ns et props : M S _).
Proof.
  unfold create_node, require_schema, check_unique_on_create, check_unique_property, check_unique_constraint, write_new_node.
  solve_settles.
Qed.

Lemma settles_update_node st db ns et id props : settles (update_node st db ns et id props : M S _).
Proof.
  unfold update_node, require_schema, require_node, check_unique_constraint_in_txn, write_updated_node. solve_settles.
Qed.
End Settle.
