(* ===== verification/NodeSpec.v ===== *)
(** * Nodes: the abstract store

    The state of the nodes of one entity type is, abstractly, a map from node ids
    to properties.  [represents] relates a key space to such a map: the data rows
    are the map, the index rows are exactly the (property, value, node) triples of
    the map, the term rows and counters are those of the map.  The operations of
    [Node] are shown to implement operations on the map.

    Three kinds of data are left out of the statements, because the code treats
    them inconsistently: properties named like a template field of the term index
    ([no_template_fields], see [template_field_double_count]), values the codec
    cannot store, such as NaN inside a map compared by value ([storable_props]),
    and an update of a float between 0.0 and -0.0 ([no_zero_flip], see
    [zero_flip_leaves_stale_entry]).  Node ids of site 255 are invisible to prefix
    scans ([valid_nid]). *)

From S2P Require Import Prelude Bytes Text Errors Types Encoding Subspace SchemaTypes Fdb MemFdb Cdc Ids Index TermIndex Namespace Jobs SchemaRegistry Node NodeAtomic.

(** ** Values in an index *)

(** Property [p] has an indexable value encoded as [enc]. *)
Definition holds (props : Props) (p : string) (enc : bytes) : Prop :=
  match props !! p with
  | Some v => v <> VNull /\ encode_value_for_index v = Ok enc
  | None => False
  end.

#[export] Instance holds_dec props p enc : Decision (holds props p enc).
Proof.
  unfold holds. destruct (props !! p) as [v|]; [|apply _].
  destruct (encode_value_for_index v) as [b|e]; [|right; naive_solver].
  destruct (decide (v <> VNull /\ b = enc)); [left|right]; naive_solver.
Defined.

Lemma holds_empty p enc : ~ holds ∅ p enc.
Proof. intros Hh. unfold holds in Hh. by rewrite lookup_empty in Hh. Qed.

(** The codec's form of the properties has the same index and term entries. *)
Lemma encode_canon v : encode_value_for_index (canon_value v) = encode_value_for_index v.
Proof. by destruct v. Qed.

Lemma holds_canon props p enc : holds (canon_props props) p enc <-> holds props p enc.
Proof.
  unfold holds, canon_props. rewrite lookup_fmap. destruct (props !! p) as [v|]; [|done]. cbn.
  rewrite encode_canon. by destruct v; simpl; split; intros [_ ?].
Qed.

Lemma extract_string_canon props f : extract_string (canon_props props) f = extract_string props f.
Proof.
  unfold extract_string, canon_props. rewrite lookup_fmap. destruct (props !! f) as [v|]; [|done]. by destruct v.
Qed.

Lemma has_term_canon props tm : has_term (canon_props props) tm <-> has_term props tm.
Proof.
  unfold has_term. assert (template_terms (canon_props props) = template_terms props) as ->.
  { unfold template_terms. by rewrite !extract_string_canon. }
  apply or_iff_compat_r. unfold canon_props. rewrite lookup_fmap.
  assert (He : forall v, encode_term_value (canon_value v) = encode_term_value v) by (by intros []).
  split.
  - intros (v & Hv & E). destruct (props !! field tm) as [v'|]; simplify_eq/=. exists v'. by rewrite <- He.
  - intros (v & -> & E). exists (canon_value v). by rewrite He.
Qed.

(** ** Index rows *)

Section IndexRows.
Context {S : Type} `{FdbLaws S} `{HashIter}.
Context (sub : Subspace) (et : string) (schema : EntitySchema).
Implicit Types (t : S) (nid enc : bytes) (p : string) (d : PropertyDef) (props : Props).

Definition row_key p d enc nid : bytes :=
  prefix (Sub.index sub) ++ (enc_str et ++ (enc_str p ++ (marker_of (index d) :: enc ++ index_tail (index d) nid))).
Definition row_val d nid : bytes := match index d with IdxUnique => nid | _ => [] end.

Definition is_indexed_by p d : Prop := properties schema !! p = Some d /\ index d <> IdxNone.

Lemma entries_rows nid props :
  exists es, compute_index_entries sub et nid schema props = Ok es /\
    (forall p d enc, is_indexed_by p d -> holds props p enc ->
       exists e, e ∈ es /\ ie_key e = row_key p d enc nid /\ entry_value e = row_val d nid) /\
    (forall e, e ∈ es -> exists p d enc, is_indexed_by p d /\ holds props p enc /\
       ie_key e = row_key p d enc nid /\ entry_value e = row_val d nid).
Proof.
  destruct (compute_index_entries_ok sub et nid schema props) as (es & E & Hin).
  exists es. split; [done|]. split.
  - intros p d enc [Hp Hd] Hh. unfold holds in Hh. destruct (props !! p) as [v|] eqn:Hv; [|done].
    destruct Hh as [Hn He]. destruct (build_index_entry_ok (Sub.index sub) et p nid d v Hd Hn) as [e Ee].
    exists e. split; [apply Hin; exists p, d, v; done|].
    apply build_index_entry_key in Ee as (b & Hb & Hk & Hval & _). rewrite He in Hb. injection Hb as <-. done.
  - intros e (p & d & v & (Hp & Hd & Hn & Ee) & Hv)%Hin.
    apply build_index_entry_key in Ee as (b & Hb & Hk & Hval & _). exists p, d, b.
    split; [done|]. split; [|done]. unfold holds. by rewrite Hv.
Qed.

Lemma row_key_inj p d enc nid p' d' enc' nid' :
  is_indexed_by p d -> is_indexed_by p' d' -> length nid = length nid' ->
  row_key p d enc nid = row_key p' d' enc' nid' ->
  p = p' /\ d = d' /\ enc = enc' /\ (index d <> IdxUnique -> nid = nid').
Proof.
  intros [Hp _] [Hp' _] Hl E. unfold row_key in E. apply app_inv_head, app_inv_head in E.
  apply enc_str_inj in E as [<- E]; [|apply not_ff_cons, marker_of_not_ff..].
  rewrite Hp in Hp'. injection Hp' as <-. apply cons_tail in E as [_ E].
  destruct (index d); cbn [index_tail] in E; rewrite ?app_nil_r in E.
  2: { by subst. }
  all: apply app_inj_2 in E as [-> ->]; done.
Qed.

(** The effect of replacing the properties [old] of a node by [new]. *)
Record index_effect t t' nid (old new : Props) : Prop := {
  ix_new : forall p d enc, is_indexed_by p d -> holds new p enc ->
    kv_get t' (row_key p d enc nid) = Some (row_val d nid);
  ix_old : forall p d enc, is_indexed_by p d -> holds old p enc -> ~ holds new p enc ->
    kv_get t' (row_key p d enc nid) = None;
  ix_other : forall k, (forall p d enc, is_indexed_by p d -> holds old p enc \/ holds new p enc ->
    k <> row_key p d enc nid) -> kv_get t' k = kv_get t k
}.

Lemma index_effect_create t nid props es t' :
  compute_index_entries sub et nid schema props = Ok es -> write_index_entries t es = Ok t' ->
  index_effect t t' nid ∅ props.
Proof.
  intros Ees Ew. destruct (entries_rows nid props) as (es' & Ees' & Hin & Hout).
  rewrite Ees in Ees'. injection Ees' as <-.
  destruct (write_index_entries_ok t es) as (t2 & E2 & _ & Hoth & Hset).
  { by eapply entries_well_built. }
  { intros e e' He He' Hk. exact (entries_key_inj sub et nid schema props es e props es e' Ees He Ees He' Hk). }
  rewrite Ew in E2. injection E2 as <-. split.
  - intros p d enc Hd Hh. destruct (Hin p d enc Hd Hh) as (e & He & <- & <-). auto.
  - intros p d enc _ Hh. by apply holds_empty in Hh.
  - intros k Hk. apply Hoth. intros (e & -> & He)%list_elem_of_fmap.
    destruct (Hout e He) as (p & d & enc & Hd & Hh & Hke & _). eapply Hk; eauto.
Qed.

Lemma index_effect_delete t nid props es :
  compute_index_entries sub et nid schema props = Ok es ->
  index_effect t (clear_index_entries t es) nid props ∅.
Proof.
  intros Ees. destruct (entries_rows nid props) as (es' & Ees' & Hin & Hout).
  rewrite Ees in Ees'. injection Ees' as <-. split.
  - intros p d enc _ Hh. by apply holds_empty in Hh.
  - intros p d enc Hd Hh _. destruct (Hin p d enc Hd Hh) as (e & He & <- & _).
    rewrite clear_index_entries_get, decide_True; [done|]. apply list_elem_of_fmap. eauto.
  - intros k Hk. rewrite clear_index_entries_get, decide_False; [done|].
    intros (e & -> & He)%list_elem_of_fmap. destruct (Hout e He) as (p & d & enc & Hd & Hh & Hke & _).
    eapply Hk; eauto.
Qed.

Lemma index_effect_update t nid old new rems adds t' :
  no_zero_flip old new ->
  compute_index_removals sub et nid schema old new = Ok rems ->
  compute_index_entries sub et nid schema new = Ok adds ->
  write_index_entries (clear_index_entries t rems) adds = Ok t' ->
  index_effect t t' nid old new.
Proof.
  intros Hz Er Ea Ew.
  destruct (run_index_update sub et nid schema old new t Hz)
    as (rems' & adds' & olds & t2 & Er' & Ea' & Eo & Ew' & Hin & Hstale & Hoth).
  assert (rems' = rems) as -> by congruence. assert (adds' = adds) as -> by congruence.
  assert (t2 = t') as -> by congruence.
  destruct (entries_rows nid new) as (es & Ees & Hnew & Hnew'). rewrite Ea in Ees. injection Ees as <-.
  destruct (entries_rows nid old) as (es & Ees & Hold & Hold'). rewrite Eo in Ees. injection Ees as <-.
  split.
  - intros p d enc Hd Hh. destruct (Hnew p d enc Hd Hh) as (e & He & <- & <-). auto.
  - intros p d enc Hd Hh Hnh. destruct (Hold p d enc Hd Hh) as (e & He & Hk & _). rewrite <- Hk.
    apply Hstale; [done|]. intros Ha. destruct (Hnew' e Ha) as (p' & d' & enc' & Hd' & Hh' & Hk' & _).
    rewrite Hk in Hk'. apply row_key_inj in Hk' as (<- & _ & <- & _); done.
  - intros k Hk. apply Hoth; intros (e & -> & He)%list_elem_of_fmap.
    + destruct (Hold' e He) as (p & d & enc & Hd & Hh & Hke & _). eapply Hk; eauto.
    + destruct (Hnew' e He) as (p & d & enc & Hd & Hh & Hke & _). eapply Hk; eauto.
Qed.

(** *** Exactness *)

(** Node ids as they are stored: nine bytes, of a site other than 255. *)
Definition valid_nid nid : Prop := length nid = 9%nat /\ not_ff nid.

(** The nodes of the type and their properties. *)
Definition NodeMap : Type := bytes -> option Props.
Definition put (N : NodeMap) nid (o : option Props) : NodeMap := fun x => if decide (x = nid) then o else N x.
Definition props_of (o : option Props) : Props := default ∅ o.

(** The index rows are the (property, value, node) triples of the map, and there
    are no others. *)
Record index_exact t (N : NodeMap) : Prop := {
  ie_rows : forall p d enc nid, is_indexed_by p d -> valid_nid nid ->
    kv_get t (row_key p d enc nid) = Some (row_val d nid) <-> holds (props_of (N nid)) p enc;
  ie_unique : forall p d enc b, is_indexed_by p d -> index d = IdxUnique ->
    kv_get t (row_key p d enc []) = Some b -> valid_nid b;
  ie_closed : forall p d r v, is_indexed_by p d -> kv_get t (row_key p d r []) = Some v ->
    exists enc nid, valid_nid nid /\ r = enc ++ index_tail (index d) nid /\ v = row_val d nid
}.

(** A key under the prefix of a property, read as a row key. *)
Lemma row_key_raw p d enc nid : row_key p d (enc ++ index_tail (index d) nid) [] = row_key p d enc nid.
Proof. unfold row_key. do 4 f_equal. by destruct (index d); cbn [index_tail]; rewrite ?app_nil_r. Qed.

Lemma row_key_raw_inj p d r p' d' enc nid :
  is_indexed_by p d -> is_indexed_by p' d' -> row_key p d r [] = row_key p' d' enc nid ->
  p = p' /\ d = d' /\ r = enc ++ index_tail (index d) nid.
Proof.
  intros [Hp _] [Hp' _] E. unfold row_key in E. apply app_inv_head, app_inv_head in E.
  apply enc_str_inj in E as [<- E]; [|apply not_ff_cons, marker_of_not_ff..].
  rewrite Hp in Hp'. injection Hp' as <-. apply cons_tail in E as [_ E].
  split; [done|]. split; [done|]. rewrite <- E. by destruct (index d); cbn [index_tail]; rewrite ?app_nil_r.
Qed.

Lemma row_key_unique p d enc nid : index d = IdxUnique -> row_key p d enc nid = row_key p d enc [].
Proof. intros Hu. unfold row_key. by rewrite Hu. Qed.

(** The values a node takes are free: no other node has them. *)
Definition unique_free t nid (new : Props) : Prop :=
  forall p d enc b, is_indexed_by p d -> index d = IdxUnique -> holds new p enc ->
    kv_get t (row_key p d enc []) = Some b -> b = nid.

Lemma index_exact_step t t' N nid new :
  index_exact t N -> valid_nid nid -> index_effect t t' nid (props_of (N nid)) (props_of new) ->
  unique_free t nid (props_of new) -> index_exact t' (put N nid new).
Proof.
  intros [Hrows Huniq Hclosed] Hnid [Hnew Hold Hoth] Hfree.
  (* a row of another node, or of a value the node neither had nor has *)
  assert (Hkeep : forall p d enc nid', is_indexed_by p d -> valid_nid nid' ->
    (index d <> IdxUnique -> nid' <> nid \/ ~ holds (props_of (N nid)) p enc /\ ~ holds (props_of new) p enc) ->
    (index d = IdxUnique -> ~ holds (props_of (N nid)) p enc /\ ~ holds (props_of new) p enc) ->
    kv_get t' (row_key p d enc nid') = kv_get t (row_key p d enc nid')).
  { intros p d enc nid' Hd Hv Hne Hu. apply Hoth. intros p2 d2 enc2 Hd2 Hh E.
    apply row_key_inj in E as (<- & <- & <- & En); [|done|done|by destruct Hv, Hnid; congruence].
    destruct (decide (index d = IdxUnique)) as [Hi|Hi]; [destruct (Hu Hi); tauto|].
    destruct (Hne Hi) as [?|[? ?]]; [by apply En in Hi|tauto]. }
  split.
  - intros p d enc nid' Hd Hv. unfold put. destruct (decide (nid' = nid)) as [->|Hne].
    + destruct (decide (holds (props_of new) p enc)) as [Hh|Hh].
      * rewrite Hnew by done. done.
      * destruct (decide (holds (props_of (N nid)) p enc)) as [Ho|Ho].
        -- rewrite Hold by done. split; [done|tauto].
        -- rewrite Hkeep by tauto. rewrite Hrows by done. tauto.
    + destruct (decide (index d = IdxUnique)) as [Hi|Hi]; [|by rewrite Hkeep by tauto; apply Hrows].
      assert (Hval : forall x, row_val d x = x) by (intros; unfold row_val; by rewrite Hi).
      destruct (decide (holds (props_of new) p enc)) as [Hh|Hh].
      * rewrite (row_key_unique p d enc nid' Hi), <- (row_key_unique p d enc nid Hi), Hnew by done.
        rewrite !Hval. split; [congruence|]. intros Hn'. apply (Hrows p d enc nid') in Hn'; [|done..].
        rewrite row_key_unique in Hn' by done. rewrite Hval in Hn'.
        destruct Hne. by eapply Hfree.
      * destruct (decide (holds (props_of (N nid)) p enc)) as [Ho|Ho].
        -- rewrite (row_key_unique p d enc nid' Hi), <- (row_key_unique p d enc nid Hi), Hold by done.
           split; [done|]. intros Hn'. apply (Hrows p d enc nid') in Hn'; [|done..]. apply (Hrows p d enc nid) in Ho; [|done..].
           rewrite row_key_unique in Hn', Ho by done. rewrite Hval in *. congruence.
        -- rewrite Hkeep by tauto. by apply Hrows.
  - intros p d enc b Hd Hi Hb. rewrite <- (row_key_unique p d enc nid Hi) in Hb.
    destruct (decide (holds (props_of new) p enc)) as [Hh|Hh].
    + rewrite Hnew in Hb by done. injection Hb as <-. unfold row_val. by rewrite Hi.
    + destruct (decide (holds (props_of (N nid)) p enc)) as [Ho|Ho]; [by rewrite Hold in Hb|].
      rewrite Hkeep in Hb by tauto. rewrite row_key_unique in Hb by done. by eapply Huniq.
  - intros p d r v Hd Hv.
    set (cand := if decide (index d = IdxUnique) then r else firstn (length r - 9) r).
    assert (Hcand : forall enc, r = enc ++ index_tail (index d) nid -> enc = cand).
    { intros enc ->. unfold cand. destruct Hnid as [Hl _]. destruct (decide (index d = IdxUnique)) as [->|Hu].
      - by rewrite app_nil_r.
      - assert (index_tail (index d) nid = nid) as -> by (by destruct (index d)). rewrite length_app, Hl.
        replace (length enc + 9 - 9)%nat with (length enc) by lia. by rewrite take_app_length. }
    assert (Hsame : (forall enc, r = enc ++ index_tail (index d) nid -> ~ holds (props_of (N nid)) p enc /\ ~ holds (props_of new) p enc) ->
      kv_get t' (row_key p d r []) = kv_get t (row_key p d r [])).
    { intros Hno. apply Hoth. intros p2 d2 enc2 Hd2 Hh E. apply row_key_raw_inj in E as (<- & <- & ->); [|done..].
      destruct (Hno enc2 eq_refl). tauto. }
    destruct (decide (r = cand ++ index_tail (index d) nid)) as [Er|Er].
    + destruct (decide (holds (props_of new) p cand)) as [Hh|Hh].
      { rewrite Er, row_key_raw, Hnew in Hv by done. injection Hv as <-. by exists cand, nid. }
      destruct (decide (holds (props_of (N nid)) p cand)) as [Ho|Ho].
      { by rewrite Er, row_key_raw, Hold in Hv. }
      rewrite Hsame in Hv; [by eapply Hclosed|]. intros enc ->%Hcand. done.
    + rewrite Hsame in Hv; [by eapply Hclosed|]. intros enc E. destruct Er. by rewrite <- (Hcand enc E).
Qed.

(** In an exact index two nodes with the same unique value are one node. *)
Lemma index_exact_unique t N p d enc nid nid' :
  index_exact t N -> is_indexed_by p d -> index d = IdxUnique -> valid_nid nid -> valid_nid nid' ->
  holds (props_of (N nid)) p enc -> holds (props_of (N nid')) p enc -> nid = nid'.
Proof.
  intros [Hrows _ _] Hd Hi Hv Hv' Hh Hh'. apply (Hrows p d enc nid) in Hh; [|done..]. apply (Hrows p d enc nid') in Hh'; [|done..].
  rewrite row_key_unique in Hh, Hh' by done. unfold row_val in *. rewrite Hi in *. congruence.
Qed.
End IndexRows.

Section Frames.
Context {S : Type} `{FdbLaws S} `{HashIter}.
Context (sub : Subspace) (et : string) (schema : EntitySchema).
Implicit Types (t : S) (nid enc : bytes).

Lemma index_exact_frame t t' N :
  (forall p d enc nid, kv_get t' (row_key sub et p d enc nid) = kv_get t (row_key sub et p d enc nid)) ->
  index_exact sub et schema t N -> index_exact sub et schema t' N.
Proof.
  intros Hk [Hr Hu Hc]. split.
  - intros p d enc nid Hd Hv. rewrite Hk. by apply Hr.
  - intros p d enc b Hd Hi. rewrite Hk. by eapply Hu.
  - intros p d r v Hd. rewrite Hk. by apply Hc.
Qed.

Lemma index_effect_ext t t' nid old new new' :
  (forall p enc, holds new p enc <-> holds new' p enc) ->
  index_effect sub et schema t t' nid old new -> index_effect sub et schema t t' nid old new'.
Proof.
  intros He [Hn Ho Hk]. split.
  - intros p d enc Hd Hh. apply Hn; [done|]. by apply He.
  - intros p d enc Hd Hh Hnh. apply Ho; [done..|]. by rewrite He.
  - intros k Hne. apply Hk. intros p d enc Hd Hh. apply Hne; [done|]. by rewrite <- He.
Qed.

Lemma row_not_term p d enc nid : ~ term_key_of (Sub.index sub) et (row_key sub et p d enc nid).
Proof.
  intros (m & r & E & Hm). unfold row_key in E. apply app_inv_head, app_inv_head in E.
  rewrite enc_str_app in E. apply cons_tail in E as [<- _]. by destruct Hm as [?|[?|?]].
Qed.

(** The term index only depends on its own keys. *)
Lemma listed_frame t t' nid tms :
  (forall k, term_key_of (Sub.index sub) et k -> kv_get t' k = kv_get t k) ->
  listed sub et t nid tms -> listed sub et t' nid tms.
Proof. intros Hk Hl tm. rewrite Hk; [apply Hl|apply term_key_posting]. Qed.

Lemma term_rows_frame t t' tm :
  (forall k, term_key_of (Sub.index sub) et k -> kv_get t' k = kv_get t k) ->
  term_rows sub et t' tm = term_rows sub et t tm.
Proof. intros Hk. apply term_rows_ext. intros r _. apply Hk, term_key_posting. Qed.

Lemma df_exact_frame t t' :
  (forall k, term_key_of (Sub.index sub) et k -> kv_get t' k = kv_get t k) ->
  df_exact sub et t -> df_exact sub et t'.
Proof. intros Hk Hd tm. rewrite (term_rows_frame t t') by done. rewrite Hk by apply term_key_df. apply Hd. Qed.

Lemma n_docs_frame t t' n :
  (forall k, term_key_of (Sub.index sub) et k -> kv_get t' k = kv_get t k) ->
  n_docs sub et t n -> n_docs sub et t' n.
Proof. intros Hk [Hn ?]. split; [|done]. rewrite Hk by apply term_key_n_docs. done. Qed.

Lemma listed_ext t nid tms tms' :
  (forall tm, tm ∈ tms <-> tm ∈ tms') -> listed sub et t nid tms -> listed sub et t nid tms'.
Proof. intros He Hl tm. rewrite <- He. apply Hl. Qed.
End Frames.

Lemma all_terms_empty `{HashIter} : all_terms (∅ : Props) = [].
Proof.
  unfold all_terms, value_terms. assert (hm_iter (∅ : Props) = []) as ->; [|done].
  apply Permutation_nil_r. rewrite hm_iter_perm. by rewrite map_to_list_empty.
Qed.

(** ** The representation *)

Section Represents.
Context {S : Type} `{FdbLaws S} `{HashIter} `{CborLaws NodeData canon_node storable_node}.
Context (db ns et : string) (schema : EntitySchema).
Implicit Types (t : S) (nid : bytes) (N : NodeMap).
Let sub := Sub.namespace db ns.

Definition node_key nid : bytes := data_key (Sub.data sub) et nid.
Definition data_prefix : bytes := prefix (Sub.data sub) ++ enc_str et.

Lemma node_key_eq nid : node_key nid = data_prefix ++ nid.
Proof. unfold node_key, data_key, data_prefix. tuple_norm. done. Qed.

(** The number of data rows of the type. *)
Definition doc_rows t : Z := Z.of_nat (length (keys_in t data_prefix (data_prefix ++ [Byte.xff]))).

Definition data_is t nid (o : option Props) : Prop :=
  match o with
  | Some props => exists b d, kv_get t (node_key nid) = Some b /\ decode_cbor b = Ok d /\ nd_properties d = props
  | None => kv_get t (node_key nid) = None
  end.

Record represents t N : Prop := {
  rp_data : forall nid, valid_nid nid -> data_is t nid (N nid);
  rp_index : index_exact sub et schema t N;
  rp_terms : forall nid, valid_nid nid -> listed sub et t nid (all_terms (props_of (N nid)));
  rp_df : df_exact sub et t;
  rp_docs : n_docs sub et t (doc_rows t);
  rp_fields : forall nid props, N nid = Some props -> no_template_fields props;
  rp_closed : forall r v, not_ff r -> kv_get t (data_prefix ++ r) = Some v -> valid_nid r;
  rp_postings : forall tm r, not_ff r -> is_Some (kv_get t (posting_key_of sub et tm r)) -> valid_nid r
}.

(** The counters are not about to overflow. *)
Definition room t : Prop :=
  (forall tm, term_rows sub et t tm < 2 ^ 63 - 1) /\ doc_rows t < 2 ^ 63 - 1.

Definition present (o : option Props) : Z := match o with Some _ => 1 | None => 0 end.

Lemma data_not_idx nid k : term_key_of (Sub.index sub) et k -> k <> node_key nid.
Proof.
  intros (m & r & -> & _) E. rewrite (node_key_eq nid) in E. unfold data_prefix in E. rewrite <- app_assoc in E.
  revert E. apply subspace_ne; [marker|marker|done].
Qed.

Lemma data_not_row nid p d enc nid' : row_key sub et p d enc nid' <> node_key nid.
Proof.
  intros E. rewrite (node_key_eq nid) in E. unfold row_key, data_prefix in E. rewrite <- app_assoc in E.
  revert E. apply subspace_ne; [marker|marker|done].
Qed.

Lemma doc_rows_step t t' nid o :
  valid_nid nid -> (forall k, k <> node_key nid -> (forall r, k = data_prefix ++ r -> kv_get t' k = kv_get t k)) ->
  (is_Some (kv_get t' (node_key nid)) <-> o = true) ->
  doc_rows t' = doc_rows t + (if o then 1 else 0) - (if decide (is_Some (kv_get t (node_key nid))) then 1 else 0).
Proof.
  intros [Hl Hf] Hk Ho. unfold doc_rows.
  assert (Hs : in_scan data_prefix (data_prefix ++ [Byte.xff]) (node_key nid)).
  { rewrite (node_key_eq nid). apply in_scan_prefix. eauto. }
  assert (Hsame : forall k, k <> node_key nid -> in_scan data_prefix (data_prefix ++ [Byte.xff]) k -> kv_get t' k = kv_get t k).
  { intros k Hne (r & -> & _)%in_scan_prefix. by eapply Hk. }
  destruct (decide (is_Some (kv_get t (node_key nid)))) as [Hp|Hp], o.
  - rewrite (count_same t t'); [lia|]. intros k Hin.
    destruct (decide (k = node_key nid)) as [->|]; [|by rewrite Hsame]. tauto.
  - rewrite (count_added t' t _ _ (node_key nid)); [lia|done|..].
    + apply eq_None_not_Some. rewrite Ho. done.
    + done.
    + intros k Hne Hin. by rewrite Hsame.
  - rewrite (count_added t t' _ _ (node_key nid)); [lia|done|..].
    + by apply eq_None_not_Some.
    + tauto.
    + intros k Hne Hin. by rewrite Hsame.
  - rewrite (count_same t t'); [lia|]. intros k Hin.
    destruct (decide (k = node_key nid)) as [->|]; [|by rewrite Hsame]. rewrite Ho. naive_solver.
Qed.

Lemma data_is_present t nid o : data_is t nid o -> (if decide (is_Some (kv_get t (node_key nid))) then 1 else 0) = present o.
Proof. destruct o; simpl; [intros (b & d & -> & _)|intros ->]; by case_decide; naive_solver. Qed.

(** A transition of one node. *)
Lemma represents_step t t' N nid new :
  represents t N -> valid_nid nid ->
  index_exact sub et schema t' (put N nid new) ->
  listed sub et t' nid (all_terms (props_of new)) ->
  (forall tm nid', not_ff nid' -> nid' <> nid ->
     kv_get t' (posting_key_of sub et tm nid') = kv_get t (posting_key_of sub et tm nid')) ->
  df_exact sub et t' -> n_docs sub et t' (doc_rows t + (present new - present (N nid))) ->
  data_is t' nid new -> (forall r, r <> nid -> kv_get t' (data_prefix ++ r) = kv_get t (data_prefix ++ r)) ->
  (forall props, new = Some props -> no_template_fields props) ->
  represents t' (put N nid new).
Proof.
  intros [Hd Hi Ht Hdf Hn Hf Hcl Hpo] Hv Hi' Hl' Ho' Hdf' Hn' Hd' Hr' Hf'. split.
  - intros nid' Hv'. unfold put. case_decide as He; [by subst|]. specialize (Hd nid' Hv').
    unfold data_is in *. rewrite (node_key_eq nid'), Hr' by done. rewrite (node_key_eq nid') in Hd. done.
  - done.
  - intros nid' Hv'. unfold put. case_decide as He; [by subst|]. intros tm.
    rewrite Ho' by (done || apply Hv'). by apply Ht.
  - done.
  - replace (doc_rows t') with (doc_rows t + (present new - present (N nid))); [done|].
    rewrite (doc_rows_step t t' nid (match new with Some _ => true | None => false end)); [|done|..].
    + rewrite (data_is_present t nid (N nid) (Hd nid Hv)). destruct new; simpl; lia.
    + intros k Hne r ->. apply Hr'. intros ->. by rewrite (node_key_eq nid) in Hne.
    + destruct new; simpl in Hd'; [destruct Hd' as (b & d & -> & _)|rewrite Hd']; naive_solver.
  - intros nid' props. unfold put. case_decide; [by apply Hf'|by apply Hf].
  - intros r v Hr Hg. destruct (decide (r = nid)) as [->|Hne]; [done|]. rewrite Hr' in Hg by done. by eapply Hcl.
  - intros tm r Hr Hg. destruct (decide (r = nid)) as [->|Hne]; [done|]. rewrite Ho' in Hg by done. by eapply Hpo.
Qed.

(** *** The writes of the operations *)

Definition off_nodes (t t' : S) : Prop :=
  (forall k, (forall r, k <> prefix (Sub.data sub) ++ r) -> (forall r, k <> prefix (Sub.index sub) ++ r) ->
     kv_get t' k = kv_get t k) /\ kv_stamp t' = kv_stamp t.

Lemma entries_written t nid props es :
  compute_index_entries sub et nid schema props = Ok es ->
  exists t', write_index_entries t es = Ok t' /\ kv_stamp t' = kv_stamp t /\
    (forall k, (forall p d enc, k <> row_key sub et p d enc nid) -> kv_get t' k = kv_get t k).
Proof.
  intros Ees. destruct (entries_rows sub et schema nid props) as (es' & Ees' & _ & Hout).
  rewrite Ees in Ees'. injection Ees' as <-.
  destruct (write_index_entries_ok t es) as (t' & E & Hs & Hoth & _).
  { by eapply entries_well_built. }
  { intros e e' He He' Hk. exact (entries_key_inj sub et nid schema props es e props es e' Ees He Ees He' Hk). }
  exists t'. split; [done|]. split; [done|]. intros k Hk. apply Hoth.
  intros (e & -> & He)%list_elem_of_fmap. destruct (Hout e He) as (p & d & enc & _ & _ & Hke & _).
  by eapply Hk.
Qed.

Lemma term_not_row p d enc nid k : term_key_of (Sub.index sub) et k -> k <> row_key sub et p d enc nid.
Proof. intros Hk ->. by apply row_not_term in Hk. Qed.

Lemma node_key_not_row p d enc nid nid' : node_key nid <> row_key sub et p d enc nid'.
Proof. intros E. symmetry in E. by apply data_not_row in E. Qed.

Lemma data_prefix_not_row r p d enc nid : data_prefix ++ r <> row_key sub et p d enc nid.
Proof. rewrite <- (node_key_eq r). apply node_key_not_row. Qed.

Lemma data_prefix_not_term r : ~ term_key_of (Sub.index sub) et (data_prefix ++ r).
Proof. rewrite <- (node_key_eq r). intros Hk. by apply (data_not_idx r) in Hk. Qed.

Lemma node_key_inj nid nid' : node_key nid = node_key nid' -> nid = nid'.
Proof. rewrite (node_key_eq nid), (node_key_eq nid'). apply app_inv_head. Qed.

Lemma decode_stored d b : storable_props (nd_properties d) -> encode_cbor d = Ok b -> decode_cbor b = Ok (canon_node d).
Proof. intros Hs E. by apply decode_encode_cbor. Qed.

Lemma canon_terms props tm : tm ∈ all_terms props <-> tm ∈ all_terms (canon_props props).
Proof. by rewrite !elem_of_all_terms, has_term_canon. Qed.

Lemma canon_fields props : no_template_fields props -> no_template_fields (canon_props props).
Proof. intros [Ha Hb]. unfold no_template_fields, canon_props. by rewrite !lookup_fmap, Ha, Hb. Qed.

Lemma term_key_in_index k : term_key_of (Sub.index sub) et k -> exists r, k = prefix (Sub.index sub) ++ r.
Proof. intros (m & r & -> & _). eauto. Qed.

Lemma run_write_new_node env t N nid d es ps b w :
  no_faults env -> represents t N -> room t -> valid_nid nid -> N nid = None ->
  no_template_fields (nd_properties d) -> storable_props (nd_properties d) ->
  compute_index_entries sub et nid schema (nd_properties d) = Ok es ->
  compute_term_postings sub et nid (nd_properties d) = Ok ps -> encode_cbor d = Ok b ->
  unique_free sub et schema t nid (nd_properties d) ->
  exists t' w', write_new_node t db ns et nid es ps b env w = (Ok t', w') /\ idle w w' /\
    represents t' (put N nid (Some (canon_props (nd_properties d)))) /\
    kv_get t' (node_key nid) = Some b /\ off_nodes t t'.
Proof.
  intros Henv HR [Hmax Hdocs] Hv HN Hf Hst Ees Eps Eb Hfree. pose proof HR as [Hd Hi Ht Hdf Hn _ _].
  unfold write_new_node. fold sub. set (t1 := kv_set t (data_key (Sub.data sub) et nid) b).
  assert (Hg1 : forall k, k <> node_key nid -> kv_get t1 k = kv_get t k).
  { intros k Hk. unfold t1. fold (node_key nid). rewrite kv_get_set, decide_False; [done|congruence]. }
  destruct (entries_written t1 nid _ es Ees) as (t2 & Ew & Hs2 & Hg2). rewrite Ew, run_lift.
  assert (Hterm : forall k, term_key_of (Sub.index sub) et k -> kv_get t2 k = kv_get t k).
  { intros k Hk. rewrite Hg2 by (intros; by apply term_not_row). apply Hg1. by apply data_not_idx. }
  rewrite compute_term_postings_eq in Eps. injection Eps as <-.
  pose proof (create_changes_ok sub et nid (nd_properties d) Hf) as Hch.
  destruct (run_apply_changes sub et env t2 nid _ _ _ (doc_rows t) 1 w Henv (proj2 Hv) Hch) as
    (t3 & w3 & E3 & Hw3 & Hl3 & Hdf3 & Hn3 & Ho3 & Hk3 & Hs3).
  { apply (listed_frame sub et t); [done|]. specialize (Ht nid Hv). rewrite HN in Ht.
    cbn [props_of default] in Ht. by rewrite all_terms_empty in Ht. }
  { by apply (df_exact_frame sub et t). }
  { intros tm. by rewrite (term_rows_frame sub et t). }
  { by apply (n_docs_frame sub et t). }
  { unfold doc_rows in *. lia. }
  assert (Hrow3 : forall p dd enc nid', kv_get t3 (row_key sub et p dd enc nid') = kv_get t2 (row_key sub et p dd enc nid')).
  { intros. apply Hk3, row_not_term. }
  assert (Hnode3 : forall r, kv_get t3 (data_prefix ++ r) = kv_get t1 (data_prefix ++ r)).
  { intros r. rewrite Hk3 by apply data_prefix_not_term. apply Hg2. intros. apply data_prefix_not_row. }
  assert (Hrow : kv_get t3 (node_key nid) = Some b).
  { rewrite (node_key_eq nid), Hnode3, <- (node_key_eq nid). unfold t1. fold (node_key nid).
    by rewrite kv_get_set, decide_True. }
  exists t3, w3. split; [exact E3|]. split; [done|]. split; [|split; [done|]].
  - apply (represents_step t); [done|done|..].
    + apply (index_exact_frame sub et schema t2); [done|]. apply (index_exact_step sub et schema t1).
      * apply (index_exact_frame sub et schema t); [|done]. intros. apply Hg1, data_not_row.
      * done.
      * rewrite HN. apply (index_effect_ext sub et schema _ _ _ _ (nd_properties d)); [intros; symmetry; apply holds_canon|].
        by eapply index_effect_create.
      * intros p dd enc b' Hdd Hu Hh. cbn [props_of default] in Hh. apply (proj1 (holds_canon (nd_properties d) p enc)) in Hh.
        rewrite Hg1 by apply data_not_row. exact (Hfree p dd enc b' Hdd Hu Hh).
    + apply (listed_ext sub et _ _ _ _ (canon_terms _) Hl3).
    + intros tm nid' Hff Hne. rewrite (Ho3 tm nid' Hff Hne). apply Hterm, term_key_posting.
    + done.
    + rewrite HN. cbn [present]. replace (doc_rows t + (1 - 0)) with (doc_rows t + 1) by lia. done.
    + exists b, (canon_node d). split; [done|]. split; [by apply decode_stored|done].
    + intros r Hr. rewrite Hnode3. apply Hg1. rewrite (node_key_eq nid). intros E%app_inv_head. done.
    + intros props [= <-]. by apply canon_fields.
  - split; [|rewrite Hs3, Hs2; apply kv_stamp_set]. intros k Hkd Hki.
    rewrite Hk3 by (intros [r ->]%term_key_in_index; by eapply Hki).
    rewrite Hg2 by (intros p dd enc ->; eapply Hki; reflexivity). apply Hg1.
    intros ->. rewrite (node_key_eq nid) in Hkd. unfold data_prefix in Hkd. eapply Hkd. by rewrite <- app_assoc.
Qed.

Lemma run_write_updated_node env t N nid old d rems adds ch b w :
  no_faults env -> represents t N -> room t -> valid_nid nid -> N nid = Some old ->
  no_template_fields (nd_properties d) -> storable_props (nd_properties d) -> no_zero_flip old (nd_properties d) ->
  compute_index_removals sub et nid schema old (nd_properties d) = Ok rems ->
  compute_index_entries sub et nid schema (nd_properties d) = Ok adds ->
  compute_term_posting_changes sub et nid old (nd_properties d) = Ok ch -> encode_cbor d = Ok b ->
  unique_free sub et schema t nid (nd_properties d) ->
  exists t' w', write_updated_node t db ns et nid rems adds ch b env w = (Ok t', w') /\ idle w w' /\
    represents t' (put N nid (Some (canon_props (nd_properties d)))) /\
    kv_get t' (node_key nid) = Some b /\ off_nodes t t'.
Proof.
  intros Henv HR [Hmax Hdocs] Hv HN Hf Hst Hz Er Ea Ech Eb Hfree. pose proof HR as [Hd Hi Ht Hdf Hn _ _].
  unfold write_updated_node. fold sub.
  assert (Hrem : forall e, e ∈ rems -> exists p dd enc, ie_key e = row_key sub et p dd enc nid).
  { intros e He. destruct (compute_index_removals_ok sub et nid schema old (nd_properties d)) as (rems' & Er' & Hin).
    rewrite Er in Er'. injection Er' as <-. apply Hin in He as (p & dd & v & (_ & _ & _ & Ee) & _).
    apply build_index_entry_key in Ee as (enc & _ & Hk & _). eauto. }
  set (t1 := clear_index_entries t rems).
  assert (Hg1 : forall k, (forall p dd enc, k <> row_key sub et p dd enc nid) -> kv_get t1 k = kv_get t k).
  { intros k Hk. unfold t1. rewrite clear_index_entries_get, decide_False; [done|].
    intros (e & -> & He)%list_elem_of_fmap. destruct (Hrem e He) as (p & dd & enc & Hke). by eapply Hk. }
  destruct (entries_written t1 nid _ adds Ea) as (t2 & Ew & Hs2 & Hg2). rewrite Ew, run_lift.
  assert (Hterm : forall k, term_key_of (Sub.index sub) et k -> kv_get t2 k = kv_get t k).
  { intros k Hk. rewrite Hg2, Hg1; [done|intros; by apply term_not_row..]. }
  destruct (compute_changes_ok sub et nid old (nd_properties d) (proj2 Hv)) as (ch' & Ech' & Hch).
  rewrite Ech in Ech'. injection Ech' as <-.
  destruct (run_apply_changes sub et env t2 nid _ _ ch (doc_rows t) 0 w Henv (proj2 Hv) Hch) as
    (t3 & w3 & E3 & Hw3 & Hl3 & Hdf3 & Hn3 & Ho3 & Hk3 & Hs3).
  { apply (listed_frame sub et t); [done|]. specialize (Ht nid Hv). by rewrite HN in Ht. }
  { by apply (df_exact_frame sub et t). }
  { intros tm. by rewrite (term_rows_frame sub et t). }
  { by apply (n_docs_frame sub et t). }
  { unfold doc_rows in *. lia. }
  rewrite (bind_run _ _ _ _ _ _ E3). fold (node_key nid). set (t4 := kv_set t3 (node_key nid) b).
  assert (Hg4 : forall k, k <> node_key nid -> kv_get t4 k = kv_get t3 k).
  { intros k Hk. unfold t4. rewrite kv_get_set, decide_False; [done|congruence]. }
  assert (Hterm4 : forall k, term_key_of (Sub.index sub) et k -> kv_get t4 k = kv_get t3 k).
  { intros k Hk. apply Hg4. by apply data_not_idx. }
  assert (Hnode : forall r, r <> nid -> kv_get t4 (data_prefix ++ r) = kv_get t (data_prefix ++ r)).
  { intros r Hr. rewrite Hg4 by (rewrite (node_key_eq nid); by intros E%app_inv_head).
    rewrite Hk3 by apply data_prefix_not_term. rewrite Hg2, Hg1; [done|intros; apply data_prefix_not_row..]. }
  assert (Hrow : kv_get t4 (node_key nid) = Some b) by (unfold t4; by rewrite kv_get_set, decide_True).
  exists t4, w3. split; [done|]. split; [done|]. split; [|split; [done|]].
  - apply (represents_step t); [done|done|..].
    + apply (index_exact_frame sub et schema t2).
      { intros. rewrite Hg4 by apply data_not_row. apply Hk3, row_not_term. }
      apply (index_exact_step sub et schema t); [done|done|..].
      * rewrite HN. apply (index_effect_ext sub et schema _ _ _ _ (nd_properties d)); [intros; symmetry; apply holds_canon|].
        by eapply index_effect_update.
      * intros p dd enc b' Hdd Hu Hh. cbn [props_of default] in Hh. apply (proj1 (holds_canon (nd_properties d) p enc)) in Hh. exact (Hfree p dd enc b' Hdd Hu Hh).
    + apply (listed_frame sub et t3); [done|]. apply (listed_ext sub et _ _ _ _ (canon_terms _) Hl3).
    + intros tm nid' Hff Hne. rewrite Hterm4 by apply term_key_posting. rewrite (Ho3 tm nid' Hff Hne).
      apply Hterm, term_key_posting.
    + by apply (df_exact_frame sub et t3).
    + rewrite HN. cbn [present]. apply (n_docs_frame sub et t3); [done|].
      by replace (doc_rows t + (1 - 1)) with (doc_rows t + 0) by lia.
    + exists b, (canon_node d). split; [done|]. split; [by apply decode_stored|done].
    + done.
    + intros props [= <-]. by apply canon_fields.
  - split; [|unfold t4; rewrite kv_stamp_set, Hs3, Hs2; apply clear_index_entries_stamp]. intros k Hkd Hki.
    rewrite Hg4 by (intros ->; rewrite (node_key_eq nid) in Hkd; unfold data_prefix in Hkd;
      eapply Hkd; by rewrite <- app_assoc).
    rewrite Hk3 by (intros [r ->]%term_key_in_index; by eapply Hki).
    rewrite Hg2, Hg1; [done|..]; (intros p dd enc ->; eapply Hki; reflexivity).
Qed.

(** The representation only depends on the data rows of the type and the index
    subspace. *)
Lemma represents_rows t t' N :
  (forall r, kv_get t' (data_prefix ++ r) = kv_get t (data_prefix ++ r)) ->
  (forall r, kv_get t' (prefix (Sub.index sub) ++ r) = kv_get t (prefix (Sub.index sub) ++ r)) ->
  represents t N -> represents t' N.
Proof.
  intros Hdp Hi [Rd Ri Rt Rf Rn Rp Rc Ro].
  assert (Hterm : forall k, term_key_of (Sub.index sub) et k -> kv_get t' k = kv_get t k).
  { intros k [r ->]%term_key_in_index. apply Hi. }
  split.
  - intros nid Hv. specialize (Rd nid Hv). unfold data_is in *.
    rewrite (node_key_eq nid), Hdp, <- (node_key_eq nid). done.
  - apply (index_exact_frame sub et schema t); [|done]. intros. apply Hi.
  - intros nid Hv. apply (listed_frame sub et t); auto.
  - by apply (df_exact_frame sub et t).
  - apply (n_docs_frame sub et t); [done|]. replace (doc_rows t') with (doc_rows t); [done|].
    unfold doc_rows. f_equal. symmetry. apply count_same. intros k (r & -> & _)%in_scan_prefix. by rewrite Hdp.
  - done.
  - intros r v Hr. rewrite Hdp. by apply Rc.
  - intros tm r Hr. rewrite Hterm by apply term_key_posting. by apply Ro.
Qed.

Lemma represents_frame t t' N :
  (forall r, kv_get t' (prefix (Sub.data sub) ++ r) = kv_get t (prefix (Sub.data sub) ++ r)) ->
  (forall r, kv_get t' (prefix (Sub.index sub) ++ r) = kv_get t (prefix (Sub.index sub) ++ r)) ->
  represents t N -> represents t' N.
Proof.
  intros Hd Hi. apply represents_rows; [|done]. intros r. unfold data_prefix. rewrite <- app_assoc. apply Hd.
Qed.

Lemma room_frame t t' :
  (forall r, kv_get t' (prefix (Sub.data sub) ++ r) = kv_get t (prefix (Sub.data sub) ++ r)) ->
  (forall r, kv_get t' (prefix (Sub.index sub) ++ r) = kv_get t (prefix (Sub.index sub) ++ r)) ->
  room t -> room t'.
Proof.
  intros Hd Hi [Hm Hn]. split.
  - intros tm. rewrite (term_rows_frame sub et t); [done|]. intros k [r ->]%term_key_in_index. apply Hi.
  - unfold doc_rows in *. rewrite (count_same t t'); [done|].
    intros k (r & -> & _)%in_scan_prefix. unfold data_prefix. by rewrite <- app_assoc, Hd.
Qed.

Lemma unique_key_row p d enc : index d = IdxUnique -> unique_key db ns et p enc = row_key sub et p d enc [].
Proof.
  intros Hu. unfold unique_key, row_key, index_key_head. tuple_norm. rewrite Hu. cbn [marker_of index_tail].
  by rewrite app_nil_r.
Qed.
End Represents.

(** ** Reads and checks *)

(** Everything but the cache and the clock is as before. *)
Definition same_store {S} (w w' : World S) : Prop :=
  w_kv w' = w_kv w /\ w_alloc w' = w_alloc w /\ w_failpoints w' = w_failpoints w.
#[export] Instance same_store_preorder {S} : PreOrder (@same_store S).
Proof. split; [done|]. unfold same_store. intros ? ? ?. intuition congruence. Qed.
Lemma idle_same_store {S} (w w' : World S) : idle w w' -> same_store w w'.
Proof. unfold idle, same_store. tauto. Qed.

Section Checks.
Context {S : Type} `{FdbLaws S} `{HashIter} `{Cbor EntitySchema} `{DebugValue}.
Context (env : Env) (Henv : no_faults env) (db ns et : string) (schema : EntitySchema).
Implicit Types (w : World S) (props : Props).

(** The schema the registry serves for the type. *)
Definition serves w : Prop :=
  w_cache w !! (db, ns, et) = Some schema \/
  w_cache w !! (db, ns, et) = None /\ exists b v b',
    kv_get (w_kv w) (latest_version_key (schema_subspace db ns) et) = Some b /\ decode_version b = Ok v /\
    kv_get (w_kv w) (version_key (schema_subspace db ns) et v) = Some b' /\ decode_cbor b' = Ok schema.

Lemma run_require_schema w :
  serves w -> exists w', require_schema db ns et env w = (Ok schema, w') /\ same_store w w'.
Proof.
  intros Hs. assert (exists w', get_schema db ns et env w = (Ok (Some schema), w') /\ same_store w w') as (w' & E & Hw).
  { unfold get_schema, Cache.get. destruct Hs as [Hc|(Hc & b & v & b' & Hl & Hv & Hk & Hd)].
    - rewrite (bind_run _ _ env w (Some schema) w) by (by rewrite run_get_world, Hc). eexists. split; [reflexivity|]. done.
    - rewrite (bind_run _ _ env w None w) by (by rewrite run_get_world, Hc). mrun Henv. rewrite Hl, Hv. mrun Henv.
      cbn [w_kv next_tick]. rewrite Hk, Hd, run_lift. eexists. split; [reflexivity|]. done. }
  exists w'. split; [|done]. unfold require_schema. by rewrite (bind_run _ _ _ _ _ _ E).
Qed.

(** The unique values of [props] are not null and not taken. *)
Definition unique_ok (t : S) props : Prop :=
  forall p d v, is_indexed_by schema p d -> index d = IdxUnique -> props !! p = Some v ->
    v <> VNull /\ forall enc b, encode_value_for_index v = Ok enc ->
      kv_get t (unique_key db ns et p enc) = Some b -> length b <> 9%nat.

Lemma run_check_property props p d w :
  exists r w', check_unique_property db ns et props (p, d) env w = (r, w') /\ idle w w' /\
    (r = Ok tt <-> (index d = IdxUnique -> forall v, props !! p = Some v -> v <> VNull /\
      forall enc b, encode_value_for_index v = Ok enc ->
        kv_get (w_kv w) (unique_key db ns et p enc) = Some b -> length b <> 9%nat)).
Proof.
  unfold check_unique_property, check_unique_constraint.
  destruct (decide (index d = IdxUnique)) as [Hu|Hu]; [|exists (Ok tt), w; naive_solver].
  destruct (props !! p) as [v|]; [|exists (Ok tt), w; naive_solver].
  destruct (encode_value_for_index v) as [enc|e] eqn:Ev.
  - destruct (kv_get (w_kv w) (unique_key db ns et p enc)) as [b|] eqn:Eb.
    + destruct (Nat.eqb_spec (length b) 9) as [Hl|Hl].
      * rewrite (bind_run _ _ env w (Some (NodeIds.to_string (NodeIds.from_bytes b))) (next_tick (next_tick w))).
        -- eexists _, _. split; [reflexivity|]. split; [done|]. split; [done|]. intros Hc.
           destruct (Hc Hu v eq_refl) as [_ Hc2]. by destruct (Hc2 enc b Ev Eb).
        -- mrun Henv. rewrite Eb. by destruct (Nat.eqb_spec (length b) 9).
      * rewrite (bind_run _ _ env w None (next_tick (next_tick w))).
        -- eexists _, _. split; [reflexivity|]. split; [done|]. split; [|done]. intros _ _ v' [= <-].
           split; [by apply encode_value_len_indep in Ev|]. intros enc' b' E' Hb'. rewrite Ev in E'. injection E' as <-. congruence.
        -- mrun Henv. rewrite Eb. by destruct (Nat.eqb_spec (length b) 9).
    + rewrite (bind_run _ _ env w None (next_tick (next_tick w))) by (mrun Henv; by rewrite Eb).
      eexists _, _. split; [reflexivity|]. split; [done|]. split; [|done]. intros _ _ v' [= <-].
      split; [by apply encode_value_len_indep in Ev|]. intros enc' b' E' Hb'. rewrite Ev in E'. injection E' as <-. congruence.
  - rewrite (bind_run_err _ _ env w e w) by done. eexists _, _. split; [reflexivity|]. split; [done|]. split; [done|].
    intros Hc. destruct (Hc Hu v eq_refl) as [Hn _]. destruct (encode_value_ok v Hn) as [? ?]. congruence.
Qed.

Lemma run_check_unique props w :
  exists r w', check_unique_on_create db ns et schema props env w = (r, w') /\ idle w w' /\
    (r = Ok tt <-> unique_ok (w_kv w) props).
Proof.
  destruct (for_each_checks env (hm_iter (properties schema)) (check_unique_property db ns et props)
    (fun pd w => index pd.2 = IdxUnique -> forall v, props !! pd.1 = Some v -> v <> VNull /\
      forall enc b, encode_value_for_index v = Ok enc ->
        kv_get (w_kv w) (unique_key db ns et pd.1 enc) = Some b -> length b <> 9%nat) w) as (r & w' & E & Hw & Hr).
  - intros [p d] w1. apply run_check_property.
  - intros [p d] w1 w2 (-> & _). done.
  - exists r, w'. split; [done|]. split; [done|]. rewrite Hr. split.
    + intros Hc p d v [Hp _] Hu Hv. apply (Hc (p, d)); [by apply elem_of_hm_iter|done|done].
    + intros Hc [p d] Hin%elem_of_hm_iter Hu v Hv. cbn [fst snd] in *. apply (Hc p d v); [|done|done]. split; [done|by rewrite Hu].
Qed.

(** In an exact index every row of a unique value is a node id. *)
Lemma unique_ok_free (t : S) N nid props :
  index_exact (Sub.namespace db ns) et schema t N -> unique_ok t props ->
  unique_free (Sub.namespace db ns) et schema t nid props.
Proof.
  intros [_ Hu] Hok p d enc b Hd Hi Hh Hb. unfold holds in Hh. destruct (props !! p) as [v|] eqn:Hv; [|done].
  destruct Hh as [_ He]. destruct (Hok p d v Hd Hi Hv) as [_ Hl].
  rewrite <- (unique_key_row db ns et p d enc Hi) in Hb. destruct (Hl enc b He Hb).
  rewrite (unique_key_row db ns et p d enc Hi) in Hb. by destruct (Hu p d enc b Hd Hi Hb).
Qed.
End Checks.

(** ** Creation *)

Section Create.
Context {S : Type} `{FdbLaws S} `{HashIter} `{CborLaws NodeData canon_node storable_node} `{Cbor EntitySchema}.
Context `{CborLaws CdcEntry canon_entry storable_entry} `{DebugValue}.
Context (st : NodeStore) (db ns et : string) (schema : EntitySchema).
Implicit Types (w : World S) (N : NodeMap) (props : Props).
Let sub := Sub.namespace db ns.
Let a := id_allocator st.

(** A store in a state that represents [N]: its numbers are fresh, and the
    counters have room. *)
Record store_ok w N : Prop := {
  so_rep : represents db ns et schema (w_kv w) N;
  so_room : room db ns et (w_kv w);
  so_serves : serves db ns et schema w;
  so_alloc : alloc_inv a w db ns et;
  so_fresh : forall q, next_id a w db ns et <= q < 2 ^ 64 -> N (NodeIds.to_bytes (mkNodeId (alloc_site_id a) q)) = None
}.

(** The change log is ready for another entry. *)
Record log_ok (t : S) : Prop := {
  lo_short : Z.of_nat (length (prefix (cdc_subspace db ns))) < 2 ^ 32;
  lo_wf : cdc_wf db ns t;
  lo_stamp : stamp_ok t
}.

(** The end of a mutation of nodes: [t] was obtained from [t0] without touching
    the log; flush, failpoint and commit add the entry and nothing else. *)
Lemma run_finish_nodes {A} env acc (t0 t : S) N fp action (x : A) w :
  no_faults env -> no_failpoints w -> log_ok t0 -> represents db ns et schema t N ->
  (forall r, kv_get t (prefix (cdc_subspace db ns) ++ r) = kv_get t0 (prefix (cdc_subspace db ns) ++ r)) ->
  kv_stamp t = kv_stamp t0 -> Forall storable_op (acc_operations acc) -> acc_operations acc <> [] ->
  exists ts w', (t ← flush acc t db ns; Failpoints.inject fp ;; commit_or_internal t action ;; mret x) env w = (Ok x, w') /\
    w_cache w' = w_cache w /\ w_alloc w' = w_alloc w /\ no_failpoints w' /\
    represents db ns et schema (w_kv w') N /\
    (forall m r, no_null m -> m <> markers.CDC ->
      kv_get (w_kv w') (prefix (Sub.subspace sub m) ++ r) = kv_get t (prefix (Sub.subspace sub m) ++ r)) /\
    cdc_log db ns (w_kv w') = cdc_log db ns t0 ++ [(kv_stamp t0, normalize_legacy_schema_registers (canon_entry
      (mkCdcEntry (acc_site acc) ts None (acc_operations acc))))] /\
    (blt (kv_stamp t0) STAMP_MAX -> cdc_wf db ns (w_kv w')).
Proof.
  intros Henv Hfp [Hshort Hwf Hst] HR Hcdc Hstamp Hops Hne.
  destruct (run_finish db ns Hshort env acc t fp action x w Henv Hfp)
    as (t' & ts & w' & E & <- & Hc & Ha & Hf & Hlog & Hoth & Hwf').
  { by apply (cdc_wf_frame db ns t0). }
  { unfold stamp_ok. by rewrite Hstamp. }
  { done. }
  { done. }
  assert (Hsub : forall m r, no_null m -> m <> markers.CDC ->
    kv_get (w_kv w') (prefix (Sub.subspace sub m) ++ r) = kv_get t (prefix (Sub.subspace sub m) ++ r)).
  { intros m r Hm Hn. apply Hoth. intros r'. apply subspace_ne; [done|marker|done]. }
  exists ts, w'. split; [exact E|]. split; [done|]. split; [done|]. split; [done|]. split.
  { apply (represents_frame db ns et schema t); [intros r; apply Hsub; [marker|done]..|done]. }
  split; [exact Hsub|]. rewrite Hstamp in Hlog, Hwf'. split; [|exact Hwf'].
  rewrite Hlog. f_equal. by apply cdc_log_frame.
Qed.

(** The allocator has numbers left, of a site other than 255. *)
Record alloc_ok w : Prop := {
  ao_batch : 0 < alloc_batch_size a;
  ao_site : 0 <= alloc_site_id a < 255;
  ao_room : counter a w db ns et + alloc_batch_size a < 2 ^ 64
}.

Definition next_node w : NodeId := mkNodeId (alloc_site_id a) (next_id a w db ns et).

Lemma next_node_ok w : alloc_ok w -> alloc_inv a w db ns et -> node_id_ok (next_node w) /\ 0 <= next_id a w db ns et < 2 ^ 64.
Proof.
  intros [Hb Hs Hr] (Hc & Hn & Hbe). unfold node_id_ok, next_node, u8_ok, u64_ok. cbn [site seq].
  unfold next_id. destruct (batch w db ns et) as [nx be]. cbn [fst snd] in *.
  destruct (Z.leb_spec be nx); lia.
Qed.

Lemma valid_node_bytes n : node_id_ok n -> site n <> 255 -> valid_nid (NodeIds.to_bytes n).
Proof.
  intros [Hs Hq] Hn. split; [apply length_node_bytes|]. apply not_ff_cons.
  intros E. apply (f_equal u8b) in E. rewrite u8b_b8 in E. change (u8b Byte.xff) with 255 in E.
  unfold u8_ok in Hs. rewrite Z.mod_small in E; lia.
Qed.

Lemma ids_frame w w' m r :
  allocates a w w' db ns et -> no_null m -> m <> markers.IDS ->
  kv_get (w_kv w') (prefix (Sub.subspace sub m) ++ r) = kv_get (w_kv w) (prefix (Sub.subspace sub m) ++ r).
Proof.
  intros (_ & _ & _ & [Hk _] & _) Hm Hne. apply Hk. unfold counter_key. tuple_norm.
  apply subspace_ne; [done|marker|done].
Qed.

(** The accepted properties of a new node. *)
Record accepts w props : Prop := {
  ac_valid : validate_properties et schema props = Ok tt;
  ac_unique : unique_ok db ns et schema (w_kv w) props;
  ac_fields : no_template_fields props;
  ac_storable : storable_props props
}.

Lemma run_create_node env w N props :
  no_faults env -> no_failpoints w -> store_ok w N -> log_ok (w_kv w) -> alloc_ok w ->
  accepts w (apply_defaults schema props) ->
  let props' := apply_defaults schema props in
  let nid := NodeIds.to_bytes (next_node w) in
  exists created ts w', create_node st db ns et props env w
      = (Ok (mkStoredNode (NodeIds.to_string (next_node w)) et props' (alloc_site_id a) created created), w') /\
    represents db ns et schema (w_kv w') (put N nid (Some (canon_props props'))) /\
    (exists b, kv_get (w_kv w') (node_key db ns et nid) = Some b /\
      decode_cbor b = Ok (mkNodeData (canon_props props') (alloc_site_id a) created created)) /\
    alloc_inv a w' db ns et /\ next_id a w db ns et < next_id a w' db ns et /\
    cdc_log db ns (w_kv w') = cdc_log db ns (w_kv w) ++ [(kv_stamp (w_kv w),
      normalize_legacy_schema_registers (canon_entry (mkCdcEntry (site_id st) ts None
        [NodeCreate et (NodeIds.to_string (next_node w)) props' (site_id st)])))] /\
    (blt (kv_stamp (w_kv w)) STAMP_MAX -> cdc_wf db ns (w_kv w')).
Proof.
  intros Henv Hfp [HR Hroom Hserve Hinv Hfresh] Hlok Hao Hacc props' nid.
  pose proof Hacc as [Hval Huniq Hff Hsto]. fold props' in Hval, Huniq, Hff, Hsto. pose proof Hao as [Hb Hsite Hcnt].
  destruct (next_node_ok w Hao Hinv) as [Hid Hq].
  assert (Hnid : valid_nid nid) by (apply valid_node_bytes; [done|simpl; lia]).
  unfold create_node. fold a.
  destruct (run_require_schema env Henv db ns et schema w Hserve) as (w1 & E1 & Hw1).
  rewrite (bind_run _ _ _ _ _ _ E1). fold props'. rewrite Hval, run_lift.
  destruct (run_check_unique env Henv db ns et schema props' w1) as (r & w2 & E2 & Hw2 & Hr).
  destruct Hw1 as (Hk1 & Ha1 & Hf1). rewrite Hk1 in Hr. assert (r = Ok tt) as -> by (by apply Hr). clear Hr.
  rewrite (bind_run _ _ _ _ _ _ E2).
  assert (Hs2 : same_store w w2) by (unfold same_store, idle in *; intuition congruence).
  destruct Hs2 as (Hk2 & Ha2 & Hf2).
  assert (Hc2 : counter a w2 db ns et = counter a w db ns et) by (unfold counter; by rewrite Hk2).
  assert (Hb2 : batch w2 db ns et = batch w db ns et) by (unfold batch; by rewrite Ha2).
  assert (Hn2 : next_id a w2 db ns et = next_id a w db ns et) by (unfold next_id; by rewrite Hc2, Hb2).
  destruct (run_allocate a env w2 db ns et Henv Hb) as (w3 & E3 & Hal).
  { unfold alloc_inv. by rewrite Hc2, Hb2. }
  { by rewrite Hc2. }
  rewrite (bind_run _ _ _ _ _ _ E3). rewrite Hn2. cbn [fst snd].
  change (mkNodeId (alloc_site_id a) (next_id a w db ns et)) with (next_node w).
  fold nid sub. rewrite run_now. set (created := env_now env (w_tick w3)).
  set (d := mkNodeData props' (alloc_site_id a) created created).
  destruct (compute_index_entries_ok sub et nid schema props') as (es & Ees & _). rewrite Ees, run_lift.
  rewrite compute_term_postings_eq, run_lift.
  destruct (encode_cbor_total d) as (b & Eb & _). rewrite Eb. mrun Henv. cbn [w_kv next_tick].
  assert (Hfr : forall m r, no_null m -> m <> markers.IDS ->
    kv_get (w_kv w3) (prefix (Sub.subspace sub m) ++ r) = kv_get (w_kv w) (prefix (Sub.subspace sub m) ++ r)).
  { intros m r Hm Hne. rewrite <- Hk2. by apply ids_frame. }
  assert (HR3 : represents db ns et schema (w_kv w3) N).
  { apply (represents_frame db ns et schema (w_kv w)); [intros r; apply Hfr; [marker|done]..|done]. }
  destruct (run_write_new_node db ns et schema env (w_kv w3) N nid d es (map (posting sub et nid) (all_terms props')) b
    (next_tick (next_tick w3)) Henv HR3) as (t4 & w4 & E4 & Hw4 & HR4 & Hrow4 & [Hoff4 Hst4]).
  { apply (room_frame db ns et (w_kv w)); [intros r; apply Hfr; [marker|done]..|done]. }
  { done. }
  { apply Hfresh. split; [lia|apply Hq]. }
  { done. }
  { done. }
  { done. }
  { apply compute_term_postings_eq. }
  { done. }
  { apply (unique_ok_free db ns et schema (w_kv w3) N); [apply HR3|].
    intros p dd v Hd Hu Hv. destruct (Huniq p dd v Hd Hu Hv) as [Hn Hl]. split; [done|].
    intros enc b' He Hb'. apply (Hl enc b' He). rewrite (unique_key_row db ns et p dd enc Hu) in Hb' |- *.
    rewrite <- Hb'. symmetry. apply Hfr; [marker|done]. }
  rewrite (bind_run _ _ _ _ _ _ E4).
  assert (Hcdc : forall r, kv_get t4 (prefix (cdc_subspace db ns) ++ r) = kv_get (w_kv w) (prefix (cdc_subspace db ns) ++ r)).
  { intros r. rewrite Hoff4 by (intros ?; apply subspace_ne; [marker|marker|done]). apply Hfr; [marker|done]. }
  destruct (run_finish_nodes env (push (new_accumulator (site_id st))
    (NodeCreate et (NodeIds.to_string (next_node w)) props' (site_id st))) (w_kv w) t4 (put N nid (Some (canon_props props'))) "node.create.after_cdc_flush" "create node"
    (stored_of (NodeIds.to_string (next_node w)) et d) w4 Henv) as (ts & w5 & E5 & _ & Ha5 & _ & HR5 & Hsub5 & Hlog5 & Hwf5).
  { unfold no_failpoints. destruct Hw4 as (_ & _ & _ & ->). destruct Hal as (_ & _ & _ & _ & _ & Hfp3).
    cbn [w_failpoints next_tick]. rewrite Hfp3, Hf2. exact Hfp. }
  { done. }
  { exact HR4. }
  { exact Hcdc. }
  { rewrite Hst4, <- Hk2. apply Hal. }
  { by apply Forall_singleton. }
  { done. }
  exists created, ts, w5. split; [exact E5|]. split; [exact HR5|]. split.
  { exists b. split; [|exact (decode_stored d b Hsto Eb)].
    rewrite <- Hrow4. rewrite (node_key_eq db ns et nid). unfold data_prefix. rewrite <- app_assoc. apply Hsub5; [marker|done]. }
  assert (Hc5' : counter a w5 db ns et = counter a w3 db ns et).
  { unfold counter. f_equal. unfold counter_key. tuple_norm.
    etrans; [apply (Hsub5 markers.IDS); (marker || done)|].
    apply Hoff4; intros r; apply (subspace_ne db ns markers.IDS); (marker || done). }
  assert (Hb5 : batch w5 db ns et = batch w3 db ns et).
  { unfold batch. rewrite Ha5. by destruct Hw4 as (_ & _ & -> & _). }
  destruct Hal as (Hlt & Hinv3 & _). split; [|split; [|split]].
  - unfold alloc_inv in *. by rewrite Hc5', Hb5.
  - unfold next_id in *. rewrite Hc5', Hb5, Hc2, Hb2 in *. done.
  - exact Hlog5.
  - exact Hwf5.
Qed.

(** A creation that succeeds has passed the checks. *)
Lemma create_node_checks env w props node w' :
  no_faults env -> serves db ns et schema w -> create_node st db ns et props env w = (Ok node, w') ->
  validate_properties et schema (apply_defaults schema props) = Ok tt /\
  unique_ok db ns et schema (w_kv w) (apply_defaults schema props).
Proof.
  intros Henv Hs. unfold create_node.
  destruct (run_require_schema env Henv db ns et schema w Hs) as (w1 & E1 & (Hk1 & _)).
  rewrite (bind_run _ _ _ _ _ _ E1). intros (u & w2 & Ev & E)%bind_ok.
  unfold lift in Ev. injection Ev as Ev ->. destruct u. split; [exact Ev|].
  destruct (run_check_unique env Henv db ns et schema (apply_defaults schema props) w2) as (r & w3 & E3 & _ & Hr).
  apply bind_ok in E as (u & w4 & E4 & _). rewrite E3 in E4. injection E4 as -> ->. destruct u.
  rewrite <- Hk1. by apply Hr.
Qed.
End Create.

(** ** Update *)

Lemma run_get_node {S} `{FdbLaws S} `{Cbor NodeData} env (Henv : no_faults env) db ns et id n (w : World S) :
  parse_node_id id = Ok n ->
  (get_node db ns et id env w).1 =
    match kv_get (w_kv w) (node_key db ns et (NodeIds.to_bytes n)) with
    | Some b => d ← decode_cbor b; Ok (Some (stored_of id et d))
    | None => Ok None
    end.
Proof.
  intros Hp. unfold get_node, get_node_at_read_version. rewrite Hp. mrun Henv. cbn [snapshot].
  fold (node_key db ns et (NodeIds.to_bytes n)). case_match; [|done].
  unfold mbind, M_bind, lift. by destruct (decode_cbor _).
Qed.

Lemma parse_to_string n : node_id_ok n -> parse_node_id (NodeIds.to_string n) = Ok n.
Proof. intros Hn. unfold parse_node_id. by rewrite from_str_to_string. Qed.

Section Update.
Context {S : Type} `{FdbLaws S} `{HashIter} `{CborLaws NodeData canon_node storable_node} `{Cbor EntitySchema}.
Context `{CborLaws CdcEntry canon_entry storable_entry} `{DebugValue}.
Context (st : NodeStore) (db ns et : string) (schema : EntitySchema).
Implicit Types (w : World S) (N : NodeMap) (props : Props).
Let sub := Sub.namespace db ns.

(** The changed unique values are free or the node's own. *)
Definition changed_unique_ok (t : S) (nid : bytes) (old merged : Props) : Prop :=
  forall p v, (p, v) ∈ unique_constraints_to_check schema old merged ->
    forall enc b, encode_value_for_index v = Ok enc -> kv_get t (unique_key db ns et p enc) = Some b -> b = nid.

Lemma elem_of_to_check old merged p v :
  (p, v) ∈ unique_constraints_to_check schema old merged <->
  exists d, is_indexed_by schema p d /\ index d = IdxUnique /\ merged !! p = Some v /\ v <> VNull /\
    (forall v', old !! p = Some v' -> value_eqb v' v = false).
Proof.
  unfold unique_constraints_to_check. rewrite list_elem_of_omap. split.
  - intros ([p' d] & Hin%elem_of_hm_iter & E). destruct (decide (index d = IdxUnique)) as [Hu|]; [|done].
    destruct (merged !! p') as [v'|] eqn:Hm; [|done]. destruct (is_null v') eqn:Hn; [done|]. apply is_null_false in Hn.
    assert (p' = p /\ v' = v /\ forall v', old !! p = Some v' -> value_eqb v' v = false) as (-> & -> & Ho).
    { destruct (old !! p') as [v0|] eqn:Ho; [destruct (value_eqb v0 v') eqn:Eq; [done|]|]; injection E as <- <-; naive_solver. }
    exists d. split; [split; [done|by rewrite Hu]|done].
  - intros (d & [Hd _] & Hu & Hm & Hn & Ho). exists (p, d). split; [by apply elem_of_hm_iter|].
    rewrite decide_True by done. rewrite Hm. rewrite (proj2 (is_null_false v) Hn).
    destruct (old !! p) as [v0|]; [|done]. by rewrite (Ho v0 eq_refl).
Qed.

Lemma run_check_txn env t nid l w :
  no_faults env -> (forall p v, (p, v) ∈ l -> v <> VNull) ->
  exists r w', for_each l (fun pv => check_unique_constraint_in_txn t db ns et pv.1 pv.2 nid) env w = (r, w') /\
    idle w w' /\ (r = Ok tt <-> forall p v, (p, v) ∈ l -> forall enc b, encode_value_for_index v = Ok enc ->
      kv_get t (unique_key db ns et p enc) = Some b -> b = nid).
Proof.
  intros Henv Hl.
  destruct (for_each_checks env l (fun pv => check_unique_constraint_in_txn t db ns et pv.1 pv.2 nid)
    (fun pv _ => exists enc, encode_value_for_index pv.2 = Ok enc /\ forall b,
      kv_get t (unique_key db ns et pv.1 enc) = Some b -> b = nid) w) as (r & w' & E & Hw & Hr).
  - intros [p v] w1. unfold check_unique_constraint_in_txn. cbn [fst snd].
    destruct (encode_value_for_index v) as [enc|e].
    + mrun Henv. destruct (kv_get t (unique_key db ns et p enc)) as [b|] eqn:Eb.
      * destruct (decide (b = nid)) as [->|Hne]; (eexists _, _; split; [reflexivity|]; split; [done|]).
        -- split; [|done]. intros _. exists enc. split; [done|]. congruence.
        -- split; [done|]. intros (enc' & [= <-] & Hc). by destruct Hne, (Hc b Eb).
      * eexists _, _. split; [reflexivity|]. split; [done|]. split; [|done]. intros _. exists enc. split; [done|]. congruence.
    + rewrite (bind_run_err _ _ env w1 e w1) by done. eexists _, _. split; [reflexivity|]. split; [done|].
      split; [done|]. by intros (enc & ? & _).
  - done.
  - exists r, w'. split; [done|]. split; [done|]. rewrite Hr. split.
    + intros Hc p v Hin enc b He Hb. destruct (Hc (p, v) Hin) as (enc' & He' & Hc'). cbn [fst snd] in *.
      rewrite He in He'. injection He' as <-. auto.
    + intros Hc [p v] Hin. destruct (encode_value_ok v (Hl p v Hin)) as [enc He]. exists enc. split; [done|].
      intros b Hb. by eapply Hc.
Qed.

Lemma changed_unique_free t N nid old merged :
  index_exact sub et schema t N -> valid_nid nid -> N nid = Some old -> no_zero_flip old merged ->
  changed_unique_ok t nid old merged -> unique_free sub et schema t nid merged.
Proof.
  intros Hix Hv HN Hz Hok p d enc b Hd Hu Hh Hb. unfold holds in Hh.
  destruct (merged !! p) as [v|] eqn:Hm; [|done]. destruct Hh as [Hn He].
  assert (Hcase : (exists v', old !! p = Some v' /\ value_eqb v' v = true) \/
    forall v', old !! p = Some v' -> value_eqb v' v = false).
  { destruct (old !! p) as [v'|]; [destruct (value_eqb v' v) eqn:E|]; naive_solver. }
  destruct Hcase as [(v' & Ho & Eq)|Hno].
  - assert (v' = v) as ->.
    { apply value_eqb_eq in Eq as Hc. destruct Hc as [?|(x & y & -> & ->)]; [done|]. f_equal. by eapply Hz. }
    assert (Hold : holds (props_of (N nid)) p enc) by (rewrite HN; unfold holds; cbn; by rewrite Ho).
    apply (ie_rows sub et schema t N Hix p d enc nid Hd Hv) in Hold.
    rewrite row_key_unique in Hold by done. unfold row_val in Hold. rewrite Hu in Hold. congruence.
  - apply (Hok p v) with (enc := enc); [|done|by rewrite (unique_key_row db ns et p d enc Hu)].
    apply elem_of_to_check. exists d. repeat (split; [done|]). done.
Qed.

(** The stored data of a node of the map. *)
Lemma run_require_node env w nid id d :
  no_faults env -> (exists b, kv_get (w_kv w) (node_key db ns et nid) = Some b /\ decode_cbor b = Ok d) ->
  require_node db ns et id nid env w = (Ok d, next_tick (next_tick w)).
Proof.
  intros Henv (b & Hb & Hd). unfold require_node. mrun Henv. fold (node_key db ns et nid). rewrite Hb.
  cbn [ok_or]. mrun Henv. unfold lift. by rewrite Hd.
Qed.

(** What an update needs of its input: the merged properties are accepted. *)
Record updates (t : S) (nid : bytes) (id : string) (d : NodeData) (merged : Props) : Prop := {
  up_owner : enforce_local_ownership (site_id st) et id (nd_locality d) = Ok tt;
  up_valid : validate_properties et schema merged = Ok tt;
  up_unique : changed_unique_ok t nid (nd_properties d) merged
}.

(** Restrictions on the data: see the header of this file. *)
Record plain (old merged changed : Props) : Prop := {
  pl_fields : no_template_fields merged;
  pl_storable : storable_props merged;
  pl_changed : storable_props changed;
  pl_old : storable_props old;
  pl_zero : no_zero_flip old merged
}.

Lemma run_update_node env w N id n d new_props :
  no_faults env -> no_failpoints w -> represents db ns et schema (w_kv w) N -> room db ns et (w_kv w) ->
  serves db ns et schema w -> log_ok db ns (w_kv w) ->
  parse_node_id id = Ok n -> site n <> 255 ->
  let nid := NodeIds.to_bytes n in
  N nid = Some (nd_properties d) ->
  (exists b, kv_get (w_kv w) (node_key db ns et nid) = Some b /\ decode_cbor b = Ok d) ->
  let merged := merge_properties (nd_properties d) new_props in
  plain (nd_properties d) merged new_props -> updates (w_kv w) nid id d merged ->
  exists updated ts w', update_node st db ns et id new_props env w
      = (Ok (mkStoredNode id et merged (nd_locality d) (nd_created_at d) updated), w') /\
    represents db ns et schema (w_kv w') (put N nid (Some (canon_props merged))) /\
    (exists b, kv_get (w_kv w') (node_key db ns et nid) = Some b /\
      decode_cbor b = Ok (mkNodeData (canon_props merged) (nd_locality d) (nd_created_at d) updated)) /\
    cdc_log db ns (w_kv w') = cdc_log db ns (w_kv w) ++ [(kv_stamp (w_kv w),
      normalize_legacy_schema_registers (canon_entry (mkCdcEntry (site_id st) ts None
        [NodeUpdate et id new_props (nd_properties d)])))] /\
    (blt (kv_stamp (w_kv w)) STAMP_MAX -> cdc_wf db ns (w_kv w')).
Proof.
  intros Henv Hfp HR Hroom Hserve Hlok Hpar Hsite nid HN Hrow merged [Hff Hsto Hch Hold Hz] [Hown Hval Huniq].
  assert (Hnid : valid_nid nid).
  { apply valid_node_bytes; [|done]. unfold parse_node_id in Hpar. destruct (NodeIds.from_str id) eqn:E; [|done].
    injection Hpar as <-. by eapply from_str_ok. }
  unfold update_node. destruct (run_require_schema env Henv db ns et schema w Hserve) as (w1 & E1 & (Hk1 & Ha1 & Hf1)).
  rewrite (bind_run _ _ _ _ _ _ E1), Hpar, run_lift. fold nid.
  rewrite (bind_run _ _ _ _ _ _ (run_require_node env w1 nid id d Henv ltac:(by rewrite Hk1))).
  rewrite Hown, run_lift. fold merged. rewrite Hval, run_lift. fold sub.
  destruct (compute_index_removals_ok sub et nid schema (nd_properties d) merged) as (rems & Er & _). rewrite Er, run_lift.
  destruct (compute_index_entries_ok sub et nid schema merged) as (adds & Ea & _). rewrite Ea, run_lift.
  destruct (compute_changes_ok sub et nid (nd_properties d) merged (proj2 Hnid)) as (ch & Ech & _). rewrite Ech, run_lift.
  rewrite run_now. set (updated := env_now env _).
  set (d' := mkNodeData merged (nd_locality d) (nd_created_at d) updated).
  destruct (encode_cbor_total d') as (b & Eb & _). rewrite Eb. mrun Henv. cbn [w_kv next_tick]. rewrite Hk1.
  destruct (run_check_txn env (w_kv w) nid (unique_constraints_to_check schema (nd_properties d) merged)
    (next_tick (next_tick (next_tick (next_tick w1)))) Henv) as (r & w2 & E2 & Hw2 & Hr).
  { intros p v (dd & _ & _ & _ & Hn & _)%elem_of_to_check. done. }
  assert (r = Ok tt) as -> by (apply Hr; exact Huniq). rewrite (bind_run _ _ _ _ _ _ E2).
  destruct (run_write_updated_node db ns et schema env (w_kv w) N nid (nd_properties d) d' rems adds ch b w2 Henv HR Hroom Hnid HN)
    as (t3 & w3 & E3 & Hw3 & HR3 & Hrow3 & [Hoff3 Hst3]); [done..| |].
  { eapply changed_unique_free; [apply HR|done|done|done|done]. }
  rewrite (bind_run _ _ _ _ _ _ E3).
  assert (Hcdc : forall r, kv_get t3 (prefix (cdc_subspace db ns) ++ r) = kv_get (w_kv w) (prefix (cdc_subspace db ns) ++ r)).
  { intros r. apply Hoff3; intros ?; apply subspace_ne; (marker || done). }
  destruct (run_finish_nodes db ns et schema env (push (new_accumulator (site_id st))
    (NodeUpdate et id new_props (nd_properties d))) (w_kv w) t3 (put N nid (Some (canon_props merged))) "node.update.after_cdc_flush" "update node"
    (stored_of id et d') w3 Henv) as (ts & w4 & E4 & _ & _ & _ & HR4 & Hsub4 & Hlog4 & Hwf4).
  { unfold no_failpoints. destruct Hw3 as (_ & _ & _ & ->), Hw2 as (_ & _ & _ & ->). cbn. by rewrite Hf1. }
  { done. }
  { exact HR3. }
  { exact Hcdc. }
  { done. }
  { by apply Forall_singleton. }
  { done. }
  exists updated, ts, w4. split; [exact E4|]. split; [exact HR4|]. split; [|split; [exact Hlog4|exact Hwf4]].
  exists b. split; [|exact (decode_stored d' b Hsto Eb)].
  rewrite <- Hrow3. rewrite (node_key_eq db ns et nid). unfold data_prefix. rewrite <- app_assoc. apply Hsub4; [marker|done].
Qed.

(** An update that succeeds has passed the checks. *)
Lemma update_node_checks env w id n d new_props node w' :
  no_faults env -> serves db ns et schema w -> parse_node_id id = Ok n ->
  let nid := NodeIds.to_bytes n in
  (exists b, kv_get (w_kv w) (node_key db ns et nid) = Some b /\ decode_cbor b = Ok d) ->
  update_node st db ns et id new_props env w = (Ok node, w') ->
  updates (w_kv w) nid id d (merge_properties (nd_properties d) new_props).
Proof.
  intros Henv Hserve Hpar nid Hrow. unfold update_node.
  destruct (run_require_schema env Henv db ns et schema w Hserve) as (w1 & E1 & (Hk1 & Ha1 & Hf1)).
  rewrite (bind_run _ _ _ _ _ _ E1), Hpar, run_lift. fold nid.
  rewrite (bind_run _ _ _ _ _ _ (run_require_node env w1 nid id d Henv ltac:(by rewrite Hk1))).
  set (merged := merge_properties (nd_properties d) new_props). fold sub.
  intros (u & w2 & Eo & E)%bind_ok. unfold lift in Eo. injection Eo as Eo <-. destruct u.
  apply bind_ok in E as (u & w2 & Ev & E). unfold lift in Ev. injection Ev as Ev <-. destruct u.
  do 5 apply bind_ok in E as (? & ? & ?E' & E).
  apply bind_ok in E as (t & w3 & Et & E). apply bind_ok in E as (u & w4 & Ec & _). destruct u.
  split; [done|done|].
  assert (t = w_kv w) as ->.
  { rewrite run_create_transaction in Et by done. unfold lift, now in *. simplify_eq. done. }
  destruct (run_check_txn env (w_kv w) nid (unique_constraints_to_check schema (nd_properties d) merged) w3 Henv)
    as (r & w5 & E5 & _ & Hr).
  { intros p v (dd & _ & _ & _ & Hn & _)%elem_of_to_check. done. }
  rewrite Ec in E5. injection E5 as <- _. exact (proj1 Hr eq_refl).
Qed.
End Update.

(** ** The operations refine the abstract map *)

(** C4: creating a node.  In a store that represents a map, a creation with
    acceptable properties succeeds: the node gets the allocator's next id, which
    was not in the map; it reads back as the codec's form of the properties with
    defaults applied; the store represents the extended map, data, index, term
    rows and counters included; and one entry is appended to the change log. *)
Theorem create_node_correct {S} `{FdbLaws S} `{HashIter} `{CborLaws NodeData canon_node storable_node} `{Cbor EntitySchema}
    `{CborLaws CdcEntry canon_entry storable_entry} `{DebugValue} env (st : NodeStore) (db ns et : string)
    (schema : EntitySchema) (w : World S) (N : NodeMap) (props : Props) :
  no_faults env -> no_failpoints w -> store_ok st db ns et schema w N -> log_ok db ns (w_kv w) -> alloc_ok st db ns et w ->
  accepts db ns et schema w (apply_defaults schema props) ->
  let props' := apply_defaults schema props in
  let nid := NodeIds.to_bytes (next_node st db ns et w) in
  exists node ts w', create_node st db ns et props env w = (Ok node, w') /\
    N nid = None /\ sn_id node = NodeIds.to_string (next_node st db ns et w) /\ sn_properties node = props' /\
    (get_node db ns et (sn_id node) env w').1 = Ok (Some (mkStoredNode (sn_id node) et (canon_props props')
       (sn_locality node) (sn_created_at node) (sn_updated_at node))) /\
    represents db ns et schema (w_kv w') (put N nid (Some (canon_props props'))) /\
    cdc_log db ns (w_kv w') = cdc_log db ns (w_kv w) ++ [(kv_stamp (w_kv w),
      normalize_legacy_schema_registers (canon_entry (mkCdcEntry (site_id st) ts None
        [NodeCreate et (sn_id node) props' (site_id st)])))].
Proof.
  intros Henv Hfp Hst Hlog Hal Hacc props' nid.
  destruct (run_create_node st db ns et schema env w N props Henv Hfp Hst Hlog Hal Hacc)
    as (created & ts & w' & E & HR & (b & Hb & Hd) & _ & _ & Hl & _). fold props' nid in E, HR, Hb, Hd, Hl.
  destruct (next_node_ok st db ns et w Hal (so_alloc _ _ _ _ _ _ _ Hst)) as [Hid Hq].
  eexists _, ts, w'. split; [exact E|]. split; [|split; [done|split; [done|split; [|split; [exact HR|exact Hl]]]]].
  - apply (so_fresh _ _ _ _ _ _ _ Hst). split; [lia|apply Hq].
  - cbn [sn_id]. rewrite (run_get_node env Henv _ _ _ _ (next_node st db ns et w)) by (by apply parse_to_string).
    fold nid. rewrite Hb, Hd. done.
Qed.

(** C5: updating a node.  The owner's update of a node of the map with acceptable
    merged properties succeeds; the node keeps its locality and creation time and
    reads back as the codec's form of the merged properties; the store represents
    the changed map; and one entry with the changed and the old properties is
    appended to the change log. *)
Theorem update_node_correct {S} `{FdbLaws S} `{HashIter} `{CborLaws NodeData canon_node storable_node} `{Cbor EntitySchema}
    `{CborLaws CdcEntry canon_entry storable_entry} `{DebugValue} env (st : NodeStore) (db ns et : string)
    (schema : EntitySchema) (w : World S) (N : NodeMap) (id : string) (n : NodeId) (d : NodeData) (new_props : Props) :
  no_faults env -> no_failpoints w -> represents db ns et schema (w_kv w) N -> room db ns et (w_kv w) ->
  serves db ns et schema w -> log_ok db ns (w_kv w) -> parse_node_id id = Ok n -> site n <> 255 ->
  let nid := NodeIds.to_bytes n in
  N nid = Some (nd_properties d) ->
  (exists b, kv_get (w_kv w) (node_key db ns et nid) = Some b /\ decode_cbor b = Ok d) ->
  let merged := merge_properties (nd_properties d) new_props in
  plain (nd_properties d) merged new_props -> updates st db ns et schema (w_kv w) nid id d merged ->
  exists node ts w', update_node st db ns et id new_props env w = (Ok node, w') /\
    sn_properties node = merged /\ sn_locality node = nd_locality d /\ sn_created_at node = nd_created_at d /\
    (get_node db ns et id env w').1 = Ok (Some (mkStoredNode id et (canon_props merged)
       (nd_locality d) (nd_created_at d) (sn_updated_at node))) /\
    represents db ns et schema (w_kv w') (put N nid (Some (canon_props merged))) /\
    cdc_log db ns (w_kv w') = cdc_log db ns (w_kv w) ++ [(kv_stamp (w_kv w),
      normalize_legacy_schema_registers (canon_entry (mkCdcEntry (site_id st) ts None
        [NodeUpdate et id new_props (nd_properties d)])))].
Proof.
  intros Henv Hfp HR Hroom Hserve Hlog Hpar Hsite nid HN Hrow merged Hpl Hup.
  destruct (run_update_node st db ns et schema env w N id n d new_props Henv Hfp HR Hroom Hserve Hlog Hpar Hsite HN Hrow Hpl Hup)
    as (updated & ts & w' & E & HR' & (b & Hb & Hd) & Hl & _). fold nid merged in E, HR', Hb, Hd, Hl.
  eexists _, ts, w'. split; [exact E|]. repeat (split; [done|]). split; [|split; [exact HR'|exact Hl]].
  rewrite (run_get_node env Henv _ _ _ _ n) by done. fold nid. rewrite Hb, Hd. done.
Qed.



(** ** A concrete store *)

Lemma represents_empty {S} `{FdbLaws S} `{HashIter} `{Cbor NodeData} (db ns et : string) (schema : EntitySchema) (t : S) :
  (forall r, kv_get t (prefix (Sub.data (Sub.namespace db ns)) ++ r) = None) ->
  (forall r, kv_get t (prefix (Sub.index (Sub.namespace db ns)) ++ r) = None) ->
  represents db ns et schema t (fun _ => None).
Proof.
  intros Hd Hi.
  assert (Hti : forall k, term_key_of (Sub.index (Sub.namespace db ns)) et k -> kv_get t k = None).
  { intros k [r ->]%term_key_in_index. apply Hi. }
  assert (Hrows : forall p, (forall r, kv_get t (p ++ r) = None) -> keys_in t p (p ++ [Byte.xff]) = []).
  { intros p Hp. apply elem_of_nil_inv. intros k [(r & -> & _)%in_scan_prefix [v Hv]]%elem_of_keys_in. by rewrite Hp in Hv. }
  split.
  - intros nid _. simpl. rewrite (node_key_eq db ns et nid). unfold data_prefix. by rewrite <- app_assoc, Hd.
  - split.
    + intros p d enc nid _ _. unfold row_key. rewrite Hi. split; [done|]. by intros ?%holds_empty.
    + intros p d enc b _ _. unfold row_key. by rewrite Hi.
    + intros p d r v _. unfold row_key. by rewrite Hi.
  - intros nid _ tm. simpl. rewrite all_terms_empty, Hti by apply term_key_posting.
    split; [by intros []|by intros ?%not_elem_of_nil].
  - intros tm. unfold term_rows. rewrite Hrows; [by rewrite Hti by apply term_key_df|].
    intros r. apply Hti, term_key_posting.
  - unfold doc_rows. rewrite Hrows; [split; [by rewrite Hti by apply term_key_n_docs|simpl; lia]|].
    intros r. unfold data_prefix. by rewrite <- app_assoc, Hd.
  - done.
  - intros r v _. unfold data_prefix. by rewrite <- app_assoc, Hd.
  - intros tm r _ [v Hv]. by rewrite Hti in Hv by apply term_key_posting.
Qed.

(** A key space in memory has few rows. *)
Lemma mem_keys_bound (s : MemKv) b e : (length (keys_in s b e) <= size (mem_map s))%nat.
Proof.
  unfold keys_in. rewrite length_map. cbn [kv_range mem_fdb]. unfold mem_range.
  rewrite merge_sort_Permutation, length_map_to_list. apply map_size_filter.
Qed.

Lemma mem_room db ns et (s : MemKv) : Z.of_nat (size (mem_map s)) < 2 ^ 63 - 1 -> room db ns et s.
Proof.
  intros Hs. split.
  - intros tm. unfold term_rows.
    match goal with |- context [keys_in s ?b ?e] => pose proof (mem_keys_bound s b e) end. lia.
  - unfold doc_rows. match goal with |- context [keys_in s ?b ?e] => pose proof (mem_keys_bound s b e) end. lia.
Qed.

Definition account_schema : EntitySchema :=
  Schemas.with_property
    (Schemas.with_property (Schemas.new "Account") "email" (PropDefs.with_index (PropDefs.require (PropDefs.new PString)) IdxUnique))
    "age" (PropDefs.with_index (PropDefs.new PInt) IdxRange).

Definition account_store : NodeStore := mkNodeStore (mkIdAllocator 1 100) "1".
Definition account_world : World MemKv := mkWorld empty_kv {[("db", "ns", "Account") := account_schema]} ∅ ∅ 0.
Definition ada : Props := {["email" := VString "ada@x"; "age" := VInt 36]}.
Definition ada_id : NodeId := mkNodeId 1 0.
Definition no_nodes : NodeMap := fun _ => None.

Lemma account_store_ok : store_ok account_store "db" "ns" "Account" account_schema account_world no_nodes.
Proof.
  split.
  - apply represents_empty; intros r; apply lookup_empty.
  - apply mem_room. vm_compute. reflexivity.
  - left. vm_compute. reflexivity.
  - vm_compute. repeat split; discriminate.
  - done.
Qed.

Lemma account_log_ok : log_ok "db" "ns" (w_kv account_world).
Proof. split; [vm_compute; reflexivity|apply empty_kv_wf|apply empty_kv_stamp]. Qed.

Lemma account_alloc_ok : alloc_ok account_store "db" "ns" "Account" account_world.
Proof. split; vm_compute; repeat split; discriminate. Qed.

Lemma ada_lookup p v : ada !! p = Some v -> p = "email" /\ v = VString "ada@x" \/ p = "age" /\ v = VInt 36.
Proof. unfold ada. intros [[<- <-]|[_ [<- <-]%lookup_singleton_Some]]%lookup_insert_Some; auto. Qed.

Lemma ada_storable : storable_props ada.
Proof. intros p v [[-> ->]|[-> ->]]%ada_lookup; exact I. Qed.

Lemma ada_accepted : accepts "db" "ns" "Account" account_schema account_world (apply_defaults account_schema ada).
Proof.
  assert (apply_defaults account_schema ada = ada) as -> by (vm_compute; reflexivity). split.
  - vm_compute. reflexivity.
  - intros p d v _ _ [[-> ->]|[-> ->]]%ada_lookup; (split; [done|]); intros enc b _ Hb;
      cbn in Hb; by rewrite lookup_empty in Hb.
  - split; vm_compute; reflexivity.
  - apply ada_storable.
Qed.

Lemma create_node_correct_witness :
  exists node w', create_node account_store "db" "ns" "Account" ada quiet_env account_world = (Ok node, w') /\
    sn_id node = "1_0" /\ sn_properties node = apply_defaults account_schema ada /\
    represents "db" "ns" "Account" account_schema (w_kv w')
      (put no_nodes (NodeIds.to_bytes ada_id) (Some (canon_props (apply_defaults account_schema ada)))).
Proof.
  destruct (create_node_correct quiet_env account_store "db" "ns" "Account" account_schema account_world no_nodes ada)
    as (node & ts & w' & E & _ & Hid & Hp & _ & HR & _).
  - apply quiet_env_ok.
  - reflexivity.
  - apply account_store_ok.
  - apply account_log_ok.
  - apply account_alloc_ok.
  - apply ada_accepted.
  - exists node, w'. split; [exact E|]. split; [exact Hid|]. split; [exact Hp|exact HR].
Defined.

(** The store after the creation. *)
Definition account_world1 : World MemKv :=
  (create_node account_store "db" "ns" "Account" ada quiet_env account_world).2.

Lemma account_world1_ok :
  represents "db" "ns" "Account" account_schema (w_kv account_world1)
    (put no_nodes (NodeIds.to_bytes ada_id) (Some ada)) /\
  cdc_wf "db" "ns" (w_kv account_world1) /\
  exists c b, kv_get (w_kv account_world1) (node_key "db" "ns" "Account" (NodeIds.to_bytes ada_id)) = Some b /\
    decode_cbor b = Ok (mkNodeData ada 1 c c).
Proof.
  destruct (run_create_node account_store "db" "ns" "Account" account_schema quiet_env account_world no_nodes ada
    quiet_env_ok eq_refl account_store_ok account_log_ok account_alloc_ok ada_accepted)
    as (c & ts & w' & E & HR & (b & Hb & Hd) & _ & _ & _ & Hwf).
  assert (Hc : canon_props (apply_defaults account_schema ada) = ada) by (vm_compute; reflexivity).
  rewrite Hc in HR, Hd. unfold account_world1. rewrite E. split; [exact HR|]. split.
  - apply Hwf. vm_compute. reflexivity.
  - exists c, b. split; [exact Hb|exact Hd].
Qed.

Lemma account_world1_log : log_ok "db" "ns" (w_kv account_world1).
Proof.
  split; [vm_compute; reflexivity|apply account_world1_ok|].
  split; [vm_compute; discriminate|vm_compute; reflexivity].
Qed.

Lemma account_world1_room : room "db" "ns" "Account" (w_kv account_world1).
Proof. apply mem_room. vm_compute. reflexivity. Qed.

Definition birthday : Props := {["age" := VInt 37]}.

Lemma birthday_storable : storable_props birthday.
Proof. unfold birthday. intros p v [<- <-]%lookup_singleton_Some. exact I. Qed.

Lemma merged_lookup p v : merge_properties ada birthday !! p = Some v ->
  p = "email" /\ v = VString "ada@x" \/ p = "age" /\ v = VInt 37.
Proof.
  assert (merge_properties ada birthday = {["email" := VString "ada@x"; "age" := VInt 37]}) as -> by (vm_compute; reflexivity).
  intros [[<- <-]|[_ [<- <-]%lookup_singleton_Some]]%lookup_insert_Some; auto.
Qed.

Lemma birthday_plain : plain ada (merge_properties ada birthday) birthday.
Proof.
  split.
  - split; vm_compute; reflexivity.
  - intros p v [[-> ->]|[-> ->]]%merged_lookup; exact I.
  - apply birthday_storable.
  - apply ada_storable.
  - intros p x y [[_ E]|[_ E]]%ada_lookup; discriminate E.
Qed.

Lemma update_node_correct_witness :
  exists node w', update_node account_store "db" "ns" "Account" "1_0" birthday quiet_env account_world1 = (Ok node, w') /\
    sn_properties node = merge_properties ada birthday.
Proof.
  destruct account_world1_ok as (HR & Hwf & c & b & Hb & Hd).
  destruct (update_node_correct quiet_env account_store "db" "ns" "Account" account_schema account_world1
    (put no_nodes (NodeIds.to_bytes ada_id) (Some ada)) "1_0" ada_id (mkNodeData ada 1 c c) birthday)
    as (node & ts & w' & E & Hp & _).
  - apply quiet_env_ok.
  - vm_compute. reflexivity.
  - exact HR.
  - apply account_world1_room.
  - left. vm_compute. reflexivity.
  - apply account_world1_log.
  - vm_compute. reflexivity.
  - discriminate.
  - reflexivity.
  - exists b. split; [exact Hb|exact Hd].
  - apply birthday_plain.
  - split; [vm_compute; reflexivity|vm_compute; reflexivity|].
    intros p v Hin. assert (unique_constraints_to_check account_schema ada (merge_properties ada birthday) = []) as He
      by (vm_compute; reflexivity). cbn [nd_properties] in Hin. rewrite He in Hin. destruct (not_elem_of_nil _ Hin).
  - exists node, w'. split; [exact E|exact Hp].
Defined.


