(* ===== verification/NodeReplica.v ===== *)
(** * Replicated changes of nodes

    What [apply_replica_node_create], [apply_replica_node_update] and
    [apply_replica_ownership_transfer] do to a store that represents a map of
    nodes: which events win, what the winners change, and that no change log entry
    is written. *)

From S2P Require Import Prelude Bytes Text Errors Types Encoding Subspace SchemaTypes Fdb MemFdb Cdc Ids.
From S2P Require Import Index TermIndex Namespace Jobs SchemaRegistry Node NodeAtomic NodeSpec.

Section Replica.
Context {S : Type} `{FdbLaws S} `{HashIter} `{CborLaws NodeData canon_node storable_node} `{Cbor EntitySchema} `{DebugValue}.
Context (env : Env) (Henv : no_faults env) (db ns et : string) (schema : EntitySchema).
Implicit Types (w : World S) (t : S) (N : NodeMap) (props old : Props) (d : NodeData).
Let sub := Sub.namespace db ns.

(** The row of a node. *)
Definition row_is t nid d : Prop := exists b, kv_get t (node_key db ns et nid) = Some b /\ decode_cbor b = Ok d.

(** The outcome of an applied event: the map, the row, and the log left alone. *)
Record applied w w' N nid d : Prop := {
  ap_rep : represents db ns et schema (w_kv w') (put N nid (Some (nd_properties d)));
  ap_row : row_is (w_kv w') nid d;
  ap_log : cdc_log db ns (w_kv w') = cdc_log db ns (w_kv w)
}.

Lemma off_nodes_log t t' : off_nodes db ns t t' -> cdc_log db ns t' = cdc_log db ns t.
Proof. intros [Hoff _]. apply cdc_log_frame. intros r. apply Hoff; intros ?; apply subspace_ne; (marker || done). Qed.

Lemma parsed_valid id n : parse_node_id id = Ok n -> site n <> 255 -> valid_nid (NodeIds.to_bytes n).
Proof.
  intros Hp Hs. apply valid_node_bytes; [|done]. unfold parse_node_id in Hp. destruct (NodeIds.from_str id) eqn:E; [|done].
  injection Hp as <-. by eapply from_str_ok.
Qed.

Lemma idle_failpoints w w' : idle w w' -> no_failpoints w -> no_failpoints w'.
Proof. intros (_ & _ & _ & E). unfold no_failpoints. by rewrite E. Qed.

(** *** Creation *)

Lemma run_replica_create w N id n props home h ts :
  no_failpoints w -> represents db ns et schema (w_kv w) N -> room db ns et (w_kv w) -> serves db ns et schema w ->
  parse_node_id id = Ok n -> site n <> 255 -> parse_site_id home "home_site" = Ok h ->
  validate_properties et schema props = Ok tt -> no_template_fields props -> storable_props props ->
  let nid := NodeIds.to_bytes n in
  (N nid = None -> unique_free sub et schema (w_kv w) nid props ->
    exists w', apply_replica_node_create db ns et id props home ts home env w = (Ok true, w') /\
      applied w w' N nid (mkNodeData (canon_props props) h ts ts)) /\
  (forall d, row_is (w_kv w) nid d ->
    exists w', apply_replica_node_create db ns et id props home ts home env w
      = (Ok ((nd_locality d =? h) && props_eqb (nd_properties d) props), w') /\ w_kv w' = w_kv w).
Proof.
  intros Hfp HR Hroom Hs Hp Hsite Hh Hval Hff Hst nid. pose proof (parsed_valid id n Hp Hsite) as Hv.
  destruct (run_require_schema env Henv db ns et schema w Hs) as (w1 & E1 & (Hk1 & _ & Hf1)). unfold apply_replica_node_create.
  assert (Hfp1 : no_failpoints w1) by (unfold no_failpoints; by rewrite Hf1).
  rewrite String.eqb_refl. cbn [negb]. split; [intros HN Hfree|intros d (b & Hb & Hd)];
    rewrite (bind_run _ _ _ _ _ _ E1), Hval, run_lift, Hp, run_lift, Hh, run_lift; mrun Henv; fold sub nid; change (data_key (Sub.data sub) et nid) with (node_key db ns et nid).
  - rewrite Hk1. pose proof (rp_data _ _ _ _ _ _ HR nid Hv) as Hrow. rewrite HN in Hrow. cbn [data_is] in Hrow. rewrite Hrow.
    destruct (compute_index_entries_ok sub et nid schema props) as (es & Ees & _). rewrite Ees, run_lift.
    rewrite compute_term_postings_eq, run_lift.
    destruct (encode_cbor_total (mkNodeData props h ts ts)) as (b & Eb & _). rewrite Eb. mrun Henv. cbn [w_kv next_tick]. rewrite Hk1.
    edestruct (run_write_new_node db ns et schema env (w_kv w) N nid (mkNodeData props h ts ts)) as (t' & w' & E & Hw & HR' & Hrow' & Hoff);
      [done..|apply compute_term_postings_eq|exact Eb|exact Hfree|].
    rewrite (bind_run _ _ _ _ _ _ E). rewrite (bind_run _ _ _ _ _ _ (run_commit_or_internal env Henv _ _ _ (idle_failpoints _ _ Hw Hfp1))).
    eexists. split; [reflexivity|]. split; cbn [nd_properties w_kv set_kv]; [exact HR'| |by apply off_nodes_log].
    exists b. split; [exact Hrow'|]. exact (decode_stored (mkNodeData props h ts ts) b Hst Eb).
  - rewrite Hk1, Hb. mrun Henv. rewrite Hd, run_lift. eexists. split; [reflexivity|]. exact Hk1.
Qed.

(** *** Update *)

(** An event loses when the node belongs to another site or is not what the event
    changed, and the node was touched since. *)
Definition superseded (actor ts : Z) old d : bool :=
  (negb (nd_locality d =? actor) || negb (props_eqb (nd_properties d) old)) && (ts <=? nd_updated_at d).

(** The node after an event that wins: a site that wins over the owner owns it. *)
Definition updated (actor ts : Z) (changed : Props) d : NodeData :=
  mkNodeData (merge_properties (nd_properties d) changed) actor (nd_created_at d) (Z.max (nd_updated_at d) ts).

Lemma run_replica_update w N id n d changed old origin actor ts :
  no_failpoints w -> represents db ns et schema (w_kv w) N -> room db ns et (w_kv w) -> serves db ns et schema w ->
  parse_node_id id = Ok n -> site n <> 255 -> parse_site_id origin "origin_site" = Ok actor ->
  let nid := NodeIds.to_bytes n in let d' := updated actor ts changed d in
  N nid = Some (nd_properties d) -> row_is (w_kv w) nid d ->
  (superseded actor ts old d = true ->
    exists w', apply_replica_node_update db ns et id changed old ts origin env w = (Ok false, w') /\ w_kv w' = w_kv w) /\
  (superseded actor ts old d = false -> validate_properties et schema (nd_properties d') = Ok tt -> no_template_fields (nd_properties d') ->
   storable_props (nd_properties d') -> no_zero_flip (nd_properties d) (nd_properties d') -> unique_free sub et schema (w_kv w) nid (nd_properties d') ->
    exists w', apply_replica_node_update db ns et id changed old ts origin env w = (Ok true, w') /\ applied w w' N nid (canon_node d')).
Proof.
  intros Hfp HR Hroom Hs Hp Hsite Ha nid d' HN Hrow. pose proof (parsed_valid id n Hp Hsite) as Hv.
  destruct (run_require_schema env Henv db ns et schema w Hs) as (w1 & E1 & (Hk1 & _ & Hf1)). unfold apply_replica_node_update.
  assert (Hfp1 : no_failpoints w1) by (unfold no_failpoints; by rewrite Hf1).
  rewrite Ha. split; [intros Hl|intros Hl Hval Hff Hst Hz Hfree]; rewrite run_lift, (bind_run _ _ _ _ _ _ E1), Hp, run_lift; fold sub nid;
    rewrite (bind_run _ _ _ _ _ _ (run_require_node db ns et env w1 nid id d Henv ltac:(by rewrite Hk1)));
    unfold superseded in Hl.
  - destruct (nd_locality d =? actor); cbn [negb orb andb] in *; [|rewrite Hl; eexists; split; [reflexivity|exact Hk1]].
    rewrite Hl. eexists. split; [reflexivity|exact Hk1].
  - assert (Hloc : (if negb (nd_locality d =? actor) then actor else nd_locality d) = actor) by (destruct (Z.eqb_spec (nd_locality d) actor); done).
    replace (negb (nd_locality d =? actor) && (ts <=? nd_updated_at d)) with false
      by (revert Hl; by destruct (nd_locality d =? actor), (ts <=? nd_updated_at d)).
    replace (negb (props_eqb (nd_properties d) old) && (ts <=? nd_updated_at d)) with false
      by (revert Hl; by destruct (nd_locality d =? actor), (props_eqb (nd_properties d) old), (ts <=? nd_updated_at d)).
    rewrite Hloc. change (merge_properties (nd_properties d) changed) with (nd_properties d'). rewrite Hval, run_lift.
    destruct (compute_index_removals_ok sub et nid schema (nd_properties d) (nd_properties d')) as (rems & Er & _). rewrite Er, run_lift.
    destruct (compute_index_entries_ok sub et nid schema (nd_properties d')) as (adds & Ea & _). rewrite Ea, run_lift.
    destruct (compute_changes_ok sub et nid (nd_properties d) (nd_properties d') (proj2 Hv)) as (ch & Ech & _). rewrite Ech, run_lift.
    change (mkNodeData (nd_properties d') actor (nd_created_at d) (Z.max (nd_updated_at d) ts)) with d'.
    destruct (encode_cbor_total d') as (b & Eb & _). rewrite Eb. mrun Henv. cbn [w_kv next_tick]. rewrite Hk1.
    edestruct (run_write_updated_node db ns et schema env (w_kv w) N nid (nd_properties d) d' rems adds ch b) as (t' & w' & E & Hw & HR' & Hrow' & Hoff); [done..|].
    rewrite (bind_run _ _ _ _ _ _ E), (bind_run _ _ _ _ _ _ (run_commit_or_internal env Henv _ _ _ (idle_failpoints _ _ Hw Hfp1))).
    eexists. split; [reflexivity|]. split; cbn [w_kv set_kv]; [exact HR'| |by apply off_nodes_log].
    exists b. split; [exact Hrow'|]. exact (decode_stored d' b Hst Eb).
Qed.

(** *** Transfer of ownership *)

Lemma represents_same_props t N nid d b d0 :
  represents db ns et schema t N -> valid_nid nid -> N nid = Some (nd_properties d) -> row_is t nid d0 ->
  decode_cbor b = Ok d -> represents db ns et schema (kv_set t (node_key db ns et nid) b) N.
Proof.
  intros HR Hv HN (b0 & Hb0 & _) Hb. set (t' := kv_set t _ b).
  assert (Hg : forall k, k <> node_key db ns et nid -> kv_get t' k = kv_get t k).
  { intros k Hk. unfold t'. rewrite kv_get_set, decide_False; [done|congruence]. }
  assert (Hix : forall r, kv_get t' (prefix (Sub.index sub) ++ r) = kv_get t (prefix (Sub.index sub) ++ r)).
  { intros r. apply Hg. rewrite (node_key_eq db ns et nid). unfold data_prefix. rewrite <- app_assoc. apply subspace_ne; (marker || done). }
  assert (Hterm : forall k, term_key_of (Sub.index sub) et k -> kv_get t' k = kv_get t k).
  { intros k [r ->]%(term_key_in_index db ns et). apply Hix. }
  assert (Hdom : forall k, is_Some (kv_get t' k) <-> is_Some (kv_get t k)).
  { intros k. unfold t'. rewrite kv_get_set. case_decide as Hk; [|done]. subst k. rewrite Hb0. split; eauto. }
  destruct HR as [Rd Ri Rt Rf Rn Rp Rc Ro]. split.
  - intros nid' Hv'. destruct (decide (nid' = nid)) as [->|Hne].
    + rewrite HN. exists b, d. unfold t'. by rewrite kv_get_set, decide_True.
    + specialize (Rd nid' Hv'). unfold data_is in *. rewrite Hg; [done|]. intros E. by apply node_key_inj in E.
  - apply (index_exact_frame sub et schema t); [|done]. intros. apply Hix.
  - intros nid' Hv'. apply (listed_frame sub et t); auto.
  - by apply (df_exact_frame sub et t).
  - apply (n_docs_frame sub et t); [done|]. replace (doc_rows db ns et t') with (doc_rows db ns et t); [done|].
    unfold doc_rows. f_equal. symmetry. apply count_same. intros k _. apply Hdom.
  - done.
  - intros r v Hr Hget. destruct (proj1 (Hdom _) (mk_is_Some _ _ Hget)) as [v' Hv'']. by eapply Rc.
  - intros tm r Hr. rewrite Hterm by apply term_key_posting. by apply Ro.
Qed.

(** The node after a transfer. *)
Definition transferred (current ts : Z) d : NodeData := mkNodeData (nd_properties d) current (nd_created_at d) ts.

Lemma run_replica_transfer w N id n d prev cur previous current origin actor ts :
  no_failpoints w -> represents db ns et schema (w_kv w) N -> parse_node_id id = Ok n -> site n <> 255 ->
  parse_site_id origin "origin_site" = Ok actor -> parse_site_id prev "previous_site_id" = Ok previous ->
  parse_site_id cur "current_site_id" = Ok current ->
  let nid := NodeIds.to_bytes n in
  N nid = Some (nd_properties d) -> row_is (w_kv w) nid d -> storable_props (nd_properties d) ->
  canon_props (nd_properties d) = nd_properties d ->
  let wins := (actor =? previous) && ((nd_locality d =? previous) || (nd_updated_at d <=? ts)) in
  exists w', apply_replica_ownership_transfer db ns et id prev cur ts origin env w = (Ok wins, w') /\
    (wins = false -> w_kv w' = w_kv w) /\
    (wins = true -> represents db ns et schema (w_kv w') N /\ row_is (w_kv w') nid (transferred current ts d) /\
       cdc_log db ns (w_kv w') = cdc_log db ns (w_kv w)).
Proof.
  intros Hfp HR Hp Hsite Ha Hpr Hc nid HN Hrow Hst Hcanon wins. pose proof (parsed_valid id n Hp Hsite) as Hv.
  unfold apply_replica_ownership_transfer. rewrite Ha, run_lift, Hpr, run_lift, Hc, run_lift. subst wins.
  destruct (actor =? previous); cbn [negb andb]; [|eexists; split; [reflexivity|]; by split].
  rewrite Hp, run_lift. fold sub nid. rewrite (bind_run _ _ _ _ _ _ (run_require_node db ns et env w nid id d Henv Hrow)).
  replace (negb (nd_locality d =? previous) && (ts <? nd_updated_at d)) with (negb ((nd_locality d =? previous) || (nd_updated_at d <=? ts)))
    by (rewrite negb_orb, Z.leb_antisym, negb_involutive; done).
  destruct ((nd_locality d =? previous) || (nd_updated_at d <=? ts)); cbn [negb]; [|eexists; split; [reflexivity|]; by split].
  change (mkNodeData (nd_properties d) current (nd_created_at d) ts) with (transferred current ts d).
  destruct (encode_cbor_total (transferred current ts d)) as (b & Eb & _). rewrite Eb. mrun Henv. cbn [w_kv next_tick].
  rewrite (bind_run _ _ _ _ _ _ (run_commit_or_internal env Henv _ _ (next_tick (next_tick (next_tick w))) Hfp)). eexists. split; [reflexivity|]. split; [done|]. intros _.
  cbn [w_kv set_kv]. change (data_key (Sub.data sub) et nid) with (node_key db ns et nid).
  assert (Hd : decode_cbor b = Ok (transferred current ts d)).
  { rewrite (decode_stored (transferred current ts d) b Hst Eb). unfold canon_node. cbn [transferred nd_properties nd_locality nd_created_at nd_updated_at]. by rewrite Hcanon. }
  split; [by apply (represents_same_props (w_kv w) N nid (transferred current ts d) b d)|]. split.
  - exists b. split; [|exact Hd]. by rewrite kv_get_set, decide_True.
  - apply cdc_log_frame. intros r. rewrite kv_get_set, decide_False; [done|]. rewrite (node_key_eq db ns et nid).
    unfold data_prefix. rewrite <- app_assoc. apply subspace_ne; (marker || done).
Qed.
End Replica.



(** ** Uniqueness is not checked for replicated nodes *)

(** A node of site 2 with the unique value of a node of site 1 is applied; both are
    stored and the index knows the later one only. *)
Theorem replica_breaks_uniqueness :
  let r := apply_replica_node_create "db" "ns" "Account" "2_0" ada "2" 99 "2" quiet_env account_world1 in
  r.1 = Ok true /\
  (forall id, id = "1_0" \/ id = "2_0" -> match (get_node "db" "ns" "Account" id quiet_env r.2).1 with
                                           | Ok (Some n) => sn_properties n !! "email" = Some (VString "ada@x")
                                           | _ => False
                                           end) /\
  kv_get (w_kv r.2) (unique_key "db" "ns" "Account" "email" (sbytes "ada@x")) = Some (NodeIds.to_bytes (mkNodeId 2 0)).
Proof. split; [vm_compute; reflexivity|]. split; [intros id [-> | ->]; vm_compute; reflexivity|vm_compute; reflexivity]. Qed.
