(* ===== verification/NodeTypes.v ===== *)
(** * Typing of nodes

    What the validation of properties accepts, as a typing relation between
    schemas and properties, and that every node an operation returns is typed. *)

From S2P Require Import Prelude Bytes Text Errors Types Encoding Subspace SchemaTypes Fdb MemFdb Cdc Ids.
From S2P Require Import Index TermIndex Namespace Jobs SchemaRegistry Node NodeAtomic NodeSpec.

(** Required properties are there and not null, declared ones have their declared
    type or are null, and undeclared ones occur only if the schema allows them. *)
Record typed (schema : EntitySchema) (props : Props) : Prop := {
  ty_required : forall p d, properties schema !! p = Some d -> required d = true -> exists v, props !! p = Some v /\ v <> VNull;
  ty_values : forall p v d, props !! p = Some v -> properties schema !! p = Some d -> v = VNull \/ type_name v = as_str (property_type d);
  ty_extras : extras_policy (meta schema) = Reject -> forall p v, props !! p = Some v -> is_Some (properties schema !! p)
}.

Section Typing.
Context `{HashIter}.
Implicit Types (schema : EntitySchema) (props : Props).

Lemma check_required_ok et defs props :
  check_required et defs props = Ok tt <-> forall p d, (p, d) ∈ defs -> required d = true -> exists v, props !! p = Some v /\ v <> VNull.
Proof.
  induction defs as [|[p d] defs IH]; cbn [check_required]; [set_solver|].
  destruct (required d) eqn:Er.
  - destruct (props !! p) as [v|] eqn:Ev.
    + destruct (decide (v = VNull)) as [->|Hn].
      { split; [done|]. intros Hall. destruct (Hall p d) as (v & Hv & Hne); [left|done|]. congruence. }
      assert ((match v with VNull => Err (MissingRequired et p) | _ => check_required et defs props end) = check_required et defs props) as -> by (by destruct v).
      rewrite IH. split; [|intros Hall p' d' Hin; apply Hall; by right].
      intros Hall p' d' [[= -> ->]|Hin]%elem_of_cons Hr; [by exists v|by apply (Hall p' d')].
    + split; [done|]. intros Hall. destruct (Hall p d) as (v & Hv & _); [left|done|]. congruence.
  - rewrite IH. split; [|intros Hall p' d' Hin; apply Hall; by right].
    intros Hall p' d' [[= -> ->]|Hin]%elem_of_cons Hr; [congruence|by apply (Hall p' d')].
Qed.

Lemma check_types_ok schema l :
  check_types schema l = Ok tt <-> forall p v, (p, v) ∈ l ->
    match properties schema !! p with Some d => matches (property_type d) v = true | None => extras_policy (meta schema) <> Reject end.
Proof.
  induction l as [|[p v] l IH]; cbn [check_types]; [set_solver|].
  assert (Hcons : forall Q : string -> Value -> Prop, (forall p' v', (p', v') ∈ (p, v) :: l -> Q p' v') <-> Q p v /\ forall p' v', (p', v') ∈ l -> Q p' v').
  { intros Q. split; [intros Hall; split; [apply Hall; left|intros; apply Hall; by right]|].
    intros [H1 H2] p' v' [[= -> ->]|Hin]%elem_of_cons; [done|by apply H2]. }
  rewrite (Hcons (fun p v => match properties schema !! p with Some d => matches (property_type d) v = true | None => extras_policy (meta schema) <> Reject end)).
  rewrite <- IH. destruct (properties schema !! p) as [d|]; [destruct (matches (property_type d) v)|destruct (extras_policy (meta schema))]; naive_solver.
Qed.

Lemma validate_typed et schema props : validate_properties et schema props = Ok tt <-> typed schema props.
Proof.
  assert (Hb : validate_properties et schema props = Ok tt <->
    check_required et (hm_iter (properties schema)) props = Ok tt /\ check_types schema (hm_iter props) = Ok tt).
  { unfold validate_properties. destruct (check_required _ _ _) as [[]|e]; cbn [mbind result_bind]; naive_solver. }
  rewrite Hb, check_required_ok, check_types_ok. split.
  - intros [Hr Ht]. split.
    + intros p d Hd. apply Hr. by apply elem_of_hm_iter.
    + intros p v d Hv Hd. apply matches_type_name. specialize (Ht p v (proj2 (elem_of_hm_iter _ _ _) Hv)). by rewrite Hd in Ht.
    + intros He p v Hv. specialize (Ht p v (proj2 (elem_of_hm_iter _ _ _) Hv)). by destruct (properties schema !! p).
  - intros [Hr Hv He]. split.
    + intros p d Hd%elem_of_hm_iter. by apply Hr.
    + intros p v Hin%elem_of_hm_iter. destruct (properties schema !! p) as [d|] eqn:Ed; [apply matches_type_name; by eapply Hv|].
      intros Hrej. destruct (He Hrej p v Hin) as [d Hd]. congruence.
Qed.
End Typing.

(** A successful run went through every step. *)
Ltac run_back E := repeat (apply bind_ok in E as (? & ? & ? & E)).

(** C20: the nodes of a type are typed by its schema.  A creation or an update
    that succeeds returns a node whose properties have every required property,
    values of the declared types only, and undeclared properties only where the
    schema tolerates them; and a creation whose properties, defaults filled in, are
    not typed fails. *)
Theorem nodes_typed {S} `{FdbLaws S} `{HashIter} `{Cbor NodeData} `{Cbor EntitySchema} `{Cbor CdcEntry} `{DebugValue} env
    (st : NodeStore) (db ns et : string) (schema : EntitySchema) (w : World S) :
  no_faults env -> serves db ns et schema w ->
  (forall props node w', create_node st db ns et props env w = (Ok node, w') -> typed schema (sn_properties node)) /\
  (forall id props node w', update_node st db ns et id props env w = (Ok node, w') -> typed schema (sn_properties node)) /\
  (forall props r w', ~ typed schema (apply_defaults schema props) -> create_node st db ns et props env w = (r, w') -> exists e, r = Err e).
Proof.
  intros Henv Hs. destruct (run_require_schema env Henv db ns et schema w Hs) as (w1 & E1 & _).
  assert (Hc : forall props node w', create_node st db ns et props env w = (Ok node, w') ->
    typed schema (apply_defaults schema props) /\ sn_properties node = apply_defaults schema props).
  { intros props node w' E. unfold create_node in E. rewrite (bind_run _ _ _ _ _ _ E1) in E.
    apply bind_ok in E as ([] & w2 & Ev & E). split; [unfold lift in Ev; injection Ev as Ev _; by apply (validate_typed et)|].
    run_back E. by injection E as <- _. }
  split; [|split].
  - intros props node w' E. by destruct (Hc _ _ _ E) as [? ->].
  - intros id props node w' E. unfold update_node in E. rewrite (bind_run _ _ _ _ _ _ E1) in E.
    do 3 apply bind_ok in E as (? & ? & ? & E). apply bind_ok in E as ([] & w2 & Ev & E).
    assert (Ht := Ev). unfold lift in Ht. injection Ht as Ht _. apply validate_typed in Ht. run_back E. by injection E as <- _.
  - intros props r w' Hn E. destruct r as [node|e]; [|by exists e]. destruct Hn. by destruct (Hc _ _ _ E).
Qed.

Lemma nodes_typed_witness :
  typed account_schema (apply_defaults account_schema ada) /\ ~ typed account_schema (<["age" := VString "old"]> ada) /\
  exists e, (create_node account_store "db" "ns" "Account" (<["age" := VString "old"]> ada) quiet_env account_world).1 = Err e.
Proof.
  destruct (nodes_typed quiet_env account_store "db" "ns" "Account" account_schema account_world quiet_env_ok ltac:(left; vm_compute; reflexivity)) as (Hc & _ & Hn).
  assert (Hbad : ~ typed account_schema (<["age" := VString "old"]> ada)).
  { intros Ht. apply (validate_typed "Account") in Ht. vm_compute in Ht. discriminate Ht. }
  split; [apply (validate_typed "Account"); vm_compute; reflexivity|]. split; [exact Hbad|].
  assert (E : apply_defaults account_schema (<["age" := VString "old"]> ada) = <["age" := VString "old"]> ada) by (vm_compute; reflexivity).
  rewrite <- E in Hbad. exact (Hn _ _ _ Hbad (surjective_pairing _)).
Defined.
