(* ===== verification/Edge.v ===== *)
(** * Edges

    [pelago-storage/src/edge.rs]: the keys of an edge, creation, deletion and
    listing of edges, the cascade that removes the edges of a deleted node, and
    the application of replicated edge changes. *)

From S2P Require Import Prelude Bytes Text Errors Types Encoding Subspace SchemaTypes Fdb MemFdb Cdc Ids Index TermIndex Namespace Jobs SchemaRegistry Node.

(** ** Data *)

Record NodeRef := mkNodeRef {
  ref_database : string;
  ref_namespace : string;
  ref_entity_type : string;
  ref_node_id : string
}.
#[export] Instance NodeRef_eq_dec : EqDecision NodeRef.
Proof. solve_decision. Defined.

Definition is_cross_namespace (r : NodeRef) (current_db current_ns : string) : bool :=
  negb (String.eqb (ref_database r) current_db) || negb (String.eqb (ref_namespace r) current_ns).

Record StoredEdge := mkStoredEdge {
  se_edge_id : string;
  se_source : NodeRef;
  se_target : NodeRef;
  se_label : string;
  se_properties : Props;
  se_created_at : Z
}.
#[export] Instance StoredEdge_eq_dec : EqDecision StoredEdge.
Proof. solve_decision. Defined.

Record EdgeData := mkEdgeData {
  ed_edge_id : string;
  ed_properties : Props;
  ed_created_at : Z;
  ed_source : option NodeRef;
  ed_target : option NodeRef;
  ed_label : option string
}.

(** The only field of a node row that the edge store reads. *)
Record EdgeNodeData := mkEdgeNodeData { en_locality : Z }.

Record EdgeStore := mkEdgeStore { es_allocator : IdAllocator; es_node_store : NodeStore; es_site_id : string }.

Definition canon_edge (d : EdgeData) : EdgeData :=
  mkEdgeData (ed_edge_id d) (canon_props (ed_properties d)) (ed_created_at d) (ed_source d) (ed_target d) (ed_label d).
Definition storable_edge (d : EdgeData) : Prop := storable_props (ed_properties d).

(** A node row read as [EdgeNodeData]: the codec skips the fields the type does
    not name. *)
Class NodeView `{Cbor NodeData} `{Cbor EdgeNodeData} := {
  view_locality : forall b d, decode_cbor (A:=NodeData) b = Ok d -> decode_cbor b = Ok (mkEdgeNodeData (nd_locality d))
}.

(** ** Keys *)

Record EdgeKeys := mkEdgeKeys {
  forward_key : bytes;
  meta_key : bytes;
  reverse_key : bytes;
  reverse_direction_keys : option (bytes * bytes)
}.

Definition all_keys (k : EdgeKeys) : list bytes :=
  [forward_key k; meta_key k; reverse_key k]
  ++ match reverse_direction_keys k with Some (f, r) => [f; r] | None => [] end.

Definition entry_count (k : EdgeKeys) : nat :=
  match reverse_direction_keys k with Some _ => 5 | None => 3 end.

(** (edge, marker, src_type, src_id, label, [sort_key], tgt_db, tgt_ns, tgt_type, tgt_id) *)
Definition forward_like (edge : Subspace) (marker : byte) (source target : NodeRef) (label : string)
    (sort_key_bytes : option bytes) : bytes :=
  let b := Tuple.add_string (Tuple.add_string (Tuple.add_string (Tuple.add_marker (Sub.pack edge) marker)
             (ref_entity_type source)) (ref_node_id source)) label in
  let b := match sort_key_bytes with Some sk => Tuple.add_raw_bytes b sk | None => b end in
  Tuple.build (Tuple.add_string (Tuple.add_string (Tuple.add_string (Tuple.add_string b
    (ref_database target)) (ref_namespace target)) (ref_entity_type target)) (ref_node_id target)).

(** (edge, r, tgt_db, tgt_ns, tgt_type, tgt_id, label, src_type, src_id) *)
Definition reverse_like (edge : Subspace) (source target : NodeRef) (label : string) : bytes :=
  Tuple.build (Tuple.add_string (Tuple.add_string (Tuple.add_string (Tuple.add_string (Tuple.add_string
    (Tuple.add_string (Tuple.add_string (Tuple.add_marker (Sub.pack edge) edge_markers.REVERSE)
    (ref_database target)) (ref_namespace target)) (ref_entity_type target)) (ref_node_id target)) label)
    (ref_entity_type source)) (ref_node_id source)).

Definition encode_sort_key (sort_key_value : option Value) : result (option bytes) :=
  match sort_key_value with
  | Some v => if is_null v then Ok None else b ← encode_value_for_index v; Ok (Some b)
  | None => Ok None
  end.

(** The keys of an edge whose sort key is encoded as [sk]. *)
Definition edge_keys_with (sub : Subspace) (source target : NodeRef) (label : string) (sk : option bytes)
    (is_bidirectional : bool) : EdgeKeys :=
  let edge := Sub.edge sub in
  mkEdgeKeys
    (forward_like edge edge_markers.FORWARD source target label sk)
    (forward_like edge edge_markers.FORWARD_META source target label sk)
    (reverse_like edge source target label)
    (if is_bidirectional then
       Some (forward_like edge edge_markers.FORWARD target source label sk, reverse_like edge target source label)
     else None).

Definition compute_edge_keys (sub : Subspace) (source target : NodeRef) (label : string)
    (sort_key_value : option Value) (is_bidirectional : bool) : result EdgeKeys :=
  sk ← encode_sort_key sort_key_value;
  Ok (edge_keys_with sub source target label sk is_bidirectional).

(** ** Decoding a reverse key *)

Fixpoint tuple_body (l : bytes) : option (bytes * bytes) :=
  match l with
  | [] => None
  | b :: r =>
      if decide (b = Byte.x00) then
        match r with
        | c :: r' =>
            if decide (c = Byte.xff) then
              match tuple_body r' with Some (out, rest) => Some (Byte.x00 :: out, rest) | None => None end
            else Some ([], r)
        | [] => Some ([], [])
        end
      else match tuple_body r with Some (out, rest) => Some (b :: out, rest) | None => None end
  end.

(** The string at the head of a key, and the rest of the key. *)
Definition decode_tuple_string (l : bytes) : option (string * bytes) :=
  match l with
  | b :: r =>
      if decide (b = Byte.x02) then
        match tuple_body r with
        | Some (out, rest) => match from_utf8 out with Some s => Some (s, rest) | None => None end
        | None => None
        end
      else None
  | [] => None
  end.

Record ReverseKeyParts := mkReverseKeyParts {
  target_database : string;
  target_namespace : string;
  target_entity_type : string;
  target_node_id : string;
  part_label : string;
  source_entity_type : string;
  source_node_id : string
}.

Definition parse_reverse_key_parts (key : bytes) (marker_pos : nat) : option ReverseKeyParts :=
  m ← key !! marker_pos;
  if decide (m = edge_markers.REVERSE) then
    '(target_database, r) ← decode_tuple_string (drop (marker_pos + 1) key);
    '(target_namespace, r) ← decode_tuple_string r;
    '(target_entity_type, r) ← decode_tuple_string r;
    '(target_node_id, r) ← decode_tuple_string r;
    '(label, r) ← decode_tuple_string r;
    '(source_entity_type, r) ← decode_tuple_string r;
    '(source_node_id, r) ← decode_tuple_string r;
    Some (mkReverseKeyParts target_database target_namespace target_entity_type target_node_id label
            source_entity_type source_node_id)
  else None.

(** ** Schema checks *)

Definition validate_edge_type (schema : EntitySchema) (label target_type : string) : result EdgeDirection :=
  match edges schema !! label with
  | Some edge_def =>
      match target edge_def with
      | Specific expected_type =>
          if String.eqb expected_type target_type then Ok (direction edge_def)
          else Err (TargetTypeMismatch label expected_type target_type)
      | Polymorphic => Ok (direction edge_def)
      end
  | None =>
      if allow_undeclared_edges (meta schema) then Ok Outgoing
      else Err (UndeclaredEdgeType (name schema) label)
  end.

Definition sort_key_for_label (schema : option EntitySchema) (label : string) (props : Props) : option Value :=
  s ← schema; def ← edges s !! label; k ← sort_key def; props !! k.

Definition label_is_bidirectional (schema : option EntitySchema) (label : string) : bool :=
  match schema ≫= (fun s => edges s !! label) with
  | Some e => bool_decide (direction e = Bidirectional)
  | None => false
  end.

Definition label_ownership (schema : option EntitySchema) (label : string) : OwnershipMode :=
  match schema ≫= (fun s => edges s !! label) with Some e => ownership e | None => SourceSite end.

Definition enforce_source_ownership (site_id source_type source_id : string) (source_locality : Z) : result unit :=
  match local_site_id site_id with
  | Some local_site =>
      if local_site =? source_locality then Ok tt else Err (VersionConflict source_type source_id)
  | None => Ok tt
  end.

(** The key by which the cascade and the scope estimate recognise an edge. *)
Definition dedupe_key (e : StoredEdge) : string :=
  (se_edge_id e ++ "|" ++ ref_entity_type (se_source e) ++ "|" ++ ref_node_id (se_source e) ++ "|" ++ se_label e
   ++ "|" ++ ref_entity_type (se_target e) ++ "|" ++ ref_node_id (se_target e) ++ "|"
   ++ bstr (show_i (se_created_at e)))%string.

(** ** Operations *)

(** The rows of an edge, written or removed in a transaction. *)
Definition set_edge_rows {S} `{Fdb S} (t : S) (keys : EdgeKeys) (b : bytes) : S :=
  foldl (fun t k => kv_set t k b) t (all_keys keys).
Definition clear_edge_rows {S} `{Fdb S} (t : S) (keys : EdgeKeys) : S :=
  foldl (fun t k => kv_clear t k) t (all_keys keys).

(** [.ok()] of a result. *)
Definition ok {A} (r : result A) : option A := match r with Ok a => Some a | Err _ => None end.

Definition CASCADE_FETCH_LIMIT : nat := 2048.
Definition CASCADE_TX_EDGE_LIMIT : nat := 256.
Definition FIND_LIMIT : nat := 2048.

Section EdgeOps.
Context {S : Type} `{Fdb S} `{Cbor NodeData} `{Cbor EdgeNodeData} `{Cbor EdgeData} `{Cbor EntitySchema} `{Cbor CdcEntry}.

(** *** Reads *)

Definition read_node_locality_in_txn (t : S) (database namespace entity_type node_id : string) : M S (option Z) :=
  parsed ← lift (parse_node_id node_id);
  row ← trx_get (fun e => Internal ("Failed to read node in txn: " ++ e)) t
          (data_key (Sub.data (Sub.namespace database namespace)) entity_type (NodeIds.to_bytes parsed));
  match row with
  | Some b => d ← lift (decode_cbor b); mret (Some (en_locality d))
  | None => mret None
  end.

Definition node_delete_guard_exists_in_txn (t : S) (database namespace entity_type node_id : string) : M S bool :=
  parsed ← lift (parse_node_id node_id);
  row ← trx_get (fun e => Internal ("Failed to read delete guard: " ++ e)) t
          (delete_guard_key (Sub.data (Sub.namespace database namespace)) entity_type (NodeIds.to_bytes parsed));
  mret (bool_decide (is_Some row)).

(** A source or target node that must exist. *)
Definition require_source (source : NodeRef) : M S StoredNode :=
  n ← get_node (ref_database source) (ref_namespace source) (ref_entity_type source) (ref_node_id source);
  lift (ok_or n (SourceNotFound (ref_entity_type source) (ref_node_id source))).
Definition require_target (target : NodeRef) : M S StoredNode :=
  n ← get_node (ref_database target) (ref_namespace target) (ref_entity_type target) (ref_node_id target);
  lift (ok_or n (TargetNotFound (ref_entity_type target) (ref_node_id target))).

(** The prefix of the forward rows of a node, with an optional label. *)
Definition forward_prefix (database namespace entity_type node_id : string) (label : option string) : bytes :=
  let b := Tuple.add_string (Tuple.add_string (Tuple.add_marker (Sub.pack (Sub.edge (Sub.namespace database namespace)))
             edge_markers.FORWARD) entity_type) node_id in
  Tuple.build (match label with Some l => Tuple.add_string b l | None => b end).

Definition reverse_prefix (database namespace entity_type node_id : string) (label : option string) : bytes :=
  let b := Tuple.add_string (Tuple.add_string (Tuple.add_string (Tuple.add_string
             (Tuple.add_marker (Sub.pack (Sub.edge (Sub.namespace database namespace)))
             edge_markers.REVERSE) database) namespace) entity_type) node_id in
  Tuple.build (match label with Some l => Tuple.add_string b l | None => b end).

Definition marker_pos (database namespace : string) : nat :=
  length (prefix (Sub.edge (Sub.namespace database namespace))).

(** The edge data of one forward row of [find_edge_data_by_endpoints]. *)
Definition find_row_data (database namespace : string) (key value : bytes) (read_version : option Z)
    : M S (option EdgeData) :=
  match value with
  | _ :: _ => mret (ok (decode_cbor value))
  | [] =>
      row ← get_at_read_version (<[marker_pos database namespace := edge_markers.FORWARD_META]> key) read_version;
      match row with Some b => d ← lift (decode_cbor b); mret (Some d) | None => mret None end
  end.

Fixpoint find_loop (database namespace : string) (source target : NodeRef) (label : string)
    (read_version : option Z) (rows : list (bytes * bytes)) : M S (option EdgeData) :=
  match rows with
  | [] => mret None
  | (key, forward_value) :: rows' =>
      edge_data ← find_row_data database namespace key forward_value read_version;
      match edge_data with
      | None => find_loop database namespace source target label read_version rows'
      | Some d =>
          if bool_decide (default label (ed_label d) = label) && bool_decide (default source (ed_source d) = source)
             && bool_decide (default target (ed_target d) = target)
          then mret (Some d)
          else find_loop database namespace source target label read_version rows'
      end
  end.

Definition find_edge_data_by_endpoints_at_read_version (database namespace : string) (source target : NodeRef)
    (label : string) (read_version : option Z) : M S (option EdgeData) :=
  let range_start := forward_prefix database namespace (ref_entity_type source) (ref_node_id source) (Some label) in
  rows ← get_range_at_read_version range_start (range_start ++ [Byte.xff]) FIND_LIMIT read_version;
  find_loop database namespace source target label read_version rows.

Definition find_edge_data_by_endpoints (database namespace : string) (source target : NodeRef) (label : string)
    : M S (option EdgeData) :=
  find_edge_data_by_endpoints_at_read_version database namespace source target label None.

(** *** Listing *)

(** One listed forward row: its own data, or the legacy metadata row. *)
Definition forward_row_data (legacy : gmap bytes bytes) (key_meta value : bytes) : result (option EdgeData) :=
  match (match value with _ :: _ => ok (decode_cbor value) | [] => None end) with
  | Some d => Ok (Some d)
  | None =>
      match legacy !! key_meta with
      | Some b => d ← decode_cbor b; Ok (Some d)
      | None => Ok None
      end
  end.

Definition stored_outgoing (database namespace entity_type node_id : string) (label_filter : option string)
    (d : EdgeData) : StoredEdge :=
  mkStoredEdge (ed_edge_id d)
    (default (mkNodeRef database namespace entity_type node_id) (ed_source d))
    (default (mkNodeRef database namespace "Unknown" "Unknown") (ed_target d))
    (default (default "unknown" label_filter) (ed_label d)) (ed_properties d) (ed_created_at d).

Fixpoint list_loop (database namespace entity_type node_id : string) (label_filter : option string)
    (legacy : gmap bytes bytes) (rows : list (bytes * bytes)) : result (list StoredEdge) :=
  match rows with
  | [] => Ok []
  | (key, value) :: rows' =>
      d ← forward_row_data legacy (<[marker_pos database namespace := edge_markers.FORWARD_META]> key) value;
      rest ← list_loop database namespace entity_type node_id label_filter legacy rows';
      Ok (match d with
          | Some d => stored_outgoing database namespace entity_type node_id label_filter d :: rest
          | None => rest
          end)
  end.

Definition list_edges_at_read_version (database namespace entity_type node_id : string)
    (label_filter : option string) (limit : nat) (read_version : option Z) : M S (list StoredEdge) :=
  let range_start := forward_prefix database namespace entity_type node_id label_filter in
  results ← get_range_at_read_version range_start (range_start ++ [Byte.xff]) limit read_version;
  legacy ← (if existsb (fun kv => match kv.2 with [] => true | _ => false end) results then
              let meta_start := <[marker_pos database namespace := edge_markers.FORWARD_META]> range_start in
              meta_rows ← get_range_at_read_version meta_start (meta_start ++ [Byte.xff]) limit read_version;
              mret (list_to_map (rev meta_rows) : gmap bytes bytes)
            else mret ∅);
  lift (list_loop database namespace entity_type node_id label_filter legacy results).

Definition list_edges (database namespace entity_type node_id : string)
    (label_filter : option string) (limit : nat) : M S (list StoredEdge) :=
  list_edges_at_read_version database namespace entity_type node_id label_filter limit None.

(** One listed reverse row: its own data, or a search by its key. *)
Definition reverse_row_data (database namespace : string) (key value : bytes) (read_version : option Z)
    : M S (option EdgeData) :=
  match value with
  | _ :: _ => mret (ok (decode_cbor value))
  | [] =>
      match parse_reverse_key_parts key (marker_pos database namespace) with
      | None => mret None
      | Some p =>
          find_edge_data_by_endpoints_at_read_version database namespace
            (mkNodeRef database namespace (source_entity_type p) (source_node_id p))
            (mkNodeRef (target_database p) (target_namespace p) (target_entity_type p) (target_node_id p))
            (part_label p) read_version
      end
  end.

Definition stored_incoming (database namespace entity_type node_id : string) (label_filter : option string)
    (d : EdgeData) : StoredEdge :=
  mkStoredEdge (ed_edge_id d)
    (default (mkNodeRef database namespace "Unknown" "Unknown") (ed_source d))
    (default (mkNodeRef database namespace entity_type node_id) (ed_target d))
    (default (default "unknown" label_filter) (ed_label d)) (ed_properties d) (ed_created_at d).

Definition list_incoming_edges_at_read_version (database namespace entity_type node_id : string)
    (label_filter : option string) (limit : nat) (read_version : option Z) : M S (list StoredEdge) :=
  let range_start := reverse_prefix database namespace entity_type node_id label_filter in
  rows ← get_range_at_read_version range_start (range_start ++ [Byte.xff]) limit read_version;
  fold_m rows (fun edges kv =>
    edge_data ← reverse_row_data database namespace kv.1 kv.2 read_version;
    match edge_data with
    | None => mret edges
    | Some d =>
        let e := stored_incoming database namespace entity_type node_id label_filter d in
        if String.eqb (ref_entity_type (se_target e)) entity_type && String.eqb (ref_node_id (se_target e)) node_id
        then mret (edges ++ [e]) else mret edges
    end) [].

Definition list_incoming_edges (database namespace entity_type node_id : string)
    (label_filter : option string) (limit : nat) : M S (list StoredEdge) :=
  list_incoming_edges_at_read_version database namespace entity_type node_id label_filter limit None.

(** *** Creation and deletion *)

Definition create_edge (st : EdgeStore) (database namespace : string) (source target : NodeRef) (label : string)
    (properties : Props) : M S StoredEdge :=
  schema ← require_schema (ref_database source) (ref_namespace source) (ref_entity_type source);
  dir ← lift (validate_edge_type schema label (ref_entity_type target));
  let is_bidirectional := bool_decide (dir = Bidirectional) in
  let sort_key_value := sort_key_for_label (Some schema) label properties in
  id ← allocate (es_allocator st) database namespace ("edge_" ++ label)%string;
  let edge_id := EdgeIds.to_string (mkEdgeId id.1 id.2) in
  keys ← lift (compute_edge_keys (Sub.namespace database namespace) source target label sort_key_value is_bidirectional);
  created ← now;
  edge_bytes ← lift (encode_cbor (mkEdgeData edge_id properties created (Some source) (Some target) (Some label)));
  t ← create_transaction;
  let cdc := new_accumulator (es_site_id st) in
  source_guard ← node_delete_guard_exists_in_txn t (ref_database source) (ref_namespace source)
                   (ref_entity_type source) (ref_node_id source);
  if (source_guard : bool) then throw (VersionConflict (ref_entity_type source) (ref_node_id source)) else
  target_guard ← node_delete_guard_exists_in_txn t (ref_database target) (ref_namespace target)
                   (ref_entity_type target) (ref_node_id target);
  if (target_guard : bool) then throw (VersionConflict (ref_entity_type target) (ref_node_id target)) else
  source_locality ← read_node_locality_in_txn t (ref_database source) (ref_namespace source)
                      (ref_entity_type source) (ref_node_id source);
  source_locality ← lift (ok_or source_locality (SourceNotFound (ref_entity_type source) (ref_node_id source)));
  lift (enforce_source_ownership (es_site_id st) (ref_entity_type source) (ref_node_id source) source_locality) ;;
  target_locality ← read_node_locality_in_txn t (ref_database target) (ref_namespace target)
                      (ref_entity_type target) (ref_node_id target);
  match target_locality with
  | None => throw (TargetNotFound (ref_entity_type target) (ref_node_id target))
  | Some _ =>
      let t := set_edge_rows t keys edge_bytes in
      let cdc := push cdc (EdgeCreate (ref_entity_type source) (ref_node_id source) (ref_entity_type target)
                             (ref_node_id target) label edge_id properties) in
      t ← flush cdc t database namespace;
      Failpoints.inject "edge.create.after_cdc_flush" ;;
      commit_or_internal t "create edge" ;;
      stored_at ← now;
      mret (mkStoredEdge edge_id source target label properties stored_at)
  end.

(** The keys of a stored edge, from the data found by its endpoints. *)
Definition keys_of_found (database namespace : string) (schema : option EntitySchema) (source target : NodeRef)
    (label : string) (d : EdgeData) : result EdgeKeys :=
  compute_edge_keys (Sub.namespace database namespace) source target label
    (sort_key_for_label schema label (ed_properties d)) (label_is_bidirectional schema label).

Definition delete_edge (st : EdgeStore) (database namespace : string) (source target : NodeRef) (label : string)
    : M S bool :=
  source_node ← require_source source;
  lift (enforce_source_ownership (es_site_id st) (ref_entity_type source) (ref_node_id source) (sn_locality source_node)) ;;
  schema ← get_schema (ref_database source) (ref_namespace source) (ref_entity_type source);
  edge_data ← find_edge_data_by_endpoints database namespace source target label;
  match edge_data with
  | None => mret false
  | Some d =>
      keys ← lift (keys_of_found database namespace schema source target label d);
      row ← db_get (forward_key keys);
      match row with
      | None => mret false
      | Some _ =>
          t ← create_transaction;
          let cdc := new_accumulator (es_site_id st) in
          let t := clear_edge_rows t keys in
          let cdc := push cdc (EdgeDelete (ref_entity_type source) (ref_node_id source) (ref_entity_type target)
                                 (ref_node_id target) label) in
          t ← flush cdc t database namespace;
          Failpoints.inject "edge.delete.after_cdc_flush" ;;
          commit_or_internal t "delete edge" ;;
          mret true
      end
  end.

(** *** The cascade of a node deletion *)

Definition Planned : Type := EdgeKeys * NodeRef * NodeRef * string.

(** The planning loop: distinct candidates whose keys can be resolved, up to the
    transaction limit. *)
Fixpoint plan_loop (seen : gset string) (planned : list Planned) (candidates : list StoredEdge)
    : M S (list Planned) :=
  match candidates with
  | [] => mret planned
  | e :: rest =>
      if decide (dedupe_key e ∈ seen) then plan_loop seen planned rest else
      let seen := {[dedupe_key e]} ∪ seen in
      let source := se_source e in
      schema ← get_schema (ref_database source) (ref_namespace source) (ref_entity_type source);
      edge_data ← find_edge_data_by_endpoints (ref_database source) (ref_namespace source) source (se_target e) (se_label e);
      match edge_data with
      | None => plan_loop seen planned rest
      | Some d =>
          keys ← lift (keys_of_found (ref_database source) (ref_namespace source) schema source (se_target e) (se_label e) d);
          let planned := planned ++ [(keys, source, se_target e, se_label e)] in
          if Nat.leb CASCADE_TX_EDGE_LIMIT (length planned) then mret planned
          else plan_loop seen planned rest
      end
  end.

Definition planned_op (p : Planned) : CdcOperation :=
  let '(_, source, target, label) := p in
  EdgeDelete (ref_entity_type source) (ref_node_id source) (ref_entity_type target) (ref_node_id target) label.

(** One transaction of the cascade. *)
Definition cascade_transaction (site database namespace : string) (planned : list Planned) (emit_cdc : bool) : M S unit :=
  t ← create_transaction;
  let t := foldl (fun t p => clear_edge_rows t p.1.1.1) t planned in
  let cdc := if emit_cdc then foldl (fun c p => push c (planned_op p)) (new_accumulator site) planned
             else new_accumulator site in
  t ← (if emit_cdc then
         t ← flush cdc t database namespace;
         Failpoints.inject "edge.cascade_delete.after_cdc_flush" ;; mret t
       else mret t);
  commit_or_internal t "cascade-delete edges for node".

(** The loop runs until no edge is listed; [None] when [fuel] rounds were not
    enough. *)
Fixpoint delete_edges_for_node_internal (fuel : nat) (site database namespace entity_type node_id : string)
    (emit_cdc : bool) (total_deleted : Z) : M S (option Z) :=
  match fuel with
  | O => mret None
  | Datatypes.S fuel' =>
      outgoing ← list_edges database namespace entity_type node_id None CASCADE_FETCH_LIMIT;
      incoming ← list_incoming_edges database namespace entity_type node_id None CASCADE_FETCH_LIMIT;
      let candidates := outgoing ++ incoming in
      if bool_decide (candidates = []) then mret (Some total_deleted) else
      planned ← plan_loop ∅ [] candidates;
      if bool_decide (length planned = 0%nat)
      then throw (Internal "Unable to resolve edge keys during node cascade delete") else
      cascade_transaction site database namespace planned emit_cdc ;;
      delete_edges_for_node_internal fuel' site database namespace entity_type node_id emit_cdc
        (u64_saturating_add total_deleted (Z.of_nat (length planned)))
  end.

Definition delete_edges_for_node (fuel : nat) (st : EdgeStore) (database namespace entity_type node_id : string)
    : M S (option Z) :=
  delete_edges_for_node_internal fuel (es_site_id st) database namespace entity_type node_id true 0.

Definition delete_edges_for_node_replica (fuel : nat) (st : EdgeStore) (database namespace entity_type node_id : string)
    : M S (option Z) :=
  delete_edges_for_node_internal fuel (es_site_id st) database namespace entity_type node_id false 0.

(** *** Replicated changes *)

Definition apply_replica_edge_create (database namespace : string) (source target : NodeRef) (label edge_id : string)
    (properties : Props) (event_timestamp : Z) (origin_site : string) : M S bool :=
  actor_site ← lift (parse_site_id origin_site "origin_site");
  source_node ← require_source source;
  _ ← require_target target;
  schema ← require_schema (ref_database source) (ref_namespace source) (ref_entity_type source);
  dir ← lift (validate_edge_type schema label (ref_entity_type target));
  if bool_decide (label_ownership (Some schema) label = SourceSite)
     && (negb (sn_locality source_node =? actor_site) && (event_timestamp <=? sn_updated_at source_node))
  then mret false else
  keys ← lift (compute_edge_keys (Sub.namespace database namespace) source target label
                 (sort_key_for_label (Some schema) label properties) (bool_decide (dir = Bidirectional)));
  row ← db_get (forward_key keys);
  match row with
  | Some _ => mret false
  | None =>
      edge_bytes ← lift (encode_cbor (mkEdgeData edge_id properties event_timestamp (Some source) (Some target) (Some label)));
      t ← create_transaction;
      let t := set_edge_rows t keys edge_bytes in
      commit_or_internal t "apply replicated edge create" ;;
      mret true
  end.

Definition apply_replica_edge_delete (database namespace : string) (source target : NodeRef) (label : string)
    (event_timestamp : Z) (origin_site : string) : M S bool :=
  actor_site ← lift (parse_site_id origin_site "origin_site");
  source_node ← require_source source;
  schema ← get_schema (ref_database source) (ref_namespace source) (ref_entity_type source);
  if bool_decide (label_ownership schema label = SourceSite)
     && negb (sn_locality source_node =? actor_site) && (event_timestamp <=? sn_updated_at source_node)
  then mret false else
  edge_data ← find_edge_data_by_endpoints database namespace source target label;
  match edge_data with
  | None => mret false
  | Some d =>
      keys ← lift (keys_of_found database namespace schema source target label d);
      row ← db_get (forward_key keys);
      match row with
      | None => mret false
      | Some _ =>
          t ← create_transaction;
          let t := clear_edge_rows t keys in
          commit_or_internal t "apply replicated edge delete" ;;
          mret true
      end
  end.
End EdgeOps.

(** ** Concrete codecs of edge rows *)

#[export] Instance NodeRef_countable : Countable NodeRef.
Proof.
  refine (inj_countable' (fun r => (ref_database r, ref_namespace r, ref_entity_type r, ref_node_id r))
    (fun '(d, n, t, i) => mkNodeRef d n t i) _). by intros [].
Defined.
#[export] Instance EdgeData_eq_dec : EqDecision EdgeData.
Proof. solve_decision. Defined.
#[export] Instance EdgeData_countable : Countable EdgeData.
Proof.
  refine (inj_countable' (fun d => (ed_edge_id d, ed_properties d, ed_created_at d, ed_source d, ed_target d, ed_label d))
    (fun '(i, p, c, s, t, l) => mkEdgeData i p c s t l) _). by intros [].
Defined.

#[export] Instance edge_cbor : Cbor EdgeData | 100 := countable_cbor EdgeData canon_edge.
#[export] Instance edge_cbor_laws : CborLaws EdgeData canon_edge storable_edge.
Proof. apply countable_cbor_laws. Qed.

(** The locality of a node row. *)
#[export] Instance edge_node_cbor : Cbor EdgeNodeData | 100 := {|
  cbor_encode d := cbor_encode (mkNodeData ∅ (en_locality d) 0 0);
  cbor_decode b := match cbor_decode (A:=NodeData) b with
                   | inl d => inl (mkEdgeNodeData (nd_locality d)) | inr e => inr e end
|}.
#[export] Instance edge_node_view : NodeView.
Proof. split. intros b d. unfold decode_cbor. simpl. by destruct (_ ≫= _); intros [= <-]. Qed.
