(* ===== verification/EdgeSpec.v ===== *)
(** * Edges: the stored edges of a namespace

    A namespace is well formed when every row of its edge subspace belongs to an
    edge all of whose rows are there, with the same bytes.  The edges a key space
    stores are then a set, and the operations of [Edge] add and remove elements
    of it.  The cascade of a node deletion is shown to end and to remove exactly
    the edges that touch the node. *)

From S2P Require Import Prelude Bytes Text Errors Types Encoding Subspace SchemaTypes Fdb MemFdb Cdc Ids Index TermIndex Namespace Jobs SchemaRegistry Node NodeAtomic NodeSpec Edge.

(** ** Keys as concatenations *)

Section Keys.
Context (db ns : string).
Local Abbreviation sub := (Sub.namespace db ns).
Local Abbreviation P := (prefix (Sub.edge (Sub.namespace db ns))).

Definition sk_bytes (sk : option bytes) : bytes := default [] sk.

Lemma forward_like_eq m s t l sk :
  forward_like (Sub.edge sub) m s t l sk
    = P ++ (m :: enc_str (ref_entity_type s) ++ (enc_str (ref_node_id s) ++ (enc_str l ++ (sk_bytes sk
        ++ (enc_str (ref_database t) ++ (enc_str (ref_namespace t) ++ (enc_str (ref_entity_type t) ++ enc_str (ref_node_id t)))))))).
Proof. unfold forward_like, sk_bytes. destruct sk; tuple_norm; reflexivity. Qed.

Lemma reverse_like_eq s t l :
  reverse_like (Sub.edge sub) s t l
    = P ++ (edge_markers.REVERSE :: enc_str (ref_database t) ++ (enc_str (ref_namespace t) ++ (enc_str (ref_entity_type t)
        ++ (enc_str (ref_node_id t) ++ (enc_str l ++ (enc_str (ref_entity_type s) ++ enc_str (ref_node_id s))))))).
Proof. unfold reverse_like. tuple_norm. reflexivity. Qed.

Definition opt_str (o : option string) : bytes := match o with Some l => enc_str l | None => [] end.

Lemma forward_prefix_eq et id o :
  forward_prefix db ns et id o = P ++ (edge_markers.FORWARD :: enc_str et ++ (enc_str id ++ opt_str o)).
Proof. unfold forward_prefix, opt_str. destruct o; tuple_norm; rewrite ?app_nil_r; reflexivity. Qed.

Lemma reverse_prefix_eq et id o :
  reverse_prefix db ns et id o
    = P ++ (edge_markers.REVERSE :: enc_str db ++ (enc_str ns ++ (enc_str et ++ (enc_str id ++ opt_str o)))).
Proof. unfold reverse_prefix, opt_str. destruct o; tuple_norm; rewrite ?app_nil_r; reflexivity. Qed.

Lemma not_ff_sk sk x s : not_ff (sk_bytes sk) -> not_ff (sk_bytes sk ++ (enc_str s ++ x)).
Proof. destruct (sk_bytes sk) as [|b r]; [intros _; apply not_ff_enc_str|]. intros Hb. exact Hb. Qed.
End Keys.

(** Peel equal packed strings off an equation of keys. *)
Ltac peel E :=
  let n := fresh "Hs" in
  apply enc_str_inj in E as [n E]; [|solve [auto using not_ff_enc_str, not_ff_nil, not_ff_sk]..].

(** ** Round trip of the reverse key *)

Lemma tuple_body_escape a r : not_ff r -> tuple_body (escape a ++ Byte.x00 :: r) = Some (a, r).
Proof.
  intros Hr. induction a as [|b a IH].
  - simpl. destruct r as [|c r]; [done|]. rewrite decide_False; [done|]. intros ->. by apply Hr.
  - rewrite escape_cons, <- app_assoc. case_decide as Hb; simpl.
    + by rewrite IH, Hb.
    + rewrite decide_False by done. by rewrite IH.
Qed.

Lemma decode_enc_str s r : str_ok s -> not_ff r -> decode_tuple_string (enc_str s ++ r) = Some (s, r).
Proof.
  intros Hs Hr. rewrite enc_str_app. unfold decode_tuple_string.
  rewrite decide_True by done. rewrite tuple_body_escape by done. by rewrite from_utf8_sbytes.
Qed.

Definition ref_ok (r : NodeRef) : Prop :=
  str_ok (ref_database r) /\ str_ok (ref_namespace r) /\ str_ok (ref_entity_type r) /\ str_ok (ref_node_id r).

(** The reverse key of an edge can be read back.  From the reverse
    key that [compute_edge_keys] builds, [parse_reverse_key_parts] recovers the
    target, the label and the source, for all names, null bytes included. *)
Theorem reverse_key_roundtrip (db ns : string) (source target : NodeRef) (label : string) (v : option Value) (bi : bool)
    (keys : EdgeKeys) :
  ref_ok source -> ref_ok target -> str_ok label ->
  compute_edge_keys (Sub.namespace db ns) source target label v bi = Ok keys ->
  parse_reverse_key_parts (reverse_key keys) (marker_pos db ns)
    = Some (mkReverseKeyParts (ref_database target) (ref_namespace target) (ref_entity_type target)
              (ref_node_id target) label (ref_entity_type source) (ref_node_id source)).
Proof.
  intros (_ & _ & Hst & Hsi) (Hd & Hn & Ht & Hi) Hl E. unfold compute_edge_keys in E.
  destruct (encode_sort_key v); simplify_eq/=. unfold edge_keys_with. cbn [reverse_key]. rewrite reverse_like_eq.
  unfold parse_reverse_key_parts, marker_pos.
  rewrite list_lookup_middle by done. cbn [mbind option_bind]. rewrite decide_True by done.
  rewrite drop_app_ge by lia.
  match goal with |- context [drop ?n _] => replace n with 1%nat by lia end. cbn [drop]. rewrite drop_0.
  rewrite <- (app_nil_r (enc_str (ref_node_id source))).
  do 7 (rewrite decode_enc_str by auto using not_ff_enc_str, not_ff_nil; cbn [mbind option_bind]). done.
Qed.

Lemma reverse_key_roundtrip_witness :
  exists keys, compute_edge_keys (Sub.namespace "db" "ns") (mkNodeRef "db" "ns" "Person" "1_1")
      (mkNodeRef "db" "ns" "Company" "1_2") "WORKS_AT" None false = Ok keys /\
    parse_reverse_key_parts (reverse_key keys) (marker_pos "db" "ns")
      = Some (mkReverseKeyParts "db" "ns" "Company" "1_2" "WORKS_AT" "Person" "1_1").
Proof.
  eexists. split; [reflexivity|].
  apply (reverse_key_roundtrip "db" "ns" (mkNodeRef "db" "ns" "Person" "1_1") (mkNodeRef "db" "ns" "Company" "1_2")
    "WORKS_AT" None false).
  - repeat split; vm_compute; reflexivity.
  - repeat split; vm_compute; reflexivity.
  - vm_compute. reflexivity.
  - reflexivity.
Defined.

(** ** The stored edges *)

Lemma forward_in_keys ks : forward_key ks ∈ all_keys ks.
Proof. left. Qed.
Lemma reverse_in_keys ks : reverse_key ks ∈ all_keys ks.
Proof. right. right. left. Qed.

Section EdgeState.
Context {S : Type} `{FdbLaws S} `{CborLaws EdgeData canon_edge storable_edge}.
Context (db ns : string) (conf : string -> option EntitySchema).
Implicit Types (t : S) (d : EdgeData) (s : NodeRef) (l : string) (ks : EdgeKeys).
Local Abbreviation sub := (Sub.namespace db ns).
Local Abbreviation P := (prefix (Sub.edge (Sub.namespace db ns))).

(** The data [d] is that of an edge of the namespace, from [s] to [tg] with label
    [l], whose rows have the keys [ks]. *)
Record edge_row d s tg l (sk : option bytes) ks : Prop := {
  er_source : ed_source d = Some s;
  er_target : ed_target d = Some tg;
  er_label : ed_label d = Some l;
  er_local : ref_database s = db /\ ref_namespace s = ns;
  er_schema : is_Some (conf (ref_entity_type s));
  er_sort : encode_sort_key (sort_key_for_label (conf (ref_entity_type s)) l (ed_properties d)) = Ok sk;
  er_not_ff : not_ff (sk_bytes sk);
  er_keys : ks = edge_keys_with sub s tg l sk (label_is_bidirectional (conf (ref_entity_type s)) l)
}.

Lemma edge_row_fun d s tg l sk ks s' tg' l' sk' ks' :
  edge_row d s tg l sk ks -> edge_row d s' tg' l' sk' ks' -> s = s' /\ tg = tg' /\ l = l' /\ ks = ks'.
Proof. intros [? ? ? _ _ Hk _ ->] [? ? ? _ _ Hk' _ ->]. simplify_eq. by rewrite Hk in Hk'; simplify_eq. Qed.

Lemma edge_row_found d s tg l sk ks :
  edge_row d s tg l sk ks -> keys_of_found db ns (conf (ref_entity_type s)) s tg l d = Ok ks.
Proof. intros [_ _ _ _ _ Hk _ ->]. unfold keys_of_found, compute_edge_keys. by rewrite Hk. Qed.

(** All rows of the edge are there, with the same bytes. *)
Definition rows_of t d ks (v : bytes) : Prop :=
  v <> [] /\ decode_cbor v = Ok d /\ forall k, k ∈ all_keys ks -> kv_get t k = Some v.

Definition stored t d : Prop := exists s tg l sk ks v, edge_row d s tg l sk ks /\ rows_of t d ks v.

Definition edges_wf t : Prop :=
  forall r v, kv_get t (P ++ r) = Some v ->
    exists d s tg l sk ks, edge_row d s tg l sk ks /\ P ++ r ∈ all_keys ks /\ rows_of t d ks v.

Lemma keys_in_edge s tg l sk bi k : k ∈ all_keys (edge_keys_with sub s tg l sk bi) -> exists r, k = P ++ r.
Proof.
  unfold all_keys, edge_keys_with. destruct bi; cbn [forward_key meta_key reverse_key reverse_direction_keys app];
    rewrite !forward_like_eq, !reverse_like_eq, !elem_of_cons; intros Hk; destruct_or?; subst; eauto;
    by apply not_elem_of_nil in Hk.
Qed.

Lemma row_keys_in_edge d s tg l sk ks k : edge_row d s tg l sk ks -> k ∈ all_keys ks -> exists r, k = P ++ r.
Proof. intros [_ _ _ _ _ _ _ ->]. apply keys_in_edge. Qed.

(** Edges with a common key are one edge. *)
Lemma rows_share t d ks v d' ks' v' k :
  rows_of t d ks v -> rows_of t d' ks' v' -> k ∈ all_keys ks -> k ∈ all_keys ks' -> d = d'.
Proof.
  intros (_ & Hd & Hk) (_ & Hd' & Hk') Hin Hin'. pose proof (Hk k Hin). pose proof (Hk' k Hin'). congruence.
Qed.

(** An edge is determined by its ends and its label. *)
Lemma stored_ends t d d' s tg l sk ks sk' ks' v v' :
  edge_row d s tg l sk ks -> rows_of t d ks v -> edge_row d' s tg l sk' ks' -> rows_of t d' ks' v' -> d = d'.
Proof.
  intros [_ _ _ _ _ _ _ ->] Hr [_ _ _ _ _ _ _ ->] Hr'.
  apply (rows_share t _ _ _ _ _ _ (reverse_like (Sub.edge sub) s tg l) Hr Hr').
  - apply (reverse_in_keys (edge_keys_with sub s tg l sk _)).
  - apply (reverse_in_keys (edge_keys_with sub s tg l sk' _)).
Qed.

Lemma edges_frame t t' :
  (forall r, kv_get t' (P ++ r) = kv_get t (P ++ r)) ->
  (edges_wf t -> edges_wf t') /\ (forall d, stored t d -> stored t' d).
Proof.
  intros Hk.
  assert (Hrow : forall d s tg l sk ks v, edge_row d s tg l sk ks -> rows_of t d ks v -> rows_of t' d ks v).
  { intros d s tg l sk ks v He (Hn & Hd & Hr). split; [done|]. split; [done|]. intros k Hin.
    destruct (row_keys_in_edge _ _ _ _ _ _ _ He Hin) as [r ->]. rewrite Hk. by apply Hr. }
  split.
  - intros Hwf r v. rewrite Hk. intros (d & s & tg & l & sk & ks & He & Hin & Hr)%Hwf.
    exists d, s, tg, l, sk, ks. eauto.
  - intros d (s & tg & l & sk & ks & v & He & Hr). exists s, tg, l, sk, ks, v. eauto.
Qed.

(** *** Removing edges *)

Lemma edges_removed t t' (gone : list bytes) (ds : EdgeData -> Prop) :
  edges_wf t ->
  (forall r, kv_get t' (P ++ r) = if decide (P ++ r ∈ gone) then None else kv_get t (P ++ r)) ->
  (forall k, k ∈ gone -> exists d s tg l sk ks v, ds d /\ edge_row d s tg l sk ks /\ rows_of t d ks v /\ k ∈ all_keys ks) ->
  (forall d s tg l sk ks k, ds d -> edge_row d s tg l sk ks -> k ∈ all_keys ks -> k ∈ gone) ->
  edges_wf t' /\ forall d, stored t' d <-> stored t d /\ ~ ds d.
Proof.
  intros Hwf Hget Hgone Hall.
  assert (Hkeep : forall d s tg l sk ks v, edge_row d s tg l sk ks -> rows_of t d ks v -> ~ ds d -> rows_of t' d ks v).
  { intros d s tg l sk ks v He Hr Hn. pose proof Hr as (Hne & Hd & Hk). split; [done|]. split; [done|]. intros k Hin.
    destruct (row_keys_in_edge _ _ _ _ _ _ _ He Hin) as [r ->]. rewrite Hget, decide_False; [by apply Hk|].
    intros (d' & s' & tg' & l' & sk' & ks' & v' & Hds & He' & Hr' & Hin')%Hgone.
    destruct Hn. by rewrite (rows_share t _ _ _ _ _ _ _ Hr Hr' Hin Hin'). }
  split.
  - intros r v. rewrite Hget. case_decide as Hg; [done|]. intros (d & s & tg & l & sk & ks & He & Hin & Hr)%Hwf.
    exists d, s, tg, l, sk, ks. split; [done|]. split; [done|]. eapply Hkeep; [done..|]. intros Hds. by eapply Hg, Hall.
  - intros d. split.
    + intros (s & tg & l & sk & ks & v & He & Hne & Hd & Hk).
      assert (Hnot : ~ ds d).
      { intros Hds. pose proof (Hk _ (reverse_in_keys ks)) as Hv.
        destruct (row_keys_in_edge _ _ _ _ _ _ _ He (reverse_in_keys ks)) as [r Er].
        rewrite Er, Hget, decide_True in Hv; [done|]. rewrite <- Er. eapply Hall; [done..|apply reverse_in_keys]. }
      split; [|done]. exists s, tg, l, sk, ks, v. split; [done|]. split; [done|]. split; [done|]. intros k Hin.
      pose proof (Hk k Hin) as Hv. destruct (row_keys_in_edge _ _ _ _ _ _ _ He Hin) as [r ->].
      rewrite Hget in Hv. by case_decide.
    + intros [(s & tg & l & sk & ks & v & He & Hr) Hn]. exists s, tg, l, sk, ks, v. eauto.
Qed.

(** *** Adding an edge *)

Lemma edges_added t t' d s tg l sk ks b :
  edges_wf t -> edge_row d s tg l sk ks -> b <> [] -> decode_cbor b = Ok d ->
  (forall k, k ∈ all_keys ks -> kv_get t k = None) ->
  (forall r, kv_get t' (P ++ r) = if decide (P ++ r ∈ all_keys ks) then Some b else kv_get t (P ++ r)) ->
  edges_wf t' /\ forall d', stored t' d' <-> stored t d' \/ d' = d.
Proof.
  intros Hwf He Hb Hd Hfree Hget.
  assert (Hkeep : forall d' s' tg' l' sk' ks' v', edge_row d' s' tg' l' sk' ks' -> rows_of t d' ks' v' -> rows_of t' d' ks' v').
  { intros d' s' tg' l' sk' ks' v' He' (Hne & Hd' & Hk). split; [done|]. split; [done|]. intros k Hin.
    pose proof (Hk k Hin) as Hv. destruct (row_keys_in_edge _ _ _ _ _ _ _ He' Hin) as [r ->].
    rewrite Hget, decide_False; [done|]. intros Hin2. by rewrite Hfree in Hv. }
  assert (Hnew : rows_of t' d ks b).
  { split; [done|]. split; [done|]. intros k Hin. destruct (row_keys_in_edge _ _ _ _ _ _ _ He Hin) as [r ->].
    by rewrite Hget, decide_True. }
  split.
  - intros r v. rewrite Hget. case_decide as Hin.
    + intros [= <-]. exists d, s, tg, l, sk, ks. done.
    + intros (d' & s' & tg' & l' & sk' & ks' & He' & Hin' & Hr')%Hwf. exists d', s', tg', l', sk', ks'. eauto.
  - intros d'. split.
    + intros (s' & tg' & l' & sk' & ks' & v' & He' & Hne & Hd' & Hk').
      destruct (decide (Exists (fun k => k ∈ all_keys ks) (all_keys ks'))) as [(k & Hin' & Hin)%Exists_exists|Hno].
      * right. pose proof (Hk' k Hin') as Hv. destruct (row_keys_in_edge _ _ _ _ _ _ _ He Hin) as [r ->].
        rewrite Hget, decide_True in Hv by done. congruence.
      * left. exists s', tg', l', sk', ks', v'. split; [done|]. split; [done|]. split; [done|]. intros k Hin.
        pose proof (Hk' k Hin) as Hv. destruct (row_keys_in_edge _ _ _ _ _ _ _ He' Hin) as [r ->].
        rewrite Hget, decide_False in Hv; [done|]. intros Hin2. apply Hno, Exists_exists. eauto.
    + intros [(s' & tg' & l' & sk' & ks' & v' & He' & Hr')| ->].
      * exists s', tg', l', sk', ks', v'. eauto.
      * exists s, tg, l, sk, ks, b. done.
Qed.
End EdgeState.

(** ** Rows under a prefix *)

Section Prefixes.
Context (db ns : string).
Local Abbreviation edge := (Sub.edge (Sub.namespace db ns)).
Implicit Types (s t : NodeRef) (l et id : string) (o : option string) (sk : option bytes) (r : bytes).

Definition label_in o l : Prop := match o with Some l' => l' = l | None => True end.

Lemma not_ff_opt o r : not_ff r -> not_ff (opt_str o ++ r).
Proof. destruct o; [intros _; apply not_ff_enc_str|done]. Qed.

Lemma peel_label o l x r : not_ff r -> not_ff x -> opt_str o ++ r = enc_str l ++ x -> label_in o l.
Proof. destruct o as [l'|]; [|done]. intros Hr Hx E. by apply enc_str_inj in E as [? _]. Qed.

Lemma forward_under m s t l sk et id o r :
  not_ff (sk_bytes sk) -> not_ff r -> forward_like edge m s t l sk = forward_prefix db ns et id o ++ r ->
  m = edge_markers.FORWARD /\ ref_entity_type s = et /\ ref_node_id s = id /\ label_in o l.
Proof.
  intros Hsk Hr. rewrite forward_like_eq, forward_prefix_eq, <- !app_assoc, <- !app_comm_cons, <- !app_assoc.
  intros E%app_inv_head. apply cons_tail in E as [-> E].
  peel E. apply enc_str_inj in E as [Hi E]; [|apply not_ff_enc_str|by apply not_ff_opt].
  split; [done|]. split; [done|]. split; [done|]. symmetry in E.
  eapply peel_label; [exact Hr| |exact E]. by apply not_ff_sk.
Qed.

Lemma reverse_not_forward s t l et id o r : reverse_like edge s t l <> forward_prefix db ns et id o ++ r.
Proof.
  rewrite reverse_like_eq, forward_prefix_eq, <- app_assoc. intros E%app_inv_head. by apply cons_tail in E as [? _].
Qed.

Lemma forward_here s t l sk o :
  not_ff (sk_bytes sk) -> label_in o l ->
  exists r, forward_like edge edge_markers.FORWARD s t l sk
    = forward_prefix db ns (ref_entity_type s) (ref_node_id s) o ++ r /\ not_ff r.
Proof.
  intros Hsk Ho. rewrite forward_like_eq, forward_prefix_eq. destruct o as [l'|]; simpl in Ho; subst; cbn [opt_str];
    rewrite ?app_nil_r; eexists; (split; [by rewrite <- !app_assoc, <- !app_comm_cons, <- !app_assoc|]).
  - by apply not_ff_sk.
  - apply not_ff_enc_str.
Qed.

Lemma reverse_under s t l et id o r :
  not_ff r -> reverse_like edge s t l = reverse_prefix db ns et id o ++ r ->
  ref_database t = db /\ ref_namespace t = ns /\ ref_entity_type t = et /\ ref_node_id t = id /\ label_in o l.
Proof.
  intros Hr. rewrite reverse_like_eq, reverse_prefix_eq, <- !app_assoc, <- !app_comm_cons, <- !app_assoc.
  intros E%app_inv_head. apply cons_tail in E as [_ E].
  do 3 peel E. apply enc_str_inj in E as [Hi E]; [|apply not_ff_enc_str|by apply not_ff_opt].
  do 4 (split; [done|]). symmetry in E. eapply peel_label; [exact Hr| |exact E]. apply not_ff_enc_str.
Qed.

Lemma forward_not_reverse m s t l sk et id o r :
  m <> edge_markers.REVERSE -> forward_like edge m s t l sk <> reverse_prefix db ns et id o ++ r.
Proof.
  intros Hm. rewrite forward_like_eq, reverse_prefix_eq, <- app_assoc. intros E%app_inv_head.
  by apply cons_tail in E as [? _].
Qed.

Lemma reverse_here s t l o :
  ref_database t = db -> ref_namespace t = ns -> label_in o l ->
  exists r, reverse_like edge s t l = reverse_prefix db ns (ref_entity_type t) (ref_node_id t) o ++ r /\ not_ff r.
Proof.
  intros Hd Hn Ho. rewrite reverse_like_eq, reverse_prefix_eq, Hd, Hn.
  destruct o as [l'|]; simpl in Ho; subst; cbn [opt_str];
    rewrite ?app_nil_r; eexists; (split; [by rewrite <- !app_assoc, <- !app_comm_cons, <- !app_assoc|]); apply not_ff_enc_str.
Qed.
End Prefixes.

(** ** Listing *)

Section Listing.
Context {S : Type} `{FdbLaws S} `{CborLaws EdgeData canon_edge storable_edge}.
Context (db ns : string) (conf : string -> option EntitySchema).
Implicit Types (t : S) (d : EdgeData) (s tg : NodeRef) (l et id : string) (o : option string) (w : World S).
Local Abbreviation edge_row := (edge_row db ns conf).
Local Abbreviation stored := (stored (S:=S) db ns conf).
Local Abbreviation edges_wf := (edges_wf (S:=S) db ns conf).

(** The edge as the API shows it. *)
Definition view d : StoredEdge := stored_outgoing "" "" "" "" None d.
Definition view_row (v : bytes) : StoredEdge :=
  match decode_cbor v with Ok d => view d | Err _ => view (mkEdgeData "" ∅ 0 None None None) end.

Definition bidi s l : bool := label_is_bidirectional (conf (ref_entity_type s)) l.
Definition is_node (r : NodeRef) et id : Prop := ref_entity_type r = et /\ ref_node_id r = id.
Definition is_local (r : NodeRef) : Prop := ref_database r = db /\ ref_namespace r = ns.

(** The edges listed as outgoing of a node: those that leave it, and the
    bidirectional ones that reach it. *)
Definition leaves et id o d : Prop :=
  exists s tg l sk ks, edge_row d s tg l sk ks /\ label_in o l /\
    (is_node s et id \/ bidi s l = true /\ is_node tg et id).

(** The edges listed as incoming of a node: those that reach it, or reach the
    node of the same type and identifier of another namespace and come back. *)
Definition enters et id o d : Prop :=
  exists s tg l sk ks, edge_row d s tg l sk ks /\ label_in o l /\ is_node tg et id /\
    (is_local tg \/ bidi s l = true /\ is_node s et id).

Lemma elem_all_keys s tg l sk bi k :
  k ∈ all_keys (edge_keys_with (Sub.namespace db ns) s tg l sk bi) <->
  let edge := Sub.edge (Sub.namespace db ns) in
  k = forward_like edge edge_markers.FORWARD s tg l sk \/ k = forward_like edge edge_markers.FORWARD_META s tg l sk \/
  k = reverse_like edge s tg l \/
  bi = true /\ (k = forward_like edge edge_markers.FORWARD tg s l sk \/ k = reverse_like edge tg s l).
Proof.
  unfold all_keys, edge_keys_with. destruct bi; cbn [forward_key meta_key reverse_key reverse_direction_keys app];
    rewrite !elem_of_cons, elem_of_nil; naive_solver.
Qed.

Lemma forward_rows t et id o k v :
  edges_wf t -> let p := forward_prefix db ns et id o in (k, v) ∈ kv_range t p (p ++ [Byte.xff]) ->
  exists d s tg l sk ks, edge_row d s tg l sk ks /\ k ∈ all_keys ks /\ rows_of t d ks v /\ leaves et id o d.
Proof.
  intros Hwf p [(r & -> & Hr)%in_scan_prefix Hv]%kv_range_elem.
  assert (exists r', p ++ r = prefix (Sub.edge (Sub.namespace db ns)) ++ r') as [r' E].
  { unfold p. rewrite forward_prefix_eq, <- app_assoc. eauto. }
  rewrite E in Hv. destruct (Hwf _ _ Hv) as (d & s & tg & l & sk & ks & He & Hin & Hrow). rewrite <- E in Hin.
  exists d, s, tg, l, sk, ks. split; [done|]. split; [done|]. split; [done|].
  exists s, tg, l, sk, ks. split; [done|]. pose proof He as [_ _ _ _ _ _ Hff ->].
  apply elem_all_keys in Hin as [Ek|[Ek|[Ek|[Hb [Ek|Ek]]]]]; symmetry in Ek.
  - apply forward_under in Ek as (_ & ? & ? & ?); [|done..]. split; [done|]. by left.
  - by apply forward_under in Ek as (? & _); [|done..].
  - by apply reverse_not_forward in Ek.
  - apply forward_under in Ek as (_ & ? & ? & ?); [|done..]. split; [done|]. by right.
  - by apply reverse_not_forward in Ek.
Qed.

Lemma forward_rows_complete t et id o d :
  stored t d -> leaves et id o d -> let p := forward_prefix db ns et id o in
  exists k v, (k, v) ∈ kv_range t p (p ++ [Byte.xff]) /\ decode_cbor v = Ok d.
Proof.
  intros (s & tg & l & sk & ks & v & He & _ & Hd & Hk) (s' & tg' & l' & sk' & ks' & He' & Hl & Hn) p.
  destruct (edge_row_fun _ _ _ _ _ _ _ _ _ _ _ _ _ _ He He') as (<- & <- & <- & <-).
  pose proof He as [_ _ _ _ _ _ Hff ->]. destruct Hn as [[<- <-]|[Hb [<- <-]]].
  - destruct (forward_here db ns s tg l sk o Hff Hl) as (r & Er & Hr). exists (p ++ r), v. split; [|exact Hd].
    apply kv_range_elem. split; [apply in_scan_prefix; eauto|]. unfold p. rewrite <- Er. apply Hk, elem_all_keys. unfold bidi in *. tauto.
  - destruct (forward_here db ns tg s l sk o Hff Hl) as (r & Er & Hr). exists (p ++ r), v. split; [|exact Hd].
    apply kv_range_elem. split; [apply in_scan_prefix; eauto|]. unfold p. rewrite <- Er. apply Hk, elem_all_keys. unfold bidi in *. tauto.
Qed.

Lemma reverse_rows t et id o k v :
  edges_wf t -> let p := reverse_prefix db ns et id o in (k, v) ∈ kv_range t p (p ++ [Byte.xff]) ->
  exists d s tg l sk ks, edge_row d s tg l sk ks /\ k ∈ all_keys ks /\ rows_of t d ks v /\ label_in o l /\
    (is_node tg et id /\ is_local tg \/ bidi s l = true /\ is_node s et id).
Proof.
  intros Hwf p [(r & -> & Hr)%in_scan_prefix Hv]%kv_range_elem.
  assert (exists r', p ++ r = prefix (Sub.edge (Sub.namespace db ns)) ++ r') as [r' E].
  { unfold p. rewrite reverse_prefix_eq, <- app_assoc. eauto. }
  rewrite E in Hv. destruct (Hwf _ _ Hv) as (d & s & tg & l & sk & ks & He & Hin & Hrow). rewrite <- E in Hin.
  exists d, s, tg, l, sk, ks. split; [done|]. split; [done|]. split; [done|].
  pose proof He as [_ _ _ _ _ _ Hff ->].
  apply elem_all_keys in Hin as [Ek|[Ek|[Ek|[Hb [Ek|Ek]]]]]; symmetry in Ek.
  - by apply forward_not_reverse in Ek.
  - by apply forward_not_reverse in Ek.
  - apply reverse_under in Ek as (? & ? & ? & ? & ?); [|done]. split; [done|]. by left.
  - by apply forward_not_reverse in Ek.
  - apply reverse_under in Ek as (? & ? & ? & ? & ?); [|done]. split; [done|]. by right.
Qed.

Lemma reverse_rows_complete t et id o d :
  stored t d -> enters et id o d -> let p := reverse_prefix db ns et id o in
  exists k v, (k, v) ∈ kv_range t p (p ++ [Byte.xff]) /\ decode_cbor v = Ok d.
Proof.
  intros (s & tg & l & sk & ks & v & He & _ & Hd & Hk) (s' & tg' & l' & sk' & ks' & He' & Hl & Hn & Hor) p.
  destruct (edge_row_fun _ _ _ _ _ _ _ _ _ _ _ _ _ _ He He') as (<- & <- & <- & <-).
  pose proof He as [_ _ _ [Hdb Hns] _ _ _ ->]. destruct Hor as [[Htd Htn]|[Hb [Hst Hsi]]].
  - destruct Hn as [<- <-]. destruct (reverse_here db ns s tg l o Htd Htn Hl) as (r & Er & Hr).
    exists (p ++ r), v. split; [|exact Hd].
    apply kv_range_elem. split; [apply in_scan_prefix; eauto|]. unfold p. rewrite <- Er. apply Hk, elem_all_keys. unfold bidi in *. tauto.
  - destruct (reverse_here db ns tg s l o Hdb Hns Hl) as (r & Er & Hr). exists (p ++ r), v. split; [|exact Hd].
    apply kv_range_elem. split; [apply in_scan_prefix; eauto|]. unfold p. rewrite <- Hst, <- Hsi, <- Er.
    apply Hk, elem_all_keys. unfold bidi in *. tauto.
Qed.
End Listing.
