(* ===== verification/EdgeList.v ===== *)
(** * Edges: reads of a well-formed namespace

    What the listings and the search by endpoints return, in terms of the stored
    edges. *)

From S2P Require Import Prelude Bytes Text Errors Types Encoding Subspace SchemaTypes Fdb MemFdb Cdc Ids.
From S2P Require Import Index TermIndex Namespace Jobs SchemaRegistry Node NodeAtomic NodeSpec Edge EdgeSpec.

Section Reads.
Context {S : Type} `{FdbLaws S} `{CborLaws EdgeData canon_edge storable_edge}.
Context (env : Env) (Henv : no_faults env) (db ns : string) (conf : string -> option EntitySchema).
Implicit Types (t : S) (d : EdgeData) (s tg : NodeRef) (l et id : string) (o : option string) (w : World S).
Local Abbreviation edge_row := (edge_row db ns conf).
Local Abbreviation stored := (stored (S:=S) db ns conf).
Local Abbreviation edges_wf := (edges_wf (S:=S) db ns conf).
Local Abbreviation leaves := (leaves db ns conf).
Local Abbreviation enters := (enters db ns conf).

(** A row that holds the data of an edge with both ends and a label. *)
Definition full_row (v : bytes) d : Prop :=
  v <> [] /\ decode_cbor v = Ok d /\ is_Some (ed_source d) /\ is_Some (ed_target d) /\ is_Some (ed_label d).

Lemma rows_full t d s tg l sk ks v : edge_row d s tg l sk ks -> rows_of t d ks v -> full_row v d.
Proof. intros [Hs Ht Hl _ _ _ _ _] (Hn & Hd & _). unfold full_row. rewrite Hs, Ht, Hl. eauto 8. Qed.

Lemma view_full v d : full_row v d -> view_row v = view d.
Proof. intros (_ & Hd & _). unfold view_row. by rewrite Hd. Qed.

Lemma outgoing_full a b et id o v d : full_row v d -> stored_outgoing a b et id o d = view_row v.
Proof.
  intros Hf. rewrite (view_full v d Hf). destruct Hf as (_ & _ & [s Hs] & [tg Ht] & [l Hl]).
  unfold view, stored_outgoing. by rewrite Hs, Ht, Hl.
Qed.

Lemma incoming_full a b et id o v d : full_row v d -> stored_incoming a b et id o d = view_row v.
Proof.
  intros Hf. rewrite (view_full v d Hf). destruct Hf as (_ & _ & [s Hs] & [tg Ht] & [l Hl]).
  unfold view, stored_outgoing, stored_incoming. by rewrite Hs, Ht, Hl.
Qed.

Lemma list_loop_full a b et id o legacy rows :
  Forall (fun kv => exists d, full_row kv.2 d) rows ->
  list_loop a b et id o legacy rows = Ok (map (fun kv => view_row kv.2) rows).
Proof.
  induction rows as [|[k v] rows IH]; [done|]. intros [(d & Hf) Hr]%Forall_cons. cbn [list_loop snd] in *.
  unfold forward_row_data. pose proof Hf as (Hne & Hd & _). destruct v as [|b0 v]; [done|].
  rewrite Hd, (IH Hr). cbn [ok mbind result_bind map snd]. do 2 f_equal. by apply outgoing_full.
Qed.

Lemma full_no_legacy rows :
  Forall (fun kv : bytes * bytes => exists d, full_row kv.2 d) rows ->
  existsb (fun kv : bytes * bytes => match kv.2 with [] => true | _ => false end) rows = false.
Proof.
  induction rows as [|[k v] rows IH]; [done|]. intros [(d & Hne & _) Hr]%Forall_cons. cbn [existsb snd] in *.
  rewrite (IH Hr). by destruct v.
Qed.

(** The rows of a listing. *)
Definition out_rows t et id o (limit : nat) : list (bytes * bytes) :=
  let p := forward_prefix db ns et id o in firstn limit (kv_range t p (p ++ [Byte.xff])).
Definition in_rows t et id o (limit : nat) : list (bytes * bytes) :=
  let p := reverse_prefix db ns et id o in firstn limit (kv_range t p (p ++ [Byte.xff])).

Lemma out_rows_full t et id o limit : edges_wf t -> Forall (fun kv => exists d, full_row kv.2 d) (out_rows t et id o limit).
Proof.
  intros Hwf. apply Forall_take, Forall_forall. intros [k v] Hin.
  apply (forward_rows db ns conf t et id o k v Hwf) in Hin as (d & s & tg & l & sk & ks & He & _ & Hr & _).
  exists d. by eapply rows_full.
Qed.

Lemma in_rows_full t et id o limit : edges_wf t -> Forall (fun kv => exists d, full_row kv.2 d) (in_rows t et id o limit).
Proof.
  intros Hwf. apply Forall_take, Forall_forall. intros [k v] Hin.
  apply (reverse_rows db ns conf t et id o k v Hwf) in Hin as (d & s & tg & l & sk & ks & He & _ & Hr & _).
  exists d. by eapply rows_full.
Qed.

Lemma run_list_edges w et id o limit :
  edges_wf (w_kv w) ->
  exists w', list_edges db ns et id o limit env w
    = (Ok (map (fun kv => view_row kv.2) (out_rows (w_kv w) et id o limit)), w') /\ idle w w'.
Proof.
  intros Hwf. unfold list_edges, list_edges_at_read_version.
  destruct (run_get_range_at env Henv (forward_prefix db ns et id o) (forward_prefix db ns et id o ++ [Byte.xff]) limit None w)
    as [n E]. rewrite (bind_run _ _ _ _ _ _ E). cbn [snapshot]. fold (out_rows (w_kv w) et id o limit).
  pose proof (out_rows_full (w_kv w) et id o limit Hwf) as Hf. rewrite (full_no_legacy _ Hf), run_ret.
  rewrite list_loop_full by done. eexists. split; [reflexivity|]. done.
Qed.

(** The filter of an incoming listing. *)
Definition at_node et id (e : StoredEdge) : bool :=
  String.eqb (ref_entity_type (se_target e)) et && String.eqb (ref_node_id (se_target e)) id.

Lemma run_incoming_loop et id o rows out w :
  Forall (fun kv => exists d, full_row kv.2 d) rows ->
  fold_m rows (fun edges kv =>
      edge_data ← reverse_row_data db ns kv.1 kv.2 None;
      match edge_data with
      | None => mret edges
      | Some d =>
          let e := stored_incoming db ns et id o d in
          if String.eqb (ref_entity_type (se_target e)) et && String.eqb (ref_node_id (se_target e)) id
          then mret (edges ++ [e]) else mret edges
      end) out env w
    = (Ok (out ++ List.filter (at_node et id) (map (fun kv => view_row kv.2) rows)), w).
Proof.
  revert out. induction rows as [|[k v] rows IH]; intros out; cbn [fold_m]; [by rewrite app_nil_r|].
  intros [(d & Hf) Hr]%Forall_cons. cbn [fst snd] in *. pose proof Hf as (Hne & Hd & _).
  rewrite (bind_run _ _ env w (out ++ (if at_node et id (view_row v) then [view_row v] else [])) w).
  - rewrite (IH _ Hr). cbn [map List.filter snd]. rewrite <- app_assoc. by destruct (at_node et id (view_row v)).
  - unfold reverse_row_data. destruct v as [|b0 v]; [done|]. rewrite Hd, run_ret. cbn [ok].
    rewrite (incoming_full db ns et id o (b0 :: v) d Hf). unfold at_node.
    destruct (String.eqb _ _ && String.eqb _ _); [done|]. by rewrite app_nil_r.
Qed.

Lemma run_list_incoming w et id o limit :
  edges_wf (w_kv w) ->
  exists w', list_incoming_edges db ns et id o limit env w
    = (Ok (List.filter (at_node et id) (map (fun kv => view_row kv.2) (in_rows (w_kv w) et id o limit))), w') /\ idle w w'.
Proof.
  intros Hwf. unfold list_incoming_edges, list_incoming_edges_at_read_version.
  destruct (run_get_range_at env Henv (reverse_prefix db ns et id o) (reverse_prefix db ns et id o ++ [Byte.xff]) limit None w)
    as [n E]. rewrite (bind_run _ _ _ _ _ _ E). cbn [snapshot]. fold (in_rows (w_kv w) et id o limit).
  rewrite run_incoming_loop by (by apply in_rows_full). eexists. split; [reflexivity|]. done.
Qed.
(** *** Membership *)

Lemma stored_intro t d s tg l sk ks v : edge_row d s tg l sk ks -> rows_of t d ks v -> stored t d.
Proof. intros He Hr. exists s, tg, l, sk, ks, v. done. Qed.

Lemma elem_out_rows t et id o limit e :
  edges_wf t -> e ∈ map (fun kv => view_row kv.2) (out_rows t et id o limit) ->
  exists d, stored t d /\ leaves et id o d /\ e = view d.
Proof.
  intros Hwf ([k v] & -> & Hin)%list_elem_of_fmap. apply elem_of_take_1 in Hin.
  apply (forward_rows db ns conf t et id o k v Hwf) in Hin as (d & s & tg & l & sk & ks & He & _ & Hr & Hl).
  exists d. split; [by eapply stored_intro|]. split; [done|]. eapply view_full, rows_full; done.
Qed.

Lemma out_rows_elem t et id o limit d :
  (length (kv_range t (forward_prefix db ns et id o) (forward_prefix db ns et id o ++ [Byte.xff])) <= limit)%nat ->
  stored t d -> leaves et id o d -> view d ∈ map (fun kv => view_row kv.2) (out_rows t et id o limit).
Proof.
  intros Hlen Hs Hl. destruct (forward_rows_complete db ns conf t et id o d Hs Hl) as (k & v & Hin & Hd).
  apply list_elem_of_fmap. exists (k, v). cbn [snd]. unfold view_row. rewrite Hd. split; [done|].
  unfold out_rows. by rewrite take_ge by done.
Qed.

Lemma elem_in_rows t et id o limit e :
  edges_wf t -> e ∈ List.filter (at_node et id) (map (fun kv => view_row kv.2) (in_rows t et id o limit)) ->
  exists d, stored t d /\ enters et id o d /\ e = view d.
Proof.
  intros Hwf [Hin Hat]%list_elem_of_In%filter_In. apply list_elem_of_In, list_elem_of_fmap in Hin as ([k v] & -> & Hin).
  apply elem_of_take_1 in Hin.
  apply (reverse_rows db ns conf t et id o k v Hwf) in Hin as (d & s & tg & l & sk & ks & He & _ & Hr & Hl & Hor).
  pose proof (rows_full _ _ _ _ _ _ _ _ He Hr) as Hf. cbn [snd] in *. rewrite (view_full v d Hf) in *.
  exists d. split; [by eapply stored_intro|]. split; [|done]. exists s, tg, l, sk, ks. split; [done|]. split; [done|].
  unfold at_node, view, stored_outgoing in Hat. cbn [se_target] in Hat. rewrite (er_target _ _ _ _ _ _ _ _ _ He) in Hat.
  cbn [default] in Hat. apply andb_true_iff in Hat as [Ht%String.eqb_eq Hi%String.eqb_eq].
  split; [done|]. destruct Hor as [[_ ?]|[? ?]]; [by left|by right].
Qed.

Lemma in_rows_elem t et id o limit d :
  (length (kv_range t (reverse_prefix db ns et id o) (reverse_prefix db ns et id o ++ [Byte.xff])) <= limit)%nat ->
  stored t d -> enters et id o d ->
  view d ∈ List.filter (at_node et id) (map (fun kv => view_row kv.2) (in_rows t et id o limit)).
Proof.
  intros Hlen Hs Hl. destruct (reverse_rows_complete db ns conf t et id o d Hs Hl) as (k & v & Hin & Hd).
  apply list_elem_of_In, filter_In. split.
  - apply list_elem_of_In, list_elem_of_fmap. exists (k, v). cbn [snd]. unfold view_row. rewrite Hd. split; [done|].
    unfold in_rows. by rewrite take_ge by done.
  - destruct Hl as (s & tg & l & sk & ks & He & _ & [<- <-] & _). unfold at_node, view, stored_outgoing. cbn [se_target].
    rewrite (er_target _ _ _ _ _ _ _ _ _ He). cbn [default]. by rewrite !String.eqb_refl.
Qed.

(** *** The search by endpoints *)

(** The forward rows of a source and a label fit in one page of the search. *)
Definition few t : Prop := forall et id l,
  let p := forward_prefix db ns et id (Some l) in (length (kv_range t p (p ++ [Byte.xff])) <= FIND_LIMIT)%nat.

Lemma run_find_loop t s tg l rows w :
  edges_wf t -> (forall k v, (k, v) ∈ rows -> exists d s tg l sk ks, edge_row d s tg l sk ks /\ rows_of t d ks v) ->
  exists r, find_loop db ns s tg l None rows env w = (Ok r, w) /\
    match r with
    | Some d => exists sk ks v, edge_row d s tg l sk ks /\ rows_of t d ks v
    | None => forall k v d sk ks, (k, v) ∈ rows -> decode_cbor v = Ok d -> ~ edge_row d s tg l sk ks
    end.
Proof.
  intros Hwf. induction rows as [|[k v] rows IH]; intros Hrows; cbn [find_loop].
  { exists None. split; [done|]. intros ? ? ? ? ? Hin. by apply not_elem_of_nil in Hin. }
  destruct (Hrows k v) as (d & s' & tg' & l' & sk' & ks' & He & Hr); [left|].
  pose proof Hr as (Hne & Hd & _). pose proof He as [Hs Ht Hl _ _ _ _ _].
  rewrite (bind_run _ _ env w (Some d) w) by (unfold find_row_data; destruct v; [done|]; by rewrite Hd).
  rewrite Hs, Ht, Hl. cbn [default].
  destruct (decide (s' = s /\ tg' = tg /\ l' = l)) as [(-> & -> & ->)|Hne'].
  - rewrite !bool_decide_true by done. exists (Some d). split; [done|]. by exists sk', ks', v.
  - match goal with |- context [if ?c then _ else _] => assert (c = false) as -> end.
    { apply not_true_iff_false. rewrite !andb_true_iff, !bool_decide_eq_true. naive_solver. }
    destruct IH as (r & E & Hres); [intros; apply (Hrows k0); by right|]. exists r. split; [done|].
    destruct r as [d'|]; [done|]. intros k0 v0 d0 sk0 ks0 [[= -> ->]|Hin]%elem_of_cons Hd0 He0; [|by eapply Hres].
    rewrite Hd in Hd0. injection Hd0 as <-.
    by destruct (edge_row_fun _ _ _ _ _ _ _ _ _ _ _ _ _ _ He He0) as (-> & -> & -> & _); destruct Hne'.
Qed.

(** The search returns the edge with these ends and label if there is one. *)
Lemma run_find s tg l w :
  edges_wf (w_kv w) -> few (w_kv w) ->
  exists r w', find_edge_data_by_endpoints db ns s tg l env w = (Ok r, w') /\ idle w w' /\
    (forall d, r = Some d -> exists sk ks v, edge_row d s tg l sk ks /\ rows_of (w_kv w) d ks v) /\
    (forall d sk ks v, edge_row d s tg l sk ks -> rows_of (w_kv w) d ks v -> r = Some d).
Proof.
  intros Hwf Hfew. unfold find_edge_data_by_endpoints, find_edge_data_by_endpoints_at_read_version.
  set (p := forward_prefix db ns (ref_entity_type s) (ref_node_id s) (Some l)).
  destruct (run_get_range_at env Henv p (p ++ [Byte.xff]) FIND_LIMIT None w) as [n E].
  rewrite (bind_run _ _ _ _ _ _ E). cbn [snapshot]. rewrite take_ge by apply Hfew.
  match goal with |- context [find_loop _ _ _ _ _ _ ?rows _ ?w1] =>
    destruct (run_find_loop (w_kv w) s tg l rows w1 Hwf) as (r & E2 & Hr) end.
  { intros k v Hin. apply (forward_rows db ns conf _ _ _ _ k v Hwf) in Hin
      as (d & s' & tg' & l' & sk' & ks' & He & _ & Hrow & _). eauto 10. }
  eexists r, _. split; [exact E2|]. split; [done|]. split.
  - intros d ->. exact Hr.
  - intros d sk ks v He Hrow. destruct r as [d'|].
    + destruct Hr as (sk' & ks' & v' & He' & Hrow'). f_equal. symmetry.
      exact (stored_ends db ns conf (w_kv w) d d' s tg l sk ks sk' ks' v v' He Hrow He' Hrow').
    + exfalso. destruct (forward_rows_complete db ns conf (w_kv w) (ref_entity_type s) (ref_node_id s) (Some l) d)
        as (k & v0 & Hin & Hd0).
      * by eapply stored_intro.
      * exists s, tg, l, sk, ks. split; [done|]. split; [done|]. by left.
      * by eapply Hr.
Qed.
End Reads.

(** Listing the edges of a node.  In a well-formed namespace, and with
    a limit that covers the rows of the node, the outgoing listing returns exactly
    the edges that leave the node and the bidirectional edges that reach it, and
    the incoming listing exactly the edges that reach it. *)
Theorem list_edges_exact {S} `{FdbLaws S} `{CborLaws EdgeData canon_edge storable_edge} env (db ns : string)
    (conf : string -> option EntitySchema) (w : World S) (et id : string) (o : option string) (limit : nat) :
  no_faults env -> edges_wf db ns conf (w_kv w) ->
  (length (kv_range (w_kv w) (forward_prefix db ns et id o) (forward_prefix db ns et id o ++ [Byte.xff])) <= limit)%nat ->
  (length (kv_range (w_kv w) (reverse_prefix db ns et id o) (reverse_prefix db ns et id o ++ [Byte.xff])) <= limit)%nat ->
  (exists l w', list_edges db ns et id o limit env w = (Ok l, w') /\ w_kv w' = w_kv w /\
    forall e, e ∈ l <-> exists d, stored db ns conf (w_kv w) d /\ leaves db ns conf et id o d /\ e = view d) /\
  (exists l w', list_incoming_edges db ns et id o limit env w = (Ok l, w') /\ w_kv w' = w_kv w /\
    forall e, e ∈ l <-> exists d, stored db ns conf (w_kv w) d /\ enters db ns conf et id o d /\ e = view d).
Proof.
  intros Henv Hwf Hf Hr. split.
  - destruct (run_list_edges env Henv db ns conf w et id o limit Hwf) as (w' & E & Hw).
    eexists _, w'. split; [exact E|]. split; [apply Hw|]. intros e. split; [by apply elem_out_rows|].
    intros (d & Hs & Hl & ->). by apply (out_rows_elem db ns conf).
  - destruct (run_list_incoming env Henv db ns conf w et id o limit Hwf) as (w' & E & Hw).
    eexists _, w'. split; [exact E|]. split; [apply Hw|]. intros e. split; [by apply elem_in_rows|].
    intros (d & Hs & Hl & ->). by apply (in_rows_elem db ns conf).
Qed.
