(* ===== verification/EdgeCascade.v ===== *)
(** * Edges: the cascade of a node deletion

    [delete_edges_for_node_internal] lists the edges of the node, plans the
    removal of a bounded number of them, removes them in one transaction and
    starts again until nothing is listed.  In a well-formed namespace every round
    removes at least one row of the node, so the loop ends, and it ends with
    exactly the edges of the node removed. *)

From S2P Require Import Prelude Bytes Text Errors Types Encoding Subspace SchemaTypes Fdb MemFdb Cdc Ids.
From S2P Require Import Index TermIndex Namespace Jobs SchemaRegistry Node NodeAtomic NodeSpec Edge EdgeSpec EdgeList.

Section Cascade.
Context {S : Type} `{FdbLaws S} `{CborLaws EdgeData canon_edge storable_edge} `{Cbor EntitySchema}.
Context `{CborLaws CdcEntry canon_entry storable_entry}.
Context (env : Env) (Henv : no_faults env) (db ns : string) (conf : string -> option EntitySchema).
Implicit Types (t : S) (d : EdgeData) (s tg : NodeRef) (l et id : string) (w : World S).
Local Abbreviation edge_row := (edge_row db ns conf).
Local Abbreviation stored := (stored (S:=S) db ns conf).
Local Abbreviation edges_wf := (edges_wf (S:=S) db ns conf).
Local Abbreviation few := (few (S:=S) db ns).

(** *** Schemas *)

(** The registry serves the schemas of [conf], from the cache or from its rows. *)
Definition served w : Prop := forall et sc, conf et = Some sc -> name sc = et /\ serves db ns et sc w.

Lemma run_get_schema_served w et sc :
  served w -> conf et = Some sc ->
  exists w', get_schema db ns et env w = (Ok (Some sc), w') /\ same_store w w' /\ served w'.
Proof.
  intros Hserved Hc. destruct (Hserved et sc Hc) as [Hn Hs]. unfold get_schema, Cache.get, Cache.insert.
  destruct Hs as [Hcache|(Hcache & b & v & b' & Hl & Hv & Hk & Hd)].
  - rewrite (bind_run _ _ env w (Some sc) w) by (by rewrite run_get_world, Hcache).
    exists w. done.
  - rewrite (bind_run _ _ env w None w) by (by rewrite run_get_world, Hcache). mrun Henv. rewrite Hl, Hv. mrun Henv.
    cbn [w_kv next_tick]. rewrite Hk, Hd, run_lift. eexists. split; [reflexivity|]. split; [done|].
    intros et' sc' Hc'. destruct (Hserved et' sc' Hc') as [Hn' Hs']. split; [done|]. unfold serves.
    cbn [w_cache w_kv set_cache next_tick]. destruct (decide (et' = et)) as [->|Hne].
    + rewrite Hc in Hc'. injection Hc' as <-. left. rewrite Hn. apply lookup_insert_eq.
    + rewrite lookup_insert_ne; [exact Hs'|]. rewrite Hn. congruence.
Qed.

Lemma served_frame w w' :
  (forall r, kv_get (w_kv w') (prefix (schema_subspace db ns) ++ r) = kv_get (w_kv w) (prefix (schema_subspace db ns) ++ r)) ->
  w_cache w' = w_cache w -> served w -> served w'.
Proof.
  intros Hk Hc Hs et sc He. destruct (Hs et sc He) as [Hn Hsv]. split; [done|]. unfold serves in *. rewrite Hc.
  destruct Hsv as [?|(Hcn & b & v & b' & Hl & Hv & Hkv & Hd)]; [by left|]. right. split; [done|]. exists b, v, b'.
  rewrite latest_key_eq, Hk, <- latest_key_eq. rewrite version_key_eq, Hk, <- version_key_eq. done.
Qed.

(** *** Planning *)

Definition planned_by t (p : Planned) d : Prop :=
  exists s tg l sk ks v, p = (ks, s, tg, l) /\ edge_row d s tg l sk ks /\ rows_of t d ks v.

Lemma view_edge d s tg l sk ks : edge_row d s tg l sk ks -> se_source (view d) = s /\ se_target (view d) = tg /\ se_label (view d) = l.
Proof. intros [Hs Ht Hl _ _ _ _ _]. unfold view, stored_outgoing. cbn. by rewrite Hs, Ht, Hl. Qed.

Lemma run_plan_loop seen planned cands w :
  edges_wf (w_kv w) -> few (w_kv w) -> served w ->
  Forall (fun e => exists d, stored (w_kv w) d /\ e = view d) cands ->
  exists extra w', plan_loop seen planned cands env w = (Ok (planned ++ extra), w') /\ same_store w w' /\ served w' /\
    (forall p, p ∈ extra -> exists d, planned_by (w_kv w) p d /\ view d ∈ cands) /\
    (forall e rest, cands = e :: rest -> dedupe_key e ∉ seen -> extra <> []).
Proof.
  revert seen planned w. induction cands as [|e rest IH]; intros seen planned w Hwf Hfew Hsv Hc; cbn [plan_loop].
  { exists [], w. rewrite app_nil_r. split; [done|]. split; [done|]. split; [done|]. split; [|done].
    intros p Hp. by apply not_elem_of_nil in Hp. }
  apply Forall_cons in Hc as [(d & (s & tg & l & sk & ks & v & He & Hr) & ->) Hrest].
  destruct (view_edge _ _ _ _ _ _ He) as (Es & Et & El).
  case_decide as Hseen.
  { destruct (IH seen planned w Hwf Hfew Hsv Hrest) as (extra & w' & E & Hw & Hsv' & Hp & Hn).
    exists extra, w'. split; [done|]. split; [done|]. split; [done|]. split.
    - intros p Hin. destruct (Hp p Hin) as (d' & Hd' & Hv). exists d'. split; [done|]. by right.
    - intros e' rest' [= <- <-]. done. }
  cbv zeta. rewrite Es, Et, El. pose proof (er_schema _ _ _ _ _ _ _ _ _ He) as [sc Hsc].
  destruct (er_local _ _ _ _ _ _ _ _ _ He) as [Hdb Hns]. rewrite Hdb, Hns.
  destruct (run_get_schema_served w _ sc Hsv Hsc) as (w1 & E1 & Hw1 & Hsv1). rewrite (bind_run _ _ _ _ _ _ E1).
  assert (Hk1 : w_kv w1 = w_kv w) by apply Hw1.
  destruct (run_find env Henv db ns conf s tg l w1) as (r & w2 & E2 & Hw2 & _ & Hfound); [by rewrite Hk1..|].
  rewrite (bind_run _ _ _ _ _ _ E2). rewrite (Hfound d sk ks v He) by (by rewrite Hk1).
  rewrite <- Hsc, (edge_row_found _ _ _ _ _ _ _ _ _ He), run_lift.
  assert (Hw02 : same_store w w2) by (etrans; [exact Hw1|by apply idle_same_store]).
  assert (Hk2 : w_kv w2 = w_kv w) by apply Hw02.
  assert (Hsv2 : served w2).
  { destruct Hw2 as (Hkv & Hca & _). apply (served_frame w1); [|done|done]. intros r0. by rewrite Hkv. }
  assert (Hthis : exists d', planned_by (w_kv w) (ks, s, tg, l) d' /\ view d' ∈ view d :: rest).
  { exists d. split; [by exists s, tg, l, sk, ks, v|left]. }
  case_match.
  - exists [(ks, s, tg, l)], w2. split; [done|]. split; [done|]. split; [done|]. split; [|done].
    by intros p ->%list_elem_of_singleton.
  - destruct (IH ({[dedupe_key (view d)]} ∪ seen) (planned ++ [(ks, s, tg, l)]) w2) as (extra & w' & E & Hw & Hsv' & Hp & _);
      [by rewrite Hk2|by rewrite Hk2|done|by rewrite Hk2|].
    exists ((ks, s, tg, l) :: extra), w'. rewrite E, <- app_assoc. split; [done|]. split; [by etrans|]. split; [done|].
    split; [|done]. intros p [->|Hin]%elem_of_cons; [done|]. destruct (Hp p Hin) as (d' & Hd' & Hv).
    exists d'. rewrite Hk2 in Hd'. split; [done|by right].
Qed.
(** *** One transaction *)

Definition planned_keys (planned : list Planned) : list bytes := concat (map (fun p : Planned => all_keys p.1.1.1) planned).

Lemma elem_planned_keys planned k : k ∈ planned_keys planned <-> exists p, p ∈ planned /\ k ∈ all_keys p.1.1.1.
Proof.
  unfold planned_keys. induction planned as [|q planned IH]; cbn [map concat].
  - split; [by intros ?%not_elem_of_nil|]. by intros (p & ?%not_elem_of_nil & _).
  - rewrite elem_of_app, IH. setoid_rewrite elem_of_cons. naive_solver.
Qed.

Lemma get_clear_planned t (planned : list Planned) k :
  kv_get (foldl (fun t p => clear_edge_rows t p.1.1.1) t planned) k
    = if decide (k ∈ planned_keys planned) then None else kv_get t k.
Proof.
  revert t. induction planned as [|p planned IH]; intros t; [done|]. cbn [foldl]. rewrite IH.
  unfold clear_edge_rows. rewrite get_clear_keys. unfold planned_keys. cbn [map concat].
  repeat case_decide; set_solver.
Qed.

Context (Hshort : Z.of_nat (length (prefix (cdc_subspace db ns))) < 2 ^ 32).

Lemma run_cascade_transaction site planned emit w :
  no_failpoints w ->
  exists w', cascade_transaction site db ns planned emit env w = (Ok tt, w') /\
    w_cache w' = w_cache w /\ w_alloc w' = w_alloc w /\ no_failpoints w' /\
    forall k, (forall r, k <> prefix (cdc_subspace db ns) ++ r) ->
      kv_get (w_kv w') k = if decide (k ∈ planned_keys planned) then None else kv_get (w_kv w) k.
Proof.
  intros Hfp. unfold cascade_transaction. mrun Henv. set (t := foldl (fun t (p : Planned) => clear_edge_rows t p.1.1.1) (w_kv w) planned). destruct emit.
  - set (acc := foldl (fun c p => push c (planned_op p)) (new_accumulator site) planned). destruct (run_flush_frame db ns Hshort env acc t (next_tick w)) as (t' & w1 & Ef & Hw1 & Hk).
    assert (Hfp1 : no_failpoints w1) by (destruct Hw1 as (_ & _ & _ & Hf); unfold no_failpoints; by rewrite Hf).
    rewrite (bind_run _ _ env (next_tick w) t' w1).
    + rewrite (run_commit_or_internal env Henv _ _ _ Hfp1). eexists. split; [reflexivity|].
      split; [apply Hw1|]. split; [apply Hw1|]. split; [done|]. intros k Hne. cbn [w_kv set_kv].
      rewrite Hk by done. unfold t. apply get_clear_planned.
    + rewrite (bind_run _ _ _ _ _ _ Ef). by rewrite (bind_run _ _ _ _ _ _ (run_inject env w1 _ Hfp1)).
  - mrun Henv. rewrite (run_commit_or_internal env Henv _ _ (next_tick w) Hfp). eexists. split; [reflexivity|].
    split; [done|]. split; [done|]. split; [done|]. intros k _. apply get_clear_planned.
Qed.

(** *** The loop *)

Section Loop.
Context (site et id : string) (emit : bool).

Definition touches d : Prop := leaves db ns conf et id None d \/ enters db ns conf et id None d.

(** The rows under which the edges of the node are listed. *)
Definition node_rows t : nat :=
  (length (keys_in t (forward_prefix db ns et id None) (forward_prefix db ns et id None ++ [Byte.xff])) +
   length (keys_in t (reverse_prefix db ns et id None) (reverse_prefix db ns et id None ++ [Byte.xff])))%nat.

(** Nothing outside the edges and the log of the namespace changes. *)
Definition elsewhere t t' : Prop :=
  forall k, (forall r, k <> prefix (cdc_subspace db ns) ++ r) ->
    (forall r, k <> prefix (Sub.edge (Sub.namespace db ns)) ++ r) -> kv_get t' k = kv_get t k.

Record cascade_inv w : Prop := {
  ci_wf : edges_wf (w_kv w);
  ci_few : few (w_kv w);
  ci_served : served w;
  ci_quiet : no_failpoints w
}.

Definition candidates t : list StoredEdge :=
  map (fun kv => view_row kv.2) (out_rows db ns t et id None CASCADE_FETCH_LIMIT)
  ++ List.filter (at_node et id) (map (fun kv => view_row kv.2) (in_rows db ns t et id None CASCADE_FETCH_LIMIT)).

Lemma elem_candidates t e : edges_wf t -> e ∈ candidates t -> exists d, stored t d /\ touches d /\ e = view d.
Proof.
  intros Hwf [Hin|Hin]%elem_of_app.
  - apply (elem_out_rows db ns conf) in Hin as (d & Hs & Hl & ->); [|done]. exists d. split; [done|]. split; [by left|done].
  - apply (elem_in_rows db ns conf) in Hin as (d & Hs & Hl & ->); [|done]. exists d. split; [done|]. split; [by right|done].
Qed.

Lemma take_nil_inv {A} n (l : list A) : firstn (Datatypes.S n) l = [] -> l = [].
Proof. by destruct l. Qed.

Lemma no_candidates t d : edges_wf t -> candidates t = [] -> stored t d -> ~ touches d.
Proof.
  intros Hwf [Hout Hin]%app_nil Hst.
  assert (Hrows : kv_range t (forward_prefix db ns et id None) (forward_prefix db ns et id None ++ [Byte.xff]) = []).
  { apply map_eq_nil in Hout. by apply take_nil_inv in Hout. }
  assert (Hno : forall d', stored t d' -> ~ leaves db ns conf et id None d').
  { intros d' Hs' Hl'. destruct (forward_rows_complete db ns conf t et id None d' Hs' Hl') as (k & v & Hk & _).
    rewrite Hrows in Hk. by apply not_elem_of_nil in Hk. }
  intros [Hl|He]; [by apply (Hno d)|].
  destruct (reverse_rows_complete db ns conf t et id None d Hst He) as (k & v & Hk & Hd).
  destruct (kv_range t (reverse_prefix db ns et id None) (reverse_prefix db ns et id None ++ [Byte.xff])) as [|[k1 v1] rest] eqn:Er;
    [by apply not_elem_of_nil in Hk|].
  assert (Hk1 : (k1, v1) ∈ kv_range t (reverse_prefix db ns et id None) (reverse_prefix db ns et id None ++ [Byte.xff]))
    by (rewrite Er; left).
  apply (reverse_rows db ns conf t et id None k1 v1 Hwf) in Hk1 as (d1 & s1 & tg1 & l1 & sk1 & ks1 & He1 & _ & Hr1 & _ & Hor).
  assert (Hs1 : stored t d1) by (by eapply stored_intro).
  destruct Hor as [[Hn _]|[Hb Hn]].
  - unfold in_rows in Hin. rewrite Er in Hin. cbn [CASCADE_FETCH_LIMIT firstn map List.filter snd] in Hin.
    assert (at_node et id (view_row v1) = true) as Hat.
    { rewrite (view_full v1 d1 (rows_full db ns conf t d1 s1 tg1 l1 sk1 ks1 v1 He1 Hr1)). unfold at_node.
      destruct (view_edge _ _ _ _ _ _ He1) as (_ & -> & _). destruct Hn as [-> ->]. by rewrite !String.eqb_refl. }
    by rewrite Hat in Hin.
  - apply (Hno d1 Hs1). exists s1, tg1, l1, sk1, ks1. split; [done|]. split; [done|by left].
Qed.
(** The rows of the namespace after a transaction of the cascade. *)
Lemma edges_after_transaction w w' planned :
  cascade_inv w -> (forall p, p ∈ planned -> exists d, planned_by (w_kv w) p d) ->
  w_cache w' = w_cache w -> no_failpoints w' ->
  (forall k, (forall r, k <> prefix (cdc_subspace db ns) ++ r) ->
      kv_get (w_kv w') k = if decide (k ∈ planned_keys planned) then None else kv_get (w_kv w) k) ->
  cascade_inv w' /\ elsewhere (w_kv w) (w_kv w') /\
  (forall d, stored (w_kv w') d <-> stored (w_kv w) d /\ ~ exists p, p ∈ planned /\ planned_by (w_kv w) p d).
Proof.
  intros [Hwf Hfew Hsv Hq] Hpl Hc Hf Hget.
  assert (Hedge : forall r, kv_get (w_kv w') (prefix (Sub.edge (Sub.namespace db ns)) ++ r)
    = if decide (prefix (Sub.edge (Sub.namespace db ns)) ++ r ∈ planned_keys planned) then None
      else kv_get (w_kv w) (prefix (Sub.edge (Sub.namespace db ns)) ++ r)).
  { intros r. apply Hget. intros r'. apply subspace_ne; [marker|marker|done]. }
  assert (Hout : forall k, k ∈ planned_keys planned -> exists r, k = prefix (Sub.edge (Sub.namespace db ns)) ++ r).
  { intros k (p & Hp & Hk)%elem_planned_keys. destruct (Hpl p Hp) as (d & s & tg & l & sk & ks & v & -> & He & _).
    by eapply row_keys_in_edge. }
  destruct (edges_removed db ns conf (w_kv w) (w_kv w') (planned_keys planned)
    (fun d => exists p, p ∈ planned /\ planned_by (w_kv w) p d) Hwf Hedge) as [Hwf' Hst'].
  { intros k (p & Hp & Hk)%elem_planned_keys. destruct (Hpl p Hp) as (d & s & tg & l & sk & ks & v & -> & He & Hr).
    exists d, s, tg, l, sk, ks, v. split; [|done]. exists (ks, s, tg, l). split; [done|]. by exists s, tg, l, sk, ks, v. }
  { intros d s tg l sk ks k (p & Hp & s' & tg' & l' & sk' & ks' & v' & -> & He' & _) He Hk.
    apply elem_planned_keys. eexists. split; [exact Hp|]. cbn [fst].
    by destruct (edge_row_fun _ _ _ _ _ _ _ _ _ _ _ _ _ _ He He') as (_ & _ & _ & <-). }
  assert (Hless : forall k, is_Some (kv_get (w_kv w') k) -> (exists r, k = prefix (Sub.edge (Sub.namespace db ns)) ++ r) ->
    is_Some (kv_get (w_kv w) k)).
  { intros k Hs [r ->]. rewrite Hedge in Hs. case_decide; [by destruct Hs|done]. }
  split; [|split; [|exact Hst']].
  - split; [exact Hwf'| | |exact Hf].
    + intros et' id' l'. cbv zeta. rewrite <- length_keys_in. etrans; [apply (count_le (w_kv w))|].
      * intros k (r & -> & _)%in_scan_prefix Hs. apply Hless; [done|]. rewrite forward_prefix_eq, <- app_assoc. eauto.
      * rewrite length_keys_in. apply Hfew.
    + apply (served_frame w); [|done|done]. intros r. rewrite Hget by (intros r'; apply subspace_ne; [marker|marker|done]).
      rewrite decide_False; [done|]. intros [r' E]%Hout. revert E. apply subspace_ne; [marker|marker|done].
  - intros k Hcdc Hne. rewrite Hget by done. rewrite decide_False; [done|]. intros [r ->]%Hout. by eapply Hne.
Qed.

Lemma planned_removed w w' planned p d :
  edges_wf (w_kv w) -> p ∈ planned -> planned_by (w_kv w) p d -> touches d ->
  (forall k, (forall r, k <> prefix (cdc_subspace db ns) ++ r) ->
      kv_get (w_kv w') k = if decide (k ∈ planned_keys planned) then None else kv_get (w_kv w) k) ->
  (node_rows (w_kv w') < node_rows (w_kv w))%nat.
Proof.
  intros Hwf Hp (s & tg & l & sk & ks & v & -> & He & Hr) Ht Hget.
  assert (Hedge : forall m r, kv_get (w_kv w') (prefix (Sub.edge (Sub.namespace db ns)) ++ m :: r)
    = if decide (prefix (Sub.edge (Sub.namespace db ns)) ++ m :: r ∈ planned_keys planned) then None
      else kv_get (w_kv w) (prefix (Sub.edge (Sub.namespace db ns)) ++ m :: r)).
  { intros m r. apply Hget. intros r'. apply subspace_ne; [marker|marker|done]. }
  assert (Hgone : forall m r v0, decode_cbor v0 = Ok d -> kv_get (w_kv w) (prefix (Sub.edge (Sub.namespace db ns)) ++ m :: r) = Some v0 ->
    kv_get (w_kv w') (prefix (Sub.edge (Sub.namespace db ns)) ++ m :: r) = None).
  { intros m r v0 Hd0 Hk0. destruct (Hwf _ _ Hk0) as (d2 & s2 & tg2 & l2 & sk2 & ks2 & He2 & Hin2 & Hr2).
    assert (d2 = d) as -> by (destruct Hr2 as (_ & ? & _); congruence).
    destruct (edge_row_fun _ _ _ _ _ _ _ _ _ _ _ _ _ _ He He2) as (_ & _ & _ & <-).
    rewrite Hedge, decide_True; [done|]. apply elem_planned_keys. eexists. split; [exact Hp|]. done. }
  assert (Hkf : forall r, exists x, forward_prefix db ns et id None ++ r = prefix (Sub.edge (Sub.namespace db ns)) ++ edge_markers.FORWARD :: x).
  { intros r. rewrite forward_prefix_eq, <- app_assoc, <- app_comm_cons. eauto. }
  assert (Hkr : forall r, exists x, reverse_prefix db ns et id None ++ r = prefix (Sub.edge (Sub.namespace db ns)) ++ edge_markers.REVERSE :: x).
  { intros r. rewrite reverse_prefix_eq, <- app_assoc, <- app_comm_cons. eauto. }
  assert (Hlf : forall k, in_scan (forward_prefix db ns et id None) (forward_prefix db ns et id None ++ [Byte.xff]) k ->
    is_Some (kv_get (w_kv w') k) -> is_Some (kv_get (w_kv w) k)).
  { intros k (r & -> & _)%in_scan_prefix. destruct (Hkf r) as [x ->]. rewrite Hedge. case_decide; [by intros []|done]. }
  assert (Hlr : forall k, in_scan (reverse_prefix db ns et id None) (reverse_prefix db ns et id None ++ [Byte.xff]) k ->
    is_Some (kv_get (w_kv w') k) -> is_Some (kv_get (w_kv w) k)).
  { intros k (r & -> & _)%in_scan_prefix. destruct (Hkr r) as [x ->]. rewrite Hedge. case_decide; [by intros []|done]. }
  pose proof (count_le _ _ _ _ Hlf) as Hcf. pose proof (count_le _ _ _ _ Hlr) as Hcr.
  assert (Hst : stored (w_kv w) d) by (by eapply stored_intro).
  unfold node_rows. destruct Ht as [Hl|Hl].
  - destruct (forward_rows_complete db ns conf (w_kv w) et id None d Hst Hl) as (k & v0 & [Hsc Hk]%kv_range_elem & Hd0).
    pose proof Hsc as (r & -> & _)%in_scan_prefix.
    pose proof (count_lt _ _ _ _ (forward_prefix db ns et id None ++ r) Hlf Hsc ltac:(rewrite Hk; eauto)) as Hlt.
    destruct (Hkf r) as [x Ex]. rewrite Ex in Hk, Hlt. specialize (Hlt (Hgone _ _ _ Hd0 Hk)). lia.
  - destruct (reverse_rows_complete db ns conf (w_kv w) et id None d Hst Hl) as (k & v0 & [Hsc Hk]%kv_range_elem & Hd0).
    pose proof Hsc as (r & -> & _)%in_scan_prefix.
    pose proof (count_lt _ _ _ _ (reverse_prefix db ns et id None ++ r) Hlr Hsc ltac:(rewrite Hk; eauto)) as Hlt.
    destruct (Hkr r) as [x Ex]. rewrite Ex in Hk, Hlt. specialize (Hlt (Hgone _ _ _ Hd0 Hk)). lia.
Qed.

(** What is planned for a candidate touches the node. *)
Lemma planned_touches t p d d' :
  edges_wf t -> planned_by t p d -> planned_by t p d' -> view d' ∈ candidates t -> touches d.
Proof.
  intros Hwf (s & tg & l & sk & ks & v & -> & He & Hr) (s' & tg' & l' & sk' & ks' & v' & E' & He' & Hr') Hin.
  injection E' as <- <- <- <-. rewrite (stored_ends db ns conf t _ _ _ _ _ _ _ _ _ _ _ He Hr He' Hr') in *.
  apply (elem_candidates t) in Hin as (d2 & (s2 & tg2 & l2 & sk2 & ks2 & v2 & He2 & Hr2) & Ht2 & Ev); [|done].
  destruct (view_edge _ _ _ _ _ _ He') as (Es & Et & El), (view_edge _ _ _ _ _ _ He2) as (Es2 & Et2 & El2).
  rewrite Ev in Es, Et, El. rewrite Es2 in Es. rewrite Et2 in Et. rewrite El2 in El. subst s2 tg2 l2.
  by rewrite (stored_ends db ns conf t _ _ _ _ _ _ _ _ _ _ _ He' Hr' He2 Hr2).
Qed.

Lemma run_cascade fuel total w :
  cascade_inv w -> (node_rows (w_kv w) < fuel)%nat ->
  exists total' w', delete_edges_for_node_internal fuel site db ns et id emit total env w = (Ok (Some total'), w') /\
    cascade_inv w' /\ elsewhere (w_kv w) (w_kv w') /\ w_alloc w' = w_alloc w /\
    (forall d, stored (w_kv w') d <-> stored (w_kv w) d /\ ~ touches d).
Proof.
  revert total w. induction fuel as [|fuel IH]; intros total w Hinv Hfuel; [lia|]. cbn [delete_edges_for_node_internal].
  pose proof Hinv as [Hwf Hfew Hsv Hq].
  destruct (run_list_edges env Henv db ns conf w et id None CASCADE_FETCH_LIMIT Hwf) as (w1 & E1 & Hw1).
  rewrite (bind_run _ _ _ _ _ _ E1). assert (Hk1 : w_kv w1 = w_kv w) by apply Hw1.
  destruct (run_list_incoming env Henv db ns conf w1 et id None CASCADE_FETCH_LIMIT) as (w2 & E2 & Hw2); [by rewrite Hk1|].
  rewrite (bind_run _ _ _ _ _ _ E2). rewrite Hk1. fold (candidates (w_kv w)).
  assert (Hi : idle w w2) by (by etrans). destruct Hi as (Hk2 & Hc2 & Ha2 & Hf2).
  assert (Hinv2 : cascade_inv w2).
  { split; [by rewrite Hk2|by rewrite Hk2| |by unfold no_failpoints; rewrite Hf2].
    apply (served_frame w); [intros r; by rewrite Hk2|done|done]. }
  case_bool_decide as Hnil.
  { exists total, w2. split; [done|]. split; [done|]. rewrite Hk2. split; [done|]. split; [done|].
    intros d. split; [|tauto]. intros Hs. split; [done|]. by apply (no_candidates (w_kv w)). }
  destruct (run_plan_loop ∅ [] (candidates (w_kv w)) w2) as (planned & w3 & E3 & Hw3 & Hsv3 & Hp3 & Hne3);
    [apply Hinv2|apply Hinv2|apply Hinv2| |].
  { rewrite Hk2. apply Forall_forall. intros e (d & Hs & _ & ->)%elem_candidates; [|done]. eauto. }
  rewrite (bind_run _ _ _ _ _ _ E3). rewrite app_nil_l in *.
  destruct (candidates (w_kv w)) as [|e rest] eqn:Ec; [done|].
  specialize (Hne3 e rest eq_refl ltac:(set_solver)).
  assert (Hk3 : w_kv w3 = w_kv w) by (destruct Hw3 as (-> & _); done).
  rewrite bool_decide_false by (by destruct planned).
  assert (Hinv3 : cascade_inv w3).
  { split; [by rewrite Hk3|by rewrite Hk3|done|]. unfold no_failpoints. destruct Hw3 as (_ & _ & ->). apply Hinv2. }
  destruct (run_cascade_transaction site planned emit w3) as (w4 & E4 & Hc4 & Ha4 & Hf4 & Hget4); [apply Hinv3|].
  rewrite (bind_run _ _ _ _ _ _ E4).
  destruct (edges_after_transaction w3 w4 planned Hinv3) as (Hinv4 & Hel4 & Hst4); [|done..|].
  { intros p Hp. destruct (Hp3 p Hp) as (d & Hd & _). exists d. by rewrite Hk3, <- Hk2. }
  assert (Htouch : forall p d, p ∈ planned -> planned_by (w_kv w3) p d -> touches d).
  { intros p d Hp Hd. destruct (Hp3 p Hp) as (d' & Hd' & Hin). rewrite Hk2 in Hd'. rewrite Hk3 in Hd.
    rewrite <- Ec in Hin. by eapply (planned_touches (w_kv w)). }
  assert (Hdec : (node_rows (w_kv w4) < node_rows (w_kv w))%nat).
  { destruct planned as [|p planned']; [done|]. destruct (Hp3 p) as (d & Hd & _); [left|].
    rewrite <- Hk3. apply (planned_removed w3 w4 (p :: planned') p d); [apply Hinv3|left|by rewrite Hk3, <- Hk2| |done].
    apply (Htouch p); [left|]. by rewrite Hk3, <- Hk2. }
  destruct (IH (u64_saturating_add total (Z.of_nat (length planned))) w4 Hinv4 ltac:(lia)) as (total' & w5 & E5 & Hinv5 & Hel5 & Ha5 & Hst5).
  exists total', w5. split; [exact E5|]. split; [done|]. split.
  { intros k Hc He. rewrite Hel5, Hel4, Hk3 by done. done. }
  split. { rewrite Ha5, Ha4. destruct Hw3 as (_ & -> & _). done. }
  intros d. rewrite Hst5, Hst4, Hk3. split.
  - intros [[Hs _] Ht]. done.
  - intros [Hs Ht]. split; [|done]. split; [done|]. intros (p & Hp & Hd). apply Ht. eapply Htouch; [done|]. by rewrite Hk3.
Qed.
End Loop.
End Cascade.

(** C11: the cascade of a node deletion ends and is complete.  In a
    well-formed namespace whose fan-out per source and label fits one page of the
    search, with more rounds than the node has rows, the loop returns; every edge
    that touches the node is then gone, every other edge is still stored, and no
    key outside the edges and the change log has changed. *)
Theorem cascade_complete {S} `{FdbLaws S} `{CborLaws EdgeData canon_edge storable_edge} `{Cbor EntitySchema}
    `{CborLaws CdcEntry canon_entry storable_entry} env (db ns : string) (conf : string -> option EntitySchema)
    (fuel : nat) (site et id : string) (emit_cdc : bool) (w : World S) :
  no_faults env -> Z.of_nat (length (prefix (cdc_subspace db ns))) < 2 ^ 32 ->
  cascade_inv db ns conf w -> (node_rows db ns et id (w_kv w) < fuel)%nat ->
  exists deleted w', delete_edges_for_node_internal fuel site db ns et id emit_cdc 0 env w = (Ok (Some deleted), w') /\
    cascade_inv db ns conf w' /\
    (forall d, stored db ns conf (w_kv w') d <-> stored db ns conf (w_kv w) d /\ ~ touches db ns conf et id d) /\
    elsewhere db ns (w_kv w) (w_kv w').
Proof.
  intros Henv Hshort Hinv Hfuel.
  destruct (run_cascade env Henv db ns conf Hshort site et id emit_cdc fuel 0 w Hinv Hfuel)
    as (n & w' & E & Hinv' & Hel & _ & Hst). exists n, w'. split; [exact E|]. split; [exact Hinv'|]. split; [exact Hst|exact Hel].
Qed.

(** ** A concrete graph *)

Definition graph_schema : EntitySchema :=
  Schemas.with_edge (Schemas.with_edge (Schemas.new "Person") "KNOWS" (EdgeDefs.bidirectional (EdgeDefs.new (Specific "Person"))))
    "LIKES" (EdgeDefs.new Polymorphic).

Definition person (id : string) : NodeRef := mkNodeRef "db" "ns" "Person" id.

Definition graph_conf (et : string) : option EntitySchema := if String.eqb et "Person" then Some graph_schema else None.

Definition knows : EdgeData := mkEdgeData "1_0" ∅ 10 (Some (person "1_1")) (Some (person "1_2")) (Some "KNOWS").
Definition likes : EdgeData := mkEdgeData "1_0" ∅ 11 (Some (person "1_3")) (Some (person "1_1")) (Some "LIKES").
Definition other : EdgeData := mkEdgeData "1_1" ∅ 12 (Some (person "1_2")) (Some (person "1_3")) (Some "LIKES").

Definition graph_keys (d : EdgeData) : EdgeKeys :=
  match ed_source d, ed_target d, ed_label d with
  | Some s, Some t, Some l =>
      edge_keys_with (Sub.namespace "db" "ns") s t l None (label_is_bidirectional (Some graph_schema) l)
  | _, _, _ => mkEdgeKeys [] [] [] None
  end.

Definition add_edge (t : MemKv) (d : EdgeData) : MemKv :=
  match encode_cbor d with Ok b => set_edge_rows t (graph_keys d) b | Err _ => t end.

Definition graph_kv : MemKv := add_edge (add_edge (add_edge empty_kv knows) likes) other.
Definition graph_world : World MemKv := mkWorld graph_kv {[("db", "ns", "Person") := graph_schema]} ∅ ∅ 0.

Lemma edges_wf_empty : edges_wf "db" "ns" graph_conf empty_kv.
Proof. intros r v Hv. cbn in Hv. by rewrite lookup_empty in Hv. Qed.

Lemma add_edge_ok t d s tg l :
  edges_wf "db" "ns" graph_conf t -> ed_source d = Some s -> ed_target d = Some tg -> ed_label d = Some l ->
  ref_database s = "db" -> ref_namespace s = "ns" -> ref_entity_type s = "Person" -> ed_properties d = ∅ ->
  sort_key_for_label (Some graph_schema) l ∅ = None -> (forall k, k ∈ all_keys (graph_keys d) -> kv_get t k = None) ->
  edges_wf "db" "ns" graph_conf (add_edge t d).
Proof.
  intros Hwf Hs Ht Hl Hdb Hns Het Hp Hsk Hfree. unfold add_edge.
  destruct (encode_cbor_total d) as (b & Eb & Hb). rewrite Eb.
  assert (He : edge_row "db" "ns" graph_conf d s tg l None (graph_keys d)).
  { split; [done..|by rewrite Het; eexists| |by apply not_ff_nil|].
    - rewrite Het, Hp. change (graph_conf "Person") with (Some graph_schema). by rewrite Hsk.
    - unfold graph_keys. by rewrite Hs, Ht, Hl, Het. }
  assert (Hd : decode_cbor b = Ok d).
  { assert (Hst : storable_edge d) by (unfold storable_edge, storable_props; rewrite Hp; apply map_Forall_empty).
    rewrite (decode_encode_cbor d b Hst Eb).
    destruct d as [i p c s' t' l']. cbn in *. subst p. unfold canon_edge, canon_props. cbn. by rewrite fmap_empty. }
  apply (edges_added "db" "ns" graph_conf t (set_edge_rows t (graph_keys d) b) d s tg l None (graph_keys d) b); try done.
  intros r. unfold set_edge_rows. apply get_set_keys.
Qed.

Lemma graph_wf : edges_wf "db" "ns" graph_conf graph_kv.
Proof.
  unfold graph_kv.
  assert (Hfree : forall t d, forallb (fun k => bool_decide (kv_get t k = None)) (all_keys (graph_keys d)) = true ->
    forall k, k ∈ all_keys (graph_keys d) -> kv_get t k = None).
  { intros t d Hall k Hin. rewrite forallb_forall in Hall. apply list_elem_of_In in Hin. by apply Hall, bool_decide_eq_true in Hin. }
  eapply (add_edge_ok _ other); [|reflexivity..|apply Hfree; vm_compute; reflexivity].
  eapply (add_edge_ok _ likes); [|reflexivity..|apply Hfree; vm_compute; reflexivity].
  eapply (add_edge_ok _ knows); [|reflexivity..|apply Hfree; vm_compute; reflexivity].
  apply edges_wf_empty.
Qed.

Lemma graph_inv : cascade_inv "db" "ns" graph_conf graph_world.
Proof.
  split; [apply graph_wf| | |reflexivity].
  - intros et id l p. rewrite <- length_keys_in. etrans; [apply mem_keys_bound|]. vm_compute. lia.
  - intros et sc. unfold graph_conf. destruct (String.eqb_spec et "Person") as [->|]; [|done]. intros [= <-].
    split; [done|]. left. vm_compute. reflexivity.
Qed.

Lemma cascade_complete_witness :
  exists deleted w', delete_edges_for_node_internal 7 "1" "db" "ns" "Person" "1_1" true 0 quiet_env graph_world
      = (Ok (Some deleted), w') /\
    cascade_inv "db" "ns" graph_conf w'.
Proof.
  destruct (cascade_complete quiet_env "db" "ns" graph_conf 7 "1" "Person" "1_1" true graph_world)
    as (n & w' & E & Hinv & _).
  - apply quiet_env_ok.
  - vm_compute. reflexivity.
  - apply graph_inv.
  - vm_compute. lia.
  - exists n, w'. split; [exact E|exact Hinv].
Defined.

(** ** A cascade that never ends *)

(** The first version of the schema has no sort key; the edge is stored under it. *)
Definition rated_v1 : EntitySchema :=
  Schemas.with_edge (Schemas.new "Person") "RATED"
    (EdgeDefs.with_property (EdgeDefs.new Polymorphic) "stars" (PropDefs.new PInt)).
(** The second version sorts the edges by a property they already have. *)
Definition rated_v2 : EntitySchema :=
  Schemas.with_edge (Schemas.new "Person") "RATED"
    (EdgeDefs.with_sort_key (EdgeDefs.with_property (EdgeDefs.new Polymorphic) "stars" (PropDefs.new PInt)) "stars").

Definition rated : EdgeData :=
  mkEdgeData "1_0" {["stars" := VInt 5]} 10 (Some (person "1_1")) (Some (person "1_2")) (Some "RATED").

Definition rated_keys : EdgeKeys :=
  edge_keys_with (Sub.namespace "db" "ns") (person "1_1") (person "1_2") "RATED" None false.

Definition rated_v2_keys : EdgeKeys :=
  edge_keys_with (Sub.namespace "db" "ns") (person "1_1") (person "1_2") "RATED" (Some (encode_int_for_index 5)) false.

Definition rated_kv : MemKv :=
  match encode_cbor rated with Ok b => set_edge_rows empty_kv rated_keys b | Err _ => empty_kv end.

Definition with_ticks (kv : MemKv) (n : nat) : World MemKv :=
  mkWorld kv {[("db", "ns", "Person") := rated_v2]} ∅ ∅ n.

(** One round removes the reverse row and then nothing any more. *)
Lemma rated_round kv fuel total n :
  kv = rated_kv \/ kv = kv_clear rated_kv (reverse_key rated_keys) ->
  delete_edges_for_node_internal (S fuel) "1" "db" "ns" "Person" "1_1" false total quiet_env (with_ticks kv n)
    = delete_edges_for_node_internal fuel "1" "db" "ns" "Person" "1_1" false (u64_saturating_add total 1) quiet_env
        (with_ticks (kv_clear rated_kv (reverse_key rated_keys)) (n + 1 + 1 + 1 + 1 + 1 + 1 + 1 + 1)).
Proof.
  intros Hkv. cbn [delete_edges_for_node_internal].
  assert (E1 : list_edges "db" "ns" "Person" "1_1" None CASCADE_FETCH_LIMIT quiet_env (with_ticks kv n)
    = (Ok [view rated], with_ticks kv (n + 1 + 1))) by (destruct Hkv as [->| ->]; vm_compute; reflexivity).
  rewrite (bind_run _ _ _ _ _ _ E1).
  assert (E2 : list_incoming_edges "db" "ns" "Person" "1_1" None CASCADE_FETCH_LIMIT quiet_env (with_ticks kv (n + 1 + 1))
    = (Ok [], with_ticks kv (n + 1 + 1 + 1 + 1))) by (destruct Hkv as [->| ->]; vm_compute; reflexivity).
  rewrite (bind_run _ _ _ _ _ _ E2). rewrite app_nil_r, bool_decide_false by done.
  assert (E3 : plan_loop ∅ [] [view rated] quiet_env (with_ticks kv (n + 1 + 1 + 1 + 1))
    = (Ok [(rated_v2_keys, person "1_1", person "1_2", "RATED")], with_ticks kv (n + 1 + 1 + 1 + 1 + 1 + 1)))
    by (destruct Hkv as [->| ->]; vm_compute; reflexivity).
  rewrite (bind_run _ _ _ _ _ _ E3). rewrite bool_decide_false by done.
  assert (E4 : cascade_transaction "1" "db" "ns" [(rated_v2_keys, person "1_1", person "1_2", "RATED")] false quiet_env
      (with_ticks kv (n + 1 + 1 + 1 + 1 + 1 + 1))
    = (Ok tt, with_ticks (kv_clear rated_kv (reverse_key rated_keys)) (n + 1 + 1 + 1 + 1 + 1 + 1 + 1 + 1)))
    by (destruct Hkv as [->| ->]; vm_compute; reflexivity).
  by rewrite (bind_run _ _ _ _ _ _ E4).
Qed.

(** The cascade can run forever.  After a schema update that gives a
    label a sort key, the keys the cascade computes for an edge stored before are
    not the keys of its rows; every round lists the edge, removes nothing and
    starts again, whatever the number of rounds. *)
Theorem cascade_never_ends (fuel : nat) :
  (delete_edges_for_node_replica fuel (mkEdgeStore (mkIdAllocator 1 100) (mkNodeStore (mkIdAllocator 1 100) "1") "1")
     "db" "ns" "Person" "1_1" quiet_env (with_ticks rated_kv 0)).1 = Ok None.
Proof.
  unfold delete_edges_for_node_replica. cbn [es_site_id].
  cut (forall total n kv, kv = rated_kv \/ kv = kv_clear rated_kv (reverse_key rated_keys) ->
    (delete_edges_for_node_internal fuel "1" "db" "ns" "Person" "1_1" false total quiet_env (with_ticks kv n)).1 = Ok None).
  { intros Hall. apply Hall. by left. }
  induction fuel as [|fuel IH]; intros total n kv Hkv; [done|]. rewrite rated_round by exact Hkv. apply IH. by right.
Qed.
