(* ===== verification/EdgeWrite.v ===== *)
(** * Edges: creation and deletion

    A creation that succeeds has seen both nodes, no deletion of either in
    progress and a source the site owns, and it adds exactly one edge to the
    stored edges; a deletion removes exactly the edge with the given ends and
    label.  Both leave everything but the edge rows, the change log and the
    identifier counters as they were, and fail without a trace. *)

From S2P Require Import Prelude Bytes Text Errors Types Encoding Subspace SchemaTypes Fdb MemFdb Cdc Ids.
From S2P Require Import Index TermIndex Namespace Jobs SchemaRegistry Node NodeAtomic NodeSpec Edge EdgeSpec EdgeList EdgeCascade.

(** ** Atomicity *)

Section Steps.
Context {S : Type} `{Fdb S} `{Cbor NodeData} `{Cbor EdgeNodeData} `{Cbor EdgeData} `{Cbor EntitySchema} `{Cbor CdcEntry}.
Context (R : World S -> World S -> Prop) `{!FrameKv R}.

Lemma steps_get_node db ns et id : steps R (get_node db ns et id : M S _).
Proof. unfold get_node, get_node_at_read_version. solve_steps. Qed.
Hint Resolve steps_get_node : pelago.
Lemma steps_require_source r : steps R (require_source r : M S _).
Proof. unfold require_source. solve_steps. Qed.
Lemma steps_require_target r : steps R (require_target r : M S _).
Proof. unfold require_target. solve_steps. Qed.
Lemma steps_guard t db ns et id : steps R (node_delete_guard_exists_in_txn t db ns et id : M S _).
Proof. unfold node_delete_guard_exists_in_txn. solve_steps. Qed.
Lemma steps_locality t db ns et id : steps R (read_node_locality_in_txn t db ns et id : M S _).
Proof. unfold read_node_locality_in_txn. solve_steps. Qed.
Lemma steps_find_loop db ns s tg l v rows : steps R (find_loop db ns s tg l v rows : M S _).
Proof. induction rows as [|[k x] rows IH]; cbn [find_loop]; unfold find_row_data; solve_steps. Qed.
Hint Resolve steps_find_loop : pelago.
Lemma steps_find db ns s tg l : steps R (find_edge_data_by_endpoints db ns s tg l : M S _).
Proof. unfold find_edge_data_by_endpoints, find_edge_data_by_endpoints_at_read_version. solve_steps. Qed.
End Steps.
#[export] Hint Resolve steps_get_node steps_require_source steps_require_target steps_guard steps_locality steps_find : pelago.

(** Edge operations are atomic.  Under any faults and failpoints, a
    deletion or a replicated change of an edge that fails leaves the key space
    exactly as it was, and a creation that fails changes at most the counters of
    the id allocator. *)
Theorem edge_operations_atomic {S} `{FdbLaws S} `{Cbor NodeData} `{Cbor EdgeNodeData} `{Cbor EdgeData} `{Cbor EntitySchema}
    `{Cbor CdcEntry} (st : EdgeStore) (db ns label edge_id origin : string) (source target : NodeRef) (props : Props) (ts : Z) :
  errs (ids_only db ns) (create_edge (S:=S) st db ns source target label props) /\
  errs same_kv (delete_edge (S:=S) st db ns source target label) /\
  errs same_kv (apply_replica_edge_create (S:=S) db ns source target label edge_id props ts origin) /\
  errs same_kv (apply_replica_edge_delete (S:=S) db ns source target label ts origin).
Proof.
  pose proof (steps_allocate (S:=S) (es_allocator st) db ns ("edge_" ++ label)%string) as Hal.
  split; [|split; [|split]].
  - unfold create_edge. solve_errs.
  - unfold delete_edge. solve_errs.
  - unfold apply_replica_edge_create. solve_errs.
  - unfold apply_replica_edge_delete. solve_errs.
Qed.

(** ** Successful runs are calm runs *)

Section Settle.
Context {S : Type} `{FdbLaws S} `{Cbor NodeData} `{Cbor EdgeNodeData} `{Cbor EdgeData} `{Cbor EntitySchema} `{Cbor CdcEntry}.

Lemma settles_find_loop db ns s tg l v rows : settles (find_loop db ns s tg l v rows : M S _).
Proof. induction rows as [|[k x] rows IH]; cbn [find_loop]; unfold find_row_data; solve_settles. Qed.
Hint Resolve settles_find_loop settles_get_schema settles_allocate settles_flush : pelago.

Lemma settles_create_edge st db ns s tg l props : settles (create_edge st db ns s tg l props : M S _).
Proof.
  unfold create_edge, require_schema, node_delete_guard_exists_in_txn, read_node_locality_in_txn. solve_settles.
Qed.

Lemma settles_delete_edge st db ns s tg l : settles (delete_edge st db ns s tg l : M S _).
Proof.
  unfold delete_edge, require_source, get_node, get_node_at_read_version, find_edge_data_by_endpoints,
    find_edge_data_by_endpoints_at_read_version. solve_settles.
Qed.
End Settle.

(** ** Creation *)

(** The row of a node and its deletion guard. *)
Definition ref_row (r : NodeRef) (n : NodeId) : bytes :=
  data_key (Sub.data (Sub.namespace (ref_database r) (ref_namespace r))) (ref_entity_type r) (NodeIds.to_bytes n).
Definition ref_guard (r : NodeRef) (n : NodeId) : bytes :=
  delete_guard_key (Sub.data (Sub.namespace (ref_database r) (ref_namespace r))) (ref_entity_type r) (NodeIds.to_bytes n).

(** The node exists with the given locality and is not being deleted. *)
Definition live {S} `{Fdb S} `{Cbor EdgeNodeData} (t : S) (r : NodeRef) (locality : Z) : Prop :=
  exists n b, parse_node_id (ref_node_id r) = Ok n /\ kv_get t (ref_guard r n) = None /\
    kv_get t (ref_row r n) = Some b /\ decode_cbor b = Ok (mkEdgeNodeData locality).

(** Both nodes are there, and the site may write edges of the source. *)
Definition admissible {S} `{Fdb S} `{Cbor EdgeNodeData} (site : string) (s tg : NodeRef) (t : S) : Prop :=
  (exists locality, live t s locality /\
     enforce_source_ownership site (ref_entity_type s) (ref_node_id s) locality = Ok tt) /\
  exists locality, live t tg locality.

Section Create.
Context {S : Type} `{FdbLaws S} `{Cbor NodeData} `{Cbor EdgeNodeData} `{CborLaws EdgeData canon_edge storable_edge}.
Context `{Cbor EntitySchema} `{CborLaws CdcEntry canon_entry storable_entry}.
Implicit Types (w : World S) (t : S).

(** The checks inside the transaction. *)
Lemma run_guard env t r w :
  no_faults env ->
  node_delete_guard_exists_in_txn t (ref_database r) (ref_namespace r) (ref_entity_type r) (ref_node_id r) env w =
    match parse_node_id (ref_node_id r) with
    | Ok n => (Ok (bool_decide (is_Some (kv_get t (ref_guard r n)))), next_tick w)
    | Err e => (Err e, w)
    end.
Proof.
  intros Henv. unfold node_delete_guard_exists_in_txn. destruct (parse_node_id _) as [n|e]; [|done]. mrun Henv. done.
Qed.

Lemma run_locality env t r w :
  no_faults env ->
  read_node_locality_in_txn t (ref_database r) (ref_namespace r) (ref_entity_type r) (ref_node_id r) env w =
    match parse_node_id (ref_node_id r) with
    | Ok n =>
        (match kv_get t (ref_row r n) with
         | Some b => d ← decode_cbor b; Ok (Some (en_locality d))
         | None => Ok None
         end, next_tick w)
    | Err e => (Err e, w)
    end.
Proof.
  intros Henv. unfold read_node_locality_in_txn. destruct (parse_node_id _) as [n|e]; [|done]. mrun Henv.
  unfold ref_row. destruct (kv_get t _) as [b|]; [|done]. unfold mbind, M_bind, result_bind, lift. by destruct (decode_cbor (A:=EdgeNodeData) b).
Qed.

Lemma admissible_frame site s tg t t' :
  (forall db ns r, let P := prefix (Sub.data (Sub.namespace db ns)) in kv_get t' (P ++ r) = kv_get t (P ++ r)) ->
  admissible site s tg t' -> admissible site s tg t.
Proof.
  intros Hk. assert (Hl : forall r loc, live t' r loc -> live t r loc).
  { intros r loc (n & b & Hn & Hg & Hr & Hd). exists n, b. split; [done|].
    unfold ref_guard, ref_row, delete_guard_key, data_key in *. revert Hg Hr. tuple_norm. rewrite !Hk. done. }
  intros [(loc & Hs & Ho) (loc' & Ht)]. split; eauto.
Qed.

Ltac refuse :=
  by intros [(? & (? & ? & ? & ? & ? & ?) & ?) (? & ? & ? & ? & ? & ? & ?)]; simplify_eq; congruence.

(** The checks of a creation let it go on exactly when it is admissible. *)
Lemma run_admission {A} env site s tg t (K : M S A) w :
  no_faults env ->
  let checks :=
    source_guard ← node_delete_guard_exists_in_txn t (ref_database s) (ref_namespace s) (ref_entity_type s) (ref_node_id s);
    if (source_guard : bool) then throw (VersionConflict (ref_entity_type s) (ref_node_id s)) else
    target_guard ← node_delete_guard_exists_in_txn t (ref_database tg) (ref_namespace tg) (ref_entity_type tg) (ref_node_id tg);
    if (target_guard : bool) then throw (VersionConflict (ref_entity_type tg) (ref_node_id tg)) else
    source_locality ← read_node_locality_in_txn t (ref_database s) (ref_namespace s) (ref_entity_type s) (ref_node_id s);
    source_locality ← lift (ok_or source_locality (SourceNotFound (ref_entity_type s) (ref_node_id s)));
    lift (enforce_source_ownership site (ref_entity_type s) (ref_node_id s) source_locality) ;;
    target_locality ← read_node_locality_in_txn t (ref_database tg) (ref_namespace tg) (ref_entity_type tg) (ref_node_id tg);
    match target_locality with
    | None => throw (TargetNotFound (ref_entity_type tg) (ref_node_id tg))
    | Some _ => K
    end in
  (admissible site s tg t /\ exists w', idle w w' /\ checks env w = K env w') \/
  (~ admissible site s tg t /\ exists e w', checks env w = (Err e, w')).
Proof.
  intros Henv checks. unfold checks, admissible, live.
  destruct (parse_node_id (ref_node_id s)) as [n|e] eqn:En.
  2: { right. split; [refuse|]. do 2 eexists. apply bind_run_err. rewrite run_guard, En by done. reflexivity. }
  rewrite (bind_run _ _ _ _ _ _ (eq_trans (run_guard env t s w Henv) ltac:(rewrite En; reflexivity))).
  case_bool_decide as Hg. { right. split; [|by eauto]. destruct Hg. refuse. }
  destruct (parse_node_id (ref_node_id tg)) as [m|e] eqn:Em.
  2: { right. split; [refuse|]. do 2 eexists. apply bind_run_err. rewrite run_guard, Em by done. reflexivity. }
  rewrite (bind_run _ _ _ _ _ _ (eq_trans (run_guard env t tg _ Henv) ltac:(rewrite Em; reflexivity))).
  case_bool_decide as Hg'. { right. split; [|by eauto]. destruct Hg'. refuse. }
  destruct (kv_get t (ref_row s n)) as [b|] eqn:Eb.
  2: { right. split; [refuse|].
       rewrite (bind_run _ _ _ _ _ _ (eq_trans (run_locality env t s _ Henv) ltac:(rewrite En, Eb; reflexivity))).
       do 2 eexists. reflexivity. }
  destruct (decode_cbor (A:=EdgeNodeData) b) as [[loc]|e] eqn:Ed.
  2: { right. split; [refuse|]. do 2 eexists. apply bind_run_err. rewrite run_locality, En, Eb, Ed by done. reflexivity. }
  rewrite (bind_run _ _ _ _ _ _ (eq_trans (run_locality env t s _ Henv) ltac:(rewrite En, Eb, Ed; reflexivity))).
  cbn [en_locality ok_or]. rewrite run_lift.
  destruct (enforce_source_ownership _ _ _ _) as [[]|e] eqn:Eo.
  2: { right. split; [refuse|]. do 2 eexists. reflexivity. }
  rewrite run_lift. destruct (kv_get t (ref_row tg m)) as [b'|] eqn:Eb'.
  2: { right. split; [refuse|].
       rewrite (bind_run _ _ _ _ _ _ (eq_trans (run_locality env t tg _ Henv) ltac:(rewrite Em, Eb'; reflexivity))).
       do 2 eexists. reflexivity. }
  destruct (decode_cbor (A:=EdgeNodeData) b') as [[loc']|e] eqn:Ed'.
  2: { right. split; [refuse|]. do 2 eexists. apply bind_run_err. rewrite run_locality, Em, Eb', Ed' by done. reflexivity. }
  rewrite (bind_run _ _ _ _ _ _ (eq_trans (run_locality env t tg _ Henv) ltac:(rewrite Em, Eb', Ed'; reflexivity))).
  left. rewrite <- eq_None_not_Some in Hg, Hg'. split; [|eexists; split; [|reflexivity]; done].
  split; [exists loc; split; [by exists n, b|done]|]. by exists loc', m, b'.
Qed.

Lemma run_allocate_ok env a db ns et w :
  no_faults env -> exists id w', allocate a db ns et env w = (Ok id, w') /\
    ids_only db ns w w' /\ w_cache w' = w_cache w /\ w_failpoints w' = w_failpoints w.
Proof.
  intros Henv. pose proof (steps_allocate (S:=S) a db ns et env w) as Hs. revert Hs.
  unfold allocate. rewrite run_get_world. destruct (default _ _) as [nx be]. rewrite run_put_world.
  set (w1 := set_alloc w _). destruct (be <=? nx).
  - destruct (run_allocate_batch a env w1 db ns et Henv) as [n Hrun].
    rewrite (bind_run _ _ _ _ _ _ (eq_trans (bind_run _ _ _ _ _ _ Hrun) eq_refl)).
    rewrite run_get_world, run_put_world. intros Hs. eexists _, _. split; [reflexivity|]. done.
  - rewrite run_ret, run_get_world, run_put_world. intros Hs. eexists _, _. split; [reflexivity|]. done.
Qed.

Lemma validated_bidi schema l ty dir :
  validate_edge_type schema l ty = Ok dir -> label_is_bidirectional (Some schema) l = bool_decide (dir = Bidirectional).
Proof.
  unfold validate_edge_type, label_is_bidirectional. cbn. destruct (edges schema !! l) as [def|].
  - destruct (target def); [case_match|]; by intros [= <-].
  - case_match; by intros [= <-].
Qed.

Lemma sort_key_canon o l props :
  encode_sort_key (sort_key_for_label o l (canon_props props)) = encode_sort_key (sort_key_for_label o l props).
Proof.
  unfold sort_key_for_label. destruct o as [sc|]; [|done]. cbn. destruct (edges sc !! l) as [def|]; [|done]. cbn.
  destruct (sort_key def) as [k|]; [|done]. cbn. unfold canon_props. rewrite lookup_fmap.
  destruct (props !! k) as [v|]; [|done]. cbn. rewrite encode_canon. by destruct v.
Qed.

Section Run.
Context (db ns : string) (conf : string -> option EntitySchema) (Hshort : Z.of_nat (length (prefix (cdc_subspace db ns))) < 2 ^ 32).
Local Abbreviation P m := (prefix (Sub.subspace (Sub.namespace db ns) m)).

(** What a creation and a deletion may change. *)
Definition edge_changes t t' : Prop :=
  forall k, (forall m r, m ∈ [markers.EDGE; markers.CDC; markers.IDS] -> k <> P m ++ r) -> kv_get t' k = kv_get t k.

Context (st : EdgeStore) (s tg : NodeRef) (l : string) (props : Props) (schema : EntitySchema) (dir : EdgeDirection) (sk : option bytes).
Context (Hlocal : is_local db ns s) (Hconf : conf (ref_entity_type s) = Some schema).
Context (Hdir : validate_edge_type schema l (ref_entity_type tg) = Ok dir) (Hprops : storable_props props).
Context (Hsk : encode_sort_key (sort_key_for_label (Some schema) l props) = Ok sk) (Hff : not_ff (sk_bytes sk)).
Local Abbreviation ks := (edge_keys_with (Sub.namespace db ns) s tg l sk (bool_decide (dir = Bidirectional))).

Definition new_edge (edge_id : string) (created : Z) : EdgeData :=
  mkEdgeData edge_id (canon_props props) created (Some s) (Some tg) (Some l).

Lemma new_edge_row edge_id created : edge_row db ns conf (new_edge edge_id created) s tg l sk ks.
Proof.
  split; [done..|by rewrite Hconf; eexists| |done|].
  - cbn [new_edge ed_properties]. by rewrite Hconf, sort_key_canon.
  - by rewrite Hconf, (validated_bidi _ _ _ _ Hdir).
Qed.

(** The rows of a new edge, after the allocation of its identifier. *)
Lemma created_rows t t1 t2 edge_id created b :
  edges_wf db ns conf t -> (forall k, k ∈ all_keys ks -> kv_get t k = None) ->
  encode_cbor (mkEdgeData edge_id props created (Some s) (Some tg) (Some l)) = Ok b ->
  (forall k, (forall r, k <> P markers.IDS ++ r) -> kv_get t1 k = kv_get t k) ->
  (forall k, (forall r, k <> P markers.CDC ++ r) -> kv_get t2 k = kv_get (set_edge_rows t1 ks b) k) ->
  edges_wf db ns conf t2 /\ edge_changes t t2 /\
  forall d, stored db ns conf t2 d <-> stored db ns conf t d \/ d = new_edge edge_id created.
Proof.
  intros Hwf Hfree Eb Hid Hcdc. pose proof (new_edge_row edge_id created) as He.
  assert (Hget : forall k, (forall m r, m ∈ [markers.CDC; markers.IDS] -> k <> P m ++ r) ->
    kv_get t2 k = if decide (k ∈ all_keys ks) then Some b else kv_get t k).
  { intros k Hk. rewrite Hcdc by (intros r; apply Hk; left). unfold set_edge_rows. rewrite get_set_keys.
    destruct (decide (k ∈ all_keys ks)); [done|]. apply Hid. intros r. apply Hk. right. left. }
  assert (Hdec : decode_cbor b = Ok (new_edge edge_id created)) by (exact (decode_encode_cbor (mkEdgeData edge_id props created (Some s) (Some tg) (Some l)) b Hprops Eb)).
  assert (Hb : b <> []). { destruct (encode_cbor_total (mkEdgeData edge_id props created (Some s) (Some tg) (Some l))) as (b' & Eb' & Hne). congruence. }
  destruct (edges_added db ns conf t t2 _ s tg l sk ks b Hwf He Hb Hdec Hfree) as [Hwf' Hst].
  { intros r. apply Hget. intros m r' Hm. apply subspace_ne; [marker| |]; rewrite !elem_of_cons, elem_of_nil in Hm;
      destruct_or?; subst; first [marker|done]. }
  split; [done|]. split; [|done]. intros k Hk. rewrite Hget by (intros m r Hm; apply Hk; by right).
  rewrite decide_False; [done|]. intros Hin. destruct (row_keys_in_edge _ _ _ _ _ _ _ _ _ _ He Hin) as [r ->].
  by eapply (Hk markers.EDGE r); [left|].
Qed.

(** The end of an edge mutation: flush, failpoint, commit. *)
Lemma run_finish_edge env acc t fp action w :
  no_faults env -> no_failpoints w ->
  exists w', (forall A (K : M S A),
      (t ← flush acc t db ns; Failpoints.inject fp ;; commit_or_internal t action ;; K) env w = K env w') /\
    w_cache w' = w_cache w /\ w_alloc w' = w_alloc w /\ no_failpoints w' /\
    forall k, (forall r, k <> P markers.CDC ++ r) -> kv_get (w_kv w') k = kv_get t k.
Proof.
  intros Henv Hfp. destruct (run_flush_frame db ns Hshort env acc t w) as (t' & w1 & Ef & Hw1 & Hk).
  destruct Hw1 as (_ & Hc & Ha & Hf).
  assert (Hfp1 : no_failpoints w1) by (unfold no_failpoints; by rewrite Hf).
  exists (set_kv (next_tick w1) t'). split; [|done]. intros A K. rewrite (bind_run _ _ _ _ _ _ Ef).
  by rewrite (bind_run _ _ _ _ _ _ (run_inject env w1 fp Hfp1)), (bind_run _ _ _ _ _ _ (run_commit_or_internal env Henv t' action w1 Hfp1)).
Qed.

Definition edge_created w (e : StoredEdge) w' : Prop :=
  edges_wf db ns conf (w_kv w') /\ edge_changes (w_kv w) (w_kv w') /\
  se_source e = s /\ se_target e = tg /\ se_label e = l /\ se_properties e = props /\
  exists created, forall d, stored db ns conf (w_kv w') d <-> stored db ns conf (w_kv w) d \/ d = new_edge (se_edge_id e) created.

Lemma run_create_edge env w :
  no_faults env -> no_failpoints w -> edges_wf db ns conf (w_kv w) -> served db ns conf w ->
  (forall k, k ∈ all_keys ks -> kv_get (w_kv w) k = None) ->
  (admissible (es_site_id st) s tg (w_kv w) /\
     exists e w', create_edge st db ns s tg l props env w = (Ok e, w') /\ edge_created w e w') \/
  (~ admissible (es_site_id st) s tg (w_kv w) /\ exists e w', create_edge st db ns s tg l props env w = (Err e, w')).
Proof.
  intros Henv Hfp Hwf Hsv Hfree. unfold create_edge. destruct Hlocal as [Edb Ens].
  destruct (run_get_schema_served env Henv db ns conf w _ schema Hsv Hconf) as (w1 & E1 & Hw1 & _).
  rewrite (bind_run (require_schema _ _ _) _ env w schema w1).
  2: { unfold require_schema. rewrite Edb, Ens. by rewrite (bind_run _ _ _ _ _ _ E1). }
  rewrite Hdir, run_lift. cbv zeta.
  destruct (run_allocate_ok env (es_allocator st) db ns ("edge_" ++ l)%string w1 Henv) as ([site seq] & w2 & E2 & [Hk2 _] & _ & Hf2).
  rewrite (bind_run _ _ _ _ _ _ E2). unfold compute_edge_keys. rewrite Hsk. cbn [mbind result_bind]. rewrite run_lift, run_now.
  set (edge_id := EdgeIds.to_string _).
  destruct (encode_cbor_total (mkEdgeData edge_id props (env_now env (w_tick w2)) (Some s) (Some tg) (Some l))) as (b & Eb & _).
  rewrite Eb, run_lift. mrun Henv.
  match goal with |- context [(_ ≫= _) env ?w0] => set (w3 := w0) end.
  assert (Hd1 : w_kv w1 = w_kv w) by apply Hw1. assert (Hd3 : w_kv (next_tick w2) = w_kv w2) by done.
  assert (Hids : forall k, (forall r, k <> P markers.IDS ++ r) -> kv_get (w_kv w2) k = kv_get (w_kv w) k).
  { intros k Hk. rewrite Hk2 by done. by rewrite Hd1. }
  assert (Hdata : forall db' ns' r, let D := prefix (Sub.data (Sub.namespace db' ns')) in
    kv_get (w_kv w2) (D ++ r) = kv_get (w_kv w) (D ++ r)).
  { intros db' ns' r D. apply Hids. intros r' E. by apply ns_key_inj in E as (_ & _ & ? & _); [|marker..]. }
  match goal with |- context [match _ with Some _ => ?K | None => throw _ end] =>
    destruct (run_admission env (es_site_id st) s tg (w_kv w2) K w3 Henv)
      as [(Ha & w4 & Hw4 & E)|(Hn & e & w4 & E)] end.
  - left. split; [by eapply admissible_frame|]. clear Ha.
    assert (Hfp4 : no_failpoints w4).
    { unfold no_failpoints. destruct Hw4 as (_ & _ & _ & ->). cbn. rewrite Hf2. destruct Hw1 as (_ & _ & ->). exact Hfp. }
    match goal with E : _ = (flush ?acc ?t _ _ ≫= _) env _ |- _ =>
      destruct (run_finish_edge env acc t "edge.create.after_cdc_flush" "create edge" w4 Henv Hfp4) as (w5 & E5 & _ & _ & _ & Hk5) end.
    eexists _, _. split; [etrans; [exact E|]; rewrite E5; reflexivity|].
    destruct (created_rows (w_kv w) (w_kv w2) (w_kv w5) edge_id (env_now env (w_tick w2)) b Hwf Hfree Eb Hids Hk5) as (Hwf5 & Hch & Hst).
    split; [exact Hwf5|]. split; [exact Hch|]. do 4 (split; [done|]). by eexists.
  - right. split; [|by eexists _, _; exact E]. intros Ha. apply Hn. revert Ha. apply admissible_frame. intros. symmetry. apply Hdata.
Qed.
End Run.
End Create.

(** C3: creating an edge.  In a well-formed namespace, for an edge the
    schema of the source allows and whose keys are free, a creation that returns an
    edge has found both nodes, neither of them being deleted, and a source the site
    owns; it has added exactly this edge to the stored edges and changed nothing
    but edges, change log and identifier counters.  Without faults it fails only if
    these conditions do not hold. *)
Theorem create_edge_correct {S} `{FdbLaws S} `{Cbor NodeData} `{Cbor EdgeNodeData} `{CborLaws EdgeData canon_edge storable_edge}
    `{Cbor EntitySchema} `{CborLaws CdcEntry canon_entry storable_entry} env (db ns : string)
    (conf : string -> option EntitySchema) (st : EdgeStore) (s tg : NodeRef) (l : string) (props : Props)
    (schema : EntitySchema) (dir : EdgeDirection) (sk : option bytes) (w w' : World S) (r : result StoredEdge) :
  Z.of_nat (length (prefix (cdc_subspace db ns))) < 2 ^ 32 ->
  no_failpoints w -> edges_wf db ns conf (w_kv w) -> served db ns conf w ->
  is_local db ns s -> conf (ref_entity_type s) = Some schema -> storable_props props ->
  validate_edge_type schema l (ref_entity_type tg) = Ok dir ->
  encode_sort_key (sort_key_for_label (Some schema) l props) = Ok sk -> not_ff (sk_bytes sk) ->
  (forall k, k ∈ all_keys (edge_keys_with (Sub.namespace db ns) s tg l sk (bool_decide (dir = Bidirectional))) ->
     kv_get (w_kv w) k = None) ->
  create_edge st db ns s tg l props env w = (r, w') ->
  match r with
  | Ok e => admissible (es_site_id st) s tg (w_kv w) /\ edge_created db ns conf s tg l props w e w'
  | Err _ => no_faults env -> ~ admissible (es_site_id st) s tg (w_kv w)
  end.
Proof.
  intros Hshort Hfp Hwf Hsv Hlocal Hconf Hprops Hdir Hsk Hff Hfree E.
  pose proof (fun env Henv => run_create_edge db ns conf Hshort st s tg l props schema dir sk Hlocal Hconf Hdir Hprops
    Hsk Hff env w Henv Hfp Hwf Hsv Hfree) as Hrun. destruct r as [e|e].
  - apply settles_create_edge in E.
    destruct (Hrun (calm env) (calm_no_faults env)) as [(Ha & e' & w1 & E' & Hpost)|(_ & e' & w1 & E')];
      rewrite E in E'; by simplify_eq.
  - intros Henv. destruct (Hrun env Henv) as [(_ & e' & w1 & E' & _)|(Hn & _)]; [congruence|done].
Qed.

(** ** Deletion *)

(** The edge goes from [s] to [tg] with label [l]. *)
Definition joins (s tg : NodeRef) (l : string) (d : EdgeData) : Prop :=
  ed_source d = Some s /\ ed_target d = Some tg /\ ed_label d = Some l.

Section Delete.
Context {S : Type} `{FdbLaws S} `{Cbor NodeData} `{CborLaws EdgeData canon_edge storable_edge}.
Context `{Cbor EntitySchema} `{CborLaws CdcEntry canon_entry storable_entry}.
Context (db ns : string) (conf : string -> option EntitySchema) (Hshort : Z.of_nat (length (prefix (cdc_subspace db ns))) < 2 ^ 32).
Implicit Types (w : World S) (t : S).

Lemma idle_require_source env r w : no_faults env -> idle w (require_source r env w).2.
Proof.
  intros Henv. unfold require_source, get_node, get_node_at_read_version.
  destruct (parse_node_id (ref_node_id r)) as [n|e]; [|done]. unfold mbind, M_bind, lift. cbn.
  rewrite (run_get_at_read_version env Henv). cbn. destruct (kv_get _ _) as [b|]; [|done].
  by destruct (decode_cbor b).
Qed.

Lemma settled_lift {A} (r : result A) env w a w' : lift r env w = (Ok a, w') -> w = w'.
Proof. unfold lift. by intros [= _ <-]. Qed.

Lemma edge_row_joins d s tg l s' tg' l' sk ks :
  edge_row db ns conf d s' tg' l' sk ks -> joins s tg l d -> s' = s /\ tg' = tg /\ l' = l.
Proof. intros [Hs Ht Hl _ _ _ _ _] (Hs' & Ht' & Hl'). split; [congruence|]. split; congruence. Qed.

(** Removing the rows of one stored edge. *)
Lemma edges_unlinked t t' d s tg l sk ks v :
  edges_wf db ns conf t -> edge_row db ns conf d s tg l sk ks -> rows_of t d ks v ->
  (forall k, (forall r, k <> prefix (Sub.cdc (Sub.namespace db ns)) ++ r) -> kv_get t' k = kv_get (clear_edge_rows t ks) k) ->
  edges_wf db ns conf t' /\ edge_changes db ns t t' /\
  forall d', stored db ns conf t' d' <-> stored db ns conf t d' /\ ~ joins s tg l d'.
Proof.
  intros Hwf He Hr Hk.
  assert (Hget : forall k, (forall r, k <> prefix (Sub.cdc (Sub.namespace db ns)) ++ r) ->
    kv_get t' k = if decide (k ∈ all_keys ks) then None else kv_get t k).
  { intros k Hc. rewrite Hk by done. unfold clear_edge_rows. by rewrite get_clear_keys. }
  destruct (edges_removed db ns conf t t' (all_keys ks) (fun d' => d' = d) Hwf) as [Hwf' Hst].
  { intros r. apply Hget. intros r'. apply subspace_ne; [marker|marker|done]. }
  { intros k Hin. by exists d, s, tg, l, sk, ks, v. }
  { intros d' s' tg' l' sk' ks' k -> He' Hin. by destruct (edge_row_fun _ _ _ _ _ _ _ _ _ _ _ _ _ _ He He') as (_ & _ & _ & ->). }
  split; [done|]. split.
  - intros k Hne. rewrite Hget by (intros r; apply (Hne markers.CDC); right; left). rewrite decide_False; [done|].
    intros Hin. destruct (row_keys_in_edge _ _ _ _ _ _ _ _ _ _ He Hin) as [r ->]. by eapply (Hne markers.EDGE r); [left|].
  - intros d'. rewrite Hst. split; intros [(s' & tg' & l' & sk' & ks' & v' & He' & Hr') Hne]; (split; [by exists s', tg', l', sk', ks', v'|]).
    + intros Hj. destruct (edge_row_joins _ _ _ _ _ _ _ _ _ He' Hj) as (-> & -> & ->).
      apply Hne. symmetry. exact (stored_ends db ns conf t d d' s tg l sk ks sk' ks' v v' He Hr He' Hr').
    + intros ->. apply Hne. by destruct He.
Qed.

Lemma run_delete_edge env st s tg l schema w deleted w' :
  no_faults env -> no_failpoints w -> edges_wf db ns conf (w_kv w) -> few db ns (w_kv w) -> served db ns conf w ->
  is_local db ns s -> conf (ref_entity_type s) = Some schema ->
  delete_edge st db ns s tg l env w = (Ok deleted, w') ->
  (deleted = true <-> exists d, stored db ns conf (w_kv w) d /\ joins s tg l d) /\
  edges_wf db ns conf (w_kv w') /\ edge_changes db ns (w_kv w) (w_kv w') /\
  forall d, stored db ns conf (w_kv w') d <-> stored db ns conf (w_kv w) d /\ ~ joins s tg l d.
Proof.
  intros Henv Hfp Hwf Hfew Hsv [Edb Ens] Hconf. unfold delete_edge. intros (n & w1 & E1 & E)%bind_ok.
  pose proof (idle_require_source env s w Henv) as Hw1. rewrite E1 in Hw1. cbn [snd] in Hw1.
  apply bind_ok in E as ([] & w1' & E1' & E). apply settled_lift in E1' as <-.
  assert (Hsv1 : served db ns conf w1).
  { destruct Hw1 as (Hkv & Hca & _). apply (served_frame db ns conf w); [|done|done]. intros r. by rewrite Hkv. }
  destruct (run_get_schema_served env Henv db ns conf w1 _ schema Hsv1 Hconf) as (w2 & E2 & Hw2 & _).
  rewrite Edb, Ens, (bind_run _ _ _ _ _ _ E2) in E.
  assert (Hw02 : same_store w w2) by (etrans; [by apply idle_same_store|exact Hw2]).
  assert (Hk2 : w_kv w2 = w_kv w) by apply Hw02.
  destruct (run_find env Henv db ns conf s tg l w2) as (found & w3 & E3 & Hw3 & Hsome & Hall); [by rewrite Hk2..|].
  rewrite (bind_run _ _ _ _ _ _ E3) in E. rewrite Hk2 in Hsome, Hall.
  assert (Hk3 : w_kv w3 = w_kv w) by (destruct Hw3 as [-> _]; exact Hk2).
  assert (Hnone : found = None -> forall d, stored db ns conf (w_kv w) d -> ~ joins s tg l d).
  { intros -> d (s' & tg' & l' & sk' & ks' & v' & He & Hr) Hj.
    destruct (edge_row_joins _ _ _ _ _ _ _ _ _ He Hj) as (-> & -> & ->). discriminate (Hall _ _ _ _ He Hr). }
  destruct found as [d|].
  - destruct (Hsome d eq_refl) as (sk & ks & v & He & Hr). pose proof Hr as (_ & _ & Hrow).
    rewrite <- Hconf, (edge_row_found _ _ _ _ _ _ _ _ _ He), run_lift in E. revert E. mrun Henv.
    rewrite Hk3, (Hrow _ (forward_in_keys ks)). mrun Henv.
    match goal with |- (flush ?acc ?t _ _ ≫= _) env ?w4 = _ -> _ =>
      destruct (run_finish_edge db ns Hshort env acc t "edge.delete.after_cdc_flush" "delete edge" w4 Henv)
        as (w5 & E5 & _ & _ & _ & Hk5) end.
    { unfold no_failpoints. cbn. destruct Hw3 as (_ & _ & _ & ->). destruct Hw02 as (_ & _ & ->). exact Hfp. }
    rewrite E5. intros [= <- <-]. cbn [w_kv next_tick] in Hk5. rewrite Hk3 in Hk5.
    destruct (edges_unlinked (w_kv w) (w_kv w5) d s tg l sk ks v Hwf He Hr Hk5) as (Hwf5 & Hch & Hst).
    split; [|done]. split; [intros _|done]. exists d. split; [by exists s, tg, l, sk, ks, v|]. by destruct He.
  - injection E as <- <-. rewrite Hk3. split; [split; [done|]; intros (d & Hd & Hj); by destruct (Hnone eq_refl d Hd)|].
    split; [done|]. split; [done|]. intros d. split; [|by intros [? _]]. intros Hd. split; [done|]. by apply Hnone.
Qed.
End Delete.

(** C12: deleting an edge.  In a well-formed namespace whose fan-out per
    source and label fits one page of the search, a deletion that returns has
    removed exactly the edge with the given ends and label, all rows of it and none
    of any other edge, and says whether there was one; nothing but edges and change
    log is touched. *)
Theorem delete_edge_correct {S} `{FdbLaws S} `{Cbor NodeData} `{CborLaws EdgeData canon_edge storable_edge}
    `{Cbor EntitySchema} `{CborLaws CdcEntry canon_entry storable_entry} env (db ns : string)
    (conf : string -> option EntitySchema) (st : EdgeStore) (s tg : NodeRef) (l : string) (schema : EntitySchema)
    (w w' : World S) (deleted : bool) :
  Z.of_nat (length (prefix (cdc_subspace db ns))) < 2 ^ 32 ->
  no_failpoints w -> edges_wf db ns conf (w_kv w) -> few db ns (w_kv w) -> served db ns conf w ->
  is_local db ns s -> conf (ref_entity_type s) = Some schema ->
  delete_edge st db ns s tg l env w = (Ok deleted, w') ->
  (deleted = true <-> exists d, stored db ns conf (w_kv w) d /\ joins s tg l d) /\
  edges_wf db ns conf (w_kv w') /\ edge_changes db ns (w_kv w) (w_kv w') /\
  forall d, stored db ns conf (w_kv w') d <-> stored db ns conf (w_kv w) d /\ ~ joins s tg l d.
Proof.
  intros Hshort Hfp Hwf Hfew Hsv Hlocal Hconf E%settles_delete_edge.
  exact (run_delete_edge db ns conf Hshort (calm env) st s tg l schema w deleted w' (calm_no_faults env) Hfp Hwf Hfew Hsv
    Hlocal Hconf E).
Qed.

(** ** On the concrete graph *)

Definition person_id (n : Z) : NodeId := mkNodeId 1 n.
Definition person_row (n : Z) : bytes :=
  data_key (Sub.data (Sub.namespace "db" "ns")) "Person" (NodeIds.to_bytes (person_id n)).
Definition person_bytes : bytes := match encode_cbor (mkNodeData ∅ 1 5 5) with Ok b => b | Err _ => [] end.

(** The graph with the rows of its three nodes. *)
Definition people_kv : MemKv :=
  kv_set (kv_set (kv_set graph_kv (person_row 1) person_bytes) (person_row 2) person_bytes) (person_row 3) person_bytes.
Definition people_world : World MemKv := mkWorld people_kv {[("db", "ns", "Person") := graph_schema]} ∅ ∅ 0.
Definition people_store : EdgeStore := mkEdgeStore (mkIdAllocator 1 100) (mkNodeStore (mkIdAllocator 1 100) "1") "1".

Lemma person_row_eq n : exists r, person_row n = prefix (Sub.data (Sub.namespace "db" "ns")) ++ r.
Proof. unfold person_row, data_key. tuple_norm. eauto. Qed.

Lemma people_wf : edges_wf "db" "ns" graph_conf people_kv.
Proof.
  apply (edges_frame "db" "ns" graph_conf graph_kv people_kv); [|apply graph_wf]. intros r. unfold people_kv.
  assert (Hne : forall n, person_row n <> prefix (Sub.edge (Sub.namespace "db" "ns")) ++ r).
  { intros n. destruct (person_row_eq n) as [x ->]. apply subspace_ne; [marker|marker|done]. }
  by rewrite !kv_get_set, !decide_False by apply Hne.
Qed.

Lemma people_served : served "db" "ns" graph_conf people_world.
Proof.
  intros et sc. unfold graph_conf. destruct (String.eqb_spec et "Person") as [->|]; [|done]. intros [= <-].
  split; [done|]. left. vm_compute. reflexivity.
Qed.

Definition new_like : result StoredEdge * World MemKv :=
  create_edge people_store "db" "ns" (person "1_1") (person "1_2") "LIKES" ∅ quiet_env people_world.

Lemma create_edge_correct_witness :
  match new_like.1 with
  | Ok e => admissible "1" (person "1_1") (person "1_2") people_kv /\
            edge_created "db" "ns" graph_conf (person "1_1") (person "1_2") "LIKES" ∅ people_world e new_like.2
  | Err _ => False
  end.
Proof.
  pose proof (create_edge_correct quiet_env "db" "ns" graph_conf people_store (person "1_1") (person "1_2") "LIKES" ∅
    graph_schema Outgoing None people_world new_like.2 new_like.1) as Hc.
  assert (Hok : is_ok new_like.1 = true) by (vm_compute; reflexivity).
  destruct new_like.1 as [e|e] eqn:Er; [|discriminate Hok]. apply Hc.
  - vm_compute. reflexivity.
  - reflexivity.
  - apply people_wf.
  - apply people_served.
  - split; reflexivity.
  - reflexivity.
  - apply map_Forall_empty.
  - vm_compute. reflexivity.
  - vm_compute. reflexivity.
  - apply not_ff_nil.
  - intros k Hin. assert (Hall : Forall (fun k => kv_get people_kv k = None)
      (all_keys (edge_keys_with (Sub.namespace "db" "ns") (person "1_1") (person "1_2") "LIKES" None false))).
    { apply (bool_decide_unpack _). vm_compute. exact I. }
    rewrite Forall_forall in Hall. apply Hall. exact Hin.
  - rewrite <- Er. exact (surjective_pairing new_like).
Defined.

Definition old_acquaintance : result bool * World MemKv :=
  delete_edge people_store "db" "ns" (person "1_1") (person "1_2") "KNOWS" quiet_env people_world.

Lemma delete_edge_correct_witness :
  old_acquaintance.1 = Ok true /\
  forall d, stored "db" "ns" graph_conf (w_kv old_acquaintance.2) d <->
    stored "db" "ns" graph_conf people_kv d /\ ~ joins (person "1_1") (person "1_2") "KNOWS" d.
Proof.
  assert (Hok : old_acquaintance.1 = Ok true) by (vm_compute; reflexivity). split; [exact Hok|].
  apply (delete_edge_correct quiet_env "db" "ns" graph_conf people_store (person "1_1") (person "1_2") "KNOWS"
    graph_schema people_world old_acquaintance.2 true).
  - vm_compute. reflexivity.
  - reflexivity.
  - apply people_wf.
  - intros et id l p. rewrite <- length_keys_in. etrans; [apply mem_keys_bound|]. vm_compute. lia.
  - apply people_served.
  - split; reflexivity.
  - reflexivity.
  - rewrite <- Hok. exact (surjective_pairing old_acquaintance).
Defined.

Lemma edge_operations_atomic_witness :
  let r := delete_edge people_store "db" "ns" (person "1_7") (person "1_2") "KNOWS" quiet_env people_world in
  r.1 = Err (SourceNotFound "Person" "1_7") /\ w_kv r.2 = people_kv.
Proof.
  intros r. assert (E : r.1 = Err (SourceNotFound "Person" "1_7")) by (vm_compute; reflexivity). split; [exact E|].
  destruct (edge_operations_atomic (S:=MemKv) people_store "db" "ns" "KNOWS" "1_9" "1" (person "1_7") (person "1_2") ∅ 0)
    as (_ & Hd & _).
  apply (Hd quiet_env people_world (SourceNotFound "Person" "1_7") r.2). rewrite <- E. exact (surjective_pairing r).
Defined.

Lemma list_edges_exact_witness :
  exists l w', list_edges "db" "ns" "Person" "1_1" None 10 quiet_env people_world = (Ok l, w') /\ w_kv w' = people_kv /\
    forall e, e ∈ l <-> exists d, stored "db" "ns" graph_conf people_kv d /\ leaves "db" "ns" graph_conf "Person" "1_1" None d /\ e = view d.
Proof.
  refine (proj1 (list_edges_exact quiet_env "db" "ns" graph_conf people_world "Person" "1_1" None 10 _ _ _ _)).
  - apply quiet_env_ok.
  - apply people_wf.
  - vm_compute. lia.
  - vm_compute. lia.
Defined.

(** ** Parallel edges *)

(** The world of [rated_v2], whose label has a sort key, with the rows of the nodes. *)
Definition rated_world : World MemKv := mkWorld people_kv {[("db", "ns", "Person") := rated_v2]} ∅ ∅ 0.

(** Two edges with the same ends and label and different sort keys, then one
    deletion; what is listed at both ends afterwards. *)
Definition parallel_edges : M MemKv (list Value * list Value) :=
  create_edge people_store "db" "ns" (person "1_1") (person "1_2") "RATED" {["stars" := VInt 5]} ;;
  create_edge people_store "db" "ns" (person "1_1") (person "1_2") "RATED" {["stars" := VInt 3]} ;;
  delete_edge people_store "db" "ns" (person "1_1") (person "1_2") "RATED" ;;
  out ← list_edges "db" "ns" "Person" "1_1" (Some "RATED") 10;
  inc ← list_incoming_edges "db" "ns" "Person" "1_2" (Some "RATED") 10;
  let stars e := default VNull (se_properties e !! "stars") in
  mret (map stars out, map stars inc).

(** Two edges that differ only in their sort key have forward rows of their own but
    share the reverse row: after the deletion of one of them the other is listed
    at its source and no longer at its target. *)
Theorem parallel_edges_share_reverse : (parallel_edges quiet_env rated_world).1 = Ok ([VInt 5], []).
Proof. vm_compute. reflexivity. Qed.
