(* ===== verification/NodeDelete.v ===== *)
(** * Nodes: deletion

    [pelago-storage/src/node.rs]: deletion of a node with its index rows, terms
    and edges, the replicated deletion, and the estimate of what a deletion will
    touch.  A deletion sets a guard row in the transaction that removes the node
    and clears it when the cascade over the edges is done. *)

From S2P Require Import Prelude Bytes Text Errors Types Encoding Subspace SchemaTypes Fdb MemFdb Cdc Ids.
From S2P Require Import Index TermIndex Namespace Jobs SchemaRegistry Node NodeAtomic NodeSpec Edge EdgeSpec EdgeList EdgeCascade EdgeWrite.

(** ** Operations *)

(** [usize] is 64 bits wide. *)
Definition USIZE_MAX : Z := 2 ^ 64 - 1.
Definition usize_saturating_add (a b : Z) : Z := Z.min (a + b) USIZE_MAX.
Definition usize_saturating_mul (a b : Z) : Z := Z.min (a * b) USIZE_MAX.

Record MutationScopeEstimate := mkMutationScopeEstimate {
  estimated_mutated_keys : Z;
  estimated_write_bytes : Z;
  estimated_cascade_edges : Z;
  exceeded_cascade_probe_limit : bool
}.

Section NodeDeleteOps.
Context {S : Type} `{Fdb S} `{Cbor NodeData} `{Cbor EdgeNodeData} `{Cbor EdgeData} `{Cbor EntitySchema} `{Cbor CdcEntry}.
Context `{HashIter}.

(** The edge store a node store builds for its cascades. *)
Definition edge_store_of (st : NodeStore) : EdgeStore := mkEdgeStore (id_allocator st) st (site_id st).

(** The rows of a node removed in a transaction, with the guard that a local
    deletion leaves. *)
Definition erase_node (t : S) (database namespace entity_type : string) (node_id : bytes) (guarded : bool)
    (rems : list IndexEntry) (term_removals : list TermPosting) : M S S :=
  let sub := Sub.namespace database namespace in
  let t := kv_clear t (data_key (Sub.data sub) entity_type node_id) in
  let t := if guarded then kv_set t (delete_guard_key (Sub.data sub) entity_type node_id) [Byte.x31] else t in
  let t := clear_index_entries t rems in
  apply_term_posting_changes t sub entity_type (mkTermPostingChanges [] term_removals) (-1).

(** [None] when [fuel] rounds of the cascade were not enough. *)
Definition delete_node (fuel : nat) (st : NodeStore) (database namespace entity_type node_id : string)
    : M S (option bool) :=
  schema ← require_schema database namespace entity_type;
  parsed ← lift (parse_node_id node_id);
  let node_id_bytes := NodeIds.to_bytes parsed in
  let sub := Sub.namespace database namespace in
  let guard_key := delete_guard_key (Sub.data sub) entity_type node_id_bytes in
  row ← db_get (data_key (Sub.data sub) entity_type node_id_bytes);
  match row with
  | None => mret (Some false)
  | Some b =>
      existing ← lift (decode_cbor b);
      lift (enforce_local_ownership (site_id st) entity_type node_id (nd_locality existing)) ;;
      rems ← lift (compute_index_entries sub entity_type node_id_bytes schema (nd_properties existing));
      term_removals ← lift (compute_term_postings sub entity_type node_id_bytes (nd_properties existing));
      t ← create_transaction;
      let cdc := new_accumulator (site_id st) in
      t ← erase_node t database namespace entity_type node_id_bytes true rems term_removals;
      let cdc := push cdc (NodeDelete entity_type node_id) in
      t ← flush cdc t database namespace;
      Failpoints.inject "node.delete.after_cdc_flush" ;;
      commit_or_internal t "delete node" ;;
      cascaded ← delete_edges_for_node fuel (edge_store_of st) database namespace entity_type node_id;
      match cascaded with
      | None => mret None
      | Some _ =>
          clear_trx ← create_transaction;
          let clear_trx := kv_clear clear_trx guard_key in
          commit_or_internal clear_trx ("clear node delete guard for " ++ entity_type ++ ":" ++ node_id) ;;
          mret (Some true)
      end
  end.

Definition apply_replica_node_delete (fuel : nat) (st : NodeStore) (database namespace entity_type node_id : string)
    (event_timestamp : Z) (origin_site : string) : M S (option bool) :=
  actor_site ← lift (parse_site_id origin_site "origin_site");
  schema ← require_schema database namespace entity_type;
  parsed ← lift (parse_node_id node_id);
  let node_id_bytes := NodeIds.to_bytes parsed in
  let sub := Sub.namespace database namespace in
  row ← db_get (data_key (Sub.data sub) entity_type node_id_bytes);
  match row with
  | None => mret (Some false)
  | Some b =>
      existing ← lift (decode_cbor b);
      if negb (nd_locality existing =? actor_site) && (event_timestamp <=? nd_updated_at existing) then mret (Some false)
      else
        rems ← lift (compute_index_entries sub entity_type node_id_bytes schema (nd_properties existing));
        term_removals ← lift (compute_term_postings sub entity_type node_id_bytes (nd_properties existing));
        t ← create_transaction;
        t ← erase_node t database namespace entity_type node_id_bytes false rems term_removals;
        commit_or_internal t "apply replicated node delete" ;;
        cascaded ← delete_edges_for_node_replica fuel (edge_store_of st) database namespace entity_type node_id;
        match cascaded with
        | None => mret None
        | Some _ => mret (Some true)
        end
  end.

(** *** The scope of a deletion *)

Definition estimate_edge_mutation_entries_for_scope (edge : StoredEdge) : M S Z :=
  let source := se_source edge in
  schema ← get_schema (ref_database source) (ref_namespace source) (ref_entity_type source);
  match schema with
  | None => mret 3
  | Some schema =>
      mret (if match edges schema !! se_label edge with
               | Some def => bool_decide (direction def = Bidirectional)
               | None => false
               end then 5 else 3)
  end.

Fixpoint estimate_loop (cascade_probe_limit : Z) (seen : gset string) (edge_count mutations : Z)
    (candidates : list StoredEdge) : M S (Z * Z) :=
  match candidates with
  | [] => mret (edge_count, mutations)
  | edge :: rest =>
      if decide (dedupe_key edge ∈ seen) then estimate_loop cascade_probe_limit seen edge_count mutations rest
      else
        let seen := {[dedupe_key edge]} ∪ seen in
        let edge_count := usize_saturating_add edge_count 1 in
        entries ← estimate_edge_mutation_entries_for_scope edge;
        let mutations := usize_saturating_add mutations entries in
        if cascade_probe_limit <? edge_count then mret (edge_count, mutations)
        else estimate_loop cascade_probe_limit seen edge_count mutations rest
  end.

Definition estimate_delete_scope (database namespace entity_type node_id : string) (cascade_probe_limit : Z)
    : M S MutationScopeEstimate :=
  let limit := Z.to_nat (usize_saturating_add cascade_probe_limit 1) in
  outgoing ← list_edges database namespace entity_type node_id None limit;
  incoming ← list_incoming_edges database namespace entity_type node_id None limit;
  counted ← estimate_loop cascade_probe_limit ∅ 0 0 (outgoing ++ incoming);
  let '(edge_count, estimated_edge_mutations) := counted in
  let estimated_mutated_keys := usize_saturating_add 2 estimated_edge_mutations in
  mret (mkMutationScopeEstimate estimated_mutated_keys (usize_saturating_mul estimated_mutated_keys 256)
          edge_count (cascade_probe_limit <? edge_count)).
End NodeDeleteOps.

(** ** The rows a deletion removes *)

Section Erase.
Context {S : Type} `{FdbLaws S} `{HashIter} `{CborLaws NodeData canon_node storable_node}.
Context (db ns et : string) (schema : EntitySchema).
Implicit Types (t : S) (nid : bytes) (N : NodeMap).
Local Abbreviation sub := (Sub.namespace db ns).

Definition guard_of nid : bytes := delete_guard_key (Sub.data (Sub.namespace db ns)) et nid.

(** Type names that cannot be mistaken for the marker of a guard row. *)
Definition plain_type : Prop := no_null et /\ et <> "__deleting".

Lemma guard_of_eq nid : exists r, guard_of nid = prefix (Sub.data sub) ++ r.
Proof. unfold guard_of, delete_guard_key. tuple_norm. eauto. Qed.

Lemma guard_not_node nid r : plain_type -> guard_of nid <> data_prefix db ns et ++ r.
Proof.
  intros [Hn Hne]. unfold guard_of, delete_guard_key, data_prefix. tuple_norm. intros E%app_inv_head.
  apply enc_str_inj_no_null in E as [E _]; [by destruct Hne|by apply (bool_decide_unpack _); vm_compute|done].
Qed.

Lemma guard_not_index nid r : guard_of nid <> prefix (Sub.index sub) ++ r.
Proof. destruct (guard_of_eq nid) as [x ->]. apply subspace_ne; [marker|marker|done]. Qed.

Lemma some_docs t nid : valid_nid nid -> is_Some (kv_get t (node_key db ns et nid)) -> 1 <= doc_rows db ns et t.
Proof.
  intros Hv Hs. pose proof (doc_rows_step db ns et t (kv_clear t (node_key db ns et nid)) nid false Hv) as Hd.
  rewrite decide_True in Hd by done. unfold doc_rows in *. lapply Hd; [clear Hd; intros Hd|].
  - lapply Hd; [lia|]. rewrite kv_get_clear, decide_True by done. by split; [intros []|].
  - intros k Hk r _. rewrite kv_get_clear, decide_False; [done|congruence].
Qed.

Lemma run_erase_node env t N nid old guarded es ps w :
  no_faults env -> plain_type -> represents db ns et schema t N -> room db ns et t -> valid_nid nid -> N nid = Some old ->
  compute_index_entries sub et nid schema old = Ok es -> compute_term_postings sub et nid old = Ok ps ->
  exists t' w', erase_node t db ns et nid guarded es ps env w = (Ok t', w') /\ idle w w' /\
    represents db ns et schema t' (put N nid None) /\ off_nodes db ns t t' /\
    (guarded = true -> kv_get t' (guard_of nid) = Some [Byte.x31]).
Proof.
  intros Henv Hpt HR [Hmax Hdocs] Hv HN Ees Eps. pose proof HR as [Hd Hi Ht Hdf Hn Hf _]. unfold erase_node.
  fold (node_key db ns et nid) (guard_of nid).
  set (t1 := if guarded then _ else _).
  assert (Hg1 : forall k, k <> node_key db ns et nid -> k <> guard_of nid -> kv_get t1 k = kv_get t k).
  { intros k Hk Hk'. unfold t1. destruct guarded; rewrite ?kv_get_set, ?kv_get_clear, ?decide_False; congruence. }
  assert (Hs1 : kv_stamp t1 = kv_stamp t) by (unfold t1; destruct guarded; by rewrite ?kv_stamp_set, kv_stamp_clear).
  assert (Hrow1 : kv_get t1 (node_key db ns et nid) = None).
  { unfold t1. pose proof (guard_not_node nid nid Hpt) as Hne. rewrite <- (node_key_eq db ns et nid) in Hne.
    destruct guarded; rewrite ?kv_get_set, ?(decide_False (P:=guard_of nid = _)), kv_get_clear, decide_True; congruence. }
  destruct (entries_rows sub et schema nid old) as (es' & Ees' & _ & Hout). rewrite Ees in Ees'. injection Ees' as <-.
  set (t2 := clear_index_entries t1 es).
  assert (Hg2 : forall k, (forall p dd enc, k <> row_key sub et p dd enc nid) -> kv_get t2 k = kv_get t1 k).
  { intros k Hk. unfold t2. rewrite clear_index_entries_get, decide_False; [done|].
    intros (e & -> & He)%list_elem_of_fmap. destruct (Hout e He) as (p & dd & enc & _ & _ & Hke & _). by eapply Hk. }
  assert (Hrow : forall p dd enc nid', kv_get t1 (row_key sub et p dd enc nid') = kv_get t (row_key sub et p dd enc nid')).
  { intros. apply Hg1; [apply data_not_row|]. intros E. symmetry in E. by apply guard_not_index in E. }
  assert (Hterm : forall k, term_key_of (Sub.index sub) et k -> kv_get t2 k = kv_get t k).
  { intros k Hk. rewrite Hg2 by (intros; by apply term_not_row). apply Hg1; [by apply data_not_idx|].
    intros ->. apply term_key_in_index in Hk as [r E]. by apply guard_not_index in E. }
  rewrite compute_term_postings_eq in Eps. injection Eps as <-.
  pose proof (delete_changes_ok sub et nid old (Hf nid old HN)) as Hch.
  assert (Hone : 1 <= doc_rows db ns et t).
  { apply (some_docs t nid Hv). pose proof (Hd nid Hv) as Hdn. rewrite HN in Hdn. destruct Hdn as (b & dd & -> & _). eauto. }
  destruct (run_apply_changes sub et env t2 nid _ _ _ (doc_rows db ns et t) (-1) w Henv (proj2 Hv) Hch) as
    (t3 & w3 & E3 & Hw3 & Hl3 & Hdf3 & Hn3 & Ho3 & Hk3 & Hs3).
  { apply (listed_frame sub et t); [done|]. specialize (Ht nid Hv). by rewrite HN in Ht. }
  { by apply (df_exact_frame sub et t). }
  { intros tm. by rewrite (term_rows_frame sub et t). }
  { by apply (n_docs_frame sub et t). }
  { unfold doc_rows in *. lia. }
  assert (Hdata3 : forall r, kv_get t3 (data_prefix db ns et ++ r) = kv_get t1 (data_prefix db ns et ++ r)).
  { intros r. rewrite Hk3 by apply data_prefix_not_term. apply Hg2. intros. apply data_prefix_not_row. }
  exists t3, w3. split; [exact E3|]. split; [done|]. split; [|split].
  - apply (represents_step db ns et schema t); [done|done|..].
    + apply (index_exact_frame sub et schema t2); [intros; apply Hk3, row_not_term|].
      apply (index_exact_step sub et schema t1).
      * by apply (index_exact_frame sub et schema t).
      * done.
      * rewrite HN. by apply index_effect_delete.
      * intros p dd enc b _ _ Hh. by apply holds_empty in Hh.
    + cbn [props_of default]. by rewrite all_terms_empty.
    + intros tm nid' Hff Hne. rewrite (Ho3 tm nid' Hff Hne). apply Hterm, term_key_posting.
    + done.
    + rewrite HN. cbn [present]. by replace (doc_rows db ns et t + (0 - 1)) with (doc_rows db ns et t + -1) by lia.
    + cbn [data_is]. by rewrite (node_key_eq db ns et nid), Hdata3, <- (node_key_eq db ns et nid).
    + intros r Hr. rewrite Hdata3. apply Hg1.
      * rewrite (node_key_eq db ns et nid). by intros E%app_inv_head.
      * intros E. symmetry in E. by apply guard_not_node in E.
    + done.
  - split; [|rewrite Hs3; unfold t2; by rewrite clear_index_entries_stamp]. intros k Hkd Hki.
    rewrite Hk3 by (intros [r ->]%term_key_in_index; by eapply Hki).
    rewrite Hg2 by (intros p dd enc ->; eapply Hki; reflexivity). apply Hg1.
    + intros ->. rewrite (node_key_eq db ns et nid) in Hkd. unfold data_prefix in Hkd. eapply Hkd. by rewrite <- app_assoc.
    + intros ->. destruct (guard_of_eq nid) as [x E]. by eapply Hkd.
  - intros ->. rewrite Hk3 by (intros [r E]%term_key_in_index; by apply guard_not_index in E).
    rewrite Hg2 by (intros p dd enc E; by apply guard_not_index in E).
    unfold t1. by rewrite kv_get_set, decide_True.
Qed.
End Erase.

(** ** Deletion *)

Section Delete.
Context {S : Type} `{FdbLaws S} `{HashIter} `{CborLaws NodeData canon_node storable_node}.
Context `{CborLaws EdgeData canon_edge storable_edge} `{Cbor EntitySchema} `{CborLaws CdcEntry canon_entry storable_entry}.
Context (env : Env) (Henv : no_faults env) (db ns et : string) (conf : string -> option EntitySchema) (schema : EntitySchema).
Context (Hshort : Z.of_nat (length (prefix (cdc_subspace db ns))) < 2 ^ 32).
Context (Hconf : conf et = Some schema) (Hpt : plain_type et).
Implicit Types (w : World S) (t : S) (N : NodeMap).
Local Abbreviation sub := (Sub.namespace db ns).
Local Abbreviation P m := (prefix (Sub.subspace (Sub.namespace db ns) m)).

(** The cascade only depends on edges and schemas. *)
Lemma cascade_inv_frame w w' :
  (forall m r, m ∈ [markers.EDGE; markers.SCHEMA] -> kv_get (w_kv w') (P m ++ r) = kv_get (w_kv w) (P m ++ r)) ->
  w_cache w' = w_cache w -> no_failpoints w' -> cascade_inv db ns conf w ->
  cascade_inv db ns conf w' /\ (forall id, node_rows db ns et id (w_kv w') = node_rows db ns et id (w_kv w)) /\
  (forall d, stored db ns conf (w_kv w') d <-> stored db ns conf (w_kv w) d).
Proof.
  intros Hk Hc Hf [Hwf Hfew Hsv _].
  assert (He : forall r, kv_get (w_kv w') (P markers.EDGE ++ r) = kv_get (w_kv w) (P markers.EDGE ++ r)) by (intros r; apply Hk; left).
  assert (Hcount : forall b, (exists x, b = P markers.EDGE ++ x) ->
    length (keys_in (w_kv w') b (b ++ [Byte.xff])) = length (keys_in (w_kv w) b (b ++ [Byte.xff]))).
  { intros b [x ->]. symmetry. apply count_same. intros k (r & -> & _)%in_scan_prefix. by rewrite <- app_assoc, He. }
  split; [split|split].
  - by apply (edges_frame db ns conf (w_kv w) (w_kv w') He).
  - intros et' id' l. cbv zeta. rewrite <- length_keys_in, Hcount by (rewrite forward_prefix_eq; eauto).
    rewrite length_keys_in. apply Hfew.
  - apply (served_frame db ns conf w); [|done|done]. intros r. apply Hk. right. left.
  - done.
  - intros id. unfold node_rows. rewrite !Hcount; [done|rewrite reverse_prefix_eq; eauto|rewrite forward_prefix_eq; eauto].
  - intros d. split; apply edges_frame; intros r; [symmetry|]; apply He.
Qed.

(** The transaction that removes the node. *)
Lemma run_erase_commit {A} w N nid old guarded es ps acc (K : M S A) :
  represents db ns et schema (w_kv w) N -> room db ns et (w_kv w) -> valid_nid nid -> N nid = Some old ->
  cascade_inv db ns conf w ->
  compute_index_entries sub et nid schema old = Ok es -> compute_term_postings sub et nid old = Ok ps ->
  exists w', (t ← erase_node (w_kv w) db ns et nid guarded es ps; t ← flush acc t db ns;
      Failpoints.inject "node.delete.after_cdc_flush" ;; commit_or_internal t "delete node" ;; K) env w = K env w' /\
    represents db ns et schema (w_kv w') (put N nid None) /\ cascade_inv db ns conf w' /\
    (forall id, node_rows db ns et id (w_kv w') = node_rows db ns et id (w_kv w)) /\
    (forall d, stored db ns conf (w_kv w') d <-> stored db ns conf (w_kv w) d).
Proof.
  intros HR Hroom Hv HN Hinv Ees Eps.
  destruct (run_erase_node db ns et schema env (w_kv w) N nid old guarded es ps w Henv Hpt HR Hroom Hv HN Ees Eps)
    as (t1 & w1 & E1 & (Hk1 & Hc1 & Ha1 & Hf1) & HR1 & [Hoff1 _] & _).
  rewrite (bind_run _ _ _ _ _ _ E1).
  assert (Hfp1 : no_failpoints w1) by (unfold no_failpoints; rewrite Hf1; apply Hinv).
  destruct (run_finish_edge db ns Hshort env acc t1 "node.delete.after_cdc_flush" "delete node" w1 Henv Hfp1)
    as (w2 & E2 & Hc2 & _ & Hf2 & Hk2). exists w2. split; [apply E2|].
  assert (Hcdc : forall m r, no_null m -> m <> markers.CDC -> kv_get (w_kv w2) (P m ++ r) = kv_get t1 (P m ++ r)).
  { intros m r Hm Hne. apply Hk2. intros r'. apply subspace_ne; [done|marker|done]. }
  split.
  { apply (represents_frame db ns et schema t1); [intros r; apply Hcdc; [marker|done]..|exact HR1]. }
  apply (cascade_inv_frame w w2); [|by rewrite Hc2|done|done].
  intros m r Hm. rewrite !elem_of_cons, elem_of_nil in Hm.
  destruct Hm as [->|[->|[]]]; (rewrite Hcdc by (marker || done); apply Hoff1; intros r'; apply subspace_ne; (marker || done)).
Qed.

Lemma run_delete_node fuel st w N id n d b :
  represents db ns et schema (w_kv w) N -> room db ns et (w_kv w) -> cascade_inv db ns conf w ->
  parse_node_id id = Ok n -> site n <> 255 -> let nid := NodeIds.to_bytes n in
  N nid = Some (nd_properties d) -> kv_get (w_kv w) (node_key db ns et nid) = Some b -> decode_cbor b = Ok d ->
  enforce_local_ownership (site_id st) et id (nd_locality d) = Ok tt ->
  (node_rows db ns et id (w_kv w) < fuel)%nat ->
  exists w', delete_node fuel st db ns et id env w = (Ok (Some true), w') /\
    represents db ns et schema (w_kv w') (put N nid None) /\ cascade_inv db ns conf w' /\
    kv_get (w_kv w') (guard_of db ns et nid) = None /\
    (forall e, stored db ns conf (w_kv w') e <-> stored db ns conf (w_kv w) e /\ ~ touches db ns conf et id e).
Proof.
  intros HR Hroom Hinv Hpar Hsite nid HN Hb Hd Hown Hfuel.
  assert (Hnid : valid_nid nid).
  { apply valid_node_bytes; [|done]. unfold parse_node_id in Hpar. destruct (NodeIds.from_str id) eqn:E; [|done].
    injection Hpar as <-. by eapply from_str_ok. }
  unfold delete_node. destruct (run_get_schema_served env Henv db ns conf w et schema (ci_served _ _ _ _ Hinv) Hconf)
    as (w1 & E1 & (Hk1 & _ & Hf1) & Hsv1).
  rewrite (bind_run (require_schema _ _ _) _ env w schema w1).
  2: { unfold require_schema. by rewrite (bind_run _ _ _ _ _ _ E1). }
  rewrite Hpar, run_lift. fold nid. mrun Henv. fold (node_key db ns et nid). rewrite Hk1, Hb, Hd, run_lift, Hown, run_lift.
  destruct (compute_index_entries_ok sub et nid schema (nd_properties d)) as (es & Ees & _). rewrite Ees, run_lift.
  rewrite compute_term_postings_eq, run_lift. mrun Henv.
  set (w2 := next_tick (next_tick (next_tick w1))).
  change (w_kv (next_tick (next_tick w1))) with (w_kv w2). assert (Hk2 : w_kv w2 = w_kv w) by exact Hk1.
  assert (Hinv2 : cascade_inv db ns conf w2).
  { destruct Hinv as [Hwf Hfew _ Hq]. split; [by rewrite Hk2|by rewrite Hk2| |unfold no_failpoints; cbn; by rewrite Hf1].
    by apply (served_frame db ns conf w1). }
  match goal with |- context [commit_or_internal _ "delete node" ≫= (fun _ => ?K)] =>
    destruct (run_erase_commit w2 N nid (nd_properties d) true es (map (posting sub et nid) (all_terms (nd_properties d))) (push (new_accumulator (site_id st)) (NodeDelete et id)) K)
      as (w3 & E3 & HR3 & Hinv3 & Hrows3 & Hst3) end; [by rewrite Hk2|by rewrite Hk2|done|done|done|done|apply compute_term_postings_eq|].
  rewrite E3. clear E3. unfold delete_edges_for_node.
  destruct (run_cascade env Henv db ns conf Hshort (es_site_id (edge_store_of st)) et id true fuel 0 w3 Hinv3)
    as (total & w4 & E4 & Hinv4 & Hel4 & _ & Hst4); [by rewrite Hrows3, Hk2|].
  rewrite (bind_run _ _ _ _ _ _ E4). mrun Henv.
  rewrite (bind_run _ _ _ _ _ _ (run_commit_or_internal env Henv _ _ (next_tick w4) (ci_quiet _ _ _ _ Hinv4))).
  fold (guard_of db ns et nid). set (w5 := set_kv _ _). exists w5. split; [reflexivity|].
  assert (Hk5 : forall k, k <> guard_of db ns et nid -> kv_get (w_kv w5) k = kv_get (w_kv w4) k).
  { intros k Hk. cbn [w5 w_kv set_kv next_tick]. rewrite kv_get_clear, decide_False; [done|congruence]. }
  assert (Hsub5 : forall m r, no_null m -> m <> markers.DATA -> kv_get (w_kv w5) (P m ++ r) = kv_get (w_kv w4) (P m ++ r)).
  { intros m r Hm Hne. apply Hk5. destruct (guard_of_eq db ns et nid) as [x ->]. apply subspace_ne; [done|marker|done]. }
  assert (Hel : forall m r, no_null m -> m <> markers.CDC -> m <> markers.EDGE -> kv_get (w_kv w4) (P m ++ r) = kv_get (w_kv w3) (P m ++ r)).
  { intros m r Hm Hn1 Hn2. apply Hel4; intros r'; apply subspace_ne; (done || marker). }
  destruct (cascade_inv_frame w4 w5) as (Hinv5 & _ & Hst5); [|done|apply Hinv4|done|].
  { intros m r Hm. rewrite !elem_of_cons, elem_of_nil in Hm. destruct Hm as [->|[->|[]]]; (apply Hsub5; [marker|done]). }
  split; [|split; [exact Hinv5|split]].
  - apply (represents_rows db ns et schema (w_kv w3)); [| |exact HR3]; intros r.
    + rewrite Hk5 by (intros E; symmetry in E; by apply guard_not_node in E). unfold data_prefix. rewrite <- app_assoc.
      apply Hel; [marker|done..].
    + etrans; [apply (Hsub5 markers.IDX); [marker|done]|apply (Hel markers.IDX); [marker|done..]].
  - cbn [w5 w_kv set_kv next_tick]. by rewrite kv_get_clear, decide_True.
  - intros e. rewrite Hst5, Hst4, Hst3, Hk2. done.
Qed.
End Delete.

(** C2: deleting a node.  The owner's deletion of a node of the map ends,
    with more rounds of the cascade than the node has edge rows, and returns true:
    the store represents the map without the node (data, index, term rows and
    counters included), every edge that touched the node is gone and every other
    edge is still stored, the deletion guard is cleared, and the node no longer
    reads back. *)
Theorem delete_node_correct {S} `{FdbLaws S} `{HashIter} `{CborLaws NodeData canon_node storable_node}
    `{CborLaws EdgeData canon_edge storable_edge} `{Cbor EntitySchema} `{CborLaws CdcEntry canon_entry storable_entry}
    env (fuel : nat) (st : NodeStore) (db ns et : string) (conf : string -> option EntitySchema) (schema : EntitySchema)
    (w : World S) (N : NodeMap) (id : string) (n : NodeId) (d : NodeData) (b : bytes) :
  no_faults env -> Z.of_nat (length (prefix (cdc_subspace db ns))) < 2 ^ 32 -> conf et = Some schema -> plain_type et ->
  represents db ns et schema (w_kv w) N -> room db ns et (w_kv w) -> cascade_inv db ns conf w ->
  parse_node_id id = Ok n -> site n <> 255 -> let nid := NodeIds.to_bytes n in
  N nid = Some (nd_properties d) -> kv_get (w_kv w) (node_key db ns et nid) = Some b -> decode_cbor b = Ok d ->
  enforce_local_ownership (site_id st) et id (nd_locality d) = Ok tt ->
  (node_rows db ns et id (w_kv w) < fuel)%nat ->
  exists w', delete_node fuel st db ns et id env w = (Ok (Some true), w') /\
    represents db ns et schema (w_kv w') (put N nid None) /\ cascade_inv db ns conf w' /\
    kv_get (w_kv w') (guard_of db ns et nid) = None /\
    (forall e, stored db ns conf (w_kv w') e <-> stored db ns conf (w_kv w) e /\ ~ touches db ns conf et id e) /\
    (get_node db ns et id env w').1 = Ok None.
Proof.
  intros Henv Hshort Hconf Hpt HR Hroom Hinv Hpar Hsite nid HN Hb Hd Hown Hfuel.
  destruct (run_delete_node env Henv db ns et conf schema Hshort Hconf Hpt fuel st w N id n d b HR Hroom Hinv Hpar Hsite HN
    Hb Hd Hown Hfuel) as (w' & E & HR' & Hinv' & Hg & Hst). fold nid in HR', Hg.
  exists w'. split; [exact E|]. do 4 (split; [done|]).
  assert (Hnid : valid_nid nid).
  { apply valid_node_bytes; [|done]. unfold parse_node_id in Hpar. destruct (NodeIds.from_str id) eqn:Ei; [|done].
    injection Hpar as <-. by eapply from_str_ok. }
  pose proof (rp_data _ _ _ _ _ _ HR' nid Hnid) as Hrow. unfold put in Hrow. rewrite decide_True in Hrow by done.
  rewrite (run_get_node env Henv _ _ _ _ n) by done. fold nid. cbn [data_is] in Hrow. by rewrite Hrow.
Qed.

Definition account_conf (et : string) : option EntitySchema := if String.eqb et "Account" then Some account_schema else None.

Lemma account_inv : cascade_inv "db" "ns" account_conf account_world1.
Proof.
  split.
  - intros r v Hv. exfalso.
    assert (Hno : map_Forall (fun k _ => ~ prefix (Sub.edge (Sub.namespace "db" "ns")) `prefix_of` k) (mem_map (w_kv account_world1))).
    { apply (bool_decide_unpack _). vm_compute. exact I. }
    apply (Hno _ _ Hv). by exists r.
  - intros et id l p. rewrite <- length_keys_in. etrans; [apply mem_keys_bound|]. vm_compute. lia.
  - intros et sc. unfold account_conf. destruct (String.eqb_spec et "Account") as [->|]; [|done]. intros [= <-].
    split; [done|]. left. vm_compute. reflexivity.
  - vm_compute. reflexivity.
Qed.

Lemma delete_node_correct_witness :
  exists w', delete_node 1 account_store "db" "ns" "Account" "1_0" quiet_env account_world1 = (Ok (Some true), w') /\
    represents "db" "ns" "Account" account_schema (w_kv w')
      (put (put no_nodes (NodeIds.to_bytes ada_id) (Some ada)) (NodeIds.to_bytes ada_id) None).
Proof.
  destruct account_world1_ok as (HR & Hwf & c & b & Hb & Hd).
  destruct (delete_node_correct quiet_env 1 account_store "db" "ns" "Account" account_conf account_schema account_world1
    (put no_nodes (NodeIds.to_bytes ada_id) (Some ada)) "1_0" ada_id (mkNodeData ada 1 c c) b) as (w' & E & HR' & _).
  - apply quiet_env_ok.
  - vm_compute. reflexivity.
  - reflexivity.
  - split; [apply (bool_decide_unpack _); vm_compute; exact I|discriminate].
  - exact HR.
  - apply account_world1_room.
  - apply account_inv.
  - vm_compute. reflexivity.
  - discriminate.
  - reflexivity.
  - exact Hb.
  - exact Hd.
  - vm_compute. reflexivity.
  - vm_compute. lia.
  - exists w'. split; [exact E|exact HR'].
Defined.

(** ** An interrupted deletion *)

(** The people of [EdgeWrite] with the counter of their term statistics; the first
    transaction of a cascade will fail. *)
Definition crowd_world : World MemKv :=
  set_failpoints (set_kv people_world (kv_set people_kv
    (n_docs_key (Sub.index (Sub.namespace "db" "ns")) "Person") (be_bytes 8 3)))
    {["edge.cascade_delete.after_cdc_flush" := ReturnError (Some 1)]}.

Definition first_try : result (option bool) * World MemKv :=
  delete_node 9 (es_node_store people_store) "db" "ns" "Person" "1_1" quiet_env crowd_world.
Definition second_try : result (option bool) * World MemKv :=
  delete_node 9 (es_node_store people_store) "db" "ns" "Person" "1_1" quiet_env first_try.2.

(** A deletion whose cascade fails is never completed.  The node
    is gone and the guard is set when the cascade runs; if a transaction of the
    cascade fails, a second deletion finds no node, returns false and leaves the
    edges of the deleted node and the guard where they are. *)
Theorem interrupted_delete_leaves_edges :
  is_ok first_try.1 = false /\ second_try.1 = Ok (Some false) /\
  ((l ← list_edges "db" "ns" "Person" "1_1" None 9; mret (map se_label l)) quiet_env second_try.2).1 = Ok ["KNOWS"] /\
  kv_get (w_kv second_try.2) (guard_of "db" "ns" "Person" (NodeIds.to_bytes (person_id 1))) = Some [Byte.x31].
Proof. split; [|split; [|split]]; vm_compute; reflexivity. Qed.

(** ** The estimate *)

Section Estimate.
Context {S : Type} `{Fdb S} `{Cbor EdgeData} `{Cbor EntitySchema}.

Lemma estimate_entries env (e : StoredEdge) (w w' : World S) n :
  estimate_edge_mutation_entries_for_scope e env w = (Ok n, w') -> n = 3 \/ n = 5.
Proof.
  intros (o & w1 & _ & E)%bind_ok. destruct o as [sc|]; [|injection E as <- _; auto].
  injection E as <- _. case_match; auto.
Qed.

Lemma estimate_loop_bounds env limit seen count muts cands (w w' : World S) c m :
  0 <= limit < 2 ^ 60 -> 0 <= count <= limit -> 3 * count <= muts <= 5 * count ->
  estimate_loop limit seen count muts cands env w = (Ok (c, m), w') ->
  count <= c <= limit + 1 /\ 3 * c <= m <= 5 * c.
Proof.
  intros Hl. revert seen count muts w. induction cands as [|e rest IH]; intros seen count muts w Hc Hm; cbn [estimate_loop].
  { intros [= <- <- _]. lia. }
  case_decide; [by apply IH|]. intros (n & w1 & En & E)%bind_ok. apply estimate_entries in En.
  unfold usize_saturating_add, USIZE_MAX in E. rewrite !Z.min_l in E by lia.
  destruct (Z.ltb_spec limit (count + 1)).
  - injection E as <- <- _. lia.
  - apply IH in E; lia.
Qed.
End Estimate.

(** What the estimate of a deletion promises.  Under any faults, an
    estimate that is returned counts at most one edge more than the probe limit,
    is marked as exceeded exactly when it does, counts between three and five rows
    per edge and two for the node, and 256 bytes per row. *)
Theorem estimate_delete_scope_bounds {S} `{Fdb S} `{Cbor EdgeData} `{Cbor EntitySchema} env (db ns et id : string)
    (limit : Z) (w w' : World S) (e : MutationScopeEstimate) :
  0 <= limit < 2 ^ 53 ->
  estimate_delete_scope db ns et id limit env w = (Ok e, w') ->
  let n := estimated_cascade_edges e in
  0 <= n <= limit + 1 /\ (exceeded_cascade_probe_limit e = true <-> n = limit + 1) /\
  2 + 3 * n <= estimated_mutated_keys e <= 2 + 5 * n /\
  estimated_write_bytes e = 256 * estimated_mutated_keys e.
Proof.
  intros Hl. unfold estimate_delete_scope. intros (out & w1 & _ & E)%bind_ok. apply bind_ok in E as (inc & w2 & _ & E).
  apply bind_ok in E as ([c m] & w3 & E3 & E). injection E as <- _. cbn.
  apply estimate_loop_bounds in E3; [|lia..]. unfold usize_saturating_add, usize_saturating_mul, USIZE_MAX.
  rewrite (Z.min_l (2 + m)), Z.min_l, Z.ltb_lt by lia. lia.
Qed.

Lemma estimate_delete_scope_bounds_witness :
  exists e w', estimate_delete_scope "db" "ns" "Person" "1_1" 1 quiet_env people_world = (Ok e, w') /\
    estimated_write_bytes e = 256 * estimated_mutated_keys e.
Proof.
  set (r := estimate_delete_scope "db" "ns" "Person" "1_1" 1 quiet_env people_world).
  assert (E : r.1 = Ok (mkMutationScopeEstimate 10 2560 2 true)) by (vm_compute; reflexivity).
  exists (mkMutationScopeEstimate 10 2560 2 true), r.2.
  assert (Er : r = (Ok (mkMutationScopeEstimate 10 2560 2 true), r.2)) by (rewrite <- E; exact (surjective_pairing r)).
  split; [exact Er|]. eapply (estimate_delete_scope_bounds quiet_env "db" "ns" "Person" "1_1" 1 people_world r.2).
  - lia.
  - exact Er.
Defined.
