(* ===== verification/Predicate.v ===== *)
(** * Comparison predicates

    [pelago-query/src/predicate.rs]: the subset of the filter language that the
    planner and the term index understand, with the text functions of the
    standard library it uses.  A slice out of bounds panics; a function that may
    do so returns a [panics]. *)

From S2P Require Import Prelude Bytes Text Errors Types.

(** The value of an expression that may panic. *)
Inductive panics (A : Type) := Done (a : A) | Panicked.
Arguments Done {A}.
Arguments Panicked {A}.
#[export] Instance panics_ret : MRet panics := fun A a => Done a.
#[export] Instance panics_bind : MBind panics := fun A B f m =>
  match m with Done a => f a | Panicked => Panicked end.

(** ** Text *)

(** [str::find] with a string pattern. *)
Fixpoint find_str (pat l : bytes) : option nat :=
  match strip_prefix pat l with
  | Some _ => Some 0%nat
  | None => match l with [] => None | _ :: l' => S <$> find_str pat l' end
  end.

(** [str::split] with a non-empty string pattern: matches are taken from left to
    right and do not overlap; [skip] bytes of a match are still to be passed. *)
Fixpoint split_go (pat : bytes) (skip : nat) (cur l : bytes) : list bytes :=
  match l with
  | [] => [rev cur]
  | c :: l' =>
      match skip with
      | S k => split_go pat k cur l'
      | O => match strip_prefix pat l with
             | Some _ => rev cur :: split_go pat (length pat - 1) [] l'
             | None => split_go pat 0 (c :: cur) l'
             end
      end
  end.
Definition split_str (pat s : string) : list string := bstr <$> split_go (sbytes pat) 0 [] (sbytes s).

Fixpoint join (sep : string) (l : list string) : string :=
  match l with
  | [] => ""
  | [s] => s
  | s :: l' => (s ++ sep ++ join sep l')%string
  end.

Definition starts_with (c : byte) (s : string) : bool := bool_decide (head (sbytes s) = Some c).
Definition ends_with (c : byte) (s : string) : bool := bool_decide (last (sbytes s) = Some c).

(** [str::parse::<i64>]. *)
Definition I64_MAX : Z := 2 ^ 63 - 1.
Definition parse_i64 (l : bytes) : option Z :=
  match l with
  | b :: r =>
      if decide (b = Byte.x2d) then
        match r with [] => None | _ => Z.opp <$> parse_digits (2 ^ 63) 0 r end
      else parse_u I64_MAX l
  | [] => None
  end.

(** The bit pattern of the binary64 number nearest to [num / den], ties to even;
    an exponent carry of the significand is the carry of the sum. *)
Definition f64_nearest (num den : Z) : Z :=
  let e := Z.log2 num - Z.log2 den - 52 in
  let scale e := if 0 <=? e then (num, den * 2 ^ e) else (num * 2 ^ (- e), den) in
  let e := if (let '(a, b) := scale e in a / b) <? 2 ^ 52 then e - 1 else e in
  let e := Z.max e (-1074) in
  let '(a, b) := scale e in
  let q := a / b in
  let r := a mod b in
  let up := (b <? 2 * r) || ((b =? 2 * r) && Z.odd q) in
  Z.min ((e + 1074) * 2 ^ 52 + (if up then q + 1 else q)) F64_INF.

Definition f64_of_decimal (digits e10 : Z) : Z :=
  if digits =? 0 then 0
  else if 0 <=? e10 then f64_nearest (digits * 10 ^ e10) 1 else f64_nearest digits (10 ^ (- e10)).

Fixpoint span_digits (l : bytes) : bytes * bytes :=
  match l with
  | b :: r => if is_digit b then let '(d, rest) := span_digits r in (b :: d, rest) else ([], l)
  | [] => ([], [])
  end.

Definition dec_val (l : bytes) : Z := fold_left (fun acc b => acc * 10 + (u8b b - 48)) l 0.

Definition strip_sign (l : bytes) : bool * bytes :=
  match l with
  | b :: r => if decide (b = Byte.x2d) then (true, r) else if decide (b = Byte.x2b) then (false, r) else (false, l)
  | [] => (false, [])
  end.

(** The exponent part: nothing, or [e] with an optional sign and digits. *)
Definition parse_exponent (l : bytes) : option Z :=
  match l with
  | [] => Some 0
  | b :: r =>
      if decide (b = Byte.x65 \/ b = Byte.x45) then
        let '(neg, r) := strip_sign r in
        let '(d, rest) := span_digits r in
        match d, rest with
        | _ :: _, [] => Some (if neg then - dec_val d else dec_val d)
        | _, _ => None
        end
      else None
  end.

(** [str::parse::<f64>] of a text with a dot: [inf], [infinity] and [nan] have
    none, so what is left is a decimal number. *)
Definition parse_f64_dotted (l : bytes) : option Z :=
  let '(neg, r) := strip_sign l in
  let '(int, r) := span_digits r in
  let '(frac, r) := match r with
                    | b :: r' => if decide (b = Byte.x2e) then span_digits r' else ([], r)
                    | [] => ([], [])
                    end in
  match int ++ frac with
  | [] => None
  | ds =>
      e ← parse_exponent r;
      let bits := f64_of_decimal (dec_val ds) (e - Z.of_nat (length frac)) in
      Some (if neg : bool then 2 ^ 63 + bits else bits)
  end.

Example parse_f64_ex :
  parse_f64_dotted (sbytes "3.14") = Some 0x40091EB851EB851F /\ parse_f64_dotted (sbytes "-.5e1") = Some 0xC014000000000000 /\
  parse_f64_dotted (sbytes "4.9e-324") = Some 1 /\ parse_f64_dotted (sbytes "1.8e308") = Some F64_INF /\
  parse_f64_dotted (sbytes "9007199254740993.0") = Some 0x4340000000000000 /\ parse_f64_dotted (sbytes ".") = None.
Proof. vm_compute. done. Qed.

(** ** Predicates *)

Inductive ComparisonOperator := OpEq | OpNe | OpLt | OpLe | OpGt | OpGe.
#[export] Instance ComparisonOperator_eq_dec : EqDecision ComparisonOperator.
Proof. solve_decision. Defined.

Definition op_str (o : ComparisonOperator) : string :=
  match o with OpEq => "==" | OpNe => "!=" | OpLt => "<" | OpLe => "<=" | OpGt => ">" | OpGe => ">=" end.

Inductive PredicateLiteral := LString (s : string) | LInt (n : Z) | LFloat (bits : Z) | LBool (b : bool).

Record ComparisonPredicate := mkComparison {
  cp_field : string;
  cp_operator : ComparisonOperator;
  cp_value : PredicateLiteral
}.

(** The AND-terms of one OR-part; [None] if one is empty. *)
Fixpoint and_terms (parts : list string) : option (list string) :=
  match parts with
  | [] => Some []
  | p :: ps =>
      let and_part := trim p in
      if String.eqb and_part "" then None
      else rest ← and_terms ps; Some (and_part :: rest)
  end.

Fixpoint or_groups (parts : list string) : option (list (list string)) :=
  match parts with
  | [] => Some []
  | p :: ps =>
      let or_part := trim p in
      if String.eqb or_part "" then None
      else group ← and_terms (split_str "&&" or_part); rest ← or_groups ps; Some (group :: rest)
  end.

Definition split_boolean_expression (expression : string) : option (list (list string)) :=
  let expression := trim expression in
  if String.eqb expression "" then None
  else groups ← or_groups (split_str "||" expression);
       match groups with [] => None | _ => Some groups end.

(** [raw[1..raw.len() - 1]]: a single quote character slices from 1 to 0. *)
Definition slice_inner (s : string) : panics string :=
  match sbytes s with
  | _ :: (_ :: _) as r => Done (bstr (removelast r))
  | _ => Panicked
  end.

Definition parse_literal (raw : string) : panics (option PredicateLiteral) :=
  let raw := trim raw in
  if (starts_with Byte.x22 raw && ends_with Byte.x22 raw) || (starts_with Byte.x27 raw && ends_with Byte.x27 raw)
  then s ← slice_inner raw; Done (Some (LString s))
  else if String.eqb raw "true" then Done (Some (LBool true))
  else if String.eqb raw "false" then Done (Some (LBool false))
  else Done (match (if bool_decide (Byte.x2e ∈ sbytes raw) then parse_f64_dotted (sbytes raw) else None) with
             | Some f => Some (LFloat f)
             | None => LInt <$> parse_i64 (sbytes raw)
             end).

Definition comparison_ops : list ComparisonOperator := [OpEq; OpNe; OpGe; OpLe; OpGt; OpLt].

Fixpoint parse_ops (ops : list ComparisonOperator) (expr : string) : panics (option ComparisonPredicate) :=
  match ops with
  | [] => Done None
  | op :: ops' =>
      match find_str (sbytes (op_str op)) (sbytes expr) with
      | Some pos =>
          let field := trim (bstr (firstn pos (sbytes expr))) in
          let value_str := trim (bstr (skipn (pos + length (sbytes (op_str op))) (sbytes expr))) in
          if String.eqb field "" || bool_decide (Byte.x20 ∈ sbytes field) then Done None
          else
            value ← parse_literal value_str;
            Done (v ← value; Some (mkComparison field op v))
      | None => parse_ops ops' expr
      end
  end.

Definition parse_comparison (expr : string) : panics (option ComparisonPredicate) :=
  parse_ops comparison_ops (trim expr).

Example predicate_ex :
  split_boolean_expression "a == 1 && b == 2 || c == 3" = Some [["a == 1"; "b == 2"]; ["c == 3"]] /\
  parse_comparison "name == 'alice'" = Done (Some (mkComparison "name" OpEq (LString "alice"))) /\
  parse_comparison "age >= 42" = Done (Some (mkComparison "age" OpGe (LInt 42))) /\
  parse_comparison "score < 3.14" = Done (Some (mkComparison "score" OpLt (LFloat 0x40091EB851EB851F))) /\
  parse_comparison "bio.contains('x')" = Done None /\ parse_comparison "name == '" = Panicked.
Proof. vm_compute. done. Qed.
