(* ===== verification/Planner.v ===== *)
(** * Query planning

    [pelago-query/src/plan.rs] and [planner.rs]: from a filter expression and a
    schema, one conjunct is chosen for an index scan and the rest of the
    expression becomes the residual filter. *)

From S2P Require Import Prelude Bytes Text Errors Types SchemaTypes Predicate.

(** ** Plans *)

Inductive PredicateValue :=
  | PvString (s : string) | PvInt (n : Z) | PvFloat (bits : Z) | PvBool (b : bool) | PvTimestamp (t : Z).

Record RangeBound := mkRangeBound { rb_value : PredicateValue; inclusive : bool }.

Inductive IndexPredicate :=
  | Equals (v : PredicateValue)
  | Range (lower upper : option RangeBound)
  | InList (vs : list PredicateValue).

Inductive QueryPlan :=
  | PointLookup (node_id : string)
  | IndexScan (property : string) (index_type : IndexType) (predicate : IndexPredicate)
  | FullScan.

Record ExecutionPlan := mkExecutionPlan {
  plan_entity_type : string;
  primary_plan : QueryPlan;
  residual_filter : option string;
  projection : option (gset string);
  plan_limit : option Z;
  plan_cursor : option bytes
}.

Definition new_plan (entity_type : string) (primary : QueryPlan) : ExecutionPlan :=
  mkExecutionPlan entity_type primary None None None None.
Definition with_residual (p : ExecutionPlan) (filter : string) : ExecutionPlan :=
  mkExecutionPlan (plan_entity_type p) (primary_plan p) (Some filter) (projection p) (plan_limit p) (plan_cursor p).
Definition with_projection (p : ExecutionPlan) (fields : gset string) : ExecutionPlan :=
  mkExecutionPlan (plan_entity_type p) (primary_plan p) (residual_filter p) (Some fields) (plan_limit p) (plan_cursor p).
Definition with_limit (p : ExecutionPlan) (limit : Z) : ExecutionPlan :=
  mkExecutionPlan (plan_entity_type p) (primary_plan p) (residual_filter p) (projection p) (Some limit) (plan_cursor p).
Definition with_cursor (p : ExecutionPlan) (cursor : bytes) : ExecutionPlan :=
  mkExecutionPlan (plan_entity_type p) (primary_plan p) (residual_filter p) (projection p) (plan_limit p) (Some cursor).

Definition strategy_name (p : QueryPlan) : string :=
  match p with PointLookup _ => "point_lookup" | IndexScan _ _ _ => "index_scan" | FullScan => "full_scan" end.

(** Selectivities in thousandths: the planner only compares them, and the values
    it compares (0.01, 0.1, 0.5 and the exact double 1.0 of the last) are ordered
    as [f64] as they are here. *)
Definition index_selectivity (i : IndexType) : Z :=
  match i with IdxNone => 1000 | IdxUnique => 10 | IdxEquality => 100 | IdxRange => 500 end.

Definition selectivity (p : QueryPlan) : Z :=
  match p with
  | PointLookup _ => 1
  | IndexScan _ i (Equals _) => index_selectivity i
  | IndexScan _ i (Range _ _) => index_selectivity i * 2
  | IndexScan _ i (InList vs) => index_selectivity i * Z.of_nat (length vs)
  | FullScan => 1000
  end.

(** ** Planning *)

Record ExtractedPredicate := mkExtracted {
  ex_property : string;
  ex_operator : ComparisonOperator;
  ex_value : PredicateValue;
  raw_index : nat
}.

Definition predicate_value (l : PredicateLiteral) : PredicateValue :=
  match l with LString s => PvString s | LInt n => PvInt n | LFloat f => PvFloat f | LBool b => PvBool b end.

Fixpoint extract_loop (raw_index : nat) (parts : list string) : panics (list ExtractedPredicate) :=
  match parts with
  | [] => Done []
  | part :: parts' =>
      parsed ← parse_comparison part;
      rest ← extract_loop (S raw_index) parts';
      Done (match parsed with
            | Some p => mkExtracted (cp_field p) (cp_operator p) (predicate_value (cp_value p)) raw_index :: rest
            | None => rest
            end)
  end.

Definition extract_predicates (cel_expression : string) : panics (list ExtractedPredicate) :=
  match split_boolean_expression cel_expression with
  | Some [group] => extract_loop 0 group
  | _ => Done []
  end.

(** The scan one predicate allows, if its property has a suitable index. *)
Definition scan_for (schema : EntitySchema) (pred : ExtractedPredicate) : option QueryPlan :=
  prop_def ← properties schema !! ex_property pred;
  if decide (index prop_def = IdxNone) then None
  else match ex_operator pred with
       | OpEq => Some (IndexScan (ex_property pred) (index prop_def) (Equals (ex_value pred)))
       | OpNe => None
       | op =>
           if decide (index prop_def = IdxRange) then
             let bound i := Some (mkRangeBound (ex_value pred) i) in
             let '(lower, upper) := match op with
                                    | OpGt => (bound false, None)
                                    | OpGe => (bound true, None)
                                    | OpLt => (None, bound false)
                                    | _ => (None, bound true)
                                    end in
             Some (IndexScan (ex_property pred) IdxRange (Range lower upper))
           else None
       end.

Fixpoint best_loop (schema : EntitySchema) (idx : nat) (best : option (QueryPlan * nat * Z))
    (predicates : list ExtractedPredicate) : option (QueryPlan * nat * Z) :=
  match predicates with
  | [] => best
  | pred :: rest =>
      best_loop schema (S idx)
        (match scan_for schema pred with
         | Some plan =>
             match best with
             | Some (_, _, s) => if selectivity plan <? s then Some (plan, idx, selectivity plan) else best
             | None => Some (plan, idx, selectivity plan)
             end
         | None => best
         end) rest
  end.

Definition select_best_index (schema : EntitySchema) (predicates : list ExtractedPredicate) : QueryPlan * option nat :=
  match best_loop schema 0 None predicates with
  | Some (plan, idx, _) => (plan, Some idx)
  | None => (FullScan, None)
  end.

(** The list without the element at position [i]. *)
Definition drop_nth {A} (i : nat) (l : list A) : list A := firstn i l ++ skipn (S i) l.

Definition build_residual (predicates : list ExtractedPredicate) (used_idx : option nat) (original_expression : string)
    : option string :=
  match predicates with
  | [] => None
  | _ =>
      match used_idx with
      | Some idx =>
          if Nat.eqb (length predicates) 1 then None
          else
            let conjuncts := List.filter (fun s => negb (String.eqb s "")) (map trim (split_str "&&" original_expression)) in
            match predicates !! idx with
            | None => Some original_expression
            | Some pred =>
                if Nat.ltb (raw_index pred) (length conjuncts) then
                  match drop_nth (raw_index pred) conjuncts with
                  | [] => None
                  | parts => Some (join " && " parts)
                  end
                else Some original_expression
            end
      | None => Some original_expression
      end
  end.

Definition plan (entity_type cel_expression : string) (schema : EntitySchema) (proj : option (gset string))
    (limit : option Z) : panics (result ExecutionPlan) :=
  predicates ← extract_predicates cel_expression;
  let '(primary, used_predicate_idx) := select_best_index schema predicates in
  let residual := build_residual predicates used_predicate_idx cel_expression in
  let p := new_plan entity_type primary in
  let p := match residual with Some filter => with_residual p filter | None => p end in
  let p := match proj with Some fields => with_projection p fields | None => p end in
  let p := match limit with Some l => with_limit p l | None => p end in
  Done (Ok p).

(** ** Splitting *)

Lemma split_go_none pat cur l : pat <> [] -> find_str pat l = None -> split_go pat 0 cur l = [rev cur ++ l].
Proof.
  intros Hp. revert cur. induction l as [|c l IH]; intros cur; cbn [find_str split_go].
  { intros _. by rewrite app_nil_r. }
  destruct (strip_prefix pat (c :: l)); [done|]. intros E.
  rewrite IH by (by destruct (find_str pat l)). cbn [rev]. by rewrite <- app_assoc.
Qed.

Lemma split_str_none pat s : pat <> "" -> find_str (sbytes pat) (sbytes s) = None -> split_str pat s = [s].
Proof.
  intros Hp Hf. unfold split_str. rewrite split_go_none; [|by destruct pat|done]. change ([bstr (sbytes s)] = [s]). by rewrite bstr_sbytes.
Qed.

Lemma and_terms_spec parts cs :
  and_terms parts = Some cs -> cs = map trim parts /\ List.filter (fun s => negb (String.eqb s "")) cs = cs.
Proof.
  revert cs. induction parts as [|p ps IH]; intros cs; cbn [and_terms map]; [by intros [= <-]|].
  destruct (String.eqb (trim p) "") eqn:Ep; [done|]. destruct (and_terms ps) as [rest|]; [|done]. cbn.
  intros [= <-]. destruct (IH rest eq_refl) as [-> Hf]. split; [done|]. cbn [List.filter]. by rewrite Ep, Hf.
Qed.

(** An expression without [||] is one group of conjuncts. *)
Definition conjunction (e : string) (cs : list string) : Prop :=
  trim e = e /\ find_str (sbytes "||") (sbytes e) = None /\ and_terms (split_str "&&" e) = Some cs.

Lemma conjunction_split e cs : conjunction e cs -> split_boolean_expression e = Some [cs].
Proof.
  intros (Ht & Ho & Ha). unfold split_boolean_expression. rewrite Ht.
  destruct (String.eqb_spec e "") as [->|Hne]; [done|].
  rewrite (split_str_none "||") by done. cbn [or_groups]. rewrite Ht. destruct (String.eqb_spec e ""); [done|].
  by rewrite Ha.
Qed.

(** ** Extraction *)

Definition extracted (i : nat) (p : ComparisonPredicate) : ExtractedPredicate :=
  mkExtracted (cp_field p) (cp_operator p) (predicate_value (cp_value p)) i.

(** The comparisons among the conjuncts, with their positions. *)
Fixpoint comparisons (i : nat) (ps : list (option ComparisonPredicate)) : list ExtractedPredicate :=
  match ps with
  | [] => []
  | Some p :: ps' => extracted i p :: comparisons (S i) ps'
  | None :: ps' => comparisons (S i) ps'
  end.

Lemma extract_loop_spec i cs ps :
  Forall2 (fun c p => parse_comparison c = Done p) cs ps -> extract_loop i cs = Done (comparisons i ps).
Proof.
  intros Hf. revert i. induction Hf as [|c p cs ps Hp _ IH]; intros i; cbn [extract_loop comparisons]; [done|].
  rewrite Hp. cbn. rewrite IH. by destruct p.
Qed.

Lemma comparisons_all i ps : comparisons i (map Some ps) = imap (fun j p => extracted (i + j) p) ps.
Proof.
  revert i. induction ps as [|p ps IH]; intros i; cbn; [done|]. rewrite IH, Nat.add_0_r. f_equal.
  apply imap_ext. intros j p' _. cbn. by rewrite Nat.add_succ_r.
Qed.

(** ** The choice of an index *)

Lemma best_loop_spec schema preds idx best :
  match best_loop schema idx best preds with
  | Some (plan, k, s) =>
      (best = Some (plan, k, s) \/
       exists i pred, k = (idx + i)%nat /\ preds !! i = Some pred /\ scan_for schema pred = Some plan /\ s = selectivity plan) /\
      (forall plan' k' s', best = Some (plan', k', s') -> s <= s') /\
      (forall i pred plan', preds !! i = Some pred -> scan_for schema pred = Some plan' -> s <= selectivity plan')
  | None => best = None /\ forall i pred, preds !! i = Some pred -> scan_for schema pred = None
  end.
Proof.
  revert idx best. induction preds as [|pred preds IH]; intros idx best; cbn [best_loop].
  { destruct best as [[[plan k] s]|]; [|done]. split; [by left|]. split; [|done]. intros ? ? ? [= <- <- <-]. lia. }
  set (best' := match scan_for schema pred with Some _ => _ | None => _ end).
  specialize (IH (S idx) best'). destruct (best_loop schema (S idx) best' preds) as [[[plan k] s]|].
  - destruct IH as (Hfrom & Hbest & Hmin). split; [|split].
    + destruct Hfrom as [Hb|(i & pr & -> & Hi & Hs)].
      * unfold best' in Hb. destruct (scan_for schema pred) as [pl|] eqn:Ep; [|by left].
        destruct best as [[[bp bk] bs]|]; [case_match; [|by left]|];
          (injection Hb as -> <- <-; right; exists 0%nat, pred; split; [lia|done]).
      * right. exists (S i), pr. split; [lia|done].
    + intros plan' k' s' ->. unfold best' in Hbest. destruct (scan_for schema pred) as [pl|]; [|by eapply Hbest].
      destruct (Z.ltb_spec (selectivity pl) s'); [|by eapply Hbest]. specialize (Hbest _ _ _ eq_refl). lia.
    + intros [|i] pr plan' Hi Hs; [|by eapply Hmin]. injection Hi as ->. unfold best' in Hbest. rewrite Hs in Hbest.
      destruct best as [[[bp bk] bs]|]; [|by eapply Hbest].
      destruct (Z.ltb_spec (selectivity plan') bs); [by eapply Hbest|]. specialize (Hbest _ _ _ eq_refl). lia.
  - destruct IH as [Hb Hno]. unfold best' in Hb. destruct (scan_for schema pred) eqn:Ep.
    { destruct best as [[[? ?] ?]|]; [case_match|]; done. }
    split; [done|]. intros [|i] pr Hi; [by injection Hi as <-|by eapply Hno].
Qed.

Lemma select_best_spec schema preds :
  match select_best_index schema preds with
  | (plan, Some k) => exists pred, preds !! k = Some pred /\ scan_for schema pred = Some plan /\
      forall i pred' plan', preds !! i = Some pred' -> scan_for schema pred' = Some plan' -> selectivity plan <= selectivity plan'
  | (plan, None) => plan = FullScan /\ forall i pred, preds !! i = Some pred -> scan_for schema pred = None
  end.
Proof.
  unfold select_best_index. pose proof (best_loop_spec schema preds 0 None) as Hb.
  destruct (best_loop schema 0 None preds) as [[[plan k] s]|].
  - destruct Hb as ([?|(i & pred & -> & Hi & Hs & ->)] & _ & Hmin); [done|]. exists pred. done.
  - by destruct Hb.
Qed.

(** The plan record, whatever projection and limit were asked for. *)
Lemma plan_fields et e schema proj limit preds :
  extract_predicates e = Done preds ->
  exists p, plan et e schema proj limit = Done (Ok p) /\ plan_entity_type p = et /\
    primary_plan p = (select_best_index schema preds).1 /\
    residual_filter p = build_residual preds (select_best_index schema preds).2 e /\
    projection p = proj /\ plan_limit p = limit /\ plan_cursor p = None.
Proof.
  intros E. unfold plan. rewrite E. cbn. destruct (select_best_index schema preds) as [primary used].
  destruct (build_residual preds used e) eqn:Er, proj, limit; eexists; (split; [reflexivity|]); by rewrite ?Er.
Qed.

(** ** The residual filter *)

Lemma split_go_nonempty pat skip cur l : split_go pat skip cur l <> [].
Proof. revert skip cur. induction l as [|c l IH]; intros [|k] cur; cbn; first [done|apply IH|case_match; [done|apply IH]]. Qed.

Lemma conjunction_nonempty e cs : conjunction e cs -> cs <> [].
Proof.
  intros (_ & _ & Ha) ->. destruct (and_terms_spec _ _ Ha) as [Hcs _]. unfold split_str in Hcs.
  destruct (split_go (sbytes "&&") 0 [] (sbytes e)) eqn:Es; [by apply split_go_nonempty in Es|done].
Qed.

Lemma residual_none preds e : preds <> [] -> build_residual preds None e = Some e.
Proof. by destruct preds. Qed.

(** With every conjunct extracted, the used one is dropped and nothing else. *)
Lemma residual_used preds k pred e cs :
  conjunction e cs -> preds !! k = Some pred -> raw_index pred = k -> length preds = length cs ->
  build_residual preds (Some k) e = match drop_nth k cs with [] => None | rest => Some (join " && " rest) end.
Proof.
  intros (_ & _ & Ha) Hk Hr Hlen. destruct (and_terms_spec _ _ Ha) as [Hcs Hfl]. rewrite Hcs in Hfl.
  pose proof (lookup_lt_Some _ _ _ Hk) as Hlt. unfold build_residual. rewrite Hk, Hr, Hfl, <- Hcs.
  destruct preds as [|p0 preds]; [done|]. destruct (Nat.eqb_spec (length (p0 :: preds)) 1) as [E1|E1].
  - destruct cs as [|c0 [|]]; cbn in *; [done| |lia]. by assert (k = 0%nat) as -> by lia.
  - by rewrite (proj2 (Nat.ltb_lt k (length cs))) by lia.
Qed.

(** C18: what a plan of a conjunction of comparisons covers.  The primary plan is
    the scan of one conjunct, the most selective of those an index allows, and the
    residual filter is the conjunction of all the others; if no index fits, it is
    a full scan with the whole expression as residual filter. *)
Theorem plan_covers_expression (et e : string) (schema : EntitySchema) (proj : option (gset string)) (limit : option Z)
    (cs : list string) (ps : list ComparisonPredicate) :
  conjunction e cs -> Forall2 (fun c p => parse_comparison c = Done (Some p)) cs ps ->
  exists p, plan et e schema proj limit = Done (Ok p) /\ projection p = proj /\ plan_limit p = limit /\
    ((primary_plan p = FullScan /\ residual_filter p = Some e /\
      forall i c, ps !! i = Some c -> scan_for schema (extracted i c) = None) \/
     (exists i c, ps !! i = Some c /\ scan_for schema (extracted i c) = Some (primary_plan p) /\
        residual_filter p = (match drop_nth i cs with [] => None | rest => Some (join " && " rest) end) /\
        forall j c' plan', ps !! j = Some c' -> scan_for schema (extracted j c') = Some plan' ->
          selectivity (primary_plan p) <= selectivity plan')).
Proof.
  intros Hc Hf.
  assert (Hf' : Forall2 (fun c p => parse_comparison c = Done p) cs (map Some ps)).
  { apply Forall2_fmap_r. eapply Forall2_impl; [exact Hf|]. done. }
  set (preds := imap (fun j p => extracted (0 + j) p) ps).
  assert (Hpreds : extract_predicates e = Done preds).
  { unfold extract_predicates. rewrite (conjunction_split e cs Hc), (extract_loop_spec _ _ _ Hf'). by rewrite comparisons_all. }
  destruct (plan_fields et e schema proj limit preds Hpreds) as (p & E & _ & Hprim & Hres & Hproj & Hlim & _).
  exists p. split; [done|]. split; [done|]. split; [done|].
  assert (Hlook : forall i, preds !! i = extracted i <$> ps !! i) by (intros i; unfold preds; by rewrite list_lookup_imap).
  pose proof (select_best_spec schema preds) as Hsel. destruct (select_best_index schema preds) as [primary [k|]];
    cbn [fst snd] in *; rewrite Hprim.
  - right. destruct Hsel as (pred & Hk & Hs & Hmin). pose proof Hk as Hk'. rewrite Hlook in Hk'.
    destruct (ps !! k) as [c|] eqn:Ek; [|done]. injection Hk' as <-. exists k, c. split; [done|]. split; [done|]. split.
    + rewrite Hres. apply (residual_used preds k _ e cs Hc Hk eq_refl). unfold preds. rewrite length_imap.
      symmetry. by eapply Forall2_length.
    + intros j c' plan' Hj Hs'. eapply Hmin; [|exact Hs']. by rewrite Hlook, Hj.
  - left. destruct Hsel as [-> Hno]. split; [done|]. split.
    + rewrite Hres. apply residual_none. intros Hnil. apply (conjunction_nonempty e cs Hc).
      apply length_zero_iff_nil. rewrite (Forall2_length _ _ _ Hf), <- (length_imap (fun j p => extracted (0 + j) p) ps).
      fold preds. by rewrite Hnil.
    + intros i c Hi. apply Hno with i. by rewrite Hlook, Hi.
Qed.

(** Conjuncts that are not comparisons are lost.  If exactly one conjunct
    is a comparison and an index covers it, or if none is, the plan has no residual
    filter, whatever the other conjuncts say. *)
Theorem plan_drops_conjuncts (et e : string) (schema : EntitySchema) (proj : option (gset string)) (limit : option Z)
    (cs : list string) (ps : list (option ComparisonPredicate)) :
  conjunction e cs -> Forall2 (fun c p => parse_comparison c = Done p) cs ps ->
  (comparisons 0 ps = [] \/ exists pred, comparisons 0 ps = [pred] /\ is_Some (scan_for schema pred)) ->
  exists p, plan et e schema proj limit = Done (Ok p) /\ residual_filter p = None.
Proof.
  intros Hc Hf Hone.
  destruct (plan_fields et e schema proj limit (comparisons 0 ps)) as (p & E & _ & _ & Hres & _).
  { unfold extract_predicates. by rewrite (conjunction_split e cs Hc), (extract_loop_spec _ _ _ Hf). }
  exists p. split; [done|]. rewrite Hres. destruct Hone as [->|(pred & -> & [pl Hpl])]; [done|].
  unfold select_best_index. cbn [best_loop]. by rewrite Hpl.
Qed.

(** ** On a concrete schema *)

Definition people_schema : EntitySchema :=
  Schemas.with_property (Schemas.with_property (Schemas.with_property (Schemas.new "Person")
    "age" (PropDefs.with_index (PropDefs.new PInt) IdxRange))
    "status" (PropDefs.with_index (PropDefs.new PString) IdxEquality))
    "bio" (PropDefs.new PString).

Lemma plan_covers_expression_witness :
  exists p, plan "Person" "age >= 30 && status == 'active' && bio == 'x'" people_schema None (Some 5) = Done (Ok p) /\
    primary_plan p = IndexScan "status" IdxEquality (Equals (PvString "active")) /\
    residual_filter p = Some "age >= 30 && bio == 'x'".
Proof.
  destruct (plan_covers_expression "Person" "age >= 30 && status == 'active' && bio == 'x'" people_schema None (Some 5)
    ["age >= 30"; "status == 'active'"; "bio == 'x'"]
    [mkComparison "age" OpGe (LInt 30); mkComparison "status" OpEq (LString "active"); mkComparison "bio" OpEq (LString "x")])
    as (p & E & _).
  - split; [vm_compute; reflexivity|split; vm_compute; reflexivity].
  - repeat constructor; vm_compute; reflexivity.
  - exists p. split; [exact E|]. vm_compute in E. injection E as <-. split; reflexivity.
Defined.

Lemma plan_drops_conjuncts_witness :
  exists p, plan "Person" "age >= 30 && bio.contains('writer')" people_schema None None = Done (Ok p) /\ residual_filter p = None.
Proof.
  apply (plan_drops_conjuncts "Person" "age >= 30 && bio.contains('writer')" people_schema None None
    ["age >= 30"; "bio.contains('writer')"] [Some (mkComparison "age" OpGe (LInt 30)); None]).
  - split; [vm_compute; reflexivity|split; vm_compute; reflexivity].
  - repeat constructor; vm_compute; reflexivity.
  - right. eexists. split; [reflexivity|]. vm_compute. eauto.
Defined.
