(* ===== verification/Cel.v ===== *)
(** * Filter expressions

    [pelago-query/src/cel.rs]: compilation and evaluation of filters on the
    properties of a node.  The interpreter of the expressions is a library of its
    own and a parameter here ([CelEngine]). *)

From S2P Require Import Prelude Bytes Text Errors Types SchemaTypes Predicate.

Inductive CelValue :=
  | CvString (s : string) | CvInt (n : Z) | CvUInt (n : Z) | CvFloat (bits : Z) | CvBool (b : bool)
  | CvBytes (b : bytes) | CvList (l : list CelValue) | CvMap (m : list (CelValue * CelValue)) | CvNull | CvOther.

(** [cel_interpreter]: programs, their compilation with the message of a syntax
    error, and their execution in a context of variables with the message of an
    evaluation error. *)
Class CelEngine := {
  CelProgram : Type;
  cel_compile : string -> CelProgram + string;
  cel_execute : CelProgram -> gmap string CelValue -> CelValue + string
}.

Definition value_to_cel (v : Value) : CelValue :=
  match v with
  | VString s => CvString s
  | VInt n => CvInt n
  | VFloat f => CvFloat f
  | VBool b => CvBool b
  | VTimestamp t => CvInt t
  | VBytes b => CvBytes b
  | VNull => CvNull
  end.

Definition cel_type_name (v : CelValue) : string :=
  match v with
  | CvBool _ => "bool" | CvInt _ => "int" | CvUInt _ => "uint" | CvFloat _ => "float" | CvString _ => "string"
  | CvBytes _ => "bytes" | CvList _ => "list" | CvMap _ => "map" | CvNull => "null" | CvOther => "unknown"
  end.

Section Cel.
Context `{CelEngine}.

Record CelExpression := mkCelExpression { program : CelProgram; expression : string; cel_schema : EntitySchema }.

Definition compile (schema : EntitySchema) (e : string) : result CelExpression :=
  match cel_compile e with
  | inl p => Ok (mkCelExpression p e schema)
  | inr message => Err (CelSyntax e message)
  end.

Definition validate (e : string) : result string :=
  match cel_compile e with
  | inl _ => Ok e
  | inr message => Err (CelSyntax e message)
  end.

(** The properties of the node, and null for the properties of the schema it does
    not have. *)
Definition cel_context (schema : EntitySchema) (props : Props) : gmap string CelValue :=
  (value_to_cel <$> props) ∪ ((fun _ => CvNull) <$> properties schema).

Definition evaluate (x : CelExpression) (props : Props) : result bool :=
  match cel_execute (program x) (cel_context (cel_schema x) props) with
  | inl (CvBool b) => Ok b
  | inl CvNull => Ok false
  | inl other => Err (CelType "expression" ("Expected bool, got " ++ cel_type_name other))
  | inr _ => Ok false
  end.

Definition matches_null_field (x : CelExpression) (f : string) : bool :=
  String.eqb (trim (expression x)) (f ++ " == null").
End Cel.

(** ** Filters without compilation *)

(** [f64::partial_cmp] on bit patterns: the numbers are ordered as the signed
    magnitudes, and a NaN is not comparable. *)
Definition f64_order (bits : Z) : Z := if bits <? 2 ^ 63 then bits else - f64_abs bits.
Definition f64_partial_cmp (a b : Z) : option comparison :=
  if f64_is_nan a || f64_is_nan b then None else Some (f64_order a ?= f64_order b).

(** [as f64] on an [i64]. *)
Definition i64_as_f64 (n : Z) : Z :=
  if n =? 0 then 0 else if n <? 0 then 2 ^ 63 + f64_nearest (- n) 1 else f64_nearest n 1.

Definition bool_cmp (a b : bool) : comparison := Z.b2z a ?= Z.b2z b.

Definition compare_values (a b : Value) : option comparison :=
  match a, b with
  | VInt a, VInt b => Some (a ?= b)
  | VFloat a, VFloat b => f64_partial_cmp a b
  | VString a, VString b => Some (lex (sbytes a) (sbytes b))
  | VTimestamp a, VTimestamp b => Some (a ?= b)
  | VBool a, VBool b => Some (bool_cmp a b)
  | VInt a, VFloat b => f64_partial_cmp (i64_as_f64 a) b
  | VFloat a, VInt b => f64_partial_cmp a (i64_as_f64 b)
  | _, _ => None
  end.

Definition quick_filter (props : Props) (property operator : string) (target : Value) : bool :=
  match props !! property with
  | None | Some VNull => String.eqb operator "==" && is_null target
  | Some actual =>
      if String.eqb operator "==" then value_eqb actual target
      else if String.eqb operator "!=" then negb (value_eqb actual target)
      else
        match compare_values actual target with
        | Some Gt => String.eqb operator ">" || String.eqb operator ">="
        | Some Eq => String.eqb operator ">=" || String.eqb operator "<="
        | Some Lt => String.eqb operator "<" || String.eqb operator "<="
        | None => false
        end
  end.

Example quick_filter_ex :
  quick_filter {["age" := VInt 30]} "age" ">=" (VInt 25) = true /\ quick_filter {["age" := VInt 30]} "age" ">" (VInt 30) = false /\
  quick_filter {["age" := VInt 30]} "age" "<" (VFloat 0x403E800000000000) = true /\ quick_filter ∅ "x" "==" VNull = true.
Proof. vm_compute. done. Qed.
