(* ===== verification/Executor.v ===== *)
(** * Query execution

    [pelago-query/src/executor.rs]: running a plan against the key space, and the
    fast path that answers equality expressions from the term index.  Sizes are
    [usize] values in Z and become natural numbers where a list is cut.  The
    elapsed time of a result and the texts of the log are left out; a streaming
    query sends the nodes of [execute] one by one. *)

From S2P Require Import Prelude Bytes Text Errors Types Encoding Subspace SchemaTypes Fdb MemFdb Cdc Ids Index TermIndex Namespace Jobs SchemaRegistry Node Predicate Planner Cel.

Definition NODE_BATCH_FETCH_SIZE : nat := 256.

Record ExecutorConfig := mkExecutorConfig { buffer_size : Z; default_limit : Z; max_limit : Z }.
Definition default_config : ExecutorConfig := mkExecutorConfig 100 1000 10000.

Record ScanCandidate := mkScanCandidate { cand_node : StoredNode; cursor_key : option bytes }.

Record QueryResults := mkQueryResults {
  nodes : list StoredNode;
  cursor : option bytes;
  has_more : bool;
  scanned_keys : Z;
  result_bytes : Z
}.

Definition usize_add (a b : Z) : Z := Z.min (a + b) U64_MAX.
Definition usize_mul (a b : Z) : Z := Z.min (a * b) U64_MAX.
Definition len {A} (l : list A) : Z := Z.of_nat (length l).

(** [slice::chunks]. *)
Fixpoint chunks_go {A} (fuel n : nat) (l : list A) : list (list A) :=
  match l, fuel with
  | [], _ | _, O => []
  | _, Datatypes.S fuel => firstn n l :: chunks_go fuel n (skipn n l)
  end.
Definition chunks {A} (n : nat) (l : list A) : list (list A) := chunks_go (length l) n l.

(** [slice::sort] on byte strings, which is lexicographic. *)
Definition sort_bytes (l : list bytes) : list bytes := merge_sort ble l.

(** [slice::sort_by_key], which is stable. *)
Fixpoint insert_by_key {A} (key : A -> Z) (x : A) (l : list A) : list A :=
  match l with
  | [] => [x]
  | y :: l' => if key x <=? key y then x :: l else y :: insert_by_key key x l'
  end.
Definition sort_by_key {A} (key : A -> Z) (l : list A) : list A := foldr (insert_by_key key) [] l.

(** Iteration over a [HashSet], in the unspecified order of the hash map under it. *)
Definition hs_iter `{HashIter} (s : gset bytes) : list bytes := (hm_iter (mapset.mapset_car s)).*1.

(** ** Cursors and keys *)

Definition project_node (node : StoredNode) (fields : gset string) : StoredNode :=
  mkStoredNode (sn_id node) (sn_entity_type node) (filter (fun kv => kv.1 ∈ fields) (sn_properties node))
    (sn_locality node) (sn_created_at node) (sn_updated_at node).

Definition build_cursor (node_id : string) : bytes :=
  match NodeIds.from_str node_id with
  | inl id => NodeIds.to_bytes id
  | inr _ => sbytes node_id
  end.

Definition parse_node_cursor (cursor : bytes) : result bytes :=
  if Nat.eqb (length cursor) 9 then Ok cursor
  else
    as_str ← ok_or (from_utf8 cursor) (InvalidValue "cursor" "cursor must be a 9-byte node id or node id string");
    match NodeIds.from_str as_str with
    | inl parsed => Ok (NodeIds.to_bytes parsed)
    | inr _ => Err (InvalidValue "cursor" "cursor is not a valid node id")
    end.

(** [Option::map(parse_node_cursor).transpose()]. *)
Definition parse_optional_cursor (cursor : option bytes) : result (option bytes) :=
  match cursor with
  | Some c => id ← parse_node_cursor c; Ok (Some id)
  | None => Ok None
  end.

Definition node_id_is_after_cursor (node_id : string) (cursor : bytes) : bool :=
  match NodeIds.from_str node_id with
  | inl id => bltb cursor (NodeIds.to_bytes id)
  | inr _ => true
  end.

Definition make_exclusive_start (key : bytes) : bytes := key ++ [Byte.x00].

Definition predicate_to_value (v : PredicateValue) : Value :=
  match v with
  | PvString s => VString s
  | PvInt n => VInt n
  | PvFloat f => VFloat f
  | PvBool b => VBool b
  | PvTimestamp t => VTimestamp t
  end.
Definition encode_predicate_value (v : PredicateValue) : result bytes :=
  encode_value_for_index (predicate_to_value v).

Definition extract_node_id_from_index_key (key : bytes) : result bytes :=
  if Nat.ltb (length key) 9 then Err (Internal "Index key too short")
  else Ok (skipn (length key - 9) key).

Definition extract_node_id_from_data_key (key : bytes) : result bytes :=
  if Nat.ltb (length key) 9 then Err (Internal "Data key too short")
  else Ok (skipn (length key - 9) key).

(** ** Term expressions *)

Record TermPredicate := mkTermPredicate { tp_field : string; tp_value : Value }.

Definition literal_value (l : PredicateLiteral) : Value :=
  match l with LString s => VString s | LInt n => VInt n | LFloat f => VFloat f | LBool b => VBool b end.

Fixpoint parse_term_group (raw_group : list string) : panics (option (list TermPredicate)) :=
  match raw_group with
  | [] => Done (Some [])
  | raw_term :: rest =>
      parsed ← parse_comparison raw_term;
      match parsed with
      | None => Done None
      | Some p =>
          if decide (cp_operator p = OpEq) then
            others ← parse_term_group rest;
            Done (group ← others; Some (mkTermPredicate (cp_field p) (literal_value (cp_value p)) :: group))
          else Done None
      end
  end.

Fixpoint parse_term_groups (raw_groups : list (list string)) : panics (option (list (list TermPredicate))) :=
  match raw_groups with
  | [] => Done (Some [])
  | raw_group :: rest =>
      group ← parse_term_group raw_group;
      match group with
      | None => Done None
      | Some g => others ← parse_term_groups rest; Done (groups ← others; Some (g :: groups))
      end
  end.

Definition parse_term_expression (expression : string) : panics (option (list (list TermPredicate))) :=
  match split_boolean_expression expression with
  | None => Done None
  | Some raw_groups => parse_term_groups raw_groups
  end.

(** The string value of each field; [None] if two terms disagree on one. *)
Fixpoint group_strings (values : gmap string string) (group : list TermPredicate) : option (gmap string string) :=
  match group with
  | [] => Some values
  | t :: rest =>
      match tp_value t with
      | VString s =>
          match values !! tp_field t with
          | Some existing => if String.eqb existing s then group_strings values rest else None
          | None => group_strings (<[tp_field t := s]> values) rest
          end
      | _ => group_strings values rest
      end
  end.

Definition rewrite_template_term_group (group : list TermPredicate) : list TermPredicate :=
  match group_strings ∅ group with
  | None => group
  | Some values =>
      match values !! "show", values !! "scheme", values !! "shot", values !! "sequence" with
      | Some show, Some scheme, Some shot, Some sequence =>
          let shots := (show ++ "|" ++ scheme ++ "|" ++ shot ++ "|" ++ sequence)%string in
          let '(synthetic, consumed) :=
            match values !! "task", values !! "label" with
            | Some task, Some label =>
                (mkTermPredicate TEMPLATE_FIELD_SHOW_SCHEME_SHOT_SEQUENCE_TASK_LABEL
                   (VString (shots ++ "|" ++ task ++ "|" ++ label)),
                 ["show"; "scheme"; "shot"; "sequence"; "task"; "label"])
            | _, _ =>
                (mkTermPredicate TEMPLATE_FIELD_SHOW_SCHEME_SHOT_SEQUENCE (VString shots),
                 ["show"; "scheme"; "shot"; "sequence"])
            end in
          synthetic :: List.filter (fun t => negb (bool_decide (tp_field t ∈ consumed))) group
      | _, _, _, _ => group
      end
  end.

Definition rewrite_template_term_groups (groups : list (list TermPredicate)) : list (list TermPredicate) :=
  map rewrite_template_term_group groups.

Definition estimate_posting_fetch_limit (df target_limit hard_cap : Z) : Z :=
  let baseline := Z.max (usize_mul target_limit 16) 1024 in
  let estimated := if U64_MAX / 8 <=? df then baseline else Z.max df baseline in
  Z.max (Z.min estimated hard_cap) 1.

(** ** Plans *)

Section Execute.
Context {S : Type} `{Fdb S} `{Cbor NodeData} `{Cbor StoredNode} `{Cbor EntitySchema} `{HashIter} `{CelEngine}.
Context (config : ExecutorConfig).

Definition estimate_nodes_size_bytes (l : list StoredNode) : Z :=
  foldr (fun n acc => match encode_cbor n with Ok b => len b + acc | Err _ => acc end) 0 l.

Definition fetch_nodes_in_order (database namespace entity_type : string) (node_ids : list string)
    (read_version : option Z) : M S (list StoredNode) :=
  fold_m (chunks NODE_BATCH_FETCH_SIZE node_ids) (fun out ids =>
    rows ← get_nodes_batch_at_read_version database namespace entity_type ids read_version;
    mret (out ++ omap id rows)) [].

Definition fetch_scan_candidates_in_order (database namespace entity_type : string)
    (keyed_node_ids : list (bytes * string)) (read_version : option Z) : M S (list ScanCandidate) :=
  fold_m (chunks NODE_BATCH_FETCH_SIZE keyed_node_ids) (fun out chunk =>
    rows ← get_nodes_batch_at_read_version database namespace entity_type chunk.*2 read_version;
    mret (out ++ omap (fun kr => match kr.2 with
                                 | Some node => Some (mkScanCandidate node (Some (kr.1 : bytes * string).1))
                                 | None => None
                                 end) (zip chunk rows))) [].

Definition execute_point_lookup (database namespace entity_type node_id : string) (read_version : option Z)
    : M S (list ScanCandidate) :=
  found ← get_node_at_read_version database namespace entity_type node_id read_version;
  mret (match found with Some node => [mkScanCandidate node None] | None => [] end).

(** The marker byte of an index; a property without one cannot be scanned. *)
Definition scan_marker (index_type : IndexType) : result byte :=
  match index_type with
  | IdxUnique => Ok index_markers.UNIQUE
  | IdxEquality => Ok index_markers.EQUALITY
  | IdxRange => Ok index_markers.RANGE
  | IdxNone => Err (Internal "Cannot scan non-indexed property")
  end.

Definition index_head (database namespace entity_type property : string) (marker : byte) : TupleBuilder :=
  Tuple.add_marker (Tuple.add_string (Tuple.add_string
    (Sub.pack (Sub.index (Sub.namespace database namespace))) entity_type) property) marker.

(** The node of an index row. *)
Definition row_node_id (index_type : IndexType) (row : bytes * bytes) : result bytes :=
  match index_type with
  | IdxUnique => Ok row.2
  | _ => extract_node_id_from_index_key row.1
  end.

(** The rows of a range, each with the node it points to. *)
Definition scan_rows (index_type : IndexType) (range_start range_end : bytes) (limit : Z) (read_version : option Z)
    : M S (list (bytes * bytes)) :=
  rows ← get_range_at_read_version range_start range_end (Z.to_nat (Z.max limit 1)) read_version;
  fold_m rows (fun out row => node_id ← lift (row_node_id index_type row); mret (out ++ [(row.1, node_id)])) [].

(** The rows of one value of an IN predicate, merged by node id; the loop over the
    rows ends when the map is full. *)
Fixpoint merge_rows (index_type : IndexType) (cursor_id : option bytes) (hard_cap : Z) (rows : list (bytes * bytes))
    (merged : gset bytes) : result (gset bytes) :=
  match rows with
  | [] => Ok merged
  | row :: rest =>
      node_id ← row_node_id index_type row;
      if negb (Nat.eqb (length node_id) 9) then merge_rows index_type cursor_id hard_cap rest merged
      else if (match cursor_id with Some c => negb (bltb c node_id) | None => false end)
      then merge_rows index_type cursor_id hard_cap rest merged
      else
        let merged := {[node_id]} ∪ merged in
        if hard_cap <=? Z.of_nat (size merged) then Ok merged
        else merge_rows index_type cursor_id hard_cap rest merged
  end.

Fixpoint merge_values (database namespace entity_type property : string) (marker : byte) (index_type : IndexType)
    (cursor_id : option bytes) (hard_cap per_value_limit : Z) (read_version : option Z)
    (values : list PredicateValue) (merged : gset bytes) : M S (gset bytes) :=
  match values with
  | [] => mret merged
  | value :: rest =>
      enc ← lift (encode_predicate_value value);
      let key_prefix := Tuple.build (Tuple.add_raw_bytes (index_head database namespace entity_type property marker) enc) in
      rows ← get_range_at_read_version key_prefix (key_prefix ++ [Byte.xff]) (Z.to_nat (Z.max per_value_limit 1)) read_version;
      merged ← lift (merge_rows index_type cursor_id hard_cap rows merged);
      if hard_cap <=? Z.of_nat (size merged) then mret merged
      else merge_values database namespace entity_type property marker index_type cursor_id hard_cap per_value_limit
             read_version rest merged
  end.

(** One end of a range scan: the key of the bound, with 0xFF appended if [ff]. *)
Definition bound_key (head : TupleBuilder) (bound : RangeBound) (ff : bool) : result bytes :=
  enc ← encode_predicate_value (rb_value bound);
  let key := Tuple.build (Tuple.add_raw_bytes head enc) in
  Ok (if ff then key ++ [Byte.xff] else key).

Definition execute_index_scan (database namespace entity_type property : string) (index_type : IndexType)
    (predicate : IndexPredicate) (cursor : option bytes) (limit : Z) (read_version : option Z)
    : M S (list ScanCandidate) :=
  marker ← lift (scan_marker index_type);
  let head := index_head database namespace entity_type property marker in
  let from start := match cursor with Some c => make_exclusive_start c | None => start end in
  keyed_node_ids ←
    match predicate with
    | Equals value =>
        enc ← lift (encode_predicate_value value);
        let key_prefix := Tuple.build (Tuple.add_raw_bytes head enc) in
        scan_rows index_type (from key_prefix) (key_prefix ++ [Byte.xff]) limit read_version
    | Range lower upper =>
        range_start ← lift (match lower with
                            | Some bound => bound_key head bound (negb (inclusive bound))
                            | None => Ok (Tuple.build head)
                            end);
        range_end ← lift (match upper with
                          | Some bound => bound_key head bound (inclusive bound)
                          | None => Ok (Tuple.build head ++ [Byte.xff])
                          end);
        scan_rows index_type (from range_start) range_end limit read_version
    | InList [] => mret []
    | InList values =>
        cursor_id ← lift (parse_optional_cursor cursor);
        let hard_cap := Z.max (usize_mul (Z.max limit 1) 8) 512 in
        let per_value_limit := Z.max (hard_cap / Z.max (len values) 1) (Z.max limit 1) in
        merged ← merge_values database namespace entity_type property marker index_type cursor_id hard_cap
                   per_value_limit read_version values ∅;
        mret (map (fun node_id => (node_id, node_id)) (sort_bytes (elements merged)))
    end;
  let keyed := omap (fun kn => if Nat.eqb (length kn.2) 9
                               then Some (kn.1, NodeIds.to_string (NodeIds.from_bytes kn.2)) else None) keyed_node_ids in
  fetch_scan_candidates_in_order database namespace entity_type keyed read_version.

Definition execute_full_scan (database namespace entity_type : string) (cursor : option bytes) (limit : Z)
    (read_version : option Z) : M S (list ScanCandidate) :=
  let pre := Tuple.build (Tuple.add_string (Sub.pack (Sub.data (Sub.namespace database namespace))) entity_type) in
  let range_start := match cursor with Some c => make_exclusive_start c | None => pre end in
  results ← get_range_at_read_version range_start (pre ++ [Byte.xff]) (Z.to_nat (Z.max limit 1)) read_version;
  let keyed := omap (fun kv => match extract_node_id_from_data_key kv.1 with
                               | Ok b => if Nat.eqb (length b) 9
                                         then Some (kv.1, NodeIds.to_string (NodeIds.from_bytes b)) else None
                               | Err _ => None
                               end) results in
  fetch_scan_candidates_in_order database namespace entity_type keyed read_version.

(** The loop over the candidates: the results so far and the cursor of the last. *)
Fixpoint filter_loop (residual : option CelExpression) (point_cursor : option bytes) (proj : option (gset string))
    (fetch_limit : Z) (results : list StoredNode) (last_cursor : option bytes) (candidates : list ScanCandidate)
    : result (list StoredNode * option bytes) :=
  match candidates with
  | [] => Ok (results, last_cursor)
  | c :: rest =>
      keep ← match residual with Some f => evaluate f (sn_properties (cand_node c)) | None => Ok true end;
      if negb keep then filter_loop residual point_cursor proj fetch_limit results last_cursor rest
      else if (match point_cursor with Some cur => negb (node_id_is_after_cursor (sn_id (cand_node c)) cur) | None => false end)
      then filter_loop residual point_cursor proj fetch_limit results last_cursor rest
      else
        let node := match proj with Some fields => project_node (cand_node c) fields | None => cand_node c end in
        let last_cursor := Some (match cursor_key c with Some k => k | None => build_cursor (sn_id node) end) in
        let results := results ++ [node] in
        if fetch_limit <=? len results then Ok (results, last_cursor)
        else filter_loop residual point_cursor proj fetch_limit results last_cursor rest
  end.

(** The page of a query: [limit] results, and the cursor if there are more. *)
Definition page_of (limit : Z) (results : list StoredNode) (last_cursor : option bytes) (candidate_count : Z)
    : QueryResults :=
  let more := limit <? len results in
  let page := if more then firstn (Z.to_nat limit) results else results in
  let next := if more && negb (bool_decide (page = [])) then last_cursor else None in
  mkQueryResults page next more candidate_count (estimate_nodes_size_bytes page).

Definition execute_with_options (database namespace : string) (plan : ExecutionPlan) (read_version : option Z)
    : M S QueryResults :=
  found ← get_schema database namespace (plan_entity_type plan);
  schema ← lift (ok_or found (UnregisteredType (plan_entity_type plan)));
  residual ← lift (match residual_filter plan with
                   | Some filter_expr => x ← compile schema filter_expr; Ok (Some x)
                   | None => Ok None
                   end);
  let limit := Z.min (default (default_limit config) (plan_limit plan)) (max_limit config) in
  let fetch_limit := usize_add limit 1 in
  let scan_limit := Z.min (usize_mul fetch_limit 4) (max_limit config) in
  point_cursor ← lift (match primary_plan plan with
                       | PointLookup _ => parse_optional_cursor (plan_cursor plan)
                       | _ => Ok None
                       end);
  candidates ←
    match primary_plan plan with
    | PointLookup node_id => execute_point_lookup database namespace (plan_entity_type plan) node_id read_version
    | IndexScan property index_type predicate =>
        execute_index_scan database namespace (plan_entity_type plan) property index_type predicate (plan_cursor plan)
          (Z.max scan_limit 1) read_version
    | FullScan =>
        execute_full_scan database namespace (plan_entity_type plan) (plan_cursor plan) (Z.max scan_limit 1) read_version
    end;
  rl ← lift (filter_loop residual point_cursor (projection plan) fetch_limit [] None candidates);
  mret (page_of limit rl.1 rl.2 (len candidates)).

Definition execute (database namespace : string) (plan : ExecutionPlan) : M S QueryResults :=
  execute_with_options database namespace plan None.

(** ** The term index *)

(** The terms with their document frequencies. *)
Definition term_frequencies (database namespace entity_type : string) (group : list TermPredicate) (read_version : option Z)
    : M S (list (Z * TermPredicate)) :=
  fold_m group (fun out t =>
    df ← get_document_frequency_at_read_version database namespace entity_type (tp_field t) (tp_value t) read_version;
    mret (out ++ [(default (U64_MAX / 4) df, t)])) [].

(** Intersect the postings of the terms, the rarest first, until nothing is left. *)
Fixpoint intersect_terms (database namespace entity_type : string) (after_node_id : option bytes)
    (target_limit hard_cap : Z) (read_version : option Z) (terms : list (Z * TermPredicate)) (running : option (gset bytes))
    : M S (option (gset bytes)) :=
  match terms with
  | [] => mret running
  | (df, t) :: rest =>
      posting_ids ← list_posting_node_ids_after_at_read_version database namespace entity_type (tp_field t) (tp_value t)
                      after_node_id (Z.to_nat (estimate_posting_fetch_limit df target_limit hard_cap)) read_version;
      let posting_set : gset bytes := list_to_set posting_ids in
      let next := match running with None => posting_set | Some prev => prev ∩ posting_set end in
      if decide (next = ∅) then mret (Some next)
      else intersect_terms database namespace entity_type after_node_id target_limit hard_cap read_version rest (Some next)
  end.

Definition execute_term_group (database namespace entity_type : string) (group : list TermPredicate)
    (after_node_id : option bytes) (target_limit hard_cap : Z) (read_version : option Z) : M S (list bytes) :=
  match group with
  | [] => mret []
  | _ =>
      terms ← term_frequencies database namespace entity_type group read_version;
      running ← intersect_terms database namespace entity_type after_node_id target_limit hard_cap read_version
                  (sort_by_key fst terms) None;
      mret (hs_iter (default ∅ running))
  end.

(** [for id in group_ids { if union.len() >= hard_cap { break } union.insert(id) }]. *)
Fixpoint insert_capped (hard_cap : Z) (union : gset bytes) (ids : list bytes) : gset bytes :=
  match ids with
  | [] => union
  | id :: rest => if hard_cap <=? Z.of_nat (size union) then union else insert_capped hard_cap ({[id]} ∪ union) rest
  end.

Fixpoint union_groups (database namespace entity_type : string) (after_node_id : option bytes)
    (target_limit hard_cap : Z) (read_version : option Z) (groups : list (list TermPredicate)) (union : gset bytes)
    : M S (gset bytes) :=
  match groups with
  | [] => mret union
  | group :: rest =>
      group_ids ← execute_term_group database namespace entity_type group after_node_id target_limit hard_cap read_version;
      let union := insert_capped hard_cap union group_ids in
      if hard_cap <=? Z.of_nat (size union) then mret union
      else union_groups database namespace entity_type after_node_id target_limit hard_cap read_version rest union
  end.

Definition execute_term_groups (database namespace entity_type : string) (groups : list (list TermPredicate))
    (after_node_id : option bytes) (target_limit : Z) (read_version : option Z) : M S (list bytes) :=
  let hard_cap := Z.max (usize_mul (max_limit config) 20) 5000 in
  union ← union_groups database namespace entity_type after_node_id target_limit hard_cap read_version groups ∅;
  mret (sort_bytes (hs_iter union)).

(** The ids to fetch: nine bytes, after the cursor, at most [fetch_limit]. *)
Fixpoint ordered_ids (cursor_node_id : option bytes) (fetch_limit : Z) (ids : list bytes) (out : list string) : list string :=
  match ids with
  | [] => out
  | node_id_bytes :: rest =>
      if negb (Nat.eqb (length node_id_bytes) 9) then ordered_ids cursor_node_id fetch_limit rest out
      else if (match cursor_node_id with Some c => negb (bltb c node_id_bytes) | None => false end)
      then ordered_ids cursor_node_id fetch_limit rest out
      else
        let out := out ++ [NodeIds.to_string (NodeIds.from_bytes node_id_bytes)] in
        if fetch_limit <=? len out then out else ordered_ids cursor_node_id fetch_limit rest out
  end.

Definition execute_term_expression_with_options (database namespace entity_type expression : string)
    (proj : option (gset string)) (limit : option Z) (cursor : option bytes) (read_version : option Z)
    : panics (M S (option QueryResults)) :=
  parsed ← parse_term_expression expression;
  Done (match parsed with
        | None => mret None
        | Some groups =>
            let groups := rewrite_template_term_groups groups in
            let effective_limit := Z.min (default (default_limit config) limit) (max_limit config) in
            let fetch_limit := usize_add effective_limit 1 in
            cursor_node_id ← lift (parse_optional_cursor cursor);
            node_ids ← execute_term_groups database namespace entity_type groups cursor_node_id fetch_limit read_version;
            let ordered := ordered_ids cursor_node_id fetch_limit node_ids [] in
            found ← fetch_nodes_in_order database namespace entity_type ordered read_version;
            let found := match proj with Some fields => map (fun n => project_node n fields) found | None => found end in
            let more := effective_limit <? len found in
            let page := if more then firstn (Z.to_nat effective_limit) found else found in
            let next := if more then (n ← last page; Some (build_cursor (sn_id n))) else None in
            mret (Some (mkQueryResults page next more (len node_ids) (estimate_nodes_size_bytes page)))
        end).

Definition execute_term_expression (database namespace entity_type expression : string)
    (proj : option (gset string)) (limit : option Z) (cursor : option bytes) : panics (M S (option QueryResults)) :=
  execute_term_expression_with_options database namespace entity_type expression proj limit cursor None.
End Execute.
