(* ===== verification/ExecutorSpec.v ===== *)
(** * Query execution: what a query returns

    The scans of [Executor] on a key space that represents a map of nodes
    ([NodeSpec.represents]): which nodes a full scan, an index scan and a term
    expression return, in which order, and how pages follow one another. *)

From S2P Require Import Prelude Bytes Text Errors Types Encoding Subspace SchemaTypes Fdb MemFdb Cdc Ids Index TermIndex Namespace Jobs SchemaRegistry Node NodeAtomic NodeSpec Predicate Planner Cel Executor.

(** ** Chunks *)

Lemma concat_chunks {A} n (l : list A) : (0 < n)%nat -> concat (chunks n l) = l.
Proof.
  intros Hn. unfold chunks. assert (Hl : (length l <= length l)%nat) by lia.
  revert Hl. generalize (length l) at 2 3 as fuel. intros fuel. revert l.
  induction fuel as [|fuel IH]; intros l Hl.
  { by destruct l; [|simpl in Hl; lia]. }
  destruct l as [|x l]; [done|]. cbn [chunks_go concat].
  rewrite IH; [apply firstn_skipn|]. rewrite length_skipn. simpl in *. lia.
Qed.

Lemma omap_chunks {A B} (f : A -> option B) n (l : list A) :
  (0 < n)%nat -> omap f l = concat (map (omap f) (chunks n l)).
Proof.
  intros Hn. rewrite <- (concat_chunks n l Hn) at 1. generalize (chunks n l). intros ls.
  induction ls as [|c ls IH]; [done|]. cbn [concat map]. by rewrite omap_app, IH.
Qed.

(** A loop that appends something for each element and only reads. *)
Lemma run_fold_append {S A B C} env (F : C -> A) (f : list B -> A -> M S (list B)) (g : C -> list B) (l : list C) out (w : World S) :
  (forall x out w0, x ∈ l -> w_kv w0 = w_kv w -> exists w', f out (F x) env w0 = (Ok (out ++ g x), w') /\ idle w0 w') ->
  exists w', fold_m (map F l) f out env w = (Ok (out ++ concat (map g l)), w') /\ idle w w'.
Proof.
  intros Hf. assert (Hgen : forall w0 out, w_kv w0 = w_kv w ->
    exists w', fold_m (map F l) f out env w0 = (Ok (out ++ concat (map g l)), w') /\ idle w0 w'); [|by apply Hgen].
  clear out. induction l as [|x l IH]; intros w0 out Hw0; cbn [fold_m map concat].
  { exists w0. by rewrite app_nil_r. }
  destruct (Hf x out w0) as (w1 & E & Hw); [left|done|]. rewrite (bind_run _ _ _ _ _ _ E).
  destruct (IH ltac:(intros; apply Hf; [by right|done]) w1 (out ++ g x)) as (w2 & E2 & Hw2); [by destruct Hw as [-> _]|].
  exists w2. rewrite E2, <- app_assoc. split; [done|by etrans].
Qed.

(** ** Fetching nodes *)

Definition id_str (nid : bytes) : string := NodeIds.to_string (NodeIds.from_bytes nid).

Lemma parse_id_str nid : parse_node_id (id_str nid) = Ok (NodeIds.from_bytes nid).
Proof. unfold parse_node_id, id_str. by rewrite from_str_to_string by apply from_bytes_ok. Qed.

Section Fetch.
Context {S : Type} `{FdbLaws S} `{Cbor NodeData}.
Context (env : Env) (Henv : no_faults env) (db ns et : string).
Implicit Types (t : S) (nid : bytes) (w : World S).

(** The node the data row of an id holds. *)
Definition node_data t nid : option NodeData :=
  match kv_get t (node_key db ns et nid) with
  | Some b => match decode_cbor b with Ok d => Some d | Err _ => None end
  | None => None
  end.
Definition stored_at t nid : option StoredNode := stored_of (id_str nid) et <$> node_data t nid.

(** The row of the id, if there is one, can be read. *)
Definition readable t nid : Prop :=
  length nid = 9%nat /\ forall b, kv_get t (node_key db ns et nid) = Some b -> exists d, decode_cbor (A:=NodeData) b = Ok d.

Lemma run_batch v nids w :
  (forall nid, nid ∈ nids -> readable (snapshot (w_kv w) v) nid) ->
  exists w', get_nodes_batch_at_read_version db ns et (map id_str nids) v env w
    = (Ok (map (stored_at (snapshot (w_kv w) v)) nids), w') /\ idle w w'.
Proof.
  intros Hr. unfold get_nodes_batch_at_read_version. destruct nids as [|n0 nids]; [by exists w|].
  set (l := n0 :: nids) in *. change (map id_str l) with (id_str n0 :: map id_str nids). cbv iota.
  change (id_str n0 :: map id_str nids) with (map id_str l). mrun Henv. clearbody l.
  replace (map (stored_at (snapshot (w_kv w) v)) l) with (concat (map (fun nid => [stored_at (snapshot (w_kv w) v) nid]) l)).
  2: { clear. induction l as [|x l IH]; [done|]. cbn. by rewrite IH. }
  eapply (run_fold_append (S:=S) env id_str _ _ l [] (next_tick w)).
  intros nid out w0 Hin _. destruct (Hr nid Hin) as [H9 Hd]. exists (next_tick w0). split; [|done].
  cbv beta. rewrite parse_id_str. mrun Henv. rewrite to_from_bytes by done. fold (node_key db ns et nid).
  unfold stored_at, node_data. destruct (kv_get _ (node_key db ns et nid)) as [b|]; [|done].
  destruct (Hd b eq_refl) as [d ->]. done.
Qed.

(** The candidate of a scanned row. *)
Definition candidate_of t (kn : bytes * bytes) : option ScanCandidate :=
  (fun n => mkScanCandidate n (Some kn.1)) <$> stored_at t kn.2.

Definition keyed_ids (keyed : list (bytes * bytes)) : list (bytes * string) := map (fun kn => (kn.1, id_str kn.2)) keyed.

Lemma zip_candidates t (keyed : list (bytes * bytes)) :
  omap (fun kr => match kr.2 with
                  | Some node => Some (mkScanCandidate node (Some (kr.1 : bytes * string).1))
                  | None => None
                  end) (zip (keyed_ids keyed) (map (stored_at t) keyed.*2)) = omap (candidate_of t) keyed.
Proof.
  unfold keyed_ids. induction keyed as [|[k nid] l IH]; [done|].
  cbn [map fmap list_fmap zip_with omap list_omap fst snd]. rewrite IH.
  assert (candidate_of t (k, nid) = (fun n => mkScanCandidate n (Some k)) <$> stored_at t nid) as -> by done.
  by destruct (stored_at t nid).
Qed.

Lemma chunks_map {A B} (f : A -> B) n (l : list A) : chunks n (map f l) = map (map f) (chunks n l).
Proof.
  unfold chunks. rewrite length_map. generalize (length l) as fuel. intros fuel. revert l.
  induction fuel as [|fuel IH]; intros [|x l]; try done.
  cbn [map chunks_go]. change (f x :: map f l) with (map f (x :: l)). by rewrite skipn_map, IH, firstn_map.
Qed.

Lemma elem_of_chunks {A} n (l c : list A) (x : A) : (0 < n)%nat -> c ∈ chunks n l -> x ∈ c -> x ∈ l.
Proof.
  intros Hn Hc Hx. rewrite <- (concat_chunks n l Hn). apply list_elem_of_In, in_concat.
  exists c. split; by apply list_elem_of_In.
Qed.

Lemma run_fetch_candidates v keyed w :
  (forall kn, kn ∈ keyed -> readable (snapshot (w_kv w) v) kn.2) ->
  exists w', fetch_scan_candidates_in_order db ns et (keyed_ids keyed) v env w
    = (Ok (omap (candidate_of (snapshot (w_kv w) v)) keyed), w') /\ idle w w'.
Proof.
  intros Hr. unfold fetch_scan_candidates_in_order, keyed_ids. rewrite chunks_map.
  rewrite (omap_chunks _ NODE_BATCH_FETCH_SIZE keyed) by (unfold NODE_BATCH_FETCH_SIZE; lia).
  eapply (run_fold_append (S:=S) env (map (fun kn : bytes * bytes => (kn.1, id_str kn.2))) _ _ _ [] w).
  intros c out w0 Hc Hw0. cbv beta. destruct (run_batch v c.*2 w0) as (w1 & E & Hw1).
  { intros nid (kn & -> & Hk)%list_elem_of_fmap. rewrite Hw0. apply Hr.
    eapply elem_of_chunks; [|exact Hc|exact Hk]. unfold NODE_BATCH_FETCH_SIZE. lia. }
  exists w1. split; [|done].
  change ((map (fun kn : bytes * bytes => (kn.1, id_str kn.2)) c).*2)
    with (map snd (map (fun kn : bytes * bytes => (kn.1, id_str kn.2)) c)).
  rewrite map_map. cbn [snd]. rewrite <- (map_map snd id_str). change (map snd c) with c.*2.
  rewrite (bind_run _ _ _ _ _ _ E), Hw0. fold (keyed_ids c). by rewrite zip_candidates.
Qed.

Lemma run_fetch_nodes v nids w :
  (forall nid, nid ∈ nids -> readable (snapshot (w_kv w) v) nid) ->
  exists w', fetch_nodes_in_order db ns et (map id_str nids) v env w
    = (Ok (omap (stored_at (snapshot (w_kv w) v)) nids), w') /\ idle w w'.
Proof.
  intros Hr. unfold fetch_nodes_in_order. rewrite chunks_map.
  rewrite (omap_chunks _ NODE_BATCH_FETCH_SIZE nids) by (unfold NODE_BATCH_FETCH_SIZE; lia).
  eapply (run_fold_append (S:=S) env (map id_str) _ _ _ [] w).
  intros c out w0 Hc Hw0. cbv beta. destruct (run_batch v c w0) as (w1 & E & Hw1).
  { intros nid Hk. rewrite Hw0. apply Hr. eapply elem_of_chunks; [|exact Hc|exact Hk]. unfold NODE_BATCH_FETCH_SIZE. lia. }
  exists w1. split; [|done]. rewrite (bind_run _ _ _ _ _ _ E), Hw0.
  assert (Hid : forall l, omap id (map (stored_at (snapshot (w_kv w) v)) l) = omap (stored_at (snapshot (w_kv w) v)) l).
  { induction l as [|x l IH]; [done|]. cbn. rewrite IH. by destruct (stored_at _ x). }
  by rewrite Hid.
Qed.
End Fetch.

(** ** Scanned rows *)

(** The rows of a scan, each a cursor key and a node id, in key order: [P] says
    which there are. *)
Record lists (rows : list (bytes * bytes)) (P : bytes -> bytes -> Prop) : Prop := {
  ls_sorted : StronglySorted (fun x y => blt x.1 y.1) rows;
  ls_elem : forall k nid, (k, nid) ∈ rows <-> P k nid
}.

Lemma lists_fun rows rows' P : lists rows P -> lists rows' P -> rows = rows'.
Proof. intros [Hs He] [Hs' He']. apply sorted_ext; [done..|]. intros [k nid]. by rewrite He, He'. Qed.

Lemma sorted_map_snd {A} (f : bytes * bytes -> A) (l : list (bytes * bytes)) :
  StronglySorted (fun x y => blt x.1 y.1) l -> StronglySorted (fun x y => blt x.1 y.1) (map (fun kv => (kv.1, f kv)) l).
Proof.
  induction 1 as [|x l Hl IH Hx]; [constructor|]. cbn [map]. constructor; [done|].
  apply Forall_forall. intros y (z & -> & Hz)%list_elem_of_fmap. rewrite Forall_forall in Hx. by apply Hx.
Qed.

Section Ranges.
Context {S : Type} `{FdbLaws S}.
Implicit Types (t : S) (b c e : bytes).

Definition after_key (c : option bytes) (kn : bytes * bytes) : Prop := after c kn.1.
#[export] Instance after_key_dec (o : option bytes) kn : Decision (after_key o kn).
Proof. unfold after_key. apply _. Defined.

Lemma range_after_key t b c e : ble b c -> kv_range t (make_exclusive_start c) e = filter (after_key (Some c)) (kv_range t b e).
Proof.
  intros Hb. apply sorted_ext; [apply kv_range_sorted|apply sorted_filter, kv_range_sorted|].
  intros [k v]. rewrite list_elem_of_filter, !kv_range_elem. unfold make_exclusive_start, in_scan, after_key. cbn [fst after].
  rewrite ble_succ. split; [|tauto]. intros [[H1 H2] H3].
  split; [done|]. split; [split; [|done]|done]. eapply ble_trans; [exact Hb|]. apply ble_lt_or_eq. by left.
Qed.

(** The start of a page: the beginning of the range, or just after the cursor. *)
Lemma range_from t b (c : option bytes) e :
  (forall k, c = Some k -> ble b k) ->
  kv_range t (match c with Some k => make_exclusive_start k | None => b end) e = filter (after_key c) (kv_range t b e).
Proof.
  intros Hc. destruct c as [k|]; [by apply range_after_key, Hc|]. symmetry. by apply filter_all_true.
Qed.

Lemma between_prefix p y k : ble p k -> blt k (p ++ y) -> exists r, k = p ++ r.
Proof.
  revert k. induction p as [|x p IH]; intros k; [by exists k|]. destruct k as [|z k]; [done|].
  unfold ble, blt. cbn [lex app]. rewrite Z.compare_antisym.
  destruct (Z.compare_spec (u8b z) (u8b x)) as [E|E|E]; simpl; try done.
  apply u8b_inj in E as ->. intros H1 H2. destruct (IH k) as [r ->]; [done..|]. by exists r.
Qed.
End Ranges.

Lemma filter_map_comm {A B} (f : A -> B) (P : B -> Prop) (Q : A -> Prop) `{!forall x, Decision (P x)} `{!forall x, Decision (Q x)} l :
  (forall x, P (f x) <-> Q x) -> filter P (map f l) = map f (filter Q l).
Proof.
  intros Hpq. induction l as [|x l IH]; [done|]. cbn [map]. rewrite !filter_cons.
  destruct (decide (P (f x))), (decide (Q x)); cbn [map]; rewrite ?IH; naive_solver.
Qed.

(** ** Pages *)

(** The node ids of a page and what the page says about the rest: the first
    [limit] rows that match, whether there are more, and the cursor. *)
Definition apply_projection (proj : option (gset string)) (props : Props) : Props :=
  match proj with Some fields => filter (fun kv => kv.1 ∈ fields) props | None => props end.

Record page_is (N : NodeMap) (m : Props -> bool) (proj : option (gset string)) (limit : nat) (rows : list (bytes * bytes))
    (r : QueryResults) : Prop := {
  pg_ids : map sn_id (nodes r) = map (fun kn => id_str kn.2) (firstn limit (filter (fun kn => m (props_of (N kn.2)) = true) rows));
  pg_props : map sn_properties (nodes r)
    = map (fun kn => apply_projection proj (props_of (N kn.2))) (firstn limit (filter (fun kn => m (props_of (N kn.2)) = true) rows));
  pg_more : has_more r = Nat.ltb limit (length (filter (fun kn => m (props_of (N kn.2)) = true) rows));
  pg_cursor : cursor r = if Nat.eqb limit 0 then None else fst <$> filter (fun kn => m (props_of (N kn.2)) = true) rows !! limit
}.

Section Pages.
Context `{CelEngine} `{Cbor StoredNode}.

Definition residual_value (residual : option CelExpression) (props : Props) : result bool :=
  match residual with Some f => evaluate f props | None => Ok true end.

Definition project (proj : option (gset string)) (n : StoredNode) : StoredNode :=
  match proj with Some fields => project_node n fields | None => n end.

Lemma sn_id_project proj n : sn_id (project proj n) = sn_id n.
Proof. by destruct proj. Qed.
Lemma sn_properties_project proj n : sn_properties (project proj n) = apply_projection proj (sn_properties n).
Proof. by destruct proj. Qed.

Definition cursor_of (c : ScanCandidate) : bytes := default (build_cursor (sn_id (cand_node c))) (cursor_key c).

Lemma filter_loop_spec residual proj (m : Props -> bool) fetch cands results lc :
  (forall c, c ∈ cands -> residual_value residual (sn_properties (cand_node c)) = Ok (m (sn_properties (cand_node c)))) ->
  (length results < fetch)%nat ->
  let hits := firstn (fetch - length results) (filter (fun c => m (sn_properties (cand_node c)) = true) cands) in
  filter_loop residual None proj (Z.of_nat fetch) results lc cands
    = Ok (results ++ map (fun c => project proj (cand_node c)) hits,
          match last hits with Some c => Some (cursor_of c) | None => lc end).
Proof.
  intros Hm. revert results lc. induction cands as [|c cands IH]; intros results lc Hlen; cbn zeta; cbn [filter_loop].
  { rewrite filter_nil, take_nil. cbn. by rewrite app_nil_r. }
  specialize (IH ltac:(intros; apply Hm; by right)). pose proof (Hm c ltac:(left)) as Hc.
  change (match residual with Some f => evaluate f (sn_properties (cand_node c)) | None => Ok true end)
    with (residual_value residual (sn_properties (cand_node c))). rewrite Hc.
  unfold mbind, result_bind. cbv iota beta. rewrite filter_cons. destruct (m (sn_properties (cand_node c))); cbn [negb].
  2: { rewrite decide_False by done. by apply IH. }
  rewrite decide_True by done. fold (project proj (cand_node c)). rewrite sn_id_project.
  change (match cursor_key c with Some k => k | None => build_cursor (sn_id (cand_node c)) end) with (cursor_of c).
  destruct (fetch - length results)%nat as [|n] eqn:En; [lia|]. cbn [firstn map].
  unfold len. rewrite length_app. cbn [length].
  destruct (Z.leb_spec (Z.of_nat fetch) (Z.of_nat (length results + 1))) as [Hle|Hgt].
  - assert (n = 0%nat) as -> by lia. done.
  - rewrite IH by (rewrite length_app; simpl; lia). rewrite length_app. cbn [length].
    replace (fetch - (length results + 1))%nat with n by lia. rewrite <- app_assoc. cbn [app]. do 2 f_equal.
    rewrite last_cons. by destruct (last _).
Qed.
End Pages.

Section Live.
Context {S : Type} `{FdbLaws S} `{Cbor NodeData} `{CelEngine} `{Cbor StoredNode}.
Context (db ns et : string).
Implicit Types (t : S) (nid : bytes) (N : NodeMap) (rows : list (bytes * bytes)).

(** The node exists, and the map has its properties. *)
Definition live t N nid : Prop := exists d, node_data db ns et t nid = Some d /\ N nid = Some (nd_properties d).

Definition no_data : NodeData := mkNodeData ∅ 0 0 0.
Definition the_candidate t (kn : bytes * bytes) : ScanCandidate :=
  mkScanCandidate (stored_of (id_str kn.2) et (default no_data (node_data db ns et t kn.2))) (Some kn.1).

Lemma live_candidates t N rows :
  (forall kn, kn ∈ rows -> live t N kn.2) -> omap (candidate_of db ns et t) rows = map (the_candidate t) rows.
Proof.
  induction rows as [|kn rows IH]; intros Hl; [done|]. cbn [omap list_omap map]. rewrite IH by (intros; apply Hl; by right).
  destruct (Hl kn ltac:(left)) as (d & Hd & _).
  unfold candidate_of, stored_at, the_candidate. rewrite Hd. done.
Qed.

Lemma live_props t N kn : live t N kn.2 -> sn_properties (cand_node (the_candidate t kn)) = props_of (N kn.2).
Proof. intros (d & Hd & HN). unfold the_candidate. cbn. by rewrite Hd, HN. Qed.

(** The matching rows of a scan, as candidates. *)
Lemma filter_candidates t N (m : Props -> bool) rows :
  (forall kn, kn ∈ rows -> live t N kn.2) ->
  filter (fun c => m (sn_properties (cand_node c)) = true) (map (the_candidate t) rows)
    = map (the_candidate t) (filter (fun kn => m (props_of (N kn.2)) = true) rows).
Proof.
  induction rows as [|kn rows IH]; intros Hl; [done|]. cbn [map]. rewrite !filter_cons, IH by (intros; apply Hl; by right).
  rewrite live_props with (N := N) by (apply Hl; left). by case_decide.
Qed.

Lemma page_of_rows t N residual (m : Props -> bool) proj (limit : nat) rows count :
  (forall kn, kn ∈ rows -> live t N kn.2 /\ residual_value residual (props_of (N kn.2)) = Ok (m (props_of (N kn.2)))) ->
  exists rl, filter_loop residual None proj (Z.of_nat (limit + 1)) [] None (omap (candidate_of db ns et t) rows) = Ok rl /\
    page_is N m proj limit rows (page_of (Z.of_nat limit) rl.1 rl.2 count).
Proof.
  intros Hl. assert (Hlive : forall kn, kn ∈ rows -> live t N kn.2) by (intros; by apply Hl).
  rewrite (live_candidates t N) by done.
  rewrite (filter_loop_spec residual proj m (limit + 1)).
  2: { intros c (kn & -> & Hk)%list_elem_of_fmap. rewrite live_props with (N := N) by auto. by apply Hl. }
  2: { cbn. lia. }
  eexists. split; [reflexivity|]. cbn [fst snd length app]. rewrite Nat.sub_0_r, (filter_candidates t N) by done.
  set (hits := filter (fun kn => m (props_of (N kn.2)) = true) rows).
  assert (Hh : forall kn, kn ∈ hits -> live t N kn.2) by (intros kn [_ ?]%list_elem_of_filter; auto).
  rewrite firstn_map, map_map. unfold page_of, len. rewrite length_map, length_take.
  set (full := map (fun kn => project proj (cand_node (the_candidate t kn))) (firstn (limit + 1) hits)).
  assert (Hpage : (if Z.of_nat limit <? Z.of_nat ((limit + 1) `min` length hits) then firstn (Z.to_nat (Z.of_nat limit)) full else full)
    = map (fun kn => project proj (cand_node (the_candidate t kn))) (firstn limit hits)).
  { unfold full. rewrite Nat2Z.id. destruct (Z.ltb_spec (Z.of_nat limit) (Z.of_nat ((limit + 1) `min` length hits))).
    - rewrite firstn_map, firstn_firstn. do 2 f_equal. lia.
    - rewrite !firstn_all2 by lia. done. }
  rewrite Hpage. split; cbn [nodes has_more cursor]; fold hits.
  - rewrite map_map. apply map_ext. intros kn. by rewrite sn_id_project.
  - rewrite map_map. apply map_ext_in. intros kn Hin%list_elem_of_In%elem_of_take_1.
    rewrite sn_properties_project, (live_props t N) by auto. done.
  - destruct (Z.ltb_spec (Z.of_nat limit) (Z.of_nat ((limit + 1) `min` length hits))),
      (Nat.ltb_spec limit (length hits)); try done; lia.
  - destruct (Nat.eqb_spec limit 0) as [->|Hne].
    { cbn. by rewrite andb_false_r. }
    destruct (Z.ltb_spec (Z.of_nat limit) (Z.of_nat ((limit + 1) `min` length hits))) as [Hlt|Hge].
    + rewrite bool_decide_false.
      2: { intros E%map_eq_nil. apply (f_equal length) in E. rewrite length_take in E. simpl in E. lia. }
      cbn [andb negb]. destruct (lookup_lt_is_Some_2 hits limit ltac:(lia)) as [kn Hkn]. rewrite Hkn.
      assert (last (map (the_candidate t) (firstn (limit + 1) hits)) = Some (the_candidate t kn)) as ->; [|done].
      rewrite last_lookup, length_map, length_take, list_lookup_fmap.
      replace (Nat.pred ((limit + 1) `min` length hits)) with limit by lia.
      by rewrite lookup_take_lt, Hkn by lia.
    + rewrite lookup_ge_None_2 by lia. done.
Qed.
End Live.

(** ** Scans of a represented store *)

Section Scans.
Context {S : Type} `{FdbLaws S} `{HashIter} `{Cbor NodeData}.
Context (env : Env) (Henv : no_faults env) (db ns et : string) (schema : EntitySchema).
Implicit Types (t : S) (nid : bytes) (N : NodeMap) (w : World S).
Let sub := Sub.namespace db ns.

Lemma rep_readable t N nid : represents db ns et schema t N -> valid_nid nid -> readable db ns et t nid.
Proof.
  intros HR Hv. split; [apply Hv|]. intros b Hb. pose proof (rp_data _ _ _ _ _ _ HR nid Hv) as Hd.
  destruct (N nid); simpl in Hd; [|congruence]. destruct Hd as (b' & d & E & Hd & _). exists d. congruence.
Qed.

Lemma rep_live t N nid : represents db ns et schema t N -> valid_nid nid -> is_Some (N nid) -> live db ns et t N nid.
Proof.
  intros HR Hv [props HN]. pose proof (rp_data _ _ _ _ _ _ HR nid Hv) as Hd. rewrite HN in Hd.
  destruct Hd as (b & d & E & Hd & Hp). exists d. unfold node_data. rewrite E, Hd, HN, Hp. done.
Qed.

(** The nodes of the type, by key. *)
Definition is_node N (k nid : bytes) : Prop := valid_nid nid /\ k = node_key db ns et nid /\ is_Some (N nid).

Definition with_last9 (kv : bytes * bytes) : bytes * bytes := (kv.1, last9 kv).

Lemma last9_app p r v : length r = 9%nat -> last9 (p ++ r, v) = r.
Proof.
  intros Hr. unfold last9. cbn [fst]. rewrite length_app, Hr.
  replace (length p + 9 - 9)%nat with (length p) by lia. apply drop_app_length.
Qed.

Definition data_rows t : list (bytes * bytes) :=
  map with_last9 (kv_range t (data_prefix db ns et) (data_prefix db ns et ++ [Byte.xff])).

Lemma data_rows_lists t N : represents db ns et schema t N -> lists (data_rows t) (is_node N).
Proof.
  intros HR. split; [apply sorted_map_snd, kv_range_sorted|]. intros k nid. unfold data_rows. rewrite list_elem_of_fmap. split.
  - intros ([k' v] & E & [Hs Hg]%kv_range_elem). apply in_scan_prefix in Hs as (r & -> & Hr).
    pose proof (rp_closed _ _ _ _ _ _ HR r v Hr Hg) as Hv.
    unfold with_last9 in E. rewrite last9_app in E by apply Hv. cbn [fst] in E. injection E as -> ->.
    split; [done|]. split; [by rewrite node_key_eq|].
    pose proof (rp_data _ _ _ _ _ _ HR r Hv) as Hd. destruct (N r); [done|]. simpl in Hd. rewrite node_key_eq in Hd. congruence.
  - intros (Hv & -> & Hn). destruct (rep_live t N nid HR Hv Hn) as (d & Hd & _). unfold node_data in Hd.
    destruct (kv_get t (node_key db ns et nid)) as [b|] eqn:Eb; [|done]. exists (node_key db ns et nid, b). split.
    + unfold with_last9. rewrite node_key_eq, last9_app by apply Hv. done.
    + apply kv_range_elem. split; [|done]. rewrite node_key_eq. apply in_scan_prefix. exists nid. split; [done|]. apply Hv.
Qed.

Lemma data_keyed rows :
  (forall kv, kv ∈ rows -> (9 <= length kv.1)%nat) ->
  omap (fun kv : bytes * bytes => match extract_node_id_from_data_key kv.1 with
          | Ok b => if Nat.eqb (length b) 9 then Some (kv.1, NodeIds.to_string (NodeIds.from_bytes b)) else None
          | Err _ => None
          end) rows = keyed_ids (map with_last9 rows).
Proof.
  intros Hl. induction rows as [|kv rows IH]; [done|]. cbn [omap list_omap map keyed_ids].
  assert (H9 : (9 <= length kv.1)%nat) by (apply Hl; left). rewrite IH by (intros; apply Hl; by right).
  unfold extract_node_id_from_data_key. destruct (Nat.ltb_spec (length kv.1) 9); [lia|]. rewrite length_skipn.
  replace (length kv.1 - (length kv.1 - 9))%nat with 9%nat by lia. done.
Qed.

Lemma lists_page t N rows P (c : option bytes) n :
  lists rows P -> (forall k nid, P k nid -> valid_nid nid) -> represents db ns et schema t N ->
  forall kn, kn ∈ firstn n (filter (after_key c) rows) -> P kn.1 kn.2 /\ readable db ns et t kn.2.
Proof.
  intros HL Hv HR [k nid] [_ Hin]%elem_of_take_1%list_elem_of_filter. apply (ls_elem _ _ HL) in Hin.
  split; [done|]. eapply rep_readable; [done|]. by eapply Hv.
Qed.

Lemma run_full_scan v (c : option bytes) limit w N :
  represents db ns et schema (snapshot (w_kv w) v) N -> (forall k, c = Some k -> ble (data_prefix db ns et) k) ->
  exists w', execute_full_scan db ns et c limit v env w
    = (Ok (omap (candidate_of db ns et (snapshot (w_kv w) v))
             (firstn (Z.to_nat (Z.max limit 1)) (filter (after_key c) (data_rows (snapshot (w_kv w) v))))), w') /\ idle w w'.
Proof.
  intros HR Hc. unfold execute_full_scan. set (t := snapshot (w_kv w) v) in *.
  replace (Tuple.build (Tuple.add_string (Sub.pack (Sub.data (Sub.namespace db ns))) et)) with (data_prefix db ns et)
    by (unfold data_prefix; tuple_norm; done).
  destruct (run_get_range_at env Henv (match c with Some k => make_exclusive_start k | None => data_prefix db ns et end)
    (data_prefix db ns et ++ [Byte.xff]) (Z.to_nat (Z.max limit 1)) v w) as [n E].
  cbv zeta. rewrite (bind_run _ _ _ _ _ _ E). fold t. rewrite range_from by done.
  set (w1 := mkWorld _ _ _ _ n). set (rows := firstn _ _).
  assert (Hmap : map with_last9 rows = firstn (Z.to_nat (Z.max limit 1)) (filter (after_key c) (data_rows t))).
  { unfold rows, data_rows. rewrite <- firstn_map. f_equal. symmetry. by apply filter_map_comm. }
  rewrite data_keyed.
  2: { intros [k b] [_ [Hs Hg]%kv_range_elem]%elem_of_take_1%list_elem_of_filter. apply in_scan_prefix in Hs as (r & -> & Hr).
       destruct (rp_closed _ _ _ _ _ _ HR r b Hr Hg) as [H9 _]. cbn. rewrite length_app. lia. }
  rewrite Hmap. destruct (run_fetch_candidates env Henv db ns et v
    (firstn (Z.to_nat (Z.max limit 1)) (filter (after_key c) (data_rows t))) w1) as (w2 & E2 & Hw2).
  { intros kn Hin. refine (proj2 (lists_page t N _ _ c _ (data_rows_lists t N HR) _ HR kn Hin)). by intros ? ? (? & _). }
  exists w2. split; [exact E2|]. by etrans; [|exact Hw2].
Qed.
End Scans.

(** ** Index scans *)

(** Which encoded values a predicate selects.  Without an upper bound the scan
    ends before the encodings that start with 0xFF. *)
Definition above (lower : option RangeBound) (enc : bytes) : Prop :=
  match lower with
  | Some b => match encode_predicate_value (rb_value b) with
              | Ok lo => if inclusive b then ble lo enc else blt lo enc
              | Err _ => False
              end
  | None => True
  end.
Definition below (upper : option RangeBound) (enc : bytes) : Prop :=
  match upper with
  | Some b => match encode_predicate_value (rb_value b) with
              | Ok hi => if inclusive b then ble enc hi else blt enc hi
              | Err _ => False
              end
  | None => not_ff enc
  end.
Definition selects (pr : IndexPredicate) (enc : bytes) : Prop :=
  match pr with
  | Equals v => encode_predicate_value v = Ok enc
  | Range lower upper => above lower enc /\ below upper enc
  | InList vs => exists v, v ∈ vs /\ encode_predicate_value v = Ok enc
  end.

(** The values of a predicate, encoded in [n] bytes. *)
Definition bound_width (n : nat) (b : option RangeBound) : Prop :=
  match b with Some b => exists e, encode_predicate_value (rb_value b) = Ok e /\ length e = n | None => True end.
Definition predicate_width (n : nat) (pr : IndexPredicate) : Prop :=
  match pr with
  | Equals v => exists e, encode_predicate_value v = Ok e /\ length e = n
  | Range lower upper => bound_width n lower /\ bound_width n upper
  | InList vs => Forall (fun v => exists e, encode_predicate_value v = Ok e /\ length e = n) vs
  end.

(** The ends of the scanned range, relative to the prefix of the property. *)
Definition scan_start (pr : IndexPredicate) : bytes :=
  match pr with
  | Equals v => match encode_predicate_value v with Ok e => e | Err _ => [] end
  | Range (Some b) _ => match encode_predicate_value (rb_value b) with
                        | Ok e => if inclusive b then e else e ++ [Byte.xff]
                        | Err _ => []
                        end
  | _ => []
  end.
Definition scan_end (pr : IndexPredicate) : bytes :=
  match pr with
  | Equals v => match encode_predicate_value v with Ok e => e ++ [Byte.xff] | Err _ => [] end
  | Range _ (Some b) => match encode_predicate_value (rb_value b) with
                        | Ok e => if inclusive b then e ++ [Byte.xff] else e
                        | Err _ => []
                        end
  | _ => [Byte.xff]
  end.

Lemma ble_head n lo enc tl :
  length lo = n -> length enc = n -> ble lo (enc ++ tl) <-> ble lo enc.
Proof.
  intros <- Hl. unfold ble. rewrite <- (app_nil_r lo) at 1. rewrite lex_app_same_length by done.
  destruct (lex lo enc); [|done..]. by destruct tl.
Qed.

Lemma ble_head_ff n lo enc tl :
  length lo = n -> length enc = n -> not_ff tl -> ble (lo ++ [Byte.xff]) (enc ++ tl) <-> blt lo enc.
Proof.
  intros <- Hl Ht. unfold ble, blt. rewrite lex_app_same_length by done.
  apply lex_ff in Ht. rewrite lex_antisym in Ht. destruct (lex lo enc); [|done..].
  destruct (lex [Byte.xff] tl); done.
Qed.

Lemma blt_head n hi enc tl :
  length hi = n -> length enc = n -> blt (enc ++ tl) hi <-> blt enc hi.
Proof.
  intros <- Hl. unfold blt. rewrite <- (app_nil_r hi) at 1. rewrite lex_app_same_length by done.
  destruct (lex enc hi); [|done..]. by destruct tl.
Qed.

Lemma blt_head_ff n hi enc tl :
  length hi = n -> length enc = n -> not_ff tl -> blt (enc ++ tl) (hi ++ [Byte.xff]) <-> ble enc hi.
Proof.
  intros <- Hl Ht. unfold ble, blt. rewrite lex_app_same_length by done.
  apply lex_ff in Ht. destruct (lex enc hi); done.
Qed.

Lemma above_scan n p lower upper enc tl :
  bound_width n lower -> length enc = n -> not_ff tl ->
  ble (p ++ scan_start (Range lower upper)) (p ++ (enc ++ tl)) <-> above lower enc.
Proof.
  intros Hb Hl Ht. unfold ble at 1. rewrite lex_app. fold (ble (scan_start (Range lower upper)) (enc ++ tl)).
  destruct lower as [b|]; [|by split; [|intros _; apply (ble_app_r [])]].
  destruct Hb as (lo & E & Hlo). unfold scan_start, above. rewrite E. destruct (inclusive b).
  - by apply (ble_head n).
  - by apply (ble_head_ff n).
Qed.

Lemma below_scan n p lower upper enc tl :
  bound_width n upper -> length enc = n -> (0 < n)%nat -> not_ff tl ->
  blt (p ++ (enc ++ tl)) (p ++ scan_end (Range lower upper)) <-> below upper enc.
Proof.
  intros Hb Hl Hn Ht. unfold blt at 1. rewrite lex_app. fold (blt (enc ++ tl) (scan_end (Range lower upper))).
  destruct upper as [b|].
  - destruct Hb as (hi & E & Hhi). unfold scan_end, below. rewrite E. destruct (inclusive b).
    + by apply (blt_head_ff n).
    + by apply (blt_head n).
  - unfold scan_end, below, blt. rewrite lex_ff. destruct enc as [|x enc]; [simpl in Hl; lia|done].
Qed.

(** The range of an equality or range predicate holds the rows of the values it
    selects, if all values have the same width. *)
Lemma scan_selects n p pr enc tl :
  predicate_width n pr -> length enc = n -> (0 < n)%nat -> not_ff tl -> (forall vs, pr <> InList vs) ->
  in_scan (p ++ scan_start pr) (p ++ scan_end pr) (p ++ (enc ++ tl)) <-> selects pr enc.
Proof.
  intros Hw Hl Hn Ht Hin. destruct pr as [v|lower upper|vs]; [|by (destruct Hw; unfold in_scan; cbn [selects]; rewrite (above_scan n), (below_scan n))|by destruct (Hin vs)].
  destruct Hw as (e & E & He). cbn [selects]. unfold scan_start, scan_end. rewrite E. unfold in_scan, ble, blt.
  rewrite !lex_app. fold (ble e (enc ++ tl)) (blt (enc ++ tl) (e ++ [Byte.xff])).
  rewrite (ble_head n), (blt_head_ff n) by done. unfold ble. rewrite (lex_antisym enc e).
  destruct (lex enc e) eqn:El; cbn [CompOpp].
  - apply lex_eq in El as ->. done.
  - split; [by intros []|]. intros [= ->]. by rewrite lex_refl in El.
  - split; [by intros []|]. intros [= ->]. by rewrite lex_refl in El.
Qed.

Section IndexScans.
Context {S : Type} `{FdbLaws S} `{HashIter} `{Cbor NodeData}.
Context (env : Env) (Henv : no_faults env) (db ns et : string) (schema : EntitySchema).
Implicit Types (t : S) (nid : bytes) (N : NodeMap) (w : World S) (d : PropertyDef).
Let sub := Sub.namespace db ns.

Definition index_prefix p d : bytes := prefix (Sub.index sub) ++ (enc_str et ++ (enc_str p ++ [marker_of (index d)])).

Lemma row_key_prefix p d enc nid : row_key sub et p d enc nid = index_prefix p d ++ (enc ++ index_tail (index d) nid).
Proof. unfold row_key, index_prefix. by rewrite <- !app_assoc. Qed.

Lemma index_tail_not_ff i nid : valid_nid nid -> not_ff (index_tail i nid).
Proof. intros [_ Hf]. by destruct i. Qed.

Definition row_nid d (kv : bytes * bytes) : bytes := match index d with IdxUnique => kv.2 | _ => last9 kv end.

(** The rows of a property between two keys. *)
Definition index_node N p d (Q : bytes -> bytes -> Prop) (k nid : bytes) : Prop :=
  exists enc, valid_nid nid /\ holds (props_of (N nid)) p enc /\ k = row_key sub et p d enc nid /\ Q enc nid.

Definition index_rows t d b e : list (bytes * bytes) := map (fun kv => (kv.1, row_nid d kv)) (kv_range t b e).

Lemma row_nid_key p d enc nid : is_indexed_by schema p d -> valid_nid nid ->
  row_nid d (row_key sub et p d enc nid, row_val d nid) = nid.
Proof.
  intros [_ Hi] [H9 _]. unfold row_nid, row_val. rewrite row_key_prefix.
  destruct (index d); cbn [index_tail snd]; [done|done|..]; by rewrite app_assoc, last9_app.
Qed.

Lemma index_row_of t N p d k v y :
  represents db ns et schema t N -> is_indexed_by schema p d ->
  in_scan (index_prefix p d) (index_prefix p d ++ y) k -> kv_get t k = Some v ->
  exists enc nid, valid_nid nid /\ holds (props_of (N nid)) p enc /\ k = row_key sub et p d enc nid /\ v = row_val d nid.
Proof.
  intros HR Hp [Hb He] Hg. destruct (between_prefix _ _ _ Hb He) as [r ->].
  assert (Hk : index_prefix p d ++ r = row_key sub et p d r []).
  { rewrite row_key_prefix. assert (index_tail (index d) [] = []) as -> by (by destruct (index d)). by rewrite app_nil_r. }
  rewrite Hk in Hg. destruct (ie_closed _ _ _ _ _ (rp_index _ _ _ _ _ _ HR) p d r v Hp Hg) as (enc & nid & Hv & -> & ->).
  exists enc, nid. split; [done|]. split; [|by rewrite row_key_prefix].
  apply (ie_rows _ _ _ _ _ (rp_index _ _ _ _ _ _ HR) p d enc nid Hp Hv). by rewrite <- row_key_raw.
Qed.

Lemma index_rows_lists t N p d x y Q :
  represents db ns et schema t N -> is_indexed_by schema p d ->
  (forall nid enc, valid_nid nid -> holds (props_of (N nid)) p enc ->
     in_scan (index_prefix p d ++ x) (index_prefix p d ++ y) (row_key sub et p d enc nid) <-> Q enc nid) ->
  lists (index_rows t d (index_prefix p d ++ x) (index_prefix p d ++ y)) (index_node N p d Q).
Proof.
  intros HR Hp HQ. split; [apply sorted_map_snd, kv_range_sorted|]. intros k nid. unfold index_rows. rewrite list_elem_of_fmap. split.
  - intros ([k' v] & E & [Hs Hg]%kv_range_elem). destruct (index_row_of t N p d k' v y HR Hp) as (enc & nid' & Hv & Hh & -> & ->); [|done|].
    { split; [|apply Hs]. eapply ble_trans; [apply ble_app_r|apply Hs]. }
    rewrite (row_nid_key p d enc nid' Hp Hv) in E. cbn [fst] in E. injection E as -> ->. exists enc. split; [done|]. split; [done|].
    split; [done|]. by apply HQ.
  - intros (enc & Hv & Hh & -> & Hq). exists (row_key sub et p d enc nid, row_val d nid). split.
    + by rewrite (row_nid_key p d enc nid Hp Hv).
    + apply kv_range_elem. split; [by apply HQ|]. by apply (ie_rows _ _ _ _ _ (rp_index _ _ _ _ _ _ HR)).
Qed.

Lemma run_scan_rows v d (c : option bytes) b e limit w :
  index d <> IdxNone -> (forall k, c = Some k -> ble b k) ->
  (forall kv, kv ∈ kv_range (snapshot (w_kv w) v) b e -> index d <> IdxUnique -> (9 <= length kv.1)%nat) ->
  exists w', scan_rows (index d) (match c with Some k => make_exclusive_start k | None => b end) e limit v env w
    = (Ok (firstn (Z.to_nat (Z.max limit 1)) (filter (after_key c) (index_rows (snapshot (w_kv w) v) d b e))), w') /\ idle w w'.
Proof.
  intros Hd Hc H9. unfold scan_rows.
  destruct (run_get_range_at env Henv (match c with Some k => make_exclusive_start k | None => b end) e (Z.to_nat (Z.max limit 1)) v w)
    as [n E]. rewrite (bind_run _ _ _ _ _ _ E), range_from by done.
  set (w1 := mkWorld _ _ _ _ n). set (rows := firstn _ _).
  assert (Hrows : forall kv, kv ∈ rows -> index d <> IdxUnique -> (9 <= length kv.1)%nat).
  { intros kv [_ Hin]%elem_of_take_1%list_elem_of_filter. by apply H9. }
  replace (firstn (Z.to_nat (Z.max limit 1)) (filter (after_key c) (index_rows (snapshot (w_kv w) v) d b e)))
    with (concat (map (fun kv => [(kv.1, row_nid d kv)]) rows)).
  2: { unfold rows, index_rows. rewrite (filter_map_comm _ _ (after_key c)) by done. rewrite firstn_map.
       generalize (firstn (Z.to_nat (Z.max limit 1)) (filter (after_key c) (kv_range (snapshot (w_kv w) v) b e))).
       intros l. induction l as [|x l IH]; [done|]. cbn [map concat]. by rewrite IH. }
  clearbody rows. assert (Hid : map (fun kv => kv) rows = rows) by apply map_id.
  destruct (run_fold_append env (fun kv => kv) (fun out row => node_id ← lift (row_node_id (index d) row); mret (out ++ [(row.1, node_id)]))
    (fun kv => [(kv.1, row_nid d kv)]) rows [] w1) as (w2 & E2 & Hw2); [|exists w2; rewrite Hid in E2; split; [exact E2|by etrans; [|exact Hw2]]].
  intros kv out w0 Hin _. exists w0. split; [|done].
  assert (row_node_id (index d) kv = Ok (row_nid d kv)) as ->; [|done].
  unfold row_node_id, row_nid, extract_node_id_from_index_key, last9. specialize (Hrows kv Hin).
  destruct (index d), (Nat.ltb_spec (length kv.1) 9); try done; specialize (Hrows ltac:(done)); lia.
Qed.

Lemma encode_predicate_ok v : exists e, encode_predicate_value v = Ok e.
Proof. unfold encode_predicate_value. destruct v; cbn; eauto. Qed.

Lemma index_head_eq p d m : scan_marker (index d) = Ok m -> index d <> IdxNone ->
  Tuple.build (index_head db ns et p m) = index_prefix p d.
Proof.
  intros Hm Hd. assert (m = marker_of (index d)) as -> by (destruct (index d); by simplify_eq/=).
  unfold index_head, index_prefix. tuple_norm. done.
Qed.

Lemma index_keyed (rows : list (bytes * bytes)) :
  (forall kn, kn ∈ rows -> length kn.2 = 9%nat) ->
  omap (fun kn : bytes * bytes => if Nat.eqb (length kn.2) 9
          then Some (kn.1, NodeIds.to_string (NodeIds.from_bytes kn.2)) else None) rows = keyed_ids rows.
Proof.
  intros Hl. induction rows as [|kn rows IH]; [done|]. cbn [omap list_omap keyed_ids map].
  rewrite (Hl kn ltac:(left)). cbn [Nat.eqb]. rewrite IH by (intros; apply Hl; by right). done.
Qed.

(** Any row of the property belongs to a node and its value. *)
Lemma index_rows_valid t N p d x y kn :
  represents db ns et schema t N -> is_indexed_by schema p d ->
  kn ∈ index_rows t d (index_prefix p d ++ x) (index_prefix p d ++ y) -> valid_nid kn.2 /\ is_Some (N kn.2).
Proof.
  intros HR Hp Hin. destruct kn as [k nid].
  apply (ls_elem _ _ (index_rows_lists t N p d x y
    (fun enc nid => in_scan (index_prefix p d ++ x) (index_prefix p d ++ y) (row_key sub et p d enc nid)) HR Hp ltac:(done)))
    in Hin as (enc & Hv & Hh & _). split; [done|]. cbn [snd]. destruct (N nid); [done|]. by apply holds_empty in Hh.
Qed.

Lemma run_index_scan v p d pr (c : option bytes) limit w N :
  represents db ns et schema (snapshot (w_kv w) v) N -> is_indexed_by schema p d -> (forall vs, pr <> InList vs) ->
  (forall k, c = Some k -> ble (index_prefix p d ++ scan_start pr) k) ->
  exists w', execute_index_scan db ns et p (index d) pr c limit v env w
    = (Ok (omap (candidate_of db ns et (snapshot (w_kv w) v))
         (firstn (Z.to_nat (Z.max limit 1)) (filter (after_key c)
            (index_rows (snapshot (w_kv w) v) d (index_prefix p d ++ scan_start pr) (index_prefix p d ++ scan_end pr))))), w') /\
    idle w w'.
Proof.
  intros HR Hp Hin Hc. pose proof Hp as [_ Hd]. set (t := snapshot (w_kv w) v) in *.
  assert (Hm : exists m, scan_marker (index d) = Ok m) by (destruct (index d); naive_solver). destruct Hm as [m Hm].
  set (rows := index_rows t d (index_prefix p d ++ scan_start pr) (index_prefix p d ++ scan_end pr)).
  assert (Hrows : forall kn, kn ∈ firstn (Z.to_nat (Z.max limit 1)) (filter (after_key c) rows) -> valid_nid kn.2).
  { intros kn [_ Hk]%elem_of_take_1%list_elem_of_filter. by eapply index_rows_valid. }
  destruct (run_scan_rows v d c (index_prefix p d ++ scan_start pr) (index_prefix p d ++ scan_end pr) limit w)
    as (w1 & E1 & Hw1); [done|done|..].
  { intros [k b] [Hs Hg]%kv_range_elem Hu.
    destruct (index_row_of t N p d k b (scan_end pr) HR Hp) as (enc & nid & [Hv _] & _ & -> & _); [|done|].
    - split; [|apply Hs]. eapply ble_trans; [apply ble_app_r|apply Hs].
    - cbn [fst]. rewrite row_key_prefix, !length_app. destruct (index d); cbn [index_tail]; [done|done|lia..]. }
  unfold execute_index_scan. rewrite Hm, run_lift. cbv zeta.
  pose proof (index_head_eq p d m Hm Hd) as Hhead.
  assert (Hraw : forall e, Tuple.build (Tuple.add_raw_bytes (index_head db ns et p m) e) = index_prefix p d ++ e).
  { intros e. rewrite <- Hhead. done. }
  destruct (run_fetch_candidates env Henv db ns et v (firstn (Z.to_nat (Z.max limit 1)) (filter (after_key c) rows)) w1) as (w2 & E2 & Hw2).
  { destruct Hw1 as [-> _]. intros kn Hk. eapply rep_readable; [done|]. by apply Hrows. }
  exists w2. split; [|by etrans]. rewrite (bind_run _ _ env w (firstn (Z.to_nat (Z.max limit 1)) (filter (after_key c) rows)) w1).
  { rewrite index_keyed by (intros kn Hk; by apply Hrows). rewrite E2. by destruct Hw1 as [-> _]. }
  destruct pr as [val|lower upper|vs]; [| |by destruct (Hin vs)].
  - destruct (encode_predicate_ok val) as [e He]. rewrite He, run_lift. cbv zeta. rewrite Hraw.
    unfold rows in *. unfold scan_start, scan_end in *. rewrite He in *. rewrite app_assoc in E1 |- *. exact E1.
  - set (lo := match lower with Some bound => bound_key (index_head db ns et p m) bound (negb (inclusive bound))
               | None => Ok (Tuple.build (index_head db ns et p m)) end).
    set (hi := match upper with Some bound => bound_key (index_head db ns et p m) bound (inclusive bound)
               | None => Ok (Tuple.build (index_head db ns et p m) ++ [Byte.xff]) end).
    assert (lo = Ok (index_prefix p d ++ scan_start (Range lower upper))) as ->.
    { unfold lo, bound_key, scan_start. destruct lower as [b|]; [|by rewrite Hhead, app_nil_r].
      destruct (encode_predicate_ok (rb_value b)) as [e ->]. unfold mbind, result_bind. rewrite Hraw. by destruct (inclusive b); cbn [negb]; rewrite <- ?app_assoc. }
    assert (hi = Ok (index_prefix p d ++ scan_end (Range lower upper))) as ->.
    { unfold hi, bound_key, scan_end. destruct upper as [b|]; [|by rewrite Hhead].
      destruct (encode_predicate_ok (rb_value b)) as [e ->]. unfold mbind, result_bind. rewrite Hraw. by destruct (inclusive b); cbn [negb]; rewrite <- ?app_assoc. }
    rewrite !run_lift. exact E1.
Qed.
End IndexScans.

(** ** Queries *)

Section Queries.
Context {S : Type} `{FdbLaws S} `{HashIter} `{Cbor NodeData} `{Cbor StoredNode} `{Cbor EntitySchema} `{CelEngine}.
Context (config : ExecutorConfig) (db ns et : string) (schema : EntitySchema).
Implicit Types (w : World S) (N : NodeMap) (pl : ExecutionPlan).

Definition query_limit pl : nat := Z.to_nat (Z.min (default (default_limit config) (plan_limit pl)) (max_limit config)).
(** How many rows a query looks at. *)
Definition window pl : nat := Z.to_nat (Z.max (Z.min (4 * (Z.of_nat (query_limit pl) + 1)) (max_limit config)) 1).

Lemma window_pos pl : Z.to_nat (Z.max (Z.of_nat (window pl)) 1) = window pl.
Proof. unfold window. lia. Qed.

(** The limits are [u32] values. *)
Record limits_ok pl : Prop := {
  lo_max : u32_ok (max_limit config);
  lo_default : u32_ok (default_limit config);
  lo_plan : forall l, plan_limit pl = Some l -> u32_ok l
}.

Definition compiled pl (residual : option CelExpression) : Prop :=
  match residual_filter pl with
  | Some e => exists x, compile schema e = Ok x /\ residual = Some x
  | None => residual = None
  end.

(** The residual filter evaluates to [m] on every node. *)
Definition filters N (residual : option CelExpression) (m : Props -> bool) : Prop :=
  forall nid props, N nid = Some props -> residual_value residual props = Ok (m props).

Lemma limit_eq pl : limits_ok pl ->
  Z.min (default (default_limit config) (plan_limit pl)) (max_limit config) = Z.of_nat (query_limit pl) /\
  usize_add (Z.min (default (default_limit config) (plan_limit pl)) (max_limit config)) 1 = Z.of_nat (query_limit pl + 1) /\
  Z.max (Z.min (usize_mul (Z.of_nat (query_limit pl + 1)) 4) (max_limit config)) 1 = Z.of_nat (window pl).
Proof.
  intros [Hm Hd Hp]. unfold query_limit, window, usize_add, usize_mul, u32_ok, U64_MAX in *.
  assert (0 <= default (default_limit config) (plan_limit pl)) by (destruct (plan_limit pl) as [l|]; cbn; [by destruct (Hp l eq_refl)|lia]).
  unfold query_limit. lia.
Qed.

Lemma run_get_schema env w : no_faults env -> serves db ns et schema w ->
  exists w', get_schema db ns et env w = (Ok (Some schema), w') /\ same_store w w'.
Proof.
  intros Henv Hs. destruct (run_require_schema env Henv db ns et schema w Hs) as (w' & E & Hw). exists w'. split; [|done].
  unfold require_schema in E. apply bind_ok in E as (o & w1 & E1 & E2). rewrite E1. destruct o; [|done].
  unfold lift in E2. cbn in E2. by injection E2 as -> ->.
Qed.

(** Everything after the scan, which returned the given rows. *)
Lemma run_execute env pl v w N residual m (scan : M S (list ScanCandidate)) (rows : list (bytes * bytes)) :
  no_faults env -> serves db ns et schema w -> plan_entity_type pl = et -> limits_ok pl ->
  compiled pl residual -> filters N residual m ->
  (forall kn, kn ∈ rows -> live db ns et (snapshot (w_kv w) v) N kn.2) ->
  match primary_plan pl with
  | PointLookup _ => False
  | IndexScan p i pr => scan = execute_index_scan db ns et p i pr (plan_cursor pl) (Z.of_nat (window pl)) v
  | FullScan => scan = execute_full_scan db ns et (plan_cursor pl) (Z.of_nat (window pl)) v
  end ->
  (forall w1, w_kv w1 = w_kv w -> exists w2, scan env w1 = (Ok (omap (candidate_of db ns et (snapshot (w_kv w) v)) rows), w2) /\ idle w1 w2) ->
  exists r w', execute_with_options config db ns pl v env w = (Ok r, w') /\ same_store w w' /\
    page_is N m (projection pl) (query_limit pl) rows r /\ scanned_keys r = len rows.
Proof.
  intros Henv Hs Het Hlim Hcomp Hm Hlive Hscan Hrun. destruct (run_get_schema env w Henv Hs) as (w1 & E1 & Hw1).
  destruct (limit_eq pl Hlim) as (Hl1 & Hl2 & Hl3). unfold execute_with_options. rewrite Het.
  rewrite (bind_run _ _ _ _ _ _ E1). cbn [ok_or]. rewrite run_lift.
  assert (match residual_filter pl with Some e => x ← compile schema e; Ok (Some x) | None => Ok None end = Ok residual) as ->.
  { unfold compiled in Hcomp. destruct (residual_filter pl); [|by rewrite Hcomp]. by destruct Hcomp as (x & -> & ->). }
  rewrite run_lift, Hl2, Hl3, Hl1.
  destruct (Hrun w1) as (w2 & E2 & Hw2); [by destruct Hw1 as [-> _]|].
  destruct (page_of_rows db ns et (snapshot (w_kv w) v) N residual m (projection pl) (query_limit pl) rows
    (len (omap (candidate_of db ns et (snapshot (w_kv w) v)) rows))) as (rl & Efl & Hpage).
  { intros kn Hin. pose proof (Hlive kn Hin) as Hl. split; [done|]. destruct Hl as (d & _ & HN). rewrite HN. by eapply Hm. }
  exists (page_of (Z.of_nat (query_limit pl)) rl.1 rl.2 (len (omap (candidate_of db ns et (snapshot (w_kv w) v)) rows))), w2.
  split; [|split; [by etrans; [|apply idle_same_store]|split; [done|]]].
  2: { cbn [page_of scanned_keys]. rewrite (live_candidates db ns et _ N) by done. unfold len. by rewrite length_map. }
  destruct (primary_plan pl) as [|p i pr|]; [done|..]; subst scan;
    rewrite run_lift, (bind_run _ _ _ _ _ _ E2), Efl, run_lift; done.
Qed.
End Queries.

(** What a full scan returns, in terms of the rows of the type. *)
Lemma full_scan_page {S} `{FdbLaws S} `{HashIter} `{Cbor NodeData} `{Cbor StoredNode} `{Cbor EntitySchema} `{CelEngine}
    (env : Env) (config : ExecutorConfig) (db ns et : string) (schema : EntitySchema) (pl : ExecutionPlan) (v : option Z)
    (w : World S) (N : NodeMap) (residual : option CelExpression) (m : Props -> bool) :
  no_faults env -> serves db ns et schema w -> represents db ns et schema (snapshot (w_kv w) v) N ->
  plan_entity_type pl = et -> primary_plan pl = FullScan -> limits_ok config pl ->
  compiled schema pl residual -> filters N residual m ->
  (forall k, plan_cursor pl = Some k -> ble (data_prefix db ns et) k) ->
  exists r w', execute_with_options config db ns pl v env w = (Ok r, w') /\ same_store w w' /\
    page_is N m (projection pl) (query_limit config pl)
      (firstn (window config pl) (filter (after_key (plan_cursor pl)) (data_rows db ns et (snapshot (w_kv w) v)))) r.
Proof.
  intros Henv Hs HR Het Hp Hlim Hcomp Hm Hc.
  pose proof (data_rows_lists db ns et schema _ N HR) as HL.
  destruct (run_execute config db ns et schema env pl v w N residual m
    (execute_full_scan db ns et (plan_cursor pl) (Z.of_nat (window config pl)) v)
    (firstn (window config pl) (filter (after_key (plan_cursor pl)) (data_rows db ns et (snapshot (w_kv w) v)))))
    as (r & w' & E & Hw & Hpg & _); [done|done|done|done|done|done|..].
  - intros [k nid] [_ Hin]%elem_of_take_1%list_elem_of_filter. apply (ls_elem _ _ HL) in Hin as (Hv & _ & Hn).
    by apply (rep_live db ns et schema).
  - rewrite Hp. reflexivity.
  - intros w1 Hw1. destruct (run_full_scan env Henv db ns et schema v (plan_cursor pl) (Z.of_nat (window config pl)) w1 N) as (w2 & E2 & Hw2);
      [by rewrite Hw1|done|]. exists w2. split; [|done]. by rewrite E2, Hw1, window_pos.
  - exists r, w'. done.
Qed.

(** C17: A query that scans a whole type.  On a store that represents the
    map [N], it succeeds and returns, in the order of the node ids, the first
    [limit] nodes that pass the filter among the rows in its window, with their
    (projected) properties; [has_more] says whether the window has more of them;
    the nodes of the type are exactly the entries of the map. *)
Theorem full_scan_query {S} `{FdbLaws S} `{HashIter} `{Cbor NodeData} `{Cbor StoredNode} `{Cbor EntitySchema} `{CelEngine}
    (env : Env) (config : ExecutorConfig) (db ns et : string) (schema : EntitySchema) (pl : ExecutionPlan) (v : option Z)
    (w : World S) (N : NodeMap) (residual : option CelExpression) (m : Props -> bool) :
  no_faults env -> serves db ns et schema w -> represents db ns et schema (snapshot (w_kv w) v) N ->
  plan_entity_type pl = et -> primary_plan pl = FullScan -> limits_ok config pl ->
  compiled schema pl residual -> filters N residual m ->
  (forall k, plan_cursor pl = Some k -> ble (data_prefix db ns et) k) ->
  exists rows r w',
    lists rows (is_node db ns et N) /\
    execute_with_options config db ns pl v env w = (Ok r, w') /\ same_store w w' /\
    page_is N m (projection pl) (query_limit config pl) (firstn (window config pl) (filter (after_key (plan_cursor pl)) rows)) r.
Proof.
  intros Henv Hs HR Het Hp Hlim Hcomp Hm Hc. exists (data_rows db ns et (snapshot (w_kv w) v)).
  edestruct (full_scan_page env config db ns et schema pl v w N residual m) as (r & w' & E & Hw & Hpg); [done..|].
  exists r, w'. split; [|done]. by apply (data_rows_lists db ns et schema).
Qed.

Lemma id_str_inj nid nid' : length nid = 9%nat -> length nid' = 9%nat -> id_str nid = id_str nid' -> nid = nid'.
Proof.
  intros Hl Hl' E. rewrite <- (to_from_bytes nid Hl), <- (to_from_bytes nid' Hl'). f_equal.
  assert (inl (NodeIds.from_bytes nid) = (inl (NodeIds.from_bytes nid') : NodeId + ParseIdError)); [|congruence].
  rewrite <- !from_str_to_string by apply from_bytes_ok. unfold id_str in E. by rewrite E.
Qed.

Lemma sorted_lookup_lt (l : list (bytes * bytes)) i j x y :
  StronglySorted (fun x y => blt x.1 y.1) l -> l !! i = Some x -> l !! j = Some y -> (i < j)%nat -> blt x.1 y.1.
Proof.
  intros Hs. revert i j. induction Hs as [|z l _ IH Hz]; intros i j Hi Hj Hlt; [done|].
  destruct j as [|j]; [lia|]. destruct i as [|i]; cbn in Hi, Hj.
  - injection Hi as ->. rewrite Forall_forall in Hz. apply Hz. by eapply list_elem_of_lookup_2.
  - eapply IH; [done|done|lia].
Qed.

Lemma sorted_firstn n (l : list (bytes * bytes)) :
  StronglySorted (fun x y => blt x.1 y.1) l -> StronglySorted (fun x y => blt x.1 y.1) (firstn n l).
Proof.
  intros Hs. revert n. induction Hs as [|z l _ IH Hz]; intros [|n]; try constructor; [apply IH|].
  apply Forall_forall. intros y Hy%elem_of_take_1. rewrite Forall_forall in Hz. by apply Hz.
Qed.

(** Paging through a full scan loses nodes.  When a page reports more
    results, its cursor is the key of the first node that is not on the page, and
    the page that follows starts after that key: there is a node that passes the
    filter and is on neither page. *)
Theorem page_cursor_skips_node {S} `{FdbLaws S} `{HashIter} `{Cbor NodeData} `{Cbor StoredNode} `{Cbor EntitySchema} `{CelEngine}
    (env : Env) (config : ExecutorConfig) (db ns et : string) (schema : EntitySchema) (pl : ExecutionPlan) (v : option Z)
    (w : World S) (N : NodeMap) (residual : option CelExpression) (m : Props -> bool) :
  no_faults env -> serves db ns et schema w -> represents db ns et schema (snapshot (w_kv w) v) N ->
  plan_entity_type pl = et -> primary_plan pl = FullScan -> limits_ok config pl -> (0 < query_limit config pl)%nat ->
  compiled schema pl residual -> filters N residual m ->
  (forall k, plan_cursor pl = Some k -> ble (data_prefix db ns et) k) ->
  exists r w1, execute_with_options config db ns pl v env w = (Ok r, w1) /\
    (has_more r = true ->
     exists c nid props r2 w2,
       cursor r = Some c /\ N nid = Some props /\ m props = true /\ after (plan_cursor pl) (node_key db ns et nid) /\
       execute_with_options config db ns (with_cursor pl c) v env w = (Ok r2, w2) /\
       id_str nid ∉ map sn_id (nodes r) /\ id_str nid ∉ map sn_id (nodes r2)).
Proof.
  intros Henv Hs HR Het Hp Hlim Hpos Hcomp Hm Hc.
  destruct (full_scan_page env config db ns et schema pl v w N residual m) as (r & w1 & E & _ & Hpg); [done..|].
  exists r, w1. split; [done|]. intros Hmore. destruct Hpg as [Hids _ Hmo Hcur].
  set (t := snapshot (w_kv w) v) in *. set (rows := data_rows db ns et t) in *.
  pose proof (data_rows_lists db ns et schema t N HR) as HL. fold rows in HL.
  set (hits := filter (fun kn : bytes * bytes => m (props_of (N kn.2)) = true) (firstn (window config pl) (filter (after_key (plan_cursor pl)) rows))) in *.
  assert (Hel : forall kn, kn ∈ hits -> m (props_of (N kn.2)) = true /\ after (plan_cursor pl) kn.1 /\ is_node db ns et N kn.1 kn.2).
  { intros [k nid] [Hmm [Ha Hin]%elem_of_take_1%list_elem_of_filter]%list_elem_of_filter. split; [done|]. split; [done|]. by apply (ls_elem _ _ HL). }
  rewrite Hmo in Hmore. apply Nat.ltb_lt in Hmore. destruct (lookup_lt_is_Some_2 hits _ Hmore) as [[k nid] Hx].
  rewrite Hx in Hcur. destruct (Nat.eqb_spec (query_limit config pl) 0) as [|_]; [lia|]. cbn in Hcur.
  destruct (Hel (k, nid)) as (Hmx & Hax & Hv & Hk & [props HN]); [by eapply list_elem_of_lookup_2|]. cbn [fst snd] in *. subst k.
  destruct (full_scan_page env config db ns et schema (with_cursor pl (node_key db ns et nid)) v w N residual m)
    as (r2 & w2 & E2 & _ & Hpg2); [done|done|done|done|done|by destruct Hlim; split|done|done|..].
  { intros k [= <-]. rewrite node_key_eq. apply ble_app_r. }
  exists (node_key db ns et nid), nid, props, r2, w2. rewrite HN in Hmx. repeat (split; [done|]). split.
  - rewrite Hids. intros ([k' nid'] & Eid & (j & Hj & Hlt)%elem_of_take)%list_elem_of_fmap.
    destruct (Hel (k', nid')) as (_ & _ & Hv' & Hk' & _); [by eapply list_elem_of_lookup_2|]. cbn [fst snd] in *.
    apply id_str_inj in Eid as <-; [|apply Hv|apply Hv']. subst k'.
    apply (irreflexivity blt (node_key db ns et nid)).
    apply (sorted_lookup_lt hits j (query_limit config pl) (node_key db ns et nid, nid) (node_key db ns et nid, nid)); [|done..].
    apply sorted_filter, sorted_firstn, sorted_filter, HL.
  - rewrite (pg_ids _ _ _ _ _ _ Hpg2). cbn [plan_cursor with_cursor].
    intros ([k' nid'] & Eid & [_ [Ha Hin]%elem_of_take_1%list_elem_of_filter]%elem_of_take_1%list_elem_of_filter)%list_elem_of_fmap.
    apply (ls_elem _ _ HL) in Hin as (Hv' & -> & _). cbn [snd] in Eid.
    apply id_str_inj in Eid as <-; [|apply Hv|apply Hv']. by apply (irreflexivity blt (node_key db ns et nid)).
Qed.

(** What an index scan returns, in terms of the rows of its range. *)
Lemma index_scan_page {S} `{FdbLaws S} `{HashIter} `{Cbor NodeData} `{Cbor StoredNode} `{Cbor EntitySchema} `{CelEngine}
    (env : Env) (config : ExecutorConfig) (db ns et : string) (schema : EntitySchema) (pl : ExecutionPlan) (v : option Z)
    (w : World S) (N : NodeMap) (residual : option CelExpression) (m : Props -> bool)
    (p : string) (d : PropertyDef) (pr : IndexPredicate) :
  no_faults env -> serves db ns et schema w -> represents db ns et schema (snapshot (w_kv w) v) N ->
  plan_entity_type pl = et -> primary_plan pl = IndexScan p (index d) pr -> limits_ok config pl ->
  compiled schema pl residual -> filters N residual m ->
  is_indexed_by schema p d -> (forall vs, pr <> InList vs) ->
  (forall k, plan_cursor pl = Some k -> ble (index_prefix db ns et p d ++ scan_start pr) k) ->
  exists r w', execute_with_options config db ns pl v env w = (Ok r, w') /\ same_store w w' /\
    page_is N m (projection pl) (query_limit config pl) (firstn (window config pl) (filter (after_key (plan_cursor pl))
      (index_rows (snapshot (w_kv w) v) d (index_prefix db ns et p d ++ scan_start pr) (index_prefix db ns et p d ++ scan_end pr)))) r.
Proof.
  intros Henv Hs HR Het Hp Hlim Hcomp Hm Hd Hin Hc. set (t := snapshot (w_kv w) v) in *.
  set (rows := index_rows t d (index_prefix db ns et p d ++ scan_start pr) (index_prefix db ns et p d ++ scan_end pr)).
  destruct (run_execute config db ns et schema env pl v w N residual m
    (execute_index_scan db ns et p (index d) pr (plan_cursor pl) (Z.of_nat (window config pl)) v)
    (firstn (window config pl) (filter (after_key (plan_cursor pl)) rows)))
    as (r & w' & E & Hw' & Hpg & _); [done|done|done|done|done|done|..].
  - intros kn [_ Hk]%elem_of_take_1%list_elem_of_filter.
    destruct (index_rows_valid db ns et schema t N p d _ _ kn HR Hd Hk) as [Hv Hs']. by apply (rep_live db ns et schema).
  - by rewrite Hp.
  - intros w1 Hw1. destruct (run_index_scan env Henv db ns et schema v p d pr (plan_cursor pl) (Z.of_nat (window config pl)) w1 N)
      as (w2 & E2 & Hw2); [by rewrite Hw1|done..|]. exists w2. split; [|done]. by rewrite E2, Hw1, window_pos.
  - exists r, w'. done.
Qed.


(** An equality scan of an indexed text is a prefix scan.  The rows of the
    query [p == s] are those whose value, followed by the node id, extends [s] by a
    byte other than 0xFF, so every node whose text starts with [s] is among them. *)
Theorem string_equality_scans_prefix {S} `{FdbLaws S} `{HashIter} `{Cbor NodeData} `{Cbor StoredNode} `{Cbor EntitySchema} `{CelEngine}
    (env : Env) (config : ExecutorConfig) (db ns et : string) (schema : EntitySchema) (pl : ExecutionPlan) (v : option Z)
    (w : World S) (N : NodeMap) (p s : string) (d : PropertyDef) :
  no_faults env -> serves db ns et schema w -> represents db ns et schema (snapshot (w_kv w) v) N ->
  plan_entity_type pl = et -> primary_plan pl = IndexScan p (index d) (Equals (PvString s)) -> limits_ok config pl ->
  residual_filter pl = None -> plan_cursor pl = None -> is_indexed_by schema p d ->
  exists rows r w',
    lists rows (index_node db ns et N p d (fun enc nid => exists x, enc ++ index_tail (index d) nid = sbytes s ++ x /\ not_ff x)) /\
    (forall nid props s', valid_nid nid -> N nid = Some props -> props !! p = Some (VString (s ++ s')) -> not_ff (sbytes s') ->
       (row_key (Sub.namespace db ns) et p d (sbytes (s ++ s')) nid, nid) ∈ rows) /\
    execute_with_options config db ns pl v env w = (Ok r, w') /\
    page_is N (fun _ => true) (projection pl) (query_limit config pl) (firstn (window config pl) rows) r.
Proof.
  intros Henv Hs HR Het Hp Hlim Hres Hcur Hd.
  destruct (index_scan_page env config db ns et schema pl v w N None (fun _ => true) p d (Equals (PvString s)))
    as (r & w' & E & _ & Hpg); [done..| |done|done|done| |].
  { unfold compiled. by rewrite Hres. }
  { by rewrite Hcur. }
  rewrite Hcur in Hpg. rewrite (filter_all_true (after_key None)) in Hpg by done. eexists _, r, w'.
  assert (HL : lists (index_rows (snapshot (w_kv w) v) d (index_prefix db ns et p d ++ scan_start (Equals (PvString s)))
      (index_prefix db ns et p d ++ scan_end (Equals (PvString s))))
    (index_node db ns et N p d (fun enc nid => exists x, enc ++ index_tail (index d) nid = sbytes s ++ x /\ not_ff x))).
  { apply (index_rows_lists db ns et schema); [done..|]. intros nid enc _ _. rewrite row_key_prefix.
    cbn [scan_start scan_end encode_predicate_value predicate_to_value encode_value_for_index]. rewrite (app_assoc (index_prefix _ _ _ _ _) (sbytes s)).
    rewrite in_scan_prefix. split.
    - intros (x & Hx & Hf). rewrite <- app_assoc in Hx. apply app_inv_head in Hx. eauto.
    - intros (x & -> & Hf). exists x. by rewrite <- app_assoc. }
  split; [exact HL|]. split; [|done]. intros nid props s' Hv HN Hps Hf. apply (ls_elem _ _ HL). exists (sbytes (s ++ s')).
  split; [done|]. split; [unfold holds; rewrite HN; cbn; by rewrite Hps|]. split; [done|].
  exists (sbytes s' ++ index_tail (index d) nid). rewrite sbytes_app, <- app_assoc. split; [done|].
  destruct (sbytes s') as [|x l]; [|done]. by apply index_tail_not_ff.
Qed.
