(* ===== verification/TermQuery.v ===== *)
(** * Term expressions: what the fast path returns

    An equality expression answered from the term index ([Executor],
    [execute_term_expression]) returns exactly the matching nodes, page by page.
    The document-frequency counters decide how many postings are fetched, so the
    answer is complete because the counters are exact. *)

From S2P Require Import Prelude Bytes Text Errors Types Encoding Subspace SchemaTypes Fdb MemFdb Cdc Ids Index TermIndex Namespace Jobs SchemaRegistry Node NodeAtomic NodeSpec Predicate Planner Cel Executor ExecutorSpec.

(** ** Matching *)

Definition matches_term (props : Props) (tp : TermPredicate) : Prop :=
  exists e, encode_term_value (tp_value tp) = Ok (Some e) /\ has_term props (mkTermKey (tp_field tp) e).

Definition matches_group (props : Props) (g : list TermPredicate) : Prop := Forall (matches_term props) g.

(** *** Templates *)

Definition template_fields : list string := ["show"; "scheme"; "shot"; "sequence"; "task"; "label"].

(** The terms on template fields are texts without the separator. *)
Definition template_text (s : string) : Prop := s <> "" /\ Byte.x7c ∉ sbytes s.
Definition plain_group (g : list TermPredicate) : Prop :=
  Forall (fun tp => tp_field tp ∈ template_fields -> exists s, tp_value tp = VString s /\ template_text s) g.

(** The template fields of a node are texts where they can be searched. *)
Definition text_fields (props : Props) : Prop :=
  forall f v, f ∈ template_fields -> props !! f = Some v -> (exists s, v = VString s) \/ encode_term_value v = Ok None.

Lemma group_strings_spec g values0 values :
  group_strings values0 g = Some values ->
  (forall f s, values0 !! f = Some s -> values !! f = Some s) /\
  (forall tp s, tp ∈ g -> tp_value tp = VString s -> values !! tp_field tp = Some s) /\
  (forall f s, values !! f = Some s -> values0 !! f = Some s \/ exists tp, tp ∈ g /\ tp_field tp = f /\ tp_value tp = VString s).
Proof.
  revert values0. induction g as [|tp g IH]; intros values0; cbn [group_strings].
  { intros [= ->]. split; [done|]. split; [by intros tp s ?%not_elem_of_nil|]. auto. }
  assert (Hcons : forall v0, group_strings v0 g = Some values -> (forall f s, values0 !! f = Some s -> v0 !! f = Some s) ->
    (forall s, tp_value tp = VString s -> v0 !! tp_field tp = Some s) ->
    (forall f s, v0 !! f = Some s -> values0 !! f = Some s \/ tp_field tp = f /\ tp_value tp = VString s) ->
    (forall f s, values0 !! f = Some s -> values !! f = Some s) /\
    (forall tp' s, tp' ∈ tp :: g -> tp_value tp' = VString s -> values !! tp_field tp' = Some s) /\
    (forall f s, values !! f = Some s -> values0 !! f = Some s \/ exists tp', tp' ∈ tp :: g /\ tp_field tp' = f /\ tp_value tp' = VString s)).
  { intros v0 (H1 & H2 & H3)%IH Ha Hb Hc. split; [auto|]. split.
    - intros tp' s [->|Hin]%elem_of_cons Hv; [by apply H1, Hb|by apply H2].
    - intros f s [Hv|(tp' & Hin & ? & ?)]%H3; [destruct (Hc f s Hv) as [?|[? ?]]|]; [by left|..].
      + right. exists tp. split; [left|done].
      + right. exists tp'. split; [by right|done]. }
  destruct (tp_value tp) as [s| | | | | |] eqn:Ev; try (intros E; apply Hcons in E; [exact E|done|done|auto]; fail).
  destruct (values0 !! tp_field tp) as [s'|] eqn:Ef.
  - destruct (String.eqb_spec s' s) as [->|]; [|done]. intros E. apply Hcons in E; [exact E|done| |auto]. by intros s' [= ->].
  - intros E. apply Hcons in E; [exact E|..].
    + intros f s' Hf. rewrite lookup_insert_ne; [done|]. intros <-. congruence.
    + intros s' [= ->]. by rewrite lookup_insert_eq.
    + intros f s' Hf. destruct (decide (tp_field tp = f)) as [<-|Hne]; [|rewrite lookup_insert_ne in Hf by done; auto].
      rewrite lookup_insert_eq in Hf. injection Hf as ->. auto.
Qed.

(** A field of a node that is found under a text is that text. *)
Lemma has_text props f s :
  text_fields props -> f ∈ template_fields -> s <> "" ->
  has_term props (mkTermKey f (sbytes s)) <-> extract_string props f = Some s.
Proof.
  intros Ht Hf Hs. unfold has_term, extract_string. cbn [field encoded_value].
  assert (Htpl : mkTermKey f (sbytes s) ∉ template_terms props).
  { intros [E|E]%template_terms_field; cbn [field] in E; subst f; unfold template_fields in Hf; set_solver. }
  split.
  - intros [(v & Hp & E)|?]; [|done]. rewrite Hp. destruct (Ht f v Hf Hp) as [[s' ->]|Hn]; [|congruence].
    cbn in E. injection E as E%(f_equal bstr). rewrite !bstr_sbytes in E. subst s'. by destruct (String.eqb_spec s "").
  - intros E. left. destruct (props !! f) as [v|]; [|done]. exists v. split; [done|]. destruct v as [s'| | | | | |]; try done.
    destruct (String.eqb s' ""); by simplify_eq/=.
Qed.

Lemma matches_text props tp s :
  text_fields props -> tp_field tp ∈ template_fields -> tp_value tp = VString s -> s <> "" ->
  matches_term props tp <-> extract_string props (tp_field tp) = Some s.
Proof.
  intros Ht Hf Hv Hs. unfold matches_term. rewrite Hv, <- (has_text props _ s) by done. cbn. naive_solver.
Qed.

(** *** The separator *)

Definition seps (l : bytes) : nat := count_occ byte_eq_dec l Byte.x7c.

Lemma seps_none l : seps l = 0%nat <-> Byte.x7c ∉ l.
Proof. unfold seps. rewrite <- count_occ_not_In. by rewrite list_elem_of_In. Qed.

Fixpoint bars (l : list bytes) : bytes :=
  match l with [] => [] | [x] => x | x :: l' => x ++ Byte.x7c :: bars l' end.

Lemma seps_bars l : l <> [] -> seps (bars l) = (length l - 1 + foldr (fun x n => seps x + n) 0 l)%nat.
Proof.
  unfold seps. induction l as [|x [|y l] IH]; [done|cbn; lia|]. intros _. specialize (IH ltac:(done)).
  cbn [bars]. rewrite count_occ_app. cbn [count_occ]. destruct (byte_eq_dec Byte.x7c Byte.x7c); [|done].
  cbn [bars] in IH. rewrite IH. cbn [length foldr]. lia.
Qed.

Lemma split_bars l : l <> [] -> Forall (fun x => Byte.x7c ∉ x) l -> split_on Byte.x7c (bars l) = l.
Proof.
  induction l as [|x [|y l] IH]; [done|..]; intros _ Hf; apply Forall_cons in Hf as [Hx Hf]; cbn [bars].
  - by apply split_on_none.
  - rewrite split_on_app by done. f_equal. by apply IH.
Qed.

(** Joined texts are equal only if the parts are, when the parts of one side do
    not contain the separator. *)
Lemma bars_inj l l' :
  length l = length l' -> l <> [] -> Forall (fun x => Byte.x7c ∉ x) l -> bars l = bars l' -> l = l'.
Proof.
  intros Hlen Hne Hl E. assert (Hne' : l' <> []) by (by destruct l, l').
  assert (Hl' : Forall (fun x => Byte.x7c ∉ x) l').
  { pose proof (seps_bars l Hne) as H1. pose proof (seps_bars l' Hne') as H2. rewrite <- E, H1, Hlen in H2.
    assert (H0 : foldr (fun x n => (seps x + n)%nat) 0%nat l = 0%nat).
    { clear -Hl. induction Hl as [|x l Hx _ IH]; [done|]. cbn. rewrite IH. apply seps_none in Hx. lia. }
    assert (Hz : foldr (fun x n => (seps x + n)%nat) 0%nat l' = 0%nat) by lia. clear -Hz.
    induction l' as [|x l' IH]; constructor; cbn in Hz; [apply seps_none|apply IH]; lia. }
  rewrite <- (split_bars l Hne Hl), <- (split_bars l' Hne' Hl'). by rewrite E.
Qed.

Lemma sbytes_bar s : sbytes ("|" ++ s) = Byte.x7c :: sbytes s.
Proof. by rewrite sbytes_app. Qed.

(** *** The rewritten group *)

Lemma bars_texts vs vs' :
  length vs = length vs' -> vs <> [] -> Forall template_text vs -> bars (map sbytes vs) = bars (map sbytes vs') -> vs = vs'.
Proof.
  intros Hl Hne Ht E. apply bars_inj in E.
  - apply (f_equal (map bstr)) in E. rewrite !map_map in E.
    rewrite !(map_ext (fun s => bstr (sbytes s)) id) in E by apply bstr_sbytes. by rewrite !map_id in E.
  - by rewrite !length_map.
  - by destruct vs.
  - apply Forall_map. eapply Forall_impl; [exact Ht|]. by intros s [_ ?].
Qed.

Lemma shots_bars show scheme shot sequence :
  sbytes (show ++ "|" ++ scheme ++ "|" ++ shot ++ "|" ++ sequence) = bars (map sbytes [show; scheme; shot; sequence]).
Proof. cbn [map bars]. by rewrite !sbytes_app. Qed.

Lemma full_bars show scheme shot sequence task label :
  sbytes ((show ++ "|" ++ scheme ++ "|" ++ shot ++ "|" ++ sequence) ++ "|" ++ task ++ "|" ++ label)
    = bars (map sbytes [show; scheme; shot; sequence; task; label]).
Proof. cbn [map bars]. rewrite !sbytes_app. by rewrite <- !app_assoc. Qed.

Lemma template_shots props show scheme shot sequence :
  no_template_fields props -> Forall template_text [show; scheme; shot; sequence] ->
  has_term props (mkTermKey TEMPLATE_FIELD_SHOW_SCHEME_SHOT_SEQUENCE
    (sbytes (show ++ "|" ++ scheme ++ "|" ++ shot ++ "|" ++ sequence))) <->
  extract_string props "show" = Some show /\ extract_string props "scheme" = Some scheme /\
  extract_string props "shot" = Some shot /\ extract_string props "sequence" = Some sequence.
Proof.
  intros [Hn _] Ht. unfold has_term. cbn [field encoded_value]. rewrite Hn. unfold template_terms. split.
  - intros [(v & [=] & _)|Hin].
    destruct (extract_string props "show") as [s1|], (extract_string props "scheme") as [s2|],
      (extract_string props "shot") as [s3|], (extract_string props "sequence") as [s4|]; try by apply not_elem_of_nil in Hin.
    apply elem_of_cons in Hin as [E|Hin].
    + injection E as E. rewrite !shots_bars in E. apply bars_texts in E; [|done|done|done]. by injection E as -> -> -> ->.
    + destruct (extract_string props "task"), (extract_string props "label"); set_solver.
  - intros (-> & -> & -> & ->). right. left.
Qed.

Lemma template_full props show scheme shot sequence task label :
  no_template_fields props -> Forall template_text [show; scheme; shot; sequence; task; label] ->
  has_term props (mkTermKey TEMPLATE_FIELD_SHOW_SCHEME_SHOT_SEQUENCE_TASK_LABEL
    (sbytes ((show ++ "|" ++ scheme ++ "|" ++ shot ++ "|" ++ sequence) ++ "|" ++ task ++ "|" ++ label))) <->
  extract_string props "show" = Some show /\ extract_string props "scheme" = Some scheme /\
  extract_string props "shot" = Some shot /\ extract_string props "sequence" = Some sequence /\
  extract_string props "task" = Some task /\ extract_string props "label" = Some label.
Proof.
  intros [_ Hn] Ht. unfold has_term. cbn [field encoded_value]. rewrite Hn. unfold template_terms. split.
  - intros [(v & [=] & _)|Hin].
    destruct (extract_string props "show") as [s1|], (extract_string props "scheme") as [s2|],
      (extract_string props "shot") as [s3|], (extract_string props "sequence") as [s4|]; try by apply not_elem_of_nil in Hin.
    apply elem_of_cons in Hin as [E|Hin]; [done|].
    destruct (extract_string props "task") as [s5|], (extract_string props "label") as [s6|]; try by apply not_elem_of_nil in Hin.
    apply list_elem_of_singleton in Hin. injection Hin as E. rewrite !full_bars in E.
    apply bars_texts in E; [|done|done|done]. by injection E as -> -> -> -> -> ->.
  - intros (-> & -> & -> & -> & -> & ->). right. right. left.
Qed.

(** The terms of a plain group that the rewriting consumes are the equalities of
    the fields with their values. *)
Lemma consumed_matches props g values fields :
  text_fields props -> plain_group g -> group_strings ∅ g = Some values -> fields ⊆ template_fields ->
  (forall f, f ∈ fields -> exists s, values !! f = Some s) ->
  matches_group props g <->
  (forall f s, f ∈ fields -> values !! f = Some s -> extract_string props f = Some s) /\
  matches_group props (List.filter (fun t => negb (bool_decide (tp_field t ∈ fields))) g).
Proof.
  intros Ht Hp Hg Hsub Hval. destruct (group_strings_spec g ∅ values Hg) as (_ & Hv & Hback).
  unfold matches_group, plain_group in *. rewrite !Forall_forall. rewrite Forall_forall in Hp.
  assert (Hmt : forall tp s, tp ∈ g -> tp_field tp ∈ fields -> values !! tp_field tp = Some s ->
    (matches_term props tp <-> extract_string props (tp_field tp) = Some s)).
  { intros tp s Hin Hf Hs. destruct (Hp tp Hin) as (s' & Es & Hne & _); [by apply Hsub|].
    rewrite (Hv tp s' Hin Es) in Hs. injection Hs as ->. by apply matches_text; [|apply Hsub|..]. }
  assert (Hfil : forall tp, tp ∈ List.filter (fun t => negb (bool_decide (tp_field t ∈ fields))) g <-> tp ∈ g /\ tp_field tp ∉ fields).
  { intros tp. rewrite (list_elem_of_In (List.filter _ _)), filter_In, <- list_elem_of_In, negb_true_iff, bool_decide_eq_false. done. }
  split.
  - intros Hm. split; [|intros tp [? _]%Hfil; auto].
    intros f s Hf Hs. destruct (Hback f s Hs) as [E|(tp & Hin & <- & Es)]; [by rewrite lookup_empty in E|].
    apply (Hmt tp s); auto.
  - intros [Hm1 Hm2] tp Hin. destruct (decide (tp_field tp ∈ fields)) as [Hf|Hf]; [|by apply Hm2, Hfil].
    destruct (Hval _ Hf) as [s Hs]. apply (Hmt tp s); auto.
Qed.

Lemma group_texts g values f s :
  plain_group g -> group_strings ∅ g = Some values -> f ∈ template_fields -> values !! f = Some s -> template_text s.
Proof.
  intros Hp Hg Hf Hs. destruct (group_strings_spec g ∅ values Hg) as (_ & _ & Hback).
  destruct (Hback f s Hs) as [E|(tp & Hin & <- & Es)]; [by rewrite lookup_empty in E|].
  unfold plain_group in Hp. rewrite Forall_forall in Hp. destruct (Hp tp Hin Hf) as (s' & Es' & Ht). congruence.
Qed.

Lemma matches_string props f s : matches_term props (mkTermPredicate f (VString s)) <-> has_term props (mkTermKey f (sbytes s)).
Proof. unfold matches_term. cbn. naive_solver. Qed.

Lemma shots_case props g values show scheme shot sequence :
  no_template_fields props -> text_fields props -> plain_group g -> group_strings ∅ g = Some values ->
  values !! "show" = Some show -> values !! "scheme" = Some scheme -> values !! "shot" = Some shot ->
  values !! "sequence" = Some sequence -> Forall template_text [show; scheme; shot; sequence] ->
  matches_group props
    (mkTermPredicate TEMPLATE_FIELD_SHOW_SCHEME_SHOT_SEQUENCE (VString (show ++ "|" ++ scheme ++ "|" ++ shot ++ "|" ++ sequence))
     :: List.filter (fun t => negb (bool_decide (tp_field t ∈ ["show"; "scheme"; "shot"; "sequence"]))) g) <-> matches_group props g.
Proof.
  intros Hn Ht Hp Hg E1 E2 E3 E4 Htx.
  rewrite (consumed_matches props g values ["show"; "scheme"; "shot"; "sequence"]); [|done..| |].
  2: { unfold template_fields. set_solver. }
  2: { intros f Hf. set_unfold. naive_solver. }
  unfold matches_group at 1. rewrite Forall_cons, matches_string, template_shots by done.
  apply and_iff_compat_r. split.
  - intros (? & ? & ? & ?) f s Hf Hs. set_unfold. naive_solver congruence.
  - intros Hall. repeat split; apply Hall; (done || set_solver).
Qed.

(** Rewriting a group to a template term does not change what it matches. *)
Lemma rewrite_matches props g :
  no_template_fields props -> text_fields props -> plain_group g ->
  matches_group props (rewrite_template_term_group g) <-> matches_group props g.
Proof.
  intros Hn Ht Hp. unfold rewrite_template_term_group. destruct (group_strings ∅ g) as [values|] eqn:Hg; [|done].
  pose proof (fun f s Hf Hs => group_texts g values f s Hp Hg Hf Hs) as Htx.
  destruct (values !! "show") as [show|] eqn:E1, (values !! "scheme") as [scheme|] eqn:E2, (values !! "shot") as [shot|] eqn:E3,
    (values !! "sequence") as [sequence|] eqn:E4; try done.
  assert (T1 := Htx "show" show ltac:(compute_done) E1). assert (T2 := Htx "scheme" scheme ltac:(compute_done) E2).
  assert (T3 := Htx "shot" shot ltac:(compute_done) E3). assert (T4 := Htx "sequence" sequence ltac:(compute_done) E4).
  destruct (values !! "task") as [task|] eqn:E5; [destruct (values !! "label") as [label|] eqn:E6|].
  - assert (T5 := Htx "task" task ltac:(compute_done) E5). assert (T6 := Htx "label" label ltac:(compute_done) E6).
    rewrite (consumed_matches props g values template_fields); [|done..| |].
    2: { done. }
    2: { intros f Hf. unfold template_fields in Hf. set_unfold. naive_solver. }
    unfold matches_group at 1. rewrite Forall_cons, matches_string, template_full by (done || by rewrite ?Forall_cons, Forall_nil).
    apply and_iff_compat_r. unfold template_fields. split.
    + intros (? & ? & ? & ? & ? & ?) f s Hf Hs. set_unfold. naive_solver congruence.
    + intros Hall. repeat split; apply Hall; (done || set_solver).
  - apply (shots_case _ _ values); (done || by rewrite ?Forall_cons, Forall_nil).
  - apply (shots_case _ _ values); (done || by rewrite ?Forall_cons, Forall_nil).
Qed.

(** ** Sorting *)

Lemma insert_by_key_perm {A} (key : A -> Z) x l : insert_by_key key x l ≡ₚ x :: l.
Proof.
  induction l as [|y l IH]; [done|]. cbn. destruct (key x <=? key y); [done|]. rewrite IH. apply Permutation_swap.
Qed.
Lemma sort_by_key_perm {A} (key : A -> Z) (l : list A) : sort_by_key key l ≡ₚ l.
Proof. unfold sort_by_key. induction l as [|x l IH]; [done|]. cbn [foldr]. by rewrite insert_by_key_perm, IH. Qed.

#[export] Instance ble_total : Total ble.
Proof. intros x y. unfold ble. rewrite (lex_antisym x y). destruct (lex x y); simpl; auto. Qed.
#[export] Instance ble_transitive : Transitive ble.
Proof. intros x y z. apply ble_trans. Qed.

Lemma sort_bytes_sorted l : NoDup l -> StronglySorted blt (sort_bytes l).
Proof.
  intros Hn. unfold sort_bytes. pose proof (StronglySorted_merge_sort ble l) as Hs.
  assert (Hn' : NoDup (merge_sort ble l)) by (by rewrite merge_sort_Permutation). revert Hs Hn'.
  generalize (merge_sort ble l). clear. intros l Hs. induction Hs as [|x l Hl IH Hx]; [constructor|].
  intros [Hnin Hn]%NoDup_cons. constructor; [auto|]. rewrite Forall_forall in Hx |- *. intros y Hy.
  specialize (Hx y Hy). apply ble_lt_or_eq in Hx as [?| ->]; [done|]. done.
Qed.

Section Sets.
Context `{HashIter}.
Implicit Types (X : gset bytes).

Lemma elem_of_hs_iter X x : x ∈ hs_iter X <-> x ∈ X.
Proof.
  unfold hs_iter. rewrite list_elem_of_fmap. split.
  - intros ([y []] & -> & Hy%elem_of_hm_iter). destruct X as [m]. exact Hy.
  - intros Hx. exists (x, ()). split; [done|]. apply elem_of_hm_iter. destruct X as [m]. exact Hx.
Qed.

Lemma NoDup_hs_iter X : NoDup (hs_iter X).
Proof. apply NoDup_hm_iter. Qed.

Lemma insert_capped_all cap X ids :
  Z.of_nat (size (X ∪ list_to_set ids)) < cap -> insert_capped cap X ids = X ∪ list_to_set ids.
Proof.
  revert X. induction ids as [|x ids IH]; intros X Hc; cbn [insert_capped list_to_set] in *; [set_solver|].
  assert (size X <= size (X ∪ ({[x]} ∪ list_to_set ids)))%nat by (apply subseteq_size; set_solver).
  destruct (Z.leb_spec cap (Z.of_nat (size X))); [lia|].
  assert (HX : {[x]} ∪ X ∪ list_to_set ids = X ∪ ({[x]} ∪ list_to_set ids)) by set_solver.
  rewrite IH by (by rewrite HX). done.
Qed.
End Sets.

(** ** The term index of a represented store *)

Section Terms.
Context {S : Type} `{FdbLaws S} `{HashIter} `{Cbor NodeData}.
Context (env : Env) (Henv : no_faults env) (db ns et : string) (schema : EntitySchema).
Implicit Types (t : S) (nid : bytes) (N : NodeMap) (w : World S) (tp : TermPredicate).
Let sub := Sub.namespace db ns.

Lemma no_terms tm : ~ has_term ∅ tm.
Proof. rewrite <- elem_of_all_terms, all_terms_empty. apply not_elem_of_nil. Qed.

Lemma rep_term_nodes t N tm nid :
  represents db ns et schema t N -> nid ∈ term_nodes sub et t tm <-> valid_nid nid /\ has_term (props_of (N nid)) tm.
Proof.
  intros HR. rewrite elem_of_term_nodes. split.
  - intros [Hf Hs]. assert (Hv : valid_nid nid) by (by eapply (rp_postings _ _ _ _ _ _ HR)). split; [done|].
    apply (rp_terms _ _ _ _ _ _ HR nid Hv) in Hs. by rewrite elem_of_all_terms in Hs.
  - intros [Hv Ht]. split; [apply Hv|]. apply (rp_terms _ _ _ _ _ _ HR nid Hv). by apply elem_of_all_terms.
Qed.

Lemma rep_nine t N tm : represents db ns et schema t N -> nine_bytes sub et t tm.
Proof. intros HR nid Hin. apply (rep_term_nodes t N tm nid HR) in Hin as [[? _] _]. done. Qed.

(** The ids of the type. *)
Definition type_ids t : gset bytes := list_to_set (data_rows db ns et t).*2.

Lemma elem_of_type_ids t N nid :
  represents db ns et schema t N -> nid ∈ type_ids t <-> valid_nid nid /\ is_Some (N nid).
Proof.
  intros HR. unfold type_ids. rewrite elem_of_list_to_set, list_elem_of_fmap. split.
  - intros ([k x] & -> & Hin). apply (ls_elem _ _ (data_rows_lists db ns et schema t N HR)) in Hin as (? & _ & ?). done.
  - intros [Hv Hn]. exists (node_key db ns et nid, nid). split; [done|].
    by apply (ls_elem _ _ (data_rows_lists db ns et schema t N HR)).
Qed.

Lemma size_type_ids t : Z.of_nat (size (type_ids t)) <= doc_rows db ns et t.
Proof.
  unfold type_ids, doc_rows. rewrite length_keys_in.
  assert (size (list_to_set (data_rows db ns et t).*2 : gset bytes) <= length (data_rows db ns et t).*2)%nat as Hs.
  { generalize (data_rows db ns et t).*2. intros l. induction l as [|x l IH]; [done|]. cbn [list_to_set length].
    pose proof (size_union_alt ({[x]} : gset bytes) (list_to_set l)) as E. rewrite E, size_singleton.
    assert (size (list_to_set l ∖ {[x]} : gset bytes) <= size (list_to_set l : gset bytes))%nat by (apply subseteq_size; set_solver). lia. }
  rewrite length_fmap in Hs. unfold data_rows in Hs at 2. rewrite length_map in Hs. lia.
Qed.

Lemma term_rows_docs t N tm : represents db ns et schema t N -> term_rows sub et t tm <= doc_rows db ns et t.
Proof.
  intros HR. unfold term_rows. rewrite <- (length_map (drop (length (posting_prefix (Sub.index sub) et (field tm) (encoded_value tm))))).
  fold (term_nodes sub et t tm). unfold doc_rows. rewrite length_keys_in.
  apply inj_le. rewrite <- (length_map with_last9), <- (length_map snd).
  change (map with_last9 (kv_range t (data_prefix db ns et) (data_prefix db ns et ++ [Byte.xff]))) with (data_rows db ns et t).
  apply submseteq_length, NoDup_submseteq.
  - unfold term_nodes. apply NoDup_fmap_2_strong; [|apply NoDup_keys_in].
    intros k k' Hk Hk'. apply elem_of_keys_in in Hk as [(r & -> & _)%in_scan_prefix _], Hk' as [(r' & -> & _)%in_scan_prefix _].
    rewrite !drop_app_length. by intros ->.
  - intros nid [Hv Ht]%(rep_term_nodes t N tm nid HR). apply list_elem_of_fmap. exists (node_key db ns et nid, nid). split; [done|].
    apply (ls_elem _ _ (data_rows_lists db ns et schema t N HR)). split; [done|]. split; [done|].
    destruct (N nid); [done|]. by apply no_terms in Ht.
Qed.

(** *** Frequencies *)

(** What the counter of a term allows to conclude: all its postings fit in the
    fetch limit. *)
Definition covers t (df : Z) (tp : TermPredicate) : Prop :=
  forall e target cap, encode_term_value (tp_value tp) = Ok (Some e) -> 0 <= target -> doc_rows db ns et t < cap ->
    term_rows sub et t (mkTermKey (tp_field tp) e) <= estimate_posting_fetch_limit df target cap.

Definition searchable tp : Prop := exists e, encode_term_value (tp_value tp) = Ok (Some e).

Lemma estimate_covers df n target cap docs :
  0 <= n <= docs -> docs < cap -> docs < 2 ^ 60 -> 0 <= target -> (n = df \/ n = 0) ->
  n <= estimate_posting_fetch_limit df target cap.
Proof.
  intros Hn Hc Hb Ht Hdf. unfold estimate_posting_fetch_limit, usize_mul, U64_MAX.
  change ((2 ^ 64 - 1) / 8) with 2305843009213693951. destruct (Z.leb_spec 2305843009213693951 df); lia.
Qed.

Lemma run_document_frequency v tp w N :
  represents db ns et schema (snapshot (w_kv w) v) N -> doc_rows db ns et (snapshot (w_kv w) v) < 2 ^ 60 -> searchable tp ->
  exists o w', get_document_frequency_at_read_version db ns et (tp_field tp) (tp_value tp) v env w = (Ok o, w') /\ idle w w' /\
    covers (snapshot (w_kv w) v) (default (U64_MAX / 4) o) tp.
Proof.
  intros HR Hb [e He]. set (t := snapshot (w_kv w) v) in *.
  unfold get_document_frequency_at_read_version. rewrite He, run_lift. unfold read_count. mrun Henv. fold t.
  set (tm := mkTermKey (tp_field tp) e). pose proof (rp_df _ _ _ _ _ _ HR tm) as Hdf. cbn [field encoded_value tm] in Hdf.
  fold sub in Hdf. fold tm in Hdf. change (Sub.namespace db ns) with sub. rewrite Hdf. unfold count_row.
  pose proof (term_rows_docs t N tm HR) as Hle. assert (Hge : 0 <= term_rows sub et t tm) by (unfold term_rows; lia).
  assert (Hcov : forall df, term_rows sub et t tm = df \/ term_rows sub et t tm = 0 -> covers t df tp).
  { intros df Hd e' target cap He' Ht Hc. rewrite He in He'. injection He' as <-. fold tm.
    by eapply estimate_covers. }
  destruct (Z.eqb_spec (term_rows sub et t tm) 0) as [E0|E0].
  - eexists None, _. split; [reflexivity|]. split; [done|]. apply Hcov. by right.
  - rewrite length_be_bytes. cbn [Nat.eqb]. rewrite counter_value_be by lia. eexists (Some _), _. split; [reflexivity|].
    split; [done|]. apply Hcov. left. cbn. lia.
Qed.

Lemma run_term_frequencies v group w N :
  represents db ns et schema (snapshot (w_kv w) v) N -> doc_rows db ns et (snapshot (w_kv w) v) < 2 ^ 60 ->
  Forall searchable group ->
  exists terms w', term_frequencies db ns et group v env w = (Ok terms, w') /\ idle w w' /\
    terms.*2 = group /\ Forall (fun dt => covers (snapshot (w_kv w) v) dt.1 dt.2) terms.
Proof.
  intros HR Hb Hg. unfold term_frequencies. set (t := snapshot (w_kv w) v) in *.
  assert (Hgen : forall out w0, w_kv w0 = w_kv w -> Forall (fun dt => covers t dt.1 dt.2) out ->
    exists terms w', fold_m group (fun out tp =>
      df ← get_document_frequency_at_read_version db ns et (tp_field tp) (tp_value tp) v;
      mret (out ++ [(default (U64_MAX / 4) df, tp)])) out env w0 = (Ok terms, w') /\ idle w0 w' /\
      terms.*2 = out.*2 ++ group /\ Forall (fun dt => covers t dt.1 dt.2) terms).
  { induction Hg as [|tp group Htp _ IH]; intros out w0 Hw0 Hout; cbn [fold_m].
    { exists out, w0. by rewrite app_nil_r. }
    destruct (run_document_frequency v tp w0 N) as (o & w1 & E & Hw1 & Hcov); [by rewrite Hw0|by rewrite Hw0|done|].
    rewrite Hw0 in Hcov. fold t in Hcov.
    rewrite (bind_run _ _ env w0 (out ++ [(default (U64_MAX / 4) o, tp)]) w1) by (by rewrite (bind_run _ _ _ _ _ _ E)).
    destruct (IH (out ++ [(default (U64_MAX / 4) o, tp)]) w1) as (terms & w2 & E2 & Hw2 & Hs & Hc).
    - by destruct Hw1 as [-> _].
    - apply Forall_app. split; [done|]. by apply Forall_singleton.
    - exists terms, w2. split; [done|]. split; [by etrans|]. split; [|done].
      rewrite Hs, fmap_app, <- app_assoc. done. }
  apply (Hgen [] w eq_refl). constructor.
Qed.

(** *** Intersections *)

(** The nodes a term is found in, after the cursor. *)
Definition found N (a : option bytes) tp nid : Prop :=
  valid_nid nid /\ after a nid /\ matches_term (props_of (N nid)) tp.

Lemma run_postings v tp a df target cap w N :
  represents db ns et schema (snapshot (w_kv w) v) N -> searchable tp -> covers (snapshot (w_kv w) v) df tp ->
  0 <= target -> doc_rows db ns et (snapshot (w_kv w) v) < cap ->
  exists ids w', list_posting_node_ids_after_at_read_version db ns et (tp_field tp) (tp_value tp) a
      (Z.to_nat (estimate_posting_fetch_limit df target cap)) v env w = (Ok ids, w') /\ idle w w' /\
    forall nid, nid ∈ ids <-> found N a tp nid.
Proof.
  intros HR [e He] Hcov Ht Hc. set (t := snapshot (w_kv w) v) in *. set (tm := mkTermKey (tp_field tp) e).
  destruct (run_list_posting sub et env Henv db ns (tp_field tp) (tp_value tp) e a
    (Z.to_nat (estimate_posting_fetch_limit df target cap)) v w eq_refl He (rep_nine t N tm HR)) as (w' & E & Hw).
  eexists _, w'. split; [exact E|]. split; [done|]. fold t tm. rewrite firstn_all2.
  2: { pose proof (length_filter (after a) (term_nodes sub et t tm)). specialize (Hcov e target cap He Ht Hc). fold tm in Hcov.
       assert (term_rows sub et t tm = Z.of_nat (length (term_nodes sub et t tm))) as Hr
         by (unfold term_rows, term_nodes; by rewrite length_map). lia. }
  intros nid. rewrite list_elem_of_filter, (rep_term_nodes t N tm nid HR). unfold found, matches_term. split.
  - intros (Ha & Hv & Hh). split; [done|]. split; [done|]. by exists e.
  - intros (Hv & Ha & e' & E' & Hh). rewrite He in E'. injection E' as <-. done.
Qed.

Definition in_opt (o : option (gset bytes)) nid : Prop := match o with Some X => nid ∈ X | None => True end.

Lemma run_intersect v a target cap terms running w N :
  represents db ns et schema (snapshot (w_kv w) v) N -> Forall searchable terms.*2 ->
  Forall (fun dt => covers (snapshot (w_kv w) v) dt.1 dt.2) terms ->
  0 <= target -> doc_rows db ns et (snapshot (w_kv w) v) < cap ->
  exists R w', intersect_terms db ns et a target cap v terms running env w = (Ok R, w') /\ idle w w' /\
    (R = None -> terms = []) /\
    forall nid, in_opt R nid <-> in_opt running nid /\ forall dt, dt ∈ terms -> found N a dt.2 nid.
Proof.
  intros HR. revert running w HR. induction terms as [|[df tp] terms IH]; intros running w HR Hs Hcov Ht Hc; cbn [intersect_terms].
  { exists running, w. split; [done|]. split; [done|]. split; [done|]. intros nid. split; [|tauto].
    intros ?. split; [done|]. by intros dt ?%not_elem_of_nil. }
  rewrite fmap_cons, Forall_cons in Hs. destruct Hs as [Hs1 Hs]. apply Forall_cons in Hcov as [Hc1 Hcov]. cbn [fst snd] in *.
  destruct (run_postings v tp a df target cap w N HR Hs1 Hc1 Ht Hc) as (ids & w1 & E & Hw1 & Hids).
  rewrite (bind_run _ _ _ _ _ _ E). cbv zeta.
  set (next := match running with None => list_to_set ids | Some prev => prev ∩ list_to_set ids end).
  assert (Hnext : forall nid, nid ∈ next <-> in_opt running nid /\ found N a tp nid).
  { intros nid. unfold next. destruct running; cbn [in_opt]; rewrite ?elem_of_intersection, elem_of_list_to_set, Hids; tauto. }
  clearbody next. destruct (decide (next = ∅)) as [->|Hne].
  - exists (Some ∅), w1. split; [done|]. split; [done|]. split; [done|]. intros nid. cbn [in_opt]. split; [set_solver|].
    intros [Hr Hall]. apply Hnext. split; [done|]. apply (Hall (df, tp)). left.
  - pose proof Hw1 as [Hkv _]. destruct (IH (Some next) w1) as (R & w2 & E2 & Hw2 & HR0 & Hel); [by rewrite Hkv|done|by rewrite Hkv|done|by rewrite Hkv|].
    assert (HSome : R <> None).
    { intros ->. specialize (HR0 eq_refl). subst terms. cbn [intersect_terms] in E2. unfold mret, M_ret in E2. by injection E2. }
    exists R, w2. split; [done|]. split; [by etrans|]. split; [done|]. intros nid. rewrite Hel. cbn [in_opt]. rewrite Hnext.
    setoid_rewrite elem_of_cons. split.
    + intros [[Hr Hf] Hall]. split; [done|]. intros dt [->|?]; [done|auto].
    + intros [Hr Hall]. split; [split; [done|]|auto]. apply (Hall (df, tp)). by left.
Qed.

(** *** Groups *)

Definition found_group N a g nid : Prop := valid_nid nid /\ after a nid /\ g <> [] /\ matches_group (props_of (N nid)) g.

Lemma run_group v g a target cap w N :
  represents db ns et schema (snapshot (w_kv w) v) N -> Forall searchable g ->
  0 <= target -> doc_rows db ns et (snapshot (w_kv w) v) < cap -> cap <= 2 ^ 60 ->
  exists ids w', execute_term_group db ns et g a target cap v env w = (Ok ids, w') /\ idle w w' /\
    forall nid, nid ∈ ids <-> found_group N a g nid.
Proof.
  intros HR Hs Ht Hc Hcap. unfold execute_term_group. destruct g as [|tp0 g0].
  { exists [], w. split; [done|]. split; [done|]. intros nid. unfold found_group. split; [by intros ?%not_elem_of_nil|tauto]. }
  set (g := tp0 :: g0) in *. assert (Hne : g <> []) by done. clearbody g.
  destruct (run_term_frequencies v g w N) as (terms & w1 & E1 & Hw1 & Hg & Hcov); [done|lia|done|].
  rewrite (bind_run _ _ _ _ _ _ E1). pose proof Hw1 as [Hkv _].
  assert (Hperm : sort_by_key fst terms ≡ₚ terms) by apply sort_by_key_perm.
  destruct (run_intersect v a target cap (sort_by_key fst terms) None w1 N) as (R & w2 & E2 & Hw2 & HN & Hel);
    [by rewrite Hkv|by rewrite Hperm, Hg|by rewrite Hperm, Hkv|done|by rewrite Hkv|].
  rewrite (bind_run _ _ _ _ _ _ E2). exists (hs_iter (default ∅ R)), w2. split; [done|]. split; [by etrans|].
  intros nid. rewrite elem_of_hs_iter. destruct R as [X|].
  2: { specialize (HN eq_refl). destruct Hne. rewrite HN in Hperm. apply Permutation_nil_l in Hperm. by rewrite <- Hg, <- Hperm. }
  pose proof (Hel nid) as Hn. cbn [in_opt] in Hn. setoid_rewrite Hperm in Hn. change (default ∅ (Some X)) with X. rewrite Hn.
  unfold found_group, matches_group. rewrite <- Hg, Forall_fmap, Forall_forall. split.
  - intros [_ Hall]. assert (exists dt, dt ∈ terms) as [dt Hdt].
    { destruct terms as [|dt]; [by destruct Hne; rewrite <- Hg|]. exists dt. left. }
    destruct (Hall dt Hdt) as (Hv & Ha & _). split; [done|]. split; [done|]. split; [by rewrite Hg|].
    intros x Hx. apply (Hall x Hx).
  - intros (Hv & Ha & _ & Hall). split; [done|]. intros dt Hdt. split; [done|]. split; [done|]. by apply Hall.
Qed.

(** The nodes some group finds. *)
Definition found_any N a (gs : list (list TermPredicate)) nid : Prop := exists g, g ∈ gs /\ found_group N a g nid.

Lemma matches_nonempty N a g nid : found_group N a g nid -> is_Some (N nid).
Proof.
  intros (_ & _ & Hne & Hm). destruct g as [|tp g]; [done|]. apply Forall_cons in Hm as [(e & _ & Hh) _].
  destruct (N nid); [done|]. by apply no_terms in Hh.
Qed.

Lemma run_union v gs a target cap U w N :
  represents db ns et schema (snapshot (w_kv w) v) N -> Forall (Forall searchable) gs ->
  0 <= target -> doc_rows db ns et (snapshot (w_kv w) v) < cap -> cap <= 2 ^ 60 ->
  (forall nid, nid ∈ U -> nid ∈ type_ids (snapshot (w_kv w) v)) ->
  exists U' w', union_groups db ns et a target cap v gs U env w = (Ok U', w') /\ idle w w' /\
    forall nid, nid ∈ U' <-> nid ∈ U \/ found_any N a gs nid.
Proof.
  intros HR Hs Ht Hc Hcap. revert U w HR Hc. induction Hs as [|g gs Hg _ IH]; intros U w HR Hc HU; cbn [union_groups].
  { exists U, w. split; [done|]. split; [done|]. intros nid. split; [by left|]. intros [?|(g & Hin & _)]; [done|]. by apply not_elem_of_nil in Hin. }
  destruct (run_group v g a target cap w N HR Hg Ht Hc Hcap) as (ids & w1 & E & Hw1 & Hids).
  rewrite (bind_run _ _ _ _ _ _ E). cbv zeta. pose proof Hw1 as [Hkv _].
  assert (Hin : forall nid, nid ∈ U ∪ list_to_set ids -> nid ∈ type_ids (snapshot (w_kv w) v)).
  { intros nid [?|Hn]%elem_of_union; [auto|]. apply elem_of_list_to_set, Hids in Hn.
    apply (elem_of_type_ids _ N nid HR). split; [apply Hn|by eapply matches_nonempty]. }
  assert (Hsize : Z.of_nat (size (U ∪ list_to_set ids)) < cap).
  { pose proof (size_type_ids (snapshot (w_kv w) v)) as Hst.
    assert (size (U ∪ list_to_set ids) <= size (type_ids (snapshot (w_kv w) v)))%nat by (by apply subseteq_size). lia. }
  rewrite insert_capped_all by done. destruct (Z.leb_spec cap (Z.of_nat (size (U ∪ list_to_set ids)))); [lia|].
  destruct (IH (U ∪ list_to_set ids) w1) as (U' & w2 & E2 & Hw2 & Hel); [by rewrite Hkv|by rewrite Hkv|by rewrite Hkv|].
  exists U', w2. split; [done|]. split; [by etrans|]. intros nid. rewrite Hel, elem_of_union, elem_of_list_to_set, Hids.
  unfold found_any. setoid_rewrite elem_of_cons. naive_solver.
Qed.

(** Sorted lists of ids with the same elements are equal. *)
Lemma ids_ext (l l' : list bytes) :
  StronglySorted blt l -> StronglySorted blt l' -> (forall x, x ∈ l <-> x ∈ l') -> l = l'.
Proof.
  intros Hs Hs' Hel.
  assert (Hmap : forall l, StronglySorted blt l -> StronglySorted (fun x y : bytes * bytes => blt x.1 y.1) (map (fun x => (x, x)) l)).
  { clear. induction 1 as [|x l Hl IH Hx]; [constructor|]. cbn [map]. constructor; [done|]. apply Forall_map. exact Hx. }
  assert (map (fun x : bytes => (x, x)) l = map (fun x => (x, x)) l') as E%(f_equal (map fst)).
  { apply sorted_ext; [by apply Hmap..|]. intros [x y]. rewrite !list_elem_of_fmap. split; intros (z & ? & Hz%Hel); eauto. }
  rewrite !map_map in E. cbn in E. by rewrite !map_id in E.
Qed.
End Terms.

(** ** Expressions *)

Lemma literal_searchable l f : searchable (mkTermPredicate f (literal_value l)).
Proof. destruct l; eexists; reflexivity. Qed.

Lemma parse_group_searchable raw g : parse_term_group raw = Done (Some g) -> Forall searchable g.
Proof.
  revert g. induction raw as [|r raw IH]; intros g; cbn [parse_term_group]; [intros [= <-]; constructor|].
  destruct (parse_comparison r) as [[p|]|]; cbn; try done. destruct (decide (cp_operator p = OpEq)); [|done].
  destruct (parse_term_group raw) as [[g'|]|]; cbn; try done. intros [= <-]. constructor; [apply literal_searchable|by apply IH].
Qed.

Lemma parse_groups_searchable raws gs : parse_term_groups raws = Done (Some gs) -> Forall (Forall searchable) gs.
Proof.
  revert gs. induction raws as [|r raws IH]; intros gs; cbn [parse_term_groups]; [intros [= <-]; constructor|].
  destruct (parse_term_group r) as [[g|]|] eqn:E; cbn; try done.
  destruct (parse_term_groups raws) as [[gs'|]|]; cbn; try done. intros [= <-]. constructor; [by eapply parse_group_searchable|by apply IH].
Qed.

Lemma parse_searchable e gs : parse_term_expression e = Done (Some gs) -> Forall (Forall searchable) gs.
Proof.
  unfold parse_term_expression. destruct (split_boolean_expression e); [|done]. apply parse_groups_searchable.
Qed.

Lemma rewrite_searchable g : Forall searchable g -> Forall searchable (rewrite_template_term_group g).
Proof.
  intros Hg. unfold rewrite_template_term_group. destruct (group_strings ∅ g) as [values|]; [|done].
  assert (Hf : forall p : TermPredicate -> bool, Forall searchable (List.filter p g)).
  { intros p. rewrite Forall_forall in Hg |- *. intros x Hx%list_elem_of_In%filter_In. apply Hg, list_elem_of_In, Hx. }
  repeat case_match; simplify_eq; try done; constructor; auto; eexists; reflexivity.
Qed.

Lemma rewrite_nonempty g : rewrite_template_term_group g = [] <-> g = [].
Proof.
  unfold rewrite_template_term_group. destruct (group_strings ∅ g) as [values|] eqn:E; [|done].
  repeat case_match; try done. all: split; [done|]; intros ->; cbn in E; injection E as <-; by rewrite lookup_empty in *.
Qed.

Lemma rewrite_found N a gs nid :
  (forall nid props, N nid = Some props -> no_template_fields props /\ text_fields props) -> Forall plain_group gs ->
  found_any N a (rewrite_template_term_groups gs) nid <-> found_any N a gs nid.
Proof.
  intros Hp Hg. unfold found_any, found_group, rewrite_template_term_groups. rewrite Forall_forall in Hg.
  assert (Hempty : forall g, N nid = None -> g <> [] -> ~ matches_group (props_of (N nid)) g).
  { intros g HN Hne Hm. destruct g as [|tp g]; [done|]. apply Forall_cons in Hm as [(e & _ & Hh) _].
    rewrite HN in Hh. by apply no_terms in Hh. }
  destruct (N nid) as [props|] eqn:HN.
  - destruct (Hp nid props HN) as [Hn Ht]. cbn [props_of default]. split.
    + intros (g' & (g & -> & Hin)%list_elem_of_fmap & Hv & Ha & Hne & Hm). exists g. split; [done|]. split; [done|]. split; [done|].
      split; [by rewrite rewrite_nonempty in Hne|]. by apply rewrite_matches; [..|apply Hg|].
    + intros (g & Hin & Hv & Ha & Hne & Hm). exists (rewrite_template_term_group g). split; [by apply list_elem_of_fmap_2|].
      split; [done|]. split; [done|]. split; [by rewrite rewrite_nonempty|]. by apply rewrite_matches; [..|apply Hg|].
  - split; intros (g & _ & _ & _ & Hne & Hm); by destruct (Hempty g eq_refl Hne).
Qed.

Lemma ordered_ids_spec a (fetch : nat) ids out :
  (forall nid, nid ∈ ids -> length nid = 9%nat /\ after a nid) -> (length out < fetch)%nat ->
  ordered_ids a (Z.of_nat fetch) ids out = out ++ map id_str (firstn (fetch - length out) ids).
Proof.
  revert out. induction ids as [|nid ids IH]; intros out Hids Hlt; cbn [ordered_ids].
  { by rewrite take_nil, app_nil_r. }
  destruct (Hids nid ltac:(left)) as [-> Ha]. cbn [Nat.eqb negb].
  assert (match a with Some c => negb (bltb c nid) | None => false end = false) as ->.
  { destruct a as [c|]; [|done]. unfold bltb. cbn in Ha. unfold blt in Ha. by rewrite Ha. }
  fold (id_str nid). unfold len. rewrite length_app. cbn [length].
  destruct (fetch - length out)%nat as [|n] eqn:En; [lia|]. cbn [firstn map].
  destruct (Z.leb_spec (Z.of_nat fetch) (Z.of_nat (length out + 1))).
  - assert (n = 0%nat) as -> by lia. done.
  - rewrite IH by ((intros; apply Hids; by right) || (rewrite length_app; simpl; lia)).
    rewrite length_app. cbn [length]. replace (fetch - (length out + 1))%nat with n by lia. by rewrite <- app_assoc.
Qed.

Lemma after_last (L : list bytes) n c :
  StronglySorted blt L -> last (firstn n L) = Some c -> filter (after (Some c)) L = drop n L.
Proof.
  intros Hs Hc. assert (Hn : L = firstn n L ++ drop n L) by (by rewrite firstn_skipn).
  rewrite Hn in Hs at 1. rewrite Hn at 1. rewrite filter_app.
  assert (Hord : forall x y, x ∈ firstn n L -> y ∈ drop n L -> blt x y).
  { intros x y Hx Hy. revert Hs Hx. generalize (firstn n L). intros l. induction l as [|z l IH]; [by intros _ ?%not_elem_of_nil|].
    cbn. intros [Hs Hz]%StronglySorted_inv [->|Hx]%elem_of_cons; [|by apply IH]. rewrite Forall_forall in Hz. apply Hz. set_solver. }
  assert (Hle : forall x, x ∈ firstn n L -> ble x c).
  { intros x Hx. clear Hord Hn. revert Hs Hc Hx. generalize (firstn n L), (drop n L). intros l r. induction l as [|z l IH]; [done|].
    cbn [app]. intros [Hs Hz]%StronglySorted_inv Hc [->|Hx]%elem_of_cons.
    - destruct l as [|z' l]; [cbn in Hc; injection Hc as ->; apply ble_refl|]. rewrite last_cons_cons in Hc.
      apply ble_lt_or_eq. left. rewrite Forall_forall in Hz. apply Hz. apply elem_of_app. left.
      apply last_Some_elem_of in Hc. done.
    - apply IH; [done| |done]. destruct l; [by apply not_elem_of_nil in Hx|]. by rewrite last_cons_cons in Hc. }
  assert (filter (after (Some c)) (firstn n L) = []) as ->.
  { apply elem_of_nil_inv. intros x [Ha Hx]%list_elem_of_filter. specialize (Hle x Hx). cbn in Ha. by apply blt_not_ble in Ha. }
  apply filter_all_true. intros x Hx. cbn. apply Hord; [|done]. by apply last_Some_elem_of.
Qed.

(** The nodes of the map at a list of ids, as the executor returns them. *)
Lemma live_nodes {S} `{FdbLaws S} `{Cbor NodeData} (db ns et : string) (t : S) (N : NodeMap) (nids : list bytes) :
  (forall nid, nid ∈ nids -> live db ns et t N nid) ->
  map sn_id (omap (stored_at db ns et t) nids) = map id_str nids /\
  map sn_properties (omap (stored_at db ns et t) nids) = map (fun nid => props_of (N nid)) nids /\
  length (omap (stored_at db ns et t) nids) = length nids.
Proof.
  induction nids as [|nid nids IH]; intros Hl; [done|]. destruct IH as (E1 & E2 & E3); [intros; apply Hl; by right|].
  destruct (Hl nid ltac:(left)) as (d & Hd & HN). cbn [omap list_omap map].
  assert (stored_at db ns et t nid = Some (stored_of (id_str nid) et d)) as -> by (unfold stored_at; by rewrite Hd).
  cbn [map length]. rewrite E1, E2, E3, HN. done.
Qed.

Lemma build_cursor_id nid : length nid = 9%nat -> build_cursor (id_str nid) = nid.
Proof. intros Hl. unfold build_cursor, id_str. rewrite from_str_to_string by apply from_bytes_ok. by apply to_from_bytes. Qed.

Lemma map_project proj (l : list StoredNode) :
  map sn_id (match proj with Some fields => map (fun n => project_node n fields) l | None => l end) = map sn_id l /\
  map sn_properties (match proj with Some fields => map (fun n => project_node n fields) l | None => l end)
    = map (apply_projection proj) (map sn_properties l).
Proof.
  destruct proj as [fields|]; cbn [apply_projection]; [|by rewrite map_id]. rewrite !map_map. done.
Qed.

(** Cutting the fetched nodes into a page. *)
Lemma term_page (limit : nat) (proj : option (gset string)) (N : NodeMap) (L : list bytes) (found : list StoredNode) :
  (forall nid, nid ∈ L -> length nid = 9%nat) ->
  map sn_id found = map id_str (firstn (limit + 1) L) ->
  map sn_properties found = map (fun nid => apply_projection proj (props_of (N nid))) (firstn (limit + 1) L) ->
  let more := Z.of_nat limit <? len found in
  let page := if more then firstn (Z.to_nat (Z.of_nat limit)) found else found in
  more = Nat.ltb limit (length L) /\
  map sn_id page = map id_str (firstn limit L) /\
  map sn_properties page = map (fun nid => apply_projection proj (props_of (N nid))) (firstn limit L) /\
  (if more then (n ← last page; Some (build_cursor (sn_id n))) else None)
    = if Nat.ltb limit (length L) then last (firstn limit L) else None.
Proof.
  intros H9 Hids Hprops. rewrite Nat2Z.id. unfold len.
  assert (Hlen : length found = Nat.min (limit + 1) (length L)) by (by rewrite <- (length_map sn_id), Hids, length_map, length_take).
  assert (Hmore : (Z.of_nat limit <? Z.of_nat (length found)) = Nat.ltb limit (length L)).
  { rewrite Hlen. destruct (Z.ltb_spec (Z.of_nat limit) (Z.of_nat ((limit + 1) `min` length L))), (Nat.ltb_spec limit (length L)); try done; lia. }
  rewrite Hmore. cbv zeta. split; [done|]. destruct (Nat.ltb_spec limit (length L)) as [Hlt|Hge].
  - assert (Hp : map sn_id (firstn limit found) = map id_str (firstn limit L)).
    { rewrite <- firstn_map, Hids, firstn_map, firstn_firstn. do 2 f_equal. lia. }
    split; [done|]. split.
    + rewrite <- firstn_map, Hprops, firstn_map, firstn_firstn. do 2 f_equal. lia.
    + assert (Hl : sn_id <$> last (firstn limit found) = id_str <$> last (firstn limit L)) by (rewrite <- !fmap_last; by f_equal).
      destruct (last (firstn limit found)) as [n|], (last (firstn limit L)) as [nid|] eqn:El; simplify_eq/=; [|done].
      f_equal. rewrite Hl. apply build_cursor_id, H9. by apply last_Some_elem_of, elem_of_take_1 in El.
  - assert (firstn (limit + 1) L = L /\ firstn limit L = L) as [E1 E2] by (split; apply firstn_all2; lia).
    rewrite E1 in *. by rewrite E2.
Qed.

(** The ids the groups of an expression find, in order. *)
Lemma run_term_groups {S} `{FdbLaws S} `{HashIter} `{Cbor NodeData}
    env (config : ExecutorConfig) (db ns et e : string) (schema : EntitySchema) (a : option bytes) (n : nat) (v : option Z)
    (w : World S) (N : NodeMap) (groups : list (list TermPredicate)) :
  no_faults env -> represents db ns et schema (snapshot (w_kv w) v) N ->
  parse_term_expression e = Done (Some groups) -> Forall plain_group groups ->
  (forall nid props, N nid = Some props -> text_fields props) -> u32_ok (max_limit config) ->
  doc_rows db ns et (snapshot (w_kv w) v) < Z.max (20 * max_limit config) 5000 ->
  exists L w', execute_term_groups config db ns et (rewrite_template_term_groups groups) a (Z.of_nat n) v env w = (Ok L, w') /\
    idle w w' /\ StronglySorted blt L /\ (forall nid, nid ∈ L <-> found_any N a groups nid) /\
    (forall nid, nid ∈ L -> valid_nid nid /\ after a nid /\ is_Some (N nid)).
Proof.
  intros Henv HR Hpe Hplain Htext Hmax Hdocs. unfold u32_ok in Hmax.
  assert (Hcap : Z.max (usize_mul (max_limit config) 20) 5000 = Z.max (20 * max_limit config) 5000) by (unfold usize_mul, U64_MAX; lia).
  set (cap := Z.max (20 * max_limit config) 5000) in *.
  assert (Hsea : Forall (Forall searchable) (rewrite_template_term_groups groups)).
  { apply Forall_map. eapply Forall_impl; [by eapply parse_searchable|]. apply rewrite_searchable. }
  destruct (run_union env Henv db ns et schema v (rewrite_template_term_groups groups) a (Z.of_nat n) cap ∅ w N)
    as (U & w1 & E1 & Hw1 & HU); [done|done|lia|done|unfold cap; lia|set_solver|].
  exists (sort_bytes (hs_iter U)), w1.
  assert (HL : forall nid, nid ∈ sort_bytes (hs_iter U) <-> found_any N a groups nid).
  { intros nid. unfold sort_bytes. rewrite merge_sort_Permutation, elem_of_hs_iter, HU, <- (rewrite_found N a groups); [set_solver| |done].
    intros x props Hx. split; [by apply (rp_fields _ _ _ _ _ _ HR x)|by eapply Htext]. }
  split; [|split; [done|split; [apply sort_bytes_sorted, NoDup_hs_iter|split; [done|]]]].
  - unfold execute_term_groups. rewrite Hcap. cbv zeta. by rewrite (bind_run _ _ _ _ _ _ E1).
  - intros nid (g & _ & Hg)%HL. pose proof (matches_nonempty N a g nid Hg). by destruct Hg as (? & ? & _).
Qed.

