(* ===== verification/QueryExamples.v ===== *)
(** * Queries on a concrete store

    Two accounts, a small filter engine, and the theorems of [ExecutorSpec] and
    [TermQuery] at work on them; queries whose answer is not what the expression
    says.  Nothing of the program is modelled here. *)

From S2P Require Import Prelude Bytes Text Errors Types Encoding Subspace SchemaTypes Fdb MemFdb Cdc Ids Index TermIndex Namespace Jobs SchemaRegistry Node NodeAtomic NodeSpec Predicate Planner Cel Executor ExecutorSpec TermQuery.

(** ** A filter engine for comparisons with integers *)

Definition compare_ints (op : ComparisonOperator) (a b : Z) : bool :=
  match op with
  | OpEq => a =? b | OpNe => negb (a =? b) | OpLt => a <? b | OpLe => a <=? b | OpGt => b <? a | OpGe => b <=? a
  end.

#[export] Instance int_engine : CelEngine | 100 := {|
  CelProgram := string * ComparisonOperator * Z;
  cel_compile e := match parse_comparison e with
                   | Done (Some (mkComparison f op (LInt n))) => inl (f, op, n)
                   | _ => inr "unsupported"
                   end;
  cel_execute p vars := match vars !! p.1.1 with
                        | Some (CvInt a) => inl (CvBool (compare_ints p.1.2 a p.2))
                        | Some CvNull => inl CvNull
                        | _ => inr "no such field"
                        end
|}.

#[export] Instance StoredNode_eq_dec : EqDecision StoredNode.
Proof. solve_decision. Defined.
#[export] Instance StoredNode_countable : Countable StoredNode.
Proof.
  refine (inj_countable' (fun n => (sn_id n, sn_entity_type n, sn_properties n, sn_locality n, sn_created_at n, sn_updated_at n))
    (fun '(i, e, p, l, c, u) => mkStoredNode i e p l c u) _). by intros [].
Defined.
#[export] Instance stored_cbor : Cbor StoredNode | 100 := countable_cbor StoredNode id.

(** ** Two accounts *)

Definition bob : Props := {["email" := VString "bob@x"; "age" := VInt 41]}.
Definition bob_id : NodeId := mkNodeId 1 1.
Definition account_world2 : World MemKv :=
  (create_node account_store "db" "ns" "Account" bob quiet_env account_world1).2.
Definition two_nodes : NodeMap := put (put no_nodes (NodeIds.to_bytes ada_id) (Some ada)) (NodeIds.to_bytes bob_id) (Some bob).

Lemma bob_lookup p v : bob !! p = Some v -> p = "email" /\ v = VString "bob@x" \/ p = "age" /\ v = VInt 41.
Proof. unfold bob. intros [[<- <-]|[_ [<- <-]%lookup_singleton_Some]]%lookup_insert_Some; auto. Qed.

Lemma account_world1_store :
  store_ok account_store "db" "ns" "Account" account_schema account_world1 (put no_nodes (NodeIds.to_bytes ada_id) (Some ada)).
Proof.
  split.
  - apply account_world1_ok.
  - apply account_world1_room.
  - left. vm_compute. reflexivity.
  - vm_compute. repeat split; discriminate.
  - assert (next_id (id_allocator account_store) account_world1 "db" "ns" "Account" = 1) as -> by (vm_compute; reflexivity).
    intros q Hq. unfold put. rewrite decide_False; [done|]. intros E%to_bytes_inj.
    + injection E as E. lia.
    + split; cbn; unfold u8_ok, u64_ok; lia.
    + split; cbn; unfold u8_ok, u64_ok; lia.
Qed.

Lemma bob_accepted : accepts "db" "ns" "Account" account_schema account_world1 (apply_defaults account_schema bob).
Proof.
  assert (apply_defaults account_schema bob = bob) as -> by (vm_compute; reflexivity). split.
  - vm_compute. reflexivity.
  - intros p d v _ _ [[-> ->]|[-> ->]]%bob_lookup; (split; [done|]); intros enc b [= <-] Hb; vm_compute in Hb; discriminate Hb.
  - split; vm_compute; reflexivity.
  - intros p v [[-> ->]|[-> ->]]%bob_lookup; exact I.
Qed.

Lemma account_world2_ok : represents "db" "ns" "Account" account_schema (w_kv account_world2) two_nodes.
Proof.
  destruct (run_create_node account_store "db" "ns" "Account" account_schema quiet_env account_world1
    (put no_nodes (NodeIds.to_bytes ada_id) (Some ada)) bob quiet_env_ok) as (c & ts & w' & E & HR & _).
  - vm_compute. reflexivity.
  - apply account_world1_store.
  - apply account_world1_log.
  - split; vm_compute; repeat split; discriminate.
  - apply bob_accepted.
  - assert (Hc : canon_props (apply_defaults account_schema bob) = bob) by (vm_compute; reflexivity).
    assert (Hn : next_node account_store "db" "ns" "Account" account_world1 = bob_id) by (vm_compute; reflexivity).
    rewrite Hc, Hn in HR. unfold account_world2. rewrite E. exact HR.
Qed.

Lemma account_world2_serves : serves "db" "ns" "Account" account_schema account_world2.
Proof. left. vm_compute. reflexivity. Qed.

Lemma two_nodes_cases nid props : two_nodes nid = Some props -> props = ada \/ props = bob.
Proof. unfold two_nodes, put, no_nodes. repeat case_decide; naive_solver. Qed.

(** ** The theorems at work *)

Definition over_40 : ExecutionPlan := with_limit (with_residual (new_plan "Account" FullScan) "age >= 40") 5.
Definition age_at_least (n : Z) (props : Props) : bool := match props !! "age" with Some (VInt a) => n <=? a | _ => false end.
Definition over_40_filter : CelExpression := mkCelExpression ("age", OpGe, 40) "age >= 40" account_schema.

Lemma full_scan_query_witness :
  exists rows r w', lists rows (is_node "db" "ns" "Account" two_nodes) /\
    execute_with_options default_config "db" "ns" over_40 None quiet_env account_world2 = (Ok r, w') /\
    page_is two_nodes (age_at_least 40) None 5 (firstn 24 (filter (after_key None) rows)) r.
Proof.
  destruct (full_scan_query quiet_env default_config "db" "ns" "Account" account_schema over_40 None account_world2 two_nodes
    (Some over_40_filter) (age_at_least 40)) as (rows & r & w' & HL & E & _ & Hp).
  - apply quiet_env_ok.
  - apply account_world2_serves.
  - apply account_world2_ok.
  - reflexivity.
  - reflexivity.
  - split; [split; vm_compute; congruence..|]. intros l [= <-]. split; vm_compute; congruence.
  - exists over_40_filter. split; reflexivity.
  - intros nid props [->| ->]%two_nodes_cases; vm_compute; reflexivity.
  - intros k [=].
  - exists rows, r, w'. split; [exact HL|]. split; [exact E|exact Hp].
Defined.

Definition by_age : ExecutionPlan :=
  new_plan "Account" (IndexScan "age" IdxRange (Range (Some (mkRangeBound (PvInt 40) true)) None)).
Definition age_def : PropertyDef := PropDefs.with_index (PropDefs.new PInt) IdxRange.

Lemma age_width nid enc : holds (props_of (two_nodes nid)) "age" enc -> length enc = 8%nat.
Proof.
  destruct (two_nodes nid) as [props|] eqn:E; [|by intros ?%holds_empty].
  apply two_nodes_cases in E as [->| ->]; intros [_ [= <-]]; reflexivity.
Qed.


Definition one_by_one : ExecutionPlan := with_limit (new_plan "Account" FullScan) 1.

Lemma page_cursor_skips_node_witness :
  exists r w1, execute_with_options default_config "db" "ns" one_by_one None quiet_env account_world2 = (Ok r, w1) /\
    has_more r = true /\
    exists c nid props r2 w2, cursor r = Some c /\ two_nodes nid = Some props /\
      execute_with_options default_config "db" "ns" (with_cursor one_by_one c) None quiet_env account_world2 = (Ok r2, w2) /\
      id_str nid ∉ map sn_id (nodes r) /\ id_str nid ∉ map sn_id (nodes r2).
Proof.
  destruct (page_cursor_skips_node quiet_env default_config "db" "ns" "Account" account_schema one_by_one None account_world2
    two_nodes None (fun _ => true)) as (r & w1 & E & Hskip).
  - apply quiet_env_ok.
  - apply account_world2_serves.
  - apply account_world2_ok.
  - reflexivity.
  - reflexivity.
  - split; [split; vm_compute; congruence..|]. intros l [= <-]. split; vm_compute; congruence.
  - vm_compute. lia.
  - reflexivity.
  - intros nid props _. reflexivity.
  - intros k [=].
  - assert (Hmore : has_more r = true).
    { assert (Er : match (execute_with_options default_config "db" "ns" one_by_one None quiet_env account_world2).1 with
                   | Ok x => has_more x | Err _ => false end = true) by (vm_compute; reflexivity).
      rewrite E in Er. exact Er. }
    exists r, w1. split; [exact E|]. split; [exact Hmore|].
    destruct (Hskip Hmore) as (c & nid & props & r2 & w2 & Hc & HN & _ & _ & E2 & Hn1 & Hn2).
    exists c, nid, props, r2, w2. split; [exact Hc|]. split; [exact HN|]. split; [exact E2|]. split; [exact Hn1|exact Hn2].
Defined.

Lemma two_nodes_text nid props : two_nodes nid = Some props -> text_fields props.
Proof.
  intros [->| ->]%two_nodes_cases f v Hf Hv; unfold template_fields in Hf.
  - apply ada_lookup in Hv as [[-> ->]|[-> ->]]; left; set_solver.
  - apply bob_lookup in Hv as [[-> ->]|[-> ->]]; left; set_solver.
Qed.

Definition ada_or_36 : list (list TermPredicate) :=
  [[mkTermPredicate "email" (VString "ada@x")]; [mkTermPredicate "age" (VInt 36)]].


(** ** Answers that are not the expression's *)

(** The ids a query returns. *)
Definition answer (pl : ExecutionPlan) (w : World MemKv) : option (list string) :=
  match (execute default_config "db" "ns" pl quiet_env w).1 with Ok r => Some (map sn_id (nodes r)) | Err _ => None end.

Definition email_def : PropertyDef := PropDefs.with_index (PropDefs.require (PropDefs.new PString)) IdxUnique.
Definition email_is_ada : ExecutionPlan := new_plan "Account" (IndexScan "email" IdxUnique (Equals (PvString "ada"))).

Lemma string_equality_scans_prefix_witness :
  plan "Account" "email == 'ada'" account_schema None None = Done (Ok email_is_ada) /\
  answer email_is_ada account_world2 = Some ["1_0"] /\
  exists rows r w',
    (row_key (Sub.namespace "db" "ns") "Account" "email" email_def (sbytes "ada@x") (NodeIds.to_bytes ada_id), NodeIds.to_bytes ada_id) ∈ rows /\
    execute_with_options default_config "db" "ns" email_is_ada None quiet_env account_world2 = (Ok r, w') /\
    page_is two_nodes (fun _ => true) None 1000 (firstn 4004 rows) r.
Proof.
  split; [vm_compute; reflexivity|]. split; [vm_compute; reflexivity|].
  destruct (string_equality_scans_prefix quiet_env default_config "db" "ns" "Account" account_schema email_is_ada None account_world2
    two_nodes "email" "ada" email_def) as (rows & r & w' & _ & Hpre & E & Hp).
  - apply quiet_env_ok.
  - apply account_world2_serves.
  - apply account_world2_ok.
  - reflexivity.
  - reflexivity.
  - split; [split; vm_compute; congruence..|]. intros l [=].
  - reflexivity.
  - reflexivity.
  - split; [vm_compute; reflexivity|discriminate].
  - exists rows, r, w'. split; [|split; [exact E|exact Hp]].
    apply (Hpre (NodeIds.to_bytes ada_id) ada "@x").
    + split; [reflexivity|]. intros Hf. vm_compute in Hf. discriminate Hf.
    + vm_compute. reflexivity.
    + vm_compute. reflexivity.
    + intros Hf. vm_compute in Hf. discriminate Hf.
Defined.

(** A range without an upper bound misses the largest integers: the scan ends
    before the encodings that start with 0xFF. *)
Lemma unbounded_range_misses_large :
  ~ selects (Range (Some (mkRangeBound (PvInt 0) true)) None) (encode_int_for_index (2 ^ 63 - 1)) /\
  selects (Range (Some (mkRangeBound (PvInt 0) true)) (Some (mkRangeBound (PvInt (2 ^ 63 - 1)) true))) (encode_int_for_index (2 ^ 63 - 1)).
Proof.
  split.
  - intros [_ Hb]. apply Hb. vm_compute. reflexivity.
  - split; cbn [above below encode_predicate_value rb_value predicate_to_value encode_value_for_index inclusive]; vm_compute; discriminate.
Qed.

(** A filter with a disjunction or a function is dropped by the planner, and a lone
    quote crashes it. *)
Lemma dropped_filters :
  plan "Account" "age >= 100 || age < 0" account_schema None None = Done (Ok (new_plan "Account" FullScan)) /\
  answer (new_plan "Account" FullScan) account_world2 = Some ["1_0"; "1_1"] /\
  plan "Account" "email == '" account_schema None None = Panicked.
Proof. vm_compute. done. Qed.

(** At the largest limit the window is the page, and a query never reports more. *)
Lemma largest_limit_has_no_more pl :
  plan_limit pl = Some (max_limit default_config) -> window default_config pl = query_limit default_config pl.
Proof. unfold window, query_limit. intros ->. cbn. lia. Qed.
