(* ===== verification/Rows.v ===== *)
(** * Tables of records

    Sites, replication positions, policies, token sessions and watch states are
    stored the same way: a subspace holds one CBOR row per record, under the
    packed identifier of the record.  [table] relates the rows of such a subspace
    to a finite map; the lemmas say how reads, writes, clears and listings of the
    rows act on the map, so that a component's theorems speak of its map only.

    [sort_by] is [slice::sort_by]: a stable sort. *)

From S2P Require Import Prelude Bytes Text Errors Types Encoding Subspace SchemaTypes Fdb.

(** ** Sorting *)

Section Sort.
Context {A : Type} (cmp : A -> A -> comparison).

Fixpoint insert_by (x : A) (l : list A) : list A :=
  match l with
  | [] => [x]
  | y :: l' => match cmp x y with Gt => y :: insert_by x l' | _ => x :: l end
  end.

Definition sort_by (l : list A) : list A := foldr insert_by [] l.

Lemma insert_by_perm x l : insert_by x l ≡ₚ x :: l.
Proof. induction l as [|y l IH]; simpl; [done|]. destruct (cmp x y); [done..|]. rewrite IH. constructor. Qed.

Lemma sort_by_perm l : sort_by l ≡ₚ l.
Proof. induction l as [|x l IH]; [done|]. cbn [sort_by foldr]. rewrite insert_by_perm. by constructor. Qed.

Definition cmp_le (x y : A) : Prop := cmp x y <> Gt.

Context (cmp_flip : forall x y, cmp y x = CompOpp (cmp x y)) `{!Transitive cmp_le}.

Lemma insert_by_sorted x l : StronglySorted cmp_le l -> StronglySorted cmp_le (insert_by x l).
Proof.
  induction l as [|y l IH]; intros Hs; [repeat constructor|]. simpl. apply StronglySorted_inv in Hs as [Hl Hy].
  assert (cmp x y <> Gt -> StronglySorted cmp_le (x :: y :: l)) as Hle.
  { intros Hxy. constructor; [by constructor|]. constructor; [done|].
    eapply Forall_impl; [exact Hy|]. intros z Hz. by trans y. }
  destruct (cmp x y) eqn:E; [by apply Hle..|]. constructor; [auto|]. rewrite insert_by_perm.
  constructor; [|done]. unfold cmp_le. by rewrite cmp_flip, E.
Qed.

Lemma sort_by_sorted l : StronglySorted cmp_le (sort_by l).
Proof. induction l as [|x l IH]; [constructor|]. by apply insert_by_sorted. Qed.
End Sort.

(** [a.id.cmp(&b.id)]: strings compare by their bytes. *)
Definition cmp_on {A} (idf : A -> string) (x y : A) : comparison := lex (sbytes (idf x)) (sbytes (idf y)).

Lemma cmp_on_flip {A} (idf : A -> string) x y : cmp_on idf y x = CompOpp (cmp_on idf x y).
Proof. apply lex_antisym. Qed.

#[export] Instance cmp_on_trans {A} (idf : A -> string) : Transitive (cmp_le (cmp_on idf)).
Proof. intros x y z. apply ble_trans. Qed.

Lemma cmp_le_on {A} (idf : A -> string) x y : cmp_le (cmp_on idf) x y <-> ble (sbytes (idf x)) (sbytes (idf y)).
Proof. done. Qed.

(** Records with distinct identifiers come out strictly sorted. *)
Definition id_sorted {A} (idf : A -> string) : list A -> Prop :=
  StronglySorted (fun x y => blt (sbytes (idf x)) (sbytes (idf y))).

Lemma sort_by_id_sorted {A} (idf : A -> string) (l : list A) :
  NoDup (idf <$> l) -> id_sorted idf (sort_by (cmp_on idf) l).
Proof.
  intros Hnd. pose proof (sort_by_sorted (cmp_on idf) (cmp_on_flip idf) l) as Hs.
  assert (NoDup (idf <$> sort_by (cmp_on idf) l)) as Hnd' by by rewrite sort_by_perm.
  clear Hnd. revert Hs Hnd'. generalize (sort_by (cmp_on idf) l) as l'.
  induction l' as [|x l' IH]; [constructor|]. intros [Hl Hx]%StronglySorted_inv [Hx' Hnd]%NoDup_cons.
  constructor; [by apply IH|]. rewrite Forall_forall in Hx |- *. intros y Hy.
  destruct (proj1 (ble_lt_or_eq _ _) (Hx y Hy)) as [?|Heq%(inj sbytes)]; [done|].
  destruct Hx'. rewrite Heq. by apply list_elem_of_fmap_2.
Qed.

(** ** Decoding the rows of a range *)

Definition decode_all {A} `{Cbor A} {S} (rows : list (bytes * bytes)) : M S (list A) :=
  fold_m rows (fun out kv => x ← lift (decode_cbor kv.2); mret (out ++ [x])) [].

(** A loop that keeps the records a predicate selects. *)
Lemma run_fold_select {A} `{Cbor A} {S} (p : A -> bool) (rows : list (bytes * bytes)) (l : list A) out env (w : World S) :
  Forall2 (fun kv a => decode_cbor kv.2 = Ok a) rows l ->
  fold_m rows (fun out kv => x ← lift (decode_cbor kv.2); mret (if p x then out ++ [x] else out)) out env w
    = (Ok (out ++ List.filter p l), w).
Proof.
  intros Hl. revert out. induction Hl as [|kv a rows l Ha _ IH]; intros out; cbn [fold_m List.filter]; [by rewrite app_nil_r|].
  rewrite Ha, (bind_run _ _ _ _ (if p a then out ++ [a] else out) w eq_refl), IH.
  destruct (p a); [by rewrite <- app_assoc|done].
Qed.

Lemma run_decode_all {A} `{Cbor A} {S} (rows : list (bytes * bytes)) (l : list A) env (w : World S) :
  Forall2 (fun kv a => decode_cbor kv.2 = Ok a) rows l -> decode_all rows env w = (Ok l, w).
Proof.
  intros Hl. pose proof (run_fold_select (fun _ => true) rows l [] env w Hl) as E. cbn [app] in E.
  rewrite (List.forallb_filter_id (fun _ : A => true)) in E by by apply List.forallb_forall. exact E.
Qed.

(** ** Writes of one row *)

Section OneRow.
Context {S : Type} `{FdbLaws S} (env : Env) (Henv : no_faults env).

Lemma run_db_set k v (w : World S) :
  db_set k v env w = (Ok tt, set_kv (next_tick (next_tick w)) (kv_set (w_kv w) k v)).
Proof. unfold db_set. rewrite (bind_run _ _ _ _ _ _ (run_create_transaction env Henv w)). apply run_commit, Henv. Qed.

Lemma run_db_clear k (w : World S) :
  db_clear k env w = (Ok tt, set_kv (next_tick (next_tick w)) (kv_clear (w_kv w) k)).
Proof. unfold db_clear. rewrite (bind_run _ _ _ _ _ _ (run_create_transaction env Henv w)). apply run_commit, Henv. Qed.
End OneRow.

(** ** Ranges *)

Section Ranges.
Context {S : Type} `{FdbLaws S}.
Implicit Types s : S.

(** A range is read in two parts around any key in it. *)
Lemma kv_range_split s b c e : ble b c -> ble c e -> kv_range s b e = kv_range s b c ++ kv_range s c e.
Proof.
  intros Hbc Hce. apply sorted_ext; [apply kv_range_sorted| |].
  - apply sorted_app; [apply kv_range_sorted..|]. intros [k v] [k' v'] [[_ Hk] _]%kv_range_elem [[Hk' _] _]%kv_range_elem.
    by eapply blt_ble_trans.
  - intros [k v]. rewrite elem_of_app, !kv_range_elem. unfold in_scan. split.
    + intros [[Hb He] Hg]. destruct (decide (ble c k)) as [Hge|Hlt%blt_not_ble]; auto.
    + intros [[[Hb He] Hg]|[[Hb He] Hg]]; (split; [|done]); split; eauto using ble_trans, blt_ble_trans.
Qed.

(** Clearing the first rows of a range leaves the others. *)
Lemma kv_range_cleared s b e n :
  let s' := foldl (fun t kv => kv_clear t kv.1) s (take n (kv_range s b e)) in
  kv_range s' b e = drop n (kv_range s b e) /\
  forall k, kv_get s' k = if decide (k ∈ (take n (kv_range s b e)).*1) then None else kv_get s k.
Proof.
  cbv zeta. assert (Hg : forall k, kv_get (foldl (fun t kv => kv_clear t kv.1) s (take n (kv_range s b e))) k
    = if decide (k ∈ (take n (kv_range s b e)).*1) then None else kv_get s k).
  { intros k. rewrite <- get_clear_keys. generalize (take n (kv_range s b e)) as l. intros l. revert s.
    induction l as [|kv l IH]; intros s; cbn; [done|apply IH]. }
  split; [|done]. pose proof (kv_range_sorted s b e) as Hs. pose proof (NoDup_sorted _ Hs) as Hnd.
  rewrite <- (take_drop n (kv_range s b e)) in Hs, Hnd.
  apply sorted_ext; [apply kv_range_sorted| |].
  { clear -Hs. induction (take n (kv_range s b e)) as [|x l IH]; [done|]. apply StronglySorted_inv in Hs as [Hs _]. auto. }
  rewrite fmap_app, NoDup_app in Hnd. destruct Hnd as (_ & Hd & _).
  intros [k v]. rewrite kv_range_elem, Hg. pose proof (kv_range_elem s b e k v) as He.
  rewrite <- (take_drop n (kv_range s b e)), elem_of_app in He. split.
  - intros [Hk Hv]. case_decide as Hin; [done|]. destruct (proj2 He (conj Hk Hv)) as [Ht|]; [|done].
    destruct Hin. by apply (list_elem_of_fmap_2 fst) in Ht.
  - intros Hin. destruct (proj1 He (or_intror Hin)) as [Hk Hv]. split; [done|]. rewrite decide_False; [done|].
    intros Ht. apply (Hd k Ht). by apply (list_elem_of_fmap_2 fst) in Hin.
Qed.
End Ranges.

(** ** Tables *)

Section Table.
Context {S : Type} `{FdbLaws S} {A : Type} `{CborLaws A id ok} (sub : Subspace) (idf : A -> string).
Implicit Types (s : S) (m : gmap string A) (i : string).

Definition row_key i : bytes := prefix sub ++ enc_str i.

Definition holds_row s i (a : A) : Prop := exists v, kv_get s (row_key i) = Some v /\ decode_cbor v = Ok a.

Record table s m : Prop := {
  table_ids : map_Forall (fun i a => idf a = i) m;
  table_rows : forall k, in_scan (prefix sub) (Sub.range_end sub) k -> is_Some (kv_get s k) ->
    exists i, k = row_key i /\ is_Some (m !! i);
  table_held : map_Forall (holds_row s) m
}.

Lemma table_key_inj i j : row_key i = row_key j -> i = j.
Proof.
  unfold row_key. intros E%app_inv_head.
  assert (enc_str i ++ [] = enc_str j ++ []) as E' by by rewrite !app_nil_r.
  by apply enc_str_inj in E' as [? _].
Qed.

Lemma row_key_scanned i : in_scan (prefix sub) (Sub.range_end sub) (row_key i).
Proof. apply in_scan_prefix. exists (enc_str i). split; [done|]. rewrite <- (app_nil_r (enc_str i)). apply not_ff_enc_str. Qed.

Lemma table_get s m i : table s m ->
  match kv_get s (row_key i) with
  | Some v => exists a, decode_cbor v = Ok a /\ m !! i = Some a /\ idf a = i
  | None => m !! i = None
  end.
Proof.
  intros [Hid Hr Hh]. destruct (kv_get s (row_key i)) as [v|] eqn:Ev.
  - destruct (Hr _ (row_key_scanned i)) as (j & <-%table_key_inj & [a Ha]); [by rewrite Ev|].
    destruct (Hh i a Ha) as (v' & Ev' & Ed). exists a. split; [congruence|]. split; [done|]. by apply Hid.
  - destruct (m !! i) as [a|] eqn:Ea; [|done]. destruct (Hh i a Ea) as (v' & ? & _). congruence.
Qed.

Lemma table_insert s m a v :
  ok a -> encode_cbor a = Ok v -> table s m -> table (kv_set s (row_key (idf a)) v) (<[idf a := a]> m).
Proof.
  intros Ha Ev [Hid Hr Hh]. split.
  - apply map_Forall_insert_2; [done|done].
  - intros k Hk. rewrite kv_get_set. case_decide as Ek.
    + intros _. exists (idf a). split; [done|]. rewrite lookup_insert_eq. eauto.
    + intros Hs. destruct (Hr k Hk Hs) as (i & -> & Hi). exists i. split; [done|].
      rewrite lookup_insert_ne; [done|]. by intros <-.
  - intros i b. rewrite lookup_insert_Some. intros [[<- <-]|[Hne Hb]]; unfold holds_row; setoid_rewrite kv_get_set.
    + rewrite decide_True by done. exists v. split; [done|]. exact (decode_encode_cbor a v Ha Ev).
    + rewrite decide_False by (intros ?%table_key_inj; done). exact (Hh i b Hb).
Qed.

Lemma table_delete s m i : table s m -> table (kv_clear s (row_key i)) (delete i m).
Proof.
  intros [Hid Hr Hh]. split.
  - by apply map_Forall_delete.
  - intros k Hk. rewrite kv_get_clear. case_decide as Ek; [by intros [? ?]|]. intros Hs.
    destruct (Hr k Hk Hs) as (j & -> & Hj). exists j. split; [done|]. rewrite lookup_delete_ne; [done|]. by intros ->.
  - intros j b. rewrite lookup_delete_Some. intros [Hne Hb]. unfold holds_row. setoid_rewrite kv_get_clear.
    rewrite decide_False by (intros ?%table_key_inj; done). exact (Hh j b Hb).
Qed.

(** Only the rows of the subspace matter. *)
Lemma table_frame s s' m :
  (forall k, in_scan (prefix sub) (Sub.range_end sub) k -> kv_get s' k = kv_get s k) -> table s m -> table s' m.
Proof.
  intros Hk [Hid Hr Hh]. split; [done|..].
  - intros k Hs. rewrite Hk by done. auto.
  - intros i a Ha. unfold holds_row. rewrite Hk by apply row_key_scanned. exact (Hh i a Ha).
Qed.

Lemma table_empty s : (forall k, in_scan (prefix sub) (Sub.range_end sub) k -> kv_get s k = None) -> table s ∅.
Proof.
  intros Hk. split; [apply map_Forall_empty| |apply map_Forall_empty].
  intros k Hs [v Hv]. rewrite Hk in Hv by done. done.
Qed.

(** The records in the order of the rows. *)
Lemma table_listing s m : table s m ->
  exists l, Forall2 (fun kv a => decode_cbor kv.2 = Ok a) (kv_range s (prefix sub) (Sub.range_end sub)) l /\
    l ≡ₚ (map_to_list m).*2 /\ NoDup (idf <$> l).
Proof.
  intros Ht. set (rows := kv_range s _ _).
  assert (Hrow : forall kv, kv ∈ rows -> exists a, decode_cbor kv.2 = Ok a /\ kv.1 = row_key (idf a) /\ m !! idf a = Some a).
  { intros [k v] [Hs Hv]%kv_range_elem. destruct (table_rows _ _ Ht k Hs) as (i & -> & _); [by rewrite Hv|].
    pose proof (table_get s m i Ht) as Hg. rewrite Hv in Hg. destruct Hg as (a & Ha & Hm & <-). by exists a. }
  assert (exists l, Forall2 (fun kv a => decode_cbor kv.2 = Ok a /\ kv.1 = row_key (idf a) /\ m !! idf a = Some a) rows l) as [l Hl].
  { clear Ht. induction rows as [|kv rows IH]; [by exists []|].
    destruct (Hrow kv) as [a Ha]; [left|]. destruct IH as [l Hl]; [intros; apply Hrow; by right|].
    exists (a :: l). by constructor. }
  assert (Hkeys : row_key <$> (idf <$> l) = rows.*1).
  { clear -Hl. induction Hl as [|kv a rows l (_ & Hk & _) _ IH]; [done|]. cbn. by rewrite Hk, IH. }
  assert (Hnd : NoDup (idf <$> l)).
  { apply (NoDup_fmap_1 row_key). rewrite Hkeys. apply NoDup_sorted, kv_range_sorted. }
  assert (Hin : forall a, a ∈ l <-> m !! idf a = Some a).
  { intros a. split.
    - intros Ha. destruct (list_elem_of_lookup_1 _ _ Ha) as [n Hn]. destruct (Forall2_lookup_r _ _ _ _ _ Hl Hn) as (kv & _ & _ & _ & Hm). done.
    - intros Ha. destruct (table_held _ _ Ht _ _ Ha) as (v & Hv & Hd).
      assert ((row_key (idf a), v) ∈ rows) as Hr by (apply kv_range_elem; auto using row_key_scanned).
      destruct (list_elem_of_lookup_1 _ _ Hr) as [n Hn]. destruct (Forall2_lookup_l _ _ _ _ _ Hl Hn) as (b & Hb & Hdb & _).
      cbn [snd] in Hdb. assert (a = b) as -> by congruence. by eapply list_elem_of_lookup_2. }
  exists l. split; [eapply Forall2_impl; [exact Hl|]; naive_solver|].
  split; [|done]. apply NoDup_Permutation; [by eapply NoDup_fmap_1|..].
  - apply (NoDup_fmap_1 idf). assert (idf <$> (map_to_list m).*2 = (map_to_list m).*1) as ->; [|apply NoDup_fst_map_to_list].
    rewrite <- list_fmap_compose. apply list_fmap_ext. intros _ [i a] Hia%list_elem_of_lookup_2%elem_of_map_to_list.
    cbn. by apply (table_ids _ _ Ht).
  - intros a. rewrite Hin, list_elem_of_fmap. split.
    + intros Ha. exists (idf a, a). split; [done|]. by apply elem_of_map_to_list.
    + intros ([i b] & -> & Hb%elem_of_map_to_list). cbn. by rewrite (table_ids _ _ Ht _ _ Hb).
Qed.

(** A full listing, sorted by identifier: the map's records in their order. *)
Definition listed m (l : list A) : Prop := l ≡ₚ (map_to_list m).*2 /\ id_sorted idf l.

Definition list_sorted (limit : nat) : M S (list A) :=
  rows ← get_range (prefix sub) (Sub.range_end sub) limit;
  out ← decode_all rows;
  mret (sort_by (cmp_on idf) out).

Lemma table_size s m : table s m -> length (kv_range s (prefix sub) (Sub.range_end sub)) = size m.
Proof.
  intros Ht. destruct (table_listing s m Ht) as (l & Hl & Hp & _). rewrite (Forall2_length _ _ _ Hl).
  rewrite Hp, length_fmap. apply length_map_to_list.
Qed.

Lemma run_range_rows env (Henv : no_faults env) limit w m :
  table (w_kv w) m -> (size m <= limit)%nat ->
  exists n, get_range (prefix sub) (Sub.range_end sub) limit env w
    = (Ok (kv_range (w_kv w) (prefix sub) (Sub.range_end sub)),
       mkWorld (w_kv w) (w_cache w) (w_alloc w) (w_failpoints w) n).
Proof.
  intros Ht Hn. destruct (run_get_range_at env Henv (prefix sub) (Sub.range_end sub) limit None w) as [n E].
  exists n. unfold get_range. rewrite E. cbn [snapshot]. by rewrite take_ge by (by rewrite (table_size _ m)).
Qed.

Lemma run_list_sorted env (Henv : no_faults env) limit w m :
  table (w_kv w) m -> (size m <= limit)%nat ->
  exists l w', list_sorted limit env w = (Ok l, w') /\ idle w w' /\ listed m l.
Proof.
  intros Ht Hn. destruct (run_range_rows env Henv limit w m Ht Hn) as [n E].
  destruct (table_listing _ _ Ht) as (l & Hl & Hp & Hnd).
  eexists _, _. unfold list_sorted. rewrite (bind_run _ _ _ _ _ _ E).
  rewrite (bind_run _ _ _ _ _ _ (run_decode_all _ l _ _ Hl)). split; [reflexivity|]. split; [done|].
  split; [by rewrite sort_by_perm|by apply sort_by_id_sorted].
Qed.
End Table.
