(* ===== verification/Replication.v ===== *)
(** * Replication metadata

    [pelago-storage/src/replication.rs]: the registry of sites, the positions a
    replicator has reached in the logs of remote sites, and the lease under which
    one replicator of a scope is active.  The lease is a protocol between
    processes: its theorem is an invariant over every interleaving of attempts,
    faults and unrelated writes. *)

From S2P Require Import Prelude Bytes Text Errors Types Encoding Subspace SchemaTypes Fdb MemFdb Cdc Rows.

Record SiteClaim := mkSiteClaim { sc_site_id : string; sc_site_name : string; claimed_at : Z }.

Record ReplicationPosition := mkReplicationPosition {
  remote_site_id : string;
  last_applied_versionstamp : option Versionstamp.t;
  lag_events : Z;
  rp_updated_at : Z
}.

Record ReplicationLease := mkReplicationLease {
  rl_site_id : string;
  rl_database : string;
  rl_namespace : string;
  holder_id : string;
  rl_epoch : Z;
  lease_expires_at : Z;
  rl_updated_at : Z
}.

(** ** Keys *)

Definition site_claim_subspace : Subspace := Sub.child Sub.system "site_claim".
Definition replication_position_subspace : Subspace := Sub.child Sub.system "repl_position".
Definition scoped_replication_position_subspace (database namespace : string) : Subspace :=
  Sub.child (Sub.child (Sub.child Sub.system "repl_position_scoped") database) namespace.
Definition replicator_lease_subspace (site_id database namespace : string) : Subspace :=
  Sub.child (Sub.child (Sub.child (Sub.child Sub.system "repl_lease") site_id) database) namespace.

Definition site_claim_key (site_id : string) : bytes :=
  Tuple.build (Tuple.add_string (Sub.pack site_claim_subspace) site_id).
Definition replication_position_key (remote : string) : bytes :=
  Tuple.build (Tuple.add_string (Sub.pack replication_position_subspace) remote).
Definition scoped_replication_position_key (database namespace remote : string) : bytes :=
  Tuple.build (Tuple.add_string (Sub.pack (scoped_replication_position_subspace database namespace)) remote).
Definition replicator_lease_key (site_id database namespace : string) : bytes :=
  prefix (replicator_lease_subspace site_id database namespace).

(** ** Sites *)

(** [alias_matches.as_slice()] of the source, with the identifiers joined by
    commas in the message. *)
Definition resolve_site_identifier_from_claims (sites : list SiteClaim) (identifier : string) : result string :=
  let identifier := trim identifier in
  if String.eqb identifier "" then Err (InvalidValue "site_id" "site identifier cannot be empty") else
  match List.find (fun s => String.eqb (sc_site_id s) identifier) sites with
  | Some site => Ok (sc_site_id site)
  | None =>
      match List.filter (fun s => String.eqb (sc_site_name s) identifier) sites with
      | [single] => Ok (sc_site_id single)
      | [] => Err (InvalidValue "site_id" ("unknown site identifier '" ++ identifier ++ "'"))
      | many => Err (InvalidValue "site_id" ("ambiguous site alias '" ++ identifier ++ "'; matches site IDs ["
                  ++ String.concat "," (map sc_site_id many) ++ "]; use site ID"))
      end
  end.

Section Sites.
Context {S : Type} `{Fdb S} `{Cbor SiteClaim}.

(** [claim_site] after its read, which is a transaction of its own. *)
Definition claim_site_after (site_id site_name : string) (row : option bytes) : M S SiteClaim :=
  match row with
  | Some b =>
      existing ← lift (decode_cbor b);
      if negb (String.eqb (sc_site_name existing) site_name) then
        throw (Internal ("site id '" ++ site_id ++ "' already claimed by '" ++ sc_site_name existing ++ "'"))
      else mret existing
  | None =>
      t ← now;
      let claim := mkSiteClaim site_id site_name t in
      value ← lift (encode_cbor claim);
      db_set (site_claim_key site_id) value ;;
      mret claim
  end.

Definition claim_site (site_id site_name : string) : M S SiteClaim :=
  row ← db_get (site_claim_key site_id);
  claim_site_after site_id site_name row.

Definition list_sites : M S (list SiteClaim) := list_sorted site_claim_subspace sc_site_id 10000.

Definition resolve_site_identifier (identifier : string) : M S string :=
  sites ← list_sites;
  lift (resolve_site_identifier_from_claims sites identifier).
End Sites.

(** ** Positions *)

Section Positions.
Context {S : Type} `{Fdb S} `{Cbor ReplicationPosition}.

Definition update_replication_position (remote : string) (versionstamp : option Versionstamp.t) (lag : Z)
    : M S ReplicationPosition :=
  t ← now;
  let pos := mkReplicationPosition remote versionstamp lag t in
  value ← lift (encode_cbor pos);
  db_set (replication_position_key remote) value ;;
  mret pos.

Definition get_replication_positions : M S (list ReplicationPosition) :=
  list_sorted replication_position_subspace remote_site_id 10000.

Definition update_replication_position_scoped (database namespace remote : string)
    (versionstamp : option Versionstamp.t) (lag : Z) : M S ReplicationPosition :=
  t ← now;
  let pos := mkReplicationPosition remote versionstamp lag t in
  value ← lift (encode_cbor pos);
  db_set (scoped_replication_position_key database namespace remote) value ;;
  mret pos.

Definition get_replication_positions_scoped (database namespace : string) : M S (list ReplicationPosition) :=
  list_sorted (scoped_replication_position_subspace database namespace) remote_site_id 10000.
End Positions.

(** ** The lease *)

(** [i64::saturating_add] and [saturating_mul] of an exact result. *)
Definition i64_saturate (z : Z) : Z := Z.max (- 2 ^ 63) (Z.min z (2 ^ 63 - 1)).

Section Lease.
Context {S : Type} `{Fdb S} `{Cbor ReplicationLease}.

Definition get_replicator_lease (site_id database namespace : string) : M S (option ReplicationLease) :=
  value ← db_get (replicator_lease_key site_id database namespace);
  match value with
  | Some b => l ← lift (decode_cbor b); mret (Some l)
  | None => mret None
  end.

(** The epoch a candidate gets, unless another holder's lease is running. *)
Definition next_epoch (existing : option ReplicationLease) (holder : string) (now : Z) : option Z :=
  match existing with
  | None => Some 1
  | Some current =>
      if negb (String.eqb (holder_id current) holder) && (now <? lease_expires_at current) then None
      else Some (if String.eqb (holder_id current) holder then rl_epoch current
                 else u64_saturating_add (rl_epoch current) 1)
  end.

(** The transaction of [try_acquire_replicator_lease], at a clock reading. *)
Definition acquire_at (site_id database namespace holder : string) (ttl_micros now : Z)
    : M S (option ReplicationLease) :=
  let key := replicator_lease_key site_id database namespace in
  t ← create_transaction;
  row ← trx_get (fun e => Internal ("replication lease get failed: " ++ e)) t key;
  existing ← match row with
             | Some b => l ← lift (decode_cbor b); mret (Some l)
             | None => mret None
             end;
  match next_epoch existing holder now with
  | None => mret None
  | Some e =>
      let lease := mkReplicationLease site_id database namespace holder e
                     (i64_saturate (now + ttl_micros)) now in
      value ← lift (encode_cbor lease);
      Failpoints.inject "replication.lease.before_commit" ;;
      commit (fun m => Internal ("replication lease commit failed: " ++ m)) (kv_set t key value) ;;
      mret (Some lease)
  end.

Definition try_acquire_replicator_lease (site_id database namespace holder : string) (lease_ttl_ms : Z)
    : M S (option ReplicationLease) :=
  let ttl_ms := Z.max lease_ttl_ms 1 in
  let ttl_micros := i64_saturate (wrap_i64 ttl_ms * 1000) in
  t ← now;
  acquire_at site_id database namespace holder ttl_micros t.
End Lease.

(** ** Sites: what the registry promises *)

Lemma find_site_Some (sites : list SiteClaim) (i : string) (s : SiteClaim) :
  List.find (fun s => String.eqb (sc_site_id s) i) sites = Some s -> s ∈ sites /\ sc_site_id s = i.
Proof.
  intros [Hin Hi%String.eqb_eq]%List.find_some. split; [|done]. by apply list_elem_of_In.
Qed.

Lemma find_site_None (sites : list SiteClaim) (i : string) (s : SiteClaim) :
  List.find (fun s => String.eqb (sc_site_id s) i) sites = None -> s ∈ sites -> sc_site_id s <> i.
Proof. intros Hn Hin%list_elem_of_In. by apply String.eqb_neq, (List.find_none _ _ Hn). Qed.

Lemma elem_of_alias (sites : list SiteClaim) (i : string) (s : SiteClaim) :
  s ∈ List.filter (fun s => String.eqb (sc_site_name s) i) sites <-> s ∈ sites /\ sc_site_name s = i.
Proof. rewrite !list_elem_of_In, List.filter_In, String.eqb_eq. done. Qed.

(** What an identifier may resolve to: the site with that identifier, or, when
    there is none, the only site with that name. *)
Definition resolves (sites : list SiteClaim) (identifier id : string) : Prop :=
  identifier <> "" /\
  ((id = identifier /\ exists s, s ∈ sites /\ sc_site_id s = identifier) \/
   (~ (exists s, s ∈ sites /\ sc_site_id s = identifier) /\
    exists s, s ∈ sites /\ sc_site_name s = identifier /\ sc_site_id s = id /\
      forall s', s' ∈ sites -> sc_site_name s' = identifier -> s' = s)).

Lemma resolve_from_claims (sites : list SiteClaim) (identifier id : string) :
  NoDup sites ->
  resolve_site_identifier_from_claims sites identifier = Ok id <-> resolves sites (trim identifier) id.
Proof.
  intros Hnd. unfold resolve_site_identifier_from_claims, resolves. generalize (trim identifier) as i. intros i.
  destruct (String.eqb_spec i "") as [->|Hi]; [naive_solver|].
  destruct (List.find _ sites) as [s|] eqn:Ef.
  { apply find_site_Some in Ef as [Hin <-]. naive_solver. }
  assert (Hno : ~ exists s, s ∈ sites /\ sc_site_id s = i) by (intros (s & Hs & Hsi); by eapply find_site_None).
  pose proof (elem_of_alias sites i) as Ha.
  assert (Hnf : NoDup (List.filter (fun s => String.eqb (sc_site_name s) i) sites))
    by (apply NoDup_ListNoDup, List.NoDup_filter; by apply NoDup_ListNoDup).
  destruct (List.filter _ sites) as [|s1 [|s2 rest]].
  - split; [done|]. intros [_ [[_ ?]|[_ (s & Hs & Hn & _)]]]; [done|].
    exfalso. apply (not_elem_of_nil s), Ha. done.
  - assert (s1 ∈ sites /\ sc_site_name s1 = i) as [Hs1 Hn1] by (apply Ha; left). split.
    + intros [= <-]. split; [done|]. right. split; [done|]. exists s1. repeat (split; [done|]).
      intros s' Hs' Hn'. by apply list_elem_of_singleton, Ha.
    + intros [_ [[_ ?]|[_ (s & Hs & Hn & <- & _)]]]; [done|]. f_equal. f_equal.
      symmetry. by apply list_elem_of_singleton, Ha.
  - split; [done|]. intros [_ [[_ ?]|[_ (s & Hs & Hn & _ & Hu)]]]; [done|]. exfalso.
    assert (s1 = s) as -> by (apply Hu; apply Ha; set_solver).
    assert (s2 = s) as -> by (apply Hu; apply Ha; set_solver).
    apply NoDup_cons in Hnf as [Hnf _]. apply Hnf. left.
Qed.

Section SiteFacts.
Context {S : Type} `{FdbLaws S} `{CborLaws SiteClaim id (fun _ => True)}.
Context (env : Env) (Henv : no_faults env).
Implicit Types (w : World S) (m : gmap string SiteClaim).

Definition sites_are w m : Prop := table site_claim_subspace sc_site_id (w_kv w) m.

Lemma sites_idle w w' m : idle w w' -> sites_are w m -> sites_are w' m.
Proof. unfold sites_are. by intros [-> _]. Qed.

(** Every branch of a claim. *)
Lemma run_claim_site w m site_id name :
  sites_are w m ->
  exists r w', claim_site site_id name env w = (r, w') /\
    match m !! site_id with
    | Some c => idle w w' /\
        r = if String.eqb (sc_site_name c) name then Ok c
            else Err (Internal ("site id '" ++ site_id ++ "' already claimed by '" ++ sc_site_name c ++ "'"))
    | None => exists c, r = Ok c /\ sc_site_id c = site_id /\ sc_site_name c = name /\ sites_are w' (<[site_id := c]> m)
    end.
Proof.
  intros Ht. unfold claim_site. rewrite (bind_run _ _ _ _ _ _ (run_db_get env Henv _ _)).
  pose proof (table_get _ _ _ _ site_id Ht) as Hg. change (row_key site_claim_subspace site_id) with (site_claim_key site_id) in Hg.
  unfold claim_site_after. destruct (kv_get (w_kv w) (site_claim_key site_id)) as [b|].
  - destruct Hg as (c & Ec & -> & Hid). rewrite Ec, run_lift.
    destruct (String.eqb (sc_site_name c) name); eexists _, _; (split; [reflexivity|]); done.
  - rewrite Hg. mrun Henv. set (c := mkSiteClaim _ _ _). destruct (encode_cbor_total c) as (v & Ev & _). rewrite Ev.
    mrun Henv. rewrite (bind_run _ _ _ _ _ _ (run_db_set env Henv _ _ _)).
    eexists _, _. split; [reflexivity|]. exists c. split; [done|]. split; [done|]. split; [done|].
    exact (table_insert site_claim_subspace sc_site_id (w_kv w) m c v I Ev Ht).
Qed.

Lemma listed_sites m l : map_Forall (fun i c => sc_site_id c = i) m -> listed sc_site_id m l ->
  NoDup l /\ forall s, s ∈ l <-> m !! sc_site_id s = Some s.
Proof.
  intros Hid [Hp Hs]. split.
  - clear Hp. induction l as [|x l IH]; [constructor|]. apply StronglySorted_inv in Hs as [Hs Hx]. constructor; [|auto].
    intros Hin. rewrite Forall_forall in Hx. by apply (irreflexivity blt (sbytes (sc_site_id x))), Hx.
  - intros s. rewrite Hp, list_elem_of_fmap. split.
    + intros ([i c] & -> & Hc%elem_of_map_to_list). cbn. by rewrite (Hid _ _ Hc).
    + intros Hc. exists (sc_site_id s, s). split; [done|]. by apply elem_of_map_to_list.
Qed.

Lemma run_resolve w m identifier :
  sites_are w m -> (size m <= 10000)%nat ->
  exists sites w', resolve_site_identifier identifier env w = (resolve_site_identifier_from_claims sites identifier, w') /\
    idle w w' /\ NoDup sites /\ forall s, s ∈ sites <-> m !! sc_site_id s = Some s.
Proof.
  intros Ht Hn. destruct (run_list_sorted site_claim_subspace sc_site_id env Henv 10000 w m Ht Hn) as (l & w' & E & Hw & Hl).
  exists l, w'. unfold resolve_site_identifier, list_sites. rewrite (bind_run _ _ _ _ _ _ E). split; [done|]. split; [done|].
  apply listed_sites; [exact (table_ids _ _ _ _ Ht)|done].
Qed.
End SiteFacts.

(** The registry of sites.  A claim of a free identifier succeeds and is
    stored; a repeated claim under the same name returns the stored claim; a claim
    under another name is refused; and identifiers resolve against the registry:
    an identifier to itself, a name to the only site that has it. *)
Theorem site_registry_correct {S} `{FdbLaws S} `{CborLaws SiteClaim id (fun _ => True)}
    env (w : World S) (m : gmap string SiteClaim) (site_id name other identifier : string) :
  no_faults env -> sites_are w m -> m !! site_id = None -> other <> name -> (size m < 10000)%nat ->
  exists c w1, claim_site site_id name env w = (Ok c, w1) /\ sites_are w1 (<[site_id := c]> m) /\
    sc_site_id c = site_id /\ sc_site_name c = name /\
    (exists w2, claim_site site_id name env w1 = (Ok c, w2) /\ idle w1 w2) /\
    (exists e w2, claim_site site_id other env w1 = (Err e, w2) /\ idle w1 w2) /\
    exists sites w2, (forall s, s ∈ sites <-> <[site_id := c]> m !! sc_site_id s = Some s) /\
      resolve_site_identifier identifier env w1 = (resolve_site_identifier_from_claims sites identifier, w2) /\
      forall id, resolve_site_identifier_from_claims sites identifier = Ok id <-> resolves sites (trim identifier) id.
Proof.
  intros Henv Ht Hnone Hne Hn.
  destruct (run_claim_site env Henv w m site_id name Ht) as (r & w1 & E & Hr). rewrite Hnone in Hr.
  destruct Hr as (c & -> & Hid & Hname & Ht1). exists c, w1. repeat (split; [done|]).
  pose proof (run_claim_site env Henv w1 _ site_id name Ht1) as (r1 & w2 & E1 & Hr1).
  pose proof (run_claim_site env Henv w1 _ site_id other Ht1) as (r2 & w3 & E2 & Hr2).
  rewrite lookup_insert_eq, Hname in Hr1, Hr2. rewrite String.eqb_refl in Hr1.
  rewrite (proj2 (String.eqb_neq name other)) in Hr2 by done. destruct Hr1 as [Hw1 ->], Hr2 as [Hw2 ->].
  split; [by eauto|]. split; [by eauto|].
  destruct (run_resolve env Henv w1 _ identifier Ht1) as (sites & w4 & E4 & _ & Hnd & Hin).
  { rewrite map_size_insert, Hnone. lia. }
  exists sites, w4. split; [done|]. split; [done|]. intros id. by apply resolve_from_claims.
Qed.

(** ** The lease protocol *)

Section LeaseFacts.
Context {S : Type} `{FdbLaws S} `{CborLaws ReplicationLease id (fun _ => True)} (site db ns : string).
Implicit Types (w : World S) (l : ReplicationLease).

Let key := replicator_lease_key site db ns.

Definition lease_row w (o : option ReplicationLease) : Prop :=
  match kv_get (w_kv w) key with Some b => exists l, decode_cbor b = Ok l /\ o = Some l | None => o = None end.

Lemma settles_acquire_at holder ttl t : settles (acquire_at site db ns holder ttl t : M S _).
Proof. unfold acquire_at. solve_settles. Qed.
Lemma errs_acquire_at holder ttl t : errs same_kv (acquire_at site db ns holder ttl t : M S _).
Proof. unfold acquire_at. solve_errs. Qed.

(** The read of an attempt. *)
Lemma run_row {B} env (Henv : no_faults env) w o mk (f : S -> option ReplicationLease -> M S B) :
  lease_row w o ->
  (t ← create_transaction; row ← trx_get mk t key;
   existing ← match row with Some b => l ← lift (decode_cbor b); mret (Some l) | None => mret None end;
   f t existing) env w = f (w_kv w) o env (next_tick (next_tick w)).
Proof.
  intros Hrow. mrun Henv. unfold lease_row in Hrow.
  destruct (kv_get (w_kv w) key); [destruct Hrow as (c & E & ->)|by subst].
  by rewrite E.
Qed.

(** An attempt in any environment: it fails or is refused and the key space is
    unchanged, or it stores the lease it returns. *)
Lemma acquire_at_cases env w o holder ttl t r w' :
  lease_row w o -> acquire_at site db ns holder ttl t env w = (r, w') ->
  match r with
  | Ok (Some l) => exists e, next_epoch o holder t = Some e /\ lease_row w' (Some l) /\
      l = mkReplicationLease site db ns holder e (i64_saturate (t + ttl)) t /\
      forall k, k <> key -> kv_get (w_kv w') k = kv_get (w_kv w) k
  | Ok None => next_epoch o holder t = None /\ w_kv w' = w_kv w
  | Err _ => w_kv w' = w_kv w
  end.
Proof.
  intros Hrow E. destruct r as [[l|]|e]; [apply settles_acquire_at in E..|by eapply errs_acquire_at].
  - unfold acquire_at in E. fold key in E. rewrite run_row with (o := o) in E by (done || apply calm_no_faults).
    destruct (next_epoch o holder t) as [e|]; [|done]. exists e. split; [done|].
    set (lease := mkReplicationLease _ _ _ _ _ _ _) in E. destruct (encode_cbor_total lease) as (v & Ev & _).
    rewrite Ev, run_lift in E. apply bind_ok in E as ([] & w1 & E1 & E).
    assert (w_kv w1 = w_kv w) as Hw1 by (pose proof (steps_inject same_kv "replication.lease.before_commit" (calm env) (next_tick (next_tick w))) as Hs;
      rewrite E1 in Hs; exact Hs).
    rewrite (bind_run _ _ _ _ _ _ (run_commit (calm env) (calm_no_faults env) _ _ _)) in E.
    injection E as <- <-. split; [|split; [done|]].
    + unfold lease_row. cbn [w_kv set_kv]. rewrite kv_get_set, decide_True by done. exists lease. split; [|done].
      exact (decode_encode_cbor lease v I Ev).
    + intros k Hk. cbn [w_kv set_kv]. by rewrite kv_get_set, decide_False by congruence.
  - unfold acquire_at in E. fold key in E. rewrite run_row with (o := o) in E by (done || apply calm_no_faults).
    destruct (next_epoch o holder t) as [e|]; [|by injection E as <-].
    exfalso. repeat (apply bind_ok in E as (? & ? & _ & E)). done.
Qed.

(** The processes of the protocol: the shared world, the time, and the lease each
    process was last granted. *)
Record LeaseState := mkLeaseState {
  ls_world : World S;
  ls_time : Z;
  ls_held : gmap string ReplicationLease
}.

Definition grant (held : gmap string ReplicationLease) (holder : string) (r : result (option ReplicationLease)) :=
  match r with Ok (Some l) => <[holder := l]> held | _ => held end.

(** Time passes; anything may be written outside the row of the lease; any
    process may attempt to acquire, at a clock reading taken at any moment before
    its transaction, in an environment with any faults. *)
Inductive lease_step : LeaseState -> LeaseState -> Prop :=
  | step_time w t t' held : t <= t' -> lease_step (mkLeaseState w t held) (mkLeaseState w t' held)
  | step_other w w' t held : kv_get (w_kv w') key = kv_get (w_kv w) key ->
      lease_step (mkLeaseState w t held) (mkLeaseState w' t held)
  | step_attempt env w w' t now holder ttl r held :
      now <= t -> acquire_at site db ns holder ttl now env w = (r, w') ->
      lease_step (mkLeaseState w t held) (mkLeaseState w' t (grant held holder r)).

Definition lease_start (st : LeaseState) : Prop := lease_row (ls_world st) None /\ ls_held st = ∅.

(** The lease of the row is the last grant of its holder; the grants of the
    others have run out and carry older epochs. *)
Definition older (t : Z) (current l : ReplicationLease) : Prop :=
  lease_expires_at l <= t /\ (rl_epoch l < rl_epoch current \/ rl_epoch current = U64_MAX).

Definition lease_inv (st : LeaseState) : Prop :=
  exists o, lease_row (ls_world st) o /\
    match o with
    | None => ls_held st = ∅
    | Some current => ls_held st !! holder_id current = Some current /\
        map_Forall (fun h l => if decide (h = holder_id current) then l = current
                               else older (ls_time st) current l) (ls_held st)
    end.

Lemma lease_start_inv st : lease_start st -> lease_inv st.
Proof. intros [Hr Hh]. by exists None. Qed.

Lemma next_epoch_other current holder t e :
  holder <> holder_id current -> next_epoch (Some current) holder t = Some e ->
  lease_expires_at current <= t /\ e = u64_saturating_add (rl_epoch current) 1.
Proof.
  intros Hne. unfold next_epoch. rewrite (proj2 (String.eqb_neq _ _) (not_eq_sym Hne)). cbn [negb andb].
  destruct (Z.ltb_spec t (lease_expires_at current)); [done|]. intros [= <-]. done.
Qed.

Lemma older_takeover t current l l' :
  older t current l -> rl_epoch l' = u64_saturating_add (rl_epoch current) 1 -> older t l' l.
Proof. unfold older, u64_saturating_add. intros [? [?|?]] ->; (split; [done|]); lia. Qed.

(** After a grant the lease of the row is the new one. *)
Lemma held_granted (held : gmap string ReplicationLease) t now current holder e l :
  now <= t -> next_epoch (Some current) holder now = Some e -> rl_epoch l = e -> holder_id l = holder ->
  map_Forall (fun h l => if decide (h = holder_id current) then l = current else older t current l) held ->
  map_Forall (fun h l' => if decide (h = holder_id l) then l' = l else older t l l') (<[holder := l]> held).
Proof.
  intros Hnow He Hle Hh Hinv h lh. rewrite lookup_insert_Some. intros [[<- <-]|[Hne Hlh]]; [by rewrite decide_True|].
  rewrite decide_False by congruence. specialize (Hinv h lh Hlh). cbn in Hinv.
  destruct (decide (holder = holder_id current)) as [->|Hoth].
  - rewrite decide_False in Hinv by done. unfold next_epoch in He. rewrite String.eqb_refl in He. cbn in He.
    injection He as He. destruct Hinv as [? ?]. split; [done|]. rewrite Hle. by rewrite <- He.
  - apply next_epoch_other in He as [Hexp He]; [|done]. rewrite He in Hle. destruct (decide (h = holder_id current)) as [->|_].
    + subst lh. split; [lia|]. rewrite Hle. unfold u64_saturating_add. lia.
    + by eapply older_takeover.
Qed.

Lemma lease_inv_step st st' : lease_inv st -> lease_step st st' -> lease_inv st'.
Proof.
  intros (o & Hrow & Hinv) Hstep. destruct Hstep as [w t t' held Ht|w w' t held Hk|env w w' t now holder ttl r held Hnow E];
    cbn [ls_world ls_time ls_held] in *.
  - exists o. split; [done|]. destruct o as [current|]; [|done]. destruct Hinv as [Hc Hinv]. split; [done|].
    eapply map_Forall_impl; [exact Hinv|].
    intros h l. cbn. case_decide; [done|]. intros [? ?]. split; [lia|done].
  - exists o. split; [|done]. unfold lease_row in *. cbn [ls_world] in *. by rewrite Hk.
  - pose proof (acquire_at_cases env w o holder ttl now r w' Hrow E) as Hc. destruct r as [[l|]|e]; cbn [grant].
    + destruct Hc as (e & He & Hrow' & -> & _). set (l := mkReplicationLease _ _ _ _ _ _ _) in *.
      exists (Some l). split; [done|]. cbn [ls_held ls_time].
      split; [by apply lookup_insert_eq|]. destruct o as [current|]; [destruct Hinv as [_ Hinv]|rewrite Hinv; apply map_Forall_insert_2; [by rewrite decide_True|apply map_Forall_empty]].
      by eapply held_granted.
    + exists o. split; [|done]. destruct Hc as [_ Hk]. unfold lease_row in *. cbn [ls_world]. by rewrite Hk.
    + exists o. split; [|done]. unfold lease_row in *. cbn [ls_world]. by rewrite Hc.
Qed.

Lemma lease_reachable_inv st st' : lease_start st -> rtc lease_step st st' -> lease_inv st'.
Proof.
  intros H3%lease_start_inv Hr. induction Hr as [|st st1 st2 Hstep _ IH]; [done|]. apply IH. by eapply lease_inv_step.
Qed.

(** Without faults an attempt is granted exactly when an epoch is. *)
Lemma run_acquire_at env (Henv : no_faults env) w o holder ttl t :
  no_failpoints w -> lease_row w o ->
  exists w', acquire_at site db ns holder ttl t env w =
    (Ok ((fun e => mkReplicationLease site db ns holder e (i64_saturate (t + ttl)) t) <$> next_epoch o holder t), w').
Proof.
  intros Hfp Hrow. unfold acquire_at. fold key. rewrite (run_row env Henv w o) by done.
  destruct (next_epoch o holder t) as [e|]; [|by eexists].
  set (l := mkReplicationLease _ _ _ _ _ _ _). destruct (encode_cbor_total l) as (v & Ev & _). rewrite Ev.
  assert (no_failpoints (next_tick (next_tick w))) as Hfp' by done. mrunf Henv Hfp'. by eexists.
Qed.
End LeaseFacts.

(** C25: the replicator lease.  From a state without a lease, through any
    interleaving of attempts (each at a clock reading no later than the time of
    its transaction), faults and other writes: while the lease last granted to one
    process runs, the leases last granted to all others have run out and carry
    smaller epochs (until the epoch saturates); and a lease that has run out can
    be taken over by any process. *)
Theorem replicator_lease_exclusive {S} `{FdbLaws S} `{CborLaws ReplicationLease id (fun _ => True)}
    (site db ns : string) (st st' : LeaseState) :
  lease_start site db ns st -> rtc (lease_step site db ns) st st' ->
  (forall h1 l1 h2 l2, ls_held st' !! h1 = Some l1 -> ls_held st' !! h2 = Some l2 -> h1 <> h2 ->
    ls_time st' < lease_expires_at l1 ->
    lease_expires_at l2 <= ls_time st' /\ (rl_epoch l2 < rl_epoch l1 \/ rl_epoch l1 = U64_MAX)) /\
  ((forall h l, ls_held st' !! h = Some l -> lease_expires_at l <= ls_time st') ->
   forall env holder ttl, no_faults env -> no_failpoints (ls_world st') ->
     exists l w', acquire_at site db ns holder ttl (ls_time st') env (ls_world st') = (Ok (Some l), w')).
Proof.
  intros Hs Hr. destruct (lease_reachable_inv site db ns st st' Hs Hr) as (o & Hrow & Hinv). split.
  - intros h1 l1 h2 l2 H1l H2l Hne Ht. destruct o as [c|]; [|by rewrite Hinv, lookup_empty in H1l].
    destruct Hinv as [_ Hinv]. pose proof (Hinv h1 l1 H1l) as Hl1. pose proof (Hinv h2 l2 H2l) as Hl2. cbn in Hl1, Hl2.
    destruct (decide (h1 = holder_id c)) as [->|Hc]; [|destruct Hl1; lia]. subst l1.
    by rewrite decide_False in Hl2 by done.
  - intros Hexp env holder ttl Henv Hfp.
    destruct (run_acquire_at site db ns env Henv (ls_world st') o holder ttl (ls_time st') Hfp Hrow) as [w' E].
    assert (exists e, next_epoch o holder (ls_time st') = Some e) as [e He]; [|rewrite He in E; eauto].
    destruct o as [c|]; [|by exists 1]. destruct Hinv as [Hc _]. specialize (Hexp _ _ Hc). unfold next_epoch.
    rewrite (proj2 (Z.ltb_ge _ _)) by done. rewrite andb_false_r. by eexists.
Qed.

(** ** A concrete registry *)

#[export] Instance SiteClaim_eq_dec : EqDecision SiteClaim.
Proof. solve_decision. Defined.
#[export] Instance SiteClaim_countable : Countable SiteClaim.
Proof.
  refine (inj_countable' (fun c => (sc_site_id c, sc_site_name c, claimed_at c)) (fun '(a, b, c) => mkSiteClaim a b c) _).
  by intros [].
Defined.
#[export] Instance site_cbor : Cbor SiteClaim | 100 := countable_cbor SiteClaim id.
#[export] Instance site_cbor_laws : CborLaws SiteClaim id (fun _ => True).
Proof. apply countable_cbor_laws. Qed.

#[export] Instance ReplicationPosition_eq_dec : EqDecision ReplicationPosition.
Proof. solve_decision. Defined.
#[export] Instance ReplicationPosition_countable : Countable ReplicationPosition.
Proof.
  refine (inj_countable' (fun p => (remote_site_id p, last_applied_versionstamp p, lag_events p, rp_updated_at p))
    (fun '(a, b, c, d) => mkReplicationPosition a b c d) _).
  by intros [].
Defined.
#[export] Instance position_cbor : Cbor ReplicationPosition | 100 := countable_cbor ReplicationPosition id.
#[export] Instance position_cbor_laws : CborLaws ReplicationPosition id (fun _ => True).
Proof. apply countable_cbor_laws. Qed.

#[export] Instance ReplicationLease_eq_dec : EqDecision ReplicationLease.
Proof. solve_decision. Defined.
#[export] Instance ReplicationLease_countable : Countable ReplicationLease.
Proof.
  refine (inj_countable' (fun l => (rl_site_id l, rl_database l, rl_namespace l, holder_id l, rl_epoch l, lease_expires_at l, rl_updated_at l))
    (fun '(a, b, c, d, e, f, g) => mkReplicationLease a b c d e f g) _).
  by intros [].
Defined.
#[export] Instance lease_cbor : Cbor ReplicationLease | 100 := countable_cbor ReplicationLease id.
#[export] Instance lease_cbor_laws : CborLaws ReplicationLease id (fun _ => True).
Proof. apply countable_cbor_laws. Qed.

Lemma site_registry_correct_witness :
  exists c w1, claim_site "2" "eu" quiet_env (claim_site "1" "us" quiet_env empty_world).2 = (Ok c, w1) /\ sc_site_name c = "eu".
Proof.
  destruct (site_registry_correct quiet_env (claim_site "1" "us" quiet_env empty_world).2
    {["1" := mkSiteClaim "1" "us" 2]} "2" "eu" "ap" "us") as (c & w1 & E & _ & _ & Hn & _).
  - apply quiet_env_ok.
  - unfold sites_are. destruct (encode_cbor_total (mkSiteClaim "1" "us" 2)) as (v & Ev & _).
    assert (w_kv (claim_site "1" "us" quiet_env empty_world).2
      = kv_set empty_kv (row_key site_claim_subspace "1") v) as -> by (injection Ev as <-; vm_compute; reflexivity).
    apply (table_insert site_claim_subspace sc_site_id empty_kv ∅ (mkSiteClaim "1" "us" 2) v I Ev).
    by apply table_empty.
  - reflexivity.
  - discriminate.
  - rewrite map_size_singleton. apply Nat.ltb_lt. vm_compute. reflexivity.
  - exists c, w1. split; [exact E|exact Hn].
Defined.

(** Two replicators: the first acquires at time 10 for 1000 microseconds, the
    second takes over at time 2000. *)
Definition lease_a : result (option ReplicationLease) * World MemKv :=
  acquire_at "s" "db" "ns" "a" 1000 10 quiet_env empty_world.
Definition lease_b : result (option ReplicationLease) * World MemKv :=
  acquire_at "s" "db" "ns" "b" 1000 2000 quiet_env lease_a.2.

Definition lease_after : LeaseState :=
  mkLeaseState lease_b.2 2000 (grant (grant ∅ "a" lease_a.1) "b" lease_b.1).

Lemma replicator_lease_exclusive_witness :
  exists la lb, ls_held lease_after !! "a" = Some la /\ ls_held lease_after !! "b" = Some lb /\
    rl_epoch lb = 2 /\ lease_expires_at la <= 2000.
Proof.
  destruct (replicator_lease_exclusive "s" "db" "ns" (mkLeaseState empty_world 10 ∅) lease_after) as [Hex _].
  - split; reflexivity.
  - apply (rtc_l _ _ (mkLeaseState lease_a.2 10 (grant ∅ "a" lease_a.1))).
    { apply (step_attempt "s" "db" "ns" quiet_env _ _ 10 10 "a" 1000); [lia|apply surjective_pairing]. }
    apply (rtc_l _ _ (mkLeaseState lease_a.2 2000 (grant ∅ "a" lease_a.1))); [by apply step_time|].
    apply rtc_once, (step_attempt "s" "db" "ns" quiet_env _ _ 2000 2000 "b" 1000); [lia|apply surjective_pairing].
  - eexists _, _. split; [vm_compute; reflexivity|]. split; [vm_compute; reflexivity|]. split; [reflexivity|].
    eapply (Hex "b" _ "a" _); [vm_compute; reflexivity|vm_compute; reflexivity|discriminate|vm_compute; reflexivity].
Defined.

(** The read and the write of a claim are separate transactions: two processes
    that both read before either writes both hold the same site identifier, under
    different names. *)
Lemma claim_site_race :
  exists c1 c2 w1 w2,
    claim_site_after "1" "us" (kv_get (w_kv empty_world) (site_claim_key "1")) quiet_env empty_world = (Ok c1, w1) /\
    claim_site_after "1" "eu" (kv_get (w_kv empty_world) (site_claim_key "1")) quiet_env w1 = (Ok c2, w2) /\
    sc_site_id c1 = sc_site_id c2 /\ sc_site_name c1 <> sc_site_name c2.
Proof.
  eexists _, _, _, _. split; [vm_compute; reflexivity|]. split; [vm_compute; reflexivity|]. done.
Qed.

(** A time to live of more than 2^63 milliseconds becomes negative in the cast to
    [i64]: the granted lease has run out already. *)
Lemma lease_ttl_wraps :
  exists l w', try_acquire_replicator_lease "s" "db" "ns" "a" (2 ^ 63) quiet_env empty_world = (Ok (Some l), w') /\
    lease_expires_at l < rl_updated_at l.
Proof. eexists _, _. split; [vm_compute; reflexivity|]. reflexivity. Qed.
