(* ===== verification/Security.v ===== *)
(** * The security store

    [pelago-storage/src/security.rs]: authorization policies, token sessions and
    the audit log, kept in the system subspace.  A permission names its resource
    by three fields or by a path with wildcards; [globs] is the meaning of such a
    path and [path_match] is proved to decide it. *)

From S2P Require Import Prelude Bytes Text Errors Types Encoding Subspace SchemaTypes Fdb MemFdb Cdc Jobs Rows.

Record PolicyPermission := mkPolicyPermission {
  pp_database : string;
  pp_namespace : string;
  pp_entity_type : string;
  actions : list string;
  pp_path : string
}.

Record AuthPolicy := mkAuthPolicy {
  policy_id : string;
  pol_principal_id : string;
  permissions : list PolicyPermission;
  pol_created_at : Z
}.

Record AuditRecord := mkAuditRecord {
  event_id : string;
  au_timestamp : Z;
  au_principal_id : string;
  au_action : string;
  resource : string;
  allowed : bool;
  au_reason : string;
  au_metadata : gmap string string
}.

Record AuthTokenSession := mkAuthTokenSession {
  access_token : string;
  refresh_token : string;
  ts_principal_id : string;
  ts_principal_type : string;
  ts_roles : list string;
  issued_at : Z;
  ts_expires_at : Z;
  revoked_at : option Z
}.

Record RefreshTokenBinding := mkRefreshTokenBinding { rb_access_token : string; rb_expires_at : Z }.

(** ** Matching *)

(** [u8::to_ascii_lowercase], and [str::eq_ignore_ascii_case] from it. *)
Definition ascii_lower (b : byte) : byte := if in_range 65 90 b then b8 (u8b b + 32) else b.
Definition to_ascii_lowercase (s : string) : string := bstr (map ascii_lower (sbytes s)).
Definition eq_ignore_ascii_case (a b : string) : bool := String.eqb (to_ascii_lowercase a) (to_ascii_lowercase b).

(** [str::starts_with] *)
Definition starts_with (s p : string) : bool := String.prefix p s.

Definition field_match (rule value : string) : bool :=
  String.eqb rule "*" || String.eqb rule "+" || String.eqb rule "" || String.eqb rule value.

Definition action_match (rule action : string) : bool :=
  String.eqb rule "*" || eq_ignore_ascii_case rule action.

Definition action_subspace (action : string) : string :=
  if starts_with action "schema." then "_schema"
  else if starts_with action "edge." then "edge"
  else if starts_with action "auth.policy." then "_sys/policies"
  else if starts_with action "auth.token." then "_sys/tokens"
  else if starts_with action "replication." then "_replication"
  else "data".

Definition build_resource_path (action database namespace entity_type : string) : string :=
  let subspace := action_subspace action in
  if String.eqb entity_type "" then (database ++ "/" ++ namespace ++ "/" ++ subspace)%string
  else (database ++ "/" ++ namespace ++ "/" ++ subspace ++ "/" ++ entity_type)%string.

(** The non-empty segments of a path. *)
Definition segments (path : string) : list string :=
  map bstr (List.filter (fun seg => negb (bool_decide (seg = []))) (split_on Byte.x2f (sbytes path))).

Fixpoint path_match_segments (rule value : list string) : bool :=
  match rule with
  | [] => match value with [] => true | _ => false end
  | seg :: rule' =>
      if String.eqb seg "*" then
        match value with [] => false | _ :: value' => path_match_segments rule' value' end
      else if String.eqb seg "+" then
        match value with
        | [] => false
        | _ => existsb (fun consumed => path_match_segments rule' (drop consumed value)) (List.seq 1 (length value))
        end
      else
        match value with
        | v :: value' => if String.eqb v seg then path_match_segments rule' value' else false
        | [] => false
        end
  end.

Definition path_match (rule value : string) : bool := path_match_segments (segments rule) (segments value).

(** One permission against one request: the closure of [check_permission]. *)
Definition permission_grants (perm : PolicyPermission) (action database namespace entity_type : string) : bool :=
  let resource_path := build_resource_path action database namespace entity_type in
  let legacy_resource := (database ++ "/" ++ namespace ++ "/" ++ entity_type)%string in
  let resource_match :=
    if String.eqb (trim (pp_path perm)) "" then
      field_match (pp_database perm) database && field_match (pp_namespace perm) namespace
        && field_match (pp_entity_type perm) entity_type
    else path_match (pp_path perm) resource_path || path_match (pp_path perm) legacy_resource in
  resource_match && existsb (fun a => action_match a action) (actions perm).

(** ** Keys *)

Definition policy_subspace : Subspace := Sub.child Sub.system "policies".
Definition auth_access_subspace : Subspace := Sub.child (Sub.child Sub.system "auth") "access".
Definition auth_refresh_subspace : Subspace := Sub.child (Sub.child Sub.system "auth") "refresh".
Definition audit_subspace : Subspace := Sub.child Sub.system "audit".

Definition policy_key (id : string) : bytes := Tuple.build (Tuple.add_string (Sub.pack policy_subspace) id).
Definition access_token_key (token : string) : bytes :=
  Tuple.build (Tuple.add_string (Sub.pack auth_access_subspace) token).
Definition refresh_token_key (token : string) : bytes :=
  Tuple.build (Tuple.add_string (Sub.pack auth_refresh_subspace) token).
Definition audit_key (ts : Z) (id : string) : bytes :=
  Tuple.build (Tuple.add_string (Tuple.add_int (Sub.pack audit_subspace) ts) id).

Definition audit_range_start (from_ts : option Z) : bytes :=
  match from_ts with
  | Some ts => Tuple.build (Tuple.add_int (Sub.pack audit_subspace) ts)
  | None => prefix audit_subspace
  end.

Definition I64_MAX : Z := 2 ^ 63 - 1.

Definition audit_range_end_inclusive (to_ts : option Z) : bytes :=
  match to_ts with
  | Some ts =>
      if ts =? I64_MAX then Sub.range_end audit_subspace
      else Tuple.build (Tuple.add_int (Sub.pack audit_subspace) (Z.min (ts + 1) I64_MAX))
  | None => Sub.range_end audit_subspace
  end.

(** [now_secs]: the clock in whole seconds. *)
Definition now_secs {S} : M S Z := t ← now; mret (t / 1000000).

Lemma run_now_secs {S B} (f : Z -> M S B) env w :
  (now_secs ≫= f) env w = f (env_now env (w_tick w) / 1000000) env (next_tick w).
Proof. reflexivity. Qed.

(** ** Policies *)

Section Policies.
Context {S : Type} `{Fdb S} `{Cbor AuthPolicy}.

Definition upsert_policy (policy : AuthPolicy) : M S unit :=
  value ← lift (encode_cbor policy);
  db_set (policy_key (policy_id policy)) value.

Definition get_policy (id : string) : M S (option AuthPolicy) :=
  row ← db_get (policy_key id);
  match row with
  | Some b => p ← lift (decode_cbor b); mret (Some p)
  | None => mret None
  end.

Definition delete_policy (id : string) : M S bool :=
  row ← db_get (policy_key id);
  let exists_ := match row with Some _ => true | None => false end in
  when exists_ (db_clear (policy_key id)) ;;
  mret exists_.

Definition for_principal (principal_filter : option string) (p : AuthPolicy) : bool :=
  match principal_filter with Some id => String.eqb id (pol_principal_id p) | None => true end.

Definition list_policies (principal_filter : option string) : M S (list AuthPolicy) :=
  rows ← get_range (prefix policy_subspace) (Sub.range_end policy_subspace) 10000;
  out ← fold_m rows (fun out kv =>
    policy ← lift (decode_cbor kv.2);
    mret (if for_principal principal_filter policy then out ++ [policy] else out)) [];
  mret (sort_by (cmp_on policy_id) out).

Definition check_permission (principal_id action database namespace entity_type : string) : M S bool :=
  policies ← list_policies (Some principal_id);
  mret (existsb (fun p => existsb (fun perm => permission_grants perm action database namespace entity_type)
                   (permissions p)) policies).
End Policies.

(** ** Token sessions *)

Section Tokens.
Context {S : Type} `{Fdb S} `{Cbor AuthTokenSession} `{Cbor RefreshTokenBinding}.

Definition upsert_token_session (session : AuthTokenSession) : M S unit :=
  let refresh := mkRefreshTokenBinding (access_token session) (ts_expires_at session) in
  t ← create_transaction;
  v ← lift (encode_cbor session);
  let t := kv_set t (access_token_key (access_token session)) v in
  r ← lift (encode_cbor refresh);
  let t := kv_set t (refresh_token_key (refresh_token session)) r in
  commit (fun e => Internal ("auth token commit failed: " ++ e)) t.

Definition get_token_session_by_access (token : string) : M S (option AuthTokenSession) :=
  row ← db_get (access_token_key token);
  match row with
  | Some b => s ← lift (decode_cbor b); mret (Some s)
  | None => mret None
  end.

Definition get_token_session_by_refresh (token : string) : M S (option AuthTokenSession) :=
  row ← db_get (refresh_token_key token);
  match row with
  | None => mret None
  | Some b =>
      binding ← lift (decode_cbor b : result RefreshTokenBinding);
      session ← get_token_session_by_access (rb_access_token binding);
      match session with
      | None => mret None
      | Some s => if negb (String.eqb (refresh_token s) token) then mret None else mret (Some s)
      end
  end.

Definition revoke (s : AuthTokenSession) (at_ : Z) : AuthTokenSession :=
  mkAuthTokenSession (access_token s) (refresh_token s) (ts_principal_id s) (ts_principal_type s) (ts_roles s)
    (issued_at s) (ts_expires_at s) (Some at_).

Definition revoke_access_token (token : string) : M S bool :=
  session ← get_token_session_by_access token;
  match session with
  | None => mret false
  | Some s =>
      secs ← now_secs;
      let s := revoke s secs in
      t ← create_transaction;
      v ← lift (encode_cbor s);
      let t := kv_set t (access_token_key (access_token s)) v in
      let t := kv_clear t (refresh_token_key (refresh_token s)) in
      commit (fun e => Internal ("auth revoke commit failed: " ++ e)) t ;;
      mret true
  end.

Definition revoke_refresh_token (token : string) : M S bool :=
  row ← db_get (refresh_token_key token);
  let exists_ := match row with Some _ => true | None => false end in
  when exists_ (db_clear (refresh_token_key token)) ;;
  mret exists_.
End Tokens.

(** ** The audit log *)

Section Audit.
Context {S : Type} `{Fdb S} `{Cbor AuditRecord} `{UuidSource}.

Definition append_audit_record (record : AuditRecord) : M S AuditRecord :=
  id ← (if String.eqb (event_id record) "" then fresh_uuid else mret (event_id record));
  ts ← (if au_timestamp record =? 0 then now else mret (au_timestamp record));
  let record := mkAuditRecord id ts (au_principal_id record) (au_action record) (resource record)
                  (allowed record) (au_reason record) (au_metadata record) in
  value ← lift (encode_cbor record);
  db_set (audit_key ts id) value ;;
  mret record.

Definition audit_selected (principal action : option string) (r : AuditRecord) : bool :=
  match principal with Some p => String.eqb p (au_principal_id r) | None => true end
  && match action with Some a => String.eqb a (au_action r) | None => true end.

(** The loop of [query_audit_records], which stops once it has [limit] records. *)
Fixpoint collect_audit (principal action : option string) (limit : nat) (rows : list (bytes * bytes))
    (out : list AuditRecord) : M S (list AuditRecord) :=
  match rows with
  | [] => mret out
  | (_, value) :: rows' =>
      record ← lift (decode_cbor value);
      if audit_selected principal action record then
        let out := out ++ [record] in
        if (limit <=? length out)%nat then mret out else collect_audit principal action limit rows' out
      else collect_audit principal action limit rows' out
  end.

Definition query_audit_records (principal action : option string) (from_ts to_ts : option Z) (limit : nat)
    : M S (list AuditRecord) :=
  rows ← get_range (audit_range_start from_ts) (audit_range_end_inclusive to_ts) (Nat.max limit 1 * 4);
  out ← collect_audit principal action (Nat.max limit 1) rows [];
  mret (sort_by (fun a b => Z.compare (au_timestamp a) (au_timestamp b)) out).

(** The cutoff is computed in [i64]; the product wraps in a release build. *)
Definition audit_cutoff (now retention_secs : Z) : Z := wrap_i64 (now - wrap_i64 (wrap_i64 retention_secs * 1000000)).

Definition cleanup_audit_records (retention_secs : Z) (batch_limit : nat) : M S nat :=
  t ← now;
  let cutoff := audit_cutoff t retention_secs in
  rows ← get_range (prefix audit_subspace) (audit_range_end_inclusive (Some cutoff)) (Nat.max batch_limit 1);
  match rows with
  | [] => mret 0%nat
  | _ =>
      trx ← create_transaction;
      let trx := foldl (fun t kv => kv_clear t kv.1) trx rows in
      commit (fun e => Internal ("audit retention commit failed: " ++ e)) trx ;;
      mret (length rows)
  end.
End Audit.

(** ** What a path rule means

    A star stands for one segment, a plus for one or more, any other segment for
    itself. *)

Inductive globs : list string -> list string -> Prop :=
  | globs_nil : globs [] []
  | globs_star v rule value : globs rule value -> globs ("*" :: rule) (v :: value)
  | globs_plus vs rule value : vs <> [] -> globs rule value -> globs ("+" :: rule) (vs ++ value)
  | globs_seg seg rule value : seg <> "*" -> seg <> "+" -> globs rule value -> globs (seg :: rule) (seg :: value).

Lemma path_match_segments_sound rule : forall value, path_match_segments rule value = true -> globs rule value.
Proof.
  induction rule as [|seg rule IH]; intros value; cbn [path_match_segments].
  { destruct value; [constructor|done]. }
  destruct (String.eqb_spec seg "*") as [->|Hs]; [destruct value; [done|]; intros ?; by constructor; apply IH|].
  destruct (String.eqb_spec seg "+") as [->|Hp].
  - destruct value as [|v value]; [done|]. intros (c & Hc & Hm)%List.existsb_exists.
    apply List.in_seq in Hc. rewrite <- (take_drop c (v :: value)). constructor; [|by apply IH].
    destruct c; [lia|]. done.
  - destruct value as [|v value]; [done|]. destruct (String.eqb_spec v seg) as [->|]; [|done].
    intros ?. constructor; auto.
Qed.

Lemma path_match_segments_complete rule value : globs rule value -> path_match_segments rule value = true.
Proof.
  induction 1 as [|v rule value _ IH|vs rule value Hvs _ IH|seg rule value Hs Hp _ IH]; cbn [path_match_segments].
  - done.
  - done.
  - destruct vs as [|v vs]; [done|]. cbn [app String.eqb]. apply List.existsb_exists.
    exists (length (v :: vs)). split; [apply List.in_seq; simpl; rewrite length_app; lia|].
    change (v :: vs ++ value) with ((v :: vs) ++ value). by rewrite drop_app_length.
  - by rewrite (proj2 (String.eqb_neq _ _) Hs), (proj2 (String.eqb_neq _ _) Hp), String.eqb_refl.
Qed.

Lemma path_match_segments_spec rule value : path_match_segments rule value = true <-> globs rule value.
Proof. split; [apply path_match_segments_sound|apply path_match_segments_complete]. Qed.

(** What it means for a policy to allow a request. *)
Definition field_covers (rule value : string) : Prop := rule ∈ ["*"; "+"; ""] \/ rule = value.

Definition covers (perm : PolicyPermission) (action database namespace entity_type : string) : Prop :=
  (if decide (trim (pp_path perm) = "") then
     field_covers (pp_database perm) database /\ field_covers (pp_namespace perm) namespace /\
     field_covers (pp_entity_type perm) entity_type
   else
     globs (segments (pp_path perm)) (segments (build_resource_path action database namespace entity_type)) \/
     globs (segments (pp_path perm)) (segments (database ++ "/" ++ namespace ++ "/" ++ entity_type))) /\
  exists a, a ∈ actions perm /\ (a = "*" \/ to_ascii_lowercase a = to_ascii_lowercase action).

Lemma field_match_spec rule value : field_match rule value = true <-> field_covers rule value.
Proof.
  unfold field_match, field_covers. rewrite !orb_true_iff, !String.eqb_eq, !elem_of_cons. pose proof (not_elem_of_nil (A:=string) rule). tauto.
Qed.

Lemma permission_grants_spec perm action db ns et :
  permission_grants perm action db ns et = true <-> covers perm action db ns et.
Proof.
  unfold permission_grants, covers, path_match, action_match, eq_ignore_ascii_case.
  rewrite andb_true_iff, List.existsb_exists. setoid_rewrite list_elem_of_In. setoid_rewrite orb_true_iff.
  setoid_rewrite String.eqb_eq. apply and_iff_compat_r. case_decide as Hp.
  - rewrite (proj2 (String.eqb_eq _ _) Hp), !andb_true_iff, !field_match_spec. tauto.
  - rewrite (proj2 (String.eqb_neq _ _) Hp), orb_true_iff, !path_match_segments_spec. done.
Qed.

Section PolicyFacts.
Context {S : Type} `{FdbLaws S} `{CborLaws AuthPolicy id (fun _ => True)} (env : Env) (Henv : no_faults env).
Implicit Types (w : World S) (m : gmap string AuthPolicy).

Definition policies_are w m : Prop := table policy_subspace policy_id (w_kv w) m.

Lemma run_list_policies w m f :
  policies_are w m -> (size m <= 10000)%nat ->
  exists l w', list_policies f env w = (Ok l, w') /\ idle w w' /\ id_sorted policy_id l /\
    forall p, p ∈ l <-> m !! policy_id p = Some p /\ for_principal f p = true.
Proof.
  intros Ht Hn. destruct (run_range_rows policy_subspace policy_id env Henv 10000 w m Ht Hn) as [n E].
  destruct (table_listing _ _ _ _ Ht) as (l & Hl & Hp & Hnd).
  assert (Hfold : forall w0, fold_m (kv_range (w_kv w) (prefix policy_subspace) (Sub.range_end policy_subspace))
     (fun out kv => policy ← lift (decode_cbor kv.2);
        mret (if for_principal f policy then out ++ [policy] else out)) [] env w0
     = (Ok (List.filter (for_principal f) l), w0)).
  { intros w0. exact (run_fold_select (for_principal f) _ l [] env w0 Hl). }
  eexists _, _. unfold list_policies. rewrite (bind_run _ _ _ _ _ _ E), (bind_run _ _ _ _ _ _ (Hfold _)).
  split; [reflexivity|]. split; [done|]. split.
  - apply sort_by_id_sorted. clear -Hnd. induction l as [|p l IH]; [constructor|].
    apply NoDup_cons in Hnd as [Hp Hnd]. cbn. destruct (for_principal f p); [|auto]. constructor; [|auto].
    intros (q & Hq & Hin%list_elem_of_In%List.filter_In)%list_elem_of_fmap. apply Hp. rewrite Hq.
    apply list_elem_of_fmap_2. apply list_elem_of_In. by destruct Hin.
  - intros p. rewrite sort_by_perm, list_elem_of_In, List.filter_In, <- list_elem_of_In, Hp, list_elem_of_fmap.
    apply and_iff_compat_r. split.
    + intros ([i q] & -> & Hq%elem_of_map_to_list). cbn. by rewrite (table_ids _ _ _ _ Ht _ _ Hq).
    + intros Hq. exists (policy_id p, p). split; [done|]. by apply elem_of_map_to_list.
Qed.
End PolicyFacts.

Lemma run_check_permission {S} `{FdbLaws S} `{CborLaws AuthPolicy id (fun _ => True)}
    env (Henv : no_faults env) (w : World S) (m : gmap string AuthPolicy) (principal action db ns et : string) :
  policies_are w m -> (size m <= 10000)%nat ->
  exists b w', check_permission principal action db ns et env w = (Ok b, w') /\ idle w w' /\
    (b = true <-> exists id p perm, m !! id = Some p /\ pol_principal_id p = principal /\
       perm ∈ permissions p /\ covers perm action db ns et).
Proof.
  intros Ht Hn. destruct (run_list_policies env Henv w m (Some principal) Ht Hn) as (l & w' & E & Hw & _ & Hin).
  eexists _, w'. unfold check_permission. rewrite (bind_run _ _ _ _ _ _ E). split; [reflexivity|]. split; [done|].
  rewrite List.existsb_exists. setoid_rewrite List.existsb_exists. setoid_rewrite <- list_elem_of_In.
  setoid_rewrite permission_grants_spec. setoid_rewrite Hin. cbn [for_principal]. setoid_rewrite String.eqb_eq. split.
  - intros (p & [Hm ->] & perm & Hp & Hc). by exists (policy_id p), p, perm.
  - intros (i & p & perm & Hm & <- & Hp & Hc). exists p. split; [|by exists perm].
    split; [|done]. by rewrite (table_ids _ _ _ _ Ht _ _ Hm).
Qed.

(** The authorization decision.  With the policies of the store given by
    a map, a request is allowed exactly when a policy of the principal has a
    permission that covers it, under the declarative meaning of path rules; the
    check writes nothing. *)
Theorem check_permission_exact {S} `{FdbLaws S} `{CborLaws AuthPolicy id (fun _ => True)}
    env (w : World S) (m : gmap string AuthPolicy) (principal action db ns et : string) :
  no_faults env -> policies_are w m -> (size m <= 10000)%nat ->
  exists b w', check_permission principal action db ns et env w = (Ok b, w') /\ idle w w' /\
    (b = true <-> exists id p perm, m !! id = Some p /\ pol_principal_id p = principal /\
       perm ∈ permissions p /\ covers perm action db ns et).
Proof. intros Henv. by apply run_check_permission. Qed.

(** A path rule matches a path exactly when the declarative relation holds
    of their segments: a star for one segment, a plus for one or more. *)
Theorem path_match_globs (rule value : string) :
  path_match rule value = true <-> globs (segments rule) (segments value).
Proof. apply path_match_segments_spec. Qed.

(** ** Sessions *)

Lemma access_refresh_key a r : access_token_key a <> refresh_token_key r.
Proof.
  assert (access_token_key a = prefix auth_access_subspace ++ enc_str a) as -> by reflexivity.
  assert (refresh_token_key r = prefix auth_refresh_subspace ++ enc_str r) as -> by reflexivity.
  generalize (enc_str a) (enc_str r). intros x y. vm_compute. discriminate.
Qed.

Lemma access_token_key_inj a b : access_token_key a = access_token_key b -> a = b.
Proof. apply (table_key_inj auth_access_subspace). Qed.
Lemma refresh_token_key_inj a b : refresh_token_key a = refresh_token_key b -> a = b.
Proof. apply (table_key_inj auth_refresh_subspace). Qed.

Section TokenFacts.
Context {S : Type} `{FdbLaws S} `{CborLaws AuthTokenSession id (fun _ => True)}
  `{CborLaws RefreshTokenBinding id (fun _ => True)} (env : Env) (Henv : no_faults env).
Implicit Types (w : World S) (s : AuthTokenSession).

(** The rows of a session are there: the session under its access token, and the
    binding of its refresh token. *)
Definition stored_session w s : Prop :=
  exists v, kv_get (w_kv w) (access_token_key (access_token s)) = Some v /\ decode_cbor v = Ok s.
Definition bound w (r a : string) : Prop :=
  exists v b, kv_get (w_kv w) (refresh_token_key r) = Some v /\ decode_cbor v = Ok b /\ rb_access_token b = a.

Lemma run_by_access w s : stored_session w s ->
  get_token_session_by_access (access_token s) env w = (Ok (Some s), next_tick (next_tick w)).
Proof. intros (v & Hv & Hd). unfold get_token_session_by_access. mrun Henv. by rewrite Hv, Hd. Qed.

Lemma run_by_access_none w a : kv_get (w_kv w) (access_token_key a) = None ->
  get_token_session_by_access a env w = (Ok None, next_tick (next_tick w)).
Proof. intros Hv. unfold get_token_session_by_access. mrun Henv. by rewrite Hv. Qed.

Lemma run_by_refresh w s : stored_session w s -> bound w (refresh_token s) (access_token s) ->
  exists w', get_token_session_by_refresh (refresh_token s) env w = (Ok (Some s), w') /\ idle w w'.
Proof.
  intros Hs (v & b & Hv & Hd & Hb). unfold get_token_session_by_refresh. mrun Henv. rewrite Hv, Hd, run_lift, Hb.
  assert (stored_session (next_tick (next_tick w)) s) as Hs' by exact Hs.
  rewrite (bind_run _ _ _ _ _ _ (run_by_access _ s Hs')). rewrite String.eqb_refl. by eexists.
Qed.

Lemma run_by_refresh_none w r : kv_get (w_kv w) (refresh_token_key r) = None ->
  get_token_session_by_refresh r env w = (Ok None, next_tick (next_tick w)).
Proof. intros Hv. unfold get_token_session_by_refresh. mrun Henv. by rewrite Hv. Qed.

(** Storing a session changes its two rows and nothing else. *)
Lemma run_upsert_session w s :
  exists w', upsert_token_session s env w = (Ok tt, w') /\ stored_session w' s /\
    bound w' (refresh_token s) (access_token s) /\
    (forall k, k <> access_token_key (access_token s) -> k <> refresh_token_key (refresh_token s) ->
       kv_get (w_kv w') k = kv_get (w_kv w) k) /\ w_failpoints w' = w_failpoints w.
Proof.
  unfold upsert_token_session. mrun Henv. destruct (encode_cbor_total s) as (v & Ev & _). rewrite Ev. mrun Henv.
  destruct (encode_cbor_total (mkRefreshTokenBinding (access_token s) (ts_expires_at s))) as (r & Er & _). rewrite Er. mrun Henv.
  rewrite run_commit by done. eexists. split; [reflexivity|]. unfold stored_session, bound. cbn [w_kv set_kv next_tick].
  repeat split.
  - exists v. rewrite ?kv_get_clear, ?kv_get_set. destruct (decide (refresh_token_key (refresh_token s) = access_token_key (access_token s))) as [E|_]; [symmetry in E; by apply access_refresh_key in E|].
    rewrite ?kv_get_set, decide_True by done. split; [done|]. exact (decode_encode_cbor s v I Ev).
  - exists r, (mkRefreshTokenBinding (access_token s) (ts_expires_at s)). rewrite kv_get_set, decide_True by done. split; [done|].
    split; [|done]. exact (decode_encode_cbor _ r I Er).
  - intros k Ha Hr. by rewrite ?kv_get_clear, ?kv_get_set, !decide_False by congruence.
Qed.

(** Revoking a stored session marks it and unbinds its refresh token. *)
Lemma run_revoke_access w s :
  stored_session w s ->
  exists t w', revoke_access_token (access_token s) env w = (Ok true, w') /\ stored_session w' (revoke s t) /\
    kv_get (w_kv w') (refresh_token_key (refresh_token s)) = None /\
    (forall k, k <> access_token_key (access_token s) -> k <> refresh_token_key (refresh_token s) ->
       kv_get (w_kv w') k = kv_get (w_kv w) k) /\ w_failpoints w' = w_failpoints w.
Proof.
  intros Hs. unfold revoke_access_token. rewrite (bind_run _ _ _ _ _ _ (run_by_access w s Hs)), run_now_secs.
  set (t := env_now env _ / 1000000). mrun Henv.
  destruct (encode_cbor_total (revoke s t)) as (v & Ev & _). rewrite Ev. mrun Henv.
  exists t. eexists. split; [reflexivity|]. unfold stored_session. cbn [w_kv set_kv next_tick access_token refresh_token revoke].
  repeat split.
  - exists v. rewrite ?kv_get_clear, ?kv_get_set. destruct (decide (refresh_token_key (refresh_token s) = access_token_key (access_token s))) as [E|_]; [symmetry in E; by apply access_refresh_key in E|].
    rewrite ?kv_get_set, decide_True by done. split; [done|]. exact (decode_encode_cbor (revoke s t) v I Ev).
  - by rewrite kv_get_clear, decide_True.
  - intros k Ha Hr. by rewrite ?kv_get_clear, ?kv_get_set, !decide_False by congruence.
Qed.
End TokenFacts.

(** The life of a token session.  Once stored, a session is found by
    its access token and by its refresh token; once revoked, it is found by its
    access token with its revocation time and by its refresh token no more; the
    sessions and bindings of other tokens are untouched throughout. *)
Theorem token_session_lifecycle {S} `{FdbLaws S} `{CborLaws AuthTokenSession id (fun _ => True)}
    `{CborLaws RefreshTokenBinding id (fun _ => True)} env (w : World S) (s : AuthTokenSession) :
  no_faults env ->
  exists w1, upsert_token_session s env w = (Ok tt, w1) /\
    (get_token_session_by_access (access_token s) env w1).1 = Ok (Some s) /\
    (get_token_session_by_refresh (refresh_token s) env w1).1 = Ok (Some s) /\
    exists t w2, revoke_access_token (access_token s) env w1 = (Ok true, w2) /\
      (get_token_session_by_access (access_token s) env w2).1 = Ok (Some (revoke s t)) /\
      (get_token_session_by_refresh (refresh_token s) env w2).1 = Ok None /\
      (forall a, a <> access_token s -> kv_get (w_kv w2) (access_token_key a) = kv_get (w_kv w) (access_token_key a)) /\
      (forall r, r <> refresh_token s -> kv_get (w_kv w2) (refresh_token_key r) = kv_get (w_kv w) (refresh_token_key r)).
Proof.
  intros Henv. destruct (run_upsert_session env Henv w s) as (w1 & E1 & Hs1 & Hb1 & Hk1 & _).
  exists w1. split; [done|]. rewrite (run_by_access env Henv w1 s Hs1). split; [done|].
  destruct (run_by_refresh env Henv w1 s Hs1 Hb1) as (wr & -> & _). split; [done|].
  destruct (run_revoke_access env Henv w1 s Hs1) as (t & w2 & E2 & Hs2 & Hr2 & Hk2 & _).
  exists t, w2. split; [done|]. change (access_token s) with (access_token (revoke s t)) at 1.
  rewrite (run_by_access env Henv w2 _ Hs2). split; [done|]. rewrite (run_by_refresh_none env Henv w2 _ Hr2). split; [done|].
  split; intros x Hx.
  - rewrite Hk2, Hk1; [done|..]; first [apply access_refresh_key|intros ?%access_token_key_inj; done].
  - rewrite Hk2, Hk1; [done|..]; first [intros E; symmetry in E; by apply access_refresh_key in E|intros ?%refresh_token_key_inj; done].
Qed.

(** ** Audit records *)

Lemma audit_key_eq ts id : audit_key ts id = prefix audit_subspace ++ (Byte.x14 :: encode_int_for_index ts) ++ enc_str id.
Proof. unfold audit_key. tuple_norm. done. Qed.

(** The cutoff of a time window. *)
Definition within (from_ts to_ts : option Z) (ts : Z) : Prop :=
  match from_ts with Some f => f <= ts | None => True end /\ match to_ts with Some t => ts <= t | None => True end.

Definition opt_i64 (o : option Z) : Prop := match o with Some z => i64_ok z | None => True end.

Lemma audit_lex ts ts' r :
  i64_ok ts -> i64_ok ts' ->
  lex ((Byte.x14 :: encode_int_for_index ts) ++ r) (Byte.x14 :: encode_int_for_index ts')
    = match Z.compare ts ts' with Eq => lex r [] | c => c end.
Proof.
  intros Hts Hts'. cbn [app lex]. rewrite Z.compare_refl.
  rewrite <- (app_nil_r (encode_int_for_index ts')), lex_app_same_length, encode_int_lex by (done || by rewrite !length_encode_int).
  done.
Qed.

Lemma audit_start_spec from_ts ts id :
  opt_i64 from_ts -> i64_ok ts ->
  ble (audit_range_start from_ts) (audit_key ts id) <-> match from_ts with Some f => f <= ts | None => True end.
Proof.
  intros Hf Hts. rewrite audit_key_eq. destruct from_ts as [f|]; cbn [audit_range_start].
  - assert (Tuple.build (Tuple.add_int (Sub.pack audit_subspace) f) = prefix audit_subspace ++ Byte.x14 :: encode_int_for_index f)
      as -> by reflexivity.
    unfold ble. rewrite lex_app, (lex_antisym (_ ++ enc_str id)), audit_lex by done.
    destruct (Z.compare_spec ts f); [|by split; [|lia]|split; [lia|done]].
    subst. split; [lia|]. intros _. by destruct (enc_str id).
  - split; [done|]. intros _. apply ble_app_r.
Qed.

Lemma audit_end_spec to_ts ts id :
  opt_i64 to_ts -> i64_ok ts ->
  blt (audit_key ts id) (audit_range_end_inclusive to_ts) <-> match to_ts with Some t => ts <= t | None => True end.
Proof.
  intros Ht Hts. rewrite audit_key_eq.
  assert (blt (prefix audit_subspace ++ (Byte.x14 :: encode_int_for_index ts) ++ enc_str id) (Sub.range_end audit_subspace)) as Hend.
  { unfold blt, Sub.range_end. rewrite lex_app. reflexivity. }
  destruct to_ts as [t|]; cbn [audit_range_end_inclusive]; [|done].
  unfold opt_i64, i64_ok, I64_MAX in *. destruct (Z.eqb_spec t (2 ^ 63 - 1)) as [->|Hne]; [split; [lia|done]|].
  assert (Tuple.build (Tuple.add_int (Sub.pack audit_subspace) (Z.min (t + 1) (2 ^ 63 - 1)))
    = prefix audit_subspace ++ Byte.x14 :: encode_int_for_index (Z.min (t + 1) (2 ^ 63 - 1))) as -> by reflexivity.
  unfold blt. rewrite lex_app, audit_lex by (unfold i64_ok; lia).
  destruct (Z.compare_spec ts (Z.min (t + 1) (2 ^ 63 - 1))); [|split; [lia|done]|split; [done|lia]].
  split; [by destruct (enc_str id)|lia].
Qed.

Lemma Forall2_filter {A B} (R : A -> B -> Prop) (P : A -> Prop) (Q : B -> Prop)
    `{!forall x, Decision (P x)} `{!forall x, Decision (Q x)} l k :
  (forall x y, R x y -> P x <-> Q y) -> Forall2 R l k -> Forall2 R (filter P l) (filter Q k).
Proof.
  intros HPQ. induction 1 as [|x y l k Hxy _ IH]; [constructor|]. rewrite !filter_cons. pose proof (HPQ x y Hxy).
  repeat case_decide; try tauto. by constructor.
Qed.

#[export] Instance within_dec f t ts : Decision (within f t ts).
Proof. unfold within. destruct f, t; apply _. Defined.

Section AuditFacts.
Context {S : Type} `{FdbLaws S} `{CborLaws AuditRecord id (fun _ => True)} (env : Env) (Henv : no_faults env).
Implicit Types (s : S) (w : World S).

Let P := prefix audit_subspace.
Let E := Sub.range_end audit_subspace.

(** A row of the log: a record under the key of its time and identifier. *)
Definition audit_row (kv : bytes * bytes) (r : AuditRecord) : Prop :=
  decode_cbor kv.2 = Ok r /\ kv.1 = audit_key (au_timestamp r) (event_id r) /\ i64_ok (au_timestamp r).

(** The log is a list of records, in the order of their rows. *)
Definition audit_log s (log : list AuditRecord) : Prop := Forall2 audit_row (kv_range s P E) log.

Lemma ble_audit_start f : ble P (audit_range_start f).
Proof. destruct f; [apply ble_app_r|apply ble_refl]. Qed.
Lemma ble_audit_end t : ble (audit_range_end_inclusive t) E.
Proof.
  destruct t as [t|]; cbn [audit_range_end_inclusive]; [|apply ble_refl]. case_match; [apply ble_refl|].
  unfold ble, E, Sub.range_end. change (Tuple.build (Tuple.add_int (Sub.pack audit_subspace) ?z))
    with (prefix audit_subspace ++ Byte.x14 :: encode_int_for_index z). by rewrite lex_app.
Qed.

Lemma window_rows s f t :
  kv_range s (audit_range_start f) (audit_range_end_inclusive t)
    = filter (fun kv => in_scan (audit_range_start f) (audit_range_end_inclusive t) kv.1) (kv_range s P E).
Proof.
  apply sorted_ext; [apply kv_range_sorted|apply sorted_filter, kv_range_sorted|]. intros [k v].
  rewrite list_elem_of_filter, !kv_range_elem. cbn [fst]. split; [|tauto]. intros [[Hb He] Hg].
  repeat split; try done; [by eapply ble_trans; [apply ble_audit_start|]|by eapply blt_ble_trans; [|apply ble_audit_end]].
Qed.

Lemma window_log s log f t :
  opt_i64 f -> opt_i64 t -> audit_log s log ->
  Forall2 audit_row (kv_range s (audit_range_start f) (audit_range_end_inclusive t))
    (filter (fun r => within f t (au_timestamp r)) log).
Proof.
  intros Hf Ht Hl. rewrite window_rows. apply Forall2_filter; [|done]. intros kv r (_ & -> & Hi).
  unfold in_scan, within. by rewrite audit_start_spec, audit_end_spec.
Qed.

(** The log is ordered by time. *)
Lemma audit_log_sorted s log : audit_log s log -> StronglySorted (fun a b => au_timestamp a <= au_timestamp b) log.
Proof.
  intros Hl. pose proof (kv_range_sorted s P E) as Hs. revert Hs. unfold audit_log in Hl.
  induction Hl as [|kv r rows log (_ & Hk & Hi) Hl IH]; [constructor|]. intros [Hs Hx]%StronglySorted_inv.
  constructor; [auto|]. rewrite Forall_forall in Hx. apply Forall_forall. intros r' [n Hn]%list_elem_of_lookup_1.
  destruct (Forall2_lookup_r _ _ _ _ _ Hl Hn) as (kv' & Hkv' & _ & Hk' & Hi').
  specialize (Hx kv' (list_elem_of_lookup_2 _ _ _ Hkv')). rewrite Hk, Hk', !audit_key_eq in Hx. unfold blt in Hx.
  rewrite lex_app in Hx. cbn [app lex] in Hx. rewrite Z.compare_refl in Hx.
  rewrite lex_app_same_length, encode_int_lex in Hx by (done || by rewrite !length_encode_int).
  destruct (Z.compare_spec (au_timestamp r) (au_timestamp r')); lia || done.
Qed.

Lemma run_collect principal action limit rows log out w :
  Forall2 audit_row rows log -> (length out < limit)%nat ->
  collect_audit principal action limit rows out env w
    = (Ok (out ++ take (limit - length out) (List.filter (audit_selected principal action) log)), w).
Proof.
  intros Hl. revert out. induction Hl as [|[k v] r rows log (Hd & _) _ IH]; intros out Hlen; cbn [collect_audit List.filter].
  { by rewrite take_nil, app_nil_r. }
  cbn [snd] in Hd. rewrite Hd, run_lift. destruct (audit_selected principal action r); [|by apply IH].
  destruct (limit - length out)%nat as [|d] eqn:Ed; [lia|]. cbn [take]. rewrite length_app. cbn [length].
  destruct (Nat.leb_spec limit (length out + 1)) as [Hle|Hgt].
  - assert (d = 0)%nat as -> by lia. by rewrite take_0.
  - rewrite IH by (rewrite length_app; cbn; lia). rewrite <- app_assoc, length_app. cbn [length app].
    by replace (limit - (length out + 1))%nat with d by lia.
Qed.

Lemma sort_by_sorted_id {A} (cmp : A -> A -> comparison) l : StronglySorted (cmp_le cmp) l -> sort_by cmp l = l.
Proof.
  induction 1 as [|x l _ IH Hx]; [done|]. cbn [sort_by foldr]. fold (sort_by cmp l). rewrite IH.
  destruct Hx as [|y l Hxy _]; [done|]. simpl. unfold cmp_le in Hxy. by destruct (cmp x y).
Qed.

Lemma sorted_take_filter {A} (R : A -> A -> Prop) (p : A -> bool) n l :
  StronglySorted R l -> StronglySorted R (take n (List.filter p l)).
Proof.
  intros Hs. assert (StronglySorted R (List.filter p l)) as Hf.
  { induction Hs as [|x l _ IH Hx]; [constructor|]. cbn. destruct (p x); [|done]. constructor; [done|].
    rewrite Forall_forall in Hx |- *. intros y [Hy _]%list_elem_of_In%List.filter_In. apply Hx. by apply list_elem_of_In. }
  clear Hs. revert n. induction Hf as [|x k _ IH Hx]; intros [|n]; cbn; constructor; [done|].
  by apply Forall_take.
Qed.

Lemma sorted_window (log : list AuditRecord) f t n :
  StronglySorted (fun a b => au_timestamp a <= au_timestamp b) log ->
  StronglySorted (cmp_le (fun a b => Z.compare (au_timestamp a) (au_timestamp b)))
    (take n (filter (fun r => within f t (au_timestamp r)) log)).
Proof.
  intros Hs. assert (forall m, StronglySorted (cmp_le (fun a b => Z.compare (au_timestamp a) (au_timestamp b)))
    (take m (filter (fun r => within f t (au_timestamp r)) log))) as Hg; [|apply Hg].
  induction Hs as [|x l _ IH Hx]; intros m; [destruct m; constructor|]. rewrite filter_cons. case_decide; [|done].
  destruct m as [|m]; [constructor|]. cbn [take]. constructor; [done|]. apply Forall_take.
  rewrite Forall_forall in Hx |- *. intros y [_ Hy]%list_elem_of_filter. unfold cmp_le. rewrite Z.compare_gt_iff.
  specialize (Hx y Hy). lia.
Qed.

(** A query reads at most four times its limit of the rows of the window. *)
Lemma run_query_audit w log principal action f t limit :
  opt_i64 f -> opt_i64 t -> audit_log (w_kv w) log ->
  exists w', query_audit_records principal action f t limit env w
    = (Ok (take (Nat.max limit 1) (List.filter (audit_selected principal action)
             (take (Nat.max limit 1 * 4) (filter (fun r => within f t (au_timestamp r)) log)))), w') /\ idle w w'.
Proof.
  intros Hf Ht Hl. unfold query_audit_records. set (lim := Nat.max limit 1).
  destruct (run_get_range_at env Henv (audit_range_start f) (audit_range_end_inclusive t) (lim * 4) None w) as [n En].
  unfold get_range. rewrite (bind_run _ _ _ _ _ _ En). cbn [snapshot].
  pose proof (Forall2_take _ _ _ (lim * 4) (window_log _ _ f t Hf Ht Hl)) as Hw.
  rewrite (bind_run _ _ _ _ _ _ (run_collect principal action lim _ _ [] _ Hw ltac:(subst lim; cbn; lia))).
  cbn [app length]. rewrite Nat.sub_0_r. rewrite sort_by_sorted_id; [by eexists|].
  by apply sorted_take_filter, sorted_window, (audit_log_sorted (w_kv w)).
Qed.

Lemma ble_P_end t : ble P (audit_range_end_inclusive t).
Proof. destruct t as [t|]; cbn [audit_range_end_inclusive]; [case_match|]; apply ble_app_r. Qed.

Lemma wrap_i64_ok z : i64_ok (wrap_i64 z).
Proof. unfold i64_ok, wrap_i64. pose proof (Z.mod_pos_bound (z + 2 ^ 63) (2 ^ 64) ltac:(lia)). lia. Qed.

Lemma cutoff_length s log cutoff :
  i64_ok cutoff -> audit_log s log ->
  length (kv_range s P (audit_range_end_inclusive (Some cutoff))) = length (filter (fun r => au_timestamp r <= cutoff) log).
Proof.
  intros Hc Hl. pose proof (Forall2_length _ _ _ (window_log s log None (Some cutoff) I Hc Hl)) as E1.
  cbn [audit_range_start] in E1. etrans; [exact E1|]. f_equal. apply list_filter_iff. intros r. unfold within. tauto.
Qed.

(** A sweep removes the oldest records of the log. *)
Lemma run_cleanup w log retention batch :
  audit_log (w_kv w) log ->
  let cutoff := audit_cutoff (env_now env (w_tick w)) retention in
  let n := Nat.min (Nat.max batch 1) (length (filter (fun r => au_timestamp r <= cutoff) log)) in
  exists w', cleanup_audit_records retention batch env w = (Ok n, w') /\ audit_log (w_kv w') (drop n log) /\
    forall k, ~ in_scan P E k -> kv_get (w_kv w') k = kv_get (w_kv w) k.
Proof.
  intros Hl cutoff n. unfold cleanup_audit_records. mrun Henv. fold cutoff. set (C := audit_range_end_inclusive (Some cutoff)).
  set (w1 := next_tick w).
  destruct (run_get_range_at env Henv P C (Nat.max batch 1) None w1) as [m Em]. cbn [snapshot] in Em.
  assert (Hrows : take (Nat.max batch 1) (kv_range (w_kv w) P C) = take n (kv_range (w_kv w) P E)).
  { rewrite (kv_range_split (w_kv w) P C E) by (apply ble_P_end || apply ble_audit_end).
    pose proof (cutoff_length (w_kv w) log cutoff (wrap_i64_ok _) Hl) as Hlen. fold C in Hlen. subst n. rewrite <- Hlen.
    rewrite take_app_le by lia. destruct (Nat.le_ge_cases (Nat.max batch 1) (length (kv_range (w_kv w) P C))) as [Hb|Hb].
    - by rewrite Nat.min_l.
    - rewrite Nat.min_r by done. by rewrite !take_ge. }
  unfold get_range. fold P. rewrite (bind_run _ _ _ _ _ _ Em). cbn [w_kv w1 next_tick]. rewrite Hrows.
  assert (Hn : length (take n (kv_range (w_kv w) P E)) = n).
  { rewrite length_take, (Forall2_length _ _ _ Hl). subst n. pose proof (length_filter (fun r => au_timestamp r <= cutoff) log). lia. }
  destruct (kv_range_cleared (w_kv w) P E n) as [Hc Hg].
  destruct (take n (kv_range (w_kv w) P E)) as [|row rows] eqn:Er.
  - cbn in Hn. rewrite <- Hn. eexists. split; [reflexivity|]. done.
  - rewrite <- Hn. mrun Henv. eexists. split; [reflexivity|]. cbn [w_kv set_kv next_tick]. split.
    + unfold audit_log. rewrite Hc, Hn. by apply Forall2_drop.
    + intros k Hk. rewrite Hg. case_decide as Hin; [|done]. destruct Hk. rewrite <- Er in Hin.
      apply list_elem_of_fmap in Hin as ([k' v] & -> & Hin%elem_of_take_1). by apply kv_range_elem in Hin as [? _].
Qed.
End AuditFacts.

(** A retention sweep.  With the audit log given as the list of its
    records in time order, a sweep removes exactly the oldest records that are not
    younger than the cutoff, at most a batch of them, reports their number, and
    touches nothing outside the log. *)
Theorem audit_cleanup_exact {S} `{FdbLaws S} `{CborLaws AuditRecord id (fun _ => True)}
    env (w : World S) (log : list AuditRecord) (retention : Z) (batch : nat) :
  no_faults env -> audit_log (w_kv w) log ->
  let cutoff := audit_cutoff (env_now env (w_tick w)) retention in
  let n := Nat.min (Nat.max batch 1) (length (filter (fun r => au_timestamp r <= cutoff) log)) in
  exists w', cleanup_audit_records retention batch env w = (Ok n, w') /\
    audit_log (w_kv w') (drop n log) /\
    Forall (fun r => au_timestamp r <= cutoff) (take n log) /\
    (forall k, ~ in_scan (prefix audit_subspace) (Sub.range_end audit_subspace) k -> kv_get (w_kv w') k = kv_get (w_kv w) k).
Proof.
  intros Henv Hl cutoff n. destruct (run_cleanup env Henv w log retention batch Hl) as (w' & E & Hl' & Hk).
  exists w'. split; [done|]. split; [done|]. split; [|done].
  assert (Forall (fun r => au_timestamp r <= cutoff) (take (length (filter (fun r => au_timestamp r <= cutoff) log)) log)) as Hf.
  { pose proof (audit_log_sorted (w_kv w) log Hl) as Hs. clear -Hs. induction Hs as [|r log _ IH Hr]; [constructor|].
    rewrite filter_cons. case_decide as Hc; [by constructor|].
    assert (filter (fun r => au_timestamp r <= cutoff) log = []) as ->; [|constructor].
    destruct (filter _ log) as [|x l] eqn:Ex; [done|]. exfalso.
    assert (x ∈ filter (fun r => au_timestamp r <= cutoff) log) as [Hx Hin]%list_elem_of_filter by (rewrite Ex; left).
    rewrite Forall_forall in Hr. specialize (Hr x Hin). lia. }
  apply (Forall_take _ (Nat.max batch 1)) in Hf. by rewrite take_take in Hf.
Qed.

(** An audit query whose window holds at most four times its limit returns the
    first records of the window that match, in time order. *)
Theorem audit_query_exact {S} `{FdbLaws S} `{CborLaws AuditRecord id (fun _ => True)}
    env (w : World S) (log : list AuditRecord) (principal action : option string) (from_ts to_ts : option Z) (limit : nat) :
  no_faults env -> audit_log (w_kv w) log -> opt_i64 from_ts -> opt_i64 to_ts ->
  (length (filter (fun r => within from_ts to_ts (au_timestamp r)) log) <= Nat.max limit 1 * 4)%nat ->
  exists w', query_audit_records principal action from_ts to_ts limit env w
    = (Ok (take (Nat.max limit 1) (List.filter (audit_selected principal action)
            (filter (fun r => within from_ts to_ts (au_timestamp r)) log))), w') /\ idle w w'.
Proof.
  intros Henv Hl Hf Ht Hn. destruct (run_query_audit env Henv w log principal action from_ts to_ts limit Hf Ht Hl) as (w' & E & Hw).
  rewrite (take_ge (filter _ log)) in E by done. by exists w'.
Qed.

(** ** A concrete store *)

#[export] Instance PolicyPermission_eq_dec : EqDecision PolicyPermission.
Proof. solve_decision. Defined.
#[export] Instance PolicyPermission_countable : Countable PolicyPermission.
Proof.
  refine (inj_countable' (fun p => (pp_database p, pp_namespace p, pp_entity_type p, actions p, pp_path p))
    (fun '(a, b, c, d, e) => mkPolicyPermission a b c d e) _). by intros [].
Defined.
#[export] Instance AuthPolicy_eq_dec : EqDecision AuthPolicy.
Proof. solve_decision. Defined.
#[export] Instance AuthPolicy_countable : Countable AuthPolicy.
Proof.
  refine (inj_countable' (fun p => (policy_id p, pol_principal_id p, permissions p, pol_created_at p))
    (fun '(a, b, c, d) => mkAuthPolicy a b c d) _). by intros [].
Defined.
#[export] Instance policy_cbor : Cbor AuthPolicy | 100 := countable_cbor AuthPolicy id.
#[export] Instance policy_cbor_laws : CborLaws AuthPolicy id (fun _ => True).
Proof. apply countable_cbor_laws. Qed.

#[export] Instance AuthTokenSession_eq_dec : EqDecision AuthTokenSession.
Proof. solve_decision. Defined.
#[export] Instance AuthTokenSession_countable : Countable AuthTokenSession.
Proof.
  refine (inj_countable' (fun s => (access_token s, refresh_token s, ts_principal_id s, ts_principal_type s, ts_roles s,
      issued_at s, ts_expires_at s, revoked_at s))
    (fun '(a, b, c, d, e, f, g, h) => mkAuthTokenSession a b c d e f g h) _). by intros [].
Defined.
#[export] Instance session_cbor : Cbor AuthTokenSession | 100 := countable_cbor AuthTokenSession id.
#[export] Instance session_cbor_laws : CborLaws AuthTokenSession id (fun _ => True).
Proof. apply countable_cbor_laws. Qed.
#[export] Instance RefreshTokenBinding_eq_dec : EqDecision RefreshTokenBinding.
Proof. solve_decision. Defined.
#[export] Instance RefreshTokenBinding_countable : Countable RefreshTokenBinding.
Proof.
  refine (inj_countable' (fun b => (rb_access_token b, rb_expires_at b)) (fun '(a, b) => mkRefreshTokenBinding a b) _). by intros [].
Defined.
#[export] Instance binding_cbor : Cbor RefreshTokenBinding | 100 := countable_cbor RefreshTokenBinding id.
#[export] Instance binding_cbor_laws : CborLaws RefreshTokenBinding id (fun _ => True).
Proof. apply countable_cbor_laws. Qed.

#[export] Instance AuditRecord_eq_dec : EqDecision AuditRecord.
Proof. solve_decision. Defined.
#[export] Instance AuditRecord_countable : Countable AuditRecord.
Proof.
  refine (inj_countable' (fun r => (event_id r, au_timestamp r, au_principal_id r, au_action r, resource r, allowed r,
      au_reason r, au_metadata r))
    (fun '(a, b, c, d, e, f, g, h) => mkAuditRecord a b c d e f g h) _). by intros [].
Defined.
#[export] Instance audit_cbor : Cbor AuditRecord | 100 := countable_cbor AuditRecord id.
#[export] Instance audit_cbor_laws : CborLaws AuditRecord id (fun _ => True).
Proof. apply countable_cbor_laws. Qed.

Definition reader_policy : AuthPolicy :=
  mkAuthPolicy "p1" "ann" [mkPolicyPermission "" "" "" ["node.read"] "shop/eu/data/*"] 1.

Lemma check_permission_exact_witness :
  exists w', check_permission "ann" "NODE.READ" "shop" "eu" "Order" quiet_env (upsert_policy reader_policy quiet_env empty_world).2
    = (Ok true, w').
Proof.
  destruct (check_permission_exact quiet_env (upsert_policy reader_policy quiet_env empty_world).2
    {["p1" := reader_policy]} "ann" "NODE.READ" "shop" "eu" "Order") as (b & w' & E & _ & Hb).
  - apply quiet_env_ok.
  - unfold policies_are. destruct (encode_cbor_total reader_policy) as (v & Ev & _).
    assert (w_kv (upsert_policy reader_policy quiet_env empty_world).2 = kv_set empty_kv (row_key policy_subspace "p1") v)
      as -> by (injection Ev as <-; vm_compute; reflexivity).
    apply (table_insert policy_subspace policy_id empty_kv ∅ reader_policy v I Ev). by apply table_empty.
  - rewrite map_size_singleton. apply Nat.leb_le. vm_compute. reflexivity.
  - exists w'. rewrite E. do 2 f_equal. apply Hb. exists "p1", reader_policy. eexists. split; [reflexivity|]. split; [reflexivity|].
    split; [left|]. apply permission_grants_spec. vm_compute. reflexivity.
Defined.

Definition some_session : AuthTokenSession := mkAuthTokenSession "a1" "r1" "ann" "user" ["admin"] 1 100 None.

Lemma token_session_lifecycle_witness :
  exists w1, upsert_token_session some_session quiet_env empty_world = (Ok tt, w1) /\
    (get_token_session_by_refresh "r1" quiet_env w1).1 = Ok (Some some_session).
Proof.
  destruct (token_session_lifecycle quiet_env empty_world some_session quiet_env_ok) as (w1 & E & _ & Hr & _).
  exists w1. split; [exact E|exact Hr].
Defined.

(** A log of five records, the last of another principal. *)
Definition event (n : nat) (principal : string) : AuditRecord :=
  mkAuditRecord "e" (Z.of_nat n * 1000) principal "node.read" "r" true "ok" ∅.
Definition five_events : list AuditRecord := [event 1 "bob"; event 2 "bob"; event 3 "bob"; event 4 "bob"; event 5 "ann"].
Definition audit_world : World MemKv :=
  foldl (fun w r => (append_audit_record (H1 := tick_uuid) r quiet_env w).2) empty_world five_events.

Lemma five_events_log : audit_log (w_kv audit_world) five_events.
Proof.
  unfold audit_log.
  assert (kv_range (w_kv audit_world) (prefix audit_subspace) (Sub.range_end audit_subspace)
    = map (fun r => (audit_key (au_timestamp r) (event_id r), pos_bytes (encode r))) five_events) as -> by (vm_compute; reflexivity).
  repeat constructor; cbn; unfold i64_ok; try lia; vm_compute; reflexivity.
Qed.

Lemma audit_cleanup_exact_witness :
  exists w', cleanup_audit_records 0 10 (mkEnv (fun _ => 2500) (fun _ => None)) audit_world = (Ok 2%nat, w') /\
    audit_log (w_kv w') [event 3 "bob"; event 4 "bob"; event 5 "ann"].
Proof.
  destruct (audit_cleanup_exact (mkEnv (fun _ => 2500) (fun _ => None)) audit_world five_events 0 10
    ltac:(intros k; reflexivity) five_events_log) as (w' & E & Hl & _).
  exists w'. split; [exact E|exact Hl].
Defined.

(** A query with a filter stops after four times its limit of rows, matching or
    not: with a limit of one, a record of the principal behind four others is not
    found. *)
Lemma audit_query_misses :
  (query_audit_records (Some "ann") None None None 1 quiet_env audit_world).1 = Ok [].
Proof. vm_compute. reflexivity. Qed.

(** Names are put into a path as they are: a policy for the namespace "eu" of the
    database "shop" also covers a request on the namespace "data" of a database
    named "shop/eu". *)
Lemma path_policy_crosses_databases :
  permission_grants (mkPolicyPermission "" "" "" ["node.read"] "shop/eu/data/*") "node.read" "shop/eu" "data" "Order" = true.
Proof. vm_compute. reflexivity. Qed.
