(* ===== verification/Service.v ===== *)
(** * Service handlers

    What the gRPC handlers of pelago-api share: the [Status] they return, the
    rendering of errors ([Display] of [PelagoError], from the attributes of
    pelago-core/src/errors.rs), the mapping of pelago-api/src/error.rs and
    [require_field] of service_common.rs.  A handler runs in the monad [G W]: it
    reads and changes a state [W] that contains the world of the storage layer
    ([HasWorld]) and returns a value or a status. *)

From S2P Require Import Prelude Bytes Text Errors Types Encoding Subspace SchemaTypes Fdb.

(** [Display] of [PelagoError]. *)
Definition display (e : PelagoError) : string :=
  match e with
  | UnregisteredType et => "Entity type '" ++ et ++ "' not registered"
  | MissingRequired et f => "Required property '" ++ f ++ "' missing for type '" ++ et ++ "'"
  | TypeMismatch f ex ac => "Type mismatch for field '" ++ f ++ "': expected " ++ ex ++ ", got " ++ ac
  | ExtraProperty f => "Extra property '" ++ f ++ "' not allowed (extras_policy=reject)"
  | CelSyntax ex m => "CEL syntax error in '" ++ ex ++ "': " ++ m
  | CelType f m => "CEL type error for field '" ++ f ++ "': " ++ m
  | InvalidId v => "Invalid ID format: " ++ v
  | InvalidValue f r => "Invalid value for field '" ++ f ++ "': " ++ r
  | SchemaValidation m => "Invalid schema: " ++ m
  | SourceNotFound et n => "Source node not found: " ++ et ++ "/" ++ n
  | TargetNotFound et n => "Target node not found: " ++ et ++ "/" ++ n
  | NodeNotFound et n => "Node not found: " ++ et ++ "/" ++ n
  | EdgeNotFound s t l => "Edge not found: " ++ s ++ " -[" ++ l ++ "]-> " ++ t
  | TargetTypeMismatch e ex ac => "Target type mismatch for edge '" ++ e ++ "': expected " ++ ex ++ ", got " ++ ac
  | UndeclaredEdgeType et e => "Undeclared edge type '" ++ e ++ "' for entity '" ++ et ++ "'"
  | UniqueConstraintViolation et f v => "Unique constraint violation: " ++ et ++ "." ++ f ++ " = " ++ v
  | VersionConflict et n => "Version conflict for " ++ et ++ "/" ++ n
  | SchemaMismatch ex ac => "Schema version mismatch: expected " ++ ustr ex ++ ", got " ++ ustr ac
  | NamespaceSchemaOwnershipConflict d n o a =>
      "Namespace schema ownership conflict for " ++ d ++ "/" ++ n ++ ": owner_site_id=" ++ o ++ ", actor_site_id=" ++ a
  | QueryTimeout t el => "Query timeout: " ++ ustr el ++ "ms exceeded " ++ ustr t ++ "ms"
  | TraversalTimeout _ r => "Traversal timeout at depth " ++ ustr r
  | TransactionTimeout => "FDB transaction too old"
  | TraversalLimit m c => "Traversal result limit exceeded: " ++ ustr c ++ " >= " ++ ustr m
  | MutationScopeTooLarge op k b ed m =>
      "Mutation scope too large for inline execution (" ++ op ++ "): keys=" ++ ustr k ++ ", bytes=" ++ ustr b
        ++ ", edges=" ++ ustr ed ++ ", recommended_mode=" ++ m
  | TxConflictRetryExhausted op n =>
      "Transaction conflict retry budget exhausted (" ++ op ++ ") after " ++ ustr n ++ " attempts"
  | TxWallBudgetExceeded op el b =>
      "Transaction wall time budget exceeded (" ++ op ++ "): " ++ ustr el ++ "ms > " ++ ustr b ++ "ms"
  | SnapshotBudgetExceeded op k rb el b =>
      "Strict snapshot budget exceeded (" ++ op ++ "): scanned_keys=" ++ ustr k ++ ", result_bytes=" ++ ustr rb
        ++ ", elapsed_ms=" ++ ustr el ++ ", budget_ms=" ++ ustr b
  | SnapshotExpired op => "Strict snapshot expired (" ++ op ++ ")"
  | FdbUnavailable m => "FDB unavailable: " ++ m
  | Internal m => "Internal error: " ++ m
  end%string.

(** ** Statuses *)

Record Status := mkStatus { status_code : Code; status_message : string }.

Definition into_status (e : PelagoError) : Status := mkStatus (to_status e) (display e).

Module St.
Definition invalid_argument (m : string) : Status := mkStatus InvalidArgument m.
Definition unauthenticated (m : string) : Status := mkStatus Unauthenticated m.
Definition permission_denied (m : string) : Status := mkStatus PermissionDenied m.
Definition not_found (m : string) : Status := mkStatus NotFound m.
Definition internal (m : string) : Status := mkStatus CodeInternal m.
Definition failed_precondition (m : string) : Status := mkStatus FailedPrecondition m.
Definition resource_exhausted (m : string) : Status := mkStatus ResourceExhausted m.
Definition out_of_range (m : string) : Status := mkStatus OutOfRange m.
Definition cancelled (m : string) : Status := mkStatus Cancelled m.
End St.

(** ** The monad of handlers *)

Class HasWorld (W S : Type) := {
  world_of : W -> World S;
  with_world : W -> World S -> W;
  world_of_with : forall x w, world_of (with_world x w) = w
}.

#[export] Instance world_has_world {S} : HasWorld (World S) S.
Proof. exact {| world_of w := w; with_world _ w := w; world_of_with _ _ := eq_refl |}. Defined.

Definition G (W A : Type) : Type := Env -> W -> (A + Status) * W.

#[export] Instance G_ret {W} : MRet (G W) := fun A a env w => (inl a, w).
#[export] Instance G_bind {W} : MBind (G W) := fun A B f m env w =>
  match m env w with
  | (inl a, w') => f a env w'
  | (inr e, w') => (inr e, w')
  end.

Definition refuse {W A} (s : Status) : G W A := fun env w => (inr s, w).
Definition from_option {W A} (o : option A) (s : Status) : G W A :=
  match o with Some a => mret a | None => refuse s end.
Definition gets {W A} (f : W -> A) : G W A := fun env w => (inl (f w), w).
Definition modify {W} (f : W -> W) : G W unit := fun env w => (inl tt, f w).

Section Calls.
Context {W S : Type} `{HasWorld W S}.

(** A storage operation whose error becomes a status: [.map_err(mk)?]. *)
Definition call {A} (mk : PelagoError -> Status) (m : M S A) : G W A := fun env w =>
  match m env (world_of w) with
  | (Ok a, s) => (inl a, with_world w s)
  | (Err e, s) => (inr (mk e), with_world w s)
  end.

(** The same, keeping the result as a value. *)
Definition try_call {A} (m : M S A) : G W (result A) := fun env w =>
  let '(r, s) := m env (world_of w) in (inl r, with_world w s).

(** [let _ = m.await] *)
Definition ignore {A} (m : M S A) : G W unit := try_call m ;; mret tt.
End Calls.

Definition require_field {W A} (value : option A) (field : string) : G W A :=
  from_option value (St.invalid_argument ("missing " ++ field)).

(** ** Running handlers *)

Section RunG.
Context {W : Type}.

Lemma gbind_run {A B} (m : G W A) (f : A -> G W B) env w a w1 :
  m env w = (inl a, w1) -> (m ≫= f) env w = f a env w1.
Proof. unfold mbind, G_bind. by intros ->. Qed.

Lemma gbind_run_err {A B} (m : G W A) (f : A -> G W B) env w e w1 :
  m env w = (inr e, w1) -> (m ≫= f) env w = (inr e, w1).
Proof. unfold mbind, G_bind. by intros ->. Qed.

Lemma gbind_ok {A B} (m : G W A) (f : A -> G W B) env w b w' :
  (m ≫= f) env w = (inl b, w') <-> exists a w1, m env w = (inl a, w1) /\ f a env w1 = (inl b, w').
Proof.
  unfold mbind, G_bind. destruct (m env w) as [[a|e] w1]; [|naive_solver].
  split; [by eauto|]. intros (? & ? & [= <- <-] & ?). done.
Qed.

Lemma run_gets {A B} (g : W -> A) (f : A -> G W B) env w : (gets g ≫= f) env w = f (g w) env w.
Proof. reflexivity. Qed.
Lemma run_modify {B} (g : W -> W) (f : unit -> G W B) env w : (modify g ≫= f) env w = f tt env (g w).
Proof. reflexivity. Qed.
Lemma run_gret {A B} (a : A) (f : A -> G W B) env w : (mret a ≫= f) env w = f a env w.
Proof. reflexivity. Qed.

Context {S : Type} `{!HasWorld W S}.

Lemma run_call {A} mk (m : M S A) env w a s : m env (world_of w) = (Ok a, s) -> call mk m env w = (inl a, with_world w s).
Proof. unfold call. by intros ->. Qed.
Lemma run_try_call {A} (m : M S A) env w r s : m env (world_of w) = (r, s) -> try_call m env w = (inl r, with_world w s).
Proof. unfold try_call. by intros ->. Qed.
Lemma run_ignore {A} (m : M S A) env w r s : m env (world_of w) = (r, s) -> ignore m env w = (inl tt, with_world w s).
Proof. intros E. unfold ignore. by rewrite (gbind_run _ _ _ _ _ _ (run_try_call m env w r s E)). Qed.
End RunG.

(** A handler's status carries the code of the category of the error. *)
Lemma into_status_category e : status_code (into_status e) ∈ category_statuses (category e).
Proof. apply error_contract. Qed.
