(* ===== verification/Auth.v ===== *)
(** * Authentication and authorization

    [pelago-api/src/authz.rs] and [pelago-api/src/auth_service.rs]: who a caller
    is and what it may do.  [AuthRuntime] is the state of one server process:
    tokens it has issued or seen, next to the identities configured by
    environment variables.  Sessions are also persisted in the security store,
    which several servers share; a server process is restarted by taking a fresh
    runtime over the same world. *)

From S2P Require Import Prelude Bytes Text Errors Types Encoding Subspace SchemaTypes Fdb MemFdb Cdc Jobs Rows Security Service.

Record AuthPrincipal := mkAuthPrincipal { principal_id : string; principal_type : string; roles : list string }.

(** The fields of the request context the handlers use. *)
Record RequestContext := mkRequestContext { ctx_database : string; ctx_namespace : string }.

(** ** Roles *)

Definition has_admin_role (roles : list string) : bool := existsb (fun r => eq_ignore_ascii_case r "admin") roles.
Definition has_read_only_role (roles : list string) : bool := existsb (fun r => eq_ignore_ascii_case r "read-only") roles.

(** [str::strip_prefix] *)
Definition strip (p s : string) : option string := bstr <$> strip_prefix (sbytes p) (sbytes s).

(** The first two parts of [rest.split(':')]; [next().unwrap_or_default()] is the
    empty string when there is no second part. *)
Definition scope_of (rest : string) : string * string :=
  match split_on Byte.x3a (sbytes rest) with
  | d :: n :: _ => (bstr d, bstr n)
  | [d] => (bstr d, "")
  | [] => ("", "")
  end.

Definition namespace_admin (database namespace role : string) : bool :=
  eq_ignore_ascii_case role "namespace-admin" ||
  match strip "namespace-admin:" role with
  | Some rest => String.eqb (scope_of rest).1 database && String.eqb (scope_of rest).2 namespace
  | None => false
  end.

Definition has_namespace_admin_role (roles : list string) (database namespace : string) : bool :=
  existsb (namespace_admin database namespace) roles.

Definition is_read_action (action : string) : bool :=
  starts_with action "read." || starts_with action "query." || starts_with action "watch."
  || bool_decide (action ∈ ["schema.read"; "node.read"; "edge.read"; "admin.read"; "auth.policy.read";
                            "auth.policy.check"; "auth.token.read"; "replication.pull"]).

(** [action_scope] has the body of [action_subspace] of the security store. *)
Definition action_scope (action : string) : string :=
  if starts_with action "schema." then "_schema"
  else if starts_with action "edge." then "edge"
  else if starts_with action "auth.policy." then "_sys/policies"
  else if starts_with action "auth.token." then "_sys/tokens"
  else if starts_with action "replication." then "_replication"
  else "data".

(** ** Authorization *)

Section Authz.
Context {W S : Type} `{HasWorld W S} `{Fdb S} `{Cbor AuthPolicy} `{Cbor AuditRecord} `{UuidSource}.

Definition authz_resource (action database namespace entity_type : string) : string :=
  if String.eqb entity_type "" then (database ++ "/" ++ namespace ++ "/" ++ action_scope action)%string
  else (database ++ "/" ++ namespace ++ "/" ++ action_scope action ++ "/" ++ entity_type)%string.

Definition authz_audit (p : AuthPrincipal) (action resource : string) (ok : bool) : AuditRecord :=
  mkAuditRecord "" 0 (principal_id p) (if ok then "authz.allowed" else "authz.denied") resource ok
    (if ok then "allowed" else "permission denied")
    (<["principal_type" := principal_type p]> {["requested_action" := action]}).

Definition authz_decision (p : AuthPrincipal) (action database namespace entity_type : string) : G W bool :=
  if has_admin_role (roles p) then mret true
  else if has_namespace_admin_role (roles p) database namespace then mret true
  else if has_read_only_role (roles p) then mret (is_read_action action)
  else call (fun e => St.internal ("authorization check failed: " ++ display e))
         (check_permission (principal_id p) action database namespace entity_type).

Definition authorize (principal : option AuthPrincipal) (action database namespace entity_type : string) : G W unit :=
  match principal with
  | None => mret tt
  | Some p =>
      let resource := authz_resource action database namespace entity_type in
      allowed ← authz_decision p action database namespace entity_type;
      ignore (append_audit_record (authz_audit p action resource allowed)) ;;
      if allowed : bool then mret tt
      else refuse (St.permission_denied
             ("principal '" ++ principal_id p ++ "' is not authorized for '" ++ action ++ "'"))
  end.

Definition authorize_with_context (principal : option AuthPrincipal) (action : string) (ctx : RequestContext)
    (entity_type : string) : G W unit :=
  authorize principal action (ctx_database ctx) (ctx_namespace ctx) entity_type.
End Authz.

(** ** The runtime *)

Record TokenSession := mkTokenSession {
  se_principal_id : string;
  se_principal_type : string;
  se_roles : list string;
  se_expires_at : Z
}.

(** [persistent] is whether the runtime was built with a database. *)
Record AuthRuntime := mkAuthRuntime {
  sessions : gmap string TokenSession;
  refresh_tokens : gmap string string;
  api_keys : gmap string string;
  mtls_subjects : gmap string string;
  mtls_fingerprints : gmap string string;
  mtls_enabled : bool;
  mtls_default_role : string;
  persistent : bool;
  default_ttl_secs : Z;
  max_ttl_secs : Z
}.

(** [str::split_once] on a one-byte separator. *)
Fixpoint split_once (sep : byte) (l : bytes) : option (bytes * bytes) :=
  match l with
  | [] => None
  | c :: l' => if decide (c = sep) then Some ([], l') else (fun '(a, b) => (c :: a, b)) <$> split_once sep l'
  end.

(** The trimmed non-empty entries of a comma-separated variable. *)
Definition entries_of (raw : string) : list string :=
  List.filter (fun s => negb (String.eqb s "")) (map (fun b => trim (bstr b)) (split_on Byte.x2c (sbytes raw))).

Definition normalize_mtls_fingerprint (raw : string) : string :=
  let trimmed := to_ascii_lowercase (trim raw) in
  if String.eqb trimmed "" then ""
  else if starts_with trimmed "sha256:" then trimmed else ("sha256:" ++ trimmed)%string.

Definition parse_api_keys (raw : string) : gmap string string :=
  foldl (fun m entry =>
    match split_once Byte.x3a (sbytes entry) with
    | Some (key, principal) => <[trim (bstr key) := trim (bstr principal)]> m
    | None => <[entry := "api-key-user"]> m
    end) ∅ (entries_of raw).

Definition parse_mtls_subjects (raw : string) : gmap string string :=
  foldl (fun m entry =>
    match split_once Byte.x3d (sbytes entry) with
    | Some (subject, principal) => <[trim (bstr subject) := trim (bstr principal)]> m
    | None => <[entry := entry]> m
    end) ∅ (entries_of raw).

Definition parse_mtls_fingerprints (raw : string) : gmap string string :=
  foldl (fun m entry =>
    match split_once Byte.x3d (sbytes entry) with
    | Some (fingerprint, principal) => <[normalize_mtls_fingerprint (bstr fingerprint) := trim (bstr principal)]> m
    | None => let normalized := normalize_mtls_fingerprint entry in <[normalized := normalized]> m
    end) ∅ (entries_of raw).

(** [str::parse::<i64>] *)
Definition parse_i64 (l : bytes) : option Z :=
  match l with
  | [] => None
  | [c] => if is_digit c then parse_digits (2 ^ 63 - 1) 0 l else None
  | c :: l' =>
      if decide (c = Byte.x2d) then Z.opp <$> parse_digits (2 ^ 63) 0 l'
      else if decide (c = Byte.x2b) then parse_digits (2 ^ 63 - 1) 0 l'
      else parse_digits (2 ^ 63 - 1) 0 l
  end.

Definition env_i64 (getenv : string -> option string) (name : string) (default : Z) : Z :=
  match getenv name with
  | Some raw => match parse_i64 (sbytes raw) with Some z => z | None => default end
  | None => default
  end.

Definition env_bool (getenv : string -> option string) (name : string) (default : bool) : bool :=
  match getenv name with
  | Some raw =>
      let v := to_ascii_lowercase (trim raw) in
      if bool_decide (v ∈ ["1"; "true"; "yes"; "on"]) then true
      else if bool_decide (v ∈ ["0"; "false"; "no"; "off"]) then false else default
  | None => default
  end.

Definition with_var {A} (getenv : string -> option string) (name : string) (f : string -> A) (d : A) : A :=
  match getenv name with Some raw => f raw | None => d end.

(** [AuthRuntime::new] and [with_db], from the environment variables. *)
Definition new_runtime (getenv : string -> option string) (db : bool) : AuthRuntime :=
  mkAuthRuntime ∅ ∅
    (with_var getenv "PELAGO_API_KEYS" parse_api_keys ∅)
    (with_var getenv "PELAGO_MTLS_SUBJECTS" parse_mtls_subjects ∅)
    (with_var getenv "PELAGO_MTLS_FINGERPRINTS" parse_mtls_fingerprints ∅)
    (env_bool getenv "PELAGO_MTLS_ENABLED" false)
    (match getenv "PELAGO_MTLS_DEFAULT_ROLE" with
     | Some s => if String.eqb (trim s) "" then "service" else s
     | None => "service"
     end)
    db
    (Z.max (env_i64 getenv "PELAGO_AUTH_TOKEN_TTL_SECS" 3600) 60)
    (Z.max (env_i64 getenv "PELAGO_AUTH_MAX_TOKEN_TTL_SECS" 86400) 300).

Definition set_tokens (r : AuthRuntime) (s : gmap string TokenSession) (f : gmap string string) : AuthRuntime :=
  mkAuthRuntime s f (api_keys r) (mtls_subjects r) (mtls_fingerprints r) (mtls_enabled r) (mtls_default_role r)
    (persistent r) (default_ttl_secs r) (max_ttl_secs r).

Definition principal_for_api_key (r : AuthRuntime) (api_key : string) : option AuthPrincipal :=
  (fun principal => mkAuthPrincipal principal "api_key" ["admin"]) <$> api_keys r !! api_key.

Definition principal_for_mtls_subject (r : AuthRuntime) (subject : string) : option AuthPrincipal :=
  if negb (mtls_enabled r) then None else
  let subject := trim subject in
  if String.eqb subject "" then None else
  Some (mkAuthPrincipal (default subject (mtls_subjects r !! subject)) "mtls" [mtls_default_role r]).

Definition principal_for_mtls_fingerprint (r : AuthRuntime) (fingerprint : string) : option AuthPrincipal :=
  if negb (mtls_enabled r) then None else
  let normalized := normalize_mtls_fingerprint fingerprint in
  if String.eqb normalized "sha256:" then None else
  id ← (if bool_decide (mtls_fingerprints r = ∅) then Some normalized else mtls_fingerprints r !! normalized);
  Some (mkAuthPrincipal id "mtls" [mtls_default_role r]).

(** A server: its runtime and the world it shares with others. *)
Record Server (S : Type) := mkServer { sv_runtime : AuthRuntime; sv_world : World S }.
Arguments mkServer {S}.
Arguments sv_runtime {S}.
Arguments sv_world {S}.

#[export] Instance server_has_world {S} : HasWorld (Server S) S.
Proof.
  exact {| world_of x := sv_world x; with_world x w := mkServer (sv_runtime x) w; world_of_with _ _ := eq_refl |}.
Defined.

Section Runtime.
Context {S : Type} `{Fdb S} `{Cbor AuthPolicy} `{Cbor AuditRecord} `{Cbor AuthTokenSession} `{Cbor RefreshTokenBinding} `{UuidSource}.

Definition remember (access refresh : string) (s : TokenSession) : G (Server S) unit :=
  modify (fun x => let r := sv_runtime x in
    mkServer (set_tokens r (<[access := s]> (sessions r)) (<[refresh := access]> (refresh_tokens r))) (sv_world x)).

Definition secs : G (Server S) Z := call into_status now_secs.

(** [.cloned().filter(|s| s.expires_at > now_secs())] *)
Definition unexpired (o : option TokenSession) : G (Server S) (option TokenSession) :=
  match o with
  | None => mret None
  | Some s => t ← secs; mret (if t <? se_expires_at s then Some s else None)
  end.

Definition is_active_persistent_session (s : AuthTokenSession) : G (Server S) bool :=
  match revoked_at s with
  | Some _ => mret false
  | None => t ← secs; mret (t <? ts_expires_at s)
  end.

Definition session_of (p : AuthTokenSession) : TokenSession :=
  mkTokenSession (ts_principal_id p) (ts_principal_type p) (ts_roles p) (ts_expires_at p).

(** The part of the two lookups that goes to the store. *)
Definition adopt_persisted (lookup : M S (option AuthTokenSession)) (bind : AuthTokenSession -> G (Server S) unit)
    : G (Server S) (option TokenSession) :=
  r ← gets sv_runtime;
  if negb (persistent r) then mret None else
  found ← try_call lookup;
  match found with
  | Ok (Some persisted) =>
      active ← is_active_persistent_session persisted;
      if negb active then mret None
      else bind persisted ;; mret (Some (session_of persisted))
  | _ => mret None
  end.

Definition validate_bearer_token (token : string) : G (Server S) (option TokenSession) :=
  r ← gets sv_runtime;
  cached ← unexpired (sessions r !! token);
  match cached with
  | Some s => mret (Some s)
  | None => adopt_persisted (get_token_session_by_access token)
              (fun p => remember token (refresh_token p) (session_of p))
  end.

Definition principal_of (s : TokenSession) : AuthPrincipal :=
  mkAuthPrincipal (se_principal_id s) (se_principal_type s) (se_roles s).

Definition validate_bearer_token_principal (token : string) : G (Server S) (option AuthPrincipal) :=
  s ← validate_bearer_token token; mret (principal_of <$> s).

(** [try_read] finds the lock free: no handler holds it across another step. *)
Definition validate_bearer_token_sync (token : string) : G (Server S) (option AuthPrincipal) :=
  r ← gets sv_runtime;
  match sessions r !! token with
  | None => mret None
  | Some s => t ← secs; mret (if se_expires_at s <=? t then None else Some (principal_of s))
  end.

Definition validate_bearer_token_blocking (token : string) : G (Server S) (option AuthPrincipal) :=
  cached ← validate_bearer_token_sync token;
  match cached with
  | Some p => mret (Some p)
  | None => r ← gets sv_runtime; if negb (persistent r) then mret None else validate_bearer_token_principal token
  end.

Definition issue_tokens (principal_id principal_type : string) (roles : list string) (ttl_secs : option Z)
    : G (Server S) (string * string * Z) :=
  access ← call into_status fresh_uuid;
  refresh ← call into_status fresh_uuid;
  r ← gets sv_runtime;
  let ttl := Z.max 60 (Z.min (default (default_ttl_secs r) ttl_secs) (max_ttl_secs r)) in
  issued_at ← secs;
  let expires_at := issued_at + ttl in
  remember access refresh (mkTokenSession principal_id principal_type roles expires_at) ;;
  (if persistent r then
     call (fun e => St.internal ("token persistence failed: " ++ display e))
       (upsert_token_session (mkAuthTokenSession access refresh principal_id principal_type roles issued_at expires_at None))
   else mret tt) ;;
  mret (access, refresh, expires_at).

Definition session_from_refresh_token (token : string) : G (Server S) (option TokenSession) :=
  r ← gets sv_runtime;
  cached ← match refresh_tokens r !! token with
           | Some access => unexpired (sessions r !! access)
           | None => mret None
           end;
  match cached with
  | Some s => mret (Some s)
  | None => adopt_persisted (get_token_session_by_refresh token)
              (fun p => remember (access_token p) token (session_of p))
  end.

Definition forget_access (access : string) : G (Server S) bool :=
  r ← gets sv_runtime;
  modify (fun x => let r := sv_runtime x in
    mkServer (set_tokens r (delete access (sessions r)) (filter (fun kv => kv.2 <> access) (refresh_tokens r))) (sv_world x)) ;;
  mret (bool_decide (is_Some (sessions r !! access))).

Definition forget_refresh (refresh : string) : G (Server S) bool :=
  r ← gets sv_runtime;
  modify (fun x => let r := sv_runtime x in
    mkServer (set_tokens r (sessions r) (delete refresh (refresh_tokens r))) (sv_world x)) ;;
  mret (bool_decide (is_Some (refresh_tokens r !! refresh))).

Definition on_some {A} (o : option A) (f : A -> G (Server S) bool) : G (Server S) bool :=
  match o with Some a => f a | None => mret false end.

Definition revoke_tokens (access refresh : option string) : G (Server S) bool :=
  r1 ← on_some access forget_access;
  r2 ← on_some refresh forget_refresh;
  rt ← gets sv_runtime;
  if persistent rt then
    r3 ← on_some access (fun a => call (fun e => St.internal ("token revoke failed: " ++ display e)) (revoke_access_token a));
    r4 ← on_some refresh (fun a => call (fun e => St.internal ("refresh revoke failed: " ++ display e)) (revoke_refresh_token a));
    mret (r1 || r2 || r3 || r4)
  else mret (r1 || r2).
End Runtime.

(** ** Who a request is from

    [pelago-server/src/auth_identity.rs].  [headers] gives the text of a header;
    the digest of a certificate is computed by a third-party library. *)

Class Sha256 := { sha256 : bytes -> bytes }.

(** Two lower-case hexadecimal digits per byte, as [Versionstamp.hex_digit] prints them. *)
Definition sha256_fingerprint `{Sha256} (cert : bytes) : string :=
  ("sha256:" ++ bstr (flat_map (fun b => [Versionstamp.hex_digit (Z.shiftr (u8b b) 4);
                                          Versionstamp.hex_digit (Z.land (u8b b) 15)]) (sha256 cert)))%string.

Definition header_value (headers : string -> option string) (name : string) : option string :=
  v ← headers name; let v := trim v in if String.eqb v "" then None else Some v.

Definition request_peer_cert_fingerprint `{Sha256} (peer_certs : option (list bytes)) : option string :=
  certs ← peer_certs; first ← List.hd_error certs; Some (sha256_fingerprint first).

Section Identity.
Context {S : Type} `{Fdb S} `{Cbor AuthTokenSession}.

(** The chain of attempts, from the texts the transport provides. *)
Definition resolve_principal (fingerprint subject api_key authorization : option string)
    : G (Server S) (option AuthPrincipal) :=
  r ← gets sv_runtime;
  match (f ← fingerprint; principal_for_mtls_fingerprint r f) with
  | Some p => mret (Some p)
  | None =>
      match (s ← subject; principal_for_mtls_subject r s) with
      | Some p => mret (Some p)
      | None =>
          match (k ← api_key; principal_for_api_key r k) with
          | Some p => mret (Some p)
          | None =>
              match authorization with
              | None => mret None
              | Some auth =>
                  let token := trim (default auth (strip "Bearer " auth)) in
                  if String.eqb token "" then mret None else validate_bearer_token_blocking token
              end
          end
      end
  end.

Definition resolve_principal_from_http_headers (mtls_subject_header : string) (headers : string -> option string)
    : G (Server S) (option AuthPrincipal) :=
  resolve_principal (header_value headers "x-mtls-fingerprint") (header_value headers mtls_subject_header)
    (header_value headers "x-api-key") (header_value headers "authorization").

Definition resolve_principal_from_tonic_request `{Sha256} (mtls_subject_header : string)
    (peer_certs : option (list bytes)) (metadata : string -> option string) : G (Server S) (option AuthPrincipal) :=
  resolve_principal (request_peer_cert_fingerprint peer_certs) (metadata mtls_subject_header)
    (metadata "x-api-key") (metadata "authorization").
End Identity.

(** ** The handlers of [AuthServiceImpl]

    A request is its fields; the principal is the one the interceptor put into the
    request's extensions.  The messages [Policy] and [Permission] have the fields
    of [AuthPolicy] and [PolicyPermission]. *)

Record AuthenticateResponse := mkAuthenticateResponse {
  ar_access_token : string;
  ar_refresh_token : string;
  ar_expires_at : Z;
  ar_principal : AuthPrincipal
}.

Record IntrospectTokenResponse := mkIntrospectTokenResponse {
  it_active : bool;
  it_principal : option AuthPrincipal;
  it_expires_at : Z;
  it_reason : string
}.

Section Handlers.
Context {S : Type} `{Fdb S} `{Cbor AuthPolicy} `{Cbor AuditRecord} `{Cbor AuthTokenSession} `{Cbor RefreshTokenBinding} `{UuidSource}.

Definition append_auth_audit (who action resource : string) (ok : bool) (reason : string) : G (Server S) unit :=
  ignore (append_audit_record (mkAuditRecord "" 0 who action resource ok reason ∅)).

Definition caller (principal : option AuthPrincipal) : string :=
  match principal with Some p => principal_id p | None => "system" end.

Definition guarded (principal : option AuthPrincipal) (context : option RequestContext) (action : string)
    : G (Server S) unit :=
  ctx ← require_field context "context";
  authorize_with_context principal action ctx "*".

Definition authenticate (api_key username password : string) : G (Server S) AuthenticateResponse :=
  r ← gets sv_runtime;
  id ← (if negb (String.eqb api_key "") then
          from_option (api_keys r !! api_key) (St.unauthenticated "invalid api key")
        else if negb (String.eqb username "") then mret username
        else refuse (St.invalid_argument "missing credentials"));
  tokens ← issue_tokens id "user" ["admin"] None;
  let '(access, refresh, expires_at) := tokens in
  append_auth_audit id "auth.authenticate" "*" true "authenticated" ;;
  mret (mkAuthenticateResponse access refresh expires_at (mkAuthPrincipal id "user" ["admin"])).

(** [AuthService::refresh_token]: the new access token, its expiry and the new
    refresh token. *)
Definition refresh (token : string) : G (Server S) (string * Z * string) :=
  found ← session_from_refresh_token token;
  s ← from_option found (St.unauthenticated "refresh session not found");
  tokens ← issue_tokens (se_principal_id s) (se_principal_type s) (se_roles s) None;
  let '(access, refresh, expires_at) := tokens in
  (fun env x => let '(_, x') := revoke_tokens None (Some token) env x in (inl tt, x')) ;;
  append_auth_audit (se_principal_id s) "auth.token.refresh" access true "token refreshed" ;;
  mret (access, expires_at, refresh).

Definition validate_token (token : string) : G (Server S) (AuthPrincipal * Z) :=
  found ← validate_bearer_token token;
  s ← from_option found (St.unauthenticated "invalid token");
  append_auth_audit (se_principal_id s) "auth.token.validate" token true "token validated" ;;
  mret (principal_of s, se_expires_at s).

Definition issue_service_token (principal : option AuthPrincipal) (context : option RequestContext)
    (id : string) (req_roles : list string) (ttl_secs : Z) : G (Server S) AuthenticateResponse :=
  guarded principal context "auth.token.write" ;;
  if String.eqb id "" then refuse (St.invalid_argument "principal_id cannot be empty") else
  let roles := match req_roles with [] => ["service"] | _ => req_roles end in
  let ttl := if ttl_secs <=? 0 then None else Some ttl_secs in
  tokens ← issue_tokens id "service" roles ttl;
  let '(access, refresh, expires_at) := tokens in
  append_auth_audit (caller principal) "auth.token.issue" id true "service token issued" ;;
  mret (mkAuthenticateResponse access refresh expires_at (mkAuthPrincipal id "service" roles)).

Definition non_empty (s : string) : option string := if String.eqb s "" then None else Some s.

Definition revoke_token (principal : option AuthPrincipal) (context : option RequestContext)
    (access refresh : string) : G (Server S) bool :=
  guarded principal context "auth.token.write" ;;
  if String.eqb access "" && String.eqb refresh "" then
    refuse (St.invalid_argument "either access_token or refresh_token must be provided")
  else
    revoked ← revoke_tokens (non_empty access) (non_empty refresh);
    append_auth_audit (caller principal) "auth.token.revoke" (if String.eqb access "" then refresh else access) revoked
      (if revoked : bool then "token revoked" else "token not found") ;;
    mret revoked.

Definition introspect_token (principal : option AuthPrincipal) (context : option RequestContext) (token : string)
    : G (Server S) IntrospectTokenResponse :=
  guarded principal context "auth.token.read" ;;
  if String.eqb token "" then refuse (St.invalid_argument "token cannot be empty") else
  found ← validate_bearer_token token;
  let response := match found with
    | Some s => mkIntrospectTokenResponse true (Some (principal_of s)) (se_expires_at s) "token active"
    | None => mkIntrospectTokenResponse false None 0 "token not found, expired, or revoked"
    end in
  append_auth_audit (caller principal) "auth.token.introspect" token (it_active response) (it_reason response) ;;
  mret response.

Definition proto_policy_to_model (policy : AuthPolicy) : G (Server S) AuthPolicy :=
  if String.eqb (policy_id policy) "" then refuse (St.invalid_argument "policy_id cannot be empty")
  else if String.eqb (pol_principal_id policy) "" then refuse (St.invalid_argument "principal_id cannot be empty")
  else
    created ← (if pol_created_at policy =? 0 then secs else mret (pol_created_at policy));
    mret (mkAuthPolicy (policy_id policy) (pol_principal_id policy) (permissions policy) created).

Definition create_policy (principal : option AuthPrincipal) (context : option RequestContext)
    (policy : option AuthPolicy) : G (Server S) AuthPolicy :=
  guarded principal context "auth.policy.write" ;;
  policy ← require_field policy "policy";
  model ← proto_policy_to_model policy;
  call (fun e => St.internal ("create_policy failed: " ++ display e)) (upsert_policy model) ;;
  append_auth_audit (caller principal) "auth.policy.create" (policy_id model) true "policy created" ;;
  mret model.

Definition get_policy_rpc (principal : option AuthPrincipal) (context : option RequestContext) (id : string)
    : G (Server S) AuthPolicy :=
  guarded principal context "auth.policy.read" ;;
  found ← call (fun e => St.internal ("get_policy failed: " ++ display e)) (get_policy id);
  from_option found (St.not_found "policy not found").

Definition list_policies_rpc (principal : option AuthPrincipal) (context : option RequestContext) (id : string)
    : G (Server S) (list AuthPolicy) :=
  guarded principal context "auth.policy.read" ;;
  call (fun e => St.internal ("list_policies failed: " ++ display e)) (list_policies (non_empty id)).

Definition delete_policy_rpc (principal : option AuthPrincipal) (context : option RequestContext) (id : string)
    : G (Server S) bool :=
  guarded principal context "auth.policy.write" ;;
  deleted ← call (fun e => St.internal ("delete_policy failed: " ++ display e)) (delete_policy id);
  append_auth_audit (caller principal) "auth.policy.delete" id deleted
    (if deleted : bool then "policy deleted" else "policy not found") ;;
  mret deleted.

Definition check_permission_rpc (principal : option AuthPrincipal) (context : option RequestContext)
    (id action database namespace entity_type : string) : G (Server S) (bool * string) :=
  guarded principal context "auth.policy.check" ;;
  ok ← call (fun e => St.internal ("check_permission failed: " ++ display e))
         (check_permission id action database namespace entity_type);
  append_auth_audit id action (database ++ "/" ++ namespace ++ "/" ++ entity_type) ok
    (if ok : bool then "allowed" else "denied") ;;
  mret (ok, (if ok : bool then "policy match" else "no matching policy")).
End Handlers.

(** ** Authorization: what the decision is *)

(** Who may do what: administrators everything, namespace administrators
    everything in their scope, read-only principals the read actions, all others
    what a policy covers. *)
Definition entitled (m : gmap string AuthPolicy) (p : AuthPrincipal) (action db ns et : string) : Prop :=
  has_admin_role (roles p) = true \/ has_namespace_admin_role (roles p) db ns = true \/
  (if has_read_only_role (roles p) then is_read_action action = true
   else exists id pol perm, m !! id = Some pol /\ pol_principal_id pol = principal_id p /\
          perm ∈ permissions pol /\ covers perm action db ns et).

(** The read-only relation on the servers' worlds and the records of the audit log:
    an appended audit record changes one key of the audit subspace. *)
Section AuthzFacts.
Context {W S : Type} `{HasWorld W S} `{FdbLaws S} `{CborLaws AuthPolicy id (fun _ => True)}
  `{CborLaws AuditRecord id (fun _ => True)} `{UuidSource} (env : Env) (Henv : no_faults env).
Implicit Types (w : World S) (x : W).

(** Appending a record without a time and identifier stores it under a new key. *)
Lemma run_append_audit w (r : AuditRecord) :
  event_id r = "" -> au_timestamp r = 0 ->
  exists r' w', append_audit_record r env w = (Ok r', w') /\
    au_principal_id r' = au_principal_id r /\ au_action r' = au_action r /\ resource r' = resource r /\
    allowed r' = allowed r /\ au_metadata r' = au_metadata r /\
    (exists v, kv_get (w_kv w') (audit_key (au_timestamp r') (event_id r')) = Some v /\ decode_cbor v = Ok r') /\
    forall k, k <> audit_key (au_timestamp r') (event_id r') -> kv_get (w_kv w') k = kv_get (w_kv w) k.
Proof.
  intros He Ht. unfold append_audit_record. rewrite He, Ht. cbn [String.eqb Z.eqb].
  unfold fresh_uuid. rewrite (bind_run _ _ _ _ (uuid_now_v7 (w_tick w)) (next_tick w) eq_refl). mrun Henv.
  set (r' := mkAuditRecord _ _ _ _ _ _ _ _). destruct (encode_cbor_total r') as (v & Ev & _). rewrite Ev. mrun Henv.
  rewrite (bind_run _ _ _ _ _ _ (run_db_set env Henv _ _ _)). exists r'. eexists. split; [reflexivity|].
  repeat (split; [done|]). cbn [w_kv set_kv next_tick]. split.
  - exists v. rewrite kv_get_set, decide_True by done. split; [done|]. exact (decode_encode_cbor r' v I Ev).
  - intros k Hk. rewrite kv_get_set, decide_False; [done|]. intros E. by apply Hk.
Qed.

Lemma run_authz_decision x m p action db ns et :
  policies_are (world_of x) m -> (size m <= 10000)%nat ->
  exists b x', authz_decision p action db ns et env x = (inl b, x') /\ idle (world_of x) (world_of x') /\
    (b = true <-> entitled m p action db ns et).
Proof.
  intros Ht Hn. unfold authz_decision, entitled.
  destruct (has_admin_role (roles p)); [eexists true, x; split; [done|]; split; [done|]; naive_solver|].
  destruct (has_namespace_admin_role (roles p) db ns); [eexists true, x; split; [done|]; split; [done|]; naive_solver|].
  destruct (has_read_only_role (roles p)); [eexists _, x; split; [done|]; split; [done|]; naive_solver|].
  destruct (run_check_permission env Henv (world_of x) m (principal_id p) action db ns et Ht Hn) as (b & w' & E & Hw & Hb).
  exists b, (with_world x w'). split; [by apply run_call|]. rewrite world_of_with. split; [done|]. rewrite Hb. naive_solver.
Qed.
End AuthzFacts.


(** ** Revocation *)

Section RevokeFacts.
Context {S : Type} `{FdbLaws S} `{CborLaws AuthTokenSession id (fun _ => True)} `{CborLaws RefreshTokenBinding id (fun _ => True)}.
Implicit Types (w : World S) (x : Server S) (a : string).

(** Sessions are stored under their own access tokens. *)
Definition sessions_wf w : Prop := forall a v s,
  kv_get (w_kv w) (access_token_key a) = Some v -> decode_cbor v = Ok s -> access_token s = a.

(** No usable session is stored under the token. *)
Definition no_session w a : Prop := forall v s,
  kv_get (w_kv w) (access_token_key a) = Some v -> decode_cbor v = Ok s -> is_Some (revoked_at s).

Lemma by_access_sound env w a (s : AuthTokenSession) w' :
  get_token_session_by_access a env w = (Ok (Some s), w') ->
  exists v, kv_get (w_kv w) (access_token_key a) = Some v /\ decode_cbor v = Ok s.
Proof.
  intros E. assert (settles (get_token_session_by_access a : M S _)) as Hs by (unfold get_token_session_by_access; solve_settles).
  apply Hs in E. unfold get_token_session_by_access in E.
  rewrite (bind_run _ _ _ _ _ _ (run_db_get _ (calm_no_faults env) _ _)) in E.
  destruct (kv_get (w_kv w) (access_token_key a)) as [v|]; [|done]. exists v. split; [done|].
  apply bind_ok in E as (? & ? & E1 & E2). unfold lift in E1. injection E1 as E1 _. injection E2 as <- _. done.
Qed.

(** A token with no cached and no usable stored session is refused, whatever
    faults strike. *)
Lemma validate_refuses env x a :
  sessions (sv_runtime x) !! a = None -> no_session (sv_world x) a -> (validate_bearer_token a env x).1 = inl None.
Proof.
  intros Hc Hn. unfold validate_bearer_token. rewrite run_gets, Hc. cbn [unexpired]. rewrite run_gret.
  unfold adopt_persisted. rewrite run_gets. destruct (persistent (sv_runtime x)); [|done]. cbn [negb].
  destruct (get_token_session_by_access a env (sv_world x)) as [[[s|]|e] w1] eqn:E;
    rewrite (gbind_run _ _ _ _ _ _ (run_try_call _ env x _ _ E)); [|done..].
  apply by_access_sound in E as (v & Hv & Hd). destruct (Hn v s Hv Hd) as [t Ht].
  unfold is_active_persistent_session. rewrite Ht, run_gret. done.
Qed.

Lemma revoke_refresh_frame env (Henv : no_faults env) w r :
  exists b w', revoke_refresh_token r env w = (Ok b, w') /\
    forall k, k <> refresh_token_key r -> kv_get (w_kv w') k = kv_get (w_kv w) k.
Proof.
  unfold revoke_refresh_token. mrun Henv. destruct (kv_get (w_kv w) (refresh_token_key r)); unfold when.
  - rewrite (bind_run _ _ _ _ _ _ (run_db_clear env Henv _ _)). eexists _, _. split; [reflexivity|].
    intros k Hk. cbn [w_kv set_kv next_tick]. rewrite kv_get_clear, decide_False; [done|]. congruence.
  - eexists _, _. split; [reflexivity|]. done.
Qed.

Lemma revoke_access_leaves_none env (Henv : no_faults env) w a b w' :
  sessions_wf w -> revoke_access_token a env w = (Ok b, w') -> no_session w' a.
Proof.
  intros Hwf E. destruct (kv_get (w_kv w) (access_token_key a)) as [v|] eqn:Hv.
  - destruct (decode_cbor v : result AuthTokenSession) as [s|e] eqn:Hd.
    + assert (Ha : access_token s = a) by by eapply Hwf. subst a.
      destruct (run_revoke_access env Henv w s ltac:(by exists v)) as (t & w2 & E2 & (v2 & Hv2 & Hd2) & _).
      rewrite E2 in E. injection E as _ <-. intros v' s' Hv' Hs'. cbn [access_token revoke] in Hv2.
      assert (s' = revoke s t) as -> by congruence. by eexists.
    + exfalso. unfold revoke_access_token, get_token_session_by_access in E.
      rewrite (bind_run_err _ _ _ _ e (next_tick (next_tick w))) in E; [done|].
      mrun Henv. by rewrite Hv, Hd.
  - unfold revoke_access_token in E. rewrite (bind_run _ _ _ _ _ _ (run_by_access_none env Henv w a Hv)) in E.
    injection E as _ <-. intros v s Hv'. cbn [w_kv next_tick] in Hv'. congruence.
Qed.

(** A stored session keeps the store well formed. *)
Lemma sessions_wf_stored w w' (s : AuthTokenSession) :
  sessions_wf w -> stored_session w' s ->
  (forall a, a <> access_token s -> kv_get (w_kv w') (access_token_key a) = kv_get (w_kv w) (access_token_key a)) ->
  sessions_wf w'.
Proof.
  intros Hwf (v & Hv & Hd) Hk a v' s' Hv' Hd'. destruct (decide (a = access_token s)) as [->|Hne]; [congruence|].
  rewrite Hk in Hv' by done. by eapply Hwf.
Qed.

Lemma run_forget_access env x a :
  forget_access a env x = (inl (bool_decide (is_Some (sessions (sv_runtime x) !! a))),
    mkServer (set_tokens (sv_runtime x) (delete a (sessions (sv_runtime x)))
      (filter (fun kv => kv.2 <> a) (refresh_tokens (sv_runtime x)))) (sv_world x)).
Proof. reflexivity. Qed.
End RevokeFacts.

(** C34: revocation of an access token.  When a server has revoked a token,
    with or without a refresh token, that server refuses the token, and so does
    every server that has not cached the session (one that starts later in
    particular), even when calls to the database fail. *)
Theorem revoked_token_refused {S} `{FdbLaws S} `{CborLaws AuthTokenSession id (fun _ => True)}
    `{CborLaws RefreshTokenBinding id (fun _ => True)} env env' (x x' : Server S) (a : string) (r : option string) (b : bool)
    (rt : AuthRuntime) :
  no_faults env -> persistent (sv_runtime x) = true -> sessions_wf (sv_world x) ->
  revoke_tokens (Some a) r env x = (inl b, x') -> sessions rt !! a = None ->
  (validate_bearer_token a env' x').1 = inl None /\
  (validate_bearer_token a env' (mkServer rt (sv_world x'))).1 = inl None.
Proof.
  intros Henv Hp Hwf E Hrt.
  assert (sessions (sv_runtime x') !! a = None /\ no_session (sv_world x') a) as [Hs Hn];
    [|split; by apply validate_refuses].
  unfold revoke_tokens in E. cbn [on_some] in E. rewrite (gbind_run _ _ _ _ _ _ (run_forget_access env x a)) in E.
  apply gbind_ok in E as (b2 & x2 & E2 & E). rewrite run_gets in E.
  assert (sessions (sv_runtime x2) !! a = None /\ persistent (sv_runtime x2) = true /\ sv_world x2 = sv_world x) as (Hs2 & Hp2 & Hw2).
  { destruct r; injection E2 as <- <-; cbn; rewrite lookup_delete_eq; done. }
  rewrite Hp2 in E. apply gbind_ok in E as (b3 & x3 & E3 & E).
  unfold call in E3. cbn [world_of with_world server_has_world] in E3.
  destruct (revoke_access_token a env (sv_world x2)) as [[b3'|e] w3] eqn:E4; [|done]. injection E3 as -> <-.
  rewrite Hw2 in E4. pose proof (revoke_access_leaves_none env Henv _ a b3 w3 Hwf E4) as Hn3.
  apply gbind_ok in E as (b5 & x5 & E5 & E). injection E as _ <-. destruct r as [r|]; cbn [on_some] in E5.
  - destruct (revoke_refresh_frame env Henv w3 r) as (b6 & w6 & E6 & Hk6).
    unfold call in E5. cbn [world_of with_world server_has_world sv_world sv_runtime] in E5. rewrite E6 in E5. injection E5 as _ <-. cbn. split; [done|].
    intros v s Hv Hd. rewrite Hk6 in Hv by apply access_refresh_key. by eapply Hn3.
  - injection E5 as _ <-. cbn. done.
Qed.

(** ** Logging in *)

Section LoginFacts.
Context {S : Type} `{FdbLaws S} `{CborLaws AuthTokenSession id (fun _ => True)} `{CborLaws RefreshTokenBinding id (fun _ => True)}
  `{CborLaws AuditRecord id (fun _ => True)} `{UuidSource} (env : Env) (Henv : no_faults env).

Lemma run_issue_tokens (x : Server S) who kind rs ttl :
  exists access refresh exp x', issue_tokens who kind rs ttl env x = (inl (access, refresh, exp), x') /\
    sessions (sv_runtime x') !! access = Some (mkTokenSession who kind rs exp) /\
    refresh_tokens (sv_runtime x') !! refresh = Some access.
Proof.
  unfold issue_tokens, secs, fresh_uuid, call. cbn [world_of with_world server_has_world].
  unfold mbind, G_bind, gets, remember, modify, now_secs, now, mbind, M_bind, mret, M_ret. cbn [sv_runtime sv_world].
  destruct (persistent (sv_runtime x)).
  - match goal with |- context [upsert_token_session ?s env ?w] => destruct (run_upsert_session env Henv w s) as (w' & -> & _) end.
    eexists _, _, _, _. split; [reflexivity|]. cbn [sv_runtime set_tokens sessions refresh_tokens]. by rewrite !lookup_insert_eq.
  - eexists _, _, _, _. split; [reflexivity|]. cbn [sv_runtime set_tokens sessions refresh_tokens]. by rewrite !lookup_insert_eq.
Qed.
End LoginFacts.

(** Logging in by name.  A request without an API key that names any
    user, with any password, is given a session of an administrator: the password
    is never looked at. *)
Theorem login_ignores_password {S} `{FdbLaws S} `{CborLaws AuthPolicy id (fun _ => True)}
    `{CborLaws AuthTokenSession id (fun _ => True)} `{CborLaws RefreshTokenBinding id (fun _ => True)}
    `{CborLaws AuditRecord id (fun _ => True)} `{UuidSource} env (x : Server S) (username password : string) :
  no_faults env -> username <> "" ->
  exists response x', authenticate "" username password env x = (inl response, x') /\
    (exists exp, sessions (sv_runtime x') !! ar_access_token response = Some (mkTokenSession username "user" ["admin"] exp)) /\
    forall action db ns et, (authorize (Some (ar_principal response)) action db ns et env x').1 = inl tt.
Proof.
  intros Henv Hu. unfold authenticate. rewrite run_gets. cbn [String.eqb negb].
  rewrite (proj2 (String.eqb_neq _ _) Hu). cbn [negb]. rewrite run_gret.
  destruct (run_issue_tokens env Henv x username "user" ["admin"] None) as (access & refresh & exp & x1 & E & Hs & _).
  rewrite (gbind_run _ _ _ _ _ _ E). unfold append_auth_audit, ignore, try_call. cbn [world_of with_world server_has_world].
  unfold mbind, G_bind, mret, G_ret. destruct (append_audit_record _ env (sv_world x1)) as [r w2].
  eexists _, _. split; [reflexivity|]. cbn [ar_access_token ar_principal sv_runtime]. split; [by exists exp|].
  intros action db ns et. unfold authorize, authz_decision, ignore, try_call. cbn [roles has_admin_role].
  change (has_admin_role ["admin"]) with true. unfold mbind, G_bind, mret, G_ret.
  by destruct (append_audit_record _ env _).
Qed.

(** ** Concrete servers *)

Definition plain_runtime : AuthRuntime := new_runtime (fun _ => None) true.
Definition server0 : Server MemKv := mkServer plain_runtime empty_world.
#[local] Existing Instance tick_uuid.


Lemma login_ignores_password_witness :
  exists response x', authenticate "" "root" "wrong" quiet_env server0 = (inl response, x') /\
    (authorize (Some (ar_principal response)) "auth.policy.write" "db" "ns" "*" quiet_env x').1 = inl tt.
Proof.
  destruct (login_ignores_password quiet_env server0 "root" "wrong") as (response & x' & E & _ & Ha).
  - apply quiet_env_ok.
  - discriminate.
  - exists response, x'. split; [exact E|apply Ha].
Defined.

(** One server logs a user in; a second one, sharing the store, sees the token. *)
Definition run_on {A} (m : G (Server MemKv) A) (x : Server MemKv) : A + Status := (m quiet_env x).1.
Definition after {A} (m : G (Server MemKv) A) (x : Server MemKv) : Server MemKv := (m quiet_env x).2.
Definition logged_in : Server MemKv := after (authenticate "" "ann" "") server0.
Definition ann_access : string := "0".
Definition ann_refresh : string := "1".
Definition second_server (x : Server MemKv) : Server MemKv := mkServer plain_runtime (sv_world x).

Lemma revoked_token_refused_witness :
  exists b x', revoke_tokens (Some "a1") (Some "r1") quiet_env
      (mkServer plain_runtime (upsert_token_session some_session quiet_env empty_world).2) = (inl b, x') /\
    (validate_bearer_token "a1" quiet_env x').1 = inl None.
Proof.
  eexists _, _. split; [vm_compute; reflexivity|].
  eapply (revoked_token_refused quiet_env quiet_env
    (mkServer plain_runtime (upsert_token_session some_session quiet_env empty_world).2) _ "a1" (Some "r1") _ plain_runtime).
  - apply quiet_env_ok.
  - reflexivity.
  - cbn [sv_world]. destruct (run_upsert_session quiet_env quiet_env_ok empty_world some_session) as (w1 & E1 & Hs1 & _ & Hk1 & _).
    rewrite E1. apply (sessions_wf_stored empty_world w1 some_session); [|exact Hs1|].
    + intros a v s Hv. discriminate Hv.
    + intros a Ha. apply Hk1; [intros ?%access_token_key_inj; done|apply access_refresh_key].
  - vm_compute. reflexivity.
  - reflexivity.
Defined.

(** A refresh token is spent by its use, and the server that used it refuses it
    from then on. *)
Lemma refresh_token_spent :
  let x1 := after (refresh ann_refresh) logged_in in
  match run_on (refresh ann_refresh) logged_in, run_on (refresh ann_refresh) x1 with
  | inl _, inr s => status_code s = Unauthenticated | _, _ => False
  end.
Proof. vm_compute. reflexivity. Qed.

(** But a second server that then validates the access token caches the session
    together with the spent refresh token, and accepts it again. *)
Lemma spent_refresh_token_replayed :
  let x1 := after (refresh ann_refresh) logged_in in
  let y := after (validate_token ann_access) (second_server x1) in
  match run_on (refresh ann_refresh) y with inl _ => True | inr _ => False end.
Proof. vm_compute. exact I. Qed.

(** A server that has cached a session accepts its token after another server has
    revoked it. *)
Lemma revoked_token_cached_elsewhere :
  let y := after (validate_token ann_access) (second_server logged_in) in
  let x1 := after (revoke_tokens (Some ann_access) None) (mkServer (sv_runtime logged_in) (sv_world y)) in
  match run_on (validate_token ann_access) x1, run_on (validate_token ann_access) (mkServer (sv_runtime y) (sv_world x1)) with
  | inr _, inl _ => True | _, _ => False
  end.
Proof. vm_compute. exact I. Qed.
