(* ===== verification/Pql.v ===== *)
(** * The query language

    [pelago-query/src/pql]: the syntax tree (ast.rs), the resolver, which types the
    blocks of a query and orders them by the variables they use, and the compiler,
    which turns blocks into executable ones, with the plan printer (explain.rs).
    The grammar is compiled by a third-party parser generator, so a query enters
    the model as its tree. *)

From S2P Require Import Prelude Bytes Text Errors.

(** ** Trees *)

Inductive SetOp := Union | Intersect | Difference.

(** A float literal is the bit pattern of an [f64]. *)
Inductive LiteralValue := LString (s : string) | LInt (n : Z) | LFloat (bits : Z) | LBool (b : bool).

Record QualifiedRef := mkQualifiedRef { qr_namespace : option string; qr_entity_type : string; qr_node_id : string }.
Record QualifiedType := mkQualifiedType { qt_namespace : option string; qt_entity_type : string }.
Record TargetSpec := mkTargetSpec { tsp_namespace : option string; tsp_entity_type : string }.

Inductive RootFunction :=
  | RUid (r : QualifiedRef)
  | RUidVar (v : string)
  | RUidSet (vs : list string) (op : SetOp)
  | RType (t : QualifiedType)
  | REq (f : string) (v : LiteralValue)
  | RGe (f : string) (v : LiteralValue)
  | RLe (f : string) (v : LiteralValue)
  | RGt (f : string) (v : LiteralValue)
  | RLt (f : string) (v : LiteralValue)
  | RBetween (f : string) (lo hi : LiteralValue)
  | RHas (f : string)
  | RAllOfTerms (f terms : string).

Inductive PqlEdgeDirection := DirOutgoing | DirIncoming | DirBoth.

Inductive Directive :=
  | DFilter (expr : string)
  | DEdge (expr : string)
  | DCascade
  | DLimit (first : Z) (offset : option Z)
  | DSort (field : string) (desc on_edge : bool)
  | DFacets (fs : list string)
  | DRecurse (depth : Z)
  | DGroupBy (fs : list string)
  | DExplain.

Inductive Selection :=
  | SField (name : string)
  | SEdge (e : EdgeTraversal)
  | SAggregate (a : AggregateExpr)
  | SValueVar (v : string) (a : AggregateExpr)
with EdgeTraversal :=
  | mkEdgeTraversal (edge_namespace : option string) (edge_type : string) (direction : PqlEdgeDirection)
      (target_type : option TargetSpec) (directives : list Directive) (selections : list Selection)
      (capture_as : option string)
with AggregateExpr :=
  | ACount (s : Selection)
  | ASum (f : string)
  | AAvg (f : string)
  | AMin (f : string)
  | AMax (f : string).

Definition et_edge_type (e : EdgeTraversal) : string := let 'mkEdgeTraversal _ t _ _ _ _ _ := e in t.
Definition et_direction (e : EdgeTraversal) : PqlEdgeDirection := let 'mkEdgeTraversal _ _ d _ _ _ _ := e in d.
Definition et_directives (e : EdgeTraversal) : list Directive := let 'mkEdgeTraversal _ _ _ _ d _ _ := e in d.
Definition et_selections (e : EdgeTraversal) : list Selection := let 'mkEdgeTraversal _ _ _ _ _ s _ := e in s.

Record QueryBlock := mkQueryBlock {
  qb_name : string;
  qb_root : RootFunction;
  qb_directives : list Directive;
  qb_selections : list Selection;
  qb_capture_as : option string
}.

Record PqlQuery := mkPqlQuery {
  pq_name : option string;
  pq_default_namespace : option string;
  pq_blocks : list QueryBlock
}.

Inductive PqlError :=
  | UnknownEntityType (t : string)
  | UnknownField (entity_type field : string)
  | UnknownEdge (entity_type edge_type : string)
  | UndefinedVariable (v : string)
  | CircularDependency (blocks : string)
  | InvalidRootFunction (m : string)
  | CompilationError (m : string).

(** [Result<_, PqlError>] *)
Inductive pres (A : Type) := POk (a : A) | PErr (e : PqlError).
Arguments POk {A} a.
Arguments PErr {A} e.
#[export] Instance pres_ret : MRet pres := fun A a => POk a.
#[export] Instance pres_bind : MBind pres := fun A B f r => match r with POk a => f a | PErr e => PErr e end.

Lemma pbind_ok {A B} (f : A -> pres B) r b : (r ≫= f) = POk b <-> exists a, r = POk a /\ f a = POk b.
Proof. destruct r; cbn; naive_solver. Qed.

(** ** The resolver *)

Record SchemaInfo := mkSchemaInfo {
  si_entity_type : string;
  si_fields : list string;
  si_edges : list string;
  si_allow_undeclared_edges : bool
}.

(** [SchemaProvider] *)
Definition SchemaProvider : Type := string -> option SchemaInfo.

Record VariableInfo := mkVariableInfo { defined_in_block : nat; vi_entity_type : string }.

Record ResolvedBlock := mkResolvedBlock {
  rb_name : string;
  rb_block : QueryBlock;
  rb_entity_type : string;
  depends_on : list string
}.

Record ResolvedQuery := mkResolvedQuery {
  rq_blocks : list ResolvedBlock;
  execution_order : list nat;
  rq_variables : gmap string VariableInfo
}.

(** The loop over the variables of a set: all must be defined, the first gives the
    type. *)
Fixpoint set_deps (variables : gmap string VariableInfo) (vars : list string) (entity_type : option string)
    (deps : list string) : pres (string * list string) :=
  match vars with
  | [] => POk (default "" entity_type, deps)
  | var :: rest =>
      match variables !! var with
      | None => PErr (UndefinedVariable var)
      | Some info =>
          set_deps variables rest
            (match entity_type with Some t => Some t | None => Some (vi_entity_type info) end) (deps ++ [var])
      end
  end.

Definition resolve_root_function (root : RootFunction) (variables : gmap string VariableInfo)
    : pres (string * list string) :=
  match root with
  | RType qt => POk (qt_entity_type qt, [])
  | RUid qref => POk (qr_entity_type qref, [])
  | RUidVar var =>
      match variables !! var with
      | None => PErr (UndefinedVariable var)
      | Some info => POk (vi_entity_type info, [var])
      end
  | RUidSet vars _ => set_deps variables vars None []
  | _ => PErr (CompilationError
           "Filter root functions (eq, ge, le, etc.) require a type() wrapper or short-form syntax")
  end.

Definition validate_selection (schema : SchemaInfo) (sel : Selection) : pres unit :=
  match sel with
  | SField name =>
      if bool_decide (name ∈ si_fields schema) then POk tt else PErr (UnknownField (si_entity_type schema) name)
  | SEdge edge =>
      if negb (si_allow_undeclared_edges schema) && negb (bool_decide (et_edge_type edge ∈ si_edges schema))
      then PErr (UnknownEdge (si_entity_type schema) (et_edge_type edge)) else POk tt
  | SAggregate _ | SValueVar _ _ => POk tt
  end.

Fixpoint validate_selections (selections : list Selection) (schema : SchemaInfo) : pres unit :=
  match selections with
  | [] => POk tt
  | sel :: rest => validate_selection schema sel ;; validate_selections rest schema
  end.

(** The first pass of [resolve]. *)
Fixpoint resolve_blocks (schemas : SchemaProvider) (i : nat) (blocks : list QueryBlock)
    (variables : gmap string VariableInfo) : pres (list ResolvedBlock * gmap string VariableInfo) :=
  match blocks with
  | [] => POk ([], variables)
  | block :: rest =>
      td ← resolve_root_function (qb_root block) variables;
      let '(entity_type, deps) := td in
      match schemas entity_type with
      | None => PErr (UnknownEntityType entity_type)
      | Some schema =>
          validate_selections (qb_selections block) schema ;;
          let variables := match qb_capture_as block with
            | Some var => <[var := mkVariableInfo i entity_type]> variables
            | None => variables
            end in
          rv ← resolve_blocks schemas (i + 1)%nat rest variables;
          let '(resolved, variables) := rv in
          POk (mkResolvedBlock (qb_name block) block entity_type deps :: resolved, variables)
      end
  end.

(** *** The order of blocks *)

(** Edges of the dependency graph: (defining block, using block). *)
Definition block_edges (variables : gmap string VariableInfo) (i : nat) (b : ResolvedBlock) : list (nat * nat) :=
  omap (fun v => (fun info => (defined_in_block info, i)) <$> variables !! v) (depends_on b).

Definition dependency_edges (blocks : list ResolvedBlock) (variables : gmap string VariableInfo) : list (nat * nat) :=
  concat (imap (block_edges variables) blocks).

(** [in_degree] and [adj], filled edge by edge. *)
Definition add_edge (st : list nat * list (list nat)) (e : nat * nat) : list nat * list (list nat) :=
  (alter S e.2 st.1, alter (fun l => l ++ [e.2]) e.1 st.2).

Definition build_graph (n : nat) (edges : list (nat * nat)) : list nat * list (list nat) :=
  foldl add_edge (replicate n 0%nat, replicate n []) edges.

(** One pass over the successors of a block: the ones that become free are pushed
    on the queue, which is a stack whose top is its last element. *)
Definition release (st : list nat * list nat) (next : nat) : list nat * list nat :=
  let '(in_degree, queue) := st in
  let d := (default 0 (in_degree !! next) - 1)%nat in
  (<[next := d]> in_degree, if Nat.eqb d 0 then next :: queue else queue).

(** Kahn's loop; the queue is written with its top first.  Every round takes a
    block that is never pushed again, so the number of blocks is fuel enough. *)
Fixpoint kahn (fuel : nat) (adj : list (list nat)) (in_degree queue order : list nat) : list nat * list nat :=
  match fuel, queue with
  | S f, node :: queue' =>
      let '(in_degree, queue) := foldl release (in_degree, queue') (default [] (adj !! node)) in
      kahn f adj in_degree queue (order ++ [node])
  | _, _ => (order, in_degree)
  end.

Definition zeros (in_degree : list nat) (n : nat) : list nat :=
  List.filter (fun i => Nat.eqb (default 0%nat (in_degree !! i)) 0) (seq 0 n).

Definition topological_sort (blocks : list ResolvedBlock) (variables : gmap string VariableInfo) : pres (list nat) :=
  let n := length blocks in
  let '(in_degree, adj) := build_graph n (dependency_edges blocks variables) in
  let '(order, in_degree) := kahn n adj in_degree (rev (zeros in_degree n)) [] in
  if negb (Nat.eqb (length order) n) then
    PErr (CircularDependency (String.concat ", "
      (map (fun i => default "" (rb_name <$> blocks !! i))
        (List.filter (fun i => negb (Nat.eqb (default 0%nat (in_degree !! i)) 0)) (seq 0 n)))))
  else POk order.

Definition resolve (query : PqlQuery) (schemas : SchemaProvider) : pres ResolvedQuery :=
  rv ← resolve_blocks schemas 0 (pq_blocks query) ∅;
  let '(blocks, variables) := rv in
  order ← topological_sort blocks variables;
  POk (mkResolvedQuery blocks order variables).

(** ** The compiler *)

Record CompiledSort := mkCompiledSort { so_field : string; descending : bool; so_on_edge : bool }.

Record CompiledStep := mkCompiledStep {
  st_edge_type : string;
  st_direction : PqlEdgeDirection;
  edge_filter : option string;
  node_filter : option string;
  st_fields : list string;
  edge_fields : list string;
  per_node_limit : option Z;
  st_sort : option CompiledSort
}.

Inductive CompiledBlock :=
  | PointLookup (block_name entity_type node_id : string) (fields : list string)
  | FindNodes (block_name entity_type : string) (cel_expression : option string) (fields : list string)
      (limit offset : option Z)
  | Traverse (block_name start_entity_type start_node_id : string) (steps : list CompiledStep) (max_depth : Z)
      (cascade : bool) (max_results : Z)
  | VariableRef (block_name variable : string) (filter : option string) (fields : list string) (limit offset : option Z)
  | VariableSet (block_name : string) (variables : list string) (set_op : SetOp) (filter : option string)
      (fields : list string) (limit offset : option Z).

Definition directive_name (d : Directive) : string :=
  match d with
  | DFilter _ => "@filter" | DEdge _ => "@edge" | DCascade => "@cascade" | DLimit _ _ => "@limit"
  | DSort _ _ _ => "@sort" | DFacets _ => "@facets" | DRecurse _ => "@recurse" | DGroupBy _ => "@groupby"
  | DExplain => "@explain"
  end.

Definition extract_fields (selections : list Selection) : list string :=
  omap (fun s => match s with SField name => Some name | _ => None end) selections.

Definition has_edge_traversals (selections : list Selection) : bool :=
  existsb (fun s => match s with SEdge _ => true | _ => false end) selections.

Definition first_some {A B} (f : A -> option B) (l : list A) : option B := List.hd_error (omap f l).

Definition extract_filter_cel (ds : list Directive) : option string :=
  first_some (fun d => match d with DFilter e => Some e | _ => None end) ds.
Definition extract_limit (ds : list Directive) : option Z :=
  first_some (fun d => match d with DLimit n _ => Some n | _ => None end) ds.
Definition extract_offset (ds : list Directive) : option Z :=
  match first_some (fun d => match d with DLimit _ o => Some o | _ => None end) ds with Some o => o | None => None end.
Definition extract_recurse_depth (ds : list Directive) : Z :=
  default 1 (first_some (fun d => match d with DRecurse n => Some n | _ => None end) ds).

(** One directive of an edge, on the step built so far. *)
Definition apply_edge_directive (edge : EdgeTraversal) (s : CompiledStep) (d : Directive) : pres CompiledStep :=
  match d with
  | DEdge expr => POk (mkCompiledStep (st_edge_type s) (st_direction s) (Some expr) (node_filter s) (st_fields s)
                         (edge_fields s) (per_node_limit s) (st_sort s))
  | DFilter expr => POk (mkCompiledStep (st_edge_type s) (st_direction s) (edge_filter s) (Some expr) (st_fields s)
                           (edge_fields s) (per_node_limit s) (st_sort s))
  | DLimit first _ => POk (mkCompiledStep (st_edge_type s) (st_direction s) (edge_filter s) (node_filter s) (st_fields s)
                             (edge_fields s) (Some first) (st_sort s))
  | DSort f desc on_edge => POk (mkCompiledStep (st_edge_type s) (st_direction s) (edge_filter s) (node_filter s)
                                   (st_fields s) (edge_fields s) (per_node_limit s) (Some (mkCompiledSort f desc on_edge)))
  | DFacets fs => POk (mkCompiledStep (st_edge_type s) (st_direction s) (edge_filter s) (node_filter s) (st_fields s)
                         (edge_fields s ++ fs) (per_node_limit s) (st_sort s))
  | other => PErr (CompilationError ("unsupported edge directive " ++ directive_name other ++ " on edge '"
                     ++ et_edge_type edge ++ "'"))
  end.

Definition compile_single_edge (edge : EdgeTraversal) : pres CompiledStep :=
  foldl (fun acc d => s ← acc; apply_edge_directive edge s d)
    (POk (mkCompiledStep (et_edge_type edge) (et_direction edge) None None (extract_fields (et_selections edge)) [] None None))
    (et_directives edge).

Fixpoint compile_edge_traversals (selections : list Selection) : pres (list CompiledStep) :=
  match selections with
  | [] => POk []
  | SEdge edge :: rest => s ← compile_single_edge edge; ss ← compile_edge_traversals rest; POk (s :: ss)
  | _ :: rest => compile_edge_traversals rest
  end.

Definition directive_supported (root : RootFunction) (has_edges : bool) (d : Directive) : bool :=
  match root with
  | RUid _ => if has_edges then match d with DLimit _ _ | DCascade | DRecurse _ => true | _ => false end else false
  | _ => match d with DFilter _ | DLimit _ _ => true | _ => false end
  end.

Definition validate_block_directives (block : QueryBlock) (has_edges : bool) : pres unit :=
  match List.find (fun d => negb (directive_supported (qb_root block) has_edges d)) (qb_directives block) with
  | Some d => PErr (CompilationError ("unsupported block directive " ++ directive_name d ++ " on block '"
                      ++ qb_name block ++ "'"))
  | None => POk tt
  end.

(** [Display] of an [f64] prints the shortest text that reads back as the number,
    and [{:.1}] the number with one decimal. *)
Class FloatText := { f64_display : Z -> string; f64_display_1 : Z -> string }.

Section Compile.
Context `{FloatText}.

Definition istr (n : Z) : string := bstr (show_i n).
Definition bool_str (b : bool) : string := if b then "true" else "false".

Definition literal_to_cel (v : LiteralValue) : string :=
  match v with
  | LString s => (String (Ascii.ascii_of_nat 34) s) ++ (String (Ascii.ascii_of_nat 34) EmptyString)
  | LInt n => istr n
  | LFloat f => f64_display f
  | LBool b => bool_str b
  end%string.

Definition root_to_cel (root : RootFunction) : option string :=
  match root with
  | REq f v => Some (f ++ " == " ++ literal_to_cel v)
  | RGe f v => Some (f ++ " >= " ++ literal_to_cel v)
  | RLe f v => Some (f ++ " <= " ++ literal_to_cel v)
  | RGt f v => Some (f ++ " > " ++ literal_to_cel v)
  | RLt f v => Some (f ++ " < " ++ literal_to_cel v)
  | RBetween f lo hi => Some (f ++ " >= " ++ literal_to_cel lo ++ " && " ++ f ++ " <= " ++ literal_to_cel hi)
  | RHas f => Some ("has(" ++ f ++ ")")
  | RAllOfTerms f terms => Some ("allofterms(" ++ f ++ ", " ++ literal_to_cel (LString terms) ++ ")")
  | _ => None
  end%string.

Definition compile_block (block : QueryBlock) (entity_type : string) : pres CompiledBlock :=
  let sels := qb_selections block in
  let ds := qb_directives block in
  validate_block_directives block (has_edge_traversals sels) ;;
  match qb_root block with
  | RUid qref =>
      if has_edge_traversals sels then
        steps ← compile_edge_traversals sels;
        POk (Traverse (qb_name block) entity_type (qr_node_id qref) steps (extract_recurse_depth ds)
               (existsb (fun d => match d with DCascade => true | _ => false end) ds)
               (default 1000 (extract_limit ds)))
      else POk (PointLookup (qb_name block) entity_type (qr_node_id qref) (extract_fields sels))
  | RType _ => POk (FindNodes (qb_name block) entity_type (extract_filter_cel ds) (extract_fields sels)
                      (extract_limit ds) (extract_offset ds))
  | RUidVar var => POk (VariableRef (qb_name block) var (extract_filter_cel ds) (extract_fields sels)
                          (extract_limit ds) (extract_offset ds))
  | RUidSet vars op => POk (VariableSet (qb_name block) vars op (extract_filter_cel ds) (extract_fields sels)
                              (extract_limit ds) (extract_offset ds))
  | root => POk (FindNodes (qb_name block) entity_type (root_to_cel root) (extract_fields sels)
                   (extract_limit ds) (extract_offset ds))
  end.

(** Blocks in execution order; an index is always in range. *)
Fixpoint compile_in_order (blocks : list ResolvedBlock) (order : list nat) : pres (list CompiledBlock) :=
  match order with
  | [] => POk []
  | idx :: rest =>
      match blocks !! idx with
      | None => compile_in_order blocks rest
      | Some rb =>
          b ← compile_block (rb_block rb) (rb_entity_type rb);
          bs ← compile_in_order blocks rest;
          POk (b :: bs)
      end
  end.

Definition compile (resolved : ResolvedQuery) : pres (list CompiledBlock) :=
  compile_in_order (rq_blocks resolved) (execution_order resolved).
End Compile.

(** ** The plan printer *)

Section Explain.
Local Open Scope string_scope.

Definition nl : string := bstr [Byte.x0a].
Definition line (s : string) : string := s ++ nl.
Definition quoted (s : string) : string := bstr [Byte.x22] ++ s ++ bstr [Byte.x22].
Definition opt_line {A} (o : option A) (f : A -> string) : string := match o with Some a => line (f a) | None => "" end.
Definition joined (l : list string) : string := String.concat ", " l.
Definition unless_empty (l : list string) (s : string) : string := match l with [] => "" | _ => line s end.

Definition direction_text (d : PqlEdgeDirection) : string :=
  match d with DirOutgoing => "->" | DirIncoming => "<-" | DirBoth => "<->" end.
Definition set_op_text (op : SetOp) : string :=
  match op with Union => "union" | Intersect => "intersect" | Difference => "difference" end.

Definition explain_step (j : nat) (s : CompiledStep) : string :=
  line ("  Step " ++ ustr (Z.of_nat (j + 1)) ++ ":")
  ++ line ("    Edge: " ++ st_edge_type s ++ " " ++ direction_text (st_direction s))
  ++ opt_line (edge_filter s) (fun ef => "    Edge filter: " ++ ef)
  ++ opt_line (node_filter s) (fun nf => "    Node filter: " ++ nf)
  ++ unless_empty (st_fields s) ("    Fields: [" ++ joined (st_fields s) ++ "]")
  ++ unless_empty (edge_fields s) ("    Edge fields: [" ++ joined (edge_fields s) ++ "]")
  ++ opt_line (per_node_limit s) (fun n => "    Per-node limit: " ++ ustr n)
  ++ opt_line (st_sort s) (fun so => "    Sort: " ++ so_field so ++ " " ++ (if descending so then "desc" else "asc")
                                     ++ (if so_on_edge so then " (on edge)" else "")).

Definition explain_tail (flt : option string) (fields : list string) (limit offset : option Z) : string :=
  opt_line flt (fun f => "  Filter: " ++ f)
  ++ unless_empty fields ("  Fields: [" ++ joined fields ++ "]")
  ++ opt_line limit (fun n => "  Limit: " ++ ustr n)
  ++ opt_line offset (fun n => "  Offset: " ++ ustr n).

Definition explain_block (b : CompiledBlock) : string :=
  match b with
  | PointLookup name et id fields =>
      line (quoted name ++ ":") ++ line "  Strategy: point_lookup" ++ line ("  Type: " ++ et) ++ line ("  ID: " ++ id)
      ++ line ("  Fields: [" ++ joined fields ++ "]") ++ line "  Estimated cost: 1.0" ++ line "  Estimated rows: 1"
  | FindNodes name et cel fields limit offset =>
      line (quoted name ++ ":") ++ line ("  Strategy: " ++ (match cel with Some _ => "index_scan" | None => "full_scan" end))
      ++ line ("  Type: " ++ et) ++ opt_line cel (fun c => "  Filter: " ++ c) ++ line ("  Fields: [" ++ joined fields ++ "]")
      ++ opt_line limit (fun n => "  Limit: " ++ ustr n) ++ opt_line offset (fun n => "  Offset: " ++ ustr n)
  | Traverse name et _ steps max_depth cascade max_results =>
      line (quoted name ++ ":") ++ line "  Strategy: traversal" ++ line ("  Start: " ++ et)
      ++ line ("  Max depth: " ++ ustr max_depth) ++ line ("  Max results: " ++ ustr max_results)
      ++ (if cascade then line "  Cascade: true" else "")
      ++ String.concat "" (imap explain_step steps)
  | VariableRef name var flt fields limit offset =>
      line (quoted name ++ ":") ++ line "  Strategy: variable_ref" ++ line ("  Variable: $" ++ var)
      ++ explain_tail flt fields limit offset
  | VariableSet name vars op flt fields limit offset =>
      line (quoted name ++ ":") ++ line "  Strategy: variable_set" ++ line ("  Variables: [" ++ joined vars ++ "]")
      ++ line ("  Set op: " ++ set_op_text op) ++ explain_tail flt fields limit offset
  end.

Definition explain (blocks : list CompiledBlock) : string :=
  line "Query Plan:" ++ line "===========================================" ++ nl
  ++ String.concat "" (imap (fun i b => "Block " ++ ustr (Z.of_nat (i + 1)) ++ " " ++ explain_block b ++ nl) blocks).
End Explain.
