(* ===== verification/PqlSpec.v ===== *)
(** * The order of query blocks

    The resolver orders the blocks of a query with Kahn's algorithm.  The order is
    a permutation of the blocks in which a block follows the blocks that define its
    variables; the loop ends; and it orders every query whose variables are
    defined once. *)

From S2P Require Import Prelude Bytes Text Errors Pql.

(** ** Counting *)

Definition occ (i : nat) (l : list nat) : nat := length (filter (fun x => x = i) l).

Lemma occ_cons i x l : occ i (x :: l) = ((if decide (x = i) then 1 else 0) + occ i l)%nat.
Proof. unfold occ. rewrite filter_cons. by case_decide. Qed.

Lemma occ_cons_eq i l : occ i (i :: l) = S (occ i l).
Proof. by rewrite occ_cons, decide_True. Qed.
Lemma occ_cons_ne i x l : i <> x -> occ i (x :: l) = occ i l.
Proof. intros. by rewrite occ_cons, decide_False by congruence. Qed.

Lemma occ_elem i l : i ∈ l <-> (0 < occ i l)%nat.
Proof.
  induction l as [|x l IH]; [split; [by intros ?%not_elem_of_nil|cbn; lia]|].
  rewrite elem_of_cons, occ_cons. case_decide; naive_solver lia.
Qed.

Definition D (deg : list nat) (i : nat) : nat := default 0%nat (deg !! i).

Lemma D_insert deg k d i : (k < length deg)%nat -> D (<[k := d]> deg) i = if decide (i = k) then d else D deg i.
Proof.
  intros Hk. unfold D. case_decide as Hi; [subst; by rewrite list_lookup_insert_eq|by rewrite list_lookup_insert_ne].
Qed.

(** Releasing the successors of a block subtracts their number of occurrences and
    pushes each block that becomes free once. *)
Lemma release_fold (succs deg q : list nat) :
  (forall i, i ∈ succs -> (i < length deg)%nat) -> (forall i, (occ i succs <= D deg i)%nat) ->
  exists deg' l, foldl release (deg, q) succs = (deg', l ++ q) /\ length deg' = length deg /\ NoDup l /\
    (forall i, D deg' i = (D deg i - occ i succs)%nat) /\
    forall i, i ∈ l <-> i ∈ succs /\ D deg i = occ i succs.
Proof.
  revert deg q. induction succs as [|x succs IH]; intros deg q Hlen Hocc; cbn [foldl].
  { exists deg, []. repeat split; [constructor|intros i; unfold occ; cbn; lia|..]; set_solver. }
  assert (Hx : (x < length deg)%nat) by (apply Hlen; left).
  set (d := (default 0%nat (deg !! x) - 1)%nat).
  assert (HD1 : forall i, D (<[x := d]> deg) i = if decide (i = x) then d else D deg i) by (intros; by apply D_insert).
  assert (Hd : d = (D deg x - 1)%nat) by done.
  destruct (IH (<[x := d]> deg) (if Nat.eqb d 0 then x :: q else q)) as (deg' & l & E & Hl & Hnd & HD & Hin).
  { intros i Hi. rewrite length_insert. apply Hlen. by right. }
  { intros i. rewrite HD1. specialize (Hocc i). destruct (decide (i = x)) as [->|Hix];
      [rewrite occ_cons_eq in Hocc|rewrite occ_cons_ne in Hocc by done]; lia. }
  rewrite length_insert in Hl. change (release (deg, q) x) with (<[x := d]> deg, if Nat.eqb d 0 then x :: q else q). rewrite E.
  assert (Hdeg' : forall i, D deg' i = (D deg i - occ i (x :: succs))%nat).
  { intros i. rewrite HD, HD1. destruct (decide (i = x)) as [->|]; [rewrite occ_cons_eq|rewrite occ_cons_ne by done]; lia. }
  pose proof (Hocc x) as Hox. rewrite occ_cons_eq in Hox.
  assert (Hother : forall i, i <> x -> i ∈ l <-> i ∈ x :: succs /\ D deg i = occ i (x :: succs)).
  { intros i Hi. rewrite Hin, HD1, decide_False by done. rewrite occ_cons_ne, elem_of_cons by done. naive_solver. }
  destruct (Nat.eqb_spec d 0) as [Hz|Hnz].
  - assert (Hx0 : occ x succs = 0%nat) by lia.
    assert (Hxl : x ∉ l) by (rewrite Hin; intros [Hxs%occ_elem _]; lia).
    exists deg', (l ++ [x]). rewrite <- app_assoc. split; [done|]. split; [done|]. split; [|split; [done|]].
    + apply NoDup_app. split; [done|]. split; [set_solver|apply NoDup_singleton].
    + intros i. rewrite elem_of_app, list_elem_of_singleton. destruct (decide (i = x)) as [->|Hi].
      * rewrite elem_of_cons, occ_cons_eq. split; [intros _; split; [auto|lia]|auto].
      * rewrite (Hother i Hi). naive_solver.
  - exists deg', l. split; [done|]. split; [done|]. split; [done|]. split; [done|]. intros i.
    destruct (decide (i = x)) as [->|Hi]; [|by apply Hother].
    rewrite Hin, HD1, decide_True, occ_cons_eq, elem_of_cons by done. rewrite (occ_elem x succs).
    split; [intros [? ?]; split; [auto|lia]|intros [_ ?]; lia].
Qed.

(** ** The loop *)

Section Kahn.
Context (n : nat) (E : list (nat * nat)) (HE : forall e, e ∈ E -> (e.1 < n)%nat /\ (e.2 < n)%nat).

Definition succs (j : nat) : list nat := map snd (filter (fun e : nat * nat => e.1 = j) E).

(** The edges into a block from blocks not in [order]. *)
Definition pending (order : list nat) (i : nat) : nat :=
  length (filter (fun e : nat * nat => e.2 = i /\ e.1 ∉ order) E).

Record kahn_inv (deg queue order : list nat) : Prop := {
  inv_length : length deg = n;
  inv_pending : forall i, (i < n)%nat -> D deg i = pending order i;
  inv_nodup : NoDup (order ++ queue);
  inv_free : forall i, i ∈ order ++ queue <-> (i < n)%nat /\ D deg i = 0%nat;
  inv_order : forall l1 i l2, order = l1 ++ i :: l2 -> forall j, (j, i) ∈ E -> j ∈ l1
}.

Lemma pending_step order node i :
  node ∉ order -> (pending order i = pending (order ++ [node]) i + occ i (succs node))%nat.
Proof.
  intros Hn. unfold pending, occ, succs. clear HE. induction E as [|[j k] l IH]; [done|].
  rewrite !filter_cons. cbn [fst snd].
  assert (Hnotin : k = i /\ j ∉ order ++ [node] <-> (k = i /\ j ∉ order) /\ j <> node) by set_solver.
  destruct (decide (j = node)) as [->|Hj].
  - rewrite (decide_False (P := k = i /\ node ∉ order ++ [node])) by set_solver. cbn [map]. rewrite filter_cons.
    cbn [snd]. destruct (decide (k = i)) as [->|Hk].
    + rewrite decide_True by done. cbn [length]. rewrite IH. lia.
    + rewrite decide_False by tauto. apply IH.
  - destruct (decide (k = i /\ j ∉ order)) as [Hd|Hd].
    + rewrite decide_True by tauto. cbn [length]. rewrite IH. lia.
    + rewrite decide_False by tauto. apply IH.
Qed.

Lemma pending_zero order i j : pending order i = 0%nat -> (j, i) ∈ E -> j ∈ order.
Proof.
  intros Hp Hin. destruct (decide (j ∈ order)) as [?|Hj]; [done|].
  assert ((j, i) ∈ filter (fun e : nat * nat => e.2 = i /\ e.1 ∉ order) E) as Hf by by apply list_elem_of_filter.
  unfold pending in Hp. destruct (filter _ E); [by apply not_elem_of_nil in Hf|done].
Qed.

Lemma elem_of_succs i j : i ∈ succs j <-> (j, i) ∈ E.
Proof.
  unfold succs. rewrite list_elem_of_fmap. setoid_rewrite list_elem_of_filter. split.
  - intros ([a b] & -> & <- & ?). done.
  - intros Hin. exists (j, i). done.
Qed.

Lemma kahn_step deg node queue order (adj : list (list nat)) :
  (forall j, (j < n)%nat -> adj !! j = Some (succs j)) -> kahn_inv deg (node :: queue) order ->
  exists deg' queue', foldl release (deg, queue) (default [] (adj !! node)) = (deg', queue') /\
    kahn_inv deg' queue' (order ++ [node]).
Proof.
  intros Hadj [Hlen Hpend Hnd Hfree Hord].
  assert (Hnode : (node < n)%nat /\ D deg node = 0%nat) by (apply Hfree; set_solver).
  assert (Hfresh : node ∉ order) by (apply NoDup_app in Hnd as (_ & Hd & _); intros ?; by apply (Hd node); [|left]).
  rewrite Hadj by apply Hnode. cbn [default].
  destruct (release_fold (succs node) deg queue) as (deg' & l & Ef & Hl' & Hndl & HD & Hl).
  { intros i Hi%elem_of_succs. rewrite Hlen. by apply (HE (node, i)). }
  { intros i. destruct (decide (i < n)%nat) as [Hi|Hi].
    - rewrite Hpend, (pending_step order node i) by done. lia.
    - destruct (decide (i ∈ succs node)) as [Hin%elem_of_succs|Hin]; [by apply HE in Hin as [_ ?]|].
      rewrite occ_elem in Hin. lia. }
  assert (Hpend' : forall i, (i < n)%nat -> D deg' i = pending (order ++ [node]) i).
  { intros i Hi. rewrite HD, Hpend, (pending_step order node i) by done. lia. }
  exists deg', (l ++ queue). split; [done|]. split; [congruence|done|..].
  - assert ((order ++ [node]) ++ l ++ queue ≡ₚ l ++ (order ++ node :: queue)) as ->
      by (rewrite <- app_assoc; cbn; rewrite (app_assoc l); rewrite (Permutation_app_comm l order), <- app_assoc; apply Permutation_app_head, Permutation_middle).
    apply NoDup_app. split; [done|]. split; [|done].
    intros i Hi Hin. apply Hfree in Hin as [_ Hz]. apply Hl in Hi as [Hs%occ_elem ?]. lia.
  - intros i. transitivity (i ∈ order ++ node :: queue \/ i ∈ l); [set_solver|]. rewrite Hfree, Hl, elem_of_succs. split.
    + intros [[Hi Hz]|[Hs Heq]].
      * split; [done|]. rewrite HD. lia.
      * split; [by destruct (HE _ Hs)|]. rewrite HD. lia.
    + intros [Hi Hz]. rewrite HD in Hz. destruct (decide (D deg i = 0%nat)) as [?|Hnz]; [by left|right].
      rewrite <- elem_of_succs, occ_elem. pose proof (Hpend i Hi) as Hp. rewrite (pending_step order node i) in Hp by done. lia.
  - intros l1 i l2 Hsplit j Hj. destruct l2 as [|x l2' _] using rev_ind.
    + apply app_inj_tail in Hsplit as [-> <-]. apply (pending_zero _ node); [|done]. rewrite <- Hpend by apply Hnode. apply Hnode.
    + rewrite app_comm_cons, app_assoc in Hsplit. apply app_inj_tail in Hsplit as [Hsplit _]. by eapply Hord.
Qed.

Lemma kahn_run fuel (adj : list (list nat)) deg queue order :
  (forall j, (j < n)%nat -> adj !! j = Some (succs j)) -> kahn_inv deg queue order -> (n <= fuel + length order)%nat ->
  exists deg' order', kahn fuel adj deg queue order = (order', deg') /\ kahn_inv deg' [] order'.
Proof.
  intros Hadj. revert deg queue order. induction fuel as [|f IH]; intros deg queue order Hinv Hf.
  - exists deg, order. split; [done|]. destruct queue as [|x q]; [done|]. exfalso.
    assert (order ++ x :: q ⊆+ seq 0 n) as Hsub%submseteq_length.
    { apply NoDup_submseteq; [apply (inv_nodup _ _ _ Hinv)|]. intros i Hi%(inv_free _ _ _ Hinv). apply elem_of_seq. lia. }
    rewrite length_app, length_seq in Hsub. cbn in Hsub. lia.
  - cbn [kahn]. destruct queue as [|node q]; [by exists deg, order|].
    destruct (kahn_step deg node q order adj Hadj Hinv) as (deg1 & q1 & -> & Hinv1).
    apply IH; [done|]. rewrite length_app. cbn. lia.
Qed.

Lemma pending_nil i : pending [] i = occ i (map snd E).
Proof.
  unfold pending, occ. clear HE. induction E as [|[j k] l IH]; [done|]. cbn [map snd]. rewrite !filter_cons. cbn [fst snd].
  destruct (decide (k = i)); [rewrite decide_True by (split; [done|apply not_elem_of_nil])|rewrite decide_False by tauto];
    cbn [length]; by rewrite IH.
Qed.

Lemma kahn_init deg :
  length deg = n -> (forall i, (i < n)%nat -> D deg i = occ i (map snd E)) -> kahn_inv deg (rev (zeros deg n)) [].
Proof.
  intros Hl Hd. split; [done|..].
  - intros i Hi. by rewrite Hd, pending_nil.
  - cbn. rewrite <- Permutation_rev. apply NoDup_ListNoDup, List.NoDup_filter, List.seq_NoDup.
  - intros i. cbn. rewrite <- Permutation_rev. unfold zeros. rewrite list_elem_of_In, List.filter_In, List.in_seq, Nat.eqb_eq.
    unfold D. naive_solver lia.
  - intros l1 i l2 H. by destruct l1.
Qed.

Lemma kahn_complete deg order :
  kahn_inv deg [] order -> (length order = n <-> order ≡ₚ seq 0 n).
Proof.
  intros Hinv. pose proof (inv_nodup _ _ _ Hinv) as Hnd. rewrite app_nil_r in Hnd. split.
  - intros Hl. apply submseteq_length_Permutation; [|by rewrite length_seq, Hl].
    apply NoDup_submseteq; [done|]. intros i Hi. apply elem_of_seq.
    assert (i ∈ order ++ []) as [? _]%(inv_free _ _ _ Hinv) by by rewrite app_nil_r. lia.
  - intros ->. apply length_seq.
Qed.

(** When every edge goes forward, no block is left over. *)
Lemma kahn_forward deg order :
  kahn_inv deg [] order -> (forall e, e ∈ E -> (e.1 < e.2)%nat) -> order ≡ₚ seq 0 n.
Proof.
  intros Hinv Hfw. apply NoDup_Permutation.
  - pose proof (inv_nodup _ _ _ Hinv) as Hnd. by rewrite app_nil_r in Hnd.
  - apply NoDup_seq.
  - intros i. rewrite elem_of_seq. pose proof (inv_free _ _ _ Hinv) as Hf. setoid_rewrite app_nil_r in Hf. split.
    + intros [? _]%Hf. lia.
    + induction (lt_wf i) as [i _ IH]. intros Hi. apply Hf. split; [lia|].
      rewrite (inv_pending _ _ _ Hinv) by lia. unfold pending.
      destruct (filter _ E) as [|[j k] l] eqn:Ee; [done|].
      assert ((j, k) ∈ filter (fun e : nat * nat => e.2 = i /\ e.1 ∉ order) E) as [[Hk Hj] Hin]%list_elem_of_filter by (rewrite Ee; left).
      cbn in Hk, Hj. subst k. exfalso. apply Hj. pose proof (Hfw _ Hin). cbn in *. apply IH; lia.
Qed.
End Kahn.

(** ** The graph *)

Lemma build_graph_spec n E :
  (forall e, e ∈ E -> (e.1 < n)%nat /\ (e.2 < n)%nat) ->
  exists deg adj, build_graph n E = (deg, adj) /\ length deg = n /\
    (forall i, (i < n)%nat -> D deg i = occ i (map snd E)) /\
    (forall j, (j < n)%nat -> adj !! j = Some (succs E j)).
Proof.
  intros HE. unfold build_graph. induction E as [|e E IH] using rev_ind.
  { eexists _, _. split; [reflexivity|]. split; [apply length_replicate|]. split.
    - intros i Hi. unfold D. by rewrite lookup_replicate_2.
    - intros j Hj. by rewrite lookup_replicate_2. }
  destruct IH as (deg & adj & Eg & Hl & Hd & Ha); [intros; apply HE; set_solver|].
  rewrite foldl_app, Eg. cbn [foldl]. unfold add_edge. cbn [fst snd]. eexists _, _. split; [reflexivity|].
  split; [by rewrite length_alter|]. split.
  - intros i Hi. unfold D. rewrite list_lookup_alter. rewrite map_app. unfold occ. rewrite filter_app, length_app. fold (occ i (map snd E)).
    rewrite <- Hd by done. unfold D. cbn [map]. rewrite filter_cons.
    assert (is_Some (deg !! i)) as [d Hdi] by (apply lookup_lt_is_Some; lia).
    repeat case_decide; subst; try done; rewrite Hdi; cbn; lia.
  - intros j Hj. rewrite list_lookup_alter. unfold succs. rewrite filter_app, map_app, filter_cons. fold (succs E j).
    repeat case_decide; subst; try done; rewrite (Ha _ Hj); cbn; by rewrite ?app_nil_r.
Qed.

(** ** Typing the blocks *)

Definition captures (blocks : list QueryBlock) : list string := omap qb_capture_as blocks.

Lemma set_deps_defined vars l t d r :
  set_deps vars l t d = POk r -> (forall v, v ∈ d -> is_Some (vars !! v)) -> forall v, v ∈ r.2 -> is_Some (vars !! v).
Proof.
  revert t d. induction l as [|x l IH]; intros t d; cbn [set_deps]; [by intros [= <-]|].
  destruct (vars !! x) as [info|] eqn:Ex; [|done]. intros E Hd. apply (IH _ _ E).
  intros v [?| ->%list_elem_of_singleton]%elem_of_app; [auto|by rewrite Ex].
Qed.

Lemma root_deps_defined root vars r :
  resolve_root_function root vars = POk r -> forall v, v ∈ r.2 -> is_Some (vars !! v).
Proof.
  destruct root; cbn [resolve_root_function]; try done.
  - intros [= <-] y ?%not_elem_of_nil. done.
  - destruct (vars !! v) eqn:Ev; [|done]. intros [= <-] y ->%list_elem_of_singleton. by rewrite Ev.
  - intros E. apply (set_deps_defined _ _ _ _ _ E). intros v ?%not_elem_of_nil. done.
  - intros [= <-] y ?%not_elem_of_nil. done.
Qed.

(** What the first pass leaves: every variable belongs to a block of the query;
    and when no name is captured twice, a block only depends on earlier blocks. *)
Lemma resolve_blocks_spec schemas i blocks vars rbs vars' :
  resolve_blocks schemas i blocks vars = POk (rbs, vars') ->
  length rbs = length blocks /\
  (forall v info, vars' !! v = Some info -> vars !! v = Some info \/ (i <= defined_in_block info < i + length blocks)%nat) /\
  (NoDup (captures blocks) -> (forall v, v ∈ captures blocks -> vars !! v = None) ->
   vars ⊆ vars' /\
   forall k b v, rbs !! k = Some b -> v ∈ depends_on b -> exists info, vars' !! v = Some info /\
     (vars !! v = Some info \/ (defined_in_block info < i + k)%nat)).
Proof.
  revert i vars rbs. induction blocks as [|blk blocks IH]; intros i vars rbs; cbn [resolve_blocks].
  { intros [= <- <-]. repeat split; [auto|done|]. intros k b v Hk. by rewrite lookup_nil in Hk. }
  intros ([et deps] & Eroot & E)%pbind_ok. destruct (schemas et) as [schema|]; [|done].
  apply pbind_ok in E as ([] & _ & E). set (vars1 := match qb_capture_as blk with Some _ => _ | None => _ end) in E.
  apply pbind_ok in E as ([rbs1 vars2] & E & Er). injection Er as <- <-.
  destruct (IH _ _ _ E) as (Hl & Hv & Hd). pose proof (root_deps_defined _ _ _ Eroot) as Hdef. cbn [snd] in Hdef.
  assert (Hv1 : forall v info, vars1 !! v = Some info -> vars !! v = Some info \/ defined_in_block info = i).
  { intros v info. subst vars1. destruct (qb_capture_as blk) as [c|]; [|by left].
    rewrite lookup_insert_Some. intros [[_ <-]|[_ ?]]; [by right|by left]. }
  split; [cbn; by rewrite Hl|]. split.
  - intros v info [Hin|?]%Hv; [|right; cbn; lia]. apply Hv1 in Hin as [?| ->]; [by left|right; cbn; lia].
  - intros Hnd Hfresh.
    assert (NoDup (captures blocks) /\ (forall v, v ∈ captures blocks -> vars1 !! v = None) /\ vars ⊆ vars1) as (Hnd1 & Hf1 & Hsub).
    { unfold captures in *. cbn in Hnd, Hfresh. subst vars1. destruct (qb_capture_as blk) as [c|]; cbn in Hnd, Hfresh; [|by auto].
      apply NoDup_cons in Hnd as [Hc Hnd]. split; [done|]. split; [|apply insert_subseteq, Hfresh; left].
      intros v Hin. rewrite lookup_insert_ne by (intros <-; done). apply Hfresh. by right. }
    destruct (Hd Hnd1 Hf1) as [Hsub2 Hk]. split; [by etrans|]. intros [|k] b v Hb Hin.
    + injection Hb as <-. destruct (Hdef v Hin) as [info Hi]. exists info. split; [|by left].
      eapply lookup_weaken; [exact Hi|]. by etrans.
    + destruct (Hk k b v Hb Hin) as (info & Hi & Hor). exists info. split; [done|].
      destruct Hor as [Hor|?]; [|right; lia]. apply Hv1 in Hor as [?| ->]; [by left|right; lia].
Qed.

Lemma elem_of_dependency_edges blocks vars j i :
  (j, i) ∈ dependency_edges blocks vars <->
  exists b v info, blocks !! i = Some b /\ v ∈ depends_on b /\ vars !! v = Some info /\ defined_in_block info = j.
Proof.
  unfold dependency_edges. rewrite list_elem_of_In, List.in_concat. setoid_rewrite <- list_elem_of_In. split.
  - intros (l & Hl & Hin). apply elem_of_lookup_imap in Hl as (k & b & -> & Hb).
    apply list_elem_of_omap in Hin as (v & Hv & Ev). destruct (vars !! v) as [info|] eqn:Ei; [|done].
    injection Ev as <- <-. by exists b, v, info.
  - intros (b & v & info & Hb & Hv & Hi & <-). exists (block_edges vars i b). split; [by apply elem_of_lookup_imap; eauto|].
    apply list_elem_of_omap. exists v. by rewrite Hi.
Qed.

(** The order of a successful sort, for any variables that belong to blocks. *)
Lemma topological_sort_run blocks vars :
  (forall v info, vars !! v = Some info -> (defined_in_block info < length blocks)%nat) ->
  let E := dependency_edges blocks vars in
  exists order deg, kahn_inv (length blocks) E deg [] order /\
    (length order = length blocks -> topological_sort blocks vars = POk order) /\
    forall o, topological_sort blocks vars = POk o -> o = order /\ length order = length blocks.
Proof.
  intros Hvars E. set (n := length blocks).
  assert (HE : forall e, e ∈ E -> (e.1 < n)%nat /\ (e.2 < n)%nat).
  { intros [j i] (b & v & info & Hb & _ & Hi & <-)%elem_of_dependency_edges. cbn. split; [by eapply Hvars|by eapply lookup_lt_Some]. }
  destruct (build_graph_spec n E HE) as (deg & adj & Eg & Hl & Hd & Ha).
  destruct (kahn_run n E HE n adj deg (rev (zeros deg n)) [] Ha (kahn_init n E HE deg Hl Hd) ltac:(cbn; lia)) as (deg' & order & Ek & Hinv).
  exists order, deg'. split; [done|]. unfold topological_sort. fold n E. rewrite Eg, Ek. split.
  - intros ->. by rewrite Nat.eqb_refl.
  - intros o. destruct (Nat.eqb_spec (length order) n); cbn [negb]; [|done]. by intros [= <-].
Qed.

Lemma resolved_vars_in schemas q rbs vars : resolve_blocks schemas 0 (pq_blocks q) ∅ = POk (rbs, vars) ->
  length rbs = length (pq_blocks q) /\ forall v info, vars !! v = Some info -> (defined_in_block info < length rbs)%nat.
Proof.
  intros (Hl & Hv & _)%resolve_blocks_spec. split; [done|]. intros v info [Hx|?]%Hv; [by rewrite lookup_empty in Hx|lia].
Qed.

(** The order of a resolved query: all blocks, definitions before uses. *)
Lemma resolve_ordered schemas q rbs vars r : resolve_blocks schemas 0 (pq_blocks q) ∅ = POk (rbs, vars) -> resolve q schemas = POk r ->
  rq_blocks r = rbs /\ execution_order r ≡ₚ seq 0 (length rbs) /\
  forall before i after b v info, execution_order r = before ++ i :: after -> rbs !! i = Some b -> v ∈ depends_on b ->
    vars !! v = Some info -> defined_in_block info ∈ before.
Proof.
  intros E. destruct (resolved_vars_in _ _ _ _ E) as [Hl Hin].
  destruct (topological_sort_run rbs vars Hin) as (order & deg & Hinv & Hok & Hsort).
  assert (Hres : resolve q schemas = (o ← topological_sort rbs vars; POk (mkResolvedQuery rbs o vars))) by (unfold resolve; by rewrite E). rewrite Hres.
  intros (o & Ho & [= <-])%pbind_ok. apply Hsort in Ho as [-> Hlen]. cbn [execution_order rq_blocks]. split; [done|].
  split; [by apply (kahn_complete _ _ _ _ Hinv)|]. intros before i after b v info Hsplit Hb Hdep Hi.
  apply (inv_order _ _ _ _ _ Hinv before i after Hsplit). apply elem_of_dependency_edges. by exists b, v, info.
Qed.


(** ** Queries *)

Definition person_info : SchemaInfo := mkSchemaInfo "Person" ["name"] ["knows"; "works_at"] false.
Definition person_provider : SchemaProvider := fun t => if String.eqb t "Person" then Some person_info else None.
Definition person_block (name : string) (capture : option string) : QueryBlock :=
  mkQueryBlock name (RType (mkQualifiedType None "Person")) [] [SField "name"] capture.
Definition var_block (name v : string) (capture : option string) : QueryBlock :=
  mkQueryBlock name (RUidVar v) [] [SField "name"] capture.
Definition query_of (blocks : list QueryBlock) : PqlQuery := mkPqlQuery None None blocks.

Definition two_blocks : list QueryBlock := [person_block "a" (Some "x"); var_block "b" "x" None].


(** A variable captured again hides its first definition also from the blocks
    before: a block that reads a variable and captures its own result under the
    same name is reported as a cycle. *)
Lemma recapture_reported_as_cycle :
  resolve (query_of [person_block "a" (Some "x"); var_block "b" "x" (Some "x")]) person_provider
    = PErr (CircularDependency "b").
Proof. vm_compute. reflexivity. Qed.

(** And a block that reads a variable is run after a later block that captures the
    name again. *)
Lemma recapture_reorders :
  exists r, resolve (query_of [person_block "a" (Some "x"); var_block "b" "x" None; person_block "c" (Some "x")]) person_provider
    = POk r /\ execution_order r = [2; 1; 0]%nat.
Proof. eexists. split; vm_compute; reflexivity. Qed.

(** ** What compilation drops *)

Definition ascii_floats : FloatText := {| f64_display := fun n => bstr (show_u n); f64_display_1 := fun n => bstr (show_u n) |}.

(** A second filter of a block is ignored. *)
Lemma second_filter_dropped name t f1 f2 sels `{FloatText} :
  compile_block (mkQueryBlock name (RType t) [DFilter f1; DFilter f2] sels None) (qt_entity_type t)
    = POk (FindNodes name (qt_entity_type t) (Some f1) (extract_fields sels) None None).
Proof. reflexivity. Qed.

(** Edges below an edge are not compiled, and the edges of one level become the
    consecutive steps of one path. *)
Definition knows_edge (sels : list Selection) : Selection :=
  SEdge (mkEdgeTraversal None "knows" DirOutgoing None [] sels None).
Definition works_edge : Selection := SEdge (mkEdgeTraversal None "works_at" DirOutgoing None [] [SField "name"] None).

Lemma nested_edges_dropped :
  compile_edge_traversals [knows_edge [SField "name"; works_edge]] = compile_edge_traversals [knows_edge [SField "name"]] /\
  match compile_edge_traversals [knows_edge [SField "name"]; works_edge] with
  | POk steps => map st_edge_type steps = ["knows"; "works_at"]
  | PErr _ => False
  end.
Proof. split; reflexivity. Qed.
