(* ===== verification/WatchState.v ===== *)
(** * Durable state of query watches

    [pelago-storage/src/watch_state.rs]: the matched set and the position of a
    query watch, stored per subscription signature so that a resumed watch
    continues with the set it had, and the retention sweep over these rows.  The
    sweep reads the whole subspace page by page; its theorem gives the exact rows
    it removes, unreadable ones included, and that it ends. *)

From S2P Require Import Prelude Bytes Text Errors Types Encoding Subspace SchemaTypes Fdb MemFdb Cdc NodeDelete Rows Replication.

Record QueryWatchState := mkQueryWatchState {
  qs_state_id : string;
  last_position : Versionstamp.t;
  qs_matched_nodes : list string;
  qs_updated_at : Z
}.

(** ** Keys *)

Definition query_watch_state_root_subspace : Subspace := Sub.child (Sub.child Sub.system "watch") "qstate".
Definition query_watch_state_subspace (database namespace : string) : Subspace :=
  Sub.child (Sub.child query_watch_state_root_subspace database) namespace.
Definition query_watch_state_key (database namespace state_id : string) : bytes :=
  Tuple.build (Tuple.add_string (Sub.pack (query_watch_state_subspace database namespace)) state_id).

Definition watch_state_expired (updated_at cutoff : Z) : bool := updated_at <=? cutoff.

Definition next_scan_start (key : bytes) : bytes := key ++ [Byte.x00].

(** [retention_secs as i64] wraps; the product and the difference saturate. *)
Definition watch_cutoff (now retention_secs : Z) : Z :=
  i64_saturate (now - i64_saturate (wrap_i64 retention_secs * 1000000)).

(** ** Operations *)

Section Ops.
Context {S : Type} `{Fdb S} `{Cbor QueryWatchState}.

(** The nodes of the hash set, sorted. *)
Definition matched_vec (matched : gset string) : list string := sort_by (cmp_on id) (elements matched).

Definition upsert_query_watch_state (database namespace state_id : string) (position : Versionstamp.t)
    (matched : gset string) : M S unit :=
  t ← now;
  value ← lift (encode_cbor (mkQueryWatchState state_id position (matched_vec matched) t));
  db_set (query_watch_state_key database namespace state_id) value.

Definition get_query_watch_state (database namespace state_id : string) : M S (option QueryWatchState) :=
  row ← db_get (query_watch_state_key database namespace state_id);
  match row with
  | Some b => st ← lift (decode_cbor b); mret (Some st)
  | None => mret None
  end.

Definition delete_query_watch_state (database namespace state_id : string) : M S bool :=
  let key := query_watch_state_key database namespace state_id in
  row ← db_get key;
  let exists_ := bool_decide (is_Some row) in
  when exists_ (db_clear key) ;;
  mret exists_.

(** Rows that cannot be read are removed with the expired ones. *)
Definition stale (cutoff : Z) (value : bytes) : bool :=
  match decode_cbor (A:=QueryWatchState) value with
  | Ok st => watch_state_expired (qs_updated_at st) cutoff
  | Err _ => true
  end.

(** The [for] loop over one page. *)
Fixpoint scan_page (cutoff : Z) (batch_limit : nat) (rows : list (bytes * bytes)) (next_start : option bytes)
    (to_delete : list bytes) : option bytes * list bytes :=
  match rows with
  | [] => (next_start, to_delete)
  | (key, value) :: rows' =>
      let next_start := Some (next_scan_start key) in
      if stale cutoff value then
        let to_delete := to_delete ++ [key] in
        if Nat.leb batch_limit (length to_delete) then (next_start, to_delete)
        else scan_page cutoff batch_limit rows' next_start to_delete
      else scan_page cutoff batch_limit rows' next_start to_delete
  end.

(** The [loop] over pages.  A page that does not end the loop holds a row, so one
    more than the number of rows is fuel enough. *)
Fixpoint scan_pages (fuel : nat) (cutoff : Z) (batch_limit page_size : nat) (scan_start e : bytes)
    (to_delete : list bytes) : M S (list bytes) :=
  match fuel with
  | O => mret to_delete
  | Datatypes.S f =>
      rows ← get_range scan_start e page_size;
      match rows with
      | [] => mret to_delete
      | _ =>
          let '(next_start, to_delete) := scan_page cutoff batch_limit rows None to_delete in
          if Nat.leb batch_limit (length to_delete) then mret to_delete else
          match next_start with
          | None => mret to_delete
          | Some n => if decide (ble e n) then mret to_delete
                      else scan_pages f cutoff batch_limit page_size n e to_delete
          end
      end
  end.

Definition watch_page_size (batch_limit : nat) : nat :=
  Z.to_nat (Z.max (usize_saturating_mul (Z.of_nat batch_limit) 8) 64).

Definition cleanup_query_watch_states (fuel : nat) (retention_secs : Z) (batch_limit : nat) : M S nat :=
  t ← now;
  let cutoff := watch_cutoff t retention_secs in
  let batch_limit := Nat.max batch_limit 1 in
  let sub := query_watch_state_root_subspace in
  to_delete ← scan_pages fuel cutoff batch_limit (watch_page_size batch_limit) (prefix sub) (Sub.range_end sub) [];
  match to_delete with
  | [] => mret 0%nat
  | _ =>
      trx ← create_transaction;
      commit (fun e => Internal ("watch state retention commit failed: " ++ e))
        (foldl (fun t k => kv_clear t k) trx to_delete) ;;
      mret (length to_delete)
  end.
End Ops.

(** ** The scan *)

Section Scan.
Context {S : Type} `{FdbLaws S} `{Cbor QueryWatchState} (cutoff : Z) (batch : nat).

(** The keys of the stale rows among [rows]. *)
Definition stale_keys (rows : list (bytes * bytes)) : list bytes :=
  (List.filter (fun kv => stale cutoff kv.2) rows).*1.

Lemma stale_keys_app l l' : stale_keys (l ++ l') = stale_keys l ++ stale_keys l'.
Proof. unfold stale_keys. by rewrite List.filter_app, fmap_app. Qed.

Lemma scan_page_spec rows : forall next td, (length td < batch)%nat ->
  scan_page cutoff batch rows next td =
    let td' := take batch (td ++ stale_keys rows) in
    if decide (length (td ++ stale_keys rows) < batch)%nat
    then (match last rows with Some kv => Some (next_scan_start kv.1) | None => next end, td')
    else ((scan_page cutoff batch rows next td).1, td').
Proof.
  induction rows as [|[k v] rows IH]; intros next td Htd; cbn [scan_page].
  { unfold stale_keys. cbn. rewrite app_nil_r. rewrite decide_True by done. by rewrite take_ge by lia. }
  replace (stale_keys ((k, v) :: rows)) with ((if stale cutoff v then [k] else []) ++ stale_keys rows)
    by (unfold stale_keys; cbn [List.filter snd]; by destruct (stale cutoff v)).
  destruct (stale cutoff v) eqn:Es.
  - rewrite app_assoc. destruct (Nat.leb_spec batch (length (td ++ [k]))) as [Hb|Hb].
    + cbv zeta. rewrite decide_False by (rewrite length_app; lia). cbn [fst].
      rewrite length_app in Hb. simpl in Hb. rewrite take_app_le by (rewrite length_app; simpl; lia).
      by rewrite take_ge by (rewrite length_app; simpl; lia).
    + rewrite IH by lia. cbv zeta. case_decide; [|done]. rewrite last_cons. by destruct (last rows).
  - rewrite app_nil_l, IH by lia. cbv zeta. case_decide; [|done]. rewrite last_cons. by destruct (last rows).
Qed.

(** The rows after the last row of a full page. *)
Lemma range_next s b e n k v :
  last (take n (kv_range s b e)) = Some (k, v) ->
  kv_range s (next_scan_start k) e = drop n (kv_range s b e).
Proof.
  intros Hl. pose proof (kv_range_sorted s b e) as Hs. rewrite <- (take_drop n (kv_range s b e)) in Hs.
  assert (Hin : (k, v) ∈ kv_range s b e).
  { apply (elem_of_take_1 _ n). apply last_Some in Hl as [l' ->]. apply elem_of_app. right. left. }
  destruct (proj1 (kv_range_elem _ _ _ _ _) Hin) as [[Hb He] _].
  assert (Hlt : forall x, blt k x <-> ble (next_scan_start k) x).
  { intros x. symmetry. apply ble_succ. }
  apply sorted_ext; [apply kv_range_sorted| |].
  { by eapply StronglySorted_app_1_r. }
  intros [k' v']. rewrite kv_range_elem. unfold in_scan. rewrite <- Hlt. split.
  - intros [[Hk Hk'] Hg].
    assert ((k', v') ∈ take n (kv_range s b e) ++ drop n (kv_range s b e)) as Hm.
    { rewrite take_drop. apply kv_range_elem. repeat split; [|done|done].
      eapply ble_trans; [exact Hb|]. apply ble_lt_or_eq. by left. }
    apply elem_of_app in Hm as [Hm|]; [exfalso|done].
    apply last_Some in Hl as [l' El]. rewrite El in Hm, Hs. apply elem_of_app in Hm as [Hm|Hm%list_elem_of_singleton].
    + rewrite <- app_assoc in Hs. pose proof (StronglySorted_app_1_elem_of _ _ _ (k', v') (k, v) Hs Hm ltac:(left)) as Hlt'.
      apply (irreflexivity blt k). by eapply lex_lt_trans.
    + simplify_eq. by apply (irreflexivity blt k).
  - intros Hd. assert ((k', v') ∈ kv_range s b e) as [[_ He'] Hg]%kv_range_elem by by (rewrite <- (take_drop n (kv_range s b e)); apply elem_of_app; by right).
    repeat split; [|done|done].
    assert ((k, v) ∈ take n (kv_range s b e)) as Hk by (apply last_Some in Hl as [l' ->]; apply elem_of_app; right; left).
    exact (StronglySorted_app_1_elem_of _ _ _ _ _ Hs Hk Hd).
Qed.

(** The loop over the pages of a range finds the first [batch] stale keys. *)
Lemma run_scan_pages env (Henv : no_faults env) page e fuel : (0 < page)%nat -> forall b td (w : World S),
  (length td < batch)%nat -> (length (kv_range (w_kv w) b e) < fuel)%nat ->
  exists n, scan_pages fuel cutoff batch page b e td env w
    = (Ok (take batch (td ++ stale_keys (kv_range (w_kv w) b e))),
       mkWorld (w_kv w) (w_cache w) (w_alloc w) (w_failpoints w) n).
Proof.
  intros Hpage. induction fuel as [|f IH]; intros b td w Htd Hf; [lia|]. cbn [scan_pages].
  destruct (run_get_range_at env Henv b e page None w) as [n E]. cbn [snapshot] in E.
  unfold get_range. rewrite (bind_run _ _ _ _ _ _ E). set (rows := kv_range (w_kv w) b e) in *.
  set (w1 := mkWorld (w_kv w) _ _ _ n).
  destruct (take page rows) as [|row page_rows] eqn:Et.
  { assert (rows = []) as Hrows by (destruct rows, page; simpl in *; congruence || lia).
    exists n. rewrite Hrows. cbn [stale_keys List.filter fmap list_fmap]. rewrite app_nil_r.
    by rewrite take_ge by lia. }
  rewrite <- Et, scan_page_spec by done.
  assert (Hsplit : stale_keys rows = stale_keys (take page rows) ++ stale_keys (drop page rows))
    by by rewrite <- stale_keys_app, take_drop.
  cbv zeta. case_decide as Hd.
  - rewrite (take_ge (td ++ _)) by lia. destruct (Nat.leb_spec batch (length (td ++ stale_keys (take page rows)))); [lia|].
    destruct (last (take page rows)) as [[k v]|] eqn:El; [|by rewrite Et in El; apply last_None in El].
    cbn [fst]. pose proof (range_next (w_kv w) b e page k v El) as Hnext.
    rewrite Hsplit, app_assoc. destruct (decide (ble e (next_scan_start k))) as [He|He].
    + assert (kv_range (w_kv w) (next_scan_start k) e = []) as Hnil.
      { destruct (kv_range (w_kv w) (next_scan_start k) e) as [|[k' v'] l] eqn:Ek; [done|].
        assert ((k', v') ∈ kv_range (w_kv w) (next_scan_start k) e) as [[Hge Hlt] _]%kv_range_elem by (rewrite Ek; left).
        exfalso. apply (irreflexivity blt k'). eapply blt_ble_trans; [exact Hlt|]. by eapply ble_trans. }
      fold rows in Hnext. rewrite <- Hnext, Hnil. cbn [stale_keys List.filter fmap list_fmap]. rewrite app_nil_r.
      exists n. by rewrite (take_ge (td ++ _)) by lia.
    + destruct (IH (next_scan_start k) (td ++ stale_keys (take page rows)) w1) as [m Em]; [lia| |].
      { cbn [w_kv w1]. rewrite Hnext, length_drop. fold rows. destruct rows; [by rewrite take_nil in Et|]. simpl in Hf |- *. lia. }
      exists m. rewrite Em. cbn [w_kv w1 w_cache w_alloc w_failpoints]. rewrite Hnext. done.
  - assert (Hlen : (batch <= length (td ++ stale_keys (take page rows)))%nat) by lia.
    exists n. rewrite length_take, Nat.min_l by lia. rewrite Nat.leb_refl.
    rewrite Hsplit, app_assoc. by rewrite (take_app_le (td ++ _)) by lia.
Qed.
End Scan.

(** A retention sweep over the states of query watches.  Started with
    more fuel than there are rows it ends, and removes exactly the first
    [batch_limit] (at least one) rows in key order that are expired or cannot be
    read, reports their number and touches no other key. *)
Theorem watch_state_cleanup_exact {S} `{FdbLaws S} `{Cbor QueryWatchState} env (w : World S)
    (fuel : nat) (retention : Z) (batch_limit : nat) :
  let sub := query_watch_state_root_subspace in
  let rows := kv_range (w_kv w) (prefix sub) (Sub.range_end sub) in
  let cutoff := watch_cutoff (env_now env (w_tick w)) retention in
  let gone := take (Nat.max batch_limit 1) (stale_keys cutoff rows) in
  no_faults env -> (length rows < fuel)%nat ->
  exists w', cleanup_query_watch_states fuel retention batch_limit env w = (Ok (length gone), w') /\
    forall k, kv_get (w_kv w') k = if decide (k ∈ gone) then None else kv_get (w_kv w) k.
Proof.
  intros sub rows cutoff gone Henv Hf. unfold cleanup_query_watch_states. rewrite run_now. fold cutoff sub.
  destruct (run_scan_pages cutoff (Nat.max batch_limit 1) env Henv (watch_page_size (Nat.max batch_limit 1))
    (Sub.range_end sub) fuel ltac:(unfold watch_page_size; lia) (prefix sub) [] (next_tick w)
    ltac:(cbn; lia) Hf) as [n E].
  rewrite (bind_run _ _ _ _ _ _ E). cbn [app w_kv next_tick]. fold rows gone.
  destruct gone as [|k0 l] eqn:Eg.
  { eexists. split; [reflexivity|]. intros k. by rewrite decide_False by apply not_elem_of_nil. }
  rewrite <- Eg. mrun Henv. eexists. split; [reflexivity|]. intros k. cbn [w_kv set_kv]. apply get_clear_keys.
Qed.

(** ** The store *)

Lemma query_watch_state_key_enc db ns id : no_null db -> no_null ns ->
  query_watch_state_key db ns id = prefix query_watch_state_root_subspace ++ enc_str db ++ enc_str ns ++ enc_str id.
Proof.
  intros Hdb Hns. unfold query_watch_state_key, query_watch_state_subspace, Sub.child.
  change (Tuple.build (Tuple.add_string (Sub.pack ?s) id)) with (prefix s ++ enc_str id).
  rewrite !prefix_subspace by done. by rewrite <- !app_assoc.
Qed.

Lemma query_watch_state_key_inj db ns id db' ns' id' : no_null db -> no_null ns -> no_null db' -> no_null ns' ->
  query_watch_state_key db ns id = query_watch_state_key db' ns' id' -> (db, ns, id) = (db', ns', id').
Proof.
  intros ????. rewrite !query_watch_state_key_enc by done. intros E%app_inv_head.
  apply enc_str_inj_no_null in E as [-> E]; [|done..]. apply enc_str_inj_no_null in E as [-> E]; [|done..].
  assert (enc_str id ++ [] = enc_str id' ++ []) as E' by by rewrite !app_nil_r.
  by apply enc_str_inj in E' as [-> _].
Qed.

Lemma matched_vec_set (m : gset string) : list_to_set (matched_vec m) = m.
Proof.
  apply set_eq. intros x. unfold matched_vec. rewrite elem_of_list_to_set, sort_by_perm. apply elem_of_elements.
Qed.

Section Store.
Context {S : Type} `{FdbLaws S} `{CborLaws QueryWatchState id (fun _ => True)} (env : Env) (Henv : no_faults env).
Implicit Types w : World S.

(** What a reader of the row of a watch sees. *)
Definition watch_row w db ns id : option (result QueryWatchState) :=
  decode_cbor <$> kv_get (w_kv w) (query_watch_state_key db ns id).

Lemma run_get_watch_state db ns id w :
  exists w', get_query_watch_state db ns id env w
    = (match watch_row w db ns id with None => Ok None | Some r => Some <$> r end, w') /\ idle w w'.
Proof.
  unfold get_query_watch_state, watch_row. mrun Henv. destruct (kv_get _ _) as [b|]; [|by eexists].
  cbn [fmap option_fmap option_map]. unfold mbind, M_bind, lift. destruct (decode_cbor b) as [st|e]; by eexists.
Qed.

Lemma run_upsert_watch_state db ns id vs m w :
  exists w', upsert_query_watch_state db ns id vs m env w = (Ok tt, w') /\
    watch_row w' db ns id = Some (Ok (mkQueryWatchState id vs (matched_vec m) (env_now env (w_tick w)))) /\
    (forall k, k <> query_watch_state_key db ns id -> kv_get (w_kv w') k = kv_get (w_kv w) k) /\
    kv_stamp (w_kv w') = kv_stamp (w_kv w) /\ w_cache w' = w_cache w.
Proof.
  unfold upsert_query_watch_state. rewrite run_now.
  destruct (encode_cbor_total (mkQueryWatchState id vs (matched_vec m) (env_now env (w_tick w)))) as (b & Eb & _).
  rewrite Eb, (bind_run _ _ _ _ b _ eq_refl), run_db_set by done. eexists. split; [reflexivity|].
  unfold watch_row. cbn [w_kv set_kv next_tick w_cache]. split; [|split; [|by rewrite kv_stamp_set]].
  - rewrite kv_get_set, decide_True by done. cbn. by rewrite (decode_encode_cbor _ b I Eb).
  - intros k Hk. by rewrite kv_get_set, decide_False by congruence.
Qed.

(** The states are apart from the logs, the schemas and the data. *)
Lemma watch_state_key_ne db ns id db' ns' m r : no_null m -> m <> "qstate" ->
  prefix (Sub.subspace (Sub.namespace db' ns') m) ++ r <> query_watch_state_key db ns id.
Proof.
  intros Hm Hne E. unfold query_watch_state_key in E.
  change (Tuple.build (Tuple.add_string (Sub.pack (query_watch_state_subspace db ns)) id))
    with (((prefix (Sub.subspace (Sub.namespace "_sys" "watch") "qstate") ++ [Byte.x02] ++ sbytes db ++ [Byte.x00])
           ++ [Byte.x02] ++ sbytes ns ++ [Byte.x00]) ++ enc_str id) in E.
  rewrite <- !(app_assoc (prefix _)) in E. apply ns_key_inj in E as (_ & _ & ? & _); [done|done|].
  apply (bool_decide_unpack _). vm_compute. exact I.
Qed.

Lemma run_delete_watch_state db ns id w :
  exists w', delete_query_watch_state db ns id env w = (Ok (bool_decide (is_Some (watch_row w db ns id))), w') /\
    watch_row w' db ns id = None /\
    (forall k, k <> query_watch_state_key db ns id -> kv_get (w_kv w') k = kv_get (w_kv w) k).
Proof.
  unfold delete_query_watch_state, watch_row. mrun Henv. destruct (kv_get _ _) as [b|] eqn:Eb; cbn [fmap option_fmap option_map].
  - rewrite !bool_decide_eq_true_2 by eauto. cbn [when]. rewrite (bind_run _ _ _ _ _ _ (run_db_clear env Henv _ _)).
    eexists. split; [reflexivity|]. cbn [w_kv set_kv next_tick]. split.
    + by rewrite kv_get_clear, decide_True.
    + intros k Hk. by rewrite kv_get_clear, decide_False by congruence.
  - rewrite !bool_decide_eq_false_2 by (intros [? ?]; done). cbn [when]. eexists. split; [reflexivity|].
    cbn [w_kv next_tick]. by rewrite Eb.
Qed.
End Store.

(** ** A concrete store *)

#[export] Instance QueryWatchState_eq_dec : EqDecision QueryWatchState.
Proof. solve_decision. Defined.
#[export] Instance QueryWatchState_countable : Countable QueryWatchState.
Proof.
  refine (inj_countable' (fun s => (qs_state_id s, last_position s, qs_matched_nodes s, qs_updated_at s))
    (fun '(a, b, c, d) => mkQueryWatchState a b c d) _). by intros [].
Defined.
#[export] Instance query_watch_state_cbor : Cbor QueryWatchState | 100 := countable_cbor QueryWatchState id.
#[export] Instance query_watch_state_cbor_laws : CborLaws QueryWatchState id (fun _ => True).
Proof. apply countable_cbor_laws. Qed.

(** Two states written at times 0 and 1000, and a row that does not decode. *)
Definition watch_rows_world : World MemKv :=
  set_kv empty_world
    (kv_set (w_kv ((upsert_query_watch_state "db" "ns" "b" Versionstamp.zero {["Person:1_2"]} ;;
                    upsert_query_watch_state "db" "ns" "c" Versionstamp.zero ∅)
                   (mkEnv (fun n => 1000 * Z.of_nat (n / 3)) (fun _ => None)) empty_world).2)
      (query_watch_state_key "db" "ns" "a") []).

Lemma watch_state_cleanup_exact_witness :
  exists w', cleanup_query_watch_states 10 0 5 (mkEnv (fun _ => 500) (fun _ => None)) watch_rows_world = (Ok 2%nat, w') /\
    is_Some (kv_get (w_kv w') (query_watch_state_key "db" "ns" "c")).
Proof.
  destruct (watch_state_cleanup_exact (mkEnv (fun _ => 500) (fun _ => None)) watch_rows_world 10 0 5
    ltac:(intros k; reflexivity) ltac:(vm_compute; lia)) as (w' & E & Hk).
  exists w'. split; [exact E|]. rewrite Hk, decide_False; [|apply (bool_decide_unpack _); vm_compute; exact I].
  apply (bool_decide_unpack _). vm_compute. exact I.
Defined.

(** The retention is cast to a signed integer: 2^63 seconds and more put the
    cutoff at the end of time, and the sweep removes every state. *)
Lemma watch_retention_wraps now : 0 <= now < 2 ^ 63 -> watch_cutoff now (2 ^ 63) = 2 ^ 63 - 1.
Proof.
  intros Hn. unfold watch_cutoff. change (wrap_i64 (2 ^ 63)) with (- 2 ^ 63).
  unfold i64_saturate at 2. change (Z.max _ _) with (- 2 ^ 63). unfold i64_saturate. lia.
Qed.
