(* ===== verification/Watch.v ===== *)
(** * Watches: subscriptions and filters

    [pelago-api/src/watch_service.rs] with its filter.rs and state.rs: the
    registry of active subscriptions and its limits, what a subscription selects,
    where it resumes, and the events an operation of the log gives it.  The loop
    that reads the log for a subscription and the handlers are in [WatchLoop]. *)

From S2P Require Import Prelude Bytes Text Errors Types Encoding Subspace SchemaTypes Fdb MemFdb Cdc Jobs SchemaRegistry.
From S2P Require Import Predicate Cel NodeDelete Rows Replication Service Pql WatchState.

(** ** Events *)

Inductive WatchEventType := WeEnter | WeUpdate | WeExit | WeDelete | WeHeartbeat.

#[export] Instance WatchEventType_eq_dec : EqDecision WatchEventType.
Proof. solve_decision. Defined.

(** A node and an edge as the protocol carries them; [core_to_proto_properties]
    keeps each value. *)
Record WatchNode := mkWatchNode {
  wn_id : string;
  wn_entity_type : string;
  wn_properties : Props;
  wn_locality : string;
  wn_created_at : Z;
  wn_updated_at : Z
}.

Record WatchEdge := mkWatchEdge {
  we_edge_id : string;
  we_source : string * string;
  we_target : string * string;
  we_label : string;
  we_properties : Props;
  we_created_at : Z
}.

Record WatchEvent := mkWatchEvent {
  ev_subscription_id : string;
  ev_type : WatchEventType;
  ev_versionstamp : bytes;
  ev_node : option WatchNode;
  ev_edge : option WatchEdge;
  ev_reason : string
}.

(** ** Subscriptions *)

Inductive WatchSubscriptionType := SubPoint | SubQuery | SubNamespace.

#[export] Instance WatchSubscriptionType_eq_dec : EqDecision WatchSubscriptionType.
Proof. solve_decision. Defined.

Record SubscriptionInfo := mkSubscriptionInfo {
  subscription_id : string;
  subscription_type : WatchSubscriptionType;
  si_database : string;
  si_namespace : string;
  si_created_at : Z;
  si_expires_at : Z
}.

(** The stop channel of a subscription is named by its identifier. *)
Record ActiveSubscription := mkActiveSubscription { info : SubscriptionInfo; sub_principal : option string }.

Record WatchLimits := mkWatchLimits {
  max_total_subscriptions : Z;
  max_namespace_subscriptions : Z;
  max_query_watches_namespace : Z;
  max_principal_subscriptions : Z;
  wl_max_ttl_secs : Z;
  default_heartbeat_secs : Z;
  max_heartbeat_secs : Z;
  wl_max_queue_size : Z;
  max_dropped_events : Z
}.

(** The environment variables of the process. *)
Definition env_uint (max : Z) (value : option string) (dflt : Z) : Z :=
  match value with
  | Some s => match parse_u max (sbytes s) with Some n => n | None => dflt end
  | None => dflt
  end.

Definition default_limits (var : string -> option string) : WatchLimits :=
  mkWatchLimits (env_uint U64_MAX (var "PELAGO_WATCH_MAX_SUBSCRIPTIONS") 1024)
    (env_uint U64_MAX (var "PELAGO_WATCH_MAX_NAMESPACE_SUBSCRIPTIONS") 256)
    (env_uint U64_MAX (var "PELAGO_WATCH_MAX_QUERY_WATCHES") 1000)
    (env_uint U64_MAX (var "PELAGO_WATCH_MAX_PRINCIPAL_SUBSCRIPTIONS") 128)
    (env_uint (2 ^ 32 - 1) (var "PELAGO_WATCH_MAX_TTL_SECS") 86400)
    (env_uint (2 ^ 32 - 1) (var "PELAGO_WATCH_HEARTBEAT_SECS") 30)
    (env_uint (2 ^ 32 - 1) (var "PELAGO_WATCH_MAX_HEARTBEAT_SECS") 300)
    (env_uint (2 ^ 32 - 1) (var "PELAGO_WATCH_MAX_QUEUE_SIZE") 8192)
    (env_uint (2 ^ 32 - 1) (var "PELAGO_WATCH_MAX_DROPPED_EVENTS") 512).

(** *** The registry *)

Abbreviation Registry := (gmap string ActiveSubscription).

Definition count_subs (p : ActiveSubscription -> bool) (r : Registry) : Z :=
  Z.of_nat (length (List.filter p (map_to_list r).*2)).

Definition same_namespace (a b : SubscriptionInfo) : bool :=
  String.eqb (si_database a) (si_database b) && String.eqb (si_namespace a) (si_namespace b).

Definition is_query_sub (s : ActiveSubscription) : bool := bool_decide (subscription_type (info s) = SubQuery).

Definition namespace_subs (i : SubscriptionInfo) (s : ActiveSubscription) : bool := same_namespace (info s) i.
Definition namespace_queries (i : SubscriptionInfo) (s : ActiveSubscription) : bool := same_namespace (info s) i && is_query_sub s.
Definition principal_subs (p : string) (s : ActiveSubscription) : bool := bool_decide (sub_principal s = Some p).

Definition scope_text (i : SubscriptionInfo) (limit : Z) : string :=
  (si_database i ++ "/" ++ si_namespace i ++ " (" ++ ustr limit ++ ")")%string.

(** The limits are checked in this order, each against the registry before the
    insertion. *)
Definition try_insert (id : string) (sub : ActiveSubscription) (limits : WatchLimits) (r : Registry) : Registry + Status :=
  if max_total_subscriptions limits <=? Z.of_nat (size r) then
    inr (St.resource_exhausted ("max subscriptions reached (" ++ ustr (max_total_subscriptions limits) ++ ")"))
  else if max_namespace_subscriptions limits <=? count_subs (namespace_subs (info sub)) r then
    inr (St.resource_exhausted ("max subscriptions reached for namespace "
           ++ scope_text (info sub) (max_namespace_subscriptions limits)))
  else if is_query_sub sub && (max_query_watches_namespace limits <=? count_subs (namespace_queries (info sub)) r) then
    inr (St.resource_exhausted ("max query watches reached for namespace "
           ++ scope_text (info sub) (max_query_watches_namespace limits)))
  else match sub_principal sub with
       | Some p =>
           if max_principal_subscriptions limits <=? count_subs (principal_subs p) r then
             inr (St.resource_exhausted ("max subscriptions reached for principal '" ++ p ++ "' ("
                    ++ ustr (max_principal_subscriptions limits) ++ ")"))
           else inl (<[id := sub]> r)
       | None => inl (<[id := sub]> r)
       end.

Definition registry_remove (id : string) (r : Registry) : Registry := delete id r.

Definition registry_list `{HashIter} (r : Registry) : list SubscriptionInfo := map (fun kv => info kv.2) (hm_iter r).

(** Whether the subscription existed; the caller sends the stop signal to it. *)
Definition registry_cancel (id : string) (r : Registry) : bool * Registry :=
  match r !! id with
  | Some _ => (true, delete id r)
  | None => (false, r)
  end.

(** *** Options *)

Record WatchOptions := mkWatchOptions {
  include_initial : bool;
  ttl_secs : Z;
  max_queue_size : Z;
  heartbeat_secs : Z;
  initial_snapshot : bool
}.

Definition normalize_options (o : WatchOptions) (limits : WatchLimits) : WatchOptions :=
  let ttl := if ttl_secs o =? 0 then 60 else ttl_secs o in
  let hb := if heartbeat_secs o =? 0 then Z.max (default_heartbeat_secs limits) 5 else heartbeat_secs o in
  let q := if max_queue_size o =? 0 then 256 else max_queue_size o in
  mkWatchOptions (if initial_snapshot o then true else include_initial o)
    (Z.max (Z.min ttl (wl_max_ttl_secs limits)) 60)
    (Z.max (Z.min q (wl_max_queue_size limits)) 32)
    (Z.max (Z.min hb (max_heartbeat_secs limits)) 5)
    (initial_snapshot o).

(** ** Filters *)

Record PointNodeTarget := mkPointNodeTarget { pn_entity_type : string; pn_node_id : string; pn_properties : gset string }.

(** [pe_direction] is the number of the protocol: 2 incoming, 3 both. *)
Record PointEdgeTarget := mkPointEdgeTarget {
  source_entity_type : string;
  source_node_id : string;
  pe_label : string;
  pe_target : option (string * string);
  pe_direction : Z
}.

Record PqlPredicate := mkPqlPredicate { root_type : option string; pql_cel : option string }.
Record QueryFilter := mkQueryFilter { qf_entity_type : string; qf_cel : option string; pql_predicate : option PqlPredicate }.

Inductive WatchFilter :=
  | Point (nodes : list PointNodeTarget) (edges : list PointEdgeTarget)
  | Query (q : QueryFilter)
  | Namespace.

Definition targets_node (entity_type node_id : string) (t : PointNodeTarget) : bool :=
  String.eqb (pn_entity_type t) entity_type && String.eqb (pn_node_id t) node_id.

Definition query_scope_matches (f : QueryFilter) (entity_type : string) : bool :=
  if negb (String.eqb (qf_entity_type f) "") && negb (String.eqb (qf_entity_type f) entity_type) then false
  else match pql_predicate f with
       | Some p => match root_type p with Some root_et => String.eqb root_et entity_type | None => true end
       | None => true
       end.

Definition matches_node_scope (f : WatchFilter) (entity_type node_id : string) : bool :=
  match f with
  | Namespace => true
  | Point nodes _ => existsb (targets_node entity_type node_id) nodes
  | Query q => query_scope_matches q entity_type
  end.

Definition matches_node_update_scope (f : WatchFilter) (entity_type node_id : string) (changed : Props) : bool :=
  match f with
  | Point nodes _ =>
      match List.filter (targets_node entity_type node_id) nodes with
      | [] => false
      | targets =>
          existsb (fun t => bool_decide (pn_properties t = ∅)
                            || existsb (fun p => bool_decide (p ∈ pn_properties t)) (elements (dom changed))) targets
      end
  | _ => matches_node_scope f entity_type node_id
  end.

Definition point_edge_target_matches (t : PointEdgeTarget) (source_type source_id target_type target_id label : string) : bool :=
  if negb (String.eqb (pe_label t) "") && negb (String.eqb (pe_label t) label) then false else
  let outbound := String.eqb (source_entity_type t) source_type && String.eqb (source_node_id t) source_id
    && match pe_target t with Some (et, id) => String.eqb et target_type && String.eqb id target_id | None => true end in
  let inbound := String.eqb (source_entity_type t) target_type && String.eqb (source_node_id t) target_id
    && match pe_target t with Some (et, id) => String.eqb et source_type && String.eqb id source_id | None => true end in
  if pe_direction t =? 2 then inbound else if pe_direction t =? 3 then outbound || inbound else outbound.

Definition matches_edge_scope (f : WatchFilter) (source_type source_id target_type target_id label : string) : bool :=
  match f with
  | Namespace => true
  | Point nodes edges =>
      existsb (fun t => targets_node source_type source_id t || targets_node target_type target_id t) nodes
      || existsb (fun t => point_edge_target_matches t source_type source_id target_type target_id label) edges
  | Query q => query_scope_matches q source_type || query_scope_matches q target_type
  end.

(** *** Queries as filters *)

(** The generated parser, with the text of its error. *)
Class PqlParser := { parse_pql : string -> PqlQuery + string }.

Section Build.
Context `{PqlParser} `{FloatText}.

(** [f64::fract() == 0.0] on the bits: an infinity and a NaN have no fraction
    equal to zero. *)
Definition f64_integral (bits : Z) : bool :=
  let e := Z.land (Z.shiftr bits 52) 0x7ff in
  let frac := Z.land bits (2 ^ 52 - 1) in
  if e =? 0x7ff then false
  else if e =? 0 then frac =? 0
  else let shift := 1075 - e in
       if shift <=? 0 then true else (2 ^ 52 + frac) mod 2 ^ shift =? 0.

(** [s.replace('\'', "\\'")] *)
Definition escape_quote (s : string) : string :=
  bstr (flat_map (fun b => if decide (b = Byte.x27) then [Byte.x5c; Byte.x27] else [b]) (sbytes s)).

Definition watch_literal_to_cel (v : LiteralValue) : string :=
  match v with
  | LString s => "'" ++ escape_quote s ++ "'"
  | LInt n => istr n
  | LFloat f => if f64_integral f then f64_display_1 f else f64_display f
  | LBool b => bool_str b
  end%string.

Definition root_to_cel_expression (root : RootFunction) : option string :=
  match root with
  | REq f v => Some (f ++ " == " ++ watch_literal_to_cel v)
  | RGe f v => Some (f ++ " >= " ++ watch_literal_to_cel v)
  | RLe f v => Some (f ++ " <= " ++ watch_literal_to_cel v)
  | RGt f v => Some (f ++ " > " ++ watch_literal_to_cel v)
  | RLt f v => Some (f ++ " < " ++ watch_literal_to_cel v)
  | RBetween f lo hi =>
      Some ("(" ++ f ++ " >= " ++ watch_literal_to_cel lo ++ ") && (" ++ f ++ " <= " ++ watch_literal_to_cel hi ++ ")")
  | RHas f => Some (f ++ " != null")
  | _ => None
  end%string.

Definition root_entity_type (root : RootFunction) : option string :=
  match root with
  | RType qt => Some (qt_entity_type qt)
  | RUid qr => Some (qr_entity_type qr)
  | _ => None
  end.

(** The trimmed non-empty filters of the directives, in order. *)
Definition filter_directives (ds : list Directive) : list string :=
  flat_map (fun d => match d with
                     | DFilter expr => if String.eqb (trim expr) "" then [] else [trim expr]
                     | _ => []
                     end) ds.

Definition build_pql_predicate (query : string) : PqlPredicate + Status :=
  match parse_pql query with
  | inr e => inr (St.invalid_argument e)
  | inl ast =>
      match pq_blocks ast with
      | [] => inr (St.invalid_argument "PQL watch query must include at least one block")
      | block :: _ =>
          let filters := match root_to_cel_expression (qb_root block) with Some e => [e] | None => [] end
                         ++ filter_directives (qb_directives block) in
          inl (mkPqlPredicate (root_entity_type (qb_root block))
                 (match filters with [] => None | _ => Some (String.concat " && " filters) end))
      end
  end.

Definition build_query_filter (entity_type cel_expression pql_query : string) : QueryFilter + Status :=
  let cel := if String.eqb (trim cel_expression) "" then None else Some (trim cel_expression) in
  if String.eqb (trim pql_query) "" then inl (mkQueryFilter entity_type cel None)
  else match build_pql_predicate (trim pql_query) with
       | inl p => inl (mkQueryFilter entity_type cel (Some p))
       | inr e => inr e
       end.
End Build.

(** *** Evaluation on a node *)

Section Evaluate.
Context {S : Type} `{Fdb S} `{Cbor EntitySchema} `{CelEngine}.

Definition evaluate_cel (database namespace entity_type cel : string) (properties : Props) : M S bool :=
  if String.eqb (trim cel) "" then mret true else
  r ← attempt (get_schema database namespace entity_type);
  match r with
  | Ok (Some schema) =>
      match Cel.compile schema cel with
      | Ok compiled => mret (match Cel.evaluate compiled properties with Ok b => b | Err _ => false end)
      | Err _ => mret false
      end
  | _ => mret false
  end.

Definition query_matches_node (f : QueryFilter) (database namespace entity_type : string) (properties : Props) : M S bool :=
  if negb (query_scope_matches f entity_type) then mret false else
  ok ← match qf_cel f with
       | Some cel => evaluate_cel database namespace entity_type cel properties
       | None => mret true
       end;
  if negb ok then mret false else
  match pql_predicate f with
  | Some p => match pql_cel p with
              | Some cel => evaluate_cel database namespace entity_type cel properties
              | None => mret true
              end
  | None => mret true
  end.
End Evaluate.

(** ** Positions *)

Definition parse_resume_after (resume_after : bytes) : option Versionstamp.t + Status :=
  match resume_after with
  | [] => inl None
  | _ => match Versionstamp.from_bytes resume_after with
         | Some vs => inl (Some vs)
         | None => inr (St.invalid_argument "resume_after must be a 10-byte versionstamp")
         end
  end.

Definition resolve_resume_position (requested : Versionstamp.t) (exists_ : bool) (oldest : option Versionstamp.t)
    : Versionstamp.t + Status :=
  if exists_ then inl requested else
  match oldest with
  | Some o =>
      if decide (blt requested o) then
        inr (St.out_of_range "resume_after versionstamp is expired relative to CDC retention")
      else inl Versionstamp.zero
  | None => inl Versionstamp.zero
  end.

Section Resume.
Context {W S : Type} `{HasWorld W S} `{Fdb S}.

Definition of_sum {A} (r : A + Status) : G W A := match r with inl a => mret a | inr e => refuse e end.

Definition validate_resume_position (database namespace : string) (resume_after : bytes) : G W Versionstamp.t :=
  requested ← of_sum (parse_resume_after resume_after);
  match requested with
  | None => mret Versionstamp.zero
  | Some vs =>
      exists_ ← call (fun e => St.internal ("resume validation failed: " ++ display e))
                  (cdc_position_exists database namespace vs);
      if exists_ : bool then mret vs else
      oldest ← call (fun e => St.internal ("resume oldest lookup failed: " ++ display e))
                 (oldest_cdc_position database namespace);
      of_sum (resolve_resume_position vs false oldest)
  end.
End Resume.

(** *** The signature of a query subscription *)

(** [node_key] of state.rs, the name of a node in the matched set. *)
Definition watch_key (entity_type node_id : string) : string := (entity_type ++ ":" ++ node_id)%string.

Definition fnv1a64 (b : bytes) : Z :=
  foldl (fun hash x => Z.lxor hash (u8b x) * 0x100000001b3 mod 2 ^ 64) 0xcbf29ce484222325 b.

Definition newline : string := bstr [Byte.x0a].

Definition query_signature (database namespace : string) (f : QueryFilter) : string :=
  (database ++ newline ++ namespace ++ newline ++ qf_entity_type f ++ newline ++ default "" (qf_cel f)
   ++ match pql_predicate f with
      | Some p => newline ++ default "" (root_type p) ++ newline ++ default "" (pql_cel p)
      | None => ""
      end)%string.

Definition compute_query_state_id (database namespace : string) (f : QueryFilter) : string :=
  ("qws-" ++ Versionstamp.to_string (be_bytes 8 (fnv1a64 (sbytes (query_signature database namespace f)))))%string.

(** ** Events of an operation *)

(** The events of one operation and the matched set after it.  The evaluation of
    the filter on the properties of a node is the only effect, so the function is
    written over the monad [F] in which it happens. *)
Section Events.
Context {F : Type -> Type} `{MRet F} `{MBind F} (matches : QueryFilter -> string -> Props -> F bool).
Context (sub_id : string) (vs : Versionstamp.t) (filter : WatchFilter).

Definition node_event (ty : WatchEventType) (n : WatchNode) (reason : string) : WatchEvent :=
  mkWatchEvent sub_id ty vs (Some n) None reason.
Definition edge_event (ty : WatchEventType) (e : WatchEdge) (reason : string) : WatchEvent :=
  mkWatchEvent sub_id ty vs None (Some e) reason.

(** For a query subscription, an edge event needs an endpoint in the matched set. *)
Definition edge_tracked (matched : gset string) (st si tt ti : string) : bool :=
  match filter with
  | Query _ => bool_decide (watch_key st si ∈ matched) || bool_decide (watch_key tt ti ∈ matched)
  | _ => true
  end.

Definition op_events (op : CdcOperation) (matched : gset string) : F (list WatchEvent * gset string) :=
  match op with
  | NodeCreate et id properties home_site =>
      let ev := node_event WeEnter (mkWatchNode id et properties home_site 0 0) "node_create" in
      if negb (matches_node_scope filter et id) then mret ([], matched) else
      match filter with
      | Query q =>
          m ← matches q et properties;
          if m : bool then mret ([ev], {[watch_key et id]} ∪ matched) else mret ([], matched)
      | _ => mret ([ev], matched)
      end
  | NodeUpdate et id changed old =>
      let ev ty := node_event ty (mkWatchNode id et changed "" 0 0) "node_update" in
      if negb (matches_node_update_scope filter et id changed) then mret ([], matched) else
      match filter with
      | Query q =>
          old_match ← matches q et old;
          new_match ← matches q et (changed ∪ old);
          let key := watch_key et id in
          let was_match := bool_decide (key ∈ matched) || old_match in
          mret (match was_match, new_match with
                | false, true => ([ev WeEnter], {[key]} ∪ matched)
                | true, true => ([ev WeUpdate], {[key]} ∪ matched)
                | true, false => ([ev WeExit], matched ∖ {[key]})
                | false, false => ([], matched)
                end)
      | _ => mret ([ev WeUpdate], matched)
      end
  | NodeDelete et id =>
      let ev := node_event WeDelete (mkWatchNode id et ∅ "" 0 0) "node_delete" in
      if negb (matches_node_scope filter et id) then mret ([], matched) else
      match filter with
      | Query _ =>
          let key := watch_key et id in
          if bool_decide (key ∈ matched) then mret ([ev], matched ∖ {[key]}) else mret ([], matched)
      | _ => mret ([ev], matched)
      end
  | EdgeCreate st si ty ti label edge_id properties =>
      if negb (matches_edge_scope filter st si ty ti label) then mret ([], matched)
      else if negb (edge_tracked matched st si ty ti) then mret ([], matched)
      else mret ([edge_event WeUpdate (mkWatchEdge edge_id (st, si) (ty, ti) label properties 0) "edge_create"], matched)
  | EdgeDelete st si ty ti label =>
      if negb (matches_edge_scope filter st si ty ti label) then mret ([], matched)
      else if negb (edge_tracked matched st si ty ti) then mret ([], matched)
      else mret ([edge_event WeDelete (mkWatchEdge "" (st, si) (ty, ti) label ∅ 0) "edge_delete"], matched)
  | SchemaRegister _ _ _ => mret ([], matched)
  | OwnershipTransfer et id _ current_site_id =>
      if negb (matches_node_scope filter et id) then mret ([], matched)
      else if match filter with Query _ => negb (bool_decide (watch_key et id ∈ matched)) | _ => false end then mret ([], matched)
      else mret ([node_event WeUpdate (mkWatchNode id et ∅ current_site_id 0 0) "ownership_transfer"], matched)
  end.

(** The operations of one entry, in order. *)
Fixpoint ops_events (ops : list CdcOperation) (matched : gset string) : F (list WatchEvent * gset string) :=
  match ops with
  | [] => mret ([], matched)
  | op :: ops' =>
      r ← op_events op matched;
      r' ← ops_events ops' r.2;
      mret (r.1 ++ r'.1, r'.2)
  end.
End Events.

Definition cdc_op_to_watch_events {S} `{Fdb S} `{Cbor EntitySchema} `{CelEngine} (sub_id : string) (vs : Versionstamp.t)
    (op : CdcOperation) (filter : WatchFilter) (database namespace : string) (matched : gset string)
    : M S (list WatchEvent * gset string) :=
  op_events (fun q et props => query_matches_node q database namespace et props) sub_id vs filter op matched.
