(* ===== verification/WatchLoop.v ===== *)
(** * Watches: the loop and the handlers

    [pelago-api/src/watch_service.rs] with its dispatch.rs and snapshot.rs: the
    task that serves one subscription, from the restored state and the initial
    snapshot to the loop over the log, and the handlers that start, list and
    cancel subscriptions.

    [WatchWorld] is what the task shares with the other tasks of the process (the
    storage world, the registry, the stop signals) and the state of the task
    itself.  The channel to the consumer is bounded and drained concurrently: what
    an attempt to send meets is an oracle indexed by the attempts. *)

From S2P Require Import Prelude Bytes Text Errors Types Encoding Subspace SchemaTypes Fdb MemFdb Cdc Jobs SchemaRegistry Node.
From S2P Require Import Predicate Cel NodeDelete Rows Replication Security Service Auth Pql WatchState Watch.

Inductive Chan := Room | Full | Closed.

Record WatchContext := mkWatchContext {
  wc_subscription_id : string;
  wc_database : string;
  wc_namespace : string;
  wc_expires_at : Z;
  wc_after : Versionstamp.t;
  wc_max_dropped_events : Z;
  include_initial_snapshot : bool;
  wc_heartbeat_secs : Z;
  initial_snapshot_limit : Z;
  query_state_id : option string
}.

Definition set_after (c : WatchContext) (vs : Versionstamp.t) : WatchContext :=
  mkWatchContext (wc_subscription_id c) (wc_database c) (wc_namespace c) (wc_expires_at c) vs (wc_max_dropped_events c)
    (include_initial_snapshot c) (wc_heartbeat_secs c) (initial_snapshot_limit c) (query_state_id c).

(** The local variables of the task, what it has put into the channel and how
    often it has tried. *)
Record Task := mkTask {
  tk_ctx : WatchContext;
  tk_matched : gset string;
  tk_dropped : Z;
  tk_last_heartbeat : Z;
  tk_out : list (WatchEvent + Status);
  tk_sends : nat
}.

Definition tk_set_ctx (t : Task) c := mkTask c (tk_matched t) (tk_dropped t) (tk_last_heartbeat t) (tk_out t) (tk_sends t).
Definition tk_set_matched (t : Task) m := mkTask (tk_ctx t) m (tk_dropped t) (tk_last_heartbeat t) (tk_out t) (tk_sends t).
Definition tk_set_dropped (t : Task) d := mkTask (tk_ctx t) (tk_matched t) d (tk_last_heartbeat t) (tk_out t) (tk_sends t).
Definition tk_set_heartbeat (t : Task) h := mkTask (tk_ctx t) (tk_matched t) (tk_dropped t) h (tk_out t) (tk_sends t).
Definition tk_sent (t : Task) x := mkTask (tk_ctx t) (tk_matched t) (tk_dropped t) (tk_last_heartbeat t) (tk_out t ++ x) (tk_sends t + 1).

Record WatchWorld (S : Type) := mkWatchWorld {
  ww_world : World S;
  ww_registry : Registry;
  ww_stopped : gset string;
  ww_task : Task
}.
Arguments mkWatchWorld {S}.
Arguments ww_world {S}.
Arguments ww_registry {S}.
Arguments ww_stopped {S}.
Arguments ww_task {S}.

#[export] Instance watch_has_world {S} : HasWorld (WatchWorld S) S.
Proof.
  exact {| world_of x := ww_world x;
           with_world x w := mkWatchWorld w (ww_registry x) (ww_stopped x) (ww_task x);
           world_of_with _ _ := eq_refl |}.
Defined.

Section Loop.
Context {S : Type} `{Fdb S} `{Cbor EntitySchema} `{Cbor NodeData} `{Cbor CdcEntry} `{Cbor QueryWatchState} `{CelEngine}.
Context (chan : nat -> Chan) (filter : WatchFilter).
Local Abbreviation W := (WatchWorld S).

Definition on_task (f : Task -> Task) : G W unit :=
  modify (fun x => mkWatchWorld (ww_world x) (ww_registry x) (ww_stopped x) (f (ww_task x))).
Definition task {A} (f : Task -> A) : G W A := gets (fun x => f (ww_task x)).
Definition clock : G W Z := call into_status now.

(** ** The channel *)

(** [try_send]: a full or closed channel refuses. *)
Definition try_send (x : WatchEvent + Status) : G W Chan :=
  n ← task tk_sends;
  match chan n with
  | Room => on_task (fun t => tk_sent t [x]) ;; mret Room
  | c => on_task (fun t => tk_sent t []) ;; mret c
  end.

(** [send]: waits for room; refused only by a closed channel. *)
Definition send (x : WatchEvent + Status) : G W bool :=
  n ← task tk_sends;
  match chan n with
  | Closed => on_task (fun t => tk_sent t []) ;; mret false
  | _ => on_task (fun t => tk_sent t [x]) ;; mret true
  end.

Inductive DispatchResult := Sent | Backpressured | DropSubscription (s : Status) | ConsumerClosed.

Definition try_dispatch_watch_event (event : WatchEvent) (max_dropped : Z) : G W DispatchResult :=
  r ← try_send (inl event);
  match r with
  | Room => on_task (fun t => tk_set_dropped t 0) ;; mret Sent
  | Full =>
      on_task (fun t => tk_set_dropped t (Z.min (tk_dropped t + 1) (2 ^ 32 - 1))) ;;
      d ← task tk_dropped;
      if max_dropped <=? d then
        mret (DropSubscription (St.resource_exhausted "watch consumer is too slow; subscription dropped"))
      else mret Backpressured
  | Closed => mret ConsumerClosed
  end.

(** ** Persisted state *)

Definition persist_query_watch_state (c : WatchContext) (matched : gset string) : M S unit :=
  match filter, query_state_id c with
  | Query _, Some id => upsert_query_watch_state (wc_database c) (wc_namespace c) id (wc_after c) matched
  | _, _ => mret tt
  end.

Definition persist : G W unit :=
  c ← task tk_ctx; m ← task tk_matched; ignore (persist_query_watch_state c m).

Definition should_restore_query_watch_state (c : WatchContext) : bool :=
  match filter with Query _ => true | _ => false end && bool_decide (is_Some (query_state_id c))
  && negb (include_initial_snapshot c) && negb (Versionstamp.is_zero (wc_after c)).

Definition restore : G W unit :=
  c ← task tk_ctx;
  if should_restore_query_watch_state c then
    match query_state_id c with
    | Some id =>
        r ← try_call (get_query_watch_state (wc_database c) (wc_namespace c) id);
        match r with
        | Ok (Some saved) =>
            if decide (ble (last_position saved) (wc_after c)) then
              on_task (fun t => tk_set_matched t (list_to_set (qs_matched_nodes saved)))
            else mret tt
        | _ => mret tt
        end
    | None => mret tt
    end
  else mret tt.

(** What the task does before it ends, on every path. *)
Definition finish : G W unit :=
  persist ;;
  c ← task tk_ctx;
  modify (fun x => mkWatchWorld (ww_world x) (registry_remove (wc_subscription_id c) (ww_registry x)) (ww_stopped x) (ww_task x)).

(** ** The loop *)

(** One operation: its events are dispatched in order; [false] ends the task. *)
Fixpoint dispatch_all (events : list WatchEvent) : G W bool :=
  match events with
  | [] => mret true
  | ev :: rest =>
      c ← task tk_ctx;
      r ← try_dispatch_watch_event ev (wc_max_dropped_events c);
      match r with
      | Sent | Backpressured => dispatch_all rest
      | DropSubscription status => send (inr status) ;; finish ;; mret false
      | ConsumerClosed => finish ;; mret false
      end
  end.

Definition process_op (vs : Versionstamp.t) (op : CdcOperation) : G W bool :=
  c ← task tk_ctx;
  m ← task tk_matched;
  r ← call into_status (cdc_op_to_watch_events (wc_subscription_id c) vs op filter (wc_database c) (wc_namespace c) m);
  on_task (fun t => tk_set_matched t r.2) ;;
  dispatch_all r.1.

Fixpoint process_ops (vs : Versionstamp.t) (ops : list CdcOperation) : G W bool :=
  match ops with
  | [] => mret true
  | op :: ops' => go ← process_op vs op; if go : bool then process_ops vs ops' else mret false
  end.

Fixpoint process_entries (entries : list (Versionstamp.t * CdcEntry)) : G W bool :=
  match entries with
  | [] => mret true
  | (vs, entry) :: rest =>
      on_task (fun t => tk_set_ctx t (set_after (tk_ctx t) vs)) ;;
      go ← process_ops vs (operations entry);
      if go : bool then process_entries rest else mret false
  end.

Definition heartbeat_event (c : WatchContext) : WatchEvent :=
  mkWatchEvent (wc_subscription_id c) WeHeartbeat (wc_after c) None None "heartbeat".

Definition heartbeat : G W unit :=
  n ← clock;
  c ← task tk_ctx;
  last ← task tk_last_heartbeat;
  if wc_heartbeat_secs c * 1000000 <=? i64_saturate (n - last) then
    try_send (inl (heartbeat_event c)) ;; on_task (fun t => tk_set_heartbeat t n)
  else mret tt.

Definition stop_requested : G W bool :=
  gets (fun x => bool_decide (wc_subscription_id (tk_ctx (ww_task x)) ∈ ww_stopped x)).

(** Stopped or expired.  The second test of the stop signal in the source reads
    the same value again. *)
Definition should_end : G W bool :=
  stopped ← stop_requested;
  if stopped : bool then mret true
  else n ← clock; c ← task tk_ctx; mret (wc_expires_at c <=? n).

(** One turn of the loop; [false] ends the task. *)
Definition watch_turn : G W bool :=
  over ← should_end;
  if over : bool then finish ;; mret false else
  heartbeat ;;
  c ← task tk_ctx;
  r ← try_call (read_cdc_entries (wc_database c) (wc_namespace c) (Some (wc_after c)) 256);
  match r with
  | Ok [] => mret true
  | Ok entries =>
      go ← process_entries entries;
      if go : bool then persist ;; mret true else mret false
  | Err err =>
      send (inr (St.internal ("watch dispatcher failed: " ++ display err))) ;;
      finish ;;
      mret false
  end.

(** ** The initial snapshot *)

Record SnapshotNode := mkSnapshotNode { sp_entity_type : string; sp_node_id : string; sp_data : NodeData }.

Definition fetch_node_snapshot (database namespace entity_type node_id : string) : G W (option SnapshotNode) :=
  match NodeIds.from_str node_id with
  | inr _ => refuse (St.invalid_argument "invalid node_id in watch target")
  | inl parsed =>
      row ← call (fun e => St.internal ("snapshot get failed: " ++ display e))
              (db_get (data_key (Sub.data (Sub.namespace database namespace)) entity_type (NodeIds.to_bytes parsed)));
      match row with
      | None => mret None
      | Some value =>
          data ← call (fun e => St.internal ("snapshot decode failed: " ++ display e)) (lift (decode_cbor value));
          mret (Some (mkSnapshotNode entity_type node_id data))
      end
  end.

(** The rows that do not decode are skipped; a node's identifier is the last nine
    bytes of its key. *)
Definition snapshot_row (entity_type : string) (kv : bytes * bytes) : list SnapshotNode :=
  if Nat.ltb (length kv.1) 9 then [] else
  match decode_cbor kv.2 with
  | Ok data =>
      [mkSnapshotNode entity_type (NodeIds.to_string (NodeIds.from_bytes (skipn (length kv.1 - 9) kv.1))) data]
  | Err _ => []
  end.

Definition scan_entity_snapshots (database namespace entity_type : string) (limit : Z) : G W (list SnapshotNode) :=
  let pre := Tuple.build (Tuple.add_string (Sub.pack (Sub.data (Sub.namespace database namespace))) entity_type) in
  rows ← call (fun e => St.internal ("snapshot scan failed: " ++ display e))
           (get_range pre (pre ++ [Byte.xff]) (Z.to_nat (Z.max limit 1)));
  mret (flat_map (snapshot_row entity_type) rows).

Definition snapshot_event (c : WatchContext) (n : SnapshotNode) (properties : Props) : WatchEvent :=
  mkWatchEvent (wc_subscription_id c) WeEnter (wc_after c)
    (Some (mkWatchNode (sp_node_id n) (sp_entity_type n) properties (ustr (nd_locality (sp_data n)))
             (nd_created_at (sp_data n)) (nd_updated_at (sp_data n)))) None "initial_snapshot".

(** [tx.send(..).await.map_err(..)?] *)
Definition send_or_cancel (ev : WatchEvent) : G W unit :=
  ok ← send (inl ev);
  if ok : bool then mret tt else refuse (St.cancelled "watch stream closed").

Fixpoint snapshot_points (nodes : list PointNodeTarget) (emitted : Z) : G W unit :=
  match nodes with
  | [] => mret tt
  | t :: rest =>
      c ← task tk_ctx;
      if Z.max (initial_snapshot_limit c) 1 <=? emitted then mret tt else
      snap ← fetch_node_snapshot (wc_database c) (wc_namespace c) (pn_entity_type t) (pn_node_id t);
      match snap with
      | None => snapshot_points rest emitted
      | Some n =>
          let props := nd_properties (sp_data n) in
          let props := if bool_decide (pn_properties t = ∅) then props
                       else base.filter (fun kv => kv.1 ∈ pn_properties t) props in
          send_or_cancel (snapshot_event c n props) ;;
          snapshot_points rest (emitted + 1)
      end
  end.

(** The loop over the nodes of one type: the number of events still allowed. *)
Fixpoint snapshot_nodes (snaps : list SnapshotNode) (remaining : Z) : G W Z :=
  match snaps with
  | [] => mret remaining
  | n :: rest =>
      c ← task tk_ctx;
      ok ← match filter with
           | Query q => call into_status (query_matches_node q (wc_database c) (wc_namespace c) (sp_entity_type n)
                                            (nd_properties (sp_data n)))
           | _ => mret true
           end;
      if negb ok then snapshot_nodes rest remaining else
      match filter with
      | Query _ => on_task (fun t => tk_set_matched t ({[watch_key (sp_entity_type n) (sp_node_id n)]} ∪ tk_matched t))
      | _ => mret tt
      end ;;
      send_or_cancel (snapshot_event c n (nd_properties (sp_data n))) ;;
      let remaining := remaining - 1 in
      if remaining =? 0 then mret 0 else snapshot_nodes rest remaining
  end.

Fixpoint snapshot_types (types : list string) (remaining : Z) : G W unit :=
  match types with
  | [] => mret tt
  | et :: rest =>
      if remaining =? 0 then mret tt else
      c ← task tk_ctx;
      snaps ← scan_entity_snapshots (wc_database c) (wc_namespace c) et remaining;
      remaining ← snapshot_nodes snaps remaining;
      snapshot_types rest remaining
  end.

Definition snapshot_list_schemas (c : WatchContext) : G W (list string) :=
  call (fun e => St.internal ("snapshot list schemas failed: " ++ display e)) (list_schemas (wc_database c) (wc_namespace c)).

Definition emit_initial_snapshot : G W unit :=
  c ← task tk_ctx;
  let remaining := Z.max (initial_snapshot_limit c) 1 in
  match filter with
  | Point nodes _ => snapshot_points nodes 0
  | Query q =>
      types ← (if negb (String.eqb (qf_entity_type q) "") then mret [qf_entity_type q]
               else match pql_predicate q ≫= root_type with
                    | Some root => mret [root]
                    | None => snapshot_list_schemas c
                    end);
      snapshot_types types remaining
  | Namespace =>
      types ← snapshot_list_schemas c;
      snapshot_types types remaining
  end.

(** ** The task *)

(** The loop for at most [fuel] turns; [true] when the task is still running. *)
Fixpoint watch_turns (fuel : nat) : G W bool :=
  match fuel with
  | O => mret true
  | Datatypes.S f => go ← watch_turn; if go : bool then watch_turns f else mret false
  end.

(** [if let Err(err) = ..] keeps the error as a value. *)
Definition try_handler {A} (m : G W A) : G W (A + Status) := fun env x =>
  let '(r, x') := m env x in (inl r, x').

(** The body of the spawned task before its loop; [false] when it has ended. *)
Definition watch_start : G W bool :=
  n ← clock;
  on_task (fun t => tk_set_heartbeat t n) ;;
  restore ;;
  c ← task tk_ctx;
  if include_initial_snapshot c then
    r ← try_handler emit_initial_snapshot;
    match r with
    | inl _ => mret true
    | inr err => send (inr err) ;; finish ;; mret false
    end
  else mret true.

Definition spawn_watch_loop (fuel : nat) : G W bool :=
  go ← watch_start;
  if go : bool then watch_turns fuel else mret false.
End Loop.

(** ** The service *)

(** The process: the storage world, the registry, the stop signals that were sent
    and the running tasks with their filters. *)
Record WatchService (S : Type) := mkWatchService {
  sv_world : World S;
  sv_registry : Registry;
  sv_stopped : gset string;
  sv_tasks : gmap string (WatchFilter * Task)
}.
Arguments mkWatchService {S}.
Arguments sv_world {S}.
Arguments sv_registry {S}.
Arguments sv_stopped {S}.
Arguments sv_tasks {S}.

#[export] Instance service_has_world {S} : HasWorld (WatchService S) S.
Proof.
  exact {| world_of x := sv_world x;
           with_world x w := mkWatchService w (sv_registry x) (sv_stopped x) (sv_tasks x);
           world_of_with _ _ := eq_refl |}.
Defined.

Record NodeWatch := mkNodeWatch { nw_entity_type : string; nw_node_id : string; nw_properties : list string }.
Record EdgeWatch := mkEdgeWatch {
  ew_source : option (string * string);
  ew_label : string;
  ew_target : option (string * string);
  ew_direction : Z
}.

Record WatchPointRequest := mkWatchPointRequest {
  wp_context : option RequestContext;
  wp_entity_type : string;
  wp_node_id : string;
  wp_options : option WatchOptions;
  wp_resume_after : bytes;
  wp_nodes : list NodeWatch;
  wp_edges : list EdgeWatch
}.

Record WatchQueryRequest := mkWatchQueryRequest {
  wq_context : option RequestContext;
  wq_entity_type : string;
  wq_cel_expression : string;
  wq_pql_query : string;
  wq_options : option WatchOptions;
  wq_resume_after : bytes
}.

Record WatchNamespaceRequest := mkWatchNamespaceRequest {
  wns_context : option RequestContext;
  wns_options : option WatchOptions;
  wns_resume_after : bytes
}.

Definition default_options : WatchOptions := mkWatchOptions false 0 0 0 false.

(** Targets without a type or an identifier are skipped; the pair of the request
    itself is used when none is left. *)
Definition point_node_targets (req : WatchPointRequest) : list PointNodeTarget :=
  let targets := flat_map (fun n =>
    if String.eqb (nw_entity_type n) "" || String.eqb (nw_node_id n) "" then []
    else [mkPointNodeTarget (nw_entity_type n) (nw_node_id n) (list_to_set (nw_properties n))]) (wp_nodes req) in
  match targets with
  | [] => if negb (String.eqb (wp_entity_type req) "") && negb (String.eqb (wp_node_id req) "")
          then [mkPointNodeTarget (wp_entity_type req) (wp_node_id req) ∅] else []
  | _ => targets
  end.

Definition point_edge_targets (req : WatchPointRequest) : list PointEdgeTarget :=
  flat_map (fun e =>
    match ew_source e with
    | None => []
    | Some (et, id) =>
        if String.eqb et "" || String.eqb id "" then []
        else [mkPointEdgeTarget et id (ew_label e)
                (match ew_target e with
                 | Some (ty, ti) => if String.eqb ty "" || String.eqb ti "" then None else Some (ty, ti)
                 | None => None
                 end) (ew_direction e)]
    end) (wp_edges req).

Section Service.
Context {S : Type} `{Fdb S} `{Cbor EntitySchema} `{Cbor NodeData} `{Cbor CdcEntry} `{Cbor QueryWatchState} `{CelEngine}.
Context `{Cbor AuthPolicy} `{Cbor AuditRecord} `{UuidSource} `{HashIter} `{PqlParser} `{FloatText}.
Context (limits : WatchLimits).
Local Abbreviation V := (WatchService S).

Definition sv_clock : G V Z := call into_status now.

(** What the three subscribing handlers do once the filter is known. *)
Definition subscribe (ctx : RequestContext) (principal : option AuthPrincipal) (options : WatchOptions)
    (after : Versionstamp.t) (ty : WatchSubscriptionType) (filter : WatchFilter) (state_id : option string) : G V string :=
  sub_id ← call into_status fresh_uuid;
  created_at ← sv_clock;
  let expires_at := wrap_i64 (created_at + ttl_secs options * 1000000) in
  let sub := mkActiveSubscription
               (mkSubscriptionInfo sub_id ty (ctx_database ctx) (ctx_namespace ctx) created_at expires_at)
               (principal_id <$> principal) in
  r ← gets sv_registry;
  match try_insert sub_id sub limits r with
  | inr e => refuse e
  | inl r' =>
      let c := mkWatchContext sub_id (ctx_database ctx) (ctx_namespace ctx) expires_at after (max_dropped_events limits)
                 (initial_snapshot options || include_initial options) (heartbeat_secs options)
                 (usize_saturating_mul (max_queue_size options) 4) state_id in
      modify (fun x => mkWatchService (sv_world x) r' (sv_stopped x)
                (<[sub_id := (filter, mkTask c ∅ 0 0 [] 0)]> (sv_tasks x))) ;;
      mret sub_id
  end.

Definition watch_point (principal : option AuthPrincipal) (req : WatchPointRequest) : G V string :=
  ctx ← require_field (wp_context req) "context";
  let nodes := point_node_targets req in
  let edges := point_edge_targets req in
  match nodes, edges with
  | [], [] => refuse (St.invalid_argument "watch_point requires at least one node or edge target")
  | _, _ =>
      authorize_with_context principal "watch.subscribe" ctx
        (match nodes with t :: _ => pn_entity_type t | [] => "*" end) ;;
      let options := normalize_options (default default_options (wp_options req)) limits in
      after ← validate_resume_position (ctx_database ctx) (ctx_namespace ctx) (wp_resume_after req);
      subscribe ctx principal options after SubPoint (Point nodes edges) None
  end.

Definition watch_query (principal : option AuthPrincipal) (req : WatchQueryRequest) : G V string :=
  ctx ← require_field (wq_context req) "context";
  authorize_with_context principal "watch.subscribe" ctx
    (if String.eqb (wq_entity_type req) "" then "*" else wq_entity_type req) ;;
  let options := normalize_options (default default_options (wq_options req)) limits in
  after ← validate_resume_position (ctx_database ctx) (ctx_namespace ctx) (wq_resume_after req);
  q ← of_sum (build_query_filter (wq_entity_type req) (wq_cel_expression req) (wq_pql_query req));
  subscribe ctx principal options after SubQuery (Query q)
    (Some (compute_query_state_id (ctx_database ctx) (ctx_namespace ctx) q)).

Definition watch_namespace (principal : option AuthPrincipal) (req : WatchNamespaceRequest) : G V string :=
  ctx ← require_field (wns_context req) "context";
  authorize_with_context principal "watch.subscribe" ctx "*" ;;
  let options := normalize_options (default default_options (wns_options req)) limits in
  after ← validate_resume_position (ctx_database ctx) (ctx_namespace ctx) (wns_resume_after req);
  subscribe ctx principal options after SubNamespace Namespace None.

Definition list_subscriptions (principal : option AuthPrincipal) (context : option RequestContext)
    : G V (list SubscriptionInfo) :=
  ctx ← require_field context "context";
  authorize_with_context principal "watch.list" ctx "*" ;;
  gets (fun x => registry_list (sv_registry x)).

(** The stop signal reaches the task of the subscription. *)
Definition cancel_subscription (principal : option AuthPrincipal) (context : option RequestContext) (id : string) : G V bool :=
  ctx ← require_field context "context";
  authorize_with_context principal "watch.cancel" ctx "*" ;;
  r ← gets sv_registry;
  let '(cancelled, r') := registry_cancel id r in
  modify (fun x => mkWatchService (sv_world x) r' (if cancelled then {[id]} ∪ sv_stopped x else sv_stopped x) (sv_tasks x)) ;;
  mret cancelled.

(** A turn of the task of a subscription. *)
Definition task_turn (chan : nat -> Chan) (id : string) : G V bool := fun env x =>
  match sv_tasks x !! id with
  | None => (inl false, x)
  | Some (filter, t) =>
      let '(r, y) := watch_turn chan filter env (mkWatchWorld (sv_world x) (sv_registry x) (sv_stopped x) t) in
      (r, mkWatchService (ww_world y) (ww_registry y) (ww_stopped y)
            (match r with
             | inl true => <[id := (filter, ww_task y)]> (sv_tasks x)
             | _ => delete id (sv_tasks x)
             end))
  end.
End Service.
