(* ===== verification/WatchSpec.v ===== *)
(** * Watches: what they promise

    - the registry never exceeds its limits, whatever the order of subscriptions,
      ends and cancellations, and refuses only at a limit;
    - a resumed subscription starts where no entry still in the log is skipped;
    - the matched set of a query subscription is the set of nodes that satisfy the
      query, and the events are exactly the changes of that set;
    - a task delivers the events of the log in order, each once, to a consumer
      that keeps up, and a subsequence of them to any other. *)

From S2P Require Import Prelude Bytes Text Errors Types Encoding Subspace SchemaTypes Fdb MemFdb Cdc Jobs SchemaRegistry Node.
From S2P Require Import NodeSpec EdgeCascade Predicate Cel NodeDelete Rows Replication Security Service Auth Pql WatchState Watch WatchLoop.

(** ** The registry *)

Section Registry.
Context (limits : WatchLimits).
Implicit Types (r : Registry) (s : ActiveSubscription).

(** One change of the registry by some task of the process. *)
Inductive registry_step : Registry -> Registry -> Prop :=
  | step_subscribe id s r r' : try_insert id s limits r = inl r' -> registry_step r r'
  | step_end id r : registry_step r (registry_remove id r)
  | step_cancel id r : registry_step r (registry_cancel id r).2.

Definition within_limits r : Prop :=
  Z.of_nat (size r) <= max_total_subscriptions limits /\
  forall i p, count_subs (namespace_subs i) r <= max_namespace_subscriptions limits /\
    count_subs (namespace_queries i) r <= max_query_watches_namespace limits /\
    count_subs (principal_subs p) r <= max_principal_subscriptions limits.

(** Some limit is reached for a new subscription. *)
Definition at_limit s r : Prop :=
  max_total_subscriptions limits <= Z.of_nat (size r) \/
  max_namespace_subscriptions limits <= count_subs (namespace_subs (info s)) r \/
  (subscription_type (info s) = SubQuery /\ max_query_watches_namespace limits <= count_subs (namespace_queries (info s)) r) \/
  exists p, sub_principal s = Some p /\ max_principal_subscriptions limits <= count_subs (principal_subs p) r.

Lemma try_insert_spec id s r :
  (try_insert id s limits r = inl (<[id := s]> r) /\ ~ at_limit s r) \/
  (exists m, try_insert id s limits r = inr (St.resource_exhausted m) /\ at_limit s r).
Proof.
  unfold try_insert, at_limit, is_query_sub.
  destruct (Z.leb_spec (max_total_subscriptions limits) (Z.of_nat (size r))) as [?|Ht]; [right; eauto|].
  destruct (Z.leb_spec (max_namespace_subscriptions limits) (count_subs (namespace_subs (info s)) r)) as [?|Hn]; [right; eauto|].
  destruct (bool_decide_reflect (subscription_type (info s) = SubQuery)) as [Hq|Hq]; cbn [andb].
  - destruct (Z.leb_spec (max_query_watches_namespace limits) (count_subs (namespace_queries (info s)) r)) as [?|Hc]; [right; eauto 8|].
    destruct (sub_principal s) as [p|] eqn:Ep; [destruct (Z.leb_spec (max_principal_subscriptions limits) (count_subs (principal_subs p) r))|];
      [right; eauto 8|left..]; (split; [done|]); intros [?|[?|[[_ ?]|(p' & Hp' & ?)]]]; simplify_eq; lia.
  - destruct (sub_principal s) as [p|] eqn:Ep; [destruct (Z.leb_spec (max_principal_subscriptions limits) (count_subs (principal_subs p) r))|];
      [right; eauto 8|left..]; (split; [done|]); intros [?|[?|[[? _]|(p' & Hp' & ?)]]]; simplify_eq; try done; lia.
Qed.

Lemma count_perm (f : ActiveSubscription -> bool) l l' :
  l ≡ₚ l' -> length (List.filter f l) = length (List.filter f l').
Proof. induction 1; cbn; repeat case_match; cbn; lia. Qed.

Lemma count_delete f id r : count_subs f (delete id r) <= count_subs f r.
Proof.
  unfold count_subs. destruct (r !! id) as [s|] eqn:E; [|by rewrite delete_id].
  rewrite (count_perm f (map_to_list r).*2 (s :: (map_to_list (delete id r)).*2)).
  - cbn. destruct (f s); cbn; lia.
  - rewrite <- (map_to_list_delete r id s E). done.
Qed.

Lemma count_insert f id s r : count_subs f (<[id := s]> r) <= count_subs f r + (if f s then 1 else 0).
Proof.
  pose proof (count_delete f id r) as Hd. unfold count_subs in *.
  rewrite <- insert_delete_eq. rewrite (count_perm f _ (s :: (map_to_list (delete id r)).*2)).
  - cbn. destruct (f s); cbn; lia.
  - by rewrite map_to_list_insert by apply lookup_delete_eq.
Qed.

Lemma size_delete_le id r : (size (delete id r) <= size r)%nat.
Proof. rewrite map_size_delete. destruct (r !! id); simpl; lia. Qed.

Lemma delete_within id r : within_limits r -> within_limits (delete id r).
Proof.
  intros [Ht Hc]. split; [pose proof (size_delete_le id r); lia|]. intros i p. destruct (Hc i p) as (? & ? & ?).
  pose proof (count_delete (namespace_subs i) id r). pose proof (count_delete (namespace_queries i) id r).
  pose proof (count_delete (principal_subs p) id r). lia.
Qed.

Lemma same_namespace_count i s r : same_namespace (info s) i = true ->
  count_subs (namespace_subs i) r = count_subs (namespace_subs (info s)) r /\
  count_subs (namespace_queries i) r = count_subs (namespace_queries (info s)) r.
Proof.
  unfold same_namespace. intros [Ed En]%andb_true_iff. apply String.eqb_eq in Ed, En.
  unfold count_subs, namespace_queries, namespace_subs, same_namespace. by rewrite Ed, En.
Qed.

Lemma insert_within id s r : within_limits r -> ~ at_limit s r -> within_limits (<[id := s]> r).
Proof.
  intros [Ht Hc] Hn. unfold at_limit in Hn. split.
  { rewrite map_size_insert. destruct (r !! id); simpl; lia. }
  intros i p. destruct (Hc i p) as (H1 & H2 & H3).
  pose proof (count_insert (namespace_subs i) id s r) as I1. pose proof (count_insert (namespace_queries i) id s r) as I2.
  pose proof (count_insert (principal_subs p) id s r) as I3.
  assert (namespace_queries i s = true -> namespace_subs i s = true /\ subscription_type (info s) = SubQuery) as Hq.
  { unfold namespace_queries, is_query_sub. rewrite andb_true_iff, bool_decide_eq_true. done. }
  assert (namespace_subs i s = true -> _) as Hsame by exact (same_namespace_count i s r).
  split_and!.
  - destruct (namespace_subs i s); [|lia]. destruct (Hsame eq_refl) as [E1 _]. lia.
  - destruct (namespace_queries i s); [|lia]. destruct (Hq eq_refl) as [Hs Hty]. destruct (Hsame Hs) as [_ E2].
    assert (~ (max_query_watches_namespace limits <= count_subs (namespace_queries (info s)) r)) by tauto. lia.
  - destruct (principal_subs p s) eqn:Ep; [|lia]. unfold principal_subs in Ep. rewrite bool_decide_eq_true in Ep.
    assert (~ (max_principal_subscriptions limits <= count_subs (principal_subs p) r)) by eauto 8. lia.
Qed.

Lemma registry_step_within r r' : registry_step r r' -> within_limits r -> within_limits r'.
Proof.
  intros Hs Hw. destruct Hs as [id s r r' E|id r|id r].
  - destruct (try_insert_spec id s r) as [[E' Hn]|(m & E' & _)]; rewrite E' in E; simplify_eq. by apply insert_within.
  - by apply delete_within.
  - unfold registry_cancel. destruct (r !! id); [by apply delete_within|done].
Qed.
End Registry.

(** C30: the limits on subscriptions hold at all times: starting from the
    empty registry, after any sequence of subscriptions, ends of tasks and
    cancellations, in any order, the totals for the process, for each namespace,
    for the query watches of each namespace and for each principal are within
    their limits.  A subscription is refused, with [RESOURCE_EXHAUSTED], only when
    one of these limits is reached. *)
Theorem registry_within_limits (limits : WatchLimits) (r : Registry) :
  0 <= max_total_subscriptions limits -> 0 <= max_namespace_subscriptions limits ->
  0 <= max_query_watches_namespace limits -> 0 <= max_principal_subscriptions limits ->
  rtc (registry_step limits) ∅ r ->
  within_limits limits r /\
  forall id s, match try_insert id s limits r with
               | inl r' => r' = <[id := s]> r /\ ~ at_limit limits s r
               | inr e => status_code e = ResourceExhausted /\ at_limit limits s r
               end.
Proof.
  intros H1 H2 H3 H4 Hr. split.
  - assert (within_limits limits ∅) as H0 by (split; [done|]; intros i p; unfold count_subs; by rewrite map_to_list_empty).
    revert H0. induction Hr; [done|]. eauto using registry_step_within.
  - intros id s. destruct (try_insert_spec limits id s r) as [[-> Hn]|(m & -> & Ha)]; done.
Qed.

Definition one_limit : WatchLimits := mkWatchLimits 1 1 1 1 60 5 5 32 1.
Definition a_sub : ActiveSubscription := mkActiveSubscription (mkSubscriptionInfo "a" SubQuery "db" "ns" 0 0) (Some "ann").

Lemma registry_within_limits_witness :
  within_limits one_limit {["a" := a_sub]} /\
  exists e, try_insert "b" a_sub one_limit {["a" := a_sub]} = inr e /\ status_code e = ResourceExhausted.
Proof.
  destruct (registry_within_limits one_limit {["a" := a_sub]} ltac:(done) ltac:(done) ltac:(done) ltac:(done)) as [Hw Hi].
  { eapply rtc_l; [|apply rtc_refl]. apply (step_subscribe one_limit "a" a_sub ∅). reflexivity. }
  split; [exact Hw|]. specialize (Hi "b" a_sub). eexists. split; [reflexivity|]. exact (proj1 Hi).
Defined.

(** Options are brought within the limits of the process, and normalizing again
    changes nothing. *)
Lemma normalize_options_bounds o limits :
  let o' := normalize_options o limits in
  60 <= ttl_secs o' <= Z.max (wl_max_ttl_secs limits) 60 /\
  32 <= max_queue_size o' <= Z.max (wl_max_queue_size limits) 32 /\
  5 <= heartbeat_secs o' <= Z.max (max_heartbeat_secs limits) 5 /\
  (initial_snapshot o = true -> include_initial o' = true) /\
  normalize_options o' limits = o'.
Proof.
  cbv zeta. unfold normalize_options. cbn [ttl_secs max_queue_size heartbeat_secs initial_snapshot include_initial].
  split; [lia|]. split; [lia|]. split; [lia|]. split; [by intros ->|].
  assert (forall x m lo, 0 < lo -> let y := Z.max (Z.min x m) lo in (y =? 0) = false /\ Z.max (Z.min y m) lo = y) as Hfix by (cbv zeta; lia).
  repeat match goal with |- context [Z.max (Z.min ?x ?m) ?lo =? 0] =>
    destruct (Hfix x m lo ltac:(lia)) as [-> ?]; generalize dependent (Z.max (Z.min x m) lo); intros ? ?E end.
  by destruct (initial_snapshot o); f_equal.
Qed.

(** ** Resuming *)

Section Resume.
Context {S : Type} `{FdbLaws S} `{CborLaws CdcEntry canon_entry storable_entry}.
Context (env : Env) (Henv : no_faults env) (db ns : string).
Implicit Types (s : S) (w : World S).

Definition stamps s : list Versionstamp.t := map fst (cdc_log db ns s).

Lemma stamps_rows s : cdc_wf db ns s ->
  map fst (kv_range s (prefix (cdc_subspace db ns)) (Sub.range_end (cdc_subspace db ns)))
    = map (app (prefix (cdc_subspace db ns))) (stamps s).
Proof.
  intros Hwf. unfold stamps. rewrite cdc_log_rows by done. rewrite !List.map_map. apply List.map_ext_in.
  intros [k v] Hi%list_elem_of_In. apply log_rows in Hi as (r & -> & _); [|done]. unfold dec_row. cbn [fst]. by rewrite skipn_prefix.
Qed.

Lemma stamps_elem s vs : cdc_wf db ns s ->
  vs ∈ stamps s <-> is_Some (kv_get s (prefix (cdc_subspace db ns) ++ vs)).
Proof.
  intros Hwf. unfold stamps. rewrite cdc_log_rows, List.map_map, list_elem_of_In, List.in_map_iff by done.
  setoid_rewrite <- list_elem_of_In. split.
  - intros ([k v] & <- & Hin). apply log_rows in Hin as (r & -> & Hv); [|done]. unfold dec_row. cbn [fst]. rewrite skipn_prefix. eauto.
  - intros [v Hv]. exists (prefix (cdc_subspace db ns) ++ vs, v). unfold dec_row. cbn [fst]. rewrite skipn_prefix. split; [done|]. apply log_rows; eauto.
Qed.

Lemma stamps_wf s vs : cdc_wf db ns s -> vs ∈ stamps s -> length vs = 10%nat /\ blt Versionstamp.zero vs.
Proof. intros Hwf [v (? & _ & ? & _)%Hwf]%stamps_elem; done. Qed.

Lemma run_cdc_position_exists vs w : cdc_wf db ns (w_kv w) ->
  exists w', cdc_position_exists db ns vs env w
    = (Ok (bool_decide (vs = Versionstamp.zero \/ vs ∈ stamps (w_kv w))), w') /\ idle w w'.
Proof.
  intros Hwf. unfold cdc_position_exists, Versionstamp.is_zero. case_bool_decide as Hz.
  { rewrite bool_decide_eq_true_2 by auto. by exists w. }
  mrun Henv. exists (next_tick (next_tick w)). split; [|done].
  replace (bool_decide (vs = _ \/ _)) with (bool_decide (is_Some (kv_get (w_kv w) (prefix (cdc_subspace db ns) ++ vs)))); [reflexivity|].
  apply bool_decide_ext. rewrite stamps_elem by done. naive_solver.
Qed.

Lemma run_oldest_cdc_position w : cdc_wf db ns (w_kv w) ->
  exists w', oldest_cdc_position db ns env w = (Ok (head (stamps (w_kv w))), w') /\ idle w w'.
Proof.
  intros Hwf. unfold oldest_cdc_position. set (sub := cdc_subspace db ns).
  destruct (run_get_range_at env Henv (prefix sub) (Sub.range_end sub) 1 None w) as [n E]. unfold get_range.
  rewrite (bind_run _ _ _ _ _ _ E). cbn [snapshot]. pose proof (stamps_rows (w_kv w) Hwf) as Hs. fold sub in Hs.
  pose proof (stamps_wf (w_kv w)) as Hw. destruct (kv_range (w_kv w) (prefix sub) (Sub.range_end sub)) as [|[k v] rows];
    destruct (stamps (w_kv w)) as [|vs l]; try discriminate; cbn [take].
  { by eexists. }
  assert (k = prefix sub ++ vs) as -> by (cbn [map fst] in Hs; congruence). rewrite drop_app_length. destruct (Hw vs Hwf) as [Hl _]; [left|].
  destruct (Nat.ltb_spec (length (prefix sub ++ vs)) (length (prefix sub) + 10)) as [Hlt|_]; [rewrite length_app in Hlt; lia|].
  rewrite firstn_all2 by lia. unfold Versionstamp.from_bytes. rewrite decide_True by done. by eexists.
Qed.

Lemma run_validate_resume w b : cdc_wf db ns (w_kv w) -> length b = 10%nat ->
  exists r w', validate_resume_position db ns b env w = (r, w') /\ idle w w' /\
    r = (if bool_decide (b = Versionstamp.zero \/ b ∈ stamps (w_kv w)) then inl b
         else resolve_resume_position b false (head (stamps (w_kv w)))).
Proof.
  intros Hwf Hb. unfold validate_resume_position. destruct b as [|b0 b'] eqn:Eb; [done|]. cbn [parse_resume_after].
  rewrite <- Eb in Hb |- *. unfold Versionstamp.from_bytes. rewrite decide_True by done. cbn [of_sum]. rewrite run_gret.
  destruct (run_cdc_position_exists b w Hwf) as (w1 & E1 & Hw1).
  rewrite (gbind_run _ _ _ _ _ _ (run_call _ _ _ _ _ _ E1)). cbn [with_world world_has_world].
  case_bool_decide as Hex; [by eexists _, w1|].
  assert (cdc_wf db ns (w_kv w1)) as Hwf1 by (by destruct Hw1 as [-> _]).
  destruct (run_oldest_cdc_position w1 Hwf1) as (w2 & E2 & Hw2).
  rewrite (gbind_run _ _ _ _ _ _ (run_call _ _ _ _ _ _ E2)). cbn [with_world world_has_world].
  rewrite (proj1 Hw1). eexists _, w2. split; [|split; [by etrans|reflexivity]].
  unfold resolve_resume_position. by repeat case_match.
Qed.
End Resume.



(** ** Query subscriptions *)

(** The evaluation of a query filter on the properties of a node, for the schemas
    [conf]. *)
Section Sat.
Context `{CelEngine} (conf : string -> option EntitySchema).

Definition sat_cel (et : string) (props : Props) (cel : option string) : bool :=
  match cel with
  | None => true
  | Some cel =>
      if String.eqb (trim cel) "" then true else
      match conf et with
      | Some schema => match Cel.compile schema cel with
                       | Ok x => match Cel.evaluate x props with Ok b => b | Err _ => false end
                       | Err _ => false
                       end
      | None => false
      end
  end.

Definition sat (q : QueryFilter) (et : string) (props : Props) : bool :=
  query_scope_matches q et && sat_cel et props (qf_cel q) && sat_cel et props (pql_predicate q ≫= pql_cel).
End Sat.

(** The nodes described by a log, and the effect of an operation on them. *)
Abbreviation Nodes := (gmap (string * string) Props).

Definition apply_op (nodes : Nodes) (op : CdcOperation) : Nodes :=
  match op with
  | NodeCreate et id props _ => <[(et, id) := props]> nodes
  | NodeUpdate et id changed old => <[(et, id) := changed ∪ old]> nodes
  | NodeDelete et id => delete (et, id) nodes
  | _ => nodes
  end.

(** An operation that fits the nodes it is applied to: nodes are created once,
    updates carry the properties they replace, and identifiers have no colon. *)
Definition fits (nodes : Nodes) (op : CdcOperation) : Prop :=
  match op with
  | NodeCreate et id _ _ => nodes !! (et, id) = None /\ Byte.x3a ∉ sbytes id
  | NodeUpdate et id _ old => nodes !! (et, id) = Some old /\ Byte.x3a ∉ sbytes id
  | NodeDelete et id => is_Some (nodes !! (et, id)) /\ Byte.x3a ∉ sbytes id
  | EdgeCreate _ si _ ti _ _ _ => Byte.x3a ∉ sbytes si /\ Byte.x3a ∉ sbytes ti
  | EdgeDelete _ si _ ti _ => Byte.x3a ∉ sbytes si /\ Byte.x3a ∉ sbytes ti
  | OwnershipTransfer et id _ _ => Byte.x3a ∉ sbytes id
  | SchemaRegister _ _ _ => True
  end.

(** The node is in the result of the query. *)
Definition in_result (holds : string -> Props -> bool) (nodes : Nodes) (et id : string) : bool :=
  match nodes !! (et, id) with Some p => holds et p | None => false end.

(** The event a change of the result is reported by. *)
Definition change_event (before after deleted : bool) : list WatchEventType :=
  match before, after with
  | false, true => [WeEnter]
  | true, true => [WeUpdate]
  | true, false => [if deleted then WeDelete else WeExit]
  | false, false => []
  end.

(** What a query subscription is to report of an operation. *)
Definition expected (holds : string -> Props -> bool) (nodes : Nodes) (op : CdcOperation) : list WatchEventType :=
  let res := in_result holds nodes in
  let res' := in_result holds (apply_op nodes op) in
  match op with
  | NodeCreate et id _ _ => change_event (res et id) (res' et id) false
  | NodeUpdate et id _ _ => change_event (res et id) (res' et id) false
  | NodeDelete et id => change_event (res et id) (res' et id) true
  | OwnershipTransfer et id _ _ => change_event (res et id) (res' et id) false
  | EdgeCreate st si ty ti _ _ _ => if res st si || res ty ti then [WeUpdate] else []
  | EdgeDelete st si ty ti _ => if res st si || res ty ti then [WeDelete] else []
  | SchemaRegister _ _ _ => []
  end.

(** The matched set is the result of the query. *)
Definition tracks (holds : string -> Props -> bool) (matched : gset string) (nodes : Nodes) : Prop :=
  (forall et id, is_Some (nodes !! (et, id)) -> Byte.x3a ∉ sbytes id) /\
  forall k, k ∈ matched <-> exists et id, k = watch_key et id /\ in_result holds nodes et id = true.

Lemma app_last_inj {A} (c : A) a : forall a' b b', c ∉ b -> c ∉ b' -> a ++ c :: b = a' ++ c :: b' -> a = a' /\ b = b'.
Proof.
  induction a as [|x a IH]; intros [|x' a'] b b' Hb Hb' E; cbn [app] in E.
  - by injection E.
  - injection E as <- ->. destruct Hb. apply elem_of_app. right. left.
  - injection E as -> <-. destruct Hb'. apply elem_of_app. right. left.
  - injection E as <- E2. by destruct (IH a' b b' Hb Hb' E2) as [-> ->].
Qed.

Lemma watch_key_inj et id et' id' : Byte.x3a ∉ sbytes id -> Byte.x3a ∉ sbytes id' ->
  watch_key et id = watch_key et' id' -> (et, id) = (et', id').
Proof.
  intros Hi Hi' E%(f_equal sbytes). unfold watch_key in E. rewrite !sbytes_app in E.
  apply app_last_inj in E as [Et%(inj sbytes) Ei%(inj sbytes)]; [congruence|done..].
Qed.

Section Tracking.
Context (holds : string -> Props -> bool) (sub_id : string) (vs : Versionstamp.t).
Local Abbreviation tracks := (tracks holds).
Local Abbreviation in_result := (in_result holds).

(** [op_events] with the filter evaluated by [holds]. *)
Definition pure_events (filter : WatchFilter) (op : CdcOperation) (matched : gset string) : list WatchEvent * gset string :=
  op_events (F := fun A => A) (H := fun A a => a) (H0 := fun A B f m => f m) (fun _ => holds) sub_id vs filter op matched.

Lemma tracked_iff matched nodes et id : tracks matched nodes -> Byte.x3a ∉ sbytes id ->
  watch_key et id ∈ matched <-> in_result nodes et id = true.
Proof.
  intros [Hc Hm] Hi. rewrite Hm. split; [|by eauto]. intros (et' & id' & E & Hr).
  assert (Byte.x3a ∉ sbytes id') as Hi'.
  { apply (Hc et'). unfold in_result in Hr. destruct (nodes !! (et', id')); by eauto. }
  by apply watch_key_inj in E as [= -> ->].
Qed.

Lemma tracked_bool matched nodes et id : tracks matched nodes -> Byte.x3a ∉ sbytes id ->
  bool_decide (watch_key et id ∈ matched) = in_result nodes et id.
Proof.
  intros Ht Hi. pose proof (tracked_iff matched nodes et id Ht Hi) as Hk. case_bool_decide as Hd; symmetry; [by apply Hk|].
  apply not_true_is_false. tauto.
Qed.

(** A change of one node. *)
Lemma tracks_update matched nodes matched' nodes' et id : tracks matched nodes -> Byte.x3a ∉ sbytes id ->
  (forall i, i <> (et, id) -> nodes' !! i = nodes !! i) ->
  (forall k, k ∈ matched' <-> if decide (k = watch_key et id) then in_result nodes' et id = true else k ∈ matched) ->
  tracks matched' nodes'.
Proof.
  intros [Hc Hm] Hi Hn Hm'. split.
  - intros et' id'. destruct (decide ((et', id') = (et, id))) as [[= -> ->]|Hne]; [done|]. rewrite Hn by done. apply Hc.
  - intros k. rewrite Hm'. case_decide as Hk.
    + subst k. split; [by eauto|]. intros (et' & id' & E & Hr).
      destruct (decide ((et', id') = (et, id))) as [[= -> ->]|Hne]; [done|].
      assert (Byte.x3a ∉ sbytes id') as Hi'.
      { apply (Hc et'). unfold in_result in Hr. rewrite Hn in Hr by done. destruct (nodes !! (et', id')); by eauto. }
      by apply watch_key_inj in E as [= -> ->].
    + rewrite Hm. apply exist_proper. intros et'. apply exist_proper. intros id'.
      destruct (decide ((et', id') = (et, id))) as [[= -> ->]|Hne]; [tauto|]. unfold in_result. by rewrite Hn.
Qed.

Context (q : QueryFilter) (Hscope : forall et p, holds et p = true -> query_scope_matches q et = true).

Lemma out_of_scope nodes et id : query_scope_matches q et = false -> in_result nodes et id = false.
Proof.
  intros Hs. unfold in_result. destruct (nodes !! (et, id)) as [p|]; [|done]. apply not_true_is_false.
  intros Hh%Hscope. congruence.
Qed.

Lemma in_result_insert nodes et id p : in_result (<[(et, id) := p]> nodes) et id = holds et p.
Proof. unfold in_result. by rewrite lookup_insert_eq. Qed.
Lemma in_result_delete nodes et id : in_result (delete (et, id) nodes) et id = false.
Proof. unfold in_result. by rewrite lookup_delete_eq. Qed.

(** An operation leaves a tracked node as it is, or puts it in or out. *)
Lemma tracks_same matched nodes nodes' et id : tracks matched nodes -> Byte.x3a ∉ sbytes id ->
  (forall i, i <> (et, id) -> nodes' !! i = nodes !! i) -> in_result nodes' et id = in_result nodes et id ->
  tracks matched nodes'.
Proof.
  intros Ht Hi Hn Hr. eapply tracks_update; [done..|]. intros k. case_decide as Hk; [|done]. subst k.
  rewrite Hr. by apply tracked_iff.
Qed.

Lemma tracks_in matched nodes nodes' et id : tracks matched nodes -> Byte.x3a ∉ sbytes id ->
  (forall i, i <> (et, id) -> nodes' !! i = nodes !! i) -> in_result nodes' et id = true ->
  tracks ({[watch_key et id]} ∪ matched) nodes'.
Proof. intros Ht Hi Hn Hr. eapply tracks_update; [done..|]. intros k. case_decide; set_solver. Qed.

Lemma tracks_out matched nodes nodes' et id : tracks matched nodes -> Byte.x3a ∉ sbytes id ->
  (forall i, i <> (et, id) -> nodes' !! i = nodes !! i) -> in_result nodes' et id = false ->
  tracks (matched ∖ {[watch_key et id]}) nodes'.
Proof. intros Ht Hi Hn Hr. eapply tracks_update; [done..|]. intros k. rewrite Hr. case_decide; set_solver. Qed.

Lemma edge_scope_tracked matched nodes st si ty ti label : tracks matched nodes -> Byte.x3a ∉ sbytes si -> Byte.x3a ∉ sbytes ti ->
  matches_edge_scope (Query q) st si ty ti label && edge_tracked (Query q) matched st si ty ti
    = in_result nodes st si || in_result nodes ty ti.
Proof.
  intros Ht Hs Hi. cbn [matches_edge_scope edge_tracked]. rewrite !(tracked_bool _ nodes) by done.
  destruct (query_scope_matches q st) eqn:Es; [done|]. rewrite (out_of_scope nodes st si Es).
  destruct (query_scope_matches q ty) eqn:Et; [done|]. by rewrite (out_of_scope nodes ty ti Et).
Qed.

Lemma pure_events_track op matched nodes : tracks matched nodes -> fits nodes op ->
  tracks (pure_events (Query q) op matched).2 (apply_op nodes op) /\
  map ev_type (pure_events (Query q) op matched).1 = expected holds nodes op.
Proof.
  intros Ht Hf. pose proof (fun i (et id : string) (p : Props) (Hne : i <> (et, id)) =>
    lookup_insert_ne nodes (et, id) i p (not_eq_sym Hne)) as Hins.
  destruct op as [et id p home|et id ch old|et id|st si ty ti l eid p|st si ty ti l|et v sc|et id a b];
    cbn [fits apply_op expected] in *; unfold pure_events, op_events, mbind, mret; cbv beta zeta.
  - destruct Hf as [Hnone Hi]. assert (Hr : in_result nodes et id = false) by (unfold in_result; by rewrite Hnone).
    rewrite Hr, in_result_insert. cbn [matches_node_scope].
    destruct (query_scope_matches q et) eqn:Es; cbn [negb]; [destruct (holds et p) eqn:Eh|].
    + split; [|done]. eapply tracks_in; eauto. by rewrite in_result_insert.
    + split; [|done]. eapply tracks_same; eauto. by rewrite in_result_insert, Hr.
    + assert (holds et p = false) as Eh by (apply not_true_is_false; intros ?%Hscope; congruence). rewrite Eh.
      split; [|done]. eapply tracks_same; eauto. by rewrite in_result_insert, Hr.
  - destruct Hf as [Hold Hi]. assert (Hr : in_result nodes et id = holds et old) by (unfold in_result; by rewrite Hold).
    rewrite Hr, in_result_insert. cbn [matches_node_update_scope matches_node_scope].
    destruct (query_scope_matches q et) eqn:Es; cbn [negb].
    + rewrite (tracked_bool _ nodes) by done. rewrite Hr, orb_diag.
      destruct (holds et old) eqn:Eo, (holds et (ch ∪ old)) eqn:En; (split; [|done]).
      * eapply tracks_in; eauto. by rewrite in_result_insert.
      * eapply tracks_out; eauto. by rewrite in_result_insert.
      * eapply tracks_in; eauto. by rewrite in_result_insert.
      * eapply tracks_same; eauto. by rewrite in_result_insert, En, Hr.
    + pose proof (out_of_scope nodes et id Es) as Ho. rewrite Hr in Ho. rewrite Ho.
      assert (holds et (ch ∪ old) = false) as En by (apply not_true_is_false; intros ?%Hscope; congruence).
      rewrite En. split; [|done]. eapply tracks_same; eauto. by rewrite in_result_insert, En, Hr, Ho.
  - destruct Hf as [_ Hi]. rewrite in_result_delete. cbn [matches_node_scope].
    assert (Hd : forall i, i <> (et, id) -> delete (et, id) nodes !! i = nodes !! i) by (intros i Hne; by apply lookup_delete_ne).
    destruct (query_scope_matches q et) eqn:Es; cbn [negb].
    + rewrite (tracked_bool _ nodes) by done. destruct (in_result nodes et id) eqn:Er; (split; [|done]).
      * eapply tracks_out; eauto. apply in_result_delete.
      * eapply tracks_same; eauto. by rewrite in_result_delete, Er.
    + rewrite (out_of_scope nodes et id Es). split; [|done]. eapply tracks_same; eauto.
      by rewrite in_result_delete, out_of_scope.
  - destruct Hf as [Hs Hi]. rewrite <- (edge_scope_tracked matched nodes st si ty ti l Ht Hs Hi).
    destruct (matches_edge_scope _ _ _ _ _ _); [|done]. by destruct (edge_tracked _ _ _ _ _ _).
  - destruct Hf as [Hs Hi]. rewrite <- (edge_scope_tracked matched nodes st si ty ti l Ht Hs Hi).
    destruct (matches_edge_scope _ _ _ _ _ _); [|done]. by destruct (edge_tracked _ _ _ _ _ _).
  - done.
  - cbn [matches_node_scope]. rewrite (tracked_bool _ nodes) by done.
    destruct (query_scope_matches q et) eqn:Es; cbn [negb].
    + by destruct (in_result nodes et id).
    + by rewrite (out_of_scope nodes et id Es).
Qed.
End Tracking.

(** ** Running an operation *)

Lemma sat_scope `{CelEngine} conf q et p : sat conf q et p = true -> query_scope_matches q et = true.
Proof. unfold sat. by intros [[? _]%andb_true_iff _]%andb_true_iff. Qed.

Section RunOp.
Context {S : Type} `{FdbLaws S} `{Cbor EntitySchema} `{CelEngine}.
Context (env : Env) (Henv : no_faults env) (db ns : string) (conf : string -> option EntitySchema).
Implicit Types w : World S.
Local Abbreviation served := (served db ns conf).

(** The schemas of the types the filter evaluates on are registered. *)
Definition known (filter : WatchFilter) (op : CdcOperation) : Prop :=
  match filter, op with
  | Query q, NodeCreate et _ _ _ => query_scope_matches q et = true -> is_Some (conf et)
  | Query q, NodeUpdate et _ _ _ => query_scope_matches q et = true -> is_Some (conf et)
  | _, _ => True
  end.

(** A run that gives [a] and changes at most the schema cache. *)
Definition gives {A} (m : M S A) (a : A) : Prop :=
  forall w, served w -> exists w', m env w = (Ok a, w') /\ same_store w w' /\ served w'.

Lemma gives_ret {A} (a : A) : gives (mret a) a.
Proof. intros w Hw. by exists w. Qed.

Lemma gives_bind {A B} (m : M S A) (f : A -> M S B) a b : gives m a -> gives (f a) b -> gives (m ≫= f) b.
Proof.
  intros Hm Hf w Hw. destruct (Hm w Hw) as (w1 & E1 & Hs1 & Hw1). destruct (Hf w1 Hw1) as (w2 & E2 & Hs2 & Hw2).
  exists w2. rewrite (bind_run _ _ _ _ _ _ E1). split; [done|]. split; [by etrans|done].
Qed.

Lemma gives_evaluate_cel et cel props : is_Some (conf et) ->
  gives (evaluate_cel db ns et cel props) (sat_cel conf et props (Some cel)).
Proof.
  intros [sc Hc]. unfold evaluate_cel, sat_cel. destruct (String.eqb (trim cel) ""); [apply gives_ret|].
  apply gives_bind with (Ok (Some sc)).
  - intros w Hw. destruct (run_get_schema_served env Henv db ns conf w et sc Hw Hc) as (w' & E & Hs & Hw').
    exists w'. split; [|done]. unfold attempt. by rewrite E.
  - rewrite Hc. destruct (Cel.compile sc cel); apply gives_ret.
Qed.

Lemma gives_query_matches q et props : (query_scope_matches q et = true -> is_Some (conf et)) ->
  gives (query_matches_node q db ns et props) (sat conf q et props).
Proof.
  intros Hk. unfold query_matches_node, sat. destruct (query_scope_matches q et) eqn:Es; cbn [negb andb]; [|apply gives_ret].
  apply gives_bind with (sat_cel conf et props (qf_cel q)).
  { destruct (qf_cel q); [by apply gives_evaluate_cel; auto|apply gives_ret]. }
  destruct (sat_cel conf et props (qf_cel q)); cbn [negb andb]; [|apply gives_ret].
  destruct (pql_predicate q) as [p|]; [|apply gives_ret]. cbn [mbind option_bind].
  destruct (pql_cel p); [by apply gives_evaluate_cel; auto|apply gives_ret].
Qed.

Definition holds_of (filter : WatchFilter) : string -> Props -> bool :=
  match filter with Query q => sat conf q | _ => fun _ _ => true end.

Lemma gives_op_events sub_id vs filter op matched : known filter op ->
  gives (cdc_op_to_watch_events sub_id vs op filter db ns matched) (pure_events (holds_of filter) sub_id vs filter op matched).
Proof.
  intros Hk. unfold cdc_op_to_watch_events, pure_events, op_events.
  destruct op as [et id p home|et id ch old|et id|st si ty ti l eid p|st si ty ti l|et v sc|et id a b].
  - destruct (negb _); [apply gives_ret|]. destruct filter as [? ?|q|]; [apply gives_ret| |apply gives_ret].
    eapply gives_bind; [by apply gives_query_matches|]. cbn [holds_of]. unfold mbind, mret.
    destruct (sat conf q et p); apply gives_ret.
  - destruct (negb _); [apply gives_ret|]. destruct filter as [? ?|q|]; [apply gives_ret| |apply gives_ret].
    eapply gives_bind; [by apply gives_query_matches|]. eapply gives_bind; [by apply gives_query_matches|].
    apply gives_ret.
  - destruct (negb _); [apply gives_ret|]. destruct filter as [? ?|q|]; [apply gives_ret| |apply gives_ret].
    destruct (bool_decide _); apply gives_ret.
  - destruct (negb _); [apply gives_ret|]. destruct (negb _); apply gives_ret.
  - destruct (negb _); [apply gives_ret|]. destruct (negb _); apply gives_ret.
  - apply gives_ret.
  - destruct (negb _); [apply gives_ret|]. destruct filter as [? ?|q|]; [apply gives_ret| |apply gives_ret].
    destruct (negb _); apply gives_ret.
Qed.
End RunOp.

(** The matched set of a query subscription is exactly the set of nodes
    that satisfy the query, and the events are exactly its changes.  Applied to an
    operation that fits the nodes described by the log so far, the handler keeps
    the matched set equal to the result of the query and reports Enter, Update,
    Exit or Delete according to whether the node was and is in the result; an edge
    operation is reported when an endpoint is in the result. *)
Theorem query_watch_tracks {S} `{FdbLaws S} `{Cbor EntitySchema} `{CelEngine} (env : Env) (db ns : string)
    (conf : string -> option EntitySchema) (w : World S) (q : QueryFilter) (sub_id : string) (vs : Versionstamp.t)
    (op : CdcOperation) (matched : gset string) (nodes : Nodes) :
  no_faults env -> served db ns conf w -> known conf (Query q) op -> fits nodes op ->
  tracks (sat conf q) matched nodes ->
  exists events matched' w',
    cdc_op_to_watch_events sub_id vs op (Query q) db ns matched env w = (Ok (events, matched'), w') /\
    same_store w w' /\ served db ns conf w' /\
    tracks (sat conf q) matched' (apply_op nodes op) /\
    map ev_type events = expected (sat conf q) nodes op.
Proof.
  intros Henv Hw Hk Hf Ht. destruct (gives_op_events env Henv db ns conf sub_id vs (Query q) op matched Hk w Hw) as (w' & E & Hs & Hw').
  destruct (pure_events_track (sat conf q) sub_id vs q (sat_scope conf q) op matched nodes Ht Hf) as [Ht' He].
  cbn [holds_of] in E. destruct (pure_events _ _ _ _ _ _) as [events matched'].
  exists events, matched', w'. done.
Qed.
