(* ===== verification/WatchDeliver.v ===== *)
(** * Watches: delivery

    The task of a subscription runs next to writers that append to the log, to
    other tasks and to the consumer of its channel.  The theorems hold for every
    interleaving: what the task has put into the channel is determined by the part
    of the log it has read. *)

From S2P Require Import Prelude Bytes Text Errors Types Encoding Subspace SchemaTypes Fdb MemFdb Cdc Consumer Jobs SchemaRegistry.
From S2P Require Import Node NodeSpec EdgeCascade Predicate Cel NodeDelete Rows Replication Security Service Auth Pql.
From S2P Require Import WatchState Watch WatchLoop WatchSpec.

(** ** The events of the log *)

Section LogEvents.
Context (holds : string -> Props -> bool) (sub_id : string) (filter : WatchFilter).

Fixpoint ops_of (vs : Versionstamp.t) (ops : list CdcOperation) (matched : gset string) : list WatchEvent * gset string :=
  match ops with
  | [] => ([], matched)
  | op :: ops' =>
      let r := pure_events holds sub_id vs filter op matched in
      let r' := ops_of vs ops' r.2 in
      (r.1 ++ r'.1, r'.2)
  end.

(** The events of the entries, and the matched set after them. *)
Fixpoint log_events (entries : list (Versionstamp.t * CdcEntry)) (matched : gset string) : list WatchEvent * gset string :=
  match entries with
  | [] => ([], matched)
  | (vs, e) :: rest =>
      let r := ops_of vs (operations e) matched in
      let r' := log_events rest r.2 in
      (r.1 ++ r'.1, r'.2)
  end.

Lemma log_events_app l l' m :
  log_events (l ++ l') m = ((log_events l m).1 ++ (log_events l' (log_events l m).2).1, (log_events l' (log_events l m).2).2).
Proof.
  revert m. induction l as [|[vs e] l IH]; intros m; cbn [app log_events]; [cbn; by destruct (log_events l' m)|].
  rewrite IH. cbn. by rewrite app_assoc.
Qed.

Lemma pure_events_data vs op m : Forall (fun ev => ev_type ev <> WeHeartbeat) (pure_events holds sub_id vs filter op m).1.
Proof.
  unfold pure_events, op_events, mbind, mret. destruct op; cbv beta zeta;
    repeat match goal with
           | |- context [match ?x with _ => _ end] => destruct x
           end; repeat constructor; done.
Qed.
End LogEvents.

(** ** What has been delivered *)

Definition data_event (x : WatchEvent + Status) : option WatchEvent :=
  match x with
  | inl e => if decide (ev_type e = WeHeartbeat) then None else Some e
  | inr _ => None
  end.

(** The events of the log among what was put into the channel. *)
Definition delivered (t : Task) : list WatchEvent := omap data_event (tk_out t).

Lemma omap_data l : Forall (fun ev => ev_type ev <> WeHeartbeat) l -> omap data_event (map inl l) = l.
Proof. induction 1 as [|e l He _ IH]; [done|]. cbn. rewrite decide_False by done. cbn. by rewrite IH. Qed.

Section Turn.
Context {S : Type} `{FdbLaws S} `{Cbor EntitySchema} `{Cbor NodeData} `{CborLaws CdcEntry canon_entry storable_entry}.
Context `{CborLaws QueryWatchState id (fun _ => True)} `{CelEngine}.
Context (env : Env) (Henv : no_faults env) (chan : nat -> Chan) (filter : WatchFilter).
Context (db ns sub_id : string) (conf : string -> option EntitySchema).
Local Abbreviation W := (WatchWorld S).
Implicit Types (x y : W) (t : Task).
Local Abbreviation holds := (holds_of conf filter).
Local Abbreviation served := (served db ns conf).

(** The consumer keeps up. *)
Definition roomy : Prop := forall n, chan n = Room.

(** The task belongs to the subscription. *)
Definition owns t : Prop :=
  wc_subscription_id (tk_ctx t) = sub_id /\ wc_database (tk_ctx t) = db /\ wc_namespace (tk_ctx t) = ns.

(** [moved x x' after m evs]: the part of the turn from [x] to [x'] has changed
    the log by nothing, left the task at position [after] with matched set [m],
    and put the events [evs] into the channel, or some of them if it had no room. *)
Record moved x x' (after : Versionstamp.t) (m : gset string) (evs : list WatchEvent) : Prop := {
  mv_log : forall r, kv_get (w_kv (ww_world x')) (prefix (cdc_subspace db ns) ++ r) = kv_get (w_kv (ww_world x)) (prefix (cdc_subspace db ns) ++ r);
  mv_stamp : kv_stamp (w_kv (ww_world x')) = kv_stamp (w_kv (ww_world x));
  mv_served : served (ww_world x) -> served (ww_world x');
  mv_ctx : tk_ctx (ww_task x') = set_after (tk_ctx (ww_task x)) after;
  mv_matched : tk_matched (ww_task x') = m;
  mv_out : exists d, delivered (ww_task x') = delivered (ww_task x) ++ d /\ sublist d evs /\ (roomy -> d = evs)
}.

Lemma set_after_same c : set_after c (wc_after c) = c.
Proof. by destruct c. Qed.

Lemma moved_refl x : moved x x (wc_after (tk_ctx (ww_task x))) (tk_matched (ww_task x)) [].
Proof. split; try done; [by rewrite set_after_same|]. exists []. by rewrite app_nil_r. Qed.

Lemma moved_trans x y z a m evs a' m' evs' : moved x y a m evs -> moved y z a' m' evs' -> moved x z a' m' (evs ++ evs').
Proof.
  intros [] []. split; [congruence|congruence|auto|..].
  - rewrite mv_ctx1, mv_ctx0. done.
  - done.
  - destruct mv_out0 as (d & E & Hs & Hr), mv_out1 as (d' & E' & Hs' & Hr'). exists (d ++ d').
    rewrite E', E, app_assoc. split; [done|]. split; [by apply sublist_app|]. intros Hroom. by rewrite Hr, Hr'.
Qed.

Lemma run_task {A B} (f : Task -> A) (k : A -> G W B) x : (task f ≫= k) env x = k (f (ww_task x)) env x.
Proof. reflexivity. Qed.
Lemma run_on_task {B} (f : Task -> Task) (k : unit -> G W B) x :
  (on_task f ≫= k) env x = k tt env (mkWatchWorld (ww_world x) (ww_registry x) (ww_stopped x) (f (ww_task x))).
Proof. reflexivity. Qed.

Lemma run_clock {B} (k : Z -> G W B) x :
  (clock ≫= k) env x = k (env_now env (w_tick (ww_world x))) env
    (mkWatchWorld (next_tick (ww_world x)) (ww_registry x) (ww_stopped x) (ww_task x)).
Proof. reflexivity. Qed.

(** A handler that ends with a flag: when it goes on it has moved. *)
Definition goes (m : G W bool) x (after : Versionstamp.t) (mt : gset string) (evs : list WatchEvent) : Prop :=
  exists go x', m env x = (inl go, x') /\ (go = true -> moved x x' after mt evs) /\ (roomy -> go = true).

Lemma try_dispatch_run ev mx x :
  exists r x', try_dispatch_watch_event chan ev mx env x = (inl r, x') /\
    match chan (tk_sends (ww_task x)) with
    | Room => r = Sent /\ tk_out (ww_task x') = tk_out (ww_task x) ++ [inl ev]
    | Full => (r = Backpressured \/ exists s, r = DropSubscription s) /\ tk_out (ww_task x') = tk_out (ww_task x)
    | Closed => r = ConsumerClosed
    end /\
    (r = Sent \/ r = Backpressured ->
     ww_world x' = ww_world x /\ tk_ctx (ww_task x') = tk_ctx (ww_task x) /\ tk_matched (ww_task x') = tk_matched (ww_task x)).
Proof.
  unfold try_dispatch_watch_event, try_send, task, on_task, mbind, mret, G_bind, G_ret, gets, modify.
  destruct (chan (tk_sends (ww_task x))); cbn.
  - eexists _, _. split; [reflexivity|]. done.
  - destruct (mx <=? _); (eexists _, _; split; [reflexivity|]); cbn; rewrite app_nil_r; eauto 10.
  - eexists _, _. split; [reflexivity|]. by split; [|intros [?|?]].
Qed.

(** The paths that end the task. *)
Lemma run_finish_end {A} (m : G W A) x :
  (exists a x', m env x = (inl a, x')) -> exists x', (m ;; finish filter ;; mret false) env x = (inl false, x').
Proof.
  intros (a & x1 & E). rewrite (gbind_run _ _ _ _ _ _ E). unfold finish, persist, task, ignore, try_call, mbind, mret, G_bind, G_ret, gets, modify.
  destruct (persist_query_watch_state filter (tk_ctx (ww_task x1)) (tk_matched (ww_task x1)) env (world_of x1)) as [r w].
  cbn. by eexists.
Qed.

Lemma run_end x : exists x', (finish filter ;; mret false) env x = (inl false, x').
Proof. exact (run_finish_end (mret tt) x (ex_intro _ tt (ex_intro _ x eq_refl))). Qed.

Lemma run_send_some v x : exists a x', send chan v env x = (inl a, x').
Proof.
  unfold send, task, on_task, mbind, mret, G_bind, G_ret, gets, modify. destruct (chan _); by eexists _, _.
Qed.

Lemma delivered_app t t' d : Forall (fun ev => ev_type ev <> WeHeartbeat) d ->
  tk_out t' = tk_out t ++ map inl d -> delivered t' = delivered t ++ d.
Proof. intros Hd E. unfold delivered. by rewrite E, omap_app, omap_data. Qed.

Lemma dispatch_goes events : Forall (fun ev => ev_type ev <> WeHeartbeat) events -> forall x,
  goes (dispatch_all chan filter events) x (wc_after (tk_ctx (ww_task x))) (tk_matched (ww_task x)) events.
Proof.
  induction 1 as [|ev events Hev _ IH]; intros x; cbn [dispatch_all].
  { eexists true, x. split; [reflexivity|]. split; [|done]. intros _. apply moved_refl. }
  destruct (try_dispatch_run ev (wc_max_dropped_events (tk_ctx (ww_task x))) x) as (r & x1 & E1 & Hr & Hk).
  unfold goes. rewrite run_task, (gbind_run _ _ _ _ _ _ E1).
  assert (Hgo : r = Sent \/ r = Backpressured ->
    goes (dispatch_all chan filter events) x1 (wc_after (tk_ctx (ww_task x))) (tk_matched (ww_task x)) events /\
    moved x x1 (wc_after (tk_ctx (ww_task x))) (tk_matched (ww_task x)) (match r with Sent => [ev] | _ => [] end)).
  { intros Hor. destruct (Hk Hor) as (Hw & Hc & Hm). split; [rewrite <- Hc, <- Hm; apply IH|].
    split; rewrite ?Hw, ?Hc; [done..|by rewrite set_after_same|done|].
    exists (match r with Sent => [ev] | _ => [] end). split; [|done]. apply delivered_app; [destruct r; by repeat constructor|].
    destruct (chan _); [by destruct Hr as [-> ->]| |destruct Hor; simplify_eq]. destruct Hr as [[->|[s ->]] ->]; by rewrite app_nil_r. }
  destruct r.
  - destruct Hgo as [(go & x2 & E2 & Hmv & Hroom) Hmv1]; [by left|]. exists go, x2. split; [done|]. split; [|done].
    intros Hg. apply (moved_trans _ _ _ _ _ [ev] _ _ events Hmv1), Hmv, Hg.
  - destruct Hgo as [(go & x2 & E2 & Hmv & Hroom) Hmv1]; [by right|]. exists go, x2. split; [done|].
    destruct (chan (tk_sends (ww_task x))) eqn:Ech; [by destruct Hr| |done]. split; [|intros Hro; by rewrite Hro in Ech].
    intros Hg. destruct (moved_trans _ _ _ _ _ [] _ _ events Hmv1 (Hmv Hg)) as [? ? ? ? ? (d & Hd & Hs & _)].
    split; [done..|]. exists d. split; [done|]. split; [by apply sublist_cons|]. intros Hro. by rewrite Hro in Ech.
  - destruct (run_finish_end (send chan (inr s)) x1) as [x2 E2]; [apply run_send_some|]. exists false, x2.
    split; [exact E2|]. split; [done|]. intros Hro. rewrite Hro in Hr. by destruct Hr.
  - destruct (run_end x1) as [x2 E2]. exists false, x2. split; [exact E2|]. split; [done|].
    intros Hro. rewrite Hro in Hr. by destruct Hr.
Qed.

Lemma goes_after (m n : G W bool) x x1 a mt evs a' mt' evs' :
  m env x = n env x1 -> moved x x1 a mt evs -> goes n x1 a' mt' evs' -> goes m x a' mt' (evs ++ evs').
Proof.
  intros E Hmv (go & x2 & E2 & Hg & Hroom). exists go, x2. rewrite E. split; [done|]. split; [|done].
  intros Ht. by eapply moved_trans; [|apply Hg].
Qed.

Lemma goes_seq (m n : G W bool) x a mt evs a' mt' evs' :
  goes m x a mt evs -> (forall x1, moved x x1 a mt evs -> goes n x1 a' mt' evs') ->
  goes (go ← m; if go : bool then n else mret false) x a' mt' (evs ++ evs').
Proof.
  intros (go & x1 & E & Hg & Hroom) Hn. unfold goes. rewrite (gbind_run _ _ _ _ _ _ E). destruct go.
  - destruct (Hn x1 (Hg eq_refl)) as (go' & x2 & E2 & Hg' & Hroom'). exists go', x2. split; [done|]. split; [|done].
    intros Ht. by eapply moved_trans; [apply Hg|apply Hg'].
  - exists false, x1. split; [done|]. split; [done|]. intros Hro. by specialize (Hroom Hro).
Qed.

(** The task stays the task of its subscription. *)
Lemma moved_owns x x' a mt evs : moved x x' a mt evs -> owns (ww_task x) -> owns (ww_task x').
Proof. intros [_ _ _ Hc _ _]. unfold owns. by rewrite Hc. Qed.
Lemma moved_after x x' a mt evs : moved x x' a mt evs -> wc_after (tk_ctx (ww_task x')) = a.
Proof. intros [_ _ _ Hc _ _]. by rewrite Hc. Qed.

Lemma process_op_goes vs op x : owns (ww_task x) -> served (ww_world x) -> known conf filter op ->
  let r := pure_events holds sub_id vs filter op (tk_matched (ww_task x)) in
  goes (process_op chan filter vs op) x (wc_after (tk_ctx (ww_task x))) r.2 r.1.
Proof.
  intros (Hid & Hdb & Hns) Hsv Hk r. unfold process_op, goes. rewrite !run_task.
  rewrite Hid, Hdb, Hns.
  destruct (gives_op_events env Henv db ns conf sub_id vs filter op (tk_matched (ww_task x)) Hk (ww_world x) Hsv) as (w1 & E1 & Hs1 & Hsv1).
  rewrite (gbind_run _ _ _ _ _ _ (run_call into_status _ env x _ w1 E1)). fold r. rewrite run_on_task.
  set (x1 := mkWatchWorld w1 (ww_registry x) (ww_stopped x) (tk_set_matched (ww_task x) r.2)).
  destruct (dispatch_goes r.1 (pure_events_data holds sub_id filter vs op _) x1) as (go & x2 & E2 & Hg & Hroom).
  exists go, x2. split; [exact E2|]. split; [|done]. intros Ht.
  refine (moved_trans x x1 x2 (wc_after (tk_ctx (ww_task x))) r.2 [] _ _ r.1 _ (Hg Ht)).
  destruct Hs1 as (Hkv & _ & _). split; cbn [ww_world ww_task x1]; rewrite ?Hkv; [done..|by rewrite set_after_same|done|].
  exists []. by rewrite app_nil_r.
Qed.

Lemma process_ops_goes vs ops : forall x, owns (ww_task x) -> served (ww_world x) -> Forall (known conf filter) ops ->
  let r := ops_of holds sub_id filter vs ops (tk_matched (ww_task x)) in
  goes (process_ops chan filter vs ops) x (wc_after (tk_ctx (ww_task x))) r.2 r.1.
Proof.
  induction ops as [|op ops IH]; intros x Ho Hsv Hk; cbn [process_ops ops_of].
  { eexists true, x. split; [reflexivity|]. split; [|done]. intros _. apply moved_refl. }
  inversion_clear Hk as [|? ? Hk1 Hk2]. cbn [fst snd].
  eapply goes_seq; [by apply process_op_goes|]. intros x1 Hmv.
  rewrite <- (mv_matched _ _ _ _ _ Hmv), <- (moved_after _ _ _ _ _ Hmv).
  apply IH; [by eapply moved_owns|by apply (mv_served _ _ _ _ _ Hmv)|done].
Qed.

(** The position after some entries. *)
Definition pos_after (entries : list (Versionstamp.t * CdcEntry)) (p : Versionstamp.t) : Versionstamp.t :=
  match last entries with Some e => e.1 | None => p end.

Lemma process_entries_goes entries : forall x, owns (ww_task x) -> served (ww_world x) ->
  Forall (fun e => Forall (known conf filter) (operations e.2)) entries ->
  let r := log_events holds sub_id filter entries (tk_matched (ww_task x)) in
  goes (process_entries chan filter entries) x (pos_after entries (wc_after (tk_ctx (ww_task x)))) r.2 r.1.
Proof.
  induction entries as [|[vs e] entries IH]; intros x Ho Hsv Hk; cbn [process_entries log_events].
  { eexists true, x. split; [reflexivity|]. split; [|done]. intros _. apply moved_refl. }
  inversion_clear Hk as [|? ? Hk1 Hk2]. cbn [fst snd].
  set (x1 := mkWatchWorld (ww_world x) (ww_registry x) (ww_stopped x) (tk_set_ctx (ww_task x) (set_after (tk_ctx (ww_task x)) vs))).
  apply (goes_after _ (go ← process_ops chan filter vs (operations e); if go : bool then process_entries chan filter entries else mret false)
    x x1 vs (tk_matched (ww_task x)) []); [reflexivity| |].
  { split; try done. exists []. by rewrite app_nil_r. }
  assert (owns (ww_task x1)) as Ho1 by exact Ho.
  eapply goes_seq; [exact (process_ops_goes vs (operations e) x1 Ho1 Hsv Hk1)|]. intros x2 Hmv.
  replace (pos_after ((vs, e) :: entries) (wc_after (tk_ctx (ww_task x)))) with (pos_after entries vs)
    by (unfold pos_after; rewrite last_cons; by destruct (last entries)).
  pose proof (moved_after _ _ _ _ _ Hmv) as Ha. pose proof (mv_matched _ _ _ _ _ Hmv) as Hm.
  change (wc_after (tk_ctx (ww_task x1))) with vs in Ha. change (tk_matched (ww_task x1)) with (tk_matched (ww_task x)) in Hm.
  rewrite <- Hm. replace (pos_after entries vs) with (pos_after entries (wc_after (tk_ctx (ww_task x2)))) by by rewrite Ha.
  apply IH; [by eapply moved_owns|by apply (mv_served _ _ _ _ _ Hmv)|done].
Qed.

Lemma persist_moved x :
  exists x', persist filter env x = (inl tt, x') /\ moved x x' (wc_after (tk_ctx (ww_task x))) (tk_matched (ww_task x)) [].
Proof.
  unfold persist. rewrite !run_task. unfold persist_query_watch_state.
  assert (Hid : exists x', ignore (mret tt) env x = (inl tt, x') /\ moved x x' (wc_after (tk_ctx (ww_task x))) (tk_matched (ww_task x)) []).
  { exists x. split; [|apply moved_refl]. by destruct x. }
  destruct filter as [? ?|q|]; [done| |done]. destruct (query_state_id (tk_ctx (ww_task x))) as [id|]; [|done]. clear Hid.
  destruct (run_upsert_watch_state env Henv (wc_database (tk_ctx (ww_task x))) (wc_namespace (tk_ctx (ww_task x))) id
    (wc_after (tk_ctx (ww_task x))) (tk_matched (ww_task x)) (ww_world x)) as (w' & E & _ & Hk & Hst & Hc).
  eexists. split; [exact (run_ignore _ env x _ w' E)|].
  split; cbn [ww_world ww_task with_world watch_has_world]; [..|by rewrite set_after_same|done|].
  - intros r. apply Hk. apply watch_state_key_ne; [marker|done].
  - done.
  - apply served_frame; [|done]. intros r. apply Hk. apply watch_state_key_ne; [marker|done].
  - exists []. by rewrite app_nil_r.
Qed.

Lemma delivered_sent t l h : delivered (tk_set_heartbeat (tk_sent t l) h) = delivered t ++ omap data_event l.
Proof. unfold delivered. cbn. apply omap_app. Qed.

Lemma heartbeat_moved x :
  exists x', heartbeat chan env x = (inl tt, x') /\ moved x x' (wc_after (tk_ctx (ww_task x))) (tk_matched (ww_task x)) [] /\
    same_store (ww_world x) (ww_world x').
Proof.
  unfold heartbeat. rewrite run_clock, !run_task.
  set (x1 := mkWatchWorld (next_tick (ww_world x)) (ww_registry x) (ww_stopped x) (ww_task x)).
  assert (Hmv : forall t, tk_ctx t = tk_ctx (ww_task x) -> tk_matched t = tk_matched (ww_task x) -> delivered t = delivered (ww_task x) ->
    moved x (mkWatchWorld (next_tick (ww_world x)) (ww_registry x) (ww_stopped x) t) (wc_after (tk_ctx (ww_task x))) (tk_matched (ww_task x)) []).
  { intros t Hc Hm Hd. split; cbn [ww_world ww_task]; [done|done|..]; [|by rewrite Hc, set_after_same|done|].
    - by apply served_frame.
    - exists []. by rewrite app_nil_r. }
  destruct (_ <=? _).
  - unfold try_send. destruct (chan (tk_sends (ww_task x1))) eqn:Ec.
    all: eexists; split; [unfold task, on_task, mbind, mret, G_bind, G_ret, gets, modify; rewrite Ec; reflexivity|].
    all: split; [|done]; apply Hmv; try done.
    all: etrans; [apply delivered_sent|apply app_nil_r].
  - exists x1. split; [done|]. split; [|done]. by apply Hmv.
Qed.

Local Abbreviation log x := (cdc_log db ns (w_kv (ww_world x))).
Local Abbreviation wf x := (cdc_wf db ns (w_kv (ww_world x))).
Local Abbreviation position x := (wc_after (tk_ctx (ww_task x))).

Lemma moved_log x x' a mt evs : moved x x' a mt evs -> wf x -> wf x' /\ log x' = log x.
Proof.
  intros [Hl Hst _ _ _ _] Hwf. split; [by eapply cdc_wf_frame|]. by apply cdc_log_frame.
Qed.

(** The rows after a position. *)
Definition unread x (p : Versionstamp.t) : list (Versionstamp.t * CdcEntry) := log_after db ns (w_kv (ww_world x)) (Some p).

Definition serves_filter x : Prop :=
  served (ww_world x) /\ wf x /\ Forall (fun e => Forall (known conf filter) (operations e.2)) (log x).

Lemma unread_known x p : serves_filter x -> Forall (fun e => Forall (known conf filter) (operations e.2)) (unread x p).
Proof.
  intros (_ & _ & Hk). rewrite Forall_forall in Hk |- *. intros e. unfold unread, log_after.
  rewrite list_elem_of_filter. intros [_ He]. by apply Hk.
Qed.

(** Reading the next entries and processing them. *)
Lemma read_goes x : owns (ww_task x) -> serves_filter x -> length (position x) = 10%nat -> position x <> STAMP_MAX ->
  let es := firstn 256 (unread x (position x)) in
  let r := log_events holds sub_id filter es (tk_matched (ww_task x)) in
  goes (c ← task tk_ctx;
        r ← try_call (read_cdc_entries (wc_database c) (wc_namespace c) (Some (wc_after c)) 256);
        match r with
        | Ok [] => mret true
        | Ok entries => go ← process_entries chan filter entries; if go : bool then persist filter ;; mret true else mret false
        | Err err => send chan (inr (St.internal ("watch dispatcher failed: " ++ display err))) ;; finish filter ;; mret false
        end) x (pos_after es (position x)) r.2 r.1.
Proof.
  intros Ho Hs Hl Hmax es r. pose proof Ho as (_ & Hdb & Hns). destruct Hs as (Hsv & Hwf & Hk) eqn:Es. clear Es.
  unfold goes. rewrite run_task, Hdb, Hns.
  destruct (run_read_cdc_entries db ns env (ww_world x) (Some (position x)) 256 Henv Hwf) as [n E];
    [by intros vs [= <-]|]. fold (unread x (position x)) es in E.
  rewrite (gbind_run _ _ _ _ _ _ (run_try_call _ env x _ _ E)). set (x1 := with_world x _).
  assert (Hmv1 : moved x x1 (position x) (tk_matched (ww_task x)) []).
  { split; cbn; [done|done|by apply served_frame|by rewrite set_after_same|done|exists []; by rewrite app_nil_r]. }
  assert (Hsv1 : served (ww_world x1)) by by apply (mv_served _ _ _ _ _ Hmv1).
  assert (Hr : r = log_events holds sub_id filter es (tk_matched (ww_task x))) by reflexivity. clearbody r.
  destruct es as [|e0 es'] eqn:Ees.
  { subst r. eexists true, x1. split; [reflexivity|]. done. }
  assert (Hkes : Forall (fun e => Forall (known conf filter) (operations e.2)) es).
  { subst es. apply Forall_take, unread_known. done. }
  rewrite <- Ees in *.
  destruct (process_entries_goes es x1 Ho Hsv1 Hkes) as (go & x2 & E2 & Hg & Hroom).
  change (tk_matched (ww_task x1)) with (tk_matched (ww_task x)) in Hg. rewrite <- Hr in Hg.
  rewrite (gbind_run _ _ _ _ _ _ E2). destruct go.
  - destruct (persist_moved x2) as (x3 & E3 & Hmv3). rewrite (gbind_run _ _ _ _ _ _ E3). eexists true, x3. split; [reflexivity|].
    split; [|done]. intros _. specialize (Hg eq_refl). pose proof (moved_trans _ _ _ _ _ [] _ _ _ Hmv1 Hg) as Hmv2.
    rewrite (moved_after _ _ _ _ _ Hmv2), (mv_matched _ _ _ _ _ Hmv2) in Hmv3.
    pose proof (moved_trans _ _ _ _ _ _ _ _ [] Hmv2 Hmv3) as Hmv. rewrite app_nil_r in Hmv. exact Hmv.
  - eexists false, x2. split; [reflexivity|]. split; [done|]. intros Hro. by specialize (Hroom Hro).
Qed.

Lemma should_end_run x :
  exists b x1, should_end env x = (inl b, x1) /\ moved x x1 (position x) (tk_matched (ww_task x)) [] /\
    same_store (ww_world x) (ww_world x1) /\
    (wc_subscription_id (tk_ctx (ww_task x)) ∉ ww_stopped x /\
     env_now env (w_tick (ww_world x)) < wc_expires_at (tk_ctx (ww_task x)) -> b = false).
Proof.
  unfold should_end, stop_requested. rewrite run_gets. case_bool_decide as Hst.
  { exists true, x. split; [done|]. split; [apply moved_refl|]. split; [done|]. tauto. }
  rewrite run_clock, run_task. eexists _, _. split; [reflexivity|]. split; [|split; [done|]].
  - split; cbn; [done|done|by apply served_frame|by rewrite set_after_same|done|exists []; by rewrite app_nil_r].
  - intros [_ ?]. cbn. lia.
Qed.

Lemma turn_goes x : owns (ww_task x) -> serves_filter x -> length (position x) = 10%nat -> position x <> STAMP_MAX ->
  let es := firstn 256 (unread x (position x)) in
  let r := log_events holds sub_id filter es (tk_matched (ww_task x)) in
  exists go x', watch_turn chan filter env x = (inl go, x') /\
    (go = true -> moved x x' (pos_after es (position x)) r.2 r.1) /\
    (roomy -> sub_id ∉ ww_stopped x -> env_now env (w_tick (ww_world x)) < wc_expires_at (tk_ctx (ww_task x)) -> go = true).
Proof.
  intros Ho Hs Hl Hmax es r. destruct (should_end_run x) as (b & x1 & E1 & Hmv1 & Hk1 & Hb).
  unfold watch_turn. rewrite (gbind_run _ _ _ _ _ _ E1). destruct b.
  { destruct (run_end x1) as [x2 E2]. exists false, x2. split; [exact E2|]. split; [done|].
    intros _ Hst Hexp. destruct Ho as (Hid & _). rewrite Hid in Hb. by destruct (Hb (conj Hst Hexp)). }
  destruct (heartbeat_moved x1) as (x2 & E2 & Hmv2 & Hk2). rewrite (gbind_run _ _ _ _ _ _ E2).
  rewrite (moved_after _ _ _ _ _ Hmv1), (mv_matched _ _ _ _ _ Hmv1) in Hmv2.
  pose proof (moved_trans _ _ _ _ _ _ _ _ _ Hmv1 Hmv2) as Hmv. cbn [app] in Hmv.
  assert (Hkv : w_kv (ww_world x2) = w_kv (ww_world x)) by (destruct Hk1, Hk2; congruence).
  assert (Hpos : position x2 = position x) by by rewrite (moved_after _ _ _ _ _ Hmv).
  assert (Hun : unread x2 (position x2) = unread x (position x)) by (unfold unread; by rewrite Hpos, Hkv).
  assert (Hs2 : serves_filter x2).
  { destruct Hs as (Hsv & Hwf & Hkn). destruct (moved_log _ _ _ _ _ Hmv Hwf) as [Hwf2 Hlog2].
    split; [by apply (mv_served _ _ _ _ _ Hmv)|]. split; [done|]. by rewrite Hlog2. }
  destruct (read_goes x2 (moved_owns _ _ _ _ _ Hmv Ho) Hs2 ltac:(by rewrite Hpos) ltac:(by rewrite Hpos)) as (go & x3 & E3 & Hg & Hroom).
  exists go, x3. split; [exact E3|]. split; [|by auto]. intros Ht. specialize (Hg Ht). rewrite Hun, (mv_matched _ _ _ _ _ Hmv), Hpos in Hg.
  exact (moved_trans _ _ _ _ _ [] _ _ _ Hmv Hg).
Qed.

(** ** Every interleaving *)

(** A turn of the task, or a step of the rest of the system: the log grows at its
    end, everything but the state of the task may change. *)
Inductive watch_step : W -> W -> Prop :=
  | step_turn x x' : watch_turn chan filter env x = (inl true, x') -> watch_step x x'
  | step_others x x' more : ww_task x' = ww_task x -> log x' = log x ++ more -> serves_filter x' -> watch_step x x'.

Context (p0 : Versionstamp.t) (m0 : gset string).
Local Abbreviation events seen := (log_events holds sub_id filter seen m0).

(** The task has read [seen] of the log after [p0], and [rest] is left. *)
Record reading x (seen rest : list (Versionstamp.t * CdcEntry)) : Prop := {
  rd_owns : owns (ww_task x);
  rd_serves : serves_filter x;
  rd_split : unread x p0 = seen ++ rest;
  rd_rest : unread x (position x) = rest;
  rd_position : position x = pos_after seen p0;
  rd_matched : tk_matched (ww_task x) = (events seen).2;
  rd_sublist : sublist (delivered (ww_task x)) (events seen).1;
  rd_all : roomy -> delivered (ww_task x) = (events seen).1
}.

Context (Hlen0 : length p0 = 10%nat) (Hmax0 : p0 <> STAMP_MAX).

Lemma unread_elem x p e : e ∈ unread x p <-> e ∈ log x /\ blt p e.1.
Proof. unfold unread, log_after. rewrite list_elem_of_filter. tauto. Qed.

Lemma pos_after_in x seen rest : unread x p0 = seen ++ rest ->
  pos_after seen p0 = p0 /\ seen = [] \/ exists e, e ∈ log x /\ pos_after seen p0 = e.1 /\ last seen = Some e.
Proof.
  intros Hs. unfold pos_after. destruct (last seen) as [e|] eqn:El; [right|left; split; [done|by apply last_None]].
  exists e. split; [|done]. apply last_Some in El as [l ->]. apply (proj1 (unread_elem x p0 e)). rewrite Hs. set_solver.
Qed.

Lemma position_ok x seen rest : serves_filter x -> unread x p0 = seen ++ rest ->
  length (pos_after seen p0) = 10%nat /\ pos_after seen p0 <> STAMP_MAX.
Proof.
  intros (_ & Hwf & _) Hs. destruct (pos_after_in x seen rest Hs) as [[-> _]|(e & He & -> & _)]; [done|].
  destruct (log_stamps db ns _ e Hwf He) as (Hl & Hff & _). split; [done|]. intros E. rewrite E in Hff. by vm_compute in Hff.
Qed.

Lemma unread_next x p n : wf x -> unread x (pos_after (firstn n (unread x p)) p) = skipn n (unread x p) \/ n = 0%nat.
Proof.
  intros Hwf. destruct n as [|n]; [by right|left]. unfold pos_after.
  destruct (last (take (Datatypes.S n) (unread x p))) as [e|] eqn:El.
  - exact (beyond_last (log x) p (Datatypes.S n) e (log_sorted env Henv db ns _ Hwf) El).
  - apply last_None in El. destruct (unread x p); done.
Qed.

Lemma pos_after_app l l' p : pos_after (l ++ l') p = pos_after l' (pos_after l p).
Proof. unfold pos_after. rewrite last_app. by destruct (last l'). Qed.

Lemma step_turn_reading x x' seen rest : reading x seen rest -> watch_turn chan filter env x = (inl true, x') ->
  reading x' (seen ++ firstn 256 rest) (skipn 256 rest).
Proof.
  intros [Ho Hs Hsp Hr Hp Hm Hsub Hall] E. destruct (position_ok x seen rest Hs Hsp) as [Hl Hx]. rewrite <- Hp in Hl, Hx.
  destruct (turn_goes x Ho Hs Hl Hx) as (go & y & E' & Hg & _). rewrite E in E'. injection E' as <- <-.
  specialize (Hg eq_refl). rewrite Hr in Hg. destruct Hs as (Hsv & Hwf & Hk).
  destruct (moved_log _ _ _ _ _ Hg Hwf) as [Hwf' Hlog]. pose proof (mv_out _ _ _ _ _ Hg) as (d & Hd & Hds & Hda).
  assert (Hun : forall p, unread x' p = unread x p) by (intros p; unfold unread, log_after; by rewrite Hlog).
  assert (Hev : events (seen ++ firstn 256 rest)
    = ((events seen).1 ++ (log_events holds sub_id filter (firstn 256 rest) (tk_matched (ww_task x))).1,
       (log_events holds sub_id filter (firstn 256 rest) (tk_matched (ww_task x))).2)) by by rewrite log_events_app, <- Hm.
  split.
  - by eapply moved_owns.
  - split; [by apply (mv_served _ _ _ _ _ Hg)|]. by rewrite Hlog.
  - by rewrite Hun, Hsp, <- app_assoc, take_drop.
  - rewrite (moved_after _ _ _ _ _ Hg), Hun. destruct (unread_next x (position x) 256 Hwf) as [E'|]; [|done]. by rewrite Hr in E'.
  - by rewrite (moved_after _ _ _ _ _ Hg), pos_after_app, Hp.
  - by rewrite (mv_matched _ _ _ _ _ Hg), Hev.
  - rewrite Hd, Hev. by apply sublist_app.
  - intros Hro. rewrite Hd, Hev. cbn [fst]. by rewrite Hall, Hda.
Qed.

Lemma step_others_reading x x' more seen rest : reading x seen rest ->
  ww_task x' = ww_task x -> log x' = log x ++ more -> serves_filter x' -> exists rest', reading x' seen rest'.
Proof.
  intros [Ho Hs Hsp Hr Hp Hm Hsub Hall] Ht Hlog Hs'. pose proof Hs' as (_ & Hwf' & _).
  assert (Hun : forall p, unread x' p = unread x p ++ base.filter (fun e => blt p e.1) more).
  { intros p. unfold unread, log_after. by rewrite Hlog, filter_app. }
  exists (rest ++ base.filter (fun e => blt p0 e.1) more). split; rewrite ?Ht; try done.
  - by rewrite Hun, Hsp, app_assoc.
  - rewrite Hun, Hr. f_equal. rewrite Hp. destruct (pos_after_in x seen rest Hsp) as [[-> _]|(e & He & -> & Hlast)]; [done|].
    assert (Hmore : forall f, f ∈ more -> blt e.1 f.1).
    { intros f Hf. pose proof (log_sorted env Henv db ns _ Hwf') as Hso. rewrite Hlog in Hso.
      exact (StronglySorted_app_1_elem_of _ _ _ _ _ Hso He Hf). }
    assert (He0 : blt p0 e.1). { apply (proj1 (unread_elem x p0 e)). rewrite Hsp. apply last_Some in Hlast as [l ->]. set_solver. }
    rewrite !filter_all_true; [done|..]; intros f Hf; [|by apply Hmore]. eapply lex_lt_trans; [exact He0|by apply Hmore].
Qed.

Lemma steps_reading x y : rtc watch_step x y -> forall seen rest, reading x seen rest -> exists seen' rest', reading y seen' rest'.
Proof.
  induction 1 as [x|x x1 y Hst _ IH]; intros seen rest Hrd; [by eauto|]. destruct Hst as [x x1 E|x x1 more Ht Hl Hs].
  - by eapply IH, step_turn_reading.
  - destruct (step_others_reading x x1 more seen rest Hrd Ht Hl Hs) as [rest' ?]. by eapply IH.
Qed.
End Turn.

(** C23: delivery of the log.  A task starts at position [p0] with an empty
    channel.  After any interleaving of its turns with appends to the log and with
    the rest of the system, it has read some prefix [seen] of the entries after
    [p0]: its position is the last of them, its matched set is the one after them,
    and the events it has put into the channel are, in order, some of the events of
    [seen], and exactly these when the consumer keeps up.  In that case a task that
    is not stopped or expired goes on, and its next turn delivers the events of the
    next entries, up to 256. *)
Theorem watch_delivers_log {S} `{FdbLaws S} `{Cbor EntitySchema} `{Cbor NodeData} `{CborLaws CdcEntry canon_entry storable_entry}
    `{CborLaws QueryWatchState id (fun _ => True)} `{CelEngine} (env : Env) (chan : nat -> Chan) (filter : WatchFilter)
    (db ns sub_id : string) (conf : string -> option EntitySchema) (p0 : Versionstamp.t) (x y : WatchWorld S) :
  no_faults env -> length p0 = 10%nat -> p0 <> STAMP_MAX ->
  owns db ns sub_id (ww_task x) -> serves_filter filter db ns conf x ->
  wc_after (tk_ctx (ww_task x)) = p0 -> tk_out (ww_task x) = [] ->
  rtc (watch_step env chan filter db ns conf) x y ->
  let events l := log_events (holds_of conf filter) sub_id filter l (tk_matched (ww_task x)) in
  exists seen rest, unread db ns y p0 = seen ++ rest /\
    wc_after (tk_ctx (ww_task y)) = pos_after seen p0 /\
    tk_matched (ww_task y) = (events seen).2 /\
    sublist (delivered (ww_task y)) (events seen).1 /\
    (roomy chan ->
     delivered (ww_task y) = (events seen).1 /\
     (sub_id ∉ ww_stopped y -> env_now env (w_tick (ww_world y)) < wc_expires_at (tk_ctx (ww_task y)) ->
      exists y', watch_turn chan filter env y = (inl true, y') /\
        delivered (ww_task y') = (events (seen ++ firstn 256 rest)).1)).
Proof.
  intros Henv Hl Hm Ho Hs Hp Hout Hst events.
  assert (reading chan filter db ns sub_id conf p0 (tk_matched (ww_task x)) x [] (unread db ns x p0)) as H0'.
  { split; try done; [by rewrite Hp|..]; unfold delivered; by rewrite Hout. }
  destruct (steps_reading env Henv chan filter db ns sub_id conf p0 (tk_matched (ww_task x)) Hl Hm x y Hst _ _ H0') as (seen & rest & Hrd).
  exists seen, rest. pose proof Hrd as [Ho' Hs' Hsp Hr Hpos Hma Hsub Hall].
  split; [done|]. split; [done|]. split; [done|]. split; [done|]. intros Hroom. split; [by apply Hall|]. intros Hns Hexp.
  assert (length (pos_after seen p0) = 10%nat /\ pos_after seen p0 <> STAMP_MAX) as [Hl' Hm'] by (eapply position_ok; eauto).
  rewrite <- Hpos in Hl', Hm'.
  destruct (turn_goes env Henv chan filter db ns sub_id conf y Ho' Hs' Hl' Hm') as (go & y' & E & _ & Hgo).
  rewrite (Hgo Hroom Hns Hexp) in E. exists y'. split; [exact E|].
  pose proof (step_turn_reading env Henv chan filter db ns sub_id conf p0 (tk_matched (ww_task x)) Hl Hm y y' seen rest Hrd E) as Hrd'.
  exact (rd_all _ _ _ _ _ _ _ _ _ _ _ Hrd' Hroom).
Qed.

(** ** Queries over the log *)

Definition apply_ops (nodes : Nodes) (ops : list CdcOperation) : Nodes := foldl apply_op nodes ops.

Fixpoint ops_fit (nodes : Nodes) (ops : list CdcOperation) : Prop :=
  match ops with
  | [] => True
  | op :: ops' => fits nodes op /\ ops_fit (apply_op nodes op) ops'
  end.

Fixpoint ops_expected (holds : string -> Props -> bool) (nodes : Nodes) (ops : list CdcOperation) : list WatchEventType :=
  match ops with
  | [] => []
  | op :: ops' => expected holds nodes op ++ ops_expected holds (apply_op nodes op) ops'
  end.

Definition all_ops (entries : list (Versionstamp.t * CdcEntry)) : list CdcOperation :=
  flat_map (fun e => operations e.2) entries.

Lemma ops_fit_app nodes l l' : ops_fit nodes (l ++ l') <-> ops_fit nodes l /\ ops_fit (apply_ops nodes l) l'.
Proof. revert nodes. induction l as [|op l IH]; intros nodes; cbn [app ops_fit]; [cbn; tauto|]. rewrite IH. cbn. tauto. Qed.

Lemma ops_expected_app holds nodes l l' :
  ops_expected holds nodes (l ++ l') = ops_expected holds nodes l ++ ops_expected holds (apply_ops nodes l) l'.
Proof. revert nodes. induction l as [|op l IH]; intros nodes; cbn; [done|]. by rewrite IH, app_assoc. Qed.

Section QueryLog.
Context `{CelEngine} (conf : string -> option EntitySchema) (q : QueryFilter) (sub_id : string).
Local Abbreviation holds := (sat conf q).

Lemma ops_of_track vs ops : forall nodes m, tracks holds m nodes -> ops_fit nodes ops ->
  let r := ops_of holds sub_id (Query q) vs ops m in
  tracks holds r.2 (apply_ops nodes ops) /\ map ev_type r.1 = ops_expected holds nodes ops.
Proof.
  induction ops as [|op ops IH]; intros nodes m Ht Hf; cbn [ops_of apply_ops foldl]; [done|]. destruct Hf as [Hf1 Hf2].
  destruct (pure_events_track holds sub_id vs q (sat_scope conf q) op m nodes Ht Hf1) as [Ht1 He1].
  destruct (IH _ _ Ht1 Hf2) as [Ht2 He2]. cbn [fst snd]. split; [exact Ht2|]. cbn [ops_expected]. by rewrite map_app, He1, He2.
Qed.

Lemma log_events_track entries : forall nodes m, tracks holds m nodes -> ops_fit nodes (all_ops entries) ->
  let r := log_events holds sub_id (Query q) entries m in
  tracks holds r.2 (apply_ops nodes (all_ops entries)) /\ map ev_type r.1 = ops_expected holds nodes (all_ops entries).
Proof.
  induction entries as [|[vs e] entries IH]; intros nodes m Ht Hf; cbn [log_events]; [done|].
  change (all_ops ((vs, e) :: entries)) with (operations e ++ all_ops entries) in *. apply ops_fit_app in Hf as [Hf1 Hf2].
  destruct (ops_of_track vs (operations e) nodes m Ht Hf1) as [Ht1 He1]. destruct (IH _ _ Ht1 Hf2) as [Ht2 He2].
  cbn [fst snd]. unfold apply_ops in *. rewrite foldl_app, ops_expected_app. split; [exact Ht2|]. by rewrite map_app, He1, He2.
Qed.
End QueryLog.

