(* ===== verification/WatchExamples.v ===== *)
(** * Watches on a concrete log

    A log with a few operations on one person, a subscription to the people of at
    least thirty, and the theorems of [WatchSpec] and [WatchDeliver] at work on
    them; behaviours of the service that a consumer does not expect.  Nothing of
    the program is modelled here. *)

From S2P Require Import Prelude Bytes Text Errors Types Encoding Subspace SchemaTypes Fdb MemFdb Cdc Jobs SchemaRegistry.
From S2P Require Import Node NodeSpec EdgeCascade Predicate Cel QueryExamples NodeDelete Rows Replication Security Service Auth Pql.
From S2P Require Import WatchState Watch WatchLoop WatchSpec WatchDeliver.

Definition person_schema : EntitySchema :=
  Schemas.set_version (Schemas.new "Person") 1.
Definition person_conf (et : string) : option EntitySchema := if String.eqb et "Person" then Some person_schema else None.
Definition adults : QueryFilter := mkQueryFilter "Person" (Some "age >= 30") None.

Definition aged (n : Z) : Props := {["age" := VInt n]}.

(** Created at 25, updated to 31 and 35 in one transaction. *)
Definition first_entry : CdcEntry :=
  mkCdcEntry "1" 0 None [NodeCreate "Person" "1_0" (aged 25) "1"; NodeUpdate "Person" "1_0" (aged 31) (aged 25);
                         NodeUpdate "Person" "1_0" (aged 35) (aged 31)].
(** Back to 20. *)
Definition second_entry : CdcEntry := mkCdcEntry "1" 0 None [NodeUpdate "Person" "1_0" (aged 20) (aged 35)].

Definition written (t : MemKv) (e : CdcEntry) : MemKv :=
  match write_cdc_entry t "db" "ns" e with Ok t' => t' | Err _ => t end.
Definition log1 : MemKv := written empty_kv first_entry.
Definition log2 : MemKv := written log1 second_entry.

Lemma written_ok t e : cdc_wf "db" "ns" t -> stamp_ok t -> blt (kv_stamp t) STAMP_MAX -> storable_entry e ->
  cdc_wf "db" "ns" (written t e) /\
  cdc_log "db" "ns" (written t e) = cdc_log "db" "ns" t ++ [(kv_stamp t, normalize_legacy_schema_registers (canon_entry e))].
Proof.
  intros Hwf Hst Hmax He. destruct (write_cdc_entry_log "db" "ns" ltac:(vm_compute; reflexivity) t e Hwf Hst He) as (t' & E & Hl & _ & Hw).
  unfold written. rewrite E. auto.
Qed.

Lemma storable_aged n : storable_props (aged n).
Proof. unfold aged. intros k v [_ <-]%lookup_singleton_Some. exact I. Qed.

Lemma log1_wf : cdc_wf "db" "ns" log1.
Proof.
  apply (written_ok empty_kv first_entry); [apply empty_kv_wf|apply empty_kv_stamp|vm_compute; reflexivity|].
  repeat constructor; apply storable_aged.
Qed.

Lemma log2_wf : cdc_wf "db" "ns" log2.
Proof.
  apply (written_ok log1 second_entry); [apply log1_wf|split; vm_compute; reflexivity || discriminate|vm_compute; reflexivity|].
  repeat constructor; apply storable_aged.
Qed.

Definition served_world (kv : MemKv) : World MemKv := mkWorld kv {[("db", "ns", "Person") := person_schema]} ∅ ∅ 0.

Lemma served_world_ok kv : served "db" "ns" person_conf (served_world kv).
Proof.
  intros et sc. unfold person_conf. destruct (String.eqb_spec et "Person") as [->|]; [|done]. intros [= <-]. split; [done|].
  left. reflexivity.
Qed.

Definition sub_context : WatchContext :=
  mkWatchContext "s1" "db" "ns" 1000000 Versionstamp.zero 512 false 30 1024 (Some "qws").
Definition fresh_task : Task := mkTask sub_context ∅ 0 0 [] 0.
Definition watching (kv : MemKv) : WatchWorld MemKv := mkWatchWorld (served_world kv) ∅ ∅ fresh_task.
Definition always_room (n : nat) : Chan := Room.

(** One turn of the subscription to the adults. *)
Definition one_turn : WatchWorld MemKv := (watch_turn always_room (Query adults) quiet_env (watching log2)).2.

Example one_turn_events :
  map ev_type (delivered (ww_task one_turn)) = [WeEnter; WeUpdate; WeExit] /\ tk_matched (ww_task one_turn) = ∅.
Proof. vm_compute. done. Qed.

Lemma tracks_empty holds : tracks holds ∅ ∅.
Proof.
  split; [by intros et id [p Hp]|]. intros k. split; [set_solver|].
  intros (et & id & _ & Hr). unfold in_result in Hr. by rewrite lookup_empty in Hr.
Qed.

Lemma watching_serves filter kv : cdc_wf "db" "ns" kv -> Forall (fun e => Forall (known person_conf filter) (operations e.2)) (cdc_log "db" "ns" kv) ->
  serves_filter filter "db" "ns" person_conf (watching kv).
Proof. intros Hwf Hk. split; [apply served_world_ok|]. done. Qed.

Lemma log2_known filter : Forall (fun e => Forall (known person_conf filter) (operations e.2)) (cdc_log "db" "ns" log2).
Proof.
  assert (cdc_log "db" "ns" log2 = [(kv_stamp empty_kv, first_entry); (kv_stamp log1, second_entry)]) as -> by (vm_compute; reflexivity).
  destruct filter; repeat constructor; intros _; by eexists.
Qed.

Lemma query_watch_tracks_witness :
  exists events matched' w',
    cdc_op_to_watch_events "s1" Versionstamp.zero (NodeCreate "Person" "1_0" (aged 31) "1") (Query adults) "db" "ns" ∅
      quiet_env (served_world empty_kv) = (Ok (events, matched'), w') /\ map ev_type events = [WeEnter].
Proof.
  destruct (query_watch_tracks quiet_env "db" "ns" person_conf (served_world empty_kv) adults "s1" Versionstamp.zero
    (NodeCreate "Person" "1_0" (aged 31) "1") ∅ ∅ quiet_env_ok (served_world_ok empty_kv) ltac:(intros _; by eexists)
    ltac:(split; [reflexivity|apply (bool_decide_unpack _); vm_compute; exact I]) (tracks_empty _)) as (evs & m & w' & E & _ & _ & _ & He).
  exists evs, m, w'. split; [exact E|]. rewrite He. vm_compute. reflexivity.
Defined.

Lemma one_turn_step : rtc (watch_step quiet_env always_room (Query adults) "db" "ns" person_conf) (watching log2) one_turn.
Proof. eapply rtc_l; [|apply rtc_refl]. apply step_turn. vm_compute. reflexivity. Qed.

Lemma watch_delivers_log_witness :
  exists seen rest, unread "db" "ns" one_turn Versionstamp.zero = seen ++ rest /\
    wc_after (tk_ctx (ww_task one_turn)) = pos_after seen Versionstamp.zero.
Proof.
  destruct (watch_delivers_log quiet_env always_room (Query adults) "db" "ns" "s1" person_conf Versionstamp.zero (watching log2) one_turn
    quiet_env_ok ltac:(reflexivity) ltac:(discriminate) ltac:(repeat split) (watching_serves _ _ log2_wf (log2_known _))
    ltac:(reflexivity) ltac:(reflexivity) one_turn_step) as (seen & rest & Hs & Hp & _).
  exists seen, rest. split; [exact Hs|exact Hp].
Defined.


(** ** What a consumer may not expect *)

(** A consumer that is one event behind loses that event for good: the channel is
    full once, and the position has moved past the entry when it has room again. *)
Lemma full_channel_loses_event :
  let chan n := if Nat.eqb n 0 then Full else Room in
  let x := (watch_turn chan (Query adults) quiet_env (watching log2)).2 in
  map ev_type (delivered (ww_task x)) = [WeUpdate; WeExit] /\ unread "db" "ns" x (wc_after (tk_ctx (ww_task x))) = [].
Proof. vm_compute. done. Qed.

(** The events of one entry share its versionstamp: a consumer that resumes after
    the first of them does not see the others. *)
Lemma resume_mid_entry_loses_events :
  let evs := delivered (ww_task one_turn) in
  map ev_versionstamp (firstn 2 evs) = [kv_stamp empty_kv; kv_stamp empty_kv] /\
  map fst (log_after "db" "ns" log2 (Some (kv_stamp empty_kv))) = [kv_stamp log1].
Proof. vm_compute. done. Qed.

(** A query subscription that resumes before its saved position starts with an
    empty matched set: the deletion of a node in the result is not reported. *)
Lemma resumed_query_misses_deletion :
  forall vs, (pure_events (sat person_conf adults) "s1" vs (Query adults) (NodeDelete "Person" "1_0") ∅).1 = [].
Proof. intros vs. vm_compute. reflexivity. Qed.

Definition saved_world : WatchWorld MemKv :=
  let w := ((upsert_query_watch_state "db" "ns" "qws" (kv_stamp log1) {["Person:1_0"]}) quiet_env (served_world log2)).2 in
  mkWatchWorld w ∅ ∅ (tk_set_ctx fresh_task (set_after sub_context (kv_stamp empty_kv))).

Lemma earlier_resume_not_restored :
  tk_matched (ww_task (restore (Query adults) quiet_env saved_world).2) = ∅.
Proof. vm_compute. reflexivity. Qed.

(** *** Authorization *)

#[local] Existing Instance tick_uuid.

Definition wide_limits : WatchLimits := default_limits (fun _ => None).
Definition ann : AuthPrincipal := mkAuthPrincipal "ann" "user" [].
Definition ann_policy : AuthPolicy :=
  mkAuthPolicy "p1" "ann" [mkPolicyPermission "db" "ns" "Public" ["watch.subscribe"] "";
                           mkPolicyPermission "other" "ns" "*" ["watch.list"; "watch.cancel"] ""] 0.
Definition watch_service : WatchService MemKv :=
  mkWatchService (upsert_policy ann_policy quiet_env empty_world).2
    {["s9" := mkActiveSubscription (mkSubscriptionInfo "s9" SubNamespace "db" "ns" 0 1000) (Some "bob")]} ∅ ∅.

Definition point_request (targets : list NodeWatch) : WatchPointRequest :=
  mkWatchPointRequest (Some (mkRequestContext "db" "ns")) "" "" None [] targets [].
Definition outcome {A} (r : (A + Status) * WatchService MemKv) : A + Code :=
  match r.1 with inl a => inl a | inr e => inr (status_code e) end.
Definition watched_types (r : (string + Status) * WatchService MemKv) : list string :=
  flat_map (fun kv => match kv.2.1 with Point nodes _ => map pn_entity_type nodes | _ => [] end) (map_to_list (sv_tasks r.2)).

(** A point subscription is authorized for the type of its first target only: a
    principal that may not watch secrets may watch them behind a public node. *)
Lemma point_watch_authorizes_first :
  let point targets := watch_point wide_limits (Some ann) (point_request targets) quiet_env watch_service in
  outcome (point [mkNodeWatch "Secret" "1_1" []]) = inr PermissionDenied /\
  watched_types (point [mkNodeWatch "Public" "1_0" []; mkNodeWatch "Secret" "1_1" []]) = ["Public"; "Secret"].
Proof. vm_compute. done. Qed.

(** The subscriptions of all namespaces are listed, and any of them can be
    cancelled, by a principal that may do so in the namespace of its request. *)
Lemma list_and_cancel_ignore_the_context :
  let other := Some (mkRequestContext "other" "ns") in
  outcome (list_subscriptions (Some ann) other quiet_env watch_service)
    = inl [mkSubscriptionInfo "s9" SubNamespace "db" "ns" 0 1000] /\
  outcome (cancel_subscription (Some ann) other "s9" quiet_env watch_service) = inl true /\
  outcome (cancel_subscription (Some ann) (Some (mkRequestContext "db" "ns")) "s9" quiet_env watch_service) = inr PermissionDenied.
Proof. vm_compute. done. Qed.

(** *** Queries *)

(** The filters of a query are joined without parentheses, so that [&&] binds the
    parts of a disjunction. *)
Definition one_block (root : RootFunction) (ds : list Directive) : PqlParser :=
  {| parse_pql _ := inl (mkPqlQuery None None [mkQueryBlock "b" root ds [] None]) |}.
Definition no_floats : FloatText := {| f64_display _ := ""; f64_display_1 _ := "" |}.

Lemma filters_joined_without_parentheses :
  build_pql_predicate (H := one_block (RType (mkQualifiedType None "User"))
      [DFilter "age < 18 || age > 65"; DFilter "active == true"]) (H0 := no_floats) "q"
    = inl (mkPqlPredicate (Some "User") (Some "age < 18 || age > 65 && active == true")).
Proof. vm_compute. reflexivity. Qed.

(** Quotes in a literal are escaped but backslashes are not: a value that ends in
    a backslash takes the closing quote with it. *)
Lemma backslash_not_escaped :
  sbytes (watch_literal_to_cel (H0 := no_floats) (LString (bstr [Byte.x5c]))) = [Byte.x27; Byte.x5c; Byte.x27].
Proof. vm_compute. reflexivity. Qed.

(** Without a position to resume from, the initial snapshot is followed by the
    whole log: a node that exists when the subscription starts enters twice. *)
Definition snapshot_watch : WatchWorld MemKv :=
  mkWatchWorld account_world1 ∅ ∅
    (mkTask (mkWatchContext "s1" "db" "ns" 1000000 Versionstamp.zero 512 true 30 1024 None) ∅ 0 0 [] 0).

Lemma snapshot_then_replay :
  let filter := Point [mkPointNodeTarget "Account" (NodeIds.to_string ada_id) ∅] [] in
  let x := (spawn_watch_loop always_room filter 1 quiet_env snapshot_watch).2 in
  map (fun e => (ev_type e, ev_reason e)) (delivered (ww_task x)) = [(WeEnter, "initial_snapshot"); (WeEnter, "node_create")].
Proof. vm_compute. reflexivity. Qed.
