(* ===== verification/StateM.v ===== *)
(** * Computations with a state of their own

    Some parts of the program carry a value next to the database: the record of a
    job, the rows of the local cache, the position of a replicator.  They run in
    the monad [T X S]: the state [X] and the world of the database are threaded,
    also through a failure. *)

From S2P Require Import Prelude Bytes Text Errors Types Encoding Fdb.

Definition T (X S A : Type) : Type := Env -> X * World S -> result A * (X * World S).

#[export] Instance T_ret {X S} : MRet (T X S) := fun A a env s => (Ok a, s).
#[export] Instance T_bind {X S} : MBind (T X S) := fun A B f m env s =>
  match m env s with
  | (Ok a, s') => f a env s'
  | (Err e, s') => (Err e, s')
  end.

Section Operations.
Context {X S : Type}.

(** An operation on the database. *)
Definition on_db {A} (m : M S A) : T X S A := fun env s =>
  let '(r, w) := m env s.2 in (r, (s.1, w)).
Definition get_st {A} (f : X -> A) : T X S A := fun env s => (Ok (f s.1), s).
Definition set_st (f : X -> X) : T X S unit := fun env s => (Ok tt, (f s.1, s.2)).

(** The result as a value; the changes are kept. *)
Definition attempt_st {A} (m : T X S A) : T X S (result A) := fun env s =>
  let '(r, s') := m env s in (Ok r, s').

Implicit Types (x : X) (w : World S).

Lemma tbind_run {A B} (m : T X S A) (f : A -> T X S B) env s a s1 : m env s = (Ok a, s1) -> (m ≫= f) env s = f a env s1.
Proof. unfold mbind, T_bind. by intros ->. Qed.
Lemma tbind_run_err {A B} (m : T X S A) (f : A -> T X S B) env s e s1 : m env s = (Err e, s1) -> (m ≫= f) env s = (Err e, s1).
Proof. unfold mbind, T_bind. by intros ->. Qed.
Lemma run_get_st {A B} (f : X -> A) (k : A -> T X S B) env x w : (get_st f ≫= k) env (x, w) = k (f x) env (x, w).
Proof. reflexivity. Qed.
Lemma run_set_st {B} f (k : unit -> T X S B) env x w : (set_st f ≫= k) env (x, w) = k tt env (f x, w).
Proof. reflexivity. Qed.
Lemma run_on_db {A B} (m : M S A) (k : A -> T X S B) env x w a w' :
  m env w = (Ok a, w') -> (on_db m ≫= k) env (x, w) = k a env (x, w').
Proof. unfold mbind, T_bind, on_db. cbn. by intros ->. Qed.
End Operations.
