(* ===== verification/JobExecutor.v ===== *)
(** * Background jobs: executors and worker

    [pelago-storage/src/job_executor.rs] and [job_worker.rs].  An executor works on
    a job in batches: it reads rows from the cursor of the job, changes the store in
    one transaction and moves the cursor; the worker repeats it until no work is
    left and records the outcome.  A batch changes the record of the job as it goes,
    also when it fails, so it runs in the monad [T] with that record as its state. *)

From S2P Require Import Prelude Bytes Text Errors Types Encoding Subspace SchemaTypes Fdb MemFdb Cdc Consumer Ids Index.
From S2P Require Import TermIndex Namespace Jobs SchemaRegistry Node Edge NodeDelete Service StateM.

(** ** The record of the job *)

Abbreviation J := (T JobState).
Abbreviation job := get_st (only parsing).
Abbreviation set_job := set_st (only parsing).

Definition with_status (j : JobState) (st : JobStatus) : JobState :=
  mkJobState (job_id j) (job_type j) st (progress_cursor j) (progress_pct j) (total_items j) (processed_items j)
    (job_created_at j) (job_updated_at j) (job_database j) (job_namespace j) (job_error j).
Definition job_at_cursor (j : JobState) (c : option bytes) : JobState :=
  mkJobState (job_id j) (job_type j) (status j) c (progress_pct j) (total_items j) (processed_items j)
    (job_created_at j) (job_updated_at j) (job_database j) (job_namespace j) (job_error j).
Definition with_processed (j : JobState) (n : Z) : JobState :=
  mkJobState (job_id j) (job_type j) (status j) (progress_cursor j) (progress_pct j) (total_items j) n
    (job_created_at j) (job_updated_at j) (job_database j) (job_namespace j) (job_error j).
Definition with_pct (j : JobState) (p : Z) : JobState :=
  mkJobState (job_id j) (job_type j) (status j) (progress_cursor j) p (total_items j) (processed_items j)
    (job_created_at j) (job_updated_at j) (job_database j) (job_namespace j) (job_error j).
Definition with_error (j : JobState) (e : string) : JobState :=
  mkJobState (job_id j) (job_type j) (status j) (progress_cursor j) (progress_pct j) (total_items j) (processed_items j)
    (job_created_at j) (job_updated_at j) (job_database j) (job_namespace j) (Some e).

(** [job.processed_items += 1] on a [u64]. *)
Definition processed_one (j : JobState) : JobState := with_processed j ((processed_items j + 1) mod 2 ^ 64).
Definition processed_many (n : nat) (j : JobState) : JobState :=
  with_processed j (u64_saturating_add (processed_items j) (Z.of_nat n)).

Definition wrong_executor {S A} : J S A := on_db (throw (Internal "Wrong executor for job type")).

(** The cursor after a batch: the key after its last row. *)
Definition move_cursor (rows : list (bytes * bytes)) (j : JobState) : JobState :=
  match last rows with
  | Some kv => job_at_cursor j (Some (kv.1 ++ [Byte.x00]))
  | None => j
  end.

(** The rows of one type in a subspace. *)
Definition type_prefix (sub : Subspace) (entity_type : string) : bytes :=
  Tuple.build (Tuple.add_string (Sub.pack sub) entity_type).

(** [for row in rows], threading the transaction. *)
Fixpoint fold_rows {S} (rows : list (bytes * bytes)) (f : S -> bytes * bytes -> J S S) (t : S) : J S S :=
  match rows with
  | [] => mret t
  | kv :: rest => t ← f t kv; fold_rows rest f t
  end.

(** ** Node rows *)

Inductive NodePayload := Envelope (d : NodeData) | LegacyMap (m : Props).

Definition payload_properties (p : NodePayload) : Props :=
  match p with Envelope d => nd_properties d | LegacyMap m => m end.

Definition with_properties (p : NodePayload) (m : Props) : NodePayload :=
  match p with
  | Envelope d => Envelope (mkNodeData m (nd_locality d) (nd_created_at d) (nd_updated_at d))
  | LegacyMap _ => LegacyMap m
  end.

Section Payload.
Context `{Cbor NodeData} `{Cbor Props}.

Definition encode_payload (p : NodePayload) : result bytes :=
  match p with Envelope d => encode_cbor d | LegacyMap m => encode_cbor m end.

Definition decode_node_payload (b : bytes) : result NodePayload :=
  match decode_cbor (A:=NodeData) b with
  | Ok d => Ok (Envelope d)
  | Err _ => m ← decode_cbor (A:=Props) b; Ok (LegacyMap m)
  end.
End Payload.

(** ** Cursor of a type's removal *)

Record DropEntityTypeCursor := mkDropEntityTypeCursor { phase : Z; next_start : option bytes }.

Definition drop_type_phase_prefix (database namespace entity_type : string) (ph : Z) : option bytes :=
  let ns := Sub.namespace database namespace in
  let edge m := Tuple.add_marker (Sub.pack (Sub.edge ns)) m in
  match ph with
  | 0 => Some (type_prefix (Sub.schema ns) entity_type)
  | 1 => Some (type_prefix (Sub.data ns) entity_type)
  | 2 => Some (type_prefix (Sub.index ns) entity_type)
  | 3 => Some (Tuple.build (Tuple.add_string (edge edge_markers.FORWARD) entity_type))
  | 5 => Some (Tuple.build (Tuple.add_string (edge edge_markers.FORWARD_META) entity_type))
  | 6 => Some (Tuple.build (Tuple.add_string (Tuple.add_string (Tuple.add_string (edge edge_markers.REVERSE)
                 database) namespace) entity_type))
  | _ => None
  end.

Definition DROP_TYPE_PHASE_EDGE_REVERSE_BY_SOURCE : Z := 4.
Definition DROP_TYPE_PHASE_DONE : Z := 7.

(** ** Executors *)

Section Executors.
Context {S : Type} `{Fdb S} `{HashIter} `{Cbor NodeData} `{Cbor EdgeNodeData} `{Cbor Props} `{Cbor EdgeData} `{Cbor EntitySchema}.
Context `{Cbor CdcEntry} `{Cbor JobState} `{Cbor DropEntityTypeCursor}.

Definition commit_job (what : string) (t : S) : J S unit :=
  on_db (commit (fun e => Internal (what ++ " commit failed: " ++ e)%string) t).

(** The rows of the batch: from the cursor, or from the start of the range. *)
Definition batch_rows (pre : bytes) (batch_size : nat) : J S (list (bytes * bytes)) :=
  cursor ← job progress_cursor;
  on_db (get_range (default pre cursor) (pre ++ [Byte.xff]) batch_size).

(** *** Index backfill *)

Definition backfill_row (sub : Subspace) (entity_type : string) (schema : EntitySchema) (t : S) (kv : bytes * bytes) : J S S :=
  if Nat.ltb (length kv.1) 9 then mret t else
  let node_id_bytes := skipn (length kv.1 - 9) kv.1 in
  payload ← on_db (lift (decode_node_payload kv.2));
  entries ← on_db (lift (compute_index_entries sub entity_type node_id_bytes schema (payload_properties payload)));
  set_job processed_one ;;
  mret (foldl (fun t e => kv_set t (ie_key e) (default [] (value_bytes e))) t entries).

Definition index_backfill_batch (batch_size : nat) : J S (option bool) :=
  jt ← job job_type; database ← job job_database; namespace ← job job_namespace;
  match jt with
  | IndexBackfill entity_type _ _ =>
      let sub := Sub.namespace database namespace in
      rows ← batch_rows (type_prefix (Sub.data sub) entity_type) batch_size;
      match rows with
      | [] => mret (Some false)
      | _ =>
          schema ← on_db (require_schema database namespace entity_type);
          t ← on_db create_transaction;
          t ← fold_rows rows (backfill_row sub entity_type schema) t;
          set_job (move_cursor rows) ;;
          commit_job "Index backfill" t ;;
          mret (Some (Nat.leb batch_size (length rows)))
      end
  | _ => wrong_executor
  end.

(** *** Removal of a property *)

Definition strip_row (property_name : string) (t : S) (kv : bytes * bytes) : J S S :=
  payload ← on_db (lift (decode_node_payload kv.2));
  let props := payload_properties payload in
  t ← match props !! property_name with
      | Some _ =>
          v ← on_db (lift (encode_payload (with_properties payload (delete property_name props))));
          mret (kv_set t kv.1 v)
      | None => mret t
      end;
  set_job processed_one ;;
  mret t.

(** The batch after its rows were read. *)
Definition strip_rows (property_name : string) (batch_size : nat) (rows : list (bytes * bytes)) : J S (option bool) :=
  match rows with
  | [] => mret (Some false)
  | _ =>
      t ← on_db create_transaction;
      t ← fold_rows rows (strip_row property_name) t;
      set_job (move_cursor rows) ;;
      commit_job "Strip property" t ;;
      mret (Some (Nat.leb batch_size (length rows)))
  end.

Definition strip_property_batch (batch_size : nat) : J S (option bool) :=
  jt ← job job_type; database ← job job_database; namespace ← job job_namespace;
  match jt with
  | StripProperty entity_type property_name =>
      rows ← batch_rows (type_prefix (Sub.data (Sub.namespace database namespace)) entity_type) batch_size;
      strip_rows property_name batch_size rows
  | _ => wrong_executor
  end.

(** *** Retention of the log *)

Definition min_stamp (l : list Versionstamp.t) : option Versionstamp.t :=
  match l with
  | [] => None
  | v :: vs => Some (foldl (fun m x => if decide (blt x m) then x else m) v vs)
  end.

(** The loop over the rows: the transaction, how many rows were cleared, and a
    stop at the first row that is not old enough.  The age is an [i64] division. *)
Fixpoint retention_rows (prefix_len : nat) (safe_cutoff : option Versionstamp.t) (max_retention_secs : Z)
    (rows : list (bytes * bytes)) (t : S) (deleted : nat) : J S (S * nat) :=
  match rows with
  | [] => mret (t, deleted)
  | (key, value) :: rest =>
      let skip := retention_rows prefix_len safe_cutoff max_retention_secs rest t deleted in
      match Versionstamp.from_bytes (skipn prefix_len key) with
      | None => set_job processed_one ;; skip
      | Some vs =>
          if match safe_cutoff with Some cutoff => bool_decide (ble cutoff vs) | None => false end then skip else
          let remove := set_job processed_one ;;
            retention_rows prefix_len safe_cutoff max_retention_secs rest (kv_clear t key) (deleted + 1) in
          match decode_cbor (A:=CdcEntry) value with
          | Ok entry =>
              now_us ← on_db now;
              if Z.quot (wrap_i64 (now_us - timestamp entry)) 1000000 <? wrap_i64 max_retention_secs then mret (t, deleted) else remove
          | Err _ => remove
          end
      end
  end.

Definition cdc_retention_batch (batch_size : nat) : J S (option bool) :=
  jt ← job job_type; database ← job job_database; namespace ← job job_namespace;
  match jt with
  | CdcRetention max_retention_secs checkpoint_aware =>
      let sub := cdc_subspace database namespace in
      safe_cutoff ← (if checkpoint_aware : bool then
                       cps ← on_db (fetch_all_checkpoints database namespace); mret (min_stamp cps.*2)
                     else mret None);
      cursor ← job progress_cursor;
      rows ← on_db (get_range (default (prefix sub) cursor) (Sub.range_end sub) batch_size);
      match rows with
      | [] => mret (Some false)
      | _ =>
          t ← on_db create_transaction;
          r ← retention_rows (length (prefix sub)) safe_cutoff max_retention_secs rows t 0;
          set_job (move_cursor rows) ;;
          (if Nat.ltb 0 r.2 then commit_job "CDC retention" r.1 else mret tt) ;;
          mret (Some (Nat.leb batch_size (length rows)))
      end
  | _ => wrong_executor
  end.

(** *** Edges of a dropped type *)

(** The endpoints and the label of an edge row, when it has them all. *)
Definition edge_ends (value : bytes) : option (NodeRef * NodeRef * string) :=
  match decode_cbor (A:=EdgeData) value with
  | Ok d =>
      match ed_source d, ed_target d, ed_label d with
      | Some source, Some target, Some label => if String.eqb label "" then None else Some (source, target, label)
      | _, _, _ => None
      end
  | Err _ => None
  end.

(** The paged scan for the forward rows of the other direction.  A full page has
    [limit] rows, so one more than the number of rows is fuel enough; [None] is out
    of fuel. *)
Fixpoint reverse_forward_loop (fuel : nat) (suffix range_start range_end : bytes) (limit : nat) (matches : list bytes)
    : M S (option (list bytes)) :=
  match fuel with
  | O => mret None
  | Datatypes.S f =>
      batch ← get_range range_start range_end limit;
      match batch with
      | [] => mret (Some matches)
      | _ =>
          let matches := matches ++ List.filter (fun k => bool_decide (suffix `suffix_of` k)) batch.*1 in
          if Nat.ltb (length batch) limit then mret (Some matches)
          else match last batch with
               | Some kv => reverse_forward_loop f suffix (kv.1 ++ [Byte.x00]) range_end limit matches
               | None => mret (Some matches)
               end
      end
  end.

Definition find_reverse_direction_forward_keys (fuel : nat) (edge_subspace : Subspace) (source target : NodeRef)
    (label : string) (scan_limit : nat) : M S (option (list bytes)) :=
  let pre := Tuple.build (Tuple.add_string (Tuple.add_string (Tuple.add_string
               (Tuple.add_marker (Sub.pack edge_subspace) edge_markers.FORWARD)
               (ref_entity_type target)) (ref_node_id target)) label) in
  let suffix := Tuple.build (Tuple.add_string (Tuple.add_string (Tuple.add_string (Tuple.add_string Tuple.new
                  (ref_database source)) (ref_namespace source)) (ref_entity_type source)) (ref_node_id source)) in
  reverse_forward_loop fuel suffix pre (pre ++ [Byte.xff]) (Nat.max scan_limit 1) [].

(** [forward_key[marker_pos] = FORWARD] *)
Definition with_marker (pos : nat) (m : byte) (k : bytes) : bytes :=
  if Nat.ltb pos (length k) then <[pos := m]> k else k.

(** One row of the orphan cleanup: the transaction and the keys found by the scan;
    [None] is out of fuel. *)
Definition orphan_row (fuel batch_size : nat) (edge : Subspace) (deleted_type : string)
    (st : S * bool * list bytes) (kv : bytes * bytes) : J S (option (S * bool * list bytes)) :=
  let '(t, has_clears, keys) := st in
  match edge_ends kv.2 with
  | None => set_job processed_one ;; mret (Some st)
  | Some (source, target, label) =>
      if negb (String.eqb (ref_entity_type source) deleted_type) && negb (String.eqb (ref_entity_type target) deleted_type)
      then set_job processed_one ;; mret (Some st)
      else
        let t := kv_clear t kv.1 in
        let t := if Nat.ltb (length (prefix edge)) (length kv.1)
                 then kv_clear t (with_marker (length (prefix edge)) edge_markers.FORWARD kv.1) else t in
        let t := kv_clear t (reverse_like edge source target label) in
        let t := kv_clear t (reverse_like edge target source label) in
        found ← on_db (find_reverse_direction_forward_keys fuel edge source target label (Nat.max batch_size 128));
        match found with
        | None => mret None
        | Some ks => set_job processed_one ;; mret (Some (t, true, keys ++ ks))
        end
  end.

Fixpoint orphan_rows (fuel batch_size : nat) (edge : Subspace) (deleted_type : string) (rows : list (bytes * bytes))
    (st : S * bool * list bytes) : J S (option (S * bool * list bytes)) :=
  match rows with
  | [] => mret (Some st)
  | kv :: rest =>
      st ← orphan_row fuel batch_size edge deleted_type st kv;
      match st with
      | None => mret None
      | Some st => orphan_rows fuel batch_size edge deleted_type rest st
      end
  end.

Definition orphaned_edge_batch (fuel batch_size : nat) : J S (option bool) :=
  jt ← job job_type; database ← job job_database; namespace ← job job_namespace;
  match jt with
  | OrphanedEdgeCleanup deleted_type =>
      let edge := Sub.edge (Sub.namespace database namespace) in
      rows ← batch_rows (Tuple.build (Tuple.add_marker (Sub.pack edge) edge_markers.FORWARD_META)) batch_size;
      match rows with
      | [] => mret (Some false)
      | _ =>
          t ← on_db create_transaction;
          st ← orphan_rows fuel batch_size edge deleted_type rows (t, false, []);
          match st with
          | None => mret None
          | Some (t, has_clears, keys) =>
              let t := foldl (fun t k => kv_clear t k) t keys in
              let has_clears := has_clears || match keys with [] => false | _ => true end in
              set_job (move_cursor rows) ;;
              (if has_clears then commit_job "Orphaned edge cleanup" t else mret tt) ;;
              mret (Some (Nat.leb batch_size (length rows)))
          end
      end
  | _ => wrong_executor
  end.

(** *** Deletion of one node *)

Definition delete_node_batch (fuel : nat) : J S (option bool) :=
  jt ← job job_type; database ← job job_database; namespace ← job job_namespace;
  match jt with
  | DeleteNodeCascade entity_type node_id =>
      r ← on_db (delete_node fuel (mkNodeStore (mkIdAllocator 0 1000) "") database namespace entity_type node_id);
      match r with
      | None => mret None
      | Some _ =>
          set_job (fun j => with_processed j (u64_saturating_add (processed_items j) 1)) ;;
          mret (Some false)
      end
  | _ => wrong_executor
  end.

(** *** Removal of a type *)

Definition next_phase (st : DropEntityTypeCursor) : DropEntityTypeCursor :=
  mkDropEntityTypeCursor (Z.min (phase st + 1) U8_MAX) None.

(** The phase and the position after a batch of [rows]. *)
Definition drop_advance (batch_size : nat) (rows : list (bytes * bytes)) (st : DropEntityTypeCursor) : DropEntityTypeCursor :=
  if Nat.ltb (length rows) (Nat.max batch_size 1) then next_phase st
  else match last rows with
       | Some kv => mkDropEntityTypeCursor (phase st) (Some (kv.1 ++ [Byte.x00]))
       | None => st
       end.

(** The end of an iteration that did some work. *)
Definition drop_continue (batch_size : nat) (rows : list (bytes * bytes)) (st : DropEntityTypeCursor) : J S (option bool) :=
  set_job (processed_many (length rows)) ;;
  let st := drop_advance batch_size rows st in
  if phase st <? DROP_TYPE_PHASE_DONE then
    raw ← on_db (lift (encode_cbor st));
    set_job (fun j => job_at_cursor j (Some raw)) ;;
    mret (Some true)
  else
    set_job (fun j => job_at_cursor j None) ;;
    mret (Some false).

(** The reverse rows of the edges that start at nodes of the type. *)
Definition reverse_keys (edge : Subspace) (rows : list (bytes * bytes)) : list bytes :=
  omap (fun kv => '(source, target, label) ← edge_ends kv.2; Some (reverse_like edge source target label)) rows.

(** The [while] loop.  Every turn that does not return moves to the next phase, so
    the number of phases is fuel enough. *)
Fixpoint drop_loop (fuel : nat) (database namespace entity_type : string) (batch_size : nat) (st : DropEntityTypeCursor)
    : J S (option bool) :=
  let finish := set_job (fun j => job_at_cursor j None) ;; mret (Some false) in
  match fuel with
  | O => finish
  | Datatypes.S f =>
      if negb (phase st <? DROP_TYPE_PHASE_DONE) then finish else
      let edge := Sub.edge (Sub.namespace database namespace) in
      let by_source := phase st =? DROP_TYPE_PHASE_EDGE_REVERSE_BY_SOURCE in
      match (if by_source then Some (Tuple.build (Tuple.add_string (Tuple.add_marker (Sub.pack edge) edge_markers.FORWARD_META) entity_type))
             else drop_type_phase_prefix database namespace entity_type (phase st)) with
      | None => finish
      | Some pre =>
          rows ← on_db (get_range (default pre (next_start st)) (pre ++ [Byte.xff]) (Nat.max batch_size 1));
          match rows with
          | [] => drop_loop f database namespace entity_type batch_size (next_phase st)
          | _ =>
              t ← on_db create_transaction;
              let keys := if by_source then reverse_keys edge rows else rows.*1 in
              let t := foldl (fun t k => kv_clear t k) t keys in
              (if by_source then
                 if Nat.ltb 0 (length keys) then commit_job "DropEntityTypeCleanup reverse-source" t else mret tt
               else commit_job "DropEntityTypeCleanup" t) ;;
              drop_continue batch_size rows st
          end
      end
  end.

Definition drop_type_batch (batch_size : nat) : J S (option bool) :=
  jt ← job job_type; database ← job job_database; namespace ← job job_namespace;
  match jt with
  | DropEntityTypeCleanup entity_type =>
      cursor ← job progress_cursor;
      let st := match cursor with
                | Some raw => match decode_cbor raw with Ok st => st | Err _ => mkDropEntityTypeCursor 0 None end
                | None => mkDropEntityTypeCursor 0 None
                end in
      drop_loop 8 database namespace entity_type batch_size st
  | _ => wrong_executor
  end.

(** *** Dispatch *)

Inductive Executor :=
  | IndexBackfillExecutor | StripPropertyExecutor | CdcRetentionExecutor | OrphanedEdgeCleanupExecutor
  | DeleteNodeCascadeExecutor | DropEntityTypeCleanupExecutor.

Definition executor_for_job (j : JobState) : Executor :=
  match job_type j with
  | IndexBackfill _ _ _ => IndexBackfillExecutor
  | StripProperty _ _ => StripPropertyExecutor
  | CdcRetention _ _ => CdcRetentionExecutor
  | OrphanedEdgeCleanup _ => OrphanedEdgeCleanupExecutor
  | DeleteNodeCascade _ _ => DeleteNodeCascadeExecutor
  | DropEntityTypeCleanup _ => DropEntityTypeCleanupExecutor
  end.

Definition execute_batch (fuel batch_size : nat) (x : Executor) : J S (option bool) :=
  match x with
  | IndexBackfillExecutor => index_backfill_batch batch_size
  | StripPropertyExecutor => strip_property_batch batch_size
  | CdcRetentionExecutor => cdc_retention_batch batch_size
  | OrphanedEdgeCleanupExecutor => orphaned_edge_batch fuel batch_size
  | DeleteNodeCascadeExecutor => delete_node_batch fuel
  | DropEntityTypeCleanupExecutor => drop_type_batch batch_size
  end.

(** ** The worker *)

(** [1.0_f64] *)
Definition F64_ONE : Z := 0x3FF0000000000000.

Definition save_job : J S unit := j ← job id; on_db (update_job j).

(** The loop over the batches of a job; [None] is out of fuel. *)
Fixpoint batch_loop (rounds fuel batch_size : nat) (x : Executor) : J S (option unit) :=
  match rounds with
  | O => mret None
  | Datatypes.S n =>
      r ← attempt_st (execute_batch fuel batch_size x);
      match r with
      | Ok None => mret None
      | Ok (Some true) =>
          p ← job processed_items;
          (if p mod 10000 =? 0 then save_job else mret tt) ;;
          batch_loop n fuel batch_size x
      | Ok (Some false) =>
          set_job (fun j => with_pct (with_status j Completed) F64_ONE) ;;
          save_job ;;
          mret (Some tt)
      | Err e =>
          set_job (fun j => with_error (with_status j Failed) (display e)) ;;
          save_job ;;
          on_db (throw e)
      end
  end.

Definition execute_job (rounds fuel batch_size : nat) : J S (option unit) :=
  x ← job executor_for_job;
  set_job (fun j => with_status j Running) ;;
  save_job ;;
  batch_loop rounds fuel batch_size x.

(** One turn of [run]: the actionable jobs, each executed to its end; a failed job
    does not stop the others. *)
Fixpoint run_jobs (rounds fuel batch_size : nat) (jobs : list JobState) : M S unit :=
  match jobs with
  | [] => mret tt
  | j :: rest => fun env w =>
      let '(_, (_, w')) := execute_job rounds fuel batch_size env (j, w) in
      run_jobs rounds fuel batch_size rest env w'
  end.

Definition worker_turn (rounds fuel batch_size : nat) (database namespace : string) : M S unit :=
  jobs ← find_actionable_jobs database namespace;
  run_jobs rounds fuel batch_size jobs.
End Executors.
