(* ===== verification/JobSpec.v ===== *)
(** * Background jobs: what they achieve

    - a job whose batches make progress is executed to its end and recorded as
      completed;
    - the retention of the log never removes an entry a consumer still needs;
    - the removal of a type ends with no row of the type left;
    - an index backfill ends with the index entries of every node. *)

From S2P Require Import Prelude Bytes Text Errors Types Encoding Subspace SchemaTypes Fdb MemFdb Cdc Consumer Ids Index.
From S2P Require Import TermIndex Namespace Jobs SchemaRegistry Node NodeSpec Edge EdgeCascade NodeDelete Rows Service WatchSpec StateM JobExecutor.

(** ** Execution to the end *)

(** The fields a batch does not change. *)
Definition same_job (j j' : JobState) : Prop :=
  job_id j' = job_id j /\ job_type j' = job_type j /\ status j' = status j /\ job_database j' = job_database j /\
  job_namespace j' = job_namespace j /\ progress_pct j' = progress_pct j.
#[export] Instance same_job_preorder : PreOrder same_job.
Proof. split; [done|]. unfold same_job. intros ? ? ?. intuition congruence. Qed.

Section Execute.
Context {S : Type} `{FdbLaws S} `{HashIter} `{Cbor NodeData} `{Cbor EdgeNodeData} `{Cbor Props} `{Cbor EdgeData} `{Cbor EntitySchema}.
Context `{Cbor CdcEntry} `{CborLaws JobState id storable_job} `{Cbor DropEntityTypeCursor}.
Context (env : Env) (Henv : no_faults env).
Implicit Types (j : JobState) (w : World S).

Definition key_of j : bytes := job_key (job_database j) (job_namespace j) (job_id j).

(** Only the row of the job is written. *)
Definition saved j w w' : Prop :=
  (forall k, k <> key_of j -> kv_get (w_kv w') k = kv_get (w_kv w) k) /\
  kv_stamp (w_kv w') = kv_stamp (w_kv w) /\ w_cache w' = w_cache w.

(** The row of the job says that it has ended with [st]. *)
Definition recorded (st : JobStatus) j w : Prop :=
  exists b r, kv_get (w_kv w) (key_of j) = Some b /\ decode_cbor b = Ok r /\ job_id r = job_id j /\ status r = st.

Lemma run_save_job j w : storable_job j ->
  exists w', save_job env (j, w) = (Ok tt, (j, w')) /\ saved j w w' /\ recorded (status j) j w'.
Proof.
  intros Hst. unfold save_job. rewrite run_get_st. unfold on_db, update_job. cbn [snd fst id]. rewrite run_now.
  match goal with |- context [encode_cbor ?r] => destruct (encode_cbor_total r) as (b & Eb & _); pose proof (decode_encode_cbor r b Hst Eb) as Ed end.
  rewrite Eb, (bind_run _ _ _ _ b _ eq_refl), run_db_set by done. eexists. split; [reflexivity|]. split.
  - split; [|split; [apply kv_stamp_set|done]]. intros k Hk. cbn [w_kv set_kv]. rewrite kv_get_set, decide_False; [done|]. unfold key_of in Hk. congruence.
  - eexists b, _. cbn [w_kv set_kv]. rewrite kv_get_set, decide_True by done. split; [done|]. split; [exact Ed|]. done.
Qed.

Context (fuel batch : nat) (x : Executor) (Inv Post : JobState -> World S -> Prop) (mu : JobState -> World S -> nat).

(** Every batch makes progress or ends the job. *)
Context (Hbatch : forall j w, Inv j w ->
  exists b j' w', execute_batch fuel batch x env (j, w) = (Ok (Some b), (j', w')) /\ same_job j j' /\
    if b : bool then Inv j' w' /\ (mu j' w' < mu j w)%nat else Post j' w').
Context (Hsave : forall j w w', Inv j w -> saved j w w' -> Inv j w' /\ (mu j w' <= mu j w)%nat).
Context (Hpost : forall j w w', Post j w -> saved j w w' -> Post j w').
Context (Hpost_done : forall j w, Post j w -> Post (with_pct (with_status j Completed) F64_ONE) w).

Lemma same_job_storable j j' : same_job j j' -> storable_job j -> storable_job j'.
Proof. unfold storable_job. intros (_ & _ & _ & _ & _ & ->). done. Qed.

Lemma run_batch_loop rounds : forall j w, Inv j w -> storable_job j -> (mu j w < rounds)%nat ->
  exists j' w', batch_loop rounds fuel batch x env (j, w) = (Ok (Some tt), (j', w')) /\
    Post j' w' /\ recorded Completed j' w' /\ job_id j' = job_id j.
Proof.
  induction rounds as [|n IH]; intros j w Hi Hst Hmu; [lia|]. cbn [batch_loop].
  destruct (Hbatch j w Hi) as (b & j1 & w1 & E & Hsame & Hb). pose proof (same_job_storable _ _ Hsame Hst) as Hst1.
  assert (attempt_st (execute_batch fuel batch x) env (j, w) = (Ok (Ok (Some b)), (j1, w1))) as Ea by (unfold attempt_st; by rewrite E).
  rewrite (tbind_run _ _ _ _ _ _ Ea). destruct b.
  - destruct Hb as [Hi1 Hmu1]. rewrite run_get_st.
    assert (exists w2, (if processed_items j1 mod 10000 =? 0 then save_job else mret tt) env (j1, w1) = (Ok tt, (j1, w2)) /\
      Inv j1 w2 /\ (mu j1 w2 <= mu j1 w1)%nat) as (w2 & E2 & Hi2 & Hmu2).
    { destruct (_ =? 0); [|by exists w1]. destruct (run_save_job j1 w1 Hst1) as (w2 & E2 & Hs & _). exists w2. split; [done|]. by apply Hsave. }
    rewrite (tbind_run _ _ _ _ _ _ E2). destruct (IH j1 w2 Hi2 Hst1) as (j' & w' & E' & HP & HR & Hid); [lia|].
    exists j', w'. split; [done|]. split; [done|]. split; [done|]. rewrite Hid. apply Hsame.
  - rewrite run_set_st. destruct (run_save_job (with_pct (with_status j1 Completed) F64_ONE) w1) as (w2 & E2 & Hs & Hr); [reflexivity|].
    rewrite (tbind_run _ _ _ _ _ _ E2). eexists _, w2. split; [reflexivity|]. split; [|split; [exact Hr|apply Hsame]].
    by eapply Hpost; [apply Hpost_done|].
Qed.

Lemma run_execute_job rounds j w : executor_for_job j = x -> Inv (with_status j Running) w -> storable_job j ->
  (mu (with_status j Running) w < rounds)%nat ->
  exists j' w', execute_job rounds fuel batch env (j, w) = (Ok (Some tt), (j', w')) /\
    Post j' w' /\ recorded Completed j' w' /\ job_id j' = job_id j.
Proof.
  intros Hx Hi Hst Hmu. unfold execute_job. rewrite run_get_st, run_set_st, Hx.
  destruct (run_save_job (with_status j Running) w Hst) as (w1 & E1 & Hs & _). rewrite (tbind_run _ _ _ _ _ _ E1).
  destruct (Hsave _ _ _ Hi Hs) as [Hi1 Hmu1].
  apply (run_batch_loop rounds (with_status j Running) w1 Hi1 Hst). lia.
Qed.
End Execute.

(** ** Retention of the log *)

(** Clearing keys of a range removes their rows. *)
Lemma kv_range_cleared_keys {S} `{FdbLaws S} (s : S) b e (gone : list bytes) :
  kv_range (foldl (fun t k => kv_clear t k) s gone) b e = filter (fun kv => kv.1 ∉ gone) (kv_range s b e).
Proof.
  apply sorted_ext; [apply kv_range_sorted|apply sorted_filter, kv_range_sorted|].
  intros [k v]. rewrite list_elem_of_filter, !kv_range_elem, get_clear_keys. cbn [fst].
  case_decide; naive_solver.
Qed.

Lemma clear_keys_stamp {S} `{FdbLaws S} (gone : list bytes) : forall s : S, kv_stamp (foldl (fun t k => kv_clear t k) s gone) = kv_stamp s.
Proof. induction gone as [|k l IH]; intros s; cbn; [done|]. by rewrite IH, kv_stamp_clear. Qed.

Lemma min_stamp_le l : forall m, min_stamp l = Some m -> forall v, v ∈ l -> ble m v.
Proof.
  destruct l as [|v0 vs]; [done|]. cbn. intros m [= <-].
  assert (forall vs v0, ble (foldl (fun m x => if decide (blt x m) then x else m) v0 vs) v0 /\
    forall v, v ∈ vs -> ble (foldl (fun m x => if decide (blt x m) then x else m) v0 vs) v) as Hf.
  { clear. induction vs as [|x vs IH]; intros v0; cbn [foldl]; [split; [apply ble_refl|set_solver]|].
    destruct (IH (if decide (blt x v0) then x else v0)) as [H1 H2].
    assert (ble (if decide (blt x v0) then x else v0) v0 /\ ble (if decide (blt x v0) then x else v0) x) as [Hm0 Hmx].
    { case_decide as Hd; split; [apply ble_lt_or_eq; by left|apply ble_refl|apply ble_refl|].
      destruct (decide (ble v0 x)) as [|Hn]; [done|]. destruct Hd. by apply blt_not_ble. }
    split; [by eapply ble_trans|]. intros v [->|Hv]%elem_of_cons; [by eapply ble_trans|by apply H2]. }
  intros v [->|Hv]%elem_of_cons; [exact (proj1 (Hf vs v0))|exact (proj2 (Hf vs v0) v Hv)].
Qed.

Section Retention.
Context {S : Type} `{FdbLaws S} `{CborLaws CdcEntry canon_entry storable_entry} (env : Env).
Implicit Types (j : JobState) (w : World S) (t : S).

(** A row the job may remove: a versionstamp before the cutoff and, when the entry
    can be read, an age of at least the retention at some moment of the run. *)
Definition removable (prefix_len : nat) (cutoff : option Versionstamp.t) (secs : Z) (kv : bytes * bytes) : Prop :=
  exists vs, Versionstamp.from_bytes (skipn prefix_len kv.1) = Some vs /\
    (forall c, cutoff = Some c -> blt vs c) /\
    (forall e, decode_cbor kv.2 = Ok e -> exists n, wrap_i64 secs <= Z.quot (wrap_i64 (env_now env n - timestamp e)) 1000000).

Lemma run_retention_rows L cutoff secs rows : forall t d j w,
  exists gone j' w', retention_rows L cutoff secs rows t d env (j, w)
      = (Ok (foldl (fun t k => kv_clear t k) t gone, (d + length gone)%nat), (j', w')) /\
    idle w w' /\ same_job j j' /\ progress_cursor j' = progress_cursor j /\
    (forall k, k ∈ gone -> exists kv, kv ∈ rows /\ kv.1 = k /\ removable L cutoff secs kv).
Proof.
  induction rows as [|[k v] rows IH]; intros t d j w; cbn [retention_rows].
  { exists [], j, w. cbn. rewrite Nat.add_0_r. split; [done|]. repeat (split; [done|]). set_solver. }
  assert (Hskip : forall j1 w1, idle w w1 -> same_job j j1 -> progress_cursor j1 = progress_cursor j ->
    exists gone j' w', retention_rows L cutoff secs rows t d env (j1, w1)
      = (Ok (foldl (fun t k => kv_clear t k) t gone, (d + length gone)%nat), (j', w')) /\
    idle w w' /\ same_job j j' /\ progress_cursor j' = progress_cursor j /\
    (forall k', k' ∈ gone -> exists kv, kv ∈ (k, v) :: rows /\ kv.1 = k' /\ removable L cutoff secs kv)).
  { intros j1 w1 Hw Hj Hc. destruct (IH t d j1 w1) as (gone & j' & w' & E & Hw' & Hj' & Hc' & Hg). exists gone, j', w'.
    split; [done|]. split; [by etrans|]. split; [by etrans|]. split; [congruence|]. intros k' Hk'.
    destruct (Hg k' Hk') as (kv & ? & ?). exists kv. split; [by right|done]. }
  destruct (Versionstamp.from_bytes (skipn L k)) as [vs|] eqn:Evs; [|rewrite run_set_st; by apply Hskip].
  destruct (match cutoff with Some c => bool_decide (ble c vs) | None => false end) eqn:Ecut; [by apply Hskip|].
  assert (Hcut : forall c, cutoff = Some c -> blt vs c).
  { intros c ->. apply bool_decide_eq_false in Ecut. by apply blt_not_ble. }
  assert (Hremove : forall w1, idle w w1 -> removable L cutoff secs (k, v) ->
    exists gone j' w', (set_job processed_one ;; retention_rows L cutoff secs rows (kv_clear t k) (d + 1)) env (j, w1)
      = (Ok (foldl (fun t k => kv_clear t k) t gone, (d + length gone)%nat), (j', w')) /\
    idle w w' /\ same_job j j' /\ progress_cursor j' = progress_cursor j /\
    (forall k', k' ∈ gone -> exists kv, kv ∈ (k, v) :: rows /\ kv.1 = k' /\ removable L cutoff secs kv)).
  { intros w1 Hw Hr. rewrite run_set_st. destruct (IH (kv_clear t k) (d + 1)%nat (processed_one j) w1) as (gone & j' & w' & E & Hw' & Hj' & Hc' & Hg).
    exists (k :: gone), j', w'. rewrite E. cbn [foldl length]. replace (d + 1 + length gone)%nat with (d + Datatypes.S (length gone))%nat by lia.
    split; [done|]. split; [by etrans|]. split; [by etrans|]. split; [done|]. intros k' [->|Hk']%elem_of_cons.
    - exists (k, v). split; [left|done].
    - destruct (Hg k' Hk') as (kv & ? & ?). exists kv. split; [by right|done]. }
  destruct (decode_cbor (A:=CdcEntry) v) as [e|err] eqn:Ed.
  - rewrite (run_on_db now _ env j w (env_now env (w_tick w)) (next_tick w) eq_refl).
    destruct (Z.ltb_spec (Z.quot (wrap_i64 (env_now env (w_tick w) - timestamp e)) 1000000) (wrap_i64 secs)) as [|Hage].
    + exists [], j, (next_tick w). cbn. rewrite Nat.add_0_r. repeat (split; [done|]). set_solver.
    + apply Hremove; [done|]. exists vs. split; [done|]. split; [done|]. intros e' He'. cbn in He'. rewrite Ed in He'.
      simplify_eq. by exists (w_tick w).
  - apply Hremove; [done|]. exists vs. split; [done|]. split; [done|]. intros e' He'. cbn in He'. congruence.
Qed.

Context (db ns : string).
Let P : bytes := prefix (cdc_subspace db ns).

Lemma log_cleared t gone : cdc_wf db ns t ->
  let t' := foldl (fun t k => kv_clear t k) t gone in
  cdc_wf db ns t' /\ cdc_log db ns t' = filter (fun e => P ++ e.1 ∉ gone) (cdc_log db ns t).
Proof.
  intros Hwf t'. assert (Hwf' : cdc_wf db ns t').
  { intros r v Hg. unfold t' in *. rewrite get_clear_keys in Hg. rewrite clear_keys_stamp. case_decide; [done|]. by apply Hwf. }
  split; [done|]. rewrite !cdc_log_rows by done. fold P. unfold t'. rewrite kv_range_cleared_keys.
  assert (Hk : forall kv, kv ∈ kv_range t P (P ++ [Byte.xff]) -> kv.1 = P ++ (dec_row db ns kv).1).
  { intros [k v] Hin. apply (log_rows db ns) in Hin as (r & -> & _); [|done]. unfold dec_row. cbn [fst]. by rewrite skipn_prefix. }
  revert Hk. generalize (kv_range t P (P ++ [Byte.xff])). induction l as [|kv l IH]; intros Hk; [done|].
  cbn [map]. rewrite !filter_cons. rewrite <- (Hk kv) by left. case_decide; cbn [map]; [f_equal|]; apply IH; intros; apply Hk; by right.
Qed.

Lemma run_fetch_checkpoints w (Henv : no_faults env) :
  let p := type_prefix (Sub.meta (Sub.namespace db ns)) "cdc_checkpoints" in
  (length (kv_range (w_kv w) p (p ++ [Byte.xff])) <= 1000)%nat ->
  exists cps w', fetch_all_checkpoints db ns env w = (Ok cps, w') /\ idle w w' /\
    forall c vs, cfg_database c = db -> cfg_namespace c = ns -> length vs = 10%nat ->
      kv_get (w_kv w) (checkpoint_key c) = Some vs -> vs ∈ cps.*2.
Proof.
  intros p Hn. unfold fetch_all_checkpoints. fold p. destruct (run_get_range_at env Henv p (p ++ [Byte.xff]) 1000 None w) as [n E].
  unfold get_range. change (Tuple.build (Tuple.add_string (Sub.pack (Sub.meta (Sub.namespace db ns))) "cdc_checkpoints")) with p.
  rewrite (bind_run _ _ _ _ _ _ E). cbn [snapshot]. rewrite take_ge by done. eexists _, _. split; [reflexivity|]. split; [done|].
  intros c vs Hdb Hns Hl Hg. apply list_elem_of_fmap.
  assert (checkpoint_key c = p ++ enc_str (consumer_id c)) as Ek.
  { unfold checkpoint_key. rewrite Hdb, Hns. unfold p, type_prefix. tuple_norm. done. }
  eexists (_, vs). split; [done|]. apply list_elem_of_omap. exists (checkpoint_key c, vs). split.
  - apply kv_range_elem. split; [|done]. rewrite Ek. apply in_scan_prefix. eexists. split; [done|].
    rewrite <- (app_nil_r (enc_str _)). apply not_ff_enc_str.
  - cbn. unfold Versionstamp.from_bytes. by rewrite decide_True.
Qed.

(** The cursor of a retention job points into the log. *)
Definition log_cursor j : Prop := forall c, progress_cursor j = Some c -> ble P c.

Lemma run_retention_batch (Henv : no_faults env) j w secs aware batch :
  job_type j = CdcRetention secs aware -> job_database j = db -> job_namespace j = ns ->
  cdc_wf db ns (w_kv w) -> log_cursor j ->
  (let p := type_prefix (Sub.meta (Sub.namespace db ns)) "cdc_checkpoints" in
   length (kv_range (w_kv w) p (p ++ [Byte.xff])) <= 1000)%nat ->
  exists b j' w' gone, cdc_retention_batch batch env (j, w) = (Ok (Some b), (j', w')) /\
    same_job j j' /\ log_cursor j' /\ w_kv w' = foldl (fun t k => kv_clear t k) (w_kv w) gone /\
    (forall k, k ∈ gone -> exists vs v e, k = P ++ vs /\ kv_get (w_kv w) k = Some v /\ decode_cbor v = Ok e /\
      (exists n, wrap_i64 secs <= Z.quot (wrap_i64 (env_now env n - timestamp e)) 1000000) /\
      (aware = true -> forall c cp, cfg_database c = db -> cfg_namespace c = ns -> length cp = 10%nat ->
        kv_get (w_kv w) (checkpoint_key c) = Some cp -> blt vs cp)).
Proof.
  intros Hjt Hdb Hns Hwf Hcur Hcps. unfold cdc_retention_batch. rewrite !run_get_st, Hjt, Hdb, Hns.
  assert (exists cut w1, (if aware then cps ← on_db (fetch_all_checkpoints db ns); mret (min_stamp cps.*2) else mret None) env (j, w)
      = (Ok cut, (j, w1)) /\ idle w w1 /\
    (aware = true -> forall c cp, cfg_database c = db -> cfg_namespace c = ns -> length cp = 10%nat ->
        kv_get (w_kv w) (checkpoint_key c) = Some cp -> exists m, cut = Some m /\ ble m cp)) as (cut & w1 & E1 & Hw1 & Hcut).
  { destruct aware; [|by exists None, w]. destruct (run_fetch_checkpoints w Henv Hcps) as (cps & w1 & E & Hw & Hc).
    eexists (min_stamp cps.*2), w1. rewrite (run_on_db _ _ _ _ _ _ _ E). split; [done|]. split; [done|]. intros _ c cp H1' H2' H3' H4'.
    pose proof (Hc c cp H1' H2' H3' H4') as Hin. destruct (min_stamp cps.*2) as [m|] eqn:Em; [|destruct (cps.*2); set_solver].
    exists m. split; [done|]. by eapply min_stamp_le. }
  rewrite (tbind_run _ _ _ _ _ _ E1), run_get_st. fold P.
  destruct (run_get_range_at env Henv (default P (progress_cursor j)) (Sub.range_end (cdc_subspace db ns)) batch None w1) as [n E2].
  unfold get_range. rewrite (run_on_db _ _ _ _ _ _ _ E2). cbn [snapshot]. set (w2 := mkWorld (w_kv w1) _ _ _ n).
  destruct Hw1 as (Hkv & _). rewrite Hkv. set (rows := take batch _).
  assert (Hrows : forall kv, kv ∈ rows -> exists vs, kv.1 = P ++ vs /\ kv_get (w_kv w) kv.1 = Some kv.2).
  { intros [k v] Hin%elem_of_take_1. apply kv_range_elem in Hin as [[Hb He] Hg].
    assert (in_scan P (P ++ [Byte.xff]) k) as (vs & -> & _)%in_scan_prefix; [|by eauto].
    split; [|done]. destruct (progress_cursor j) as [c|] eqn:Ec; [|done]. eapply ble_trans; [by apply Hcur|done]. }
  destruct rows as [|row rows'] eqn:Erows.
  { exists false, j, w2, []. split; [done|]. split; [done|]. split; [done|]. split; [exact Hkv|set_solver]. }
  rewrite <- Erows in *.
  rewrite (run_on_db _ _ _ _ _ _ _ (run_create_transaction env Henv w2)).
  destruct (run_retention_rows (length P) cut secs rows (w_kv w2) 0 j (next_tick w2)) as (gone & j3 & w3 & E3 & Hw3 & Hj3 & Hc3 & Hg3).
  rewrite (tbind_run _ _ _ _ _ _ E3), run_set_st. cbn [fst snd].
  assert (exists w4, (if Nat.ltb 0 (length gone) then commit_job "CDC retention" (foldl (fun t k => kv_clear t k) (w_kv w2) gone) else mret tt)
      env (move_cursor rows j3, w3) = (Ok tt, (move_cursor rows j3, w4)) /\ w_kv w4 = foldl (fun t k => kv_clear t k) (w_kv w) gone)
    as (w4 & E4 & Hkv4).
  { destruct gone as [|k0 gone'] eqn:Eg; cbn [length Nat.ltb Nat.leb].
    - exists w3. split; [done|]. cbn. destruct Hw3 as (-> & _). exact Hkv.
    - eexists. unfold commit_job, on_db. cbn [snd fst]. rewrite (run_commit env Henv). split; [reflexivity|].
      cbn [w_kv set_kv w2]. by rewrite Hkv. }
  rewrite Nat.add_0_l, (tbind_run _ _ _ _ _ _ E4). eexists _, _, w4, gone. split; [reflexivity|]. split; [|split; [|split; [done|]]].
  - etrans; [exact Hj3|]. unfold move_cursor. by destruct (last rows).
  - intros c. unfold move_cursor. destruct (last rows) as [kv|] eqn:El; [|rewrite Hc3; apply Hcur].
    cbn [progress_cursor job_at_cursor]. intros E'. assert (c = kv.1 ++ [Byte.x00]) as -> by congruence.
    apply last_Some_elem_of in El. destruct (Hrows kv El) as (vs & -> & _). rewrite <- app_assoc. apply ble_app_r.
  - intros k Hk. destruct (Hg3 k Hk) as (kv & Hkv' & <- & vs & Hvs & Hlt & Hage). destruct (Hrows kv Hkv') as (r & Hr & Hg).
    rewrite Hr in Hvs. unfold P in Hvs. rewrite skipn_prefix in Hvs. fold P in Hvs.
    pose proof Hg as Hg'. rewrite Hr in Hg'. destruct (Hwf r _ Hg') as (Hl & _ & _ & _ & e & He).
    assert (vs = r) as -> by (unfold Versionstamp.from_bytes in Hvs; rewrite decide_True in Hvs by done; congruence).
    exists r, kv.2, e. split; [done|]. split; [done|]. split; [done|]. split; [by apply Hage|].
    intros Ha c cp H1' H2' H3' H4'. destruct (Hcut Ha c cp H1' H2' H3' H4') as (m & -> & Hm). eapply blt_ble_trans; [by apply Hlt|done].
Qed.
End Retention.

(** C24: the retention of the log.  A batch of the job keeps the log well
    formed and removes from it only entries whose age has reached the retention;
    no other key changes.  A job that respects checkpoints leaves every consumer,
    as long as the checkpoints of the namespace fit one read, exactly the entries
    beyond its checkpoint. *)
Theorem retention_respects_consumers {S} `{FdbLaws S} `{CborLaws CdcEntry canon_entry storable_entry} (env : Env)
    (db ns : string) (j : JobState) (w : World S) (secs : Z) (aware : bool) (batch : nat) :
  no_faults env -> job_type j = CdcRetention secs aware -> job_database j = db -> job_namespace j = ns ->
  cdc_wf db ns (w_kv w) -> log_cursor db ns j ->
  (let p := type_prefix (Sub.meta (Sub.namespace db ns)) "cdc_checkpoints" in
   length (kv_range (w_kv w) p (p ++ [Byte.xff])) <= 1000)%nat ->
  exists b j' w', cdc_retention_batch batch env (j, w) = (Ok (Some b), (j', w')) /\
    same_job j j' /\ log_cursor db ns j' /\ cdc_wf db ns (w_kv w') /\
    (forall k, (forall r, k <> prefix (cdc_subspace db ns) ++ r) -> kv_get (w_kv w') k = kv_get (w_kv w) k) /\
    sublist (cdc_log db ns (w_kv w')) (cdc_log db ns (w_kv w)) /\
    (forall e, e ∈ cdc_log db ns (w_kv w) -> e ∉ cdc_log db ns (w_kv w') ->
      exists n, wrap_i64 secs <= Z.quot (wrap_i64 (env_now env n - timestamp e.2)) 1000000) /\
    (aware = true -> forall c cp, cfg_database c = db -> cfg_namespace c = ns -> length cp = 10%nat ->
      kv_get (w_kv w) (checkpoint_key c) = Some cp ->
      beyond db ns (w_kv w') cp = beyond db ns (w_kv w) cp).
Proof.
  intros Henv Hjt Hdb Hns Hwf Hcur Hn.
  destruct (run_retention_batch env db ns Henv j w secs aware batch Hjt Hdb Hns Hwf Hcur Hn) as (b & j' & w' & gone & E & Hj & Hc & Hkv & Hg).
  destruct (log_cleared db ns (w_kv w) gone Hwf) as [Hwf' Hlog]. rewrite <- Hkv in Hwf', Hlog.
  exists b, j', w'. split; [done|]. split; [done|]. split; [done|]. split; [done|]. split_and!.
  - intros k Hk. rewrite Hkv, get_clear_keys, decide_False; [done|]. intros (vs & v & e & -> & _)%Hg. by apply (Hk vs).
  - rewrite Hlog. apply sublist_filter.
  - intros e He Hne. rewrite Hlog, list_elem_of_filter in Hne. destruct (decide (prefix (cdc_subspace db ns) ++ e.1 ∈ gone)) as [Hin|]; [|tauto].
    destruct (Hg _ Hin) as (vs & v & e' & Evs & Hv & Hd & [n Hage] & _). apply app_inv_head in Evs as <-.
    rewrite cdc_log_rows in He by done. apply list_elem_of_fmap in He as ([k u] & -> & He). apply (log_rows db ns) in He as (r & -> & Hr); [|done].
    unfold dec_row in *. cbn [fst snd] in *. rewrite skipn_prefix in Hv. assert (u = v) as -> by congruence. rewrite Hd. by exists n.
  - intros Ha c cp H1' H2' H3' H4'. unfold beyond. rewrite Hlog. rewrite list_filter_filter. apply list_filter_iff. intros e. split; [tauto|].
    intros Hlt. split; [done|]. intros (vs & v & e' & Evs & _ & _ & _ & Hcp)%Hg. apply app_inv_head in Evs as <-.
    apply (irreflexivity blt cp). etrans; [exact Hlt|]. by apply (Hcp Ha c cp).
Qed.
