(* ===== verification/JobDrop.v ===== *)
(** * Background jobs: the removal of a type

    [DropEntityTypeCleanupExecutor] removes the rows of a type in seven phases.
    The invariant of the job relates the store to the one it started from: the
    phases that are over left nothing, the current one nothing before its cursor,
    and nothing else was touched. *)

From S2P Require Import Prelude Bytes Text Errors Types Encoding Subspace SchemaTypes Fdb MemFdb Cdc Consumer Ids Index.
From S2P Require Import TermIndex Namespace Jobs SchemaRegistry Node NodeSpec Edge EdgeCascade NodeDelete Rows Service WatchState WatchSpec StateM JobExecutor JobSpec.

Section Drop.
Context {S : Type} `{FdbLaws S} `{HashIter} `{Cbor NodeData} `{Cbor EdgeNodeData} `{Cbor Props} `{Cbor EdgeData} `{Cbor EntitySchema}.
Context `{Cbor CdcEntry} `{CborLaws JobState id storable_job} `{CborLaws DropEntityTypeCursor id (fun _ => True)}.
Context (env : Env) (Henv : no_faults env) (db ns et : string).
Implicit Types (j : JobState) (w : World S) (t : S) (st : DropEntityTypeCursor) (ph : Z) (k : bytes).
Local Abbreviation edge := (Sub.edge (Sub.namespace db ns)).

Definition meta_prefix : bytes :=
  Tuple.build (Tuple.add_string (Tuple.add_marker (Sub.pack edge) edge_markers.FORWARD_META) et).

(** The prefix a phase scans. *)
Definition phase_scan ph : bytes :=
  if ph =? DROP_TYPE_PHASE_EDGE_REVERSE_BY_SOURCE then meta_prefix
  else default [] (drop_type_phase_prefix db ns et ph).

Definition in_phase ph k : Prop := in_scan (phase_scan ph) (phase_scan ph ++ [Byte.xff]) k.
#[export] Instance in_phase_dec ph k : Decision (in_phase ph k).
Proof. unfold in_phase, in_scan. apply _. Defined.

(** The subspace of a phase and what the keys of a phase start with in it. *)
Definition phase_marker ph : string := if ph =? 0 then markers.SCHEMA else if ph =? 1 then markers.DATA else if ph =? 2 then markers.IDX else markers.EDGE.
Definition phase_head ph : list byte :=
  if ph =? 3 then [edge_markers.FORWARD] else if ph =? 4 then [edge_markers.FORWARD_META]
  else if ph =? 5 then [edge_markers.FORWARD_META] else if ph =? 6 then [edge_markers.REVERSE] else [].

Lemma phase_cases ph : 0 <= ph < 7 -> ph = 0 \/ ph = 1 \/ ph = 2 \/ ph = 3 \/ ph = 4 \/ ph = 5 \/ ph = 6.
Proof. lia. Qed.

Lemma phase_scan_eq ph : 0 <= ph < 7 ->
  exists r, phase_scan ph = prefix (Sub.subspace (Sub.namespace db ns) (phase_marker ph)) ++ phase_head ph ++ r.
Proof.
  intros Hp. destruct (phase_cases ph Hp) as [->|[->|[->|[->|[->|[->| ->]]]]]]; cbn -[Sub.subspace Sub.namespace];
    unfold type_prefix, meta_prefix; tuple_norm; cbn [app]; eexists; reflexivity.
Qed.

Lemma in_phase_key ph k : 0 <= ph < 7 -> in_phase ph k ->
  exists r, k = prefix (Sub.subspace (Sub.namespace db ns) (phase_marker ph)) ++ phase_head ph ++ r.
Proof.
  intros Hp (r & -> & _)%in_scan_prefix. destruct (phase_scan_eq ph Hp) as [r' ->]. exists (r' ++ r). by rewrite <- !app_assoc.
Qed.

Lemma no_null_phase ph : no_null (phase_marker ph).
Proof. unfold phase_marker. repeat case_match; marker. Qed.

(** Keys of the phases before the fourth are not rows of edges' metadata. *)
Lemma early_phase_not_meta ph k : 0 <= ph < 4 -> in_phase ph k -> in_phase 5 k -> False.
Proof.
  intros Hp (r & E)%in_phase_key (r' & E')%in_phase_key; [|lia..]. rewrite E in E'.
  destruct (phase_cases ph) as [->|[->|[->|[->|?]]]]; [lia|..|lia];
    apply ns_key_inj in E' as (_ & _ & Em & Er); try apply no_null_phase; try discriminate Em. by cbn in Er.
Qed.

Lemma reverse_like_key s tg l : exists r, reverse_like edge s tg l
  = prefix (Sub.subspace (Sub.namespace db ns) markers.EDGE) ++ edge_markers.REVERSE :: r.
Proof. unfold reverse_like. tuple_norm. cbn [app]. eexists. reflexivity. Qed.

Lemma reverse_like_not_meta s tg l : ~ in_phase 5 (reverse_like edge s tg l).
Proof.
  intros (r & E)%in_phase_key; [|lia]. destruct (reverse_like_key s tg l) as [r' E']. rewrite E' in E.
  apply ns_key_inj in E as (_ & _ & _ & E); [by cbn in E|marker|apply no_null_phase].
Qed.

Lemma phase_marker_not_jobs ph : phase_marker ph <> markers.JOBS.
Proof. unfold phase_marker. by repeat case_match. Qed.

Lemma job_key_not_phase ph id : 0 <= ph < 7 -> ~ in_phase ph (job_key db ns id).
Proof.
  intros Hp (r & E)%in_phase_key; [|done]. unfold job_key, Sub.jobs in E.
  change (Tuple.build (Tuple.add_string (Sub.pack ?s) id)) with (prefix s ++ enc_str id) in E.
  apply ns_key_inj in E as (_ & _ & Em & _); [by apply (phase_marker_not_jobs ph)|marker|apply no_null_phase].
Qed.

Lemma job_key_not_reverse s tg l id : reverse_like edge s tg l <> job_key db ns id.
Proof.
  destruct (reverse_like_key s tg l) as [r ->]. unfold job_key, Sub.jobs.
  change (Tuple.build (Tuple.add_string (Sub.pack ?s) id)) with (prefix s ++ enc_str id).
  apply subspace_ne; [marker|marker|done].
Qed.

(** ** The invariant *)

(** The reverse row of an edge that starts at a node of the type. *)
Definition outgoing_reverse t k : Prop :=
  exists kv s tg l, kv ∈ kv_range t meta_prefix (meta_prefix ++ [Byte.xff]) /\ edge_ends kv.2 = Some (s, tg, l) /\
    k = reverse_like edge s tg l.

(** What the job removes. *)
Definition of_type t k : Prop := (exists ph, 0 <= ph < 7 /\ ph <> 4 /\ in_phase ph k) \/ outgoing_reverse t k.

(** The rows of metadata the fourth phase has been through. *)
Definition gone_through st k : Prop := 4 < phase st \/ phase st = 4 /\ exists n, next_start st = Some n /\ blt k n.

Record drop_inv (jk : bytes) (t0 : S) st t : Prop := {
  di_phase : 0 <= phase st <= 7;
  di_start : forall n, next_start st = Some n -> phase st < 7 /\ ble (phase_scan (phase st)) n;
  di_over : forall ph k, 0 <= ph < phase st -> ph <> 4 -> in_phase ph k -> kv_get t k = None;
  di_before : forall n k, next_start st = Some n -> phase st <> 4 -> in_phase (phase st) k -> blt k n -> kv_get t k = None;
  di_meta : phase st <= 4 -> forall k, in_phase 5 k -> kv_get t k = kv_get t0 k;
  di_reverse : forall kv s tg l, kv ∈ kv_range t0 meta_prefix (meta_prefix ++ [Byte.xff]) -> gone_through st kv.1 ->
    edge_ends kv.2 = Some (s, tg, l) -> kv_get t (reverse_like edge s tg l) = None;
  di_frame : forall k, k <> jk -> kv_get t k = kv_get t0 k \/ kv_get t k = None /\ of_type t0 k
}.

Lemma drop_inv_start jk t0 : drop_inv jk t0 (mkDropEntityTypeCursor 0 None) t0.
Proof.
  split; cbn; try done; try lia; [|by auto]. intros kv s tg l _ [?|[? _]]; cbn in *; lia.
Qed.

(** The job's own row is none of the rows it removes. *)
Lemma drop_inv_saved id t0 st t t' : drop_inv (job_key db ns id) t0 st t ->
  (forall k, k <> job_key db ns id -> kv_get t' k = kv_get t k) -> drop_inv (job_key db ns id) t0 st t'.
Proof.
  intros [] Hk. assert (Hph : forall ph k, 0 <= ph < 7 -> in_phase ph k -> kv_get t' k = kv_get t k).
  { intros ph k Hp Hin. apply Hk. intros ->. by apply (job_key_not_phase ph id Hp). }
  split; try done.
  - intros ph k Hp Hne Hin. rewrite (Hph ph) by (done || lia). by eapply di_over0.
  - intros n k Hn Hne Hin Hlt. rewrite (Hph (phase st)); [by eapply di_before0| |done]. destruct (di_start0 n Hn). lia.
  - intros Hp k Hin. rewrite (Hph 5) by (done || lia). by apply di_meta0.
  - intros kv s tg l Hin Hg He. rewrite Hk by apply job_key_not_reverse. by eapply di_reverse0.
  - intros k Hne. rewrite Hk by done. by apply di_frame0.
Qed.

(** ** One step *)

Definition start_of st : bytes := default (phase_scan (phase st)) (next_start st).
Definition rows_left st t : list (bytes * bytes) := kv_range t (start_of st) (phase_scan (phase st) ++ [Byte.xff]).

Lemma start_ble jk t0 st t : drop_inv jk t0 st t -> ble (phase_scan (phase st)) (start_of st).
Proof. intros []. unfold start_of. destruct (next_start st) as [n|] eqn:E; [|apply ble_refl]. by apply (di_start0 n). Qed.

(** A key of the phase at or after the start is a row that is left. *)
Lemma rows_left_elem st t k v : in_phase (phase st) k -> ble (start_of st) k -> kv_get t k = Some v -> (k, v) ∈ rows_left st t.
Proof. intros [_ He] Hs Hg. apply kv_range_elem. by repeat split. Qed.

Lemma phase_over jk t0 st t : drop_inv jk t0 st t -> phase st < 7 -> rows_left st t = [] -> drop_inv jk t0 (next_phase st) t.
Proof.
  intros Hi Hp Hr. pose proof Hi as [].
  assert (Ephase : phase (next_phase st) = phase st + 1) by (unfold next_phase, U8_MAX; cbn; lia).
  assert (Hnone : forall k v, in_phase (phase st) k -> kv_get t k = Some v -> exists n, next_start st = Some n /\ blt k n).
  { intros k v Hin Hg. destruct (decide (ble (start_of st) k)) as [Hs|Hs].
    - pose proof (rows_left_elem st t k v Hin Hs Hg) as Hrow. rewrite Hr in Hrow. by apply not_elem_of_nil in Hrow.
    - apply blt_not_ble in Hs. unfold start_of in Hs. destruct (next_start st) as [n|]; [by exists n|]. destruct Hin as [Hb _].
      by apply blt_not_ble in Hs. }
  split; rewrite ?Ephase; try done; try lia.
  - intros ph k Hph Hne Hin. destruct (decide (ph = phase st)) as [->|]; [|apply (di_over0 ph); [lia|done..]].
    destruct (kv_get t k) as [v|] eqn:Eg; [|done]. destruct (Hnone k v Hin Eg) as (n & Hn & Hlt). by rewrite (di_before0 n k) in Eg.
  - intros ? k Hin. apply di_meta0; [lia|done].
  - intros kv s0 tg l Hkv Hg He. apply (di_reverse0 kv s0 tg l); [done| |done]. unfold gone_through in *.
    destruct Hg as [Hg|(Hg & n & [=] & _)]. rewrite Ephase in Hg. destruct (decide (phase st = 4)) as [E4|]; [right|left; lia].
    split; [done|]. destruct kv as [k v]. apply kv_range_elem in Hkv as [Hin Hv]. apply (Hnone k v); rewrite ?E4; [done|].
    rewrite di_meta0; [done|lia|done].
Qed.

(** A page of rows is removed. *)
Lemma page_removed jk t0 st t n kv : drop_inv jk t0 st t -> phase st < 7 -> phase st <> 4 ->
  last (take n (rows_left st t)) = Some kv ->
  drop_inv jk t0 (mkDropEntityTypeCursor (phase st) (Some (next_scan_start kv.1)))
    (foldl (fun t k => kv_clear t k) t (take n (rows_left st t)).*1).
Proof.
  intros Hi Hp Hp4 Hl. pose proof (start_ble _ _ _ _ Hi) as Hsb. destruct Hi. set (rows := take n (rows_left st t)) in *.
  assert (Hrow : forall kv, kv ∈ rows -> in_phase (phase st) kv.1 /\ ble (start_of st) kv.1).
  { intros [k v] Hin%elem_of_take_1. apply kv_range_elem in Hin as [[Hb He] _]. split; [|done]. split; [by eapply ble_trans|done]. }
  assert (Hget : forall k, kv_get t k = None -> kv_get (foldl (fun t k => kv_clear t k) t rows.*1) k = None)
    by (intros k Hk; rewrite get_clear_keys; by case_decide).
  destruct kv as [k0 v0]. pose proof (last_Some_elem_of _ _ Hl) as Hk0. destruct (Hrow _ Hk0) as [Hin0 Hst0]. cbn [fst] in *.
  split; cbn [phase next_start]; try done.
  - intros m [= <-]. split; [done|]. eapply ble_trans; [exact (proj1 Hin0)|apply ble_app_r].
  - intros ph k Hph Hne Hin. by eapply Hget, di_over0.
  - intros m k [= <-] _ Hin Hlt. rewrite get_clear_keys. case_decide as Hd; [done|].
    destruct (kv_get t k) as [v|] eqn:Eg; [|done]. destruct (decide (ble (start_of st) k)) as [Hs|Hs].
    + exfalso. apply Hd. pose proof (rows_left_elem st t k v Hin Hs Eg) as Hleft.
      rewrite <- (take_drop n (rows_left st t)) in Hleft. apply elem_of_app in Hleft as [Hleft|Hleft].
      * by apply (list_elem_of_fmap_2 fst) in Hleft.
      * unfold rows_left in Hl, Hleft. rewrite <- (range_next _ _ _ _ _ _ Hl) in Hleft. apply kv_range_elem in Hleft as [[Hge _] _].
        exfalso. apply (irreflexivity blt k). by eapply blt_ble_trans.
    + apply blt_not_ble in Hs. unfold start_of in Hs. destruct (next_start st) as [m|] eqn:En.
      * by rewrite (di_before0 m k) in Eg.
      * destruct Hin as [Hb _]. by apply blt_not_ble in Hs.
  - intros Hle k Hin. rewrite get_clear_keys, decide_False; [by apply di_meta0|].
    intros (kv & -> & Hkv)%list_elem_of_fmap. apply (early_phase_not_meta (phase st) kv.1); [lia|by apply Hrow|done].
  - intros kv s0 tg l Hkv Hg He. apply Hget. apply (di_reverse0 kv s0 tg l); [done| |done].
    destruct Hg as [Hg|[Hg _]]; cbn in Hg; [by left|done].
  - intros k Hne. rewrite get_clear_keys. case_decide as Hd; [|by apply di_frame0]. right. split; [done|]. left.
    exists (phase st). split; [lia|]. split; [done|]. apply list_elem_of_fmap in Hd as (kv & -> & Hkv). by apply Hrow.
Qed.

Lemma reverse_keys_elem rows k : k ∈ reverse_keys edge rows <->
  exists kv s tg l, kv ∈ rows /\ edge_ends kv.2 = Some (s, tg, l) /\ k = reverse_like edge s tg l.
Proof.
  unfold reverse_keys. rewrite list_elem_of_omap. split.
  - intros (kv & Hkv & E). destruct (edge_ends kv.2) as [[[s tg] l]|] eqn:Ee; [|done]. cbn in E. injection E as <-. by exists kv, s, tg, l.
  - intros (kv & s & tg & l & Hkv & Ee & ->). exists kv. split; [done|]. by rewrite Ee.
Qed.

(** A page of metadata: the reverse rows of its edges are removed. *)
Lemma page_of_sources jk t0 st t n kv : drop_inv jk t0 st t -> phase st = 4 ->
  last (take n (rows_left st t)) = Some kv ->
  let t' := foldl (fun t k => kv_clear t k) t (reverse_keys edge (take n (rows_left st t))) in
  drop_inv jk t0 (mkDropEntityTypeCursor 4 (Some (next_scan_start kv.1))) t' /\
  forall k, in_phase 5 k -> kv_get t' k = kv_get t k.
Proof.
  intros Hi Hp4 Hl t'. pose proof (start_ble _ _ _ _ Hi) as Hsb. destruct Hi. set (rows := take n (rows_left st t)) in *.
  assert (Hrow : forall kv, kv ∈ rows -> kv ∈ kv_range t0 meta_prefix (meta_prefix ++ [Byte.xff])).
  { intros [k v] Hin%elem_of_take_1. apply kv_range_elem in Hin as [[Hb He] Hg]. rewrite Hp4 in *.
    assert (in_phase 5 k) as H5' by (split; [by eapply ble_trans|done]).
    apply kv_range_elem. split; [exact H5'|]. rewrite <- di_meta0; [done|lia|done]. }
  assert (Hget : forall k, kv_get t' k = if decide (k ∈ reverse_keys edge rows) then None else kv_get t k)
    by (intros k; apply get_clear_keys).
  assert (Hnone : forall k, kv_get t k = None -> kv_get t' k = None) by (intros k Hk; rewrite Hget; by case_decide).
  assert (Hmeta : forall k, in_phase 5 k -> kv_get t' k = kv_get t k).
  { intros k Hin. rewrite Hget, decide_False; [done|]. intros (? & s & tg & l & _ & _ & ->)%reverse_keys_elem. by eapply reverse_like_not_meta. }
  split; [|done]. destruct kv as [k0 v0]. pose proof (last_Some_elem_of _ _ Hl) as Hk0.
  split; cbn [phase next_start]; try lia.
  - intros m [= <-]. split; [lia|]. apply Hrow, kv_range_elem in Hk0 as [[Hb _] _]. eapply ble_trans; [exact Hb|apply ble_app_r].
  - intros ph k Hph Hne Hin. apply Hnone, (di_over0 ph); [lia|done..].
  - intros _ k Hin. rewrite Hmeta by done. apply di_meta0; [lia|done].
  - intros [k v] s tg l Hkv Hg He. destruct Hg as [Hg|(_ & m & [= <-] & Hlt)]; cbn in Hg || cbn [fst] in Hlt; [lia|].
    rewrite Hget. case_decide as Hd; [done|]. pose proof Hkv as [Hin Hv]%kv_range_elem.
    destruct (decide (ble (start_of st) k)) as [Hs|Hs].
    + exfalso. apply Hd, reverse_keys_elem. exists (k, v), s, tg, l. split; [|done].
      assert ((k, v) ∈ rows_left st t) as Hleft.
      { apply rows_left_elem; [by rewrite Hp4|done|]. rewrite di_meta0; [done|lia|done]. }
      rewrite <- (take_drop n (rows_left st t)) in Hleft. apply elem_of_app in Hleft as [Hleft|Hleft]; [done|].
      unfold rows_left in Hl, Hleft. rewrite <- (range_next _ _ _ _ _ _ Hl) in Hleft. apply kv_range_elem in Hleft as [[Hge _] _].
      exfalso. apply (irreflexivity blt k). by eapply blt_ble_trans.
    + apply blt_not_ble in Hs. apply (di_reverse0 (k, v) s tg l); [done| |done]. right. split; [done|].
      unfold start_of in Hs. destruct (next_start st) as [m|]; [by exists m|]. rewrite Hp4 in Hs. cbn [default] in Hs.
      destruct Hin as [Hb _]. exfalso. apply (irreflexivity blt k). by eapply blt_ble_trans.
  - intros k Hne. rewrite Hget. case_decide as Hd; [|by apply di_frame0]. right. split; [done|]. right.
    apply reverse_keys_elem in Hd as (kv & s & tg & l & Hkv & He & ->). exists kv, s, tg, l. split; [by apply Hrow|done].
Qed.

(** What a batch clears. *)
Definition page_keys st (rows : list (bytes * bytes)) : list bytes :=
  if phase st =? DROP_TYPE_PHASE_EDGE_REVERSE_BY_SOURCE then reverse_keys edge rows else rows.*1.

(** A page, of whatever phase: the invariant holds at the key after it, with fewer
    rows left. *)
Lemma page_step jk t0 st t n kv : drop_inv jk t0 st t -> phase st < 7 ->
  last (take n (rows_left st t)) = Some kv ->
  let st' := mkDropEntityTypeCursor (phase st) (Some (next_scan_start kv.1)) in
  let t' := foldl (fun t k => kv_clear t k) t (page_keys st (take n (rows_left st t))) in
  drop_inv jk t0 st' t' /\ (length (rows_left st' t') <= length (drop n (rows_left st t)))%nat.
Proof.
  intros Hi Hp Hl st' t'. split.
  - unfold st', t', page_keys, DROP_TYPE_PHASE_EDGE_REVERSE_BY_SOURCE. destruct (Z.eqb_spec (phase st) 4) as [E4|].
    + rewrite E4. by apply page_of_sources.
    + by apply page_removed.
  - destruct kv as [k v]. unfold t', rows_left at 1. rewrite kv_range_cleared_keys. etrans; [apply length_filter|].
    unfold start_of, st'. cbn [next_start phase default fst]. unfold rows_left in *. by rewrite <- (range_next _ _ _ _ _ _ Hl).
Qed.

(** How far the job is from its end: the rows left of the phase, and for every later
    phase its rows and one turn. *)
Definition phase_size t ph : nat := Datatypes.S (length (kv_range t (phase_scan ph) (phase_scan ph ++ [Byte.xff]))).
Definition later_phases t ph : nat := sum_list_with (phase_size t) (seqZ (ph + 1) (6 - ph)).
Definition to_do st t : nat := length (rows_left st t) + later_phases t (phase st).

Lemma later_cleared t ph keys : (later_phases (foldl (fun t k => kv_clear t k) t keys) ph <= later_phases t ph)%nat.
Proof.
  unfold later_phases. induction (seqZ (ph + 1) (6 - ph)) as [|p l IH]; cbn [sum_list_with]; [done|].
  apply Nat.add_le_mono; [|done]. unfold phase_size. rewrite kv_range_cleared_keys. apply le_n_S, length_filter.
Qed.

Lemma to_do_next st t : 0 <= phase st < 6 -> (to_do (next_phase st) t < later_phases t (phase st))%nat.
Proof.
  intros Hp. assert (Ephase : phase (next_phase st) = phase st + 1) by (unfold next_phase, U8_MAX; cbn; lia).
  unfold to_do, rows_left, start_of. rewrite Ephase. cbn [next_phase next_start default]. unfold later_phases at 2.
  rewrite seqZ_cons by lia. cbn [sum_list_with]. unfold phase_size at 1, later_phases.
  replace (Z.succ (phase st + 1)) with (phase st + 1 + 1) by lia. replace (Z.pred (6 - phase st)) with (6 - (phase st + 1)) by lia. lia.
Qed.

Lemma to_do_saved id st t t' : (forall k, k <> job_key db ns id -> kv_get t' k = kv_get t k) ->
  0 <= phase st <= 7 -> (forall n, next_start st = Some n -> phase st < 7 /\ ble (phase_scan (phase st)) n) ->
  phase st < 7 -> to_do st t' = to_do st t.
Proof.
  intros Hk Hp Hs Hp7.
  assert (Hr : forall ph b, 0 <= ph < 7 -> ble (phase_scan ph) b ->
    kv_range t' b (phase_scan ph ++ [Byte.xff]) = kv_range t b (phase_scan ph ++ [Byte.xff])).
  { intros ph b Hph Hb. apply sorted_ext; [apply kv_range_sorted..|]. intros [k v]. rewrite !kv_range_elem.
    assert (in_scan b (phase_scan ph ++ [Byte.xff]) k -> kv_get t' k = kv_get t k) as Hg.
    { intros [Hge Hlt]. apply Hk. intros ->. apply (job_key_not_phase ph id Hph). split; [by eapply ble_trans|done]. }
    split; intros [Hin Hv]; (split; [done|]); specialize (Hg Hin); congruence. }
  unfold to_do, rows_left. rewrite Hr; [|lia|unfold start_of; destruct (next_start st) as [n|]; [by apply (Hs n)|apply ble_refl]].
  f_equal. unfold later_phases. assert (Hall : Forall (fun ph => 0 <= ph < 7) (seqZ (phase st + 1) (6 - phase st))).
  { apply Forall_forall. intros ph Hin%elem_of_seqZ. lia. }
  induction Hall as [|ph l Hph _ IH]; cbn; [done|]. rewrite IH. unfold phase_size. rewrite Hr; [done|lia|apply ble_refl].
Qed.

(** ** The run *)

(** Where a job stands: the cursor it carries, or the start. *)
Definition cursor_state j : DropEntityTypeCursor :=
  match progress_cursor j with
  | Some raw => match decode_cbor raw with Ok st => st | Err _ => mkDropEntityTypeCursor 0 None end
  | None => mkDropEntityTypeCursor 0 None
  end.

(** The outcome of a batch that started with [n] to do. *)
Definition batch_outcome jk (t0 : S) (n : nat) (b : bool) j t : Prop :=
  if b then drop_inv jk t0 (cursor_state j) t /\ phase (cursor_state j) < 7 /\ (to_do (cursor_state j) t < n)%nat
  else exists st, drop_inv jk t0 st t /\ phase st = 7.

(** The end of a turn: the cursor is stored, or dropped after the last phase. *)
Lemma run_drop_continue jk t0 batch rows st t j w n : drop_inv jk t0 (drop_advance batch rows st) t -> w_kv w = t ->
  (phase (drop_advance batch rows st) < 7 -> (to_do (drop_advance batch rows st) t < n)%nat) ->
  exists b j', drop_continue batch rows st env (j, w) = (Ok (Some b), (j', w)) /\ same_job j j' /\ batch_outcome jk t0 n b j' t.
Proof.
  intros Hi Hw Hn. unfold drop_continue. rewrite run_set_st. set (st' := drop_advance batch rows st) in *. cbn zeta.
  unfold DROP_TYPE_PHASE_DONE. destruct (Z.ltb_spec (phase st') 7) as [Hlt|Hge].
  - destruct (encode_cbor_total st') as (raw & Er & _). pose proof (decode_encode_cbor st' raw I Er) as Ed.
    rewrite Er, (run_on_db (lift (Ok raw)) _ env _ w raw w eq_refl), run_set_st.
    eexists true, _. split; [reflexivity|]. split; [done|]. unfold batch_outcome, cursor_state.
    cbn [progress_cursor job_at_cursor processed_many with_processed]. rewrite Ed. cbn [id]. auto.
  - rewrite run_set_st. eexists false, _. split; [reflexivity|]. split; [done|]. exists st'. split; [done|]. destruct Hi. lia.
Qed.

Lemma drop_prefix st : 0 <= phase st < 7 ->
  (if phase st =? DROP_TYPE_PHASE_EDGE_REVERSE_BY_SOURCE then Some meta_prefix
   else drop_type_phase_prefix db ns et (phase st)) = Some (phase_scan (phase st)).
Proof. intros Hp. unfold phase_scan. by destruct (phase_cases (phase st) Hp) as [->|[->|[->|[->|[->|[->| ->]]]]]]. Qed.

(** The batch's transaction is committed, or has nothing in it. *)
Lemma run_page_commit st rows j w :
  let keys := page_keys st rows in
  exists w', (if phase st =? DROP_TYPE_PHASE_EDGE_REVERSE_BY_SOURCE then
      if Nat.ltb 0 (length keys) then commit_job "DropEntityTypeCleanup reverse-source" (foldl (fun t k => kv_clear t k) (w_kv w) keys) else mret tt
    else commit_job "DropEntityTypeCleanup" (foldl (fun t k => kv_clear t k) (w_kv w) keys)) env (j, w) = (Ok tt, (j, w')) /\
    w_kv w' = foldl (fun t k => kv_clear t k) (w_kv w) keys.
Proof.
  intros keys. assert (Hc : forall what t, commit_job what t env (j, w) = (Ok tt, (j, set_kv (next_tick w) t))).
  { intros what t. unfold commit_job, on_db. cbn [snd fst]. by rewrite (run_commit env Henv). }
  destruct (_ =? _); [|by rewrite Hc; eexists]. destruct keys as [|k l]; cbn [length Nat.ltb Nat.leb]; [by eexists|].
  rewrite Hc. by eexists.
Qed.

(** After a page the invariant holds where the cursor is moved to, with less to do. *)
Lemma page_advance jk t0 batch st t : drop_inv jk t0 st t -> phase st < 7 ->
  let rows := take (Nat.max batch 1) (rows_left st t) in
  let t' := foldl (fun t k => kv_clear t k) t (page_keys st rows) in
  rows <> [] ->
  drop_inv jk t0 (drop_advance batch rows st) t' /\
  (phase (drop_advance batch rows st) < 7 -> (to_do (drop_advance batch rows st) t' < to_do st t)%nat).
Proof.
  intros Hi Hp rows t' Hne. destruct (last rows) as [kv|] eqn:El; [|by apply last_None in El].
  destruct (page_step jk t0 st t (Nat.max batch 1) kv Hi Hp El) as [Hi' Hlen]. fold rows t' in Hi', Hlen.
  pose proof (later_cleared t (phase st) (page_keys st rows)) as Hlater. fold t' in Hlater.
  assert (Hpos : (0 < length rows)%nat) by (destruct rows; [done|cbn; lia]).
  assert (Hsum : (length rows + length (drop (Nat.max batch 1) (rows_left st t)) = length (rows_left st t))%nat)
    by (unfold rows; rewrite <- length_app, take_drop; done).
  unfold drop_advance. destruct (Nat.ltb_spec (length rows) (Nat.max batch 1)) as [Hshort|Hfull].
  - assert (drop (Nat.max batch 1) (rows_left st t) = []) as Hd by (apply drop_ge; unfold rows in Hshort; rewrite length_take in Hshort; lia).
    rewrite Hd in Hlen. split.
    + apply (phase_over _ _ _ _ Hi' Hp). apply length_zero_iff_nil. cbn in Hlen. lia.
    + intros Hp'. assert (0 <= phase st < 6) as Hph by (destruct Hi; unfold next_phase, U8_MAX in Hp'; cbn in Hp'; lia).
      pose proof (to_do_next st t' Hph). unfold to_do at 2. lia.
  - rewrite El. split; [done|]. intros _. unfold to_do. cbn [phase]. unfold next_scan_start in Hlen. lia.
Qed.

Lemma run_drop_loop jk t0 batch n fuel : forall st j w, drop_inv jk t0 st (w_kv w) -> (Z.to_nat (7 - phase st) < fuel)%nat ->
  (phase st < 7 -> (to_do st (w_kv w) <= n)%nat) ->
  exists b j' w', drop_loop fuel db ns et batch st env (j, w) = (Ok (Some b), (j', w')) /\ same_job j j' /\
    batch_outcome jk t0 n b j' (w_kv w').
Proof.
  induction fuel as [|f IH]; intros st j w Hi Hf Hn; [lia|]. pose proof (di_phase _ _ _ _ Hi) as Hp. cbn [drop_loop]. unfold DROP_TYPE_PHASE_DONE.
  destruct (Z.ltb_spec (phase st) 7) as [Hlt|Hge]; cbn [negb].
  2: { rewrite run_set_st. eexists false, _, w. split; [reflexivity|]. split; [done|]. exists st. split; [done|lia]. }
  fold meta_prefix. rewrite drop_prefix by lia. fold (start_of st).
  destruct (run_get_range_at env Henv (start_of st) (phase_scan (phase st) ++ [Byte.xff]) (Nat.max batch 1) None w) as [m E].
  unfold get_range. rewrite (run_on_db _ _ _ _ _ _ _ E). cbn [snapshot]. fold (rows_left st (w_kv w)). set (w1 := mkWorld (w_kv w) _ _ _ m).
  set (rows := take _ _). destruct rows as [|row rows'] eqn:Er.
  - assert (Hnil : rows_left st (w_kv w) = []).
    { destruct (rows_left st (w_kv w)); [done|]. subst rows. destruct (Nat.max batch 1) eqn:Em; [lia|]. done. }
    apply IH; [by apply phase_over|unfold next_phase, U8_MAX; cbn; lia|].
    intros Hp'. assert (0 <= phase st < 6) as Hph by (unfold next_phase, U8_MAX in Hp'; cbn in Hp'; lia).
    pose proof (to_do_next st (w_kv w) Hph). specialize (Hn Hlt). unfold to_do in Hn. cbn [w_kv w1]. lia.
  - rewrite <- Er. rewrite (run_on_db _ _ _ _ _ _ _ (run_create_transaction env Henv w1)).
    destruct (run_page_commit st rows j (next_tick w1)) as (w2 & E2 & Hw2). unfold page_keys in E2. rewrite (tbind_run _ _ _ _ _ _ E2).
    destruct (page_advance jk t0 batch st (w_kv w) Hi Hlt) as [Hi' Hless]; [fold rows; by rewrite Er|]. fold rows in Hi', Hless.
    destruct (run_drop_continue jk t0 batch rows st (w_kv w2) j w2 n) as (b & j' & E3 & Hj & Ho); [by rewrite Hw2|done| |].
    { intros Hp'. rewrite Hw2. specialize (Hless Hp'). specialize (Hn Hlt). cbn [next_tick w_kv w1]. lia. }
    exists b, j', w2. done.
Qed.

(** *** The invariant of the job *)

Definition drop_job (id : string) j : Prop :=
  job_type j = DropEntityTypeCleanup et /\ job_database j = db /\ job_namespace j = ns /\ job_id j = id.
Definition drop_running id t0 j w : Prop :=
  drop_job id j /\ drop_inv (job_key db ns id) t0 (cursor_state j) (w_kv w) /\ phase (cursor_state j) < 7.
Definition drop_ended id t0 j w : Prop :=
  drop_job id j /\ exists st, drop_inv (job_key db ns id) t0 st (w_kv w) /\ phase st = 7.

Lemma drop_job_same id j j' : same_job j j' -> drop_job id j -> drop_job id j'.
Proof. unfold same_job, drop_job. intuition congruence. Qed.

Lemma drop_job_key id j : drop_job id j -> key_of j = job_key db ns id.
Proof. unfold key_of. by intros (_ & -> & -> & ->). Qed.

Lemma run_drop_batch id t0 fuel batch j w : drop_running id t0 j w ->
  exists b j' w', execute_batch fuel batch DropEntityTypeCleanupExecutor env (j, w) = (Ok (Some b), (j', w')) /\ same_job j j' /\
    if b : bool then drop_running id t0 j' w' /\ (to_do (cursor_state j') (w_kv w') < to_do (cursor_state j) (w_kv w))%nat
    else drop_ended id t0 j' w'.
Proof.
  intros (Hj & Hi & Hp). cbn [execute_batch]. unfold drop_type_batch. rewrite !run_get_st. pose proof Hj as (-> & -> & -> & _).
  rewrite run_get_st. fold (cursor_state j). pose proof (di_phase _ _ _ _ Hi).
  destruct (run_drop_loop _ t0 batch (to_do (cursor_state j) (w_kv w)) 8 (cursor_state j) j w Hi) as (b & j' & w' & E & Hsame & Ho); [lia|done|].
  exists b, j', w'. split; [done|]. split; [done|]. pose proof (drop_job_same _ _ _ Hsame Hj) as Hj'.
  destruct b; [|by split]. destruct Ho as (Hi' & Hp' & Hlt). done.
Qed.

Lemma drop_running_saved id t0 j w w' : drop_running id t0 j w -> saved j w w' ->
  drop_running id t0 j w' /\ (to_do (cursor_state j) (w_kv w') <= to_do (cursor_state j) (w_kv w))%nat.
Proof.
  intros (Hj & Hi & Hp) (Hk & _). rewrite (drop_job_key _ _ Hj) in Hk. split; [split; [done|]; split; [by eapply drop_inv_saved|done]|].
  rewrite (to_do_saved id (cursor_state j) (w_kv w)); [done|done|exact (di_phase _ _ _ _ Hi)|exact (di_start _ _ _ _ Hi)|done].
Qed.

Lemma drop_ended_saved id t0 j w w' : drop_ended id t0 j w -> saved j w w' -> drop_ended id t0 j w'.
Proof.
  intros (Hj & st & Hi & Hp) (Hk & _). rewrite (drop_job_key _ _ Hj) in Hk. split; [done|]. exists st.
  split; [by eapply drop_inv_saved|done].
Qed.
End Drop.

