(* ===== verification/JobExamples.v ===== *)
(** * Background jobs on concrete stores

    The theorems of [JobSpec] and [JobDrop] at work, and behaviours of the jobs
    an operator does not expect.  Nothing of the program is modelled here. *)

From S2P Require Import Prelude Bytes Text Errors Types Encoding Subspace SchemaTypes Fdb MemFdb Cdc Consumer Ids Index.
From S2P Require Import TermIndex Namespace Jobs SchemaRegistry Node NodeSpec Edge EdgeCascade NodeDelete Rows Service WatchState WatchExamples.
From S2P Require Import StateM JobExecutor JobSpec JobDrop.

#[export] Instance DropEntityTypeCursor_eq_dec : EqDecision DropEntityTypeCursor.
Proof. solve_decision. Defined.
#[export] Instance DropEntityTypeCursor_countable : Countable DropEntityTypeCursor.
Proof. refine (inj_countable' (fun c => (phase c, next_start c)) (fun '(p, n) => mkDropEntityTypeCursor p n) _). by intros []. Defined.
#[export] Instance drop_cursor_cbor : Cbor DropEntityTypeCursor | 100 := countable_cbor DropEntityTypeCursor id.
#[export] Instance drop_cursor_cbor_laws : CborLaws DropEntityTypeCursor id (fun _ => True).
Proof. apply countable_cbor_laws. Qed.
#[export] Instance props_cbor : Cbor Props | 100 := countable_cbor Props id.

Definition some_job (jt : JobType) : JobState :=
  mkJobState "7" jt Pending None 0 None 0 0 0 "db" "ns" None.

(** ** Retention *)

(** A consumer that has read the first of two entries. *)
Definition reader : ConsumerConfig := mkConsumerConfig "reader" "db" "ns" 10 100 1.
Definition second_stamp : bytes := kv_stamp log1.
Definition read_once : World MemKv := set_kv empty_world (kv_set log2 (checkpoint_key reader) second_stamp).
Definition much_later : Env := mkEnv (fun _ => 10000000) (fun _ => None).

Lemma read_once_wf : cdc_wf "db" "ns" (w_kv read_once).
Proof.
  apply (cdc_wf_frame "db" "ns" log2); [|done|exact log2_wf]. intros r. cbn [read_once set_kv w_kv].
  rewrite kv_get_set, decide_False; [done|]. unfold checkpoint_key, cdc_subspace. tuple_norm. apply subspace_ne; [marker|marker|done].
Qed.

Lemma retention_respects_consumers_witness :
  exists b j' w', cdc_retention_batch 10 much_later (some_job (CdcRetention 5 true), read_once) = (Ok (Some b), (j', w')) /\
    beyond "db" "ns" (w_kv w') second_stamp = beyond "db" "ns" (w_kv read_once) second_stamp.
Proof.
  destruct (retention_respects_consumers much_later "db" "ns" (some_job (CdcRetention 5 true)) read_once 5 true 10
    ltac:(intros k; reflexivity) eq_refl eq_refl eq_refl read_once_wf ltac:(intros c [=]) ltac:(vm_compute; lia))
    as (b & j' & w' & E & _ & _ & _ & _ & _ & _ & Hb).
  exists b, j', w'. split; [exact E|]. apply (Hb eq_refl reader second_stamp eq_refl eq_refl); vm_compute; reflexivity.
Defined.

(** The entry the consumer is done with is removed. *)
Example retention_removes :
  length (cdc_log "db" "ns" (w_kv (cdc_retention_batch 10 much_later (some_job (CdcRetention 5 true), read_once)).2.2)) = 1%nat.
Proof. vm_compute. reflexivity. Qed.

(** ** Removal of a type *)

Definition dropping : JobState := some_job (DropEntityTypeCleanup "Person").

Lemma likes_rows_of_type : Forall (of_type "db" "ns" "Person" graph_kv) (all_keys (graph_keys likes)).
Proof.
  assert (H : forall k, bool_decide (in_phase "db" "ns" "Person" 3 k \/ in_phase "db" "ns" "Person" 5 k \/ in_phase "db" "ns" "Person" 6 k) = true ->
    of_type "db" "ns" "Person" graph_kv k).
  { intros k [Hk|[Hk|Hk]]%bool_decide_eq_true; left; [exists 3|exists 5|exists 6]; (split; [lia|]; split; [lia|exact Hk]). }
  assert (Hall : forallb (fun k => bool_decide (in_phase "db" "ns" "Person" 3 k \/ in_phase "db" "ns" "Person" 5 k \/ in_phase "db" "ns" "Person" 6 k))
    (all_keys (graph_keys likes)) = true) by (vm_compute; reflexivity).
  apply Forall_forall. intros k Hk. apply H. apply forallb_forall with (x := k) in Hall; [exact Hall|by apply list_elem_of_In].
Qed.


(** A city likes a person. *)
Definition fan : EdgeData := mkEdgeData "2_0" ∅ 13 (Some (mkNodeRef "db" "ns" "City" "9_1")) (Some (person "1_1")) (Some "LIKES").
Definition fan_keys : list bytes := all_keys (graph_keys fan).
Definition fan_world : World MemKv := set_kv graph_world (add_edge graph_kv fan).

(** The job removes the reverse row of an edge that ends at the type, but not the
    rows that start at the other type: the edge is still listed from its source,
    and its target is gone. *)
Lemma edges_of_others_stay :
  map (fun k => bool_decide (is_Some (kv_get (w_kv (execute_job 40 0 2 quiet_env (dropping, fan_world)).2.2) k))) fan_keys = [true; true; false].
Proof. vm_compute. reflexivity. Qed.

(** ** Removal of a property *)

Definition row_of (m : Props) : bytes := match encode_cbor (mkNodeData m 1 0 0) with Ok b => b | Err _ => [] end.
Definition nick (n : Z) : Props := <["nick" := VInt 1]> (aged n).
Definition node_row : bytes := type_prefix (Sub.data (Sub.namespace "db" "ns")) "Person" ++ repeat Byte.x01 9.

(** The job reads the row of a node and writes it in a later transaction that has
    not read it: an update of the node in between, from 30 to 31, is undone. *)
Lemma stripping_undoes_update :
  let w := set_kv empty_world (kv_set empty_kv node_row (row_of (nick 31))) in
  let stale := [(node_row, row_of (nick 30))] in
  kv_get (w_kv (strip_rows "nick" 10 stale quiet_env (some_job (StripProperty "Person" "nick"), w)).2.2) node_row = Some (row_of (aged 30)).
Proof. vm_compute. reflexivity. Qed.

(** ** Progress *)

(** A batch that leaves work is recorded only when the number of processed items is
    a multiple of ten thousand: with batches of two rows the cursor in the store is
    still unset when the third batch starts. *)
Lemma progress_not_recorded :
  let '(_, (j, w)) := batch_loop 2 0 2 DropEntityTypeCleanupExecutor quiet_env (dropping, graph_world) in
  progress_cursor j <> None /\ kv_get (w_kv w) (key_of dropping) = None.
Proof. vm_compute. split; [discriminate|reflexivity]. Qed.
