(* ===== verification/RocksCache.v ===== *)
(** * The local cache: store, projector and read path

    [pelago-storage/src/rocks_cache]: a copy of the nodes and edges of some
    namespaces in an embedded RocksDB, written by projectors that follow the log
    and read by the services at the consistency a request asks for.

    RocksDB is a class [Rocks] of stores with column families, atomic batches and
    ordered iteration, with its documented behaviour as [RocksLaws]; its failures
    come from the same environment as those of the database.  The column families
    the cache uses are created when it is opened, so a handle is always found. *)

From S2P Require Import Prelude Bytes Text Errors Types Encoding Subspace SchemaTypes Fdb MemFdb Cdc Consumer Ids Index.
From S2P Require Import Node Edge StateM.

(** ** RocksDB *)

Inductive BatchOp :=
  | RPut (cf : string) (key value : bytes)
  | RDelete (cf : string) (key : bytes).

Class Rocks (R : Type) := {
  rk_get : R -> string -> bytes -> option bytes;
  rk_write : R -> list BatchOp -> R;
  (** [prefix_iterator_cf]: from the first key that is not before the prefix. *)
  rk_iter : R -> string -> bytes -> list (bytes * bytes);
  (** [iterator_cf] from the start. *)
  rk_all : R -> string -> list (bytes * bytes)
}.

(** What a batch leaves at a key. *)
Definition batch_get (ops : list BatchOp) (cf : string) (k : bytes) (old : option bytes) : option bytes :=
  foldl (fun o op =>
    match op with
    | RPut cf' k' v => if decide (cf' = cf /\ k' = k) then Some v else o
    | RDelete cf' k' => if decide (cf' = cf /\ k' = k) then None else o
    end) old ops.

Class RocksLaws (R : Type) `{Rocks R} := {
  rk_get_write : forall r ops cf k, rk_get (rk_write r ops) cf k = batch_get ops cf k (rk_get r cf k);
  rk_iter_elem : forall r cf p k v, (k, v) ∈ rk_iter r cf p -> rk_get r cf k = Some v;
  (** An iterator with a prefix extractor is only specified on keys with the prefix. *)
  rk_iter_all : forall r cf p k v, p `prefix_of` k -> rk_get r cf k = Some v -> (k, v) ∈ rk_iter r cf p;
  rk_iter_sorted : forall r cf p, StronglySorted (fun a b => blt a.1 b.1) (rk_iter r cf p);
  rk_iter_from : forall r cf p k v, (k, v) ∈ rk_iter r cf p -> ble p k;
  rk_all_elem : forall r cf k v, (k, v) ∈ rk_all r cf <-> rk_get r cf k = Some v
}.

(** ** Names *)

Definition CF_DEFAULT := "default".
Definition CF_NODE := "node".
Definition CF_EDGE := "edge".
Definition CF_META := "meta".
Definition META_HWM_KEY : bytes := sbytes "_hwm".
Definition META_HWM_UPDATED_AT_KEY : bytes := sbytes "_hwm_updated_at_ms".

Definition colons (parts : list string) : bytes := sbytes (String.concat ":" parts).

Definition node_key (db ns entity_type node_id : string) : bytes := colons ["n"; db; ns; entity_type; node_id].
Definition edge_key (db ns : string) (source : NodeRef) (label : string) (target : NodeRef) : bytes :=
  colons ["e"; db; ns; ref_entity_type source; ref_node_id source; label; ref_entity_type target; ref_node_id target].
Definition incoming_edge_key (db ns : string) (source : NodeRef) (label : string) (target : NodeRef) : bytes :=
  colons ["i"; db; ns; ref_entity_type target; ref_node_id target; label; ref_entity_type source; ref_node_id source].
Definition edge_prefix (db ns entity_type node_id : string) (label : option string) : bytes :=
  match label with
  | Some l => colons ["e"; db; ns; entity_type; node_id; l; ""]
  | None => colons ["e"; db; ns; entity_type; node_id; ""]
  end.
Definition incoming_edge_prefix (db ns entity_type node_id : string) (label : option string) : bytes :=
  match label with
  | Some l => colons ["i"; db; ns; entity_type; node_id; l; ""]
  | None => colons ["i"; db; ns; entity_type; node_id; ""]
  end.

Record EdgeMutationKey := mkEdgeMutationKey {
  ek_source_type : string; ek_source_id : string; ek_label : string; ek_target_type : string; ek_target_id : string
}.
#[export] Instance EdgeMutationKey_eq_dec : EqDecision EdgeMutationKey.
Proof. solve_decision. Defined.
#[export] Instance EdgeMutationKey_countable : Countable EdgeMutationKey.
Proof.
  refine (inj_countable' (fun k => (ek_source_type k, ek_source_id k, ek_label k, ek_target_type k, ek_target_id k))
    (fun '(a, b, c, d, e) => mkEdgeMutationKey a b c d e) _). by intros [].
Defined.

Definition mutation_key (source : NodeRef) (label : string) (target : NodeRef) : EdgeMutationKey :=
  mkEdgeMutationKey (ref_entity_type source) (ref_node_id source) label (ref_entity_type target) (ref_node_id target).

(** ** Operations staged for one write *)

(** One changed property: null removes it. *)
Definition patch_one (m : Props) (kv : string * Value) : Props :=
  if is_null kv.2 then delete kv.1 m else <[kv.1 := kv.2]> m.
Definition patch_props `{HashIter} (changed : Props) (m : Props) : Props := foldl patch_one m (hm_iter changed).

Definition created_node (ts : Z) (entity_type node_id : string) (properties : Props) (home_site : string) : StoredNode :=
  mkStoredNode node_id entity_type properties (default 1 (parse_u8 home_site)) ts ts.
Definition updated_node `{HashIter} (ts : Z) (changed : Props) (n : StoredNode) : StoredNode :=
  mkStoredNode (sn_id n) (sn_entity_type n) (patch_props changed (sn_properties n)) (sn_locality n) (sn_created_at n)
    (Z.max (sn_updated_at n) ts).
Definition transferred_node (ts : Z) (site : string) (n : StoredNode) : StoredNode :=
  mkStoredNode (sn_id n) (sn_entity_type n) (sn_properties n) (default (sn_locality n) (parse_u8 site)) (sn_created_at n)
    (Z.max (sn_updated_at n) ts).
Definition created_edge (ts : Z) (db ns source_type source_id target_type target_id edge_type edge_id : string)
    (properties : Props) : StoredEdge :=
  mkStoredEdge edge_id (mkNodeRef db ns source_type source_id) (mkNodeRef db ns target_type target_id) edge_type properties ts.

Abbreviation PendingNodes := (gmap (string * string) (option StoredNode)).
Abbreviation PendingEdges := (gmap EdgeMutationKey (option StoredEdge)).

Section Store.
Context {R S : Type} `{Rocks R} `{HashIter} `{Cbor StoredNode} `{Cbor StoredEdge} (use_column_families : bool).

(** Without column families every key is in the default one. *)
Definition column (cf : string) : string := if use_column_families then cf else CF_DEFAULT.

Definition rocks_fails (what : string) : T R S unit := on_db (may_fail (fun e => Internal (what ++ e)%string)).

Definition get_cf (cf : string) (key : bytes) : T R S (option bytes) :=
  rocks_fails "RocksDB get: " ;; get_st (fun r => rk_get r (column cf) key).
Definition put_cf (cf : string) (key value : bytes) : T R S unit :=
  rocks_fails "RocksDB put: " ;; set_st (fun r => rk_write r [RPut (column cf) key value]).
Definition delete_cf (cf : string) (key : bytes) : T R S unit :=
  rocks_fails "RocksDB delete: " ;; set_st (fun r => rk_write r [RDelete (column cf) key]).
Definition write_batch (what : string) (ops : list BatchOp) : T R S unit :=
  rocks_fails what ;; set_st (fun r => rk_write r ops).

(** [SystemTime::now()] in milliseconds, 0 before the epoch, as a [u64]. *)
Definition now_unix_ms : T R S Z := t ← on_db now; mret (Z.max t 0 / 1000 mod 2 ^ 64).

(** *** Nodes and edges *)

Definition cache_get_node (db ns entity_type node_id : string) : T R S (option StoredNode) :=
  row ← get_cf CF_NODE (node_key db ns entity_type node_id);
  match row with
  | Some b => n ← on_db (lift (decode_cbor b)); mret (Some n)
  | None => mret None
  end.

Definition put_node (db ns : string) (node : StoredNode) : T R S unit :=
  v ← on_db (lift (encode_cbor node));
  put_cf CF_NODE (node_key db ns (sn_entity_type node) (sn_id node)) v.

Definition cache_delete_node (db ns entity_type node_id : string) : T R S unit :=
  delete_cf CF_NODE (node_key db ns entity_type node_id).

Definition put_edge_ops (db ns : string) (source : NodeRef) (label : string) (target : NodeRef) (v : bytes) : list BatchOp :=
  [RPut (column CF_EDGE) (edge_key db ns source label target) v; RPut (column CF_EDGE) (incoming_edge_key db ns source label target) v].
Definition delete_edge_ops (db ns : string) (source : NodeRef) (label : string) (target : NodeRef) : list BatchOp :=
  [RDelete (column CF_EDGE) (edge_key db ns source label target); RDelete (column CF_EDGE) (incoming_edge_key db ns source label target)].

Definition put_edge (db ns : string) (e : StoredEdge) : T R S unit :=
  v ← on_db (lift (encode_cbor e));
  write_batch "RocksDB put edge: " (put_edge_ops db ns (se_source e) (se_label e) (se_target e) v).

Definition cache_delete_edge (db ns : string) (source : NodeRef) (label : string) (target : NodeRef) : T R S unit :=
  write_batch "RocksDB delete edge: " (delete_edge_ops db ns source label target).

(** The rows of an iterator, up to the first that does not have the prefix. *)
Fixpoint scan_edges (p : bytes) (rows : list (bytes * bytes)) (acc : list StoredEdge) : T R S (list StoredEdge) :=
  match rows with
  | [] => mret acc
  | (k, v) :: rest =>
      rocks_fails "RocksDB iter: " ;;
      if negb (bool_decide (p `prefix_of` k)) then mret acc
      else e ← on_db (lift (decode_cbor v)); scan_edges p rest (acc ++ [e])
  end.
Definition scan_prefix (p : bytes) : T R S (list StoredEdge) :=
  rows ← get_st (fun r => rk_iter r (column CF_EDGE) p);
  scan_edges p rows [].

Definition cache_list_edges (db ns entity_type node_id : string) (label : option string) : T R S (list StoredEdge) :=
  scan_prefix (edge_prefix db ns entity_type node_id label).
Definition cache_list_incoming_edges (db ns entity_type node_id : string) (label : option string) : T R S (list StoredEdge) :=
  scan_prefix (incoming_edge_prefix db ns entity_type node_id label).

(** *** High-water mark *)

Definition get_hwm : T R S Versionstamp.t :=
  row ← get_cf CF_META META_HWM_KEY;
  match row with
  | Some b => on_db (lift (ok_or (Versionstamp.from_bytes b) (Internal "Invalid HWM")))
  | None => mret Versionstamp.zero
  end.

Definition get_hwm_updated_at_ms : T R S (option Z) :=
  row ← get_cf CF_META META_HWM_UPDATED_AT_KEY;
  match row with
  | Some b => if Nat.eqb (length b) 8 then mret (Some (be_val b))
              else on_db (throw (Internal "Invalid cache HWM updated-at timestamp"))
  | None => mret None
  end.

Definition hwm_ops (vs : Versionstamp.t) (now_ms : Z) : list BatchOp :=
  [RPut (column CF_META) META_HWM_KEY vs; RPut (column CF_META) META_HWM_UPDATED_AT_KEY (be_bytes 8 now_ms)].
Definition set_hwm (vs : Versionstamp.t) : T R S unit :=
  ms ← now_unix_ms; write_batch "RocksDB set hwm: " (hwm_ops vs ms).

(** *** Applying a batch of operations *)

(** The node an operation finds: a staged one, or the cached one. *)
Definition staged_node (db ns : string) (pending : PendingNodes) (k : string * string) : T R S (option StoredNode) :=
  match pending !! k with
  | Some staged => mret staged
  | None => cache_get_node db ns k.1 k.2
  end.

Definition stage_op (db ns : string) (ts : Z) (st : PendingNodes * PendingEdges) (op : CdcOperation)
    : T R S (PendingNodes * PendingEdges) :=
  let '(nodes, edges) := st in
  match op with
  | NodeCreate et id props home => mret (<[(et, id) := Some (created_node ts et id props home)]> nodes, edges)
  | NodeUpdate et id changed _ =>
      existing ← staged_node db ns nodes (et, id);
      mret (match existing with
            | Some n => <[(et, id) := Some (updated_node ts changed n)]> nodes
            | None => nodes
            end, edges)
  | NodeDelete et id => mret (<[(et, id) := None]> nodes, edges)
  | EdgeCreate sty si tty ti l id props =>
      let e := created_edge ts db ns sty si tty ti l id props in
      mret (nodes, <[mutation_key (se_source e) (se_label e) (se_target e) := Some e]> edges)
  | EdgeDelete sty si tty ti l =>
      mret (nodes, <[mutation_key (mkNodeRef db ns sty si) l (mkNodeRef db ns tty ti) := None]> edges)
  | SchemaRegister _ _ _ => mret st
  | OwnershipTransfer et id _ current =>
      existing ← staged_node db ns nodes (et, id);
      mret (match existing with
            | Some n => <[(et, id) := Some (transferred_node ts current n)]> nodes
            | None => nodes
            end, edges)
  end.

Fixpoint stage_ops (db ns : string) (ts : Z) (ops : list CdcOperation) (st : PendingNodes * PendingEdges)
    : T R S (PendingNodes * PendingEdges) :=
  match ops with
  | [] => mret st
  | op :: rest => st ← stage_op db ns ts st op; stage_ops db ns ts rest st
  end.

(** [for x in xs] that extends the batch. *)
Fixpoint batch_of {A} (f : A -> result (list BatchOp)) (l : list A) : result (list BatchOp) :=
  match l with
  | [] => Ok []
  | x :: rest => a ← f x; b ← batch_of f rest; Ok (a ++ b)
  end.

Definition edge_batch (db ns : string) (p : EdgeMutationKey * option StoredEdge) : result (list BatchOp) :=
  let '(k, e) := p in
  let source := mkNodeRef db ns (ek_source_type k) (ek_source_id k) in
  let target := mkNodeRef db ns (ek_target_type k) (ek_target_id k) in
  match e with
  | Some e => v ← encode_cbor e; Ok (put_edge_ops db ns source (ek_label k) target v)
  | None => Ok (delete_edge_ops db ns source (ek_label k) target)
  end.

Definition node_batch (db ns : string) (p : (string * string) * option StoredNode) : result (list BatchOp) :=
  match p.2 with
  | Some n => v ← encode_cbor n; Ok [RPut (column CF_NODE) (node_key db ns p.1.1 p.1.2) v]
  | None => Ok [RDelete (column CF_NODE) (node_key db ns p.1.1 p.1.2)]
  end.

Definition apply_cdc_operations (db ns : string) (ops : list CdcOperation) (entry_timestamp : Z) (hwm : Versionstamp.t) : T R S unit :=
  st ← stage_ops db ns entry_timestamp ops (∅, ∅);
  edges ← on_db (lift (batch_of (edge_batch db ns) (hm_iter st.2)));
  nodes ← on_db (lift (batch_of (node_batch db ns) (hm_iter st.1)));
  ms ← now_unix_ms;
  write_batch "RocksDB batch write: " (edges ++ nodes ++ hwm_ops hwm ms).

(** *** Clearing *)

Fixpoint delete_rows (cf : string) (rows : list (bytes * bytes)) : T R S unit :=
  match rows with
  | [] => mret tt
  | kv :: rest => rocks_fails "RocksDB iter: " ;; delete_cf cf kv.1 ;; delete_rows cf rest
  end.
Definition clear_cf (cf : string) : T R S unit := rows ← get_st (fun r => rk_all r (column cf)); delete_rows cf rows.
Definition cache_clear : T R S unit :=
  if use_column_families then clear_cf CF_NODE ;; clear_cf CF_EDGE ;; clear_cf CF_META else clear_cf CF_DEFAULT.

(** ** Read path *)

Inductive ReadConsistency := Strong | Session | Eventual.
Inductive CacheFallbackReason := StrongForcedFdb | CacheCold | StaleHwm | StaleFreshnessBudget | KeyAbsent | DecodeError.
Record CacheFreshnessBudgets := mkBudgets { eventual_max_lag_ms : option Z; session_max_lag_ms : option Z }.
Record CacheLookup (A : Type) := mkLookup { lookup_value : option A; fallback_reason : option CacheFallbackReason }.
Definition hit {A} (a : A) : CacheLookup A := mkLookup A (Some a) None.
Definition miss {A} (r : CacheFallbackReason) : CacheLookup A := mkLookup A None (Some r).
Definition is_hit {A} (l : CacheLookup A) : bool := match lookup_value A l with Some _ => true | None => false end.

Inductive SessionCacheState := Fresh | Cold | SessionStale.
Definition session_fallback (s : SessionCacheState) : CacheFallbackReason :=
  match s with Fresh => KeyAbsent | Cold => CacheCold | SessionStale => StaleHwm end.

Definition versionstamp_tx_version (vs : Versionstamp.t) : Z := be_val (take 8 vs).

Definition freshness_budget_violation_reason (max_lag_ms : option Z) (hwm_is_zero : bool) (updated_at_ms : option Z) (now_ms : Z)
    : option CacheFallbackReason :=
  match max_lag_ms with
  | None => None
  | Some lag =>
      if hwm_is_zero then Some CacheCold
      else match updated_at_ms with
           | None => Some StaleFreshnessBudget
           | Some at_ms => if lag <? Z.max 0 (now_ms - at_ms) then Some StaleFreshnessBudget else None
           end
  end.

Definition max_lag_budget_ms (b : CacheFreshnessBudgets) (c : ReadConsistency) : option Z :=
  match c with Strong => None | Session => session_max_lag_ms b | Eventual => eventual_max_lag_ms b end.

Definition freshness_budget_violation (b : CacheFreshnessBudgets) (c : ReadConsistency) : T R S (option CacheFallbackReason) :=
  match max_lag_budget_ms b c with
  | None => mret None
  | Some lag =>
      h ← get_hwm; at_ms ← get_hwm_updated_at_ms; ms ← now_unix_ms;
      mret (freshness_budget_violation_reason (Some lag) (Versionstamp.is_zero h) at_ms ms)
  end.

Definition session_cache_fresh (required : option Versionstamp.t) : T R S bool :=
  h ← get_hwm;
  mret (if Versionstamp.is_zero h then false
        else match required with Some v => bool_decide (ble v h) | None => true end).

(** The version the database reads at: every commit it has acknowledged is visible. *)
Context `{Fdb S} (kv_read_version : S -> Z).

Definition get_read_version : M S Z :=
  t ← create_transaction;
  may_fail (fun e => Internal ("Get read version failed: " ++ e)%string) ;;
  mret (kv_read_version t).

Definition session_cache_state_for_read_version (required : option Z) : T R S SessionCacheState :=
  read_version ← match required with Some v => mret v | None => on_db get_read_version end;
  h ← get_hwm;
  mret (if Versionstamp.is_zero h then Cold
        else if read_version mod 2 ^ 64 <=? versionstamp_tx_version h then Fresh else SessionStale).

(** The three lookups of the read path differ in what they fetch. *)
Definition probe {A} (fetch : T R S (option A)) : T R S (CacheLookup A) :=
  r ← attempt_st fetch;
  mret (match r with
        | Ok (Some a) => hit a
        | Ok None => miss KeyAbsent
        | Err _ => miss DecodeError
        end).

Definition within_budget {A} (b : CacheFreshnessBudgets) (c : ReadConsistency) (fetch : T R S (option A)) : T R S (CacheLookup A) :=
  v ← freshness_budget_violation b c;
  match v with Some reason => mret (miss reason) | None => probe fetch end.

Definition cached_lookup {A} (b : CacheFreshnessBudgets) (c : ReadConsistency) (required : option Z) (fetch : T R S (option A))
    : T R S (CacheLookup A) :=
  match c with
  | Strong => mret (miss StrongForcedFdb)
  | Session =>
      state ← session_cache_state_for_read_version required;
      match state with Fresh => within_budget b c fetch | _ => mret (miss (session_fallback state)) end
  | Eventual => within_budget b c fetch
  end.

Definition non_empty_list {A} (l : list A) : option (list A) := match l with [] => None | _ => Some l end.

Definition read_node (b : CacheFreshnessBudgets) (db ns entity_type node_id : string) (c : ReadConsistency) (required : option Z)
    : T R S (CacheLookup StoredNode) :=
  cached_lookup b c required (cache_get_node db ns entity_type node_id).
Definition read_edges (b : CacheFreshnessBudgets) (db ns entity_type node_id : string) (label : option string)
    (c : ReadConsistency) (required : option Z) : T R S (CacheLookup (list StoredEdge)) :=
  cached_lookup b c required (l ← cache_list_edges db ns entity_type node_id label; mret (non_empty_list l)).
Definition read_incoming_edges (b : CacheFreshnessBudgets) (db ns entity_type node_id : string) (label : option string)
    (c : ReadConsistency) (required : option Z) : T R S (CacheLookup (list StoredEdge)) :=
  cached_lookup b c required (l ← cache_list_incoming_edges db ns entity_type node_id label; mret (non_empty_list l)).
End Store.
