(* ===== verification/Projector.v ===== *)
(** * The local cache: projectors

    [pelago-storage/src/rocks_cache/projector.rs].  A projector follows the log of
    one namespace with a consumer and applies what it reads to the cache.  Several
    projectors may share one cache. *)

From S2P Require Import Prelude Bytes Text Errors Types Encoding Subspace SchemaTypes Fdb MemFdb Cdc Consumer Ids Index.
From S2P Require Import Node Edge StateM RocksCache.

Definition MAX_ADAPTIVE_DRAIN_WINDOWS : nat := 8.

Record Projector := mkProjector {
  pj_consumer : CdcConsumer;
  pj_batch_size : nat;
  adaptive_drain_windows : nat;
  max_adaptive_drain_windows : nat;
  pj_database : string;
  pj_namespace : string
}.
Definition set_consumer (c : CdcConsumer) (p : Projector) : Projector :=
  mkProjector c (pj_batch_size p) (adaptive_drain_windows p) (max_adaptive_drain_windows p) (pj_database p) (pj_namespace p).
Definition set_windows (n : nat) (p : Projector) : Projector :=
  mkProjector (pj_consumer p) (pj_batch_size p) n (max_adaptive_drain_windows p) (pj_database p) (pj_namespace p).

(** ** Batches *)

Record FlattenedBatch := mkFlattened {
  fb_entry_count : nat;
  fb_hwm : Versionstamp.t;
  fb_timestamp : Z;
  fb_operations : list CdcOperation;
  fb_nodes_written : nat;
  fb_edges_written : nat
}.

Definition node_op (op : CdcOperation) : bool :=
  match op with NodeCreate _ _ _ _ | NodeUpdate _ _ _ _ | NodeDelete _ _ | OwnershipTransfer _ _ _ _ => true | _ => false end.
Definition edge_op (op : CdcOperation) : bool :=
  match op with EdgeCreate _ _ _ _ _ _ _ | EdgeDelete _ _ _ _ _ => true | _ => false end.

(** One entry: its stamp and timestamp replace those before. *)
Definition flatten_entry (b : FlattenedBatch) (e : Versionstamp.t * CdcEntry) : FlattenedBatch :=
  mkFlattened (fb_entry_count b) e.1 (timestamp e.2) (fb_operations b ++ operations e.2)
    (fb_nodes_written b + length (List.filter node_op (operations e.2)))
    (fb_edges_written b + length (List.filter edge_op (operations e.2))).

Definition from_entries (entries : list (Versionstamp.t * CdcEntry)) : option FlattenedBatch :=
  match entries with
  | [] => None
  | _ => Some (foldl flatten_entry (mkFlattened (length entries) Versionstamp.zero 0 [] 0 0) entries)
  end.

Definition next_adaptive_drain_window (current max base processed : nat) (exhausted : bool) : nat :=
  let current := Nat.max current 1 in
  if exhausted then Nat.min (current * 2) (Nat.max max 1)
  else if Nat.ltb processed (Nat.max base 1) then Nat.max (current - 1) 1 else current.

Section Projector.
Context {R S : Type} `{Rocks R} `{HashIter} `{Cbor StoredNode} `{Cbor StoredEdge} (use_column_families : bool).
Context `{Fdb S} `{Cbor CdcEntry}.
Abbreviation P := (T (R * Projector) S).

Definition on_cache {A} (m : T R S A) : P A := fun env s =>
  let '(r, (c, w)) := m env (s.1.1, s.2) in (r, ((c, s.1.2), w)).
Definition projector {A} (f : Projector -> A) : P A := get_st (fun x => f x.2).
Definition set_projector (f : Projector -> Projector) : P unit := set_st (fun x => (x.1, f x.2)).

(** [projector_instance_id] comes from the environment of the process. *)
Definition new_projector (projector_batch_size : nat) (site_id instance_id database namespace : string) : M S Projector :=
  let n := Nat.max projector_batch_size 1 in
  c ← new_consumer (Config.with_batch_size (Config.new
        ("cache_projector_" ++ site_id ++ "_" ++ database ++ "_" ++ namespace ++ "_" ++ instance_id) database namespace) n);
  mret (mkProjector c n 1 MAX_ADAPTIVE_DRAIN_WINDOWS database namespace).

Definition poll : P (list (Versionstamp.t * CdcEntry)) := c ← projector pj_consumer; on_db (poll_batch c).

(** [ack_through] changes the consumer also when the checkpoint fails. *)
Definition acknowledge (vs : Versionstamp.t) : P unit :=
  c ← projector pj_consumer;
  r ← on_db (ack_through c vs);
  set_projector (set_consumer r.1) ;;
  on_db (lift r.2).

(** The [while] loop: at most [windows - 1] more polls. *)
Fixpoint drain (windows_left batch_size : nat) (entries : list (Versionstamp.t * CdcEntry)) (last_full : bool) (drained : nat)
    : P (list (Versionstamp.t * CdcEntry) * bool * nat) :=
  match windows_left with
  | O => mret (entries, last_full, drained)
  | Datatypes.S n =>
      if last_full then
        next ← poll;
        match next with
        | [] => mret (entries, false, drained)
        | _ => drain n batch_size (entries ++ next) (Nat.leb batch_size (length next)) (drained + 1)
        end
      else mret (entries, last_full, drained)
  end.

Definition apply_flattened (b : FlattenedBatch) : P unit :=
  db ← projector pj_database; ns ← projector pj_namespace;
  on_cache (apply_cdc_operations use_column_families db ns (fb_operations b) (fb_timestamp b) (fb_hwm b)).

Definition project_batch : P nat :=
  p ← projector id;
  first ← poll;
  match first with
  | [] =>
      set_projector (set_windows (next_adaptive_drain_window (adaptive_drain_windows p) (max_adaptive_drain_windows p) (pj_batch_size p) 0 false)) ;;
      mret 0%nat
  | _ =>
      d ← drain (adaptive_drain_windows p - 1) (pj_batch_size p) first (Nat.leb (pj_batch_size p) (length first)) 1;
      let '(entries, last_full, drained) := d in
      (match from_entries entries with
       | Some b => apply_flattened b ;; acknowledge (fb_hwm b)
       | None => mret tt
       end) ;;
      set_projector (set_windows (next_adaptive_drain_window (adaptive_drain_windows p) (max_adaptive_drain_windows p)
        (pj_batch_size p) (length entries) (Nat.eqb drained (adaptive_drain_windows p) && last_full))) ;;
      mret (length entries)
  end.

(** A turn of [run]: the shutdown signal takes a checkpoint and ends the loop, an
    error of a batch is logged and tried again. *)
Definition projector_turn (shutdown : bool) : P bool :=
  if shutdown then
    c ← projector pj_consumer;
    r ← on_db (checkpoint c);
    set_projector (set_consumer r.1) ;;
    on_db (lift r.2) ;;
    mret false
  else
    attempt_st project_batch ;;
    mret true.

(** *** Rebuild *)

Record RebuildStats := mkRebuildStats { entries_processed : nat; nodes_written : nat; edges_written : nat }.

(** The replay with a consumer of its own; [None] is out of fuel. *)
Fixpoint rebuild_loop (fuel : nat) (c : CdcConsumer) (stats : RebuildStats) : P (option RebuildStats) :=
  match fuel with
  | O => mret None
  | Datatypes.S f =>
      entries ← on_db (poll_batch c);
      match from_entries entries with
      | None => mret (Some stats)
      | Some b =>
          apply_flattened b ;;
          r ← on_db (ack_through c (fb_hwm b));
          on_db (lift r.2) ;;
          rebuild_loop f r.1 (mkRebuildStats (entries_processed stats + fb_entry_count b)
            (nodes_written stats + fb_nodes_written b) (edges_written stats + fb_edges_written b))
      end
  end.

Definition rebuild (fuel : nat) (process_id : string) : P (option RebuildStats) :=
  p ← projector id;
  on_cache (cache_clear use_column_families) ;;
  c ← on_db (new_consumer (Config.with_batch_size (Config.new
        ("cache_projector_rebuild_" ++ pj_database p ++ "_" ++ process_id) (pj_database p) (pj_namespace p)) (pj_batch_size p)));
  rebuild_loop fuel c (mkRebuildStats 0 0 0).
End Projector.
