(* ===== verification/RocksSpec.v ===== *)
(** * The local cache: what it holds

    The cache of a namespace is the replay of its log: after a batch of operations
    every node and edge is what the operations, applied one after the other, make
    of what was cached.  Staging them and writing them at once in the order of a
    hash map makes no difference, nor does applying a batch more than once. *)

From S2P Require Import Prelude Bytes Text Errors Types Encoding Subspace SchemaTypes Fdb MemFdb Cdc Consumer Ids Index.
From S2P Require Import Node Edge Rows StateM RocksCache Projector.

(** ** Keys *)

(** A name that does not contain the separator. *)
Definition colon_free (s : string) : Prop := Byte.x3a ∉ sbytes s.
#[export] Instance colon_free_dec s : Decision (colon_free s).
Proof. unfold colon_free. apply _. Defined.

Lemma colons_cons x y l : colons (x :: y :: l) = sbytes x ++ Byte.x3a :: colons (y :: l).
Proof. unfold colons. change (String.concat ":" (x :: y :: l)) with (x ++ ":" ++ String.concat ":" (y :: l))%string. by rewrite !sbytes_app. Qed.

Lemma cut_at_colon a b r r' : Byte.x3a ∉ a -> Byte.x3a ∉ b -> a ++ Byte.x3a :: r = b ++ Byte.x3a :: r' -> a = b /\ r = r'.
Proof.
  revert b. induction a as [|x a IH]; intros [|y b] Ha Hb E; simplify_eq/=; [done|set_solver..|].
  destruct (IH b) as [-> ->]; [set_solver..|done|done].
Qed.

Lemma colons_inj a b : length a = length b -> Forall colon_free a -> Forall colon_free b -> colons a = colons b -> a = b.
Proof.
  revert b. induction a as [|x a IH]; intros [|y b] Hl Ha Hb E; [done|done|done|]. injection Hl as Hl.
  inversion_clear Ha as [|? ? Hx Ha']. inversion_clear Hb as [|? ? Hy Hb'].
  destruct a as [|x' a], b as [|y' b]; [|done|done|]; [by change (sbytes x = sbytes y) in E; apply (inj sbytes) in E as ->|].
  rewrite !colons_cons in E. apply cut_at_colon in E as [Hxy E]; [|done..]. apply (inj sbytes) in Hxy as ->. f_equal.
  by apply IH.
Qed.

(** A key with a prefix that ends in a separator starts with the parts of the prefix. *)
Lemma colons_prefix p l r : Forall colon_free p -> Forall colon_free l -> (length p < length l)%nat ->
  colons l = colons (p ++ [""]) ++ r -> p `prefix_of` l.
Proof.
  revert l. induction p as [|x p IH]; intros [|y l] Hp Hl Hlt E; [apply prefix_nil|apply prefix_nil|cbn in Hlt; lia|].
  inversion_clear Hp as [|? ? Hx Hp']. inversion_clear Hl as [|? ? Hy Hl']. destruct l as [|y' l]; [cbn in Hlt; lia|].
  assert (exists z q, p ++ [""] = z :: q) as (z & q & Eq) by (destruct p; cbn; eauto).
  change ((x :: p) ++ [""]) with (x :: (p ++ [""])) in E. rewrite Eq, !colons_cons, <- app_assoc in E. cbn [app] in E. apply cut_at_colon in E as [Hxy E]; [|done..].
  apply (inj sbytes) in Hxy as ->. apply prefix_cons. apply IH; [done..|cbn in *; lia|by rewrite Eq].
Qed.

Lemma colons_prefix_of p l : p <> [] -> p `prefix_of` l -> (length p < length l)%nat -> colons (p ++ [""]) `prefix_of` colons l.
Proof.
  intros Hne [r ->] Hlt. destruct r as [|y r]; [rewrite app_nil_r in Hlt; lia|]. clear Hlt.
  induction p as [|x [|x' p] IH]; [done| |].
  - cbn [app]. rewrite !colons_cons. change (colons [""]) with (@nil byte). eexists. rewrite <- app_assoc. reflexivity.
  - cbn [app] in *. rewrite !colons_cons. destruct IH as [q Eq]; [done|]. rewrite Eq. exists q. by rewrite <- app_assoc.
Qed.

Lemma colons_ne x y a b : x <> y -> colon_free x -> colon_free y -> a <> [] -> b <> [] -> colons (x :: a) <> colons (y :: b).
Proof.
  intros Hne Hx Hy Ha Hb E. destruct a as [|a1 a]; [done|]. destruct b as [|b1 b]; [done|]. rewrite !colons_cons in E.
  apply cut_at_colon in E as [Hxy _]; [|done..]. by apply (inj sbytes) in Hxy.
Qed.

(** ** Replay *)

(** What an operation makes of the node at a key. *)
Definition node_step `{HashIter} (ts : Z) (k : string * string) (o : option StoredNode) (op : CdcOperation) : option StoredNode :=
  match op with
  | NodeCreate et id props home => if decide (k = (et, id)) then Some (created_node ts et id props home) else o
  | NodeUpdate et id changed _ => if decide (k = (et, id)) then updated_node ts changed <$> o else o
  | NodeDelete et id => if decide (k = (et, id)) then None else o
  | OwnershipTransfer et id _ site => if decide (k = (et, id)) then transferred_node ts site <$> o else o
  | _ => o
  end.
Definition replay_node `{HashIter} (ts : Z) (ops : list CdcOperation) (k : string * string) (o : option StoredNode) : option StoredNode :=
  foldl (node_step ts k) o ops.

Definition edge_step (db ns : string) (ts : Z) (k : EdgeMutationKey) (o : option StoredEdge) (op : CdcOperation) : option StoredEdge :=
  match op with
  | EdgeCreate sty si tty ti l id props =>
      if decide (k = mkEdgeMutationKey sty si l tty ti) then Some (created_edge ts db ns sty si tty ti l id props) else o
  | EdgeDelete sty si tty ti l => if decide (k = mkEdgeMutationKey sty si l tty ti) then None else o
  | _ => o
  end.
Definition replay_edge (db ns : string) (ts : Z) (ops : list CdcOperation) (k : EdgeMutationKey) (o : option StoredEdge) : option StoredEdge :=
  foldl (edge_step db ns ts k) o ops.

(** *** A batch applied again *)

(** The new values of some properties: [None] removes one. *)
Definition override (p : gmap string (option Value)) (m : Props) : Props :=
  merge (fun o v => match o with Some x => x | None => v end) p m.
Lemma override_lookup p m k : override p m !! k = match p !! k with Some x => x | None => m !! k end.
Proof. unfold override. rewrite lookup_merge. unfold diag_None. destruct (p !! k), (m !! k); reflexivity. Qed.

Definition changes (m : Props) : gmap string (option Value) := (fun v => if is_null v then None else Some v) <$> m.

Lemma patch_list_lookup (l : list (string * Value)) : NoDup l.*1 -> forall m k, foldl patch_one m l !! k =
  match (list_to_map l : Props) !! k with Some v => if is_null v then None else Some v | None => m !! k end.
Proof.
  induction l as [|[x v] l IH]; intros Hn m k; cbn [foldl]; [done|]. inversion_clear Hn as [|? ? Hx Hn']. rewrite IH by done.
  cbn [list_to_map foldr fst snd]. unfold patch_one. cbn [fst snd]. destruct (decide (k = x)) as [->|Hne].
  - rewrite lookup_insert, decide_True by done. rewrite not_elem_of_list_to_map_1 by done.
    destruct (is_null v); [by rewrite lookup_delete_eq|by rewrite lookup_insert_eq].
  - rewrite lookup_insert_ne by done. destruct ((list_to_map l : Props) !! k); [done|].
    destruct (is_null v); [by rewrite lookup_delete_ne|by rewrite lookup_insert_ne].
Qed.

Lemma patch_props_override `{HashIter} changed m : patch_props changed m = override (changes changed) m.
Proof.
  apply map_eq. intros k. unfold patch_props. rewrite patch_list_lookup by apply NoDup_hm_iter. rewrite override_lookup. unfold changes.
  rewrite lookup_fmap. assert (list_to_map (M:=gmap string Value) (hm_iter changed) = changed) as ->.
  { apply map_eq. intros i. apply option_eq. intros v. rewrite <- elem_of_list_to_map by apply NoDup_hm_iter. apply elem_of_hm_iter. }
  by destruct (changed !! k).
Qed.

(** What a sequence of operations does to one node: it is replaced, or patched. *)
Record Patch := mkPatch { patch_of : gmap string (option Value); patch_site : option Z; patch_time : bool }.
Definition patch (ts : Z) (p : Patch) (n : StoredNode) : StoredNode :=
  mkStoredNode (sn_id n) (sn_entity_type n) (override (patch_of p) (sn_properties n)) (default (sn_locality n) (patch_site p))
    (sn_created_at n) (if patch_time p then Z.max (sn_updated_at n) ts else sn_updated_at n).

Lemma patch_patch ts p q n : patch ts q (patch ts p n) =
  patch ts (mkPatch (patch_of q ∪ patch_of p) (match patch_site q with Some s => Some s | None => patch_site p end) (patch_time p || patch_time q)) n.
Proof.
  unfold patch. cbn. f_equal.
  - apply map_eq. intros k. rewrite !override_lookup, lookup_union. by destruct (patch_of q !! k), (patch_of p !! k).
  - by destruct (patch_site q).
  - destruct (patch_time p), (patch_time q); cbn; lia.
Qed.

Lemma patch_twice ts p n : patch ts p (patch ts p n) = patch ts p n.
Proof.
  rewrite patch_patch. unfold patch. cbn. f_equal; [apply map_eq; intros k|by destruct (patch_site p)|by destruct (patch_time p)].
  rewrite !override_lookup, lookup_union. by destruct (patch_of p !! k).
Qed.

Lemma step_patch `{HashIter} ts k op : (exists c, forall o, node_step ts k o op = c) \/ exists p, forall o, node_step ts k o op = patch ts p <$> o.
Proof.
  assert (Hid : exists p, forall o : option StoredNode, o = patch ts p <$> o).
  { exists (mkPatch ∅ None false). intros [n|]; [|done]. destruct n. cbn. unfold patch. cbn. do 2 f_equal. apply map_eq. intros i.
    by rewrite override_lookup, lookup_empty. }
  destruct op; cbn [node_step]; try (right; exact Hid); destruct (decide _); try (right; exact Hid); try (left; by eexists).
  - right. exists (mkPatch (changes changed_properties) None true). intros [n|]; [|done]. cbn. unfold updated_node, patch. cbn.
    by rewrite patch_props_override.
  - right. exists (mkPatch ∅ (parse_u8 current_site_id) true). intros [n|]; [|done]. cbn. unfold transferred_node, patch. cbn.
    do 2 f_equal. apply map_eq. intros i. by rewrite override_lookup, lookup_empty.
Qed.

Lemma replay_patch `{HashIter} ts ops k :
  (exists c, forall o, replay_node ts ops k o = c) \/ exists p, forall o, replay_node ts ops k o = patch ts p <$> o.
Proof.
  unfold replay_node. induction ops as [|op ops IH] using rev_ind.
  - right. exists (mkPatch ∅ None false). intros [n|]; [|done]. destruct n. cbn. unfold patch. cbn. do 2 f_equal. apply map_eq. intros i.
    by rewrite override_lookup, lookup_empty.
  - setoid_rewrite foldl_app. cbn [foldl]. destruct (step_patch ts k op) as [[c Hc]|[q Hq]].
    + left. exists c. intros o. apply Hc.
    + destruct IH as [[c Hc]|[p Hp]].
      * left. exists (patch ts q <$> c). intros o. by rewrite Hq, Hc.
      * right. eexists. intros o. rewrite Hq, Hp, <- option_fmap_compose. apply option_fmap_ext. intros n. apply patch_patch.
Qed.

Lemma replay_node_twice `{HashIter} ts ops k o : replay_node ts ops k (replay_node ts ops k o) = replay_node ts ops k o.
Proof.
  destruct (replay_patch ts ops k) as [[c Hc]|[p Hp]]; [by rewrite !Hc|]. rewrite !Hp, <- option_fmap_compose.
  apply option_fmap_ext. intros n. apply patch_twice.
Qed.

Lemma replay_edge_twice db ns ts ops k o : replay_edge db ns ts ops k (replay_edge db ns ts ops k o) = replay_edge db ns ts ops k o.
Proof.
  assert (forall ops, (exists c, forall o, replay_edge db ns ts ops k o = c) \/ forall o, replay_edge db ns ts ops k o = o) as Hr.
  { clear. unfold replay_edge. induction ops as [|op ops IH] using rev_ind; [by right|]. setoid_rewrite foldl_app. cbn [foldl].
    assert ((exists c, forall o, edge_step db ns ts k o op = c) \/ forall o, edge_step db ns ts k o op = o) as [[c Hc]|Hi].
    { destruct op; cbn [edge_step]; try (by right); destruct (decide _); try (by right); left; by eexists. }
    - left. exists c. intros o. apply Hc.
    - destruct IH as [[c Hc]|Hid]; [left; exists c|right]; intros o; rewrite Hi; auto. }
  destruct (Hr ops) as [[c Hc]|Hi]; [by rewrite !Hc|by rewrite !Hi].
Qed.

(** ** Batches *)

Lemma batch_get_app a b cf k o : batch_get (a ++ b) cf k o = batch_get b cf k (batch_get a cf k o).
Proof. unfold batch_get. by rewrite foldl_app. Qed.

Lemma batch_of_total {A} (f : A -> result (list BatchOp)) (g : A -> list BatchOp) l :
  (forall x, x ∈ l -> f x = Ok (g x)) -> batch_of f l = Ok (concat (map g l)).
Proof.
  induction l as [|x l IH]; intros Hf; cbn [batch_of map concat]; [done|]. rewrite (Hf x) by left. cbn [mbind result_bind].
  rewrite IH; [done|]. intros y Hy. apply Hf. by right.
Qed.

(** Of the batches of the entries of a map, only one touches a key. *)
Lemma batch_of_map `{HashIter} `{Countable K} {V} (m : gmap K V) (g : K * V -> list BatchOp) cf key k :
  (forall k' v o, m !! k' = Some v -> k' <> k -> batch_get (g (k', v)) cf key o = o) ->
  forall o, batch_get (concat (map g (hm_iter m))) cf key o = match m !! k with Some v => batch_get (g (k, v)) cf key o | None => o end.
Proof.
  intros Hg. assert (Hskip : forall l, (forall k' v, (k', v) ∈ l -> m !! k' = Some v /\ k' <> k) ->
    forall o, batch_get (concat (map g l)) cf key o = o).
  { induction l as [|[k' v] l IH]; intros Hl o; cbn [map concat]; [done|]. rewrite batch_get_app.
    destruct (Hl k' v ltac:(left)) as [H1 H2]. rewrite (Hg k' v) by done. apply IH. intros k'' v'' Hin. apply Hl. by right. }
  intros o. destruct (m !! k) as [v|] eqn:Ek.
  - assert ((k, v) ∈ hm_iter m) as (l1 & l2 & El)%list_elem_of_split by by apply elem_of_hm_iter.
    pose proof (NoDup_hm_iter m) as Hn. rewrite El, fmap_app, fmap_cons in Hn. cbn in Hn.
    apply NoDup_app in Hn as (_ & Hd & Hn2). inversion_clear Hn2 as [|? ? Hn3 _].
    assert (Hall : forall k' v', (k', v') ∈ l1 ++ l2 -> m !! k' = Some v' /\ k' <> k).
    { intros k' v' Hin. split; [apply elem_of_hm_iter; rewrite El; set_solver|]. intros ->.
      apply elem_of_app in Hin as [Hin|Hin]; apply (list_elem_of_fmap_2 fst) in Hin; cbn in Hin.
      - apply (Hd k Hin). left.
      - done. }
    rewrite El, map_app, concat_app. cbn [map concat]. rewrite !batch_get_app. rewrite Hskip.
    + rewrite Hskip; [done|]. intros k' v' Hin. apply Hall. set_solver.
    + intros k' v' Hin. apply Hall. set_solver.
  - apply Hskip. intros k' v Hin%elem_of_hm_iter. split; [done|]. intros ->. congruence.
Qed.

(** A key no operation of the batch writes. *)
Definition batch_key (op : BatchOp) : bytes := match op with RPut _ k _ | RDelete _ k => k end.
Lemma batch_get_skip ops cf key : Forall (fun op => batch_key op <> key) ops -> forall o, batch_get ops cf key o = o.
Proof.
  induction 1 as [|op ops Hop _ IH]; intros o; [done|]. change (op :: ops) with ([op] ++ ops). rewrite batch_get_app, IH.
  destruct op; cbn in *; case_decide; naive_solver.
Qed.

Lemma batch_get_some ops cf key b : forall o, batch_get ops cf key o = Some b -> o = Some b \/ exists op, op ∈ ops /\ batch_key op = key.
Proof.
  induction ops as [|op ops IH]; intros o E; [by left|]. change (op :: ops) with ([op] ++ ops) in E. rewrite batch_get_app in E.
  destruct (IH _ E) as [E'|(op' & Hin & Hk)]; [|right; exists op'; split; [by right|done]].
  destruct op as [cf' k' v|cf' k']; cbn in E'; case_decide as Hd; try (by left); right; (eexists; split; [left|]); cbn; by destruct Hd.
Qed.

(** ** What the codec keeps *)

Definition canon_stored (n : StoredNode) : StoredNode :=
  mkStoredNode (sn_id n) (sn_entity_type n) (canon_props (sn_properties n)) (sn_locality n) (sn_created_at n) (sn_updated_at n).
Definition storable_stored (n : StoredNode) : Prop := storable_props (sn_properties n).
Definition canon_stored_edge (e : StoredEdge) : StoredEdge :=
  mkStoredEdge (se_edge_id e) (se_source e) (se_target e) (se_label e) (canon_props (se_properties e)) (se_created_at e).
Definition storable_stored_edge (e : StoredEdge) : Prop := storable_props (se_properties e).

(** What is shown of a node and of an edge: all but the times. *)
Definition shown (n : StoredNode) : StoredNode :=
  mkStoredNode (sn_id n) (sn_entity_type n) (canon_props (sn_properties n)) (sn_locality n) 0 0.
Definition shown_edge (e : StoredEdge) : StoredEdge :=
  mkStoredEdge (se_edge_id e) (se_source e) (se_target e) (se_label e) (canon_props (se_properties e)) 0.

Lemma canon_props_twice m : canon_props (canon_props m) = canon_props m.
Proof. unfold canon_props. rewrite <- map_fmap_compose. apply map_fmap_ext. by intros ? []. Qed.
Lemma shown_canon n : shown (canon_stored n) = shown n.
Proof. unfold shown. cbn. by rewrite canon_props_twice. Qed.
Lemma shown_canon_edge e : shown_edge (canon_stored_edge e) = shown_edge e.
Proof. unfold shown_edge. cbn. by rewrite canon_props_twice. Qed.

Lemma is_null_canon v : is_null (canon_value v) = is_null v.
Proof. by destruct v. Qed.

(** What is shown after an operation depends on what was shown before. *)
Lemma shown_step `{HashIter} ts ts' k o o' op : shown <$> o = shown <$> o' -> shown <$> node_step ts k o op = shown <$> node_step ts' k o' op.
Proof.
  intros E. destruct op; cbn [node_step]; try done; destruct (decide _); try done;
    destruct o as [n|], o' as [n'|]; try done; injection E as E1 E2 E3 E4; cbn; unfold shown; cbn; rewrite E1, E2, E4; do 2 f_equal; [|done].
  rewrite !patch_props_override. apply map_eq. intros i. apply (f_equal (lookup i)) in E3. unfold canon_props in *.
  rewrite !lookup_fmap, !override_lookup in *. by destruct (changes changed_properties !! i).
Qed.

Lemma shown_replay `{HashIter} ts ts' ops k : forall o o', shown <$> o = shown <$> o' ->
  shown <$> replay_node ts ops k o = shown <$> replay_node ts' ops k o'.
Proof. unfold replay_node. induction ops as [|op ops IH]; intros o o' E; cbn [foldl]; [done|]. by apply IH, shown_step. Qed.

Lemma shown_replay_edge db ns ts ts' ops k : forall o o', shown_edge <$> o = shown_edge <$> o' ->
  shown_edge <$> replay_edge db ns ts ops k o = shown_edge <$> replay_edge db ns ts' ops k o'.
Proof.
  unfold replay_edge. induction ops as [|op ops IH]; intros o o' E; cbn [foldl]; [done|]. apply IH.
  destruct op; cbn [edge_step]; try done; by destruct (decide _).
Qed.

(** Values the codec preserves. *)
Definition op_storable (op : CdcOperation) : Prop :=
  match op with
  | NodeCreate _ _ props _ => storable_props props
  | NodeUpdate _ _ changed _ => storable_props changed
  | EdgeCreate _ _ _ _ _ _ props => storable_props props
  | _ => True
  end.

Lemma storable_override p m : map_Forall (fun _ o => match o with Some v => storable_value v | None => True end) p -> storable_props m ->
  storable_props (override p m).
Proof.
  intros Hp Hm i v. rewrite override_lookup. destruct (p !! i) as [o|] eqn:E; [|by apply Hm]. intros ->. exact (Hp i (Some v) E).
Qed.
Lemma storable_step `{HashIter} ts k o op : op_storable op -> (forall n, o = Some n -> storable_stored n) ->
  forall n, node_step ts k o op = Some n -> storable_stored n.
Proof.
  intros Hop Ho n. destruct op; cbn [node_step op_storable] in *; try apply Ho; destruct (decide _); try apply Ho.
  - intros [= <-]. exact Hop.
  - destruct o as [n0|]; [|done]. intros [= <-]. unfold storable_stored. cbn. rewrite patch_props_override. apply storable_override; [|by apply Ho].
    intros i x. unfold changes. rewrite lookup_fmap. destruct (changed_properties !! i) as [v|] eqn:Ev; [|done]. intros [= <-].
    destruct (is_null v); [done|]. exact (Hop i v Ev).
  - done.
  - destruct o as [n0|]; [|done]. intros [= <-]. by apply (Ho n0).
Qed.
Lemma storable_replay `{HashIter} ts ops k : Forall op_storable ops -> forall o, (forall n, o = Some n -> storable_stored n) ->
  forall n, replay_node ts ops k o = Some n -> storable_stored n.
Proof.
  unfold replay_node. induction 1 as [|op ops Hop _ IH]; intros o Ho n; cbn [foldl]; [apply Ho|]. apply IH. by apply storable_step.
Qed.
Lemma storable_replay_edge db ns ts ops k : Forall op_storable ops -> forall o, (forall e, o = Some e -> storable_stored_edge e) ->
  forall e, replay_edge db ns ts ops k o = Some e -> storable_stored_edge e.
Proof.
  unfold replay_edge. induction 1 as [|op ops Hop _ IH]; intros o Ho n; cbn [foldl]; [apply Ho|]. apply IH.
  intros e. destruct op; cbn [edge_step op_storable] in *; try apply Ho; destruct (decide _); try apply Ho; [|done]. intros [= <-]. exact Hop.
Qed.

(** ** The cache of a namespace *)

Definition named (k : string * string) : Prop := colon_free k.1 /\ colon_free k.2.
Definition edge_named (k : EdgeMutationKey) : Prop :=
  colon_free (ek_source_type k) /\ colon_free (ek_source_id k) /\ colon_free (ek_label k) /\
  colon_free (ek_target_type k) /\ colon_free (ek_target_id k).
Definition op_named (op : CdcOperation) : Prop :=
  match op with
  | NodeCreate et id _ _ | NodeUpdate et id _ _ | NodeDelete et id | OwnershipTransfer et id _ _ => named (et, id)
  | EdgeCreate sty si tty ti l _ _ | EdgeDelete sty si tty ti l => edge_named (mkEdgeMutationKey sty si l tty ti)
  | SchemaRegister _ _ _ => True
  end.

Section Cache.
Context {R S : Type} `{RocksLaws R} `{HashIter} `{CborLaws StoredNode canon_stored storable_stored} `{CborLaws StoredEdge canon_stored_edge storable_stored_edge}.
Context (ucf : bool) (env : Env) (Henv : no_faults env) (db ns : string) (Hdb : colon_free db) (Hns : colon_free ns).
Implicit Types (r : R) (w : World S) (k : string * string) (ek : EdgeMutationKey) (ops : list CdcOperation) (ts : Z).

Definition source_of ek : NodeRef := mkNodeRef db ns (ek_source_type ek) (ek_source_id ek).
Definition target_of ek : NodeRef := mkNodeRef db ns (ek_target_type ek) (ek_target_id ek).
Definition node_row r k : option bytes := rk_get r (column ucf CF_NODE) (node_key db ns k.1 k.2).
Definition out_row r ek : option bytes := rk_get r (column ucf CF_EDGE) (edge_key db ns (source_of ek) (ek_label ek) (target_of ek)).
Definition in_row r ek : option bytes := rk_get r (column ucf CF_EDGE) (incoming_edge_key db ns (source_of ek) (ek_label ek) (target_of ek)).

Definition decoded {A} `{Cbor A} (row : option bytes) : option A :=
  match row with Some b => match decode_cbor b with Ok a => Some a | Err _ => None end | None => None end.
Definition cached_node r k : option StoredNode := decoded (node_row r k).
Definition cached_edge r ek : option StoredEdge := decoded (out_row r ek).

Definition out_key ek : bytes := edge_key db ns (source_of ek) (ek_label ek) (target_of ek).
Definition in_key ek : bytes := incoming_edge_key db ns (source_of ek) (ek_label ek) (target_of ek).

(** Every row of the namespace decodes, an edge has the same two rows, and the rows
    of the namespace's edges have the keys of edges. *)
Record cache_ok r : Prop := {
  ok_out_keys : forall key b, colons ["e"; db; ns; ""] `prefix_of` key -> rk_get r (column ucf CF_EDGE) key = Some b ->
    exists ek, edge_named ek /\ key = out_key ek;
  ok_in_keys : forall key b, colons ["i"; db; ns; ""] `prefix_of` key -> rk_get r (column ucf CF_EDGE) key = Some b ->
    exists ek, edge_named ek /\ key = in_key ek;
  ok_nodes : forall k b, named k -> node_row r k = Some b -> exists n, decode_cbor b = Ok n /\ storable_stored n;
  ok_edges : forall ek b, edge_named ek -> out_row r ek = Some b -> exists e, decode_cbor b = Ok e /\ storable_stored_edge e;
  ok_incoming : forall ek, edge_named ek -> in_row r ek = out_row r ek
}.

Lemma run_rocks {A} what (f : unit -> T R S A) r w : (rocks_fails what ≫= f) env (r, w) = f tt env (r, next_tick w).
Proof. unfold rocks_fails. apply run_on_db. by rewrite (run_may_fail env Henv). Qed.

Lemma run_get_cf {A} cf key (f : option bytes -> T R S A) r w :
  (get_cf ucf cf key ≫= f) env (r, w) = f (rk_get r (column ucf cf) key) env (r, next_tick w).
Proof. apply tbind_run. unfold get_cf. by rewrite run_rocks. Qed.

Lemma run_cache_get_node r w k : cache_ok r -> named k ->
  exists w', cache_get_node ucf db ns k.1 k.2 env (r, w) = (Ok (cached_node r k), (r, w')) /\ idle w w'.
Proof.
  intros Hok Hk. unfold cache_get_node. rewrite run_get_cf. fold (node_row r k). unfold cached_node, decoded.
  exists (next_tick w). split; [|done]. destruct (node_row r k) as [b|] eqn:E; [|done].
  destruct (ok_nodes r Hok k b Hk E) as (n & -> & _). reflexivity.
Qed.

(** *** Staging *)

Definition eff_node r (st : PendingNodes * PendingEdges) k : option StoredNode :=
  match st.1 !! k with Some o => o | None => cached_node r k end.
Definition eff_edge r (st : PendingNodes * PendingEdges) ek : option StoredEdge :=
  match st.2 !! ek with Some o => o | None => cached_edge r ek end.
Definition staged_named (st : PendingNodes * PendingEdges) : Prop :=
  (forall k o, st.1 !! k = Some o -> named k) /\ (forall ek o, st.2 !! ek = Some o -> edge_named ek).

Lemma run_staged_node r w st k : cache_ok r -> named k ->
  exists w', staged_node ucf db ns st.1 k env (r, w) = (Ok (eff_node r st k), (r, w')) /\ idle w w'.
Proof.
  intros Hok Hk. unfold staged_node, eff_node. destruct (st.1 !! k); [by exists w|]. by apply run_cache_get_node.
Qed.

Lemma eff_insert r (nodes : PendingNodes) edges k o k' :
  eff_node r (<[k := o]> nodes, edges) k' = if decide (k' = k) then o else eff_node r (nodes, edges) k'.
Proof.
  unfold eff_node. cbn [fst]. case_decide as Hd; [subst; by rewrite lookup_insert_eq|]. by rewrite lookup_insert_ne.
Qed.

Lemma named_insert (nodes : PendingNodes) edges k o : staged_named (nodes, edges) -> named k -> staged_named (<[k := o]> nodes, edges).
Proof. intros [Hn He] Hk. split; [|exact He]. cbn. intros k' o' [[<- _]|[_ Hl]]%lookup_insert_Some; [done|by eapply Hn]. Qed.

Definition staged_step r (ts : Z) ops (st st' : PendingNodes * PendingEdges) : Prop :=
  (forall k, eff_node r st' k = replay_node ts ops k (eff_node r st k)) /\
  (forall ek, eff_edge r st' ek = replay_edge db ns ts ops ek (eff_edge r st ek)) /\ staged_named st'.

Lemma run_stage_op r w ts st op : cache_ok r -> staged_named st -> op_named op ->
  exists st' w', stage_op ucf db ns ts st op env (r, w) = (Ok st', (r, w')) /\ idle w w' /\ staged_step r ts [op] st st'.
Proof.
  intros Hok Hst Hop. destruct st as [nodes edges]. unfold staged_step.
  assert (Hmap : forall et id (f : StoredNode -> StoredNode), named (et, id) ->
    exists st' w', (existing ← staged_node ucf db ns nodes (et, id);
        mret (match existing with Some n => <[(et, id) := Some (f n)]> nodes | None => nodes end, edges)) env (r, w) = (Ok st', (r, w')) /\
      idle w w' /\ (forall k, eff_node r st' k = if decide (k = (et, id)) then f <$> eff_node r (nodes, edges) k else eff_node r (nodes, edges) k) /\
      st'.2 = edges /\ staged_named st').
  { intros et id f Hn. destruct (run_staged_node r w (nodes, edges) (et, id) Hok Hn) as (w' & E & Hw). cbn [fst] in E.
    eexists _, w'. rewrite (tbind_run _ _ _ _ _ _ E). split; [reflexivity|]. split; [done|]. split; [|split; [done|]].
    - intros k. destruct (eff_node r (nodes, edges) (et, id)) as [n|] eqn:En.
      + rewrite eff_insert. case_decide as Hd; [subst; by rewrite En|done].
      + case_decide as Hd; [subst; by rewrite En|done].
    - destruct (eff_node r (nodes, edges) (et, id)); [by apply named_insert|done]. }
  destruct op as [et id props home|et id ch old|et id|sty si tty ti l eid props|sty si tty ti l|et v sc|et id prev cur]; cbn [op_named stage_op] in *.
  - eexists _, w. split; [reflexivity|]. split; [done|]. split; [intros k; by rewrite eff_insert|]. split; [done|by apply named_insert].
  - destruct (Hmap et id (updated_node ts ch) Hop) as (st' & w' & E & Hw & Hk & He & Hn). exists st', w'. rewrite E.
    split; [done|]. split; [done|]. split; [exact Hk|]. split; [|done]. intros ek. unfold eff_edge. by rewrite He.
  - eexists _, w. split; [reflexivity|]. split; [done|]. split; [intros k; by rewrite eff_insert|]. split; [done|by apply named_insert].
  - eexists _, w. split; [reflexivity|]. split; [done|]. split; [done|]. split; [|split; [apply Hst|]].
    + intros ek. unfold eff_edge. cbn [snd replay_edge foldl edge_step]. unfold mutation_key. cbn.
      case_decide as Hd; [subst; by rewrite lookup_insert_eq|by rewrite lookup_insert_ne].
    + cbn. intros ek o [[<- _]|[_ Hl]]%lookup_insert_Some; [exact Hop|by eapply Hst].
  - eexists _, w. split; [reflexivity|]. split; [done|]. split; [done|]. split; [|split; [apply Hst|]].
    + intros ek. unfold eff_edge. cbn [snd replay_edge foldl edge_step]. unfold mutation_key. cbn.
      case_decide as Hd; [subst; by rewrite lookup_insert_eq|by rewrite lookup_insert_ne].
    + cbn. intros ek o [[<- _]|[_ Hl]]%lookup_insert_Some; [exact Hop|by eapply Hst].
  - by eexists _, w.
  - destruct (Hmap et id (transferred_node ts cur) Hop) as (st' & w' & E & Hw & Hk & He & Hn). exists st', w'. rewrite E.
    split; [done|]. split; [done|]. split; [exact Hk|]. split; [|done]. intros ek. unfold eff_edge. by rewrite He.
Qed.

Lemma run_stage_ops r ts ops : forall w st, cache_ok r -> staged_named st -> Forall op_named ops ->
  exists st' w', stage_ops ucf db ns ts ops st env (r, w) = (Ok st', (r, w')) /\ idle w w' /\ staged_step r ts ops st st'.
Proof.
  induction ops as [|op ops IH]; intros w st Hok Hst Hops; cbn [stage_ops]; [by exists st, w|].
  inversion_clear Hops as [|? ? Hop Hops']. destruct (run_stage_op r w ts st op Hok Hst Hop) as (st1 & w1 & E1 & Hw1 & Hn1 & He1 & Hs1).
  destruct (IH w1 st1 Hok Hs1 Hops') as (st2 & w2 & E2 & Hw2 & Hn2 & He2 & Hs2).
  exists st2, w2. rewrite (tbind_run _ _ _ _ _ _ E1). split; [done|]. split; [by etrans|]. split; [|split; [|done]].
  - intros k. by rewrite Hn2, Hn1.
  - intros ek. by rewrite He2, He1.
Qed.

(** *** Writing *)

Lemma cached_key_inj k k' : named k -> named k' -> node_key db ns k.1 k.2 = node_key db ns k'.1 k'.2 -> k = k'.
Proof.
  intros [] [] E. apply colons_inj in E; [|done|repeat (constructor; [done || (apply (bool_decide_unpack _); vm_compute; exact I)|]); constructor..].
  destruct k, k'. cbn in *. by simplify_eq.
Qed.

Lemma edge_key_inj ek ek' : edge_named ek -> edge_named ek' ->
  edge_key db ns (source_of ek) (ek_label ek) (target_of ek) = edge_key db ns (source_of ek') (ek_label ek') (target_of ek') -> ek = ek'.
Proof.
  intros (? & ? & ? & ? & ?) (? & ? & ? & ? & ?) E. apply colons_inj in E; [|done|repeat (constructor; [done || (apply (bool_decide_unpack _); vm_compute; exact I)|]); constructor..].
  destruct ek, ek'. cbn in *. by simplify_eq.
Qed.

Lemma incoming_key_inj ek ek' : edge_named ek -> edge_named ek' ->
  incoming_edge_key db ns (source_of ek) (ek_label ek) (target_of ek)
  = incoming_edge_key db ns (source_of ek') (ek_label ek') (target_of ek') -> ek = ek'.
Proof.
  intros (? & ? & ? & ? & ?) (? & ? & ? & ? & ?) E. apply colons_inj in E; [|done|repeat (constructor; [done || (apply (bool_decide_unpack _); vm_compute; exact I)|]); constructor..].
  destruct ek, ek'. cbn in *. by simplify_eq.
Qed.

(** The first byte of a key tells what it is. *)
Lemma node_key_head a b c d : exists q, node_key a b c d = Byte.x6e :: q.
Proof. unfold node_key. rewrite colons_cons. by eexists. Qed.
Lemma edge_key_head a b s l t : exists q, edge_key a b s l t = Byte.x65 :: q.
Proof. unfold edge_key. rewrite colons_cons. by eexists. Qed.
Lemma incoming_key_head a b s l t : exists q, incoming_edge_key a b s l t = Byte.x69 :: q.
Proof. unfold incoming_edge_key. rewrite colons_cons. by eexists. Qed.
Lemma hwm_key_head : exists q, META_HWM_KEY = Byte.x5f :: q.
Proof. by eexists. Qed.
Lemma updated_key_head : exists q, META_HWM_UPDATED_AT_KEY = Byte.x5f :: q.
Proof. by eexists. Qed.

Definition node_ops (p : (string * string) * option StoredNode) : list BatchOp :=
  match node_batch ucf db ns p with Ok o => o | Err _ => [] end.
Definition edge_ops (p : EdgeMutationKey * option StoredEdge) : list BatchOp :=
  match edge_batch ucf db ns p with Ok o => o | Err _ => [] end.

Lemma node_batch_total p : node_batch ucf db ns p = Ok (node_ops p).
Proof. unfold node_ops, node_batch. destruct p as [k [n|]]; cbn; [|done]. by destruct (encode_cbor_total n) as (b & -> & _). Qed.
Lemma edge_batch_total p : edge_batch ucf db ns p = Ok (edge_ops p).
Proof. unfold edge_ops, edge_batch. destruct p as [k [e|]]; cbn; [|done]. by destruct (encode_cbor_total e) as (b & -> & _). Qed.

Lemma node_ops_keys p : Forall (fun op => batch_key op = node_key db ns p.1.1 p.1.2) (node_ops p).
Proof.
  unfold node_ops, node_batch. destruct p as [k [n|]]; cbn; [|by repeat constructor]. destruct (encode_cbor n); cbn; by repeat constructor.
Qed.
Lemma edge_ops_keys p : Forall (fun op => batch_key op = edge_key db ns (source_of p.1) (ek_label p.1) (target_of p.1) \/
    batch_key op = incoming_edge_key db ns (source_of p.1) (ek_label p.1) (target_of p.1)) (edge_ops p).
Proof.
  unfold edge_ops, edge_batch. destruct p as [k [e|]]; cbn; [destruct (encode_cbor e); cbn; [|constructor]|];
    (constructor; [by left|constructor; [by right|constructor]]).
Qed.

Lemma Forall_concat_map {A} (P : BatchOp -> Prop) (g : A -> list BatchOp) l : (forall x, Forall P (g x)) -> Forall P (concat (map g l)).
Proof. intros Hg. induction l as [|x l IH]; cbn; [constructor|]. by apply Forall_app. Qed.

(** The batch of a run of operations. *)
Definition whole_batch (st : PendingNodes * PendingEdges) (vs : Versionstamp.t) (ms : Z) : list BatchOp :=
  concat (map edge_ops (hm_iter st.2)) ++ concat (map node_ops (hm_iter st.1)) ++ hwm_ops ucf vs ms.

Lemma hwm_ops_skip vs ms cf key : (forall q, key <> Byte.x5f :: q) -> forall o, batch_get (hwm_ops ucf vs ms) cf key o = o.
Proof. intros Hk. apply batch_get_skip. repeat constructor; cbn [batch_key]; intros <-; by eapply Hk. Qed.

Lemma nodes_skip st cf key : (forall q, key <> Byte.x6e :: q) -> forall o, batch_get (concat (map node_ops (hm_iter st))) cf key o = o.
Proof.
  intros Hk. apply batch_get_skip, Forall_concat_map. intros p. eapply Forall_impl; [apply node_ops_keys|]. cbn. intros op -> E.
  destruct (node_key_head db ns p.1.1 p.1.2) as [q Eq]. apply (Hk q). by rewrite <- Eq.
Qed.

Lemma edges_skip st cf key : (forall q, key <> Byte.x65 :: q) -> (forall q, key <> Byte.x69 :: q) ->
  forall o, batch_get (concat (map edge_ops (hm_iter st))) cf key o = o.
Proof.
  intros Hk Hk'. apply batch_get_skip, Forall_concat_map. intros p. eapply Forall_impl; [apply edge_ops_keys|]. cbn. intros op [->| ->] E.
  - destruct (edge_key_head db ns (source_of p.1) (ek_label p.1) (target_of p.1)) as [q Eq]. apply (Hk q). by rewrite <- Eq.
  - destruct (incoming_key_head db ns (source_of p.1) (ek_label p.1) (target_of p.1)) as [q Eq]. apply (Hk' q). by rewrite <- Eq.
Qed.

Lemma written_node r st vs ms k : staged_named st -> named k ->
  node_row (rk_write r (whole_batch st vs ms)) k
  = match st.1 !! k with Some o => batch_get (node_ops (k, o)) (column ucf CF_NODE) (node_key db ns k.1 k.2) None | None => node_row r k end.
Proof.
  intros [Hst _] Hk. unfold node_row. rewrite rk_get_write. unfold whole_batch. rewrite !batch_get_app.
  destruct (node_key_head db ns k.1 k.2) as [q Eq].
  rewrite edges_skip, hwm_ops_skip by (intros q'; rewrite Eq; discriminate).
  rewrite (batch_of_map _ _ _ _ k).
  - destruct (st.1 !! k) as [o|]; [|done]. unfold node_ops, node_batch. cbn.
    destruct o as [n|]; cbn; [destruct (encode_cbor_total n) as (b & -> & _); cbn|]; by rewrite !decide_True.
  - intros k' v o Hl Hne. apply batch_get_skip. eapply Forall_impl; [apply node_ops_keys|]. cbn. intros op -> E.
    apply Hne, cached_key_inj; [by eapply Hst|done|done].
Qed.

Lemma written_edge r st vs ms ek : staged_named st -> edge_named ek ->
  let new := match st.2 !! ek with Some (Some e) => Some (match encode_cbor e with Ok b => b | Err _ => [] end) | _ => None end in
  out_row (rk_write r (whole_batch st vs ms)) ek = (match st.2 !! ek with Some _ => new | None => out_row r ek end) /\
  in_row (rk_write r (whole_batch st vs ms)) ek = (match st.2 !! ek with Some _ => new | None => in_row r ek end).
Proof.
  intros [_ Hst] Hk new. unfold out_row, in_row. rewrite !rk_get_write. unfold whole_batch. rewrite !batch_get_app.
  destruct (edge_key_head db ns (source_of ek) (ek_label ek) (target_of ek)) as [q Eq].
  destruct (incoming_key_head db ns (source_of ek) (ek_label ek) (target_of ek)) as [q' Eq'].
  rewrite !nodes_skip, !hwm_ops_skip by (intros ?; rewrite ?Eq, ?Eq'; discriminate).
  assert (Hne : edge_key db ns (source_of ek) (ek_label ek) (target_of ek) <> incoming_edge_key db ns (source_of ek) (ek_label ek) (target_of ek))
    by (rewrite Eq, Eq'; discriminate).
  assert (Hother : forall (k' : EdgeMutationKey) v, st.2 !! k' = Some v -> k' <> ek -> Forall (fun op =>
      batch_key op <> edge_key db ns (source_of ek) (ek_label ek) (target_of ek) /\
      batch_key op <> incoming_edge_key db ns (source_of ek) (ek_label ek) (target_of ek)) (edge_ops (k', v))).
  { intros k' v Hl Hkk. eapply Forall_impl; [apply edge_ops_keys|]. cbn [fst]. pose proof (Hst k' v Hl) as Hk'.
    destruct (edge_key_head db ns (source_of k') (ek_label k') (target_of k')) as [x Ex].
    destruct (incoming_key_head db ns (source_of k') (ek_label k') (target_of k')) as [x' Ex'].
    intros op [E|E]; rewrite E; split; intros E2.
    - apply Hkk. by apply edge_key_inj.
    - rewrite Ex, Eq' in E2. discriminate.
    - rewrite Ex', Eq in E2. discriminate.
    - apply Hkk. by apply incoming_key_inj. }
  assert (Hone : forall o, batch_get (edge_ops (ek, o)) (column ucf CF_EDGE) (edge_key db ns (source_of ek) (ek_label ek) (target_of ek)) (out_row r ek)
      = (match o with Some e => Some (match encode_cbor e with Ok b => b | Err _ => [] end) | None => None end) /\
    batch_get (edge_ops (ek, o)) (column ucf CF_EDGE) (incoming_edge_key db ns (source_of ek) (ek_label ek) (target_of ek)) (in_row r ek)
      = (match o with Some e => Some (match encode_cbor e with Ok b => b | Err _ => [] end) | None => None end)).
  { intros o. unfold edge_ops, edge_batch. fold (source_of ek) (target_of ek).
    destruct o as [e|]; cbn; [destruct (encode_cbor_total e) as (b & -> & _); cbn|]; rewrite ?decide_True by done;
      rewrite ?decide_False by naive_solver; rewrite ?decide_True by done; done. }
  split; rewrite (batch_of_map _ _ _ _ ek).
  - unfold new. destruct (st.2 !! ek) as [o|]; [|done]. by apply Hone.
  - intros k' v o Hl Hkk. apply batch_get_skip. eapply Forall_impl; [by apply Hother|]. by intros ? [].
  - unfold new. destruct (st.2 !! ek) as [o|]; [|done]. by apply Hone.
  - intros k' v o Hl Hkk. apply batch_get_skip. eapply Forall_impl; [by apply Hother|]. by intros ? [].
Qed.

(** The operations that the cache can keep. *)
Definition op_ok (op : CdcOperation) : Prop := op_named op /\ op_storable op.

Lemma cached_storable r k n : cache_ok r -> named k -> cached_node r k = Some n -> storable_stored n.
Proof.
  intros Hok Hk. unfold cached_node, decoded. destruct (node_row r k) as [b|] eqn:E; [|done].
  destruct (ok_nodes r Hok k b Hk E) as (n' & -> & Hs). by intros [= <-].
Qed.
Lemma cached_edge_storable r ek e : cache_ok r -> edge_named ek -> cached_edge r ek = Some e -> storable_stored_edge e.
Proof.
  intros Hok Hk. unfold cached_edge, decoded. destruct (out_row r ek) as [b|] eqn:E; [|done].
  destruct (ok_edges r Hok ek b Hk E) as (n' & -> & Hs). by intros [= <-].
Qed.

(** The cache after the operations: every node and edge is replayed. *)
Definition replayed r ts ops r' : Prop :=
  (forall k, named k -> shown <$> cached_node r' k = shown <$> replay_node ts ops k (cached_node r k)) /\
  (forall ek, edge_named ek -> shown_edge <$> cached_edge r' ek = shown_edge <$> replay_edge db ns ts ops ek (cached_edge r ek)).

(** The rows of edges after a batch are old ones or have the keys of edges. *)
Lemma written_keys r st vs ms (c : string) (Hc : c = "e" \/ c = "i") key b : staged_named st -> colons [c; db; ns; ""] `prefix_of` key ->
  rk_get (rk_write r (whole_batch st vs ms)) (column ucf CF_EDGE) key = Some b -> rk_get r (column ucf CF_EDGE) key = Some b \/
    exists ek, edge_named ek /\ key = if String.eqb c "e" then out_key ek else in_key ek.
Proof.
  intros Hst [q Eq]. rewrite rk_get_write. intros [?|(op & Hin & Ek)]%batch_get_some; [by left|].
  assert ((exists q, key = Byte.x5f :: q) \/ (exists q, key = Byte.x6e :: q) \/ exists ek, edge_named ek /\ (key = out_key ek \/ key = in_key ek)) as Hkey.
  { unfold whole_batch in Hin.
    apply elem_of_app in Hin as [Hin|Hin]; [|apply elem_of_app in Hin as [Hin|Hin]].
    - right. right. apply list_elem_of_In, in_concat in Hin as (l & (p & <- & Hp)%in_map_iff & Hl). apply list_elem_of_In in Hp, Hl.
      destruct p as [ek oe]. exists ek. split; [apply elem_of_hm_iter in Hp; by eapply (proj2 Hst)|].
      pose proof (edge_ops_keys (ek, oe)) as Hall. rewrite Forall_forall in Hall. destruct (Hall op Hl); [left|right]; by rewrite <- Ek.
    - right. left. apply list_elem_of_In, in_concat in Hin as (l & (p & <- & Hp)%in_map_iff & Hl). apply list_elem_of_In in Hl.
      pose proof (node_ops_keys p) as Hall. rewrite Forall_forall in Hall. rewrite <- Ek, (Hall op Hl). apply node_key_head.
    - left. unfold hwm_ops in Hin. apply elem_of_cons in Hin as [->|Hin]; [rewrite <- Ek; apply hwm_key_head|].
      apply list_elem_of_singleton in Hin as ->. rewrite <- Ek. apply updated_key_head. }
  destruct Hkey as [(q' & E)|[(q' & E)|(ek & Hek & E)]].
  - exfalso. rewrite E, colons_cons in Eq. by destruct Hc as [->| ->].
  - exfalso. rewrite E, colons_cons in Eq. by destruct Hc as [->| ->].
  - right. exists ek. split; [done|]. destruct (edge_key_head db ns (source_of ek) (ek_label ek) (target_of ek)) as [q1 E1].
    destruct (incoming_key_head db ns (source_of ek) (ek_label ek) (target_of ek)) as [q2 E2]. unfold out_key, in_key in *. rewrite colons_cons in Eq.
    destruct Hc as [->| ->], E as [->| ->]; done.
Qed.

Lemma batch_written_ok r st vs ms ts ops : cache_ok r -> staged_named st -> Forall op_storable ops ->
  (forall k, eff_node r st k = replay_node ts ops k (cached_node r k)) ->
  (forall ek, eff_edge r st ek = replay_edge db ns ts ops ek (cached_edge r ek)) ->
  let r' := rk_write r (whole_batch st vs ms) in
  cache_ok r' /\ replayed r ts ops r'.
Proof.
  intros Hok Hst Hops Hn He r'.
  assert (Hnode : forall k, named k -> match st.1 !! k with
      | Some (Some n) => storable_stored n /\ exists b, node_row r' k = Some b /\ decode_cbor b = Ok (canon_stored n)
      | Some None => node_row r' k = None
      | None => node_row r' k = node_row r k
      end).
  { intros k Hk. pose proof (written_node r st vs ms k Hst Hk) as Hw. fold r' in Hw. specialize (Hn k). unfold eff_node in Hn.
    destruct (st.1 !! k) as [[n|]|]; [|by cbn in Hw; rewrite decide_True in Hw|done].
    assert (storable_stored n) as Hs by (eapply storable_replay; [exact Hops|intros n0 Hn0; by eapply cached_storable|done]).
    split; [done|]. unfold node_ops, node_batch in Hw. cbn in Hw. destruct (encode_cbor_total n) as (b & Eb & _).
    rewrite Eb in Hw. cbn in Hw. rewrite decide_True in Hw by done. exists b. split; [done|]. by apply decode_encode_cbor. }
  assert (Hedge : forall ek, edge_named ek -> in_row r' ek = out_row r' ek /\ match st.2 !! ek with
      | Some (Some e) => storable_stored_edge e /\ exists b, out_row r' ek = Some b /\ decode_cbor b = Ok (canon_stored_edge e)
      | Some None => out_row r' ek = None
      | None => out_row r' ek = out_row r ek
      end).
  { intros ek Hk. destruct (written_edge r st vs ms ek Hst Hk) as [Hout Hin]. fold r' in Hout, Hin. specialize (He ek). unfold eff_edge in He.
    destruct (st.2 !! ek) as [[e|]|]; [|by rewrite Hout, Hin|by rewrite Hout, Hin, (ok_incoming r Hok)]. split; [by rewrite Hout, Hin|].
    assert (storable_stored_edge e) as Hs by (eapply storable_replay_edge; [exact Hops|intros n0 Hn0; by eapply cached_edge_storable|done]).
    split; [done|]. destruct (encode_cbor_total e) as (b & Eb & _). rewrite Eb in Hout. exists b. split; [done|]. by apply decode_encode_cbor. }
  split; [split|split].
  - intros key b Hpre Hg. destruct (written_keys r st vs ms "e" (or_introl eq_refl) key b Hst Hpre Hg) as [Hold|Hnew]; [by eapply ok_out_keys|exact Hnew].
  - intros key b Hpre Hg. destruct (written_keys r st vs ms "i" (or_intror eq_refl) key b Hst Hpre Hg) as [Hold|Hnew]; [by eapply ok_in_keys|exact Hnew].
  - intros k b Hk E. specialize (Hnode k Hk). destruct (st.1 !! k) as [[n|]|]; [|congruence|rewrite Hnode in E; by eapply ok_nodes].
    destruct Hnode as (Hs & b' & Eb & Ed). assert (b' = b) as -> by congruence. exists (canon_stored n). split; [done|].
    unfold storable_stored, canon_stored, storable_props, canon_props. cbn. intros i v. rewrite lookup_fmap.
    destruct (sn_properties n !! i) as [v0|] eqn:Ev; [|done]. intros [= <-]. specialize (Hs i v0 Ev). by destruct v0.
  - intros ek b Hk E. destruct (Hedge ek Hk) as [_ Hedge']. destruct (st.2 !! ek) as [[n|]|]; [|congruence|rewrite Hedge' in E; by eapply ok_edges].
    destruct Hedge' as (Hs & b' & Eb & Ed). assert (b' = b) as -> by congruence. exists (canon_stored_edge n). split; [done|].
    unfold storable_stored_edge, canon_stored_edge, storable_props, canon_props. cbn. intros i v. rewrite lookup_fmap.
    destruct (se_properties n !! i) as [v0|] eqn:Ev; [|done]. intros [= <-]. specialize (Hs i v0 Ev). by destruct v0.
  - intros ek Hk. by apply Hedge.
  - intros k Hk. specialize (Hnode k Hk). rewrite <- Hn. unfold eff_node, cached_node at 1, decoded.
    destruct (st.1 !! k) as [[n|]|]; [|by rewrite Hnode|by rewrite Hnode].
    destruct Hnode as (_ & b & -> & ->). cbn. by rewrite shown_canon.
  - intros ek Hk. destruct (Hedge ek Hk) as [_ Hedge']. rewrite <- He. unfold eff_edge, cached_edge at 1, decoded.
    destruct (st.2 !! ek) as [[n|]|]; [|by rewrite Hedge'|by rewrite Hedge'].
    destruct Hedge' as (_ & b & -> & ->). cbn. by rewrite shown_canon_edge.
Qed.

Definition hwm_of r : option bytes := rk_get r (column ucf CF_META) META_HWM_KEY.

Lemma run_now_ms {A} (f : Z -> T R S A) r w :
  (now_unix_ms ≫= f) env (r, w) = f (Z.max (env_now env (w_tick w)) 0 / 1000 mod 2 ^ 64) env (r, next_tick w).
Proof. reflexivity. Qed.

Lemma run_apply r w ts ops vs : cache_ok r -> Forall op_ok ops ->
  exists r' w', apply_cdc_operations ucf db ns ops ts vs env (r, w) = (Ok tt, (r', w')) /\ idle w w' /\
    cache_ok r' /\ replayed r ts ops r' /\ hwm_of r' = Some vs.
Proof.
  intros Hok Hops. apply Forall_and in Hops as [Hnamed Hstor]. unfold apply_cdc_operations.
  assert (staged_named (∅, ∅)) as H00 by (split; cbn; intros ? ? Hl; by rewrite lookup_empty in Hl).
  destruct (run_stage_ops r ts ops w (∅, ∅) Hok H00 Hnamed) as (st & w1 & E1 & Hw1 & Hn & He & Hst).
  rewrite (tbind_run _ _ _ _ _ _ E1).
  rewrite (batch_of_total (edge_batch ucf db ns) edge_ops) by (intros; apply edge_batch_total).
  rewrite (run_on_db (lift (Ok (concat (map edge_ops (hm_iter st.2))))) _ env r w1 _ w1 eq_refl).
  rewrite (batch_of_total (node_batch ucf db ns) node_ops) by (intros; apply node_batch_total).
  rewrite (run_on_db (lift (Ok (concat (map node_ops (hm_iter st.1))))) _ env r w1 _ w1 eq_refl).
  rewrite run_now_ms. unfold write_batch. rewrite run_rocks. eexists _, _. split; [reflexivity|]. split; [by etrans|].
  destruct (batch_written_ok r st vs (Z.max (env_now env (w_tick w1)) 0 / 1000 mod 2 ^ 64) ts ops Hok Hst Hstor) as [Hok' Hr];
    [intros k; rewrite Hn; unfold eff_node; cbn; by rewrite lookup_empty|intros ek; rewrite He; unfold eff_edge; cbn; by rewrite lookup_empty|].
  split; [exact Hok'|]. split; [exact Hr|]. unfold hwm_of. rewrite rk_get_write, !batch_get_app, nodes_skip, edges_skip by discriminate.
  unfold hwm_ops, batch_get. cbn [foldl]. rewrite decide_False by (intros [_ E]; discriminate). by rewrite decide_True.
Qed.

(** *** Listing edges *)

Lemma prefix_convex (p k x : bytes) : ble p k -> ble k (p ++ x) -> p `prefix_of` k.
Proof.
  revert k. induction p as [|a p IH]; intros k H1' H2'; [apply prefix_nil|]. destruct k as [|b k]; [by destruct H1'|].
  unfold ble in H1', H2'. cbn [lex app] in H1', H2'. destruct (Z.compare_spec (u8b a) (u8b b)) as [E|E|E]; [| |by destruct H1'].
  - apply (inj u8b) in E as ->. rewrite Z.compare_refl in H2'. apply prefix_cons, IH; done.
  - destruct (Z.compare_spec (u8b b) (u8b a)); [lia|lia|by destruct H2'].
Qed.

Lemma run_scan_edges r p (rows : list (bytes * bytes)) : StronglySorted (fun a b => blt a.1 b.1) rows -> (forall (k : bytes) v, (k, v) ∈ rows -> ble p k) ->
  (forall (k : bytes) v, (k, v) ∈ rows -> p `prefix_of` k -> exists e, decode_cbor (A:=StoredEdge) v = Ok e) ->
  forall acc w, exists w', scan_edges p rows acc env (r, w)
    = (Ok (acc ++ omap (fun kv => decoded (Some kv.2)) (filter (fun kv => p `prefix_of` kv.1) rows)), (r, w')) /\ idle w w'.
Proof.
  induction 1 as [|[k v] rows Hs IH Hf]; intros Hle Hdec acc w; cbn [scan_edges]; [exists w; by rewrite app_nil_r|].
  rewrite run_rocks, filter_cons. cbn [fst]. case_bool_decide as Hp; cbn [negb].
  - rewrite decide_True by done. destruct (Hdec k v ltac:(left) Hp) as [e Ee]. rewrite Ee.
    rewrite (run_on_db (lift (Ok e)) _ env r (next_tick w) e (next_tick w) eq_refl).
    destruct (IH ltac:(intros; eapply Hle; by right) ltac:(intros; eapply Hdec; [by right|done]) (acc ++ [e]) (next_tick w)) as (w' & E & Hw).
    exists w'. rewrite E. split; [|by etrans]. cbn [omap list_omap snd decoded]. rewrite Ee. by rewrite <- app_assoc.
  - rewrite decide_False by done. exists (next_tick w). split; [|done].
    assert (filter (fun kv : bytes * bytes => p `prefix_of` kv.1) rows = []) as ->; [|by rewrite app_nil_r].
    destruct (filter _ rows) as [|[k' v'] rest] eqn:E; [done|]. exfalso.
    assert ((k', v') ∈ filter (fun kv : bytes * bytes => p `prefix_of` kv.1) rows) as Hin by (rewrite E; left).
    apply list_elem_of_filter in Hin as [[x Ex] Hin]. cbn in Ex. subst k'. apply Hp, (prefix_convex _ _ x); [by eapply Hle; left|].
    rewrite Forall_forall in Hf. specialize (Hf _ Hin). cbn in Hf. apply ble_lt_or_eq. by left.
Qed.

(** The edges a listing selects: the parts of the key after the namespace start
    with the parts asked for. *)
Definition out_parts ek : list string := [ek_source_type ek; ek_source_id ek; ek_label ek; ek_target_type ek; ek_target_id ek].
Definition in_parts ek : list string := [ek_target_type ek; ek_target_id ek; ek_label ek; ek_source_type ek; ek_source_id ek].
Definition asked (et id : string) (label : option string) : list string := et :: id :: match label with Some l => [l] | None => [] end.

Lemma run_scan_prefix r w (c : string) (keys : EdgeMutationKey -> bytes) (parts : EdgeMutationKey -> list string) et id label :
  cache_ok r -> colon_free c -> colon_free et -> colon_free id -> (forall l, label = Some l -> colon_free l) ->
  (forall ek, keys ek = colons (c :: db :: ns :: parts ek)) ->
  (forall ek, edge_named ek -> Forall colon_free (parts ek) /\ length (parts ek) = 5%nat) ->
  (forall ek, edge_named ek -> rk_get r (column ucf CF_EDGE) (keys ek) = out_row r ek) ->
  (forall ek ek', edge_named ek -> edge_named ek' -> keys ek = keys ek' -> ek = ek') ->
  (forall key b, colons [c; db; ns; ""] `prefix_of` key -> rk_get r (column ucf CF_EDGE) key = Some b -> exists ek, edge_named ek /\ key = keys ek) ->
  exists l w', scan_prefix ucf (colons ((c :: db :: ns :: asked et id label) ++ [""])) env (r, w) = (Ok l, (r, w')) /\ idle w w' /\
    forall e, e ∈ l <-> exists ek, edge_named ek /\ asked et id label `prefix_of` parts ek /\ cached_edge r ek = Some e.
Proof.
  intros Hok Hc Het Hid Hlab Hkeys Hparts Hrow Hinj Hall. set (p := colons ((c :: db :: ns :: asked et id label) ++ [""])).
  assert (Hcf : Forall colon_free (c :: db :: ns :: asked et id label)).
  { do 5 (constructor; [done|]). destruct label as [l|]; [constructor; [by apply Hlab|constructor]|constructor]. }
  assert (Hlen : (length (c :: db :: ns :: asked et id label) < 8)%nat) by (destruct label; cbn; lia).
  assert (Hmatch : forall ek, edge_named ek -> p `prefix_of` keys ek <-> asked et id label `prefix_of` parts ek).
  { intros ek Hek. destruct (Hparts ek Hek) as [Hpf Hpl]. rewrite Hkeys. unfold p. split.
    - intros [x Ex]. assert (c :: db :: ns :: asked et id label `prefix_of` c :: db :: ns :: parts ek) as Hp'.
      { eapply colons_prefix; [exact Hcf| |cbn in *; lia|exact Ex]. by repeat (constructor; [done|]). }
      by do 3 apply prefix_cons_inv_2 in Hp'.
    - intros Hp'. apply colons_prefix_of; [done| |cbn in *; lia]. by do 3 apply prefix_cons. }
  assert (Hsub : colons [c; db; ns; ""] `prefix_of` p).
  { unfold p. change [c; db; ns; ""] with ([c; db; ns] ++ [""]). apply colons_prefix_of; [done| |destruct label; cbn; lia].
    exists (asked et id label ++ [""]). done. }
  assert (Hrows : forall (k : bytes) v, (k, v) ∈ rk_iter r (column ucf CF_EDGE) p -> p `prefix_of` k ->
    exists ek, edge_named ek /\ asked et id label `prefix_of` parts ek /\ out_row r ek = Some v).
  { intros k v Hin Hp. pose proof (rk_iter_elem _ _ _ _ _ Hin) as Hg. destruct (Hall k v) as (ek & Hek & ->); [by etrans|done|].
    exists ek. split; [done|]. split; [by apply Hmatch|]. by rewrite <- Hrow. }
  unfold scan_prefix. rewrite run_get_st.
  destruct (run_scan_edges r p (rk_iter r (column ucf CF_EDGE) p)) with (acc := @nil StoredEdge) (w := w) as (w' & E & Hw);
    [apply rk_iter_sorted|intros k v; apply rk_iter_from| |].
  { intros k v Hin Hp. destruct (Hrows k v Hin Hp) as (ek & Hek & _ & Hv). destruct (ok_edges r Hok ek v Hek Hv) as (e & He & _). by exists e. }
  eexists _, w'. split; [exact E|]. split; [done|]. intros e. cbn [app]. rewrite list_elem_of_omap. split.
  - intros ([k v] & [Hp Hin]%list_elem_of_filter & Ed). destruct (Hrows k v Hin Hp) as (ek & Hek & Hm & Hv). exists ek.
    split; [done|]. split; [done|]. unfold cached_edge. rewrite Hv. exact Ed.
  - intros (ek & Hek & Hm & Ed). unfold cached_edge in Ed. destruct (out_row r ek) as [v|] eqn:Ev; [|done]. exists (keys ek, v).
    split; [|exact Ed]. apply list_elem_of_filter. pose proof (proj2 (Hmatch ek Hek) Hm) as Hp. split; [done|].
    apply rk_iter_all; [done|]. by rewrite Hrow.
Qed.

Lemma run_cached_edges r w et id label : cache_ok r -> colon_free et -> colon_free id -> (forall l, label = Some l -> colon_free l) ->
  exists l w', cache_list_edges ucf db ns et id label env (r, w) = (Ok l, (r, w')) /\ idle w w' /\
    forall e, e ∈ l <-> exists ek, edge_named ek /\ asked et id label `prefix_of` out_parts ek /\ cached_edge r ek = Some e.
Proof.
  intros Hok Het Hid Hl. unfold cache_list_edges.
  assert (edge_prefix db ns et id label = colons (("e" :: db :: ns :: asked et id label) ++ [""])) as -> by (by destruct label).
  apply (run_scan_prefix r w "e" out_key out_parts); try done.
  - apply (bool_decide_unpack _). vm_compute. exact I.
  - intros ek (? & ? & ? & ? & ?). split; [by repeat constructor|done].
  - apply edge_key_inj.
  - apply (ok_out_keys r Hok).
Qed.

Lemma run_list_incoming_edges r w et id label : cache_ok r -> colon_free et -> colon_free id -> (forall l, label = Some l -> colon_free l) ->
  exists l w', cache_list_incoming_edges ucf db ns et id label env (r, w) = (Ok l, (r, w')) /\ idle w w' /\
    forall e, e ∈ l <-> exists ek, edge_named ek /\ asked et id label `prefix_of` in_parts ek /\ cached_edge r ek = Some e.
Proof.
  intros Hok Het Hid Hl. unfold cache_list_incoming_edges.
  assert (incoming_edge_prefix db ns et id label = colons (("i" :: db :: ns :: asked et id label) ++ [""])) as -> by (by destruct label).
  apply (run_scan_prefix r w "i" in_key in_parts); try done.
  - apply (bool_decide_unpack _). vm_compute. exact I.
  - intros ek (? & ? & ? & ? & ?). split; [by repeat constructor|done].
  - intros ek Hek. exact (ok_incoming r Hok ek Hek).
  - apply incoming_key_inj.
  - apply (ok_in_keys r Hok).
Qed.
End Cache.
