(* ===== verification/ProjectorSpec.v ===== *)
(** * The local cache: projection of the log

    A projector keeps the cache of its namespace at the replay of the log up to the
    mark of its consumer, and moves that mark by a batch at every turn; a read at
    the consistency of a session only uses a cache that holds every commit visible
    at its read version. *)

From S2P Require Import Prelude Bytes Text Errors Types Encoding Subspace SchemaTypes Fdb MemFdb Cdc Consumer Ids Index.
From S2P Require Import Node Edge Rows StateM RocksCache Projector RocksSpec.

(** ** Flattened batches *)

Definition ops_of (l : list (Versionstamp.t * CdcEntry)) : list CdcOperation := concat (map (fun e => operations e.2) l).
Lemma ops_of_app a b : ops_of (a ++ b) = ops_of a ++ ops_of b.
Proof. unfold ops_of. by rewrite map_app, concat_app. Qed.

Lemma flatten_entries l : forall b, let f := foldl flatten_entry b l in
  fb_operations f = fb_operations b ++ ops_of l /\ fb_hwm f = match last l with Some e => e.1 | None => fb_hwm b end.
Proof.
  induction l as [|e l IH]; intros b; cbn [foldl]; [unfold ops_of; cbn; by rewrite app_nil_r|].
  destruct (IH (flatten_entry b e)) as [Ho Hh]. split.
  - rewrite Ho. cbn. unfold ops_of. cbn. by rewrite <- app_assoc.
  - rewrite Hh. destruct l; [done|]. rewrite last_cons_cons. by destruct (last _) eqn:E; [|apply last_None in E].
Qed.

Lemma from_entries_some l e : last l = Some e ->
  exists b, from_entries l = Some b /\ fb_operations b = ops_of l /\ fb_hwm b = e.1.
Proof.
  intros Hl. unfold from_entries. destruct l as [|x l]; [done|]. eexists. split; [reflexivity|].
  destruct (flatten_entries (x :: l) (mkFlattened (length (x :: l)) Versionstamp.zero 0 [] 0 0)) as [Ho Hh]. rewrite Ho, Hh, Hl. done.
Qed.

(** The same batch, several times over. *)
Lemma replay_copies `{HashIter} ts l k m o : replay_node ts (ops_of (concat (replicate (Datatypes.S m) l))) k o = replay_node ts (ops_of l) k o.
Proof.
  revert o. induction m as [|m IH]; intros o; [cbn; by rewrite app_nil_r|].
  cbn [replicate concat] in *. rewrite ops_of_app. unfold replay_node in *. rewrite foldl_app.
  rewrite IH. apply replay_node_twice.
Qed.
Lemma replay_edge_copies db ns ts l k m o :
  replay_edge db ns ts (ops_of (concat (replicate (Datatypes.S m) l))) k o = replay_edge db ns ts (ops_of l) k o.
Proof.
  revert o. induction m as [|m IH]; intros o; [cbn; by rewrite app_nil_r|].
  cbn [replicate concat] in *. rewrite ops_of_app. unfold replay_edge in *. rewrite foldl_app.
  rewrite IH. apply replay_edge_twice.
Qed.

Lemma last_copies {A} (l : list A) m : last (concat (replicate (Datatypes.S m) l)) = last l.
Proof.
  induction m as [|m IH]; [cbn; by rewrite app_nil_r|]. cbn [replicate concat] in *. rewrite last_app, IH. by destruct (last l).
Qed.

Lemma list_nil_elem {A} (l : list A) : (forall x, x ∉ l) -> l = [].
Proof. destruct l as [|x l]; [done|]. intros Hl. destruct (Hl x). left. Qed.

(** ** Projection *)

Section Projection.
Context {R S : Type} `{RocksLaws R} `{HashIter} `{CborLaws StoredNode canon_stored storable_stored} `{CborLaws StoredEdge canon_stored_edge storable_stored_edge}.
Context `{FdbLaws S} `{CborLaws CdcEntry canon_entry storable_entry}.
Context (ucf : bool) (env : Env) (Henv : no_faults env) (db ns : string) (Hdb : colon_free db) (Hns : colon_free ns).
Implicit Types (r : R) (w : World S) (t : S) (p : Projector) (h : Versionstamp.t).
Local Abbreviation beyond := (beyond db ns).

(** The entries a mark covers. *)
Definition upto t h : list (Versionstamp.t * CdcEntry) := filter (fun e => ~ blt h e.1) (cdc_log db ns t).

Lemma upto_beyond t h : cdc_wf db ns t -> upto t h ++ beyond t h = cdc_log db ns t.
Proof.
  intros Hwf. pose proof (log_sorted env Henv db ns t Hwf) as Hs. unfold upto, Consumer.beyond. induction Hs as [|e l Hs IH Hf]; [done|].
  rewrite !filter_cons. destruct (decide (blt h e.1)) as [Hlt|Hlt].
  - rewrite decide_False by tauto. assert (filter (fun e => ~ blt h e.1) l = []) as ->.
    { apply list_nil_elem. intros e' [Hn Hin]%list_elem_of_filter. apply Hn. etrans; [exact Hlt|]. rewrite Forall_forall in Hf. by apply Hf. }
    cbn. f_equal. apply filter_all_true. intros e' Hin. etrans; [exact Hlt|]. rewrite Forall_forall in Hf. by apply Hf.
  - rewrite decide_True by done. cbn. by rewrite IH.
Qed.

Lemma upto_next t h n e : cdc_wf db ns t -> last (take n (beyond t h)) = Some e -> upto t e.1 = upto t h ++ take n (beyond t h).
Proof.
  intros Hwf Hl. pose proof (upto_beyond t h Hwf) as E1. pose proof (upto_beyond t e.1 Hwf) as E2.
  unfold Consumer.beyond at 1 in E2. rewrite (beyond_last _ h n e) in E2; [|by apply (log_sorted env Henv)|exact Hl].
  fold (beyond t h) in E2. rewrite <- E1 in E2. rewrite <- (take_drop n (beyond t h)) in E2 at 2. rewrite app_assoc in E2.
  by apply app_inv_tail in E2.
Qed.

(** The cache is the replay of the log up to [h]. *)
Record projected r t h : Prop := {
  pr_ok : cache_ok ucf db ns r;
  pr_nodes : forall k, named k -> shown <$> cached_node ucf db ns r k = shown <$> replay_node 0 (ops_of (upto t h)) k None;
  pr_edges : forall ek, edge_named ek ->
    shown_edge <$> cached_edge ucf db ns r ek = shown_edge <$> replay_edge db ns 0 (ops_of (upto t h)) ek None
}.

Lemma projected_same r t t' h : cdc_log db ns t' = cdc_log db ns t -> projected r t h -> projected r t' h.
Proof. intros E []. split; [done|..]; unfold upto in *; by rewrite E. Qed.

Definition ops_ok t : Prop := Forall (fun e => Forall op_ok (operations e.2)) (cdc_log db ns t).

Lemma ops_of_ok t l : ops_ok t -> (forall e, e ∈ l -> e ∈ cdc_log db ns t) -> Forall op_ok (ops_of l).
Proof.
  intros Hok Hl. unfold ops_ok in Hok. rewrite Forall_forall in Hok. unfold ops_of.
  induction l as [|e l IH]; cbn; [constructor|]. apply Forall_app. split; [apply Hok, Hl; left|]. apply IH. intros e' He. apply Hl. by right.
Qed.

(** A batch, possibly several times over, carries the projection to its last entry. *)
Lemma replayed_projected r r' t h n e m ts : cdc_wf db ns t -> projected r t h -> cache_ok ucf db ns r' ->
  last (take n (beyond t h)) = Some e ->
  replayed ucf db ns r ts (ops_of (concat (replicate (Datatypes.S m) (take n (beyond t h))))) r' ->
  projected r' t e.1.
Proof.
  intros Hwf [] Hok Hl [Hn He]. split; [done|..]; rewrite (upto_next t h n e) by done; rewrite ops_of_app.
  - intros k Hk. rewrite Hn, replay_copies by done. unfold replay_node at 2. rewrite foldl_app. apply shown_replay. by apply pr_nodes0.
  - intros ek Hk. rewrite He, replay_edge_copies by done. unfold replay_edge at 2. rewrite foldl_app. apply shown_replay_edge. by apply pr_edges0.
Qed.

(** *** A turn *)

Definition follows p : Prop :=
  pj_database p = db /\ pj_namespace p = ns /\ consumer_ok db ns (pj_consumer p) /\ (0 < batch_size (config (pj_consumer p)))%nat.

Lemma run_poll r p w : cdc_wf db ns (w_kv w) -> follows p ->
  exists w', poll env ((r, p), w) = (Ok (take (batch_size (config (pj_consumer p))) (beyond (w_kv w) (hwm (pj_consumer p)))), ((r, p), w')) /\ idle w w'.
Proof.
  intros Hwf (_ & _ & Hc & _). unfold poll, projector. rewrite run_get_st. cbn [snd].
  destruct (run_poll_batch env Henv db ns w (pj_consumer p) Hwf Hc) as [n E]. unfold on_db. cbn [snd fst]. rewrite E.
  eexists. split; [reflexivity|done].
Qed.

Lemma run_drain r p batch windows : forall entries full d w, cdc_wf db ns (w_kv w) -> follows p ->
  let first := take (batch_size (config (pj_consumer p))) (beyond (w_kv w) (hwm (pj_consumer p))) in
  exists m full' d' w', drain windows batch entries full d env ((r, p), w)
    = (Ok (entries ++ concat (replicate m first), full', d'), ((r, p), w')) /\ idle w w'.
Proof.
  induction windows as [|n IH]; intros entries full d w Hwf Hp first; cbn [drain].
  { exists 0%nat, full, d, w. cbn. by rewrite app_nil_r. }
  destruct full; [|exists 0%nat, false, d, w; cbn; by rewrite app_nil_r].
  destruct (run_poll r p w Hwf Hp) as (w1 & E & Hw). rewrite (tbind_run _ _ _ _ _ _ E). fold first.
  destruct first as [|x first'] eqn:Ef; [exists 0%nat, false, d, w1; cbn; by rewrite app_nil_r|]. rewrite <- Ef.
  destruct Hw as (Hkv & Hw). assert (Hwf1 : cdc_wf db ns (w_kv w1)) by (by rewrite Hkv).
  destruct (IH (entries ++ first) (Nat.leb batch (length first)) (d + 1)%nat w1 Hwf1 Hp) as (m & full' & d' & w' & E' & Hw').
  rewrite Hkv in E'. fold first in E'. exists (Datatypes.S m), full', d', w'. split; [|etrans; [by split|exact Hw']].
  rewrite E'. cbn [replicate concat]. by rewrite app_assoc.
Qed.

(** The stamp a consumer moves to. *)
Lemma beyond_stamp t h n e : cdc_wf db ns t -> last (take n (beyond t h)) = Some e ->
  blt h e.1 /\ length e.1 = 10%nat /\ e.1 <> STAMP_MAX.
Proof.
  intros Hwf Hl. apply last_Some_elem_of, elem_of_take_1 in Hl. unfold Consumer.beyond in Hl. apply list_elem_of_filter in Hl as [Hlt Hin].
  destruct (log_stamps db ns t e Hwf Hin) as (Hlen & Hff & _). split; [done|]. split; [done|]. intros E. rewrite E in Hff. by apply Hff.
Qed.

Lemma run_apply_flattened r p w b : follows p -> cache_ok ucf db ns r -> Forall op_ok (fb_operations b) ->
  exists r' w', apply_flattened ucf b env ((r, p), w) = (Ok tt, ((r', p), w')) /\ idle w w' /\
    cache_ok ucf db ns r' /\ replayed ucf db ns r (fb_timestamp b) (fb_operations b) r' /\ hwm_of ucf r' = Some (fb_hwm b).
Proof.
  intros (Hd & Hn & _) Hok Hops. unfold apply_flattened, projector. rewrite !run_get_st. cbn [snd]. rewrite Hd, Hn.
  destruct (run_apply ucf env Henv db ns Hdb Hns r w (fb_timestamp b) (fb_operations b) (fb_hwm b) Hok Hops) as (r' & w' & E & Hrest).
  exists r', w'. unfold on_cache. cbn [fst snd]. rewrite E. done.
Qed.

Lemma run_acknowledge r p w (e : Versionstamp.t * CdcEntry) : cdc_wf db ns (w_kv w) -> follows p -> blt (hwm (pj_consumer p)) e.1 -> length e.1 = 10%nat -> e.1 <> STAMP_MAX ->
  exists res p' w', acknowledge e.1 env ((r, p), w) = (res, ((r, p'), w')) /\ follows p' /\ hwm (pj_consumer p') = e.1 /\
    config (pj_consumer p') = config (pj_consumer p) /\ cdc_wf db ns (w_kv w') /\ cdc_log db ns (w_kv w') = cdc_log db ns (w_kv w).
Proof.
  intros Hwf (Hd & Hn & (Hcd & Hcn & _) & Hb) Hlt Hlen Hmax. unfold acknowledge, projector. rewrite run_get_st. cbn [snd].
  destruct (ack_batch_run env w (pj_consumer p) [e]) as (c' & res & w' & E & Hcfg & Hh & Hk). cbn [last] in *. rewrite decide_True in Hh by done.
  unfold ack_batch in E. cbn [last] in E. destruct e as [vs en]. cbn [fst] in *.
  destruct (only_key_log db ns _ _ _ Hk Hwf) as [Hwf' Hlog].
  rewrite (run_on_db _ _ _ _ _ _ _ E). unfold set_projector. rewrite run_set_st. cbn [fst snd].
  eexists _, (set_consumer c' p), w'. split; [unfold on_db, lift; cbn; reflexivity|]. unfold follows, consumer_ok. cbn. rewrite Hcfg, Hh. done.
Qed.

(** A turn: the cache moves to the end of the batch that lies beyond the mark. *)
Lemma run_project_batch r p w : cdc_wf db ns (w_kv w) -> ops_ok (w_kv w) -> follows p -> projected r (w_kv w) (hwm (pj_consumer p)) ->
  exists res r' p' w', project_batch ucf env ((r, p), w) = (res, ((r', p'), w')) /\
    follows p' /\ config (pj_consumer p') = config (pj_consumer p) /\
    projected r' (w_kv w') (hwm (pj_consumer p')) /\ cdc_wf db ns (w_kv w') /\ cdc_log db ns (w_kv w') = cdc_log db ns (w_kv w) /\
    beyond (w_kv w') (hwm (pj_consumer p')) = drop (batch_size (config (pj_consumer p))) (beyond (w_kv w) (hwm (pj_consumer p))) /\
    (beyond (w_kv w) (hwm (pj_consumer p)) <> [] -> hwm_of ucf r' = Some (hwm (pj_consumer p'))).
Proof.
  intros Hwf Hops Hp Hpr. unfold project_batch, projector. rewrite run_get_st. cbn [snd id].
  destruct (run_poll r p w Hwf Hp) as (w1 & E1 & Hkv1 & _). rewrite (tbind_run _ _ _ _ _ _ E1).
  set (b := batch_size (config (pj_consumer p))) in *. set (h := hwm (pj_consumer p)) in *. set (first := take b (beyond (w_kv w) h)) in *.
  assert (Hb : (0 < b)%nat) by apply Hp.
  destruct (last first) as [e|] eqn:El; cycle 1.
  { apply last_None in El. rewrite El. assert (beyond (w_kv w) h = []) as Hnil.
    { unfold first in El. destruct (beyond (w_kv w) h); [done|]. by destruct b; [lia|]. }
    unfold set_projector. rewrite run_set_st. eexists _, r, _, w1. split; [reflexivity|]. cbn. rewrite Hkv1. split; [exact Hp|]. split; [done|].
    split; [exact Hpr|]. split; [done|]. split; [done|]. split; [by rewrite Hnil, drop_nil|done]. }
  destruct first as [|x first'] eqn:Ef; [done|]. rewrite <- Ef in *. assert (Hwf1 : cdc_wf db ns (w_kv w1)) by (by rewrite Hkv1).
  destruct (run_drain r p (pj_batch_size p) (adaptive_drain_windows p - 1) first (Nat.leb (pj_batch_size p) (length first)) 1 w1 Hwf1 Hp)
    as (m & full & d & w2 & E2 & Hkv2 & _). rewrite Hkv1 in E2, Hkv2. fold b h in E2. fold first in E2. rewrite (tbind_run _ _ _ _ _ _ E2).
  change (first ++ concat (replicate m first)) with (concat (replicate (Datatypes.S m) first)).
  set (entries := concat (replicate (Datatypes.S m) first)).
  destruct (from_entries_some entries e) as (bt & Ebt & Hbo & Hbh); [unfold entries; rewrite last_copies; done|]. rewrite Ebt.
  assert (Hin : Forall (fun e' => e' ∈ cdc_log db ns (w_kv w)) entries).
  { apply Forall_concat, Forall_replicate, Forall_forall. intros e' He'%elem_of_take_1. by apply list_elem_of_filter in He' as [_ ?]. }
  destruct (run_apply_flattened r p w2 bt Hp (pr_ok _ _ _ Hpr)) as (r' & w3 & E3 & (Hkv3 & _) & Hok' & Hrep & Hhw).
  { rewrite Hbo. apply (ops_of_ok (w_kv w)); [done|]. intros e' He'. rewrite Forall_forall in Hin. by apply Hin. }
  destruct (beyond_stamp (w_kv w) h b e Hwf El) as (Hlt & Hlen & Hmax).
  assert (Hkv : w_kv w3 = w_kv w) by congruence.
  assert (Hwf3 : cdc_wf db ns (w_kv w3)) by (by rewrite Hkv).
  destruct (run_acknowledge r' p w3 e Hwf3 Hp Hlt Hlen Hmax) as (res & p' & w4 & E4 & Hp' & Hh' & Hcfg & Hwf4 & Hlog4). rewrite Hkv in Hlog4.
  assert (Hpr' : projected r' (w_kv w4) e.1).
  { apply (projected_same r' (w_kv w)); [done|]. eapply (replayed_projected r r' (w_kv w) h b e m (fb_timestamp bt)); try done.
    unfold replayed in *. rewrite Hbo in Hrep. exact Hrep. }
  assert (Hbey : beyond (w_kv w4) e.1 = drop b (beyond (w_kv w) h)).
  { unfold Consumer.beyond at 1. rewrite Hlog4. apply beyond_last; [by apply (log_sorted env Henv)|exact El]. }
  assert (Ematch : (apply_flattened ucf bt ;; acknowledge (fb_hwm bt)) env ((r, p), w2) = (res, ((r', p'), w4))).
  { rewrite (tbind_run _ _ _ _ _ _ E3), Hbh. exact E4. }
  destruct res as [[]|err].
  - rewrite (tbind_run _ _ _ _ _ _ Ematch). unfold set_projector. rewrite run_set_st. eexists _, r', _, w4. split; [reflexivity|]. cbn.
    unfold follows in *. cbn. rewrite Hh', Hhw, Hbh. done.
  - rewrite (tbind_run_err _ _ _ _ _ _ Ematch). exists (Err err), r', p', w4. rewrite Hh', Hhw, Hbh. done.
Qed.

(** *** Turns *)

Fixpoint projector_turns (n : nat) : T (R * Projector) S unit :=
  match n with O => mret tt | Datatypes.S m => projector_turn ucf false ;; projector_turns m end.

Lemma run_projector_turns n : forall r p w, cdc_wf db ns (w_kv w) -> ops_ok (w_kv w) -> follows p -> projected r (w_kv w) (hwm (pj_consumer p)) ->
  exists r' p' w', projector_turns n env ((r, p), w) = (Ok tt, ((r', p'), w')) /\
    projected r' (w_kv w') (hwm (pj_consumer p')) /\ cdc_log db ns (w_kv w') = cdc_log db ns (w_kv w) /\
    beyond (w_kv w') (hwm (pj_consumer p')) = drop (n * batch_size (config (pj_consumer p))) (beyond (w_kv w) (hwm (pj_consumer p))).
Proof.
  induction n as [|n IH]; intros r p w Hwf Hops Hp Hpr; cbn [projector_turns]; [exists r, p, w; by rewrite drop_0|].
  destruct (run_project_batch r p w Hwf Hops Hp Hpr) as (res & r1 & p1 & w1 & E & Hp1 & Hcfg & Hpr1 & Hwf1 & Hlog1 & Hb1 & _).
  assert (projector_turn ucf false env ((r, p), w) = (Ok true, ((r1, p1), w1))) as Et
    by (unfold projector_turn, attempt_st, mbind, T_bind; rewrite E; reflexivity).
  rewrite (tbind_run _ _ _ _ _ _ Et).
  destruct (IH r1 p1 w1 Hwf1) as (r2 & p2 & w2 & E2 & Hpr2 & Hlog2 & Hb2); [unfold ops_ok; by rewrite Hlog1|done|done|].
  exists r2, p2, w2. split; [done|]. split; [done|]. split; [congruence|]. rewrite Hb2, Hb1, Hcfg, drop_drop. f_equal; lia.
Qed.

(** ** Reads *)

(** A later stamp does not have an earlier version. *)
Lemma tx_version_mono (a b : Versionstamp.t) : length a = 10%nat -> length b = 10%nat -> blt a b ->
  versionstamp_tx_version a <= versionstamp_tx_version b.
Proof.
  intros Ha Hb Hlt. unfold versionstamp_tx_version.
  assert (forall n (a b : bytes), lex a b = Lt -> lex (take n a) (take n b) <> Gt) as Htake.
  { clear. induction n as [|n IH]; intros a b E; [done|]. destruct a as [|x a], b as [|y b]; try done. cbn [take lex] in *.
    destruct (Z.compare (u8b x) (u8b y)) eqn:Ec; [by apply IH|done|done]. }
  specialize (Htake 8%nat a b Hlt). rewrite lex_be_val in Htake by (rewrite !length_take; lia). by apply Z.compare_le_iff.
Qed.

Context (kv_read_version : S -> Z).
Local Abbreviation no_budgets := (mkBudgets None None).

Lemma run_get_hwm r w h : hwm_of ucf r = Some h -> length h = 10%nat -> get_hwm ucf env (r, w) = (Ok h, (r, next_tick w)).
Proof.
  intros Hh Hl. unfold get_hwm. rewrite (run_get_cf ucf env Henv). fold (hwm_of ucf r). rewrite Hh.
  unfold on_db, lift, Versionstamp.from_bytes. cbn. by rewrite decide_True.
Qed.

(** The entries that a read at a version sees are in the cache. *)
Lemma covered t h rv e : cdc_wf db ns t -> length h = 10%nat -> rv <= versionstamp_tx_version h ->
  (forall e', e' ∈ beyond t h -> versionstamp_tx_version e'.1 <> versionstamp_tx_version h) ->
  e ∈ cdc_log db ns t -> versionstamp_tx_version e.1 <= rv -> e ∈ upto t h.
Proof.
  intros Hwf Hl Hrv Hwhole He Hv. unfold upto. apply list_elem_of_filter. split; [|done]. intros Hlt.
  apply (Hwhole e); [by apply list_elem_of_filter|]. destruct (log_stamps db ns t e Hwf He) as (Hle & _).
  pose proof (tx_version_mono h e.1 Hl Hle Hlt). lia.
Qed.

Lemma run_session_read r w h rv k : cache_ok ucf db ns r -> named k -> hwm_of ucf r = Some h -> length h = 10%nat -> Versionstamp.is_zero h = false ->
  0 <= rv < 2 ^ 63 ->
  exists w', read_node ucf kv_read_version no_budgets db ns k.1 k.2 Session (Some rv) env (r, w)
    = (Ok (if rv <=? versionstamp_tx_version h then match cached_node ucf db ns r k with Some n => hit n | None => miss KeyAbsent end
           else miss StaleHwm), (r, w')) /\ idle w w'.
Proof.
  intros Hok Hk Hh Hl Hz Hrv. unfold read_node, cached_lookup, session_cache_state_for_read_version.
  change ((mret rv : T R S Z) ≫= ?f) with (f rv). cbv beta.
  assert (forall A (f : SessionCacheState -> T R S A), ((h ← get_hwm ucf;
      mret (if Versionstamp.is_zero h then Cold else if rv mod 2 ^ 64 <=? versionstamp_tx_version h then Fresh else SessionStale)) ≫= f) env (r, w)
    = f (if rv <=? versionstamp_tx_version h then Fresh else SessionStale) env (r, next_tick w)) as ->.
  { intros A f. apply tbind_run. rewrite (tbind_run _ _ _ _ _ _ (run_get_hwm r w h Hh Hl)), Hz. rewrite Z.mod_small by lia. reflexivity. }
  destruct (rv <=? versionstamp_tx_version h); [|by eexists].
  unfold within_budget, freshness_budget_violation. cbn [max_lag_budget_ms session_max_lag_ms].
  change ((mret None : T R S (option CacheFallbackReason)) ≫= ?f) with (f None). cbv beta. unfold probe.
  destruct (run_cache_get_node ucf env Henv db ns r (next_tick w) k Hok Hk) as (w' & E & Hw).
  exists w'. assert (attempt_st (cache_get_node ucf db ns k.1 k.2) env (r, next_tick w) = (Ok (Ok (cached_node ucf db ns r k)), (r, w'))) as Ea
    by (unfold attempt_st; by rewrite E).
  rewrite (tbind_run _ _ _ _ _ _ Ea). split; [by destruct (cached_node ucf db ns r k)|]. by etrans.
Qed.
End Projection.


