(* ===== verification/RocksExamples.v ===== *)
(** * The local cache on concrete stores

    An in-memory store with column families that satisfies [RocksLaws], the
    theorems on projectors and session reads at work, and behaviours of the cache a
    client does not expect.  Nothing of the program is modelled here. *)

From S2P Require Import Prelude Bytes Text Errors Types Encoding Subspace SchemaTypes Fdb MemFdb Cdc Consumer Ids Index.
From S2P Require Import Node Edge EdgeCascade Rows WatchExamples StateM RocksCache Projector RocksSpec ProjectorSpec.

(** ** A store *)

Abbreviation MemRocks := (gmap (string * bytes) bytes).

Definition mem_write (r : MemRocks) (ops : list BatchOp) : MemRocks :=
  foldl (fun r op => match op with RPut cf k v => <[(cf, k) := v]> r | RDelete cf k => delete (cf, k) r end) r ops.
Definition mem_rows (r : MemRocks) (cf : string) : list (bytes * bytes) :=
  merge_sort key_le (omap (fun x => if decide (x.1.1 = cf) then Some (x.1.2, x.2) else None) (map_to_list r)).

#[export] Instance mem_rocks : Rocks MemRocks := {|
  rk_get r cf k := r !! (cf, k);
  rk_write := mem_write;
  rk_iter r cf p := filter (fun kv => ble p kv.1) (mem_rows r cf);
  rk_all := mem_rows
|}.

Lemma mem_rows_elem r cf k v : (k, v) ∈ mem_rows r cf <-> r !! (cf, k) = Some v.
Proof.
  unfold mem_rows. rewrite merge_sort_Permutation, list_elem_of_omap. split.
  - intros ([[cf' k'] v'] & Hin%elem_of_map_to_list & E). cbn in E. case_decide; by simplify_eq.
  - intros Hg. exists ((cf, k), v). split; [by apply elem_of_map_to_list|]. cbn. by rewrite decide_True.
Qed.

Lemma mem_rows_sorted r cf : StronglySorted (fun x y => blt x.1 y.1) (mem_rows r cf).
Proof.
  apply sorted_strict; [|apply StronglySorted_merge_sort; apply _]. unfold mem_rows. rewrite merge_sort_Permutation.
  assert (Hn : NoDup (map_to_list r).*1) by apply NoDup_fst_map_to_list. revert Hn. generalize (map_to_list r).
  induction l as [|[[cf' k] v] l IH]; intros Hn; [constructor|]. inversion_clear Hn as [|? ? Hx Hn']. cbn [omap list_omap fst snd].
  case_decide as Hd; [|by apply IH]. rewrite fmap_cons. constructor; [|by apply IH]. intros Hin. apply Hx.
  apply list_elem_of_fmap in Hin as ([k' v'] & Ek & Hin). cbn in Ek. apply list_elem_of_omap in Hin as ([[cf'' k''] v''] & Hin & E). cbn in E.
  case_decide; [|done]. simplify_eq. by apply (list_elem_of_fmap_2 fst) in Hin.
Qed.

#[export] Instance mem_rocks_laws : RocksLaws MemRocks.
Proof.
  split; cbn [rk_get rk_write rk_iter rk_all mem_rocks].
  - intros r ops cf k. revert r. induction ops as [|op ops IH]; intros r; [done|]. cbn [mem_write foldl]. fold (mem_write).
    change (foldl _ ?x ops) with (mem_write x ops). rewrite IH. change (op :: ops) with ([op] ++ ops). rewrite batch_get_app. f_equal.
    destruct op as [cf' k' v|cf' k']; cbn; case_decide as Hd.
    + destruct Hd as [-> ->]. by rewrite lookup_insert_eq.
    + rewrite lookup_insert_ne by naive_solver. done.
    + destruct Hd as [-> ->]. by rewrite lookup_delete_eq.
    + rewrite lookup_delete_ne by naive_solver. done.
  - intros r cf p k v [_ Hin]%list_elem_of_filter. by apply mem_rows_elem.
  - intros r cf p k v [x ->] Hg. apply list_elem_of_filter. split; [apply ble_app_r|by apply mem_rows_elem].
  - intros r cf p. apply sorted_filter, mem_rows_sorted.
  - intros r cf p k v [Hle _]%list_elem_of_filter. exact Hle.
  - intros r cf k v. apply mem_rows_elem.
Qed.

#[export] Instance StoredNode_eq_dec' : EqDecision StoredNode.
Proof. solve_decision. Defined.
#[export] Instance StoredNode_countable' : Countable StoredNode.
Proof.
  refine (inj_countable' (fun n => (sn_id n, sn_entity_type n, sn_properties n, sn_locality n, sn_created_at n, sn_updated_at n))
    (fun '(a, b, c, d, e, f) => mkStoredNode a b c d e f) _). by intros [].
Defined.
#[export] Instance NodeRef_countable' : Countable NodeRef.
Proof.
  refine (inj_countable' (fun n => (ref_database n, ref_namespace n, ref_entity_type n, ref_node_id n))
    (fun '(a, b, c, d) => mkNodeRef a b c d) _). by intros [].
Defined.
#[export] Instance StoredEdge_countable' : Countable StoredEdge.
Proof.
  refine (inj_countable' (fun n => (se_edge_id n, se_source n, se_target n, se_label n, se_properties n, se_created_at n))
    (fun '(a, b, c, d, e, f) => mkStoredEdge a b c d e f) _). by intros [].
Defined.
#[export] Instance cached_node_cbor : Cbor StoredNode | 50 := countable_cbor StoredNode canon_stored.
#[export] Instance cached_node_cbor_laws : CborLaws StoredNode canon_stored storable_stored.
Proof. apply countable_cbor_laws. Qed.
#[export] Instance cached_edge_cbor : Cbor StoredEdge | 50 := countable_cbor StoredEdge canon_stored_edge.
#[export] Instance cached_edge_cbor_laws : CborLaws StoredEdge canon_stored_edge storable_stored_edge.
Proof. apply countable_cbor_laws. Qed.

(** ** Following a log *)

Definition batches_of (n : nat) (id : string) : ConsumerConfig := Config.with_batch_size (Config.new id "db" "ns") n.
Definition fresh_projector (n windows : nat) : Projector :=
  mkProjector (mkConsumer (batches_of n "p") Versionstamp.zero 0) n windows 8 "db" "ns".

Lemma empty_cache_ok : cache_ok true "db" "ns" (∅ : MemRocks).
Proof. split; cbn; intros *; rewrite ?lookup_empty; try done; intros ?; by rewrite lookup_empty. Qed.

Lemma empty_projected t : cdc_wf "db" "ns" t -> projected true "db" "ns" (∅ : MemRocks) t Versionstamp.zero.
Proof.
  intros Hwf. assert (upto "db" "ns" t Versionstamp.zero = []) as Hu.
  { apply list_nil_elem. intros e [Hn Hin]%list_elem_of_filter. by destruct (log_stamps "db" "ns" t e Hwf Hin) as (_ & _ & ?). }
  split; [exact empty_cache_ok|..]; rewrite Hu; reflexivity.
Qed.

Lemma ops_ok_entries (t : MemKv) es : snd <$> cdc_log "db" "ns" t = es -> Forall (fun e => Forall op_ok (operations e)) es -> ops_ok "db" "ns" t.
Proof. intros <- Hf. unfold ops_ok. apply Forall_forall. intros e He. rewrite Forall_forall in Hf. apply Hf. by apply list_elem_of_fmap_2. Qed.

Lemma log2_ops : ops_ok "db" "ns" log2.
Proof.
  apply (ops_ok_entries _ [first_entry; second_entry]); [vm_compute; reflexivity|].
  assert (Hn : named ("Person", "1_0")) by (split; apply (bool_decide_unpack _); vm_compute; exact I).
  repeat constructor; try exact (proj1 Hn); try exact (proj2 Hn); apply storable_aged.
Qed.


(** ** Reading at a session's version *)

Definition project_once (n windows : nat) (kv : MemKv) : result nat * ((MemRocks * Projector) * World MemKv) :=
  project_batch true quiet_env (((∅ : MemRocks), fresh_projector n windows), set_kv empty_world kv).
Definition cached2 : MemRocks := (project_once 5 1 log2).2.1.1.
Definition mark2 : bytes := hwm (pj_consumer (project_once 5 1 log2).2.1.2).

Lemma cached2_projected : projected true "db" "ns" cached2 log2 mark2 /\ hwm_of true cached2 = Some mark2.
Proof.
  assert (Hn : forall s, s = "db" \/ s = "ns" -> colon_free s) by (intros s [->| ->]; apply (bool_decide_unpack _); vm_compute; exact I).
  destruct (run_project_batch true quiet_env ltac:(intros k; reflexivity) "db" "ns" (Hn "db" (or_introl eq_refl)) (Hn "ns" (or_intror eq_refl))
    (∅ : MemRocks) (fresh_projector 5 1) (set_kv empty_world log2) log2_wf log2_ops) as (res & r' & p' & w' & E & _ & _ & Hpr & _ & Hlog & _ & Hh).
  - repeat split; cbn; lia || discriminate.
  - apply empty_projected, log2_wf.
  - unfold cached2, mark2, project_once. rewrite E. cbn [fst snd]. split.
    + exact (projected_same true "db" "ns" r' (w_kv w') log2 _ (eq_sym Hlog) Hpr).
    + apply Hh. vm_compute. discriminate.
Qed.

Lemma nil_all {A} (l : list A) (P : A -> Prop) : l = [] -> forall x, x ∈ l -> P x.
Proof. intros -> x Hx. by apply not_elem_of_nil in Hx. Qed.


(** ** Unexpected behaviours *)

(** A turn that may drain two batches polls the first one twice: the mark has not
    moved in between.  Two entries are counted, one is projected. *)
Lemma drain_repeats_batch :
  (project_once 1 2 log2).1 = Ok 2%nat /\
  length (beyond "db" "ns" log2 (hwm (pj_consumer (project_once 1 2 log2).2.1.2))) = 1%nat.
Proof. split; vm_compute; reflexivity. Qed.

(** The nodes of a batch all get the time of its last entry: a node created at 5 is
    cached with 9 when an entry of that time follows in the batch. *)
Definition stamped (ts : Z) (id : string) : CdcEntry := mkCdcEntry "1" ts None [NodeCreate "Person" id ∅ "1"].
Definition timed_log : MemKv := written (written empty_kv (stamped 5 "1_0")) (stamped 9 "1_1").
Lemma cached_times_of_last_entry :
  (sn_created_at <$> cached_node true "db" "ns" (project_once 5 1 timed_log).2.1.1 ("Person", "1_0")) = Some 9.
Proof. vm_compute. reflexivity. Qed.

(** Two commits of one version: with only the first projected the cache counts as
    fresh at that version, and the read returns the value the second has replaced. *)
Lemma same_version_commit_missed :
  let c := (project_once 1 1 log2).2.1.1 in
  map (fun e => versionstamp_tx_version e.1) (cdc_log "db" "ns" log2) = [0; 0] /\
  (read_node true (fun _ => 0) (mkBudgets None None) "db" "ns" "Person" "1_0" Session (Some 0) quiet_env (c, set_kv empty_world log2)).1
    = Ok (hit (mkStoredNode "1_0" "Person" (aged 35) 1 0 0)).
Proof. split; vm_compute; reflexivity. Qed.

(** Projectors of several namespaces share one mark: when the projector of another
    namespace is ahead, a read here counts as fresh although this namespace's later
    commit, at version 1, is not projected. *)
Definition at_version (v : Z) (kv : MemKv) : MemKv := mkMem (mem_map kv) (v * 65536).
Definition two_logs : MemKv :=
  match write_cdc_entry (at_version 2 (written (at_version 1 log1) second_entry)) "db" "other" (stamped 9 "1_7") with Ok t => t | Err _ => empty_kv end.
Definition shared_cache : MemRocks :=
  let c := (project_once 1 1 two_logs).2.1.1 in
  (project_batch true quiet_env ((c, mkProjector (mkConsumer (Config.with_batch_size (Config.new "q" "db" "other") 1) Versionstamp.zero 0) 1 1 8 "db" "other"),
     set_kv empty_world two_logs)).2.1.1.
Lemma shared_mark_hides_staleness :
  map (fun e => versionstamp_tx_version e.1) (cdc_log "db" "ns" two_logs) = [0; 1] /\
  (read_node true (fun _ => 0) (mkBudgets None None) "db" "ns" "Person" "1_0" Session (Some 2) quiet_env (shared_cache, set_kv empty_world two_logs)).1
    = Ok (hit (mkStoredNode "1_0" "Person" (aged 35) 1 0 0)).
Proof. split; vm_compute; reflexivity. Qed.

(** The consumer of a rebuild is named after the process: once it has taken a
    checkpoint, a second rebuild clears the cache and replays nothing. *)
Definition slow_env : Env := mkEnv (fun n => 6000000 * Z.of_nat n) (fun _ => None).
Definition rebuild_twice : result (option RebuildStats) * ((MemRocks * Projector) * World MemKv) :=
  rebuild true 5 "77" slow_env (rebuild true 5 "77" slow_env (((∅ : MemRocks), fresh_projector 5 1), set_kv empty_world log2)).2.
Lemma second_rebuild_is_empty :
  rebuild_twice.1 = Ok (Some (mkRebuildStats 0 0 0)) /\ cached_node true "db" "ns" rebuild_twice.2.1.1 ("Person", "1_0") = None.
Proof. split; vm_compute; reflexivity. Qed.

(** Names are joined with an unescaped separator: two namespaces share a key. *)
Lemma node_keys_collide : node_key "a" "b:c" "T" "1" = node_key "a:b" "c" "T" "1".
Proof. reflexivity. Qed.

(** A bidirectional edge is cached in one direction: the database lists two edges
    that leave [1_2], the cache one, and a non-empty list is a hit. *)
Definition edge_log : list CdcOperation :=
  [EdgeCreate "Person" "1_1" "Person" "1_2" "KNOWS" "1_0" ∅; EdgeCreate "Person" "1_3" "Person" "1_1" "LIKES" "1_0" ∅;
   EdgeCreate "Person" "1_2" "Person" "1_3" "LIKES" "1_1" ∅].
Lemma cached_edges_one_way :
  let c := (apply_cdc_operations (S:=MemKv) true "db" "ns" edge_log 0 Versionstamp.zero quiet_env ((∅ : MemRocks), empty_world)).2.1 in
  match (list_edges "db" "ns" "Person" "1_2" None 10 quiet_env graph_world).1,
        (cache_list_edges (S:=MemKv) true "db" "ns" "Person" "1_2" None quiet_env (c, empty_world)).1 with
  | Ok stored, Ok cached => length stored = 2%nat /\ length cached = 1%nat
  | _, _ => False
  end.
Proof. vm_compute. split; reflexivity. Qed.
