(* ===== verification/Wire.v ===== *)
(** * Messages

    The messages of [proto/pelago.proto] that carry schemas and values, and the
    conversions of [pelago-api/src/schema_service.rs] between them and the types of
    the core.  The enumerations of the protocol are 32-bit integers on the wire: a
    number that names no variant is handled where the code handles it. *)

From S2P Require Import Prelude Bytes Text Errors Types Encoding Subspace SchemaTypes Fdb Service.

(** ** Messages *)

Module Pb.
Inductive Kind :=
  | StringValue (s : string) | IntValue (i : Z) | FloatValue (f : Z) | BoolValue (b : bool) | TimestampValue (t : Z)
  | BytesValue (b : bytes) | NullValue (b : bool).
Record Value := mkValue { kind : option Kind }.

Definition PROPERTY_TYPE_STRING : Z := 1.
Definition PROPERTY_TYPE_INT : Z := 2.
Definition PROPERTY_TYPE_FLOAT : Z := 3.
Definition PROPERTY_TYPE_BOOL : Z := 4.
Definition PROPERTY_TYPE_TIMESTAMP : Z := 5.
Definition PROPERTY_TYPE_BYTES : Z := 6.
Definition INDEX_TYPE_NONE : Z := 0.
Definition INDEX_TYPE_UNIQUE : Z := 1.
Definition INDEX_TYPE_EQUALITY : Z := 2.
Definition INDEX_TYPE_RANGE : Z := 3.
Definition INDEX_DEFAULT_MODE_AUTO_BY_TYPE_V1 : Z := 1.
Definition EDGE_DIRECTION_DEF_OUTGOING : Z := 1.
Definition EDGE_DIRECTION_DEF_BIDIRECTIONAL : Z := 2.
Definition OWNERSHIP_MODE_SOURCE_SITE : Z := 1.
Definition OWNERSHIP_MODE_INDEPENDENT : Z := 2.
Definition EXTRAS_POLICY_REJECT : Z := 1.
Definition EXTRAS_POLICY_ALLOW : Z := 2.
Definition EXTRAS_POLICY_WARN : Z := 3.

Record PropertyDef := mkPropertyDef { type : Z; required : bool; index : option Z; default_value : option Value }.
Inductive TargetKind := SpecificType (n : string) | PolymorphicKind (b : bool).
Record EdgeTarget := mkEdgeTarget { target_kind : option TargetKind }.
Record EdgeDef := mkEdgeDef {
  target : option EdgeTarget; direction : Z; edge_properties : gmap string PropertyDef; sort_key : string; ownership : Z
}.
Record SchemaMeta := mkSchemaMeta { allow_undeclared_edges : bool; extras_policy : Z }.
Record EntitySchema := mkEntitySchema {
  name : string; version : Z; properties : gmap string PropertyDef; edges : gmap string EdgeDef; meta : option SchemaMeta;
  created_at : Z; created_by : string
}.
End Pb.

(** ** Conversions that can be refused *)

Definition Conv (A : Type) : Type := (A + Status)%type.
#[export] Instance Conv_ret : MRet Conv := fun A a => inl a.
#[export] Instance Conv_bind : MBind Conv := fun A B f m => match m with inl a => f a | inr e => inr e end.

(** [for (k, v) in &map { acc = f(acc, k, v)?; }] *)
Fixpoint fold_conv {A B} (f : B -> A -> Conv B) (l : list A) (b : B) : Conv B :=
  match l with [] => mret b | x :: rest => b ← f b x; fold_conv f rest b end.

(** *** Values *)

Definition proto_to_core_value (v : Pb.Value) : option Value :=
  match Pb.kind v with
  | None => None
  | Some (Pb.StringValue s) => Some (VString s)
  | Some (Pb.IntValue i) => Some (VInt i)
  | Some (Pb.FloatValue f) => Some (VFloat f)
  | Some (Pb.BoolValue b) => Some (VBool b)
  | Some (Pb.TimestampValue t) => Some (VTimestamp t)
  | Some (Pb.BytesValue b) => Some (VBytes b)
  | Some (Pb.NullValue _) => Some VNull
  end.

Definition core_to_proto_value (v : Value) : Pb.Value :=
  Pb.mkValue (Some (match v with
    | VString s => Pb.StringValue s
    | VInt i => Pb.IntValue i
    | VFloat f => Pb.FloatValue f
    | VBool b => Pb.BoolValue b
    | VTimestamp t => Pb.TimestampValue t
    | VBytes b => Pb.BytesValue b
    | VNull => Pb.NullValue true
    end)).

Definition core_to_proto_properties (props : Props) : gmap string Pb.Value := core_to_proto_value <$> props.
Definition proto_to_core_properties (props : gmap string Pb.Value) : Props := omap proto_to_core_value props.

(** *** Properties *)

Definition infer_index_type (t : PropertyType) (mode : Z) : Conv IndexType :=
  if mode =? Pb.INDEX_DEFAULT_MODE_AUTO_BY_TYPE_V1 then
    inl (match t with
         | PInt | PFloat | PTimestamp => IdxRange
         | PBool => IdxEquality
         | PString | PBytes => IdxNone
         end)
  else inr (St.invalid_argument "index_default_mode must be INDEX_DEFAULT_MODE_AUTO_BY_TYPE_V1").

Definition proto_to_core_property_type (t : Z) : Conv PropertyType :=
  match t with
  | 1 => inl PString | 2 => inl PInt | 3 => inl PFloat | 4 => inl PBool | 5 => inl PTimestamp | 6 => inl PBytes
  | _ => inr (St.invalid_argument "invalid property type")
  end.

Definition proto_to_core_index (i : Z) : Conv IndexType :=
  match i with
  | 0 => inl IdxNone | 1 => inl IdxUnique | 2 => inl IdxEquality | 3 => inl IdxRange
  | _ => inr (St.invalid_argument "invalid index type")
  end.

Definition proto_to_core_property_def (p : Pb.PropertyDef) (mode : Z) : Conv PropertyDef :=
  t ← proto_to_core_property_type (Pb.type p);
  let def := PropDefs.new t in
  let def := if Pb.required p then PropDefs.require def else def in
  i ← match Pb.index p with Some raw => proto_to_core_index raw | None => infer_index_type t mode end;
  let def := PropDefs.with_index def i in
  mret (match Pb.default_value p with
        | Some d => match proto_to_core_value d with Some v => PropDefs.with_default def v | None => def end
        | None => def
        end).

Definition core_to_proto_property_def (p : PropertyDef) : Pb.PropertyDef :=
  Pb.mkPropertyDef
    (match property_type p with
     | PString => Pb.PROPERTY_TYPE_STRING | PInt => Pb.PROPERTY_TYPE_INT | PFloat => Pb.PROPERTY_TYPE_FLOAT
     | PBool => Pb.PROPERTY_TYPE_BOOL | PTimestamp => Pb.PROPERTY_TYPE_TIMESTAMP | PBytes => Pb.PROPERTY_TYPE_BYTES
     end)
    (required p)
    (Some (match index p with
     | IdxNone => Pb.INDEX_TYPE_NONE | IdxUnique => Pb.INDEX_TYPE_UNIQUE | IdxEquality => Pb.INDEX_TYPE_EQUALITY
     | IdxRange => Pb.INDEX_TYPE_RANGE
     end))
    (core_to_proto_value <$> default_value p).

(** *** Edges *)

Definition proto_to_core_edge_target (t : Pb.EdgeTarget) : Conv EdgeTarget :=
  match Pb.target_kind t with
  | Some (Pb.SpecificType n) => inl (Specific n)
  | Some (Pb.PolymorphicKind _) => inl Polymorphic
  | None => inr (St.invalid_argument "edge target kind is required")
  end.

Definition core_to_proto_edge_target (t : EdgeTarget) : Pb.EdgeTarget :=
  Pb.mkEdgeTarget (Some (match t with Specific n => Pb.SpecificType n | Polymorphic => Pb.PolymorphicKind true end)).

Section Edges.
Context `{HashIter}.

Definition proto_to_core_edge_def (p : Pb.EdgeDef) (mode : Z) : Conv EdgeDef :=
  tp ← match Pb.target p with Some t => inl t | None => inr (St.invalid_argument "edge target is required") end;
  t ← proto_to_core_edge_target tp;
  let edge := EdgeDefs.new t in
  let d := if Pb.direction p =? Pb.EDGE_DIRECTION_DEF_BIDIRECTIONAL then Bidirectional else Outgoing in
  let o := if Pb.ownership p =? Pb.OWNERSHIP_MODE_INDEPENDENT then Independent else SourceSite in
  let k := if String.eqb (Pb.sort_key p) "" then sort_key edge else Some (Pb.sort_key p) in
  let edge := mkEdgeDef (target edge) d (edge_properties edge) k o in
  fold_conv (fun e kv => d ← proto_to_core_property_def kv.2 mode; mret (EdgeDefs.with_property e kv.1 d))
    (hm_iter (Pb.edge_properties p)) edge.

Definition core_to_proto_edge_def (e : EdgeDef) : Pb.EdgeDef :=
  Pb.mkEdgeDef (Some (core_to_proto_edge_target (target e)))
    (match direction e with Outgoing => Pb.EDGE_DIRECTION_DEF_OUTGOING | Bidirectional => Pb.EDGE_DIRECTION_DEF_BIDIRECTIONAL end)
    (core_to_proto_property_def <$> edge_properties e)
    (default "" (sort_key e))
    (match ownership e with SourceSite => Pb.OWNERSHIP_MODE_SOURCE_SITE | Independent => Pb.OWNERSHIP_MODE_INDEPENDENT end).

(** *** Schemas *)

Definition proto_to_core_schema_meta (m : Pb.SchemaMeta) : SchemaMeta :=
  mkSchemaMeta (Pb.allow_undeclared_edges m)
    (if Pb.extras_policy m =? Pb.EXTRAS_POLICY_ALLOW then Allow
     else if Pb.extras_policy m =? Pb.EXTRAS_POLICY_WARN then Warn else Reject).

Definition core_to_proto_schema_meta (m : SchemaMeta) : Pb.SchemaMeta :=
  Pb.mkSchemaMeta (allow_undeclared_edges m)
    (match extras_policy m with
     | Reject => Pb.EXTRAS_POLICY_REJECT | Allow => Pb.EXTRAS_POLICY_ALLOW | Warn => Pb.EXTRAS_POLICY_WARN
     end).

Definition proto_to_core_schema (p : Pb.EntitySchema) (mode : Z) : Conv EntitySchema :=
  let schema := Schemas.new (Pb.name p) in
  schema ← fold_conv (fun s kv => d ← proto_to_core_property_def kv.2 mode; mret (Schemas.with_property s kv.1 d))
             (hm_iter (Pb.properties p)) schema;
  schema ← fold_conv (fun s kv => e ← proto_to_core_edge_def kv.2 mode; mret (Schemas.with_edge s kv.1 e))
             (hm_iter (Pb.edges p)) schema;
  let schema := match Pb.meta p with Some m => Schemas.with_meta schema (proto_to_core_schema_meta m) | None => schema end in
  mret (mkEntitySchema (name schema) (version schema) (properties schema) (edges schema) (meta schema) (Pb.created_at p) (Pb.created_by p)).

Definition core_to_proto_schema (s : EntitySchema) : Pb.EntitySchema :=
  Pb.mkEntitySchema (name s) (version s) (core_to_proto_property_def <$> properties s) (core_to_proto_edge_def <$> edges s)
    (Some (core_to_proto_schema_meta (meta s))) (created_at s) (created_by s).
End Edges.

(** ** Round trips *)

Lemma value_roundtrip v : proto_to_core_value (core_to_proto_value v) = Some v.
Proof. by destruct v. Qed.

Lemma properties_roundtrip m : proto_to_core_properties (core_to_proto_properties m) = m.
Proof.
  apply map_eq. intros k. unfold proto_to_core_properties, core_to_proto_properties. rewrite lookup_omap, lookup_fmap.
  destruct (m !! k) as [v|]; cbn; [apply value_roundtrip|done].
Qed.

Lemma property_def_roundtrip p mode : proto_to_core_property_def (core_to_proto_property_def p) mode = inl p.
Proof. by destruct p as [[] [] [] [[]|]]. Qed.

(** Inserting the converted entries of a map, in whatever order. *)
Lemma fold_insert `{HashIter} {A B C} (conv : A -> Conv B) (back : B -> A) (ins : C -> string -> B -> C) (get : C -> gmap string B) (m : gmap string B) :
  (forall k b, m !! k = Some b -> conv (back b) = inl b) ->
  (forall c k b, get (ins c k b) = <[k := b]> (get c)) ->
  forall c, exists c', fold_conv (fun c kv => b ← conv kv.2; mret (ins c kv.1 b)) (hm_iter (back <$> m)) c = inl c' /\
    (forall P : C -> Prop, (forall c k b, P c -> P (ins c k b)) -> P c -> P c') /\ get c' = m ∪ get c.
Proof.
  intros Hconv Hins c.
  assert (Hl : forall l : list (string * A), NoDup l.*1 -> (forall k a, (k, a) ∈ l -> (back <$> m) !! k = Some a) ->
    forall c, exists c', fold_conv (fun c kv => b ← conv kv.2; mret (ins c kv.1 b)) l c = inl c' /\
      (forall P : C -> Prop, (forall c k b, P c -> P (ins c k b)) -> P c -> P c') /\
      forall k, get c' !! k = if decide (k ∈ l.*1) then m !! k else get c !! k).
  { induction l as [|[k a] l IH]; intros Hn Hin c0; cbn [fold_conv].
    { exists c0. split; [done|]. split; [auto|]. intros k. by rewrite decide_False by set_solver. }
    inversion_clear Hn as [|? ? Hk Hn']. pose proof (Hin k a ltac:(left)) as Ha. rewrite lookup_fmap in Ha.
    destruct (m !! k) as [b|] eqn:Eb; [|done]. injection Ha as <-. cbn [snd fst]. rewrite (Hconv k b Eb). cbn [mbind Conv_bind mret Conv_ret].
    destruct (IH Hn' ltac:(intros; apply Hin; by right) (ins c0 k b)) as (c' & E & HP & Hget). exists c'. split; [exact E|]. split.
    { intros P Hstep H0. apply HP; [done|]. by apply Hstep. }
    intros i. rewrite Hget, Hins. cbn [fmap list_fmap fst]. destruct (decide (i = k)) as [->|Hne].
    - rewrite decide_False by done. rewrite decide_True by left. by rewrite lookup_insert_eq.
    - rewrite lookup_insert_ne by done. destruct (decide (i ∈ l.*1)) as [Hd|Hd].
      + by rewrite decide_True by (by right).
      + rewrite decide_False; [done|]. intros [?|?]%elem_of_cons; done. }
  destruct (Hl (hm_iter (back <$> m)) (NoDup_hm_iter _) ltac:(intros k a; apply elem_of_hm_iter) c) as (c' & E & HP & Hget).
  exists c'. split; [done|]. split; [done|]. apply map_eq. intros k. rewrite Hget, lookup_union.
  case_decide as Hd.
  - apply list_elem_of_fmap in Hd as ([k' a] & -> & Hin%elem_of_hm_iter). cbn. rewrite lookup_fmap in Hin.
    destruct (m !! k'); [|done]. by destruct (get c !! k').
  - destruct (m !! k) as [b|] eqn:Eb; [|by destruct (get c !! k)]. exfalso. apply Hd. apply list_elem_of_fmap. exists (k, back b).
    split; [done|]. apply elem_of_hm_iter. by rewrite lookup_fmap, Eb.
Qed.

(** A sort key that is the empty text cannot be told from none on the wire. *)
Definition edge_sendable (e : EdgeDef) : Prop := sort_key e <> Some "".

Lemma edge_def_roundtrip `{HashIter} e mode : edge_sendable e -> proto_to_core_edge_def (core_to_proto_edge_def e) mode = inl e.
Proof.
  intros Hs. unfold proto_to_core_edge_def. cbn [core_to_proto_edge_def Pb.target Pb.edge_properties].
  assert (forall t, proto_to_core_edge_target (core_to_proto_edge_target t) = inl t) as Ht by (by intros []).
  cbn [mbind Conv_bind]. rewrite Ht. cbn [mbind Conv_bind].
  destruct (fold_insert (fun d => proto_to_core_property_def d mode) core_to_proto_property_def EdgeDefs.with_property edge_properties (edge_properties e))
    with (c := mkEdgeDef (target e) (if Pb.direction (core_to_proto_edge_def e) =? Pb.EDGE_DIRECTION_DEF_BIDIRECTIONAL then Bidirectional else Outgoing) ∅
      (if String.eqb (default "" (sort_key e)) "" then None else Some (default "" (sort_key e)))
      (if Pb.ownership (core_to_proto_edge_def e) =? Pb.OWNERSHIP_MODE_INDEPENDENT then Independent else SourceSite))
    as (c' & E & HP & Hget); [intros; apply property_def_roundtrip|done|].
  etrans; [exact E|]. f_equal.
  specialize (HP (fun c => target c = target e /\ direction c = direction e /\ sort_key c = sort_key e /\ ownership c = ownership e)).
  destruct HP as (H1 & H2 & H3 & H4); [done| |].
  - cbn. split; [done|]. split; [by destruct (direction e)|]. split; [|by destruct (ownership e)].
    destruct (sort_key e) as [k|] eqn:Ek; cbn; [|done]. destruct (String.eqb_spec k "") as [->|]; [by destruct Hs|done].
  - cbn [edge_properties] in Hget. rewrite map_union_empty in Hget. destruct c', e. cbn in *. congruence.
Qed.

Lemma schema_roundtrip `{HashIter} s mode : map_Forall (fun _ e => edge_sendable e) (edges s) ->
  proto_to_core_schema (core_to_proto_schema s) mode = inl (Schemas.set_version s 1).
Proof.
  intros Hs. unfold proto_to_core_schema. cbn [core_to_proto_schema Pb.name Pb.properties Pb.edges Pb.meta Pb.created_at Pb.created_by].
  destruct (fold_insert (fun d => proto_to_core_property_def d mode) core_to_proto_property_def Schemas.with_property properties (properties s))
    with (c := Schemas.new (name s)) as (c1 & E1 & HP1 & Hget1); [intros; apply property_def_roundtrip|done|].
  rewrite E1. cbn [mbind Conv_bind].
  destruct (fold_insert (fun e => proto_to_core_edge_def e mode) core_to_proto_edge_def Schemas.with_edge edges (edges s))
    with (c := c1) as (c2 & E2 & HP2 & Hget2); [intros k b Hb; apply edge_def_roundtrip; exact (Hs k b Hb)|done|].
  rewrite E2. cbn [mbind Conv_bind mret Conv_ret].
  destruct (HP1 (fun c => name c = name s /\ version c = 1 /\ edges c = ∅)) as (Hn1 & Hv1 & He1); [done|done|].
  destruct (HP2 (fun c => name c = name s /\ version c = 1 /\ properties c = properties s)) as (Hn2 & Hv2 & Hp2); [done| |].
  { split; [done|]. split; [done|]. rewrite Hget1. apply map_union_empty. }
  f_equal. unfold Schemas.set_version. cbn. rewrite Hn2, Hv2, Hp2, Hget2, He1, map_union_empty. f_equal.
  destruct (meta s) as [a []]; reflexivity.
Qed.

(** C39: schemas and properties on the wire.  Properties come back as they were
    sent, and a schema too, in whatever order its maps are iterated and whatever the
    index default: only the version is not taken over, since the registry assigns
    it.  The wire cannot carry an empty sort key. *)
Theorem wire_roundtrip `{HashIter} (s : EntitySchema) (props : Props) (mode : Z) :
  map_Forall (fun _ e => edge_sendable e) (edges s) ->
  proto_to_core_schema (core_to_proto_schema s) mode = inl (Schemas.set_version s 1) /\
  proto_to_core_properties (core_to_proto_properties props) = props.
Proof. intros Hs. split; [by apply schema_roundtrip|apply properties_roundtrip]. Qed.

Definition sent_schema : EntitySchema :=
  Schemas.with_property (Schemas.with_edge (Schemas.new "Person") "KNOWS"
    (EdgeDefs.with_sort_key (EdgeDefs.bidirectional (EdgeDefs.new (Specific "Person"))) "since"))
    "age" (PropDefs.with_index (PropDefs.new PInt) IdxRange).

Lemma wire_roundtrip_witness :
  proto_to_core_schema (core_to_proto_schema (Schemas.set_version sent_schema 7)) 0 = inl sent_schema.
Proof.
  destruct (wire_roundtrip (Schemas.set_version sent_schema 7) ∅ 0) as [E _].
  - intros k e He. unfold edge_sendable. cbn in He. apply lookup_insert_Some in He as [[_ <-]|[_ He]]; [discriminate|]. by rewrite lookup_empty in He.
  - rewrite E. reflexivity.
Defined.
