(* ===== verification/GraphService.v ===== *)
(** * Schema, node and edge services

    The handlers of [pelago-api/src/schema_service.rs], [node_service.rs] and
    [edge_service.rs]: the request is checked and authorized, converted, served by
    the local cache or by the stores, and the result converted back.  A handler
    returns its response or a status; the counters of the metrics are left out. *)

From S2P Require Import Prelude Bytes Text Errors Types Encoding Subspace SchemaTypes Fdb MemFdb Cdc Consumer Ids Index.
From S2P Require Import TermIndex Namespace Jobs SchemaRegistry Node Edge EdgeCascade NodeDelete Rows Replication Security Service Auth StateM RocksCache Wire.

(** ** The server's state

    The world of the database and the rows of the local cache. *)

Record ApiState (S R : Type) := mkApiState { api_world : World S; api_cache : R }.
Arguments mkApiState {S R}. Arguments api_world {S R}. Arguments api_cache {S R}.
#[export] Instance api_has_world {S R} : HasWorld (ApiState S R) S.
Proof. refine {| world_of := api_world; with_world x w := mkApiState w (api_cache x) |}. done. Defined.

(** A lookup in the cache. *)
Definition call_cache {S R A} (mk : PelagoError -> Status) (m : T R S A) : G (ApiState S R) A := fun env x =>
  match m env (api_cache x, api_world x) with
  | (Ok a, (r, w)) => (inl a, mkApiState w r)
  | (Err e, (r, w)) => (inr (mk e), mkApiState w r)
  end.

Definition convert {W A} (c : Conv A) : G W A := match c with inl a => mret a | inr s => refuse s end.

(** ** Messages *)

Record NodeMsg := mkNodeMsg {
  nm_id : string; nm_entity_type : string; nm_properties : gmap string Pb.Value; nm_locality : string; nm_created_at : Z; nm_updated_at : Z
}.
Definition node_msg (n : StoredNode) (properties : Props) : NodeMsg :=
  mkNodeMsg (sn_id n) (sn_entity_type n) (core_to_proto_properties properties) (ustr (sn_locality n)) (sn_created_at n) (sn_updated_at n).

Record EdgeMsg := mkEdgeMsg {
  em_edge_id : string; em_source : NodeRef; em_target : NodeRef; em_label : string; em_properties : gmap string Pb.Value; em_created_at : Z
}.
(** The references of the protocol have the fields of [NodeRef]. *)
Definition core_to_proto_node_ref (r : NodeRef) : NodeRef := r.
Definition edge_msg (e : StoredEdge) : EdgeMsg :=
  mkEdgeMsg (se_edge_id e) (core_to_proto_node_ref (se_source e)) (core_to_proto_node_ref (se_target e)) (se_label e)
    (core_to_proto_properties (se_properties e)) (se_created_at e).

Definition proto_to_core_node_ref (r : NodeRef) (ctx_db ctx_ns : string) : NodeRef :=
  mkNodeRef (if String.eqb (ref_database r) "" then ctx_db else ref_database r)
    (if String.eqb (ref_namespace r) "" then ctx_ns else ref_namespace r) (ref_entity_type r) (ref_node_id r).

(** [ReadConsistency] of the protocol: unknown and unspecified are strong. *)
Definition read_consistency (c : Z) : ReadConsistency := if c =? 2 then Session else if c =? 3 then Eventual else Strong.

Inductive MutationMode := InlineStrict | AsyncAllowed.
Definition mutation_mode (m : Z) : MutationMode := if m =? 1 then InlineStrict else AsyncAllowed.

Definition C4_TX_MAX_MUTATED_KEYS : Z := 5000.
Definition C4_TX_MAX_WRITE_BYTES : Z := 2 * 1024 * 1024.
Definition C4_INLINE_CASCADE_MAX_EDGES : Z := 1000.

(** ** Listings in pages *)

Definition edge_sort_value_bytes (schema : option EntitySchema) (e : StoredEdge) : option bytes :=
  s ← schema; d ← edges s !! se_label e; k ← sort_key d; v ← se_properties e !! k;
  match encode_value_for_index v with Ok b => Some b | Err _ => None end.

Definition then_with (a b : comparison) : comparison := match a with Eq => b | c => c end.
Definition cmp_str (a b : string) : comparison := lex (sbytes a) (sbytes b).

Definition compare_outgoing_edges (schema : option EntitySchema) (l r : StoredEdge) : comparison :=
  then_with (cmp_str (se_label l) (se_label r))
 (then_with (match edge_sort_value_bytes schema l, edge_sort_value_bytes schema r with
             | Some a, Some b => lex a b
             | Some _, None => Lt
             | None, Some _ => Gt
             | None, None => Eq
             end)
 (then_with (cmp_str (ref_database (se_target l)) (ref_database (se_target r)))
 (then_with (cmp_str (ref_namespace (se_target l)) (ref_namespace (se_target r)))
 (then_with (cmp_str (ref_entity_type (se_target l)) (ref_entity_type (se_target r)))
 (then_with (cmp_str (ref_node_id (se_target l)) (ref_node_id (se_target r)))
            (cmp_str (se_edge_id l) (se_edge_id r))))))).

Definition sort_outgoing_edges (schema : option EntitySchema) (l : list StoredEdge) : list StoredEdge :=
  sort_by (compare_outgoing_edges schema) l.

Definition OFFSET_CURSOR_LEN : nat := 8.
Definition decode_offset_cursor (cursor : bytes) : Conv Z :=
  match cursor with
  | [] => inl 0
  | _ => if Nat.eqb (length cursor) OFFSET_CURSOR_LEN then inl (be_val cursor)
         else inr (St.invalid_argument ("invalid cursor: expected 8 bytes, got " ++ ustr (Z.of_nat (length cursor))))
  end.
Definition encode_offset_cursor (offset : Z) : bytes := be_bytes 8 offset.

Inductive ListDirection := DirOutgoing | DirIncoming | DirBoth.
(** Unknown and unspecified directions list outgoing edges. *)
Definition list_direction (d : Z) : ListDirection := if d =? 2 then DirIncoming else if d =? 3 then DirBoth else DirOutgoing.
Definition needs_outgoing (d : ListDirection) : bool := match d with DirIncoming => false | _ => true end.
Definition needs_incoming (d : ListDirection) : bool := match d with DirOutgoing => false | _ => true end.

(** The text that identifies an edge in a merged listing. *)
Definition edge_identity (e : StoredEdge) : string :=
  (se_edge_id e ++ "|" ++ ref_entity_type (se_source e) ++ "|" ++ ref_node_id (se_source e) ++ "|" ++ se_label e ++ "|"
    ++ ref_entity_type (se_target e) ++ "|" ++ ref_node_id (se_target e) ++ "|" ++ bstr (show_i (se_created_at e)))%string.

Fixpoint merge_edges (seen : gset string) (l : list StoredEdge) : list StoredEdge :=
  match l with
  | [] => []
  | e :: rest => if decide (edge_identity e ∈ seen) then merge_edges seen rest
                 else e :: merge_edges ({[edge_identity e]} ∪ seen) rest
  end.

(** [edges.retain] *)
Definition in_direction (d : ListDirection) (entity_type node_id : string) (e : StoredEdge) : bool :=
  match d with
  | DirOutgoing => String.eqb (ref_entity_type (se_source e)) entity_type && String.eqb (ref_node_id (se_source e)) node_id
  | DirIncoming => String.eqb (ref_entity_type (se_target e)) entity_type && String.eqb (ref_node_id (se_target e)) node_id
  | DirBoth => true
  end.

(** The page from an offset: its edges, and the cursor of the next one or nothing. *)
Definition edge_page {A} (offset page_size : Z) (l : list A) : list A * bytes :=
  let total := Z.of_nat (length l) in
  let start := Z.min offset total in
  let stop := Z.min (usize_saturating_add start page_size) total in
  (take (Z.to_nat page_size) (drop (Z.to_nat start) l),
   if stop <? total then encode_offset_cursor stop else []).

(** The cursor goes with the last item of the page. *)
Definition with_cursor_on_last {A} (page : list A) (cursor : bytes) : list (A * bytes) :=
  imap (fun i a => (a, if Nat.eqb i (length page - 1) then cursor else [])) page.

Section Services.
Context {R S : Type} `{Rocks R} `{Fdb S} `{HashIter} `{DebugValue} `{CharClass} `{UuidSource}.
Context `{Cbor NodeData} `{Cbor EdgeNodeData} `{Cbor EdgeData} `{Cbor EntitySchema} `{Cbor CdcEntry} `{Cbor NamespaceSettings} `{Cbor JobState}.
Context `{Cbor AuthPolicy} `{Cbor AuditRecord} `{Cbor SiteClaim} `{Cbor StoredNode} `{Cbor StoredEdge}.
Abbreviation Api := (G (ApiState S R)).

(** *** Schemas *)

Definition register_schema_rpc (site_id : string) (principal : option AuthPrincipal) (context : option RequestContext) (schema : option Pb.EntitySchema)
    (index_default_mode : Z) : Api Z :=
  ctx ← require_field context "context";
  proto ← from_option schema (St.invalid_argument "missing schema");
  (if index_default_mode =? Pb.INDEX_DEFAULT_MODE_AUTO_BY_TYPE_V1 then mret tt
   else refuse (St.invalid_argument "index_default_mode must be INDEX_DEFAULT_MODE_AUTO_BY_TYPE_V1")) ;;
  authorize principal "schema.register" (ctx_database ctx) (ctx_namespace ctx) (Pb.name proto) ;;
  core ← convert (proto_to_core_schema proto index_default_mode);
  call into_status (register_schema site_id (ctx_database ctx) (ctx_namespace ctx) core).

Definition get_schema_rpc (principal : option AuthPrincipal) (context : option RequestContext) (entity_type : string) (version : Z) : Api Pb.EntitySchema :=
  ctx ← require_field context "context";
  authorize principal "schema.read" (ctx_database ctx) (ctx_namespace ctx) entity_type ;;
  if 0 <? version then
    s ← call into_status (get_schema_version (ctx_database ctx) (ctx_namespace ctx) entity_type version);
    from_option (core_to_proto_schema <$> s)
      (St.not_found ("schema '" ++ entity_type ++ "' version " ++ ustr version ++ " not found")%string)
  else
    s ← call into_status (get_schema (ctx_database ctx) (ctx_namespace ctx) entity_type);
    from_option (core_to_proto_schema <$> s) (St.not_found ("schema '" ++ entity_type ++ "' not found")%string).

Fixpoint fetch_schemas (database namespace : string) (names : list string) (acc : list Pb.EntitySchema) : Api (list Pb.EntitySchema) :=
  match names with
  | [] => mret acc
  | n :: rest =>
      s ← call into_status (get_schema database namespace n);
      fetch_schemas database namespace rest (match s with Some s => acc ++ [core_to_proto_schema s] | None => acc end)
  end.

Definition list_schemas_rpc (principal : option AuthPrincipal) (context : option RequestContext) : Api (list Pb.EntitySchema) :=
  ctx ← require_field context "context";
  authorize principal "schema.read" (ctx_database ctx) (ctx_namespace ctx) "*" ;;
  names ← call into_status (list_schemas (ctx_database ctx) (ctx_namespace ctx));
  fetch_schemas (ctx_database ctx) (ctx_namespace ctx) names [].

(** *** Nodes *)

Context (node_store : NodeStore).

Definition create_node_rpc (principal : option AuthPrincipal) (context : option RequestContext) (entity_type : string)
    (properties : gmap string Pb.Value) : Api NodeMsg :=
  ctx ← require_field context "context";
  authorize principal "node.write" (ctx_database ctx) (ctx_namespace ctx) entity_type ;;
  n ← call into_status (create_node node_store (ctx_database ctx) (ctx_namespace ctx) entity_type (proto_to_core_properties properties));
  mret (node_msg n (sn_properties n)).

Definition update_node_rpc (principal : option AuthPrincipal) (context : option RequestContext) (entity_type node_id : string)
    (properties : gmap string Pb.Value) : Api NodeMsg :=
  ctx ← require_field context "context";
  authorize principal "node.write" (ctx_database ctx) (ctx_namespace ctx) entity_type ;;
  n ← call into_status (update_node node_store (ctx_database ctx) (ctx_namespace ctx) entity_type node_id (proto_to_core_properties properties));
  mret (node_msg n (sn_properties n)).

(** The local cache, when the server has one: its column families and budgets. *)
Context (cached_read_path : option (bool * CacheFreshnessBudgets)) (kv_read_version : S -> Z).

(** The version a session reads at, taken once per request. *)
Definition session_read_version (c : ReadConsistency) : Api (option Z) :=
  match c, cached_read_path with
  | Session, Some _ => v ← call into_status (get_read_version kv_read_version); mret (Some v)
  | _, _ => mret None
  end.

(** A lookup in the cache, when there is one. *)
Definition try_cache {A} (m : bool -> CacheFreshnessBudgets -> T R S (CacheLookup A)) : Api (option A) :=
  match cached_read_path with
  | Some (ucf, b) => l ← call_cache into_status (m ucf b); mret (lookup_value A l)
  | None => mret None
  end.

Definition get_node_rpc (principal : option AuthPrincipal) (context : option RequestContext) (entity_type node_id : string)
    (consistency : Z) (fields : list string) : Api NodeMsg :=
  ctx ← require_field context "context";
  authorize principal "node.read" (ctx_database ctx) (ctx_namespace ctx) entity_type ;;
  let c := read_consistency consistency in
  v ← session_read_version c;
  cached ← try_cache (fun ucf b => read_node ucf kv_read_version b (ctx_database ctx) (ctx_namespace ctx) entity_type node_id c v);
  stored ← match cached with
           | Some n => mret (Some n)
           | None => call into_status (get_node (ctx_database ctx) (ctx_namespace ctx) entity_type node_id)
           end;
  match stored with
  | Some n =>
      mret (node_msg n (match fields with
                        | [] => sn_properties n
                        | _ => filter (fun kv => kv.1 ∈ fields) (sn_properties n)
                        end))
  | None => refuse (St.not_found ("node '" ++ entity_type ++ ":" ++ node_id ++ "' not found")%string)
  end.

(** The response of a deletion: whether it was done, and the job that will do it;
    [None] is out of fuel. *)
Definition delete_node_rpc (fuel : nat) (principal : option AuthPrincipal) (context : option RequestContext) (entity_type node_id : string)
    (mode : Z) : Api (option (bool * string)) :=
  ctx ← require_field context "context";
  authorize principal "node.write" (ctx_database ctx) (ctx_namespace ctx) entity_type ;;
  e ← call into_status (estimate_delete_scope (ctx_database ctx) (ctx_namespace ctx) entity_type node_id C4_INLINE_CASCADE_MAX_EDGES);
  if exceeded_cascade_probe_limit e || (C4_INLINE_CASCADE_MAX_EDGES <? estimated_cascade_edges e)
     || (C4_TX_MAX_MUTATED_KEYS <? estimated_mutated_keys e) || (C4_TX_MAX_WRITE_BYTES <? estimated_write_bytes e) then
    match mutation_mode mode with
    | AsyncAllowed =>
        j ← call (fun e => St.internal ("failed to create delete-node cleanup job: " ++ display e)%string)
              (create_job (ctx_database ctx) (ctx_namespace ctx) (DeleteNodeCascade entity_type node_id));
        mret (Some (false, job_id j))
    | InlineStrict =>
        refuse (into_status (MutationScopeTooLarge "delete_node(INLINE_STRICT)" (estimated_mutated_keys e) (estimated_write_bytes e)
          (estimated_cascade_edges e) "ASYNC_ALLOWED"))
    end
  else
    d ← call into_status (delete_node fuel node_store (ctx_database ctx) (ctx_namespace ctx) entity_type node_id);
    mret (match d with Some b => Some (b, "") | None => None end).

Definition transfer_ownership_rpc (principal : option AuthPrincipal) (context : option RequestContext) (entity_type node_id target_site_id : string)
    : Api (bool * string * string) :=
  ctx ← require_field context "context";
  authorize principal "node.transfer" (ctx_database ctx) (ctx_namespace ctx) entity_type ;;
  resolved ← call into_status (resolve_site_identifier target_site_id);
  site ← from_option (parse_u8 resolved) (St.invalid_argument "resolved site ID must be a u8 string");
  r ← call into_status (transfer_ownership node_store (ctx_database ctx) (ctx_namespace ctx) entity_type node_id site);
  mret (r.1.1, ustr r.1.2, ustr r.2).

(** *** Edges *)

Context (edge_store : EdgeStore).

Definition acl_type (r : NodeRef) : string := if String.eqb (ref_entity_type r) "" then "*" else ref_entity_type r.

Definition create_edge_rpc (principal : option AuthPrincipal) (context : option RequestContext) (source target : option NodeRef)
    (label : string) (properties : gmap string Pb.Value) : Api EdgeMsg :=
  ctx ← require_field context "context";
  src ← require_field source "source";
  tgt ← require_field target "target";
  authorize principal "edge.write" (ctx_database ctx) (ctx_namespace ctx) (acl_type src) ;;
  e ← call into_status (create_edge edge_store (ctx_database ctx) (ctx_namespace ctx)
        (proto_to_core_node_ref src (ctx_database ctx) (ctx_namespace ctx)) (proto_to_core_node_ref tgt (ctx_database ctx) (ctx_namespace ctx))
        label (proto_to_core_properties properties));
  mret (edge_msg e).

Definition delete_edge_rpc (principal : option AuthPrincipal) (context : option RequestContext) (source target : option NodeRef)
    (label : string) : Api bool :=
  ctx ← require_field context "context";
  src ← require_field source "source";
  tgt ← require_field target "target";
  authorize principal "edge.write" (ctx_database ctx) (ctx_namespace ctx) (acl_type src) ;;
  call into_status (delete_edge edge_store (ctx_database ctx) (ctx_namespace ctx)
    (proto_to_core_node_ref src (ctx_database ctx) (ctx_namespace ctx)) (proto_to_core_node_ref tgt (ctx_database ctx) (ctx_namespace ctx)) label).

(** The outgoing edges: from the cache, sorted as the keys of the database would
    be, or from the database. *)
Definition outgoing_edges (ctx : RequestContext) (entity_type node_id : string) (label : option string) (c : ReadConsistency) (v : option Z)
    (fetch_limit : Z) : Api (list StoredEdge) :=
  cached ← try_cache (fun ucf b => read_edges ucf kv_read_version b (ctx_database ctx) (ctx_namespace ctx) entity_type node_id label c v);
  match default [] cached with
  | [] => call into_status (list_edges (ctx_database ctx) (ctx_namespace ctx) entity_type node_id label (Z.to_nat fetch_limit))
  | l =>
      if Nat.ltb 1 (length l) then
        s ← call into_status (get_schema (ctx_database ctx) (ctx_namespace ctx) entity_type);
        mret (sort_outgoing_edges s l)
      else mret l
  end.

Definition incoming_edges (ctx : RequestContext) (entity_type node_id : string) (label : option string) (c : ReadConsistency) (v : option Z)
    (fetch_limit : Z) : Api (list StoredEdge) :=
  cached ← try_cache (fun ucf b => read_incoming_edges ucf kv_read_version b (ctx_database ctx) (ctx_namespace ctx) entity_type node_id label c v);
  match default [] cached with
  | [] => call into_status (list_incoming_edges (ctx_database ctx) (ctx_namespace ctx) entity_type node_id label (Z.to_nat fetch_limit))
  | l => mret l
  end.

Definition list_edges_rpc (principal : option AuthPrincipal) (context : option RequestContext) (entity_type node_id label : string)
    (direction limit : Z) (cursor : bytes) (consistency : Z) : Api (list (EdgeMsg * bytes)) :=
  ctx ← require_field context "context";
  authorize principal "edge.read" (ctx_database ctx) (ctx_namespace ctx) entity_type ;;
  let label_filter := if String.eqb label "" then None else Some label in
  let page_size := if 0 <? limit then limit else 1000 in
  offset ← convert (decode_offset_cursor cursor);
  let fetch_limit := usize_saturating_add (usize_saturating_add offset page_size) 1 in
  let c := read_consistency consistency in
  v ← session_read_version c;
  let d := list_direction direction in
  out ← (if needs_outgoing d then outgoing_edges ctx entity_type node_id label_filter c v fetch_limit else mret []);
  inc ← (if needs_incoming d then incoming_edges ctx entity_type node_id label_filter c v fetch_limit else mret []);
  let edges := match d with DirBoth => merge_edges ∅ (out ++ inc) | DirOutgoing => out | DirIncoming => inc end in
  let edges := List.filter (in_direction d entity_type node_id) edges in
  let p := edge_page offset page_size edges in
  mret (with_cursor_on_last (map edge_msg p.1) p.2).
End Services.
