(* ===== verification/GraphSpec.v ===== *)
(** * Listings in pages

    The pages of [list_edges_rpc], followed from cursor to cursor, are the listing:
    nothing is skipped and nothing is repeated. *)

From S2P Require Import Prelude Bytes Text Errors Types Encoding Subspace SchemaTypes Fdb MemFdb Cdc Consumer Ids Index.
From S2P Require Import TermIndex Namespace Jobs SchemaRegistry Node NodeAtomic NodeSpec Edge EdgeSpec EdgeList EdgeCascade NodeDelete Rows Replication Security Service Auth StateM RocksCache Wire GraphService.

(** ** Pages of a listing *)

Section Pages.
Context {A : Type}.
Implicit Types (l full : list A).

(** What a handler computes before it cuts the page agrees with the listing as far
    as the page goes, and holds one more item when there is one. *)
Definition probes (F : nat -> list A) full : Prop := forall n,
  take n (F n) = take n full /\ (length (F n) = length full \/ n <= length (F n))%nat.

Lemma cursor_roundtrip n : 0 < n < 2 ^ 64 -> decode_offset_cursor (encode_offset_cursor n) = inl n /\ encode_offset_cursor n <> [].
Proof.
  intros Hn. unfold decode_offset_cursor, encode_offset_cursor, OFFSET_CURSOR_LEN.
  pose proof (length_be_bytes 8 n) as Hlen. pose proof (be_val_be_bytes 8 n) as Hv.
  destruct (be_bytes 8 n) as [|b r]; [done|]. rewrite Hlen. cbn [Nat.eqb]. split; [|done]. f_equal. rewrite Hv. apply Z.mod_small. lia.
Qed.

(** The page of the listing at an offset, and the cursor behind it. *)
Definition page_at full (o p : nat) : list A * bytes :=
  (take p (drop o full), if (Z.of_nat o + Z.of_nat p <? Z.of_nat (length full)) then encode_offset_cursor (Z.of_nat o + Z.of_nat p) else []).

Lemma edge_page_full full (o p : nat) :
  (o <= length full)%nat -> Z.of_nat (length full) < USIZE_MAX -> edge_page (Z.of_nat o) (Z.of_nat p) full = page_at full o p.
Proof.
  intros Ho Hl. unfold edge_page, page_at, usize_saturating_add. rewrite (Z.min_l (Z.of_nat o)), !Nat2Z.id by lia.
  f_equal. destruct (Z.ltb_spec (Z.min (Z.min (Z.of_nat o + Z.of_nat p) USIZE_MAX) (Z.of_nat (length full))) (Z.of_nat (length full)));
    destruct (Z.ltb_spec (Z.of_nat o + Z.of_nat p) (Z.of_nat (length full))); try lia; [|done]. f_equal. lia.
Qed.

Lemma edge_page_longer full l (o p : nat) :
  take (o + p + 1) l = take (o + p + 1) full -> (o + p + 1 <= length l)%nat -> Z.of_nat o + Z.of_nat p < USIZE_MAX ->
  edge_page (Z.of_nat o) (Z.of_nat p) l = page_at full o p.
Proof.
  intros E Hl Hm. assert (Hf : (o + p + 1 <= length full)%nat).
  { apply (f_equal length) in E. rewrite !length_take in E. lia. }
  unfold edge_page, page_at, usize_saturating_add. rewrite (Z.min_l (Z.of_nat o)), !Nat2Z.id by lia. f_equal.
  - rewrite !firstn_skipn_comm. apply (f_equal (take (o + p))) in E. rewrite !take_take, !Nat.min_l in E by lia. by rewrite E.
  - rewrite Z.min_l, Z.min_l by lia. rewrite !(proj2 (Z.ltb_lt _ _)) by lia. done.
Qed.

Lemma edge_page_probe F full (o p : nat) :
  probes F full -> (o <= length full)%nat -> Z.of_nat (length full) < USIZE_MAX ->
  edge_page (Z.of_nat o) (Z.of_nat p)
    (F (Z.to_nat (usize_saturating_add (usize_saturating_add (Z.of_nat o) (Z.of_nat p)) 1))) = page_at full o p.
Proof.
  intros HF Ho Hl. set (n := Z.to_nat _). destruct (HF n) as [E Hn]. destruct (decide (length full < n)%nat) as [Hlt|Hge].
  - assert (F n = full) as ->; [|by apply edge_page_full].
    rewrite (take_ge full n) in E by lia. destruct Hn as [Hn|Hn]; [by rewrite take_ge in E by lia|].
    apply (f_equal length) in E. rewrite length_take in E. lia.
  - assert (n = (o + p + 1)%nat) as En by (unfold n, usize_saturating_add in *; lia).
    apply edge_page_longer; [by rewrite <- En|lia|]. unfold n, usize_saturating_add in *. lia.
Qed.

Lemma with_cursor_fst (l : list A) c : map fst (with_cursor_on_last l c) = l.
Proof.
  unfold with_cursor_on_last. change (@map (A * bytes) A fst) with (fmap (M:=list) (@fst A bytes)). rewrite fmap_imap.
  rewrite <- (list_fmap_id l) at 2. apply (imap_const id).
Qed.

Lemma with_cursor_last (l : list A) c : snd <$> last (with_cursor_on_last l c) = (fun _ => c) <$> last l.
Proof.
  unfold with_cursor_on_last. rewrite !last_lookup, length_imap, list_lookup_imap.
  replace (Init.Nat.pred (length l)) with (length l - 1)%nat by lia. destruct (l !! (length l - 1)%nat); [|done].
  cbn. by rewrite Nat.eqb_refl.
Qed.
End Pages.

(** ** Merged listings *)

Section Merge.
Implicit Types (l a b : list StoredEdge) (seen : gset string).

Definition idents l : gset string := list_to_set (edge_identity <$> l).

Lemma merge_app seen a b : merge_edges seen (a ++ b) = merge_edges seen a ++ merge_edges (idents a ∪ seen) b.
Proof.
  revert seen. induction a as [|e a IH]; intros seen; [cbn; by rewrite union_empty_l_L|].
  cbn [app merge_edges]. case_decide as Hd; cbn [app].
  - rewrite IH. do 2 f_equal. unfold idents. cbn. set_solver.
  - rewrite IH. do 3 f_equal. unfold idents. cbn. set_solver.
Qed.

Lemma idents_cons e l : idents (e :: l) = {[edge_identity e]} ∪ idents l.
Proof. reflexivity. Qed.
Lemma elem_idents l x : x ∈ idents l <-> x ∈ edge_identity <$> l.
Proof. apply elem_of_list_to_set. Qed.

Lemma merge_nodup seen l : NoDup (edge_identity <$> l) -> idents l ## seen -> merge_edges seen l = l.
Proof.
  revert seen. induction l as [|e l IH]; intros seen; [done|]. rewrite fmap_cons, NoDup_cons, idents_cons, <- elem_idents.
  intros [He Hnd] Hd. cbn [merge_edges]. rewrite decide_False by set_solver. f_equal. apply IH; set_solver.
Qed.

(** What is left out was seen before. *)
Lemma merge_length seen l :
  NoDup (edge_identity <$> l) -> (length l <= length (merge_edges seen l) + size (seen ∩ idents l))%nat.
Proof.
  revert seen. induction l as [|e l IH]; intros seen; [cbn; lia|]. rewrite fmap_cons, NoDup_cons, idents_cons, <- elem_idents.
  intros [He Hnd]. cbn [merge_edges length]. case_decide as Hd; cbn [length].
  - replace (seen ∩ ({[edge_identity e]} ∪ idents l)) with ({[edge_identity e]} ∪ seen ∩ idents l) by set_solver.
    rewrite size_union, size_singleton by set_solver. pose proof (IH seen Hnd). lia.
  - pose proof (IH ({[edge_identity e]} ∪ seen) Hnd) as Hi.
    replace (seen ∩ ({[edge_identity e]} ∪ idents l)) with (seen ∩ idents l) by set_solver.
    replace (({[edge_identity e]} ∪ seen) ∩ idents l) with (seen ∩ idents l) in Hi by set_solver. lia.
Qed.

Lemma merge_elem seen l e :
  (forall x y, x ∈ l -> y ∈ l -> edge_identity x = edge_identity y -> x = y) ->
  e ∈ merge_edges seen l <-> e ∈ l /\ edge_identity e ∉ seen.
Proof.
  revert seen. induction l as [|x l IH]; intros seen Hinj; [set_solver|].
  assert (Hl : forall y z, y ∈ l -> z ∈ l -> edge_identity y = edge_identity z -> y = z) by (intros; apply Hinj; set_solver).
  cbn [merge_edges]. case_decide as Hd.
  - rewrite (IH seen Hl). set_solver.
  - rewrite !elem_of_cons, (IH _ Hl). split; [set_solver|]. intros [[->|Hin] Hn]; [by left|].
    destruct (decide (edge_identity e = edge_identity x)) as [E|E]; [|right; set_solver].
    left. apply Hinj; set_solver.
Qed.

Lemma nodup_take {A} (l : list A) n : NoDup l -> NoDup (take n l).
Proof. rewrite <- (take_drop n l) at 1. by intros (? & _)%NoDup_app. Qed.

(** The first [n] items of two listings, merged, are the first [n] of the whole. *)
Lemma merge_probes (out inc : list StoredEdge) :
  NoDup (edge_identity <$> out) -> NoDup (edge_identity <$> inc) ->
  probes (fun n => merge_edges ∅ (take n out ++ take n inc)) (merge_edges ∅ (out ++ inc)).
Proof.
  intros Ho Hi n. rewrite !merge_app, !union_empty_r_L, (merge_nodup ∅ out) by set_solver.
  rewrite (merge_nodup ∅ (take n out)) by (rewrite ?fmap_take; first [by apply nodup_take | set_solver]).
  destruct (decide (n <= length out)%nat) as [Hn|Hn].
  { rewrite !take_app_le by (rewrite ?length_take; lia). rewrite take_idemp. split; [done|]. right. rewrite length_app, length_take. lia. }
  rewrite (take_ge out) by lia. rewrite <- (take_drop n inc) at 2. rewrite merge_app, app_assoc.
  pose proof (merge_length (idents out) (take n inc)) as Hm.
  assert (size (idents out ∩ idents (take n inc)) <= length out)%nat as Hs.
  { etrans; [apply subseteq_size, intersection_subseteq_l|]. unfold idents. by rewrite size_list_to_set, length_fmap. }
  destruct (decide (n <= length inc)%nat) as [Hn'|Hn'].
  - assert (n <= length (out ++ merge_edges (idents out) (take n inc)))%nat as Hlen.
    { rewrite length_app. rewrite length_take in Hm. rewrite fmap_take in Hm. specialize (Hm (nodup_take _ n Hi)). lia. }
    rewrite (take_app_le (out ++ merge_edges (idents out) (take n inc)) _ n) by done. split; [done|]. by right.
  - rewrite (drop_ge inc) by lia. cbn [merge_edges]. rewrite app_nil_r, (take_ge inc) by lia. split; [done|]. by left.
Qed.
End Merge.

(** ** The pages of the handler *)

Section PagesOf.
Context {R S : Type} `{Rocks R} `{FdbLaws S} `{CborLaws EdgeData canon_edge storable_edge} `{HashIter} `{DebugValue} `{CharClass} `{UuidSource}.
Context `{Cbor EntitySchema} `{Cbor AuthPolicy} `{Cbor AuditRecord} `{Cbor StoredNode} `{Cbor StoredEdge}.
Context (cached : option (bool * CacheFreshnessBudgets)) (kv_read_version : S -> Z).
Context (env : Env) (Henv : no_faults env) (conf : string -> option EntitySchema) (ctx : RequestContext) (et id label : string).
Implicit Types (t : S) (d : ListDirection) (x : ApiState S R).
Local Abbreviation db := (ctx_database ctx).
Local Abbreviation ns := (ctx_namespace ctx).
Local Abbreviation o := (if String.eqb label "" then None else Some label).
Local Abbreviation Api := (G (ApiState S R)).

Definition outgoing_of t : list StoredEdge :=
  let p := forward_prefix db ns et id o in map (fun kv => view_row kv.2) (kv_range t p (p ++ [Byte.xff])).
Definition incoming_of t : list StoredEdge :=
  let p := reverse_prefix db ns et id o in map (fun kv => view_row kv.2) (kv_range t p (p ++ [Byte.xff])).
Definition listing_of d t : list StoredEdge :=
  match d with
  | DirOutgoing => outgoing_of t
  | DirIncoming => incoming_of t
  | DirBoth => merge_edges ∅ (outgoing_of t ++ incoming_of t)
  end.

(** The node has no rows that a listing in one direction would drop, and the edges
    of a listing in both directions are told apart by their identities. *)
Record pageable d t : Prop := {
  pg_out : d = DirOutgoing -> forall e, e ∈ outgoing_of t -> in_direction DirOutgoing et id e = true;
  pg_in : needs_incoming d = true -> forall e, e ∈ incoming_of t -> at_node et id e = true;
  pg_nodup : d = DirBoth -> NoDup (edge_identity <$> outgoing_of t) /\ NoDup (edge_identity <$> incoming_of t);
  pg_inj : d = DirBoth -> forall e e', e ∈ outgoing_of t ++ incoming_of t -> e' ∈ outgoing_of t ++ incoming_of t ->
    edge_identity e = edge_identity e' -> e = e';
  pg_len : Z.of_nat (length (listing_of d t)) < USIZE_MAX
}.

Lemma filter_all {A} (f : A -> bool) (l : list A) : (forall a, a ∈ l -> f a = true) -> List.filter f l = l.
Proof.
  induction l as [|a l IH]; [done|]. intros Hl. cbn [List.filter]. rewrite (Hl a) by set_solver. f_equal. apply IH. set_solver.
Qed.

Lemma out_rows_take t n : map (fun kv => view_row kv.2) (out_rows db ns t et id o n) = take n (outgoing_of t).
Proof. unfold out_rows, outgoing_of. cbn zeta. by rewrite firstn_map. Qed.
Lemma in_rows_take t n : map (fun kv => view_row kv.2) (in_rows db ns t et id o n) = take n (incoming_of t).
Proof. unfold in_rows, incoming_of. cbn zeta. by rewrite firstn_map. Qed.

(** Strong reads are served by the database. *)
Lemma run_try_cache_strong {A} (fetch : bool -> T R S (option A)) v x :
  try_cache cached (fun ucf b => cached_lookup ucf kv_read_version b Strong v (fetch ucf)) env x = (inl None, x).
Proof. unfold try_cache. destruct cached as [[ucf b]|]; [|done]. by destruct x. Qed.

Lemma run_outgoing x (n : Z) : edges_wf db ns conf (w_kv (api_world x)) ->
  exists x', outgoing_edges cached kv_read_version ctx et id o Strong None n env x = (inl (take (Z.to_nat n) (outgoing_of (w_kv (api_world x)))), x')
    /\ idle (api_world x) (api_world x').
Proof.
  intros Hwf. unfold outgoing_edges, read_edges. rewrite (gbind_run _ _ _ _ _ _ (run_try_cache_strong _ _ _)). cbn [default].
  destruct (run_list_edges env Henv db ns conf (api_world x) et id o (Z.to_nat n) Hwf) as (w' & E & Hw).
  eexists. split; [erewrite run_call by exact E; by rewrite out_rows_take|]. exact Hw.
Qed.

Lemma run_incoming x (n : Z) : edges_wf db ns conf (w_kv (api_world x)) ->
  (forall e, e ∈ incoming_of (w_kv (api_world x)) -> at_node et id e = true) ->
  exists x', incoming_edges cached kv_read_version ctx et id o Strong None n env x = (inl (take (Z.to_nat n) (incoming_of (w_kv (api_world x)))), x')
    /\ idle (api_world x) (api_world x').
Proof.
  intros Hwf Hat. unfold incoming_edges, read_incoming_edges. rewrite (gbind_run _ _ _ _ _ _ (run_try_cache_strong _ _ _)). cbn [default].
  destruct (run_list_incoming env Henv db ns conf (api_world x) et id o (Z.to_nat n) Hwf) as (w' & E & Hw).
  rewrite in_rows_take, filter_all in E by (intros e ?%elem_of_take_1; by apply Hat).
  eexists. split; [by erewrite run_call by exact E|]. exact Hw.
Qed.

(** What the handler gathers before it cuts a page. *)
Definition gathered d t (n : nat) : list StoredEdge :=
  match d with
  | DirOutgoing => take n (outgoing_of t)
  | DirIncoming => take n (incoming_of t)
  | DirBoth => merge_edges ∅ (take n (outgoing_of t) ++ take n (incoming_of t))
  end.

Lemma gathered_probes d t : pageable d t -> probes (gathered d t) (listing_of d t).
Proof.
  intros Hp. destruct d; [| |by apply merge_probes; apply (pg_nodup _ _ Hp)];
    intros n; cbn [gathered listing_of]; rewrite take_idemp, length_take; (split; [done|]); lia.
Qed.

Lemma gathered_kept d t n : pageable d t -> List.filter (in_direction d et id) (gathered d t n) = gathered d t n.
Proof.
  intros Hp. apply filter_all. destruct d; [| |done]; cbn [gathered]; intros e He%elem_of_take_1.
  - by apply (pg_out _ _ Hp).
  - by apply (pg_in _ _ Hp).
Qed.

Definition page_size (limit : Z) : nat := Z.to_nat (if 0 <? limit then limit else 1000).

(** One page, read strongly and without authentication. *)
Lemma run_page (direction limit consistency : Z) (cursor : bytes) (off : nat) x :
  let d := list_direction direction in let t := w_kv (api_world x) in
  edges_wf db ns conf t -> pageable d t -> read_consistency consistency = Strong ->
  decode_offset_cursor cursor = inl (Z.of_nat off) -> (off <= length (listing_of d t))%nat ->
  exists x', list_edges_rpc cached kv_read_version None (Some ctx) et id label direction limit cursor consistency env x
    = (inl (with_cursor_on_last (map edge_msg (page_at (listing_of d t) off (page_size limit)).1) (page_at (listing_of d t) off (page_size limit)).2), x')
    /\ idle (api_world x) (api_world x').
Proof.
  intros d t Hwf Hp Hs Hc Ho. unfold list_edges_rpc. cbn [require_field from_option]. rewrite run_gret. cbn [authorize]. rewrite run_gret.
  rewrite Hc. cbn [convert]. rewrite run_gret, Hs. cbn [session_read_version]. rewrite run_gret. fold d.
  assert (Hz : (if 0 <? limit then limit else 1000) = Z.of_nat (page_size limit)).
  { unfold page_size. destruct (Z.ltb_spec 0 limit); lia. }
  rewrite Hz. set (n := usize_saturating_add _ _).
  pose proof (edge_page_probe _ _ off (page_size limit) (gathered_probes d t Hp) Ho (pg_len _ _ Hp)) as Hpage. fold n in Hpage.
  pose proof (gathered_kept d t (Z.to_nat n) Hp) as Hk. revert Hpage Hk. unfold gathered.
  destruct d eqn:Ed; cbn [needs_outgoing needs_incoming].
  - destruct (run_outgoing x n Hwf) as (x1 & E1 & Hi1). fold t in E1. rewrite (gbind_run _ _ _ _ _ _ E1), run_gret.
    intros Hpage ->. rewrite Hpage. by exists x1.
  - rewrite run_gret. destruct (run_incoming x n Hwf (pg_in _ _ Hp eq_refl)) as (x1 & E1 & Hi1). fold t in E1.
    rewrite (gbind_run _ _ _ _ _ _ E1). intros Hpage ->. rewrite Hpage. by exists x1.
  - destruct (run_outgoing x n Hwf) as (x1 & E1 & Hi1). fold t in E1. rewrite (gbind_run _ _ _ _ _ _ E1).
    assert (Ekv : w_kv (api_world x1) = t) by apply Hi1.
    destruct (run_incoming x1 n) as (x2 & E2 & Hi2); [by rewrite Ekv|rewrite Ekv; exact (pg_in _ _ Hp eq_refl)|].
    rewrite Ekv in E2. rewrite (gbind_run _ _ _ _ _ _ E2). intros Hpage ->. rewrite Hpage. exists x2. split; [done|]. by etrans.
Qed.

(** A client that follows the cursors; [None] is out of fuel. *)
Fixpoint follow (fuel : nat) (direction limit consistency : Z) (cursor : bytes) : Api (option (list EdgeMsg)) :=
  match fuel with
  | O => mret None
  | Datatypes.S fuel' =>
      page ← list_edges_rpc cached kv_read_version None (Some ctx) et id label direction limit cursor consistency;
      match snd <$> last page with
      | Some (b :: c) => rest ← follow fuel' direction limit consistency (b :: c); mret (app (map fst page) <$> rest)
      | _ => mret (Some (map fst page))
      end
  end.

Lemma page_size_pos limit : (0 < page_size limit)%nat.
Proof. unfold page_size. destruct (Z.ltb_spec 0 limit); lia. Qed.

Lemma run_follow (direction limit consistency : Z) fuel : forall (cursor : bytes) (off : nat) x,
  let d := list_direction direction in let t := w_kv (api_world x) in
  edges_wf db ns conf t -> pageable d t -> read_consistency consistency = Strong ->
  decode_offset_cursor cursor = inl (Z.of_nat off) -> (off <= length (listing_of d t))%nat -> (length (listing_of d t) - off < fuel)%nat ->
  exists x', follow fuel direction limit consistency cursor env x = (inl (Some (map edge_msg (drop off (listing_of d t)))), x')
    /\ idle (api_world x) (api_world x').
Proof.
  induction fuel as [|fuel IH]; intros cursor off x d t Hwf Hp Hs Hc Ho Hf; [lia|]. cbn [follow].
  destruct (run_page direction limit consistency cursor off x Hwf Hp Hs Hc Ho) as (x1 & E1 & Hi1). fold d t in E1.
  rewrite (gbind_run _ _ _ _ _ _ E1), with_cursor_fst, with_cursor_last. clear E1.
  pose proof (page_size_pos limit) as Hz. pose proof (pg_len _ _ Hp) as Hlen. set (full := listing_of d t) in *. unfold page_at. cbn [fst snd].
  destruct (Z.ltb_spec (Z.of_nat off + Z.of_nat (page_size limit)) (Z.of_nat (length full))) as [Hlt|Hge].
  - rewrite last_lookup, length_map, length_take, length_drop, Nat.min_l by lia.
    destruct (lookup_lt_is_Some_2 (map edge_msg (take (page_size limit) (drop off full))) (Init.Nat.pred (page_size limit))) as [m Hm].
    { rewrite length_map, length_take, length_drop. lia. }
    rewrite Hm. cbn [fmap option_fmap option_map].
    destruct (cursor_roundtrip (Z.of_nat off + Z.of_nat (page_size limit))) as [Hr Hne]; [unfold USIZE_MAX in *; lia|].
    assert (Ekv : w_kv (api_world x1) = t) by apply Hi1.
    destruct (IH (encode_offset_cursor (Z.of_nat off + Z.of_nat (page_size limit))) (off + page_size limit)%nat x1) as (x2 & E2 & Hi2);
      rewrite ?Ekv; fold d full; try done; [by rewrite Hr, Nat2Z.inj_add|lia|lia|].
    destruct (encode_offset_cursor _) as [|b c]; [done|]. rewrite Ekv in E2. fold d full in E2. rewrite (gbind_run _ _ _ _ _ _ E2).
    exists x2. split; [|by etrans]. cbn [fmap option_fmap option_map]. rewrite <- map_app, <- drop_drop, take_drop. done.
  - rewrite take_ge by (rewrite length_drop; lia). exists x1. split; [|done]. by destruct (last _).
Qed.

Lemma listing_elem d t e : edges_wf db ns conf t -> pageable d t ->
  e ∈ listing_of d t <-> exists m, stored db ns conf t m /\ e = view m /\
    (needs_outgoing d = true /\ leaves db ns conf et id o m \/ needs_incoming d = true /\ enters db ns conf et id o m).
Proof.
  intros Hwf Hp.
  assert (Hout : e ∈ outgoing_of t <-> exists m, stored db ns conf t m /\ leaves db ns conf et id o m /\ e = view m).
  { rewrite <- (take_ge (outgoing_of t) (length (outgoing_of t))), <- out_rows_take by done. split; [by apply elem_out_rows|].
    intros (m & Hs & Hl & ->). apply (out_rows_elem db ns conf); [|done..]. unfold outgoing_of. by rewrite length_map. }
  assert (Hin : needs_incoming d = true -> e ∈ incoming_of t <-> exists m, stored db ns conf t m /\ enters db ns conf et id o m /\ e = view m).
  { intros Hd. rewrite <- (filter_all (at_node et id) (incoming_of t)) by (by apply (pg_in _ _ Hp)).
    rewrite <- (take_ge (incoming_of t) (length (incoming_of t))), <- in_rows_take by done. split; [by apply elem_in_rows|].
    intros (m & Hs & Hl & ->). apply (in_rows_elem db ns conf); [|done..]. unfold incoming_of. by rewrite length_map. }
  destruct d; cbn [listing_of needs_outgoing needs_incoming] in *.
  - rewrite Hout. naive_solver.
  - rewrite Hin by done. naive_solver.
  - rewrite merge_elem by (by apply (pg_inj _ _ Hp)). rewrite elem_of_app, Hout, Hin by done. set_solver.
Qed.
End PagesOf.

