(* ===== verification/GraphExamples.v ===== *)
(** * The services on concrete graphs

    The pages of a small graph, and a listing whose pages end early.  Nothing of
    the program is modelled here. *)

From S2P Require Import Prelude Bytes Text Errors Types Encoding Subspace SchemaTypes Fdb MemFdb Cdc Consumer Ids Index.
From S2P Require Import TermIndex Namespace Jobs SchemaRegistry Node NodeAtomic NodeSpec Edge EdgeSpec EdgeList EdgeCascade NodeDelete Rows Replication Security Service Auth StateM RocksCache Projector RocksSpec ProjectorSpec RocksExamples Wire GraphService GraphSpec.

#[local] Instance example_uuids : UuidSource | 100 := tick_uuid.

Definition graph_server : ApiState MemKv MemRocks := mkApiState graph_world ∅.
Definition db_ns : RequestContext := mkRequestContext "db" "ns".

(** Node [1_3] likes one node and is liked by another; its edges in pages of one. *)
Lemma graph_pageable : pageable db_ns "Person" "1_3" "" DirBoth graph_kv.
Proof.
  split; [done| | | |vm_compute; reflexivity].
  - intros _ e He. assert (forallb (at_node "Person" "1_3") (incoming_of db_ns "Person" "1_3" "" graph_kv) = true) as Hall by (vm_compute; reflexivity).
    rewrite forallb_forall in Hall. apply Hall. by apply list_elem_of_In.
  - intros _. split; (apply (bool_decide_eq_true_1 _); vm_compute; reflexivity).
  - intros _.
    assert (NoDup (edge_identity <$> outgoing_of db_ns "Person" "1_3" "" graph_kv ++ incoming_of db_ns "Person" "1_3" "" graph_kv)) as Hnd
      by (apply (bool_decide_eq_true_1 _); vm_compute; reflexivity).
    revert Hnd. generalize (outgoing_of db_ns "Person" "1_3" "" graph_kv ++ incoming_of db_ns "Person" "1_3" "" graph_kv).
    intros l Hnd e e' [i Hi]%list_elem_of_lookup [j Hj]%list_elem_of_lookup E.
    rewrite NoDup_alt in Hnd. assert (i = j) as <-; [|congruence].
    apply (Hnd i j (edge_identity e)); rewrite list_lookup_fmap, ?Hi, ?Hj; cbn; congruence.
Qed.


(** ** Pages that end early *)

(** Two acquaintances of [1_2] made at the other end, and one edge of its own. *)
Definition also_knows : EdgeData := mkEdgeData "1_2" ∅ 13 (Some (person "1_3")) (Some (person "1_2")) (Some "KNOWS").
Definition crowded_server : ApiState MemKv MemRocks :=
  mkApiState (mkWorld (add_edge graph_kv also_knows) {[("db", "ns", "Person") := graph_schema]} ∅ ∅ 0) ∅.

(** The outgoing edges of a node in pages of a given size. *)
Definition outgoing_in_pages (limit : Z) (et id : string) (x : ApiState MemKv MemRocks) : option (list string) :=
  match (follow None (fun _ => 0) db_ns et id "" 9 1 limit 0 [] quiet_env x).1 with
  | inl (Some l) => Some (map em_edge_id l)
  | _ => None
  end.

(** The rows of bidirectional edges stored at their target count against the rows a
    page reads and are dropped afterwards: in pages of one the only edge of the
    node is never returned, in pages of ten it is. *)
Theorem pages_end_early :
  outgoing_in_pages 10 "Person" "1_2" crowded_server = Some ["1_1"] /\ outgoing_in_pages 1 "Person" "1_2" crowded_server = Some [].
Proof. split; vm_compute; reflexivity. Qed.

(** A bidirectional edge is listed as outgoing at its source only. *)
Theorem acquaintance_listed_one_way :
  outgoing_in_pages 10 "Person" "1_1" graph_server = Some ["1_0"] /\
  (length (outgoing_of db_ns "Person" "1_2" "" graph_kv) = 2)%nat /\ outgoing_in_pages 10 "Person" "1_2" graph_server = Some ["1_1"].
Proof. repeat split; vm_compute; reflexivity. Qed.
