(* ===== verification/ReplService.v ===== *)
(** * The replication service

    [pelago-api/src/replication_service.rs]: the log of a namespace after a
    versionstamp, optionally the entries of one site only, and the messages it is
    sent in.  The theorem says which entries a pull returns. *)

From S2P Require Import Prelude Bytes Text Errors Types Encoding Subspace SchemaTypes Fdb MemFdb Cdc Consumer Ids Index.
From S2P Require Import TermIndex Namespace Jobs SchemaRegistry Node Edge Rows Replication Security Service Auth StateM RocksCache Wire GraphService.

(** ** Messages *)

Module Rp.
Inductive Operation :=
  | NodeCreateOp (entity_type node_id : string) (properties : gmap string Pb.Value) (home_site : string)
  | NodeUpdateOp (entity_type node_id : string) (changed_properties old_properties : gmap string Pb.Value)
  | NodeDeleteOp (entity_type node_id : string)
  | EdgeCreateOp (source_type source_id target_type target_id edge_type edge_id : string) (properties : gmap string Pb.Value)
  | EdgeDeleteOp (source_type source_id target_type target_id edge_type : string)
  | SchemaRegisterOp (entity_type : string) (version : Z) (schema : option Pb.EntitySchema)
  | OwnershipTransferOp (entity_type node_id previous_site_id current_site_id : string).
(** A [CdcOperationProto] is the optional operation it holds. *)
Record CdcEntryProto := mkCdcEntryProto { site : string; ev_timestamp : Z; batch : string; ops : list (option Operation) }.
Record CdcEventResponse := mkCdcEventResponse { versionstamp : bytes; entry : option CdcEntryProto }.
End Rp.

Definition cdc_op_to_proto (op : CdcOperation) : option Rp.Operation :=
  Some match op with
  | NodeCreate et id props home => Rp.NodeCreateOp et id (core_to_proto_properties props) home
  | NodeUpdate et id changed old => Rp.NodeUpdateOp et id (core_to_proto_properties changed) (core_to_proto_properties old)
  | NodeDelete et id => Rp.NodeDeleteOp et id
  | EdgeCreate st si tty ti ty id props => Rp.EdgeCreateOp st si tty ti ty id (core_to_proto_properties props)
  | EdgeDelete st si tty ti ty => Rp.EdgeDeleteOp st si tty ti ty
  | SchemaRegister et v schema => Rp.SchemaRegisterOp et v (Some (core_to_proto_schema schema))
  | OwnershipTransfer et id previous current => Rp.OwnershipTransferOp et id previous current
  end.

Definition event_msg (e : Versionstamp.t * CdcEntry) : Rp.CdcEventResponse :=
  Rp.mkCdcEventResponse e.1 (Some (Rp.mkCdcEntryProto (entry_site e.2) (timestamp e.2) (default "" (batch_id e.2))
    (map cdc_op_to_proto (operations e.2)))).

(** ** Collecting the entries of a site *)

(** The loop over one page: what is collected, and whether that is enough. *)
Fixpoint collect_page (source_site : string) (limit : nat) (page filtered : list (Versionstamp.t * CdcEntry))
    : list (Versionstamp.t * CdcEntry) * bool :=
  match page with
  | [] => (filtered, false)
  | e :: page' =>
      if String.eqb (entry_site e.2) source_site then
        let filtered' := filtered ++ [e] in
        if Nat.eqb (length filtered') limit then (filtered', true) else collect_page source_site limit page' filtered'
      else collect_page source_site limit page' filtered
  end.

Section Collect.
Context {S : Type} (fetch_page : option Versionstamp.t -> nat -> M S (list (Versionstamp.t * CdcEntry))).

(** [None] is out of fuel. *)
Fixpoint collect_loop (fuel : nat) (source_site : string) (limit page_size : nat) (cursor : option Versionstamp.t)
    (filtered : list (Versionstamp.t * CdcEntry)) : M S (option (list (Versionstamp.t * CdcEntry))) :=
  match fuel with
  | O => mret None
  | Datatypes.S fuel' =>
      page ← fetch_page cursor page_size;
      match page with
      | [] => mret (Some filtered)
      | _ =>
          let '(filtered, enough) := collect_page source_site limit page filtered in
          if enough : bool then mret (Some filtered)
          else if Nat.ltb (length page) page_size then mret (Some filtered)
          else collect_loop fuel' source_site limit page_size (fst <$> last page) filtered
      end
  end.

Definition collect_cdc_entries (fuel : nat) (after_versionstamp : option Versionstamp.t) (limit : nat) (source_site_filter : option string)
    : M S (option (list (Versionstamp.t * CdcEntry))) :=
  match source_site_filter with
  | None => l ← fetch_page after_versionstamp limit; mret (Some l)
  | Some source_site => collect_loop fuel source_site limit (Nat.max 1 (Nat.min limit 1000)) after_versionstamp []
  end.
End Collect.

Section Pull.
Context {W S : Type} `{HasWorld W S} `{Fdb S} `{Cbor CdcEntry} `{Cbor AuthPolicy} `{Cbor AuditRecord} `{UuidSource}.

(** The position in the request; the empty one is the beginning. *)
Definition requested_position (b : bytes) : G W (option Versionstamp.t) :=
  match b with
  | [] => mret None
  | _ => vs ← from_option (Versionstamp.from_bytes b) (St.invalid_argument "invalid versionstamp (must be 10 bytes)"); mret (Some vs)
  end.

Definition pull_cdc_events (fuel : nat) (principal : option AuthPrincipal) (context : option RequestContext) (after_versionstamp : bytes)
    (limit : Z) (source_site : string) : G W (option (list Rp.CdcEventResponse)) :=
  ctx ← require_field context "context";
  authorize principal "replication.pull" (ctx_database ctx) (ctx_namespace ctx) "*" ;;
  after ← requested_position after_versionstamp;
  let limit := if 0 <? limit then limit else 1000 in
  entries ← call into_status (collect_cdc_entries (read_cdc_entries (ctx_database ctx) (ctx_namespace ctx)) fuel after (Z.to_nat limit)
              (if String.eqb source_site "" then None else Some source_site));
  mret (map event_msg <$> entries).
End Pull.

(** ** What a pull returns *)

Lemma collect_page_exact site limit page filtered :
  (length filtered < limit)%nat ->
  let all := filtered ++ filter (fun e => entry_site e.2 = site) page in
  collect_page site limit page filtered = (take limit all, Nat.leb limit (length all)).
Proof.
  revert filtered. induction page as [|e page IH]; intros filtered Hl all; cbn [collect_page].
  { subst all. rewrite filter_nil, app_nil_r, take_ge by lia. f_equal. symmetry. apply Nat.leb_gt. lia. }
  subst all. destruct (String.eqb_spec (entry_site e.2) site) as [Hs|Hs].
  - rewrite filter_cons_True by done. rewrite length_app. cbn [length].
    destruct (Nat.eqb_spec (length filtered + 1) limit) as [E|E].
    + set (r := filter _ page). replace (filtered ++ e :: r) with ((filtered ++ [e]) ++ r) by (by rewrite <- app_assoc).
      rewrite (take_app_le (filtered ++ [e])) by (rewrite length_app; cbn; lia).
      rewrite take_ge by (rewrite length_app; cbn; lia). f_equal. symmetry. apply Nat.leb_le. rewrite !length_app. cbn. lia.
    + rewrite IH by (rewrite length_app; cbn; lia). by rewrite <- app_assoc.
  - rewrite filter_cons_False by done. by apply IH.
Qed.

Section CollectFacts.
Context {S : Type} `{FdbLaws S} `{CborLaws CdcEntry canon_entry storable_entry} (env : Env) (Henv : no_faults env) (db ns : string).
Implicit Types (w : World S) (t : S) (after : option Versionstamp.t).

(** A position in the log that a reader can start from. *)
Definition good_after after : Prop := forall vs, after = Some vs -> length vs = 10%nat /\ vs <> STAMP_MAX.

Lemma log_after_from t after : cdc_wf db ns t -> log_after db ns t after = beyond db ns t (default Versionstamp.zero after).
Proof.
  intros Hwf. destruct after as [vs|]; [done|]. cbn [default]. rewrite <- log_after_beyond by done. reflexivity.
Qed.

Lemma log_after_next t after n e : cdc_wf db ns t -> last (take n (log_after db ns t after)) = Some e ->
  log_after db ns t (Some e.1) = drop n (log_after db ns t after) /\ good_after (Some e.1).
Proof.
  intros Hwf. rewrite !log_after_from by done. cbn [default]. intros Hl. split.
  - apply beyond_last; [by apply (log_sorted env Henv)|exact Hl].
  - intros vs [= <-]. apply last_Some_elem_of, elem_of_take_1 in Hl. unfold beyond in Hl. apply list_elem_of_filter in Hl as [_ Hin].
    destruct (log_stamps db ns t e Hwf Hin) as (Hlen & Hff & _). split; [done|]. intros E. rewrite E in Hff. by apply Hff.
Qed.

Definition of_site (site : string) (l : list (Versionstamp.t * CdcEntry)) := filter (fun e => entry_site e.2 = site) l.

Lemma run_collect_loop fuel site limit page_size after filtered w :
  cdc_wf db ns (w_kv w) -> good_after after -> (0 < page_size)%nat -> (length filtered < limit)%nat ->
  (length (log_after db ns (w_kv w) after) < fuel)%nat ->
  exists w', collect_loop (read_cdc_entries db ns) fuel site limit page_size after filtered env w
    = (Ok (Some (take limit (filtered ++ of_site site (log_after db ns (w_kv w) after)))), w') /\ idle w w'.
Proof.
  intros Hwf. revert after filtered w Hwf. induction fuel as [|fuel IH]; intros after filtered w Hwf Ha Hp Hl Hf; [lia|].
  cbn [collect_loop]. destruct (run_read_cdc_entries db ns env w after page_size Henv Hwf Ha) as [n E].
  rewrite (bind_run _ _ _ _ _ _ E). clear E. set (rest := log_after db ns (w_kv w) after) in *.
  set (w1 := mkWorld _ _ _ _ _). assert (Hi : idle w w1) by done.
  destruct (take page_size rest) as [|e0 page] eqn:Epage.
  { assert (rest = []) as -> by (destruct rest; [done|destruct page_size; [lia|done]]). exists w1. split; [|done].
    unfold of_site. rewrite filter_nil, app_nil_r, take_ge by lia. done. }
  rewrite <- Epage. rewrite collect_page_exact by done. cbn zeta. fold (of_site site (take page_size rest)).
  assert (Hsplit : of_site site rest = of_site site (take page_size rest) ++ of_site site (drop page_size rest)).
  { unfold of_site. by rewrite <- filter_app, take_drop. }
  destruct (Nat.leb_spec limit (length (filtered ++ of_site site (take page_size rest)))) as [Hen|Hen].
  { exists w1. split; [|done]. rewrite Hsplit, app_assoc, (take_app_le _ (of_site site (drop page_size rest))) by done. done. }
  rewrite (take_ge (filtered ++ of_site site (take page_size rest)) limit) by lia. destruct (Nat.ltb_spec (length (take page_size rest)) page_size) as [Hsh|Hsh].
  { exists w1. split; [|done]. rewrite length_take in Hsh. rewrite (take_ge rest) in * by lia. rewrite take_ge by lia. done. }
  destruct (last (take page_size rest)) as [e|] eqn:El; [|by rewrite Epage in El; apply last_None in El].
  destruct (log_after_next (w_kv w) after page_size e Hwf El) as [Hnext Hgood]. cbn [fmap option_fmap option_map].
  destruct (IH (Some e.1) (filtered ++ of_site site (take page_size rest)) w1) as (w' & E' & Hi'); try done.
  { change (w_kv w1) with (w_kv w). rewrite Hnext. fold rest. rewrite length_drop. rewrite length_take in Hsh. lia. }
  exists w'. change (w_kv w1) with (w_kv w) in E'. rewrite Hnext in E'. fold rest in E'. split; [|exact Hi'].
  rewrite E', Hsplit, app_assoc. done.
Qed.

(** The entries a pull is meant to return. *)
Definition pulled t after (limit : nat) (source_site : option string) : list (Versionstamp.t * CdcEntry) :=
  take limit (match source_site with Some s => of_site s (log_after db ns t after) | None => log_after db ns t after end).

Lemma run_collect_entries fuel after limit site w :
  cdc_wf db ns (w_kv w) -> good_after after -> (0 < limit)%nat -> (length (log_after db ns (w_kv w) after) < fuel)%nat ->
  exists w', collect_cdc_entries (read_cdc_entries db ns) fuel after limit site env w
    = (Ok (Some (pulled (w_kv w) after limit site)), w') /\ idle w w'.
Proof.
  intros Hwf Ha Hl Hf. unfold collect_cdc_entries, pulled. destruct site as [s|].
  - apply (run_collect_loop fuel s limit (Nat.max 1 (Nat.min limit 1000)) after [] w); try done. lia.
  - destruct (run_read_cdc_entries db ns env w after limit Henv Hwf Ha) as [n E]. rewrite (bind_run _ _ _ _ _ _ E). eexists. done.
Qed.
End CollectFacts.
