(* ===== verification/Config.v ===== *)
(** * Server configuration

    [ServerConfig] of [pelago-core/src/config.rs] and the functions of
    [pelago-server/src/main.rs] that prepare it: the configuration file that fills
    the environment, the environment handed on to the subsystems, the scopes of the
    cache projectors and the transport security of the server.  The environment is
    a map from names to values, the command line a list of arguments; files are
    read through parameters. *)

From S2P Require Import Prelude Bytes Text Errors Types Encoding Subspace Fdb Security Service Auth.

Record ServerConfig := mkServerConfig {
  cfg_config : option string; cfg_no_config : bool; cfg_fdb_cluster : string; cfg_site_id : Z; cfg_site_name : string;
  cfg_listen_addr : string; cfg_log_level : string; cfg_metrics_enabled : bool; cfg_metrics_addr : string;
  cfg_id_batch_size : Z; cfg_default_database : string; cfg_default_namespace : string; cfg_cache_enabled : bool;
  cfg_cache_path : string; cfg_cache_size_mb : Z; cfg_cache_write_buffer_mb : Z; cfg_cache_max_write_buffers : Z;
  cfg_cache_bloom_bits_per_key : Z; cfg_cache_prefix_extractor_bytes : Z; cfg_cache_use_column_families : bool;
  cfg_cache_projector_batch_size : Z; cfg_cache_projector_scopes : option string; cfg_cache_eventual_max_lag_ms : option Z;
  cfg_cache_session_max_lag_ms : option Z; cfg_auth_required : bool; cfg_api_keys : option string; cfg_mtls_enabled : bool;
  cfg_mtls_subject_header : string; cfg_mtls_subjects : option string; cfg_mtls_fingerprints : option string;
  cfg_mtls_default_role : string; cfg_tls_cert : option string; cfg_tls_key : option string; cfg_tls_ca : option string;
  cfg_tls_client_auth : string; cfg_audit_enabled : bool; cfg_audit_retention_days : Z; cfg_audit_retention_sweep_secs : Z;
  cfg_audit_retention_batch : Z; cfg_replication_enabled : option bool; cfg_replication_peers : string;
  cfg_replication_database : option string; cfg_replication_namespace : option string;
  cfg_replication_scopes : option string; cfg_replication_batch_size : Z; cfg_replication_poll_ms : Z;
  cfg_replication_api_key : option string; cfg_replication_tls_mode : string; cfg_replication_tls_ca : option string;
  cfg_replication_tls_cert : option string; cfg_replication_tls_key : option string;
  cfg_replication_tls_server_name : option string; cfg_replication_lease_enabled : bool; cfg_replication_lease_ttl_ms : Z;
  cfg_replication_lease_heartbeat_ms : Z; cfg_docs_enabled : bool; cfg_docs_addr : string; cfg_docs_dir : string;
  cfg_docs_title : string; cfg_ui_enabled : bool; cfg_ui_addr : string; cfg_ui_assets_dir : string; cfg_ui_title : string;
  cfg_watch_max_subscriptions : option Z; cfg_watch_max_namespace_subscriptions : option Z;
  cfg_watch_max_query_watches : option Z; cfg_watch_max_principal_subscriptions : option Z;
  cfg_watch_max_ttl_secs : option Z; cfg_watch_max_queue_size : option Z; cfg_watch_max_dropped_events : option Z;
  cfg_watch_state_retention_enabled : bool; cfg_watch_state_retention_days : Z; cfg_watch_state_retention_sweep_secs : Z;
  cfg_watch_state_retention_batch : Z
}.

Definition default_server_config : ServerConfig := {|
  cfg_config := None; cfg_no_config := false; cfg_fdb_cluster := "/etc/foundationdb/fdb.cluster"; cfg_site_id := 1;
  cfg_site_name := "default"; cfg_listen_addr := "[::1]:50051"; cfg_log_level := "info"; cfg_metrics_enabled := false;
  cfg_metrics_addr := "127.0.0.1:9464"; cfg_id_batch_size := 100; cfg_default_database := "default";
  cfg_default_namespace := "default"; cfg_cache_enabled := true; cfg_cache_path := "./data/cache"; cfg_cache_size_mb := 1024;
  cfg_cache_write_buffer_mb := 64; cfg_cache_max_write_buffers := 3; cfg_cache_bloom_bits_per_key := 10;
  cfg_cache_prefix_extractor_bytes := 8; cfg_cache_use_column_families := true; cfg_cache_projector_batch_size := 1000;
  cfg_cache_projector_scopes := None; cfg_cache_eventual_max_lag_ms := None; cfg_cache_session_max_lag_ms := None;
  cfg_auth_required := false; cfg_api_keys := None; cfg_mtls_enabled := false; cfg_mtls_subject_header := "x-mtls-subject";
  cfg_mtls_subjects := None; cfg_mtls_fingerprints := None; cfg_mtls_default_role := "service"; cfg_tls_cert := None;
  cfg_tls_key := None; cfg_tls_ca := None; cfg_tls_client_auth := "none"; cfg_audit_enabled := true;
  cfg_audit_retention_days := 90; cfg_audit_retention_sweep_secs := 300; cfg_audit_retention_batch := 1000;
  cfg_replication_enabled := None; cfg_replication_peers := ""; cfg_replication_database := None;
  cfg_replication_namespace := None; cfg_replication_scopes := None; cfg_replication_batch_size := 512;
  cfg_replication_poll_ms := 300; cfg_replication_api_key := None; cfg_replication_tls_mode := "disabled";
  cfg_replication_tls_ca := None; cfg_replication_tls_cert := None; cfg_replication_tls_key := None;
  cfg_replication_tls_server_name := None; cfg_replication_lease_enabled := true; cfg_replication_lease_ttl_ms := 10000;
  cfg_replication_lease_heartbeat_ms := 2000; cfg_docs_enabled := false; cfg_docs_addr := "127.0.0.1:4070";
  cfg_docs_dir := "docs"; cfg_docs_title := "PelagoDB Documentation"; cfg_ui_enabled := false;
  cfg_ui_addr := "127.0.0.1:4080"; cfg_ui_assets_dir := "ui/dist"; cfg_ui_title := "PelagoDB Console";
  cfg_watch_max_subscriptions := None; cfg_watch_max_namespace_subscriptions := None; cfg_watch_max_query_watches := None;
  cfg_watch_max_principal_subscriptions := None; cfg_watch_max_ttl_secs := None; cfg_watch_max_queue_size := None;
  cfg_watch_max_dropped_events := None; cfg_watch_state_retention_enabled := true; cfg_watch_state_retention_days := 7;
  cfg_watch_state_retention_sweep_secs := 300; cfg_watch_state_retention_batch := 1000
|}.

(** A value or a message. *)
Definition Checked (A : Type) : Type := (A + string)%type.
#[export] Instance Checked_bind : MBind Checked := fun A B f m => match m with inl a => f a | inr e => inr e end.
Definition require {A} (o : option A) (message : string) : Checked A := match o with Some a => inl a | None => inr message end.

(** ** The configuration file *)

Abbreviation ProcessEnv := (gmap string string).

(** A TOML value; dates, arrays and tables are one case. *)
Inductive Toml := TomlString (v : string) | TomlInteger (v : Z) | TomlFloat (bits : Z) | TomlBoolean (v : bool) | TomlOther.

(** [Display] of a 64-bit float, given by its bits. *)
Class F64Display := { show_f64 : Z -> string }.

Definition bool_str (b : bool) : string := if b then "true" else "false".

Definition toml_value_to_string `{F64Display} (v : Toml) : option string :=
  match v with
  | TomlString s => Some s
  | TomlInteger z => Some (bstr (show_i z))
  | TomlFloat f => Some (show_f64 f)
  | TomlBoolean b => Some (bool_str b)
  | TomlOther => None
  end.

Definition config_key_env_pairs : list (string * string) := [
  ("fdb_cluster", "PELAGO_FDB_CLUSTER"); ("site_id", "PELAGO_SITE_ID"); ("site_name", "PELAGO_SITE_NAME");
  ("listen_addr", "PELAGO_LISTEN_ADDR"); ("log_level", "RUST_LOG"); ("metrics_enabled", "PELAGO_METRICS_ENABLED");
  ("metrics_addr", "PELAGO_METRICS_ADDR"); ("id_batch_size", "PELAGO_ID_BATCH_SIZE");
  ("default_database", "PELAGO_DEFAULT_DATABASE"); ("default_namespace", "PELAGO_DEFAULT_NAMESPACE");
  ("cache_enabled", "PELAGO_CACHE_ENABLED"); ("cache_path", "PELAGO_CACHE_PATH"); ("cache_size_mb", "PELAGO_CACHE_SIZE_MB");
  ("cache_write_buffer_mb", "PELAGO_CACHE_WRITE_BUFFER_MB"); ("cache_max_write_buffers", "PELAGO_CACHE_MAX_WRITE_BUFFERS");
  ("cache_bloom_bits_per_key", "PELAGO_CACHE_BLOOM_BITS_PER_KEY");
  ("cache_prefix_extractor_bytes", "PELAGO_CACHE_PREFIX_EXTRACTOR_BYTES");
  ("cache_use_column_families", "PELAGO_CACHE_USE_COLUMN_FAMILIES");
  ("cache_projector_batch_size", "PELAGO_CACHE_PROJECTOR_BATCH_SIZE");
  ("cache_projector_scopes", "PELAGO_CACHE_PROJECTOR_SCOPES");
  ("cache_eventual_max_lag_ms", "PELAGO_CACHE_EVENTUAL_MAX_LAG_MS");
  ("cache_session_max_lag_ms", "PELAGO_CACHE_SESSION_MAX_LAG_MS"); ("auth_required", "PELAGO_AUTH_REQUIRED");
  ("api_keys", "PELAGO_API_KEYS"); ("mtls_enabled", "PELAGO_MTLS_ENABLED");
  ("mtls_subject_header", "PELAGO_MTLS_SUBJECT_HEADER"); ("mtls_subjects", "PELAGO_MTLS_SUBJECTS");
  ("mtls_fingerprints", "PELAGO_MTLS_FINGERPRINTS"); ("mtls_default_role", "PELAGO_MTLS_DEFAULT_ROLE");
  ("tls_cert", "PELAGO_TLS_CERT"); ("tls_key", "PELAGO_TLS_KEY"); ("tls_ca", "PELAGO_TLS_CA");
  ("tls_client_auth", "PELAGO_TLS_CLIENT_AUTH"); ("audit_enabled", "PELAGO_AUDIT_ENABLED");
  ("audit_retention_days", "PELAGO_AUDIT_RETENTION_DAYS");
  ("audit_retention_sweep_secs", "PELAGO_AUDIT_RETENTION_SWEEP_SECS");
  ("audit_retention_batch", "PELAGO_AUDIT_RETENTION_BATCH"); ("replication_enabled", "PELAGO_REPLICATION_ENABLED");
  ("replication_peers", "PELAGO_REPLICATION_PEERS"); ("replication_database", "PELAGO_REPLICATION_DATABASE");
  ("replication_namespace", "PELAGO_REPLICATION_NAMESPACE"); ("replication_scopes", "PELAGO_REPLICATION_SCOPES");
  ("replication_batch_size", "PELAGO_REPLICATION_BATCH_SIZE"); ("replication_poll_ms", "PELAGO_REPLICATION_POLL_MS");
  ("replication_api_key", "PELAGO_REPLICATION_API_KEY"); ("replication_tls_mode", "PELAGO_REPLICATION_TLS_MODE");
  ("replication_tls_ca", "PELAGO_REPLICATION_TLS_CA"); ("replication_tls_cert", "PELAGO_REPLICATION_TLS_CERT");
  ("replication_tls_key", "PELAGO_REPLICATION_TLS_KEY");
  ("replication_tls_server_name", "PELAGO_REPLICATION_TLS_SERVER_NAME");
  ("replication_lease_enabled", "PELAGO_REPLICATION_LEASE_ENABLED");
  ("replication_lease_ttl_ms", "PELAGO_REPLICATION_LEASE_TTL_MS");
  ("replication_lease_heartbeat_ms", "PELAGO_REPLICATION_LEASE_HEARTBEAT_MS"); ("docs_enabled", "PELAGO_DOCS_ENABLED");
  ("docs_addr", "PELAGO_DOCS_ADDR"); ("docs_dir", "PELAGO_DOCS_DIR"); ("docs_title", "PELAGO_DOCS_TITLE");
  ("ui_enabled", "PELAGO_UI_ENABLED"); ("ui_addr", "PELAGO_UI_ADDR"); ("ui_assets_dir", "PELAGO_UI_ASSETS_DIR");
  ("ui_title", "PELAGO_UI_TITLE"); ("watch_max_subscriptions", "PELAGO_WATCH_MAX_SUBSCRIPTIONS");
  ("watch_max_namespace_subscriptions", "PELAGO_WATCH_MAX_NAMESPACE_SUBSCRIPTIONS");
  ("watch_max_query_watches", "PELAGO_WATCH_MAX_QUERY_WATCHES");
  ("watch_max_principal_subscriptions", "PELAGO_WATCH_MAX_PRINCIPAL_SUBSCRIPTIONS");
  ("watch_max_ttl_secs", "PELAGO_WATCH_MAX_TTL_SECS"); ("watch_max_queue_size", "PELAGO_WATCH_MAX_QUEUE_SIZE");
  ("watch_max_dropped_events", "PELAGO_WATCH_MAX_DROPPED_EVENTS");
  ("watch_state_retention_enabled", "PELAGO_WATCH_STATE_RETENTION_ENABLED");
  ("watch_state_retention_days", "PELAGO_WATCH_STATE_RETENTION_DAYS");
  ("watch_state_retention_sweep_secs", "PELAGO_WATCH_STATE_RETENTION_SWEEP_SECS");
  ("watch_state_retention_batch", "PELAGO_WATCH_STATE_RETENTION_BATCH")
].

Definition parse_bool (value : string) : option bool :=
  let v := to_ascii_lowercase (trim value) in
  if bool_decide (v ∈ ["1"; "true"; "yes"; "on"]) then Some true
  else if bool_decide (v ∈ ["0"; "false"; "no"; "off"]) then Some false else None.

(** The loop over the arguments: the path and the flag so far. *)
Fixpoint scan_args (args : list string) (config : option string) (no_config : bool) : option string * bool :=
  match args with
  | [] => (config, no_config)
  | arg :: args' =>
      if String.eqb arg "--config" then
        match args' with
        | path :: args'' => scan_args args'' (Some path) no_config
        | [] => (config, no_config)
        end
      else match strip "--config=" arg with
      | Some path => scan_args args' (Some path) no_config
      | None =>
          if String.eqb arg "--no-config" then
            match args' with
            | next :: args'' =>
                if starts_with next "--" then scan_args args' config true
                else scan_args args'' config (default true (parse_bool next))
            | [] => (config, true)
            end
          else scan_args args' config (match strip "--no-config=" arg with Some v => default true (parse_bool v) | None => no_config end)
      end
  end.

Definition bootstrap_config_path (file_exists : string -> bool) (env : ProcessEnv) (args : list string) : option string :=
  let '(config, no_config) :=
    scan_args args (env !! "PELAGO_CONFIG") (default false (env !! "PELAGO_NO_CONFIG" ≫= parse_bool)) in
  if no_config : bool then None
  else match config with
  | Some path => Some path
  | None => if file_exists "pelago-server.toml" then Some "pelago-server.toml" else None
  end.

(** The loop over the keys: the environment, or the key that has no text. *)
Fixpoint fill_env `{F64Display} (table : gmap string Toml) (pairs : list (string * string)) (env : ProcessEnv) : ProcessEnv + string :=
  match pairs with
  | [] => inl env
  | (key, env_name) :: rest =>
      match env !! env_name with
      | Some _ => fill_env table rest env
      | None =>
          match table !! key with
          | None => fill_env table rest env
          | Some v =>
              match toml_value_to_string v with
              | None => inr key
              | Some rendered => fill_env table rest (<[env_name := rendered]> env)
              end
          end
      end
  end.

(** [read_text] reads a file and [parse_toml] parses it; [Some None] is a document
    that is not a table. *)
Definition load_server_config_file_into_env `{F64Display} (file_exists : string -> bool) (read_text : string -> option string)
    (parse_toml : string -> option (option (gmap string Toml))) (args : list string) (env : ProcessEnv) : Checked ProcessEnv :=
  match bootstrap_config_path file_exists env args with
  | None => inl env
  | Some path =>
      raw ← require (read_text path) ("failed to read server config file '" ++ path ++ "'")%string;
      parsed ← require (parse_toml raw) ("failed to parse TOML config file '" ++ path ++ "'")%string;
      table ← require parsed ("server config file '" ++ path ++ "' must be a TOML table")%string;
      match fill_env table config_key_env_pairs env with
      | inl env => inl env
      | inr key => inr ("config key '" ++ key ++ "' in '" ++ path ++ "' has unsupported type (expected string/number/bool)")%string
      end
  end.

Definition set_env_if_some {A} (to_string : A -> string) (name : string) (value : option A) (env : ProcessEnv) : ProcessEnv :=
  match value with Some v => <[name := to_string v]> env | None => env end.

Definition apply_cli_env_overrides (c : ServerConfig) (env : ProcessEnv) : ProcessEnv :=
  let str := set_env_if_some (fun s : string => s) in
  let num := set_env_if_some ustr in
  let env := str "PELAGO_API_KEYS" (cfg_api_keys c) env in
  let env := set_env_if_some bool_str "PELAGO_MTLS_ENABLED" (Some (cfg_mtls_enabled c)) env in
  let env := str "PELAGO_MTLS_SUBJECT_HEADER" (Some (cfg_mtls_subject_header c)) env in
  let env := str "PELAGO_MTLS_SUBJECTS" (cfg_mtls_subjects c) env in
  let env := str "PELAGO_MTLS_FINGERPRINTS" (cfg_mtls_fingerprints c) env in
  let env := str "PELAGO_MTLS_DEFAULT_ROLE" (Some (cfg_mtls_default_role c)) env in
  let env := str "PELAGO_TLS_CERT" (cfg_tls_cert c) env in
  let env := str "PELAGO_TLS_KEY" (cfg_tls_key c) env in
  let env := str "PELAGO_TLS_CA" (cfg_tls_ca c) env in
  let env := str "PELAGO_TLS_CLIENT_AUTH" (Some (cfg_tls_client_auth c)) env in
  let env := num "PELAGO_WATCH_MAX_SUBSCRIPTIONS" (cfg_watch_max_subscriptions c) env in
  let env := num "PELAGO_WATCH_MAX_NAMESPACE_SUBSCRIPTIONS" (cfg_watch_max_namespace_subscriptions c) env in
  let env := num "PELAGO_WATCH_MAX_QUERY_WATCHES" (cfg_watch_max_query_watches c) env in
  let env := num "PELAGO_WATCH_MAX_PRINCIPAL_SUBSCRIPTIONS" (cfg_watch_max_principal_subscriptions c) env in
  let env := num "PELAGO_WATCH_MAX_TTL_SECS" (cfg_watch_max_ttl_secs c) env in
  let env := num "PELAGO_WATCH_MAX_QUEUE_SIZE" (cfg_watch_max_queue_size c) env in
  num "PELAGO_WATCH_MAX_DROPPED_EVENTS" (cfg_watch_max_dropped_events c) env.

(** ** Scopes *)

(** [ScopeSpec] of main.rs and [ReplicationScope] of replicator.rs. *)
Record Scope := mkScope { scope_database : string; scope_namespace : string }.
#[export] Instance Scope_eq_dec : EqDecision Scope.
Proof. solve_decision. Defined.

(** One entry, or nothing when it is not [database/namespace]. *)
Definition scope_entry (entry : string) : option Scope :=
  match split_once Byte.x2f (sbytes entry) with
  | None => None
  | Some (d, n) =>
      let database := trim (bstr d) in let namespace := trim (bstr n) in
      if String.eqb database "" || String.eqb namespace "" then None else Some (mkScope database namespace)
  end.

(** A scope is kept once: the list stands for the vector and the set of the code. *)
Definition push_scope (scopes : list Scope) (s : Scope) : list Scope := if decide (s ∈ scopes) then scopes else scopes ++ [s].

Definition parse_scope_specs (raw : string) : list Scope :=
  foldl (fun scopes entry => match scope_entry entry with Some s => push_scope scopes s | None => scopes end) [] (entries_of raw).

(** [parse_scopes] of replicator.rs has the same body. *)
Definition parse_scopes (raw : string) : list Scope :=
  foldl (fun scopes entry => match scope_entry entry with Some s => push_scope scopes s | None => scopes end) [] (entries_of raw).

Definition resolve_cache_projector_scopes (c : ServerConfig) : list Scope :=
  let defaults :=
    let scopes := push_scope [] (mkScope (cfg_default_database c) (cfg_default_namespace c)) in
    let single := push_scope scopes (mkScope (default (cfg_default_database c) (cfg_replication_database c))
                                       (default (cfg_default_namespace c) (cfg_replication_namespace c))) in
    match cfg_replication_scopes c with
    | Some raw => match parse_scope_specs raw with [] => single | l => foldl push_scope scopes l end
    | None => single
    end in
  match cfg_cache_projector_scopes c with
  | Some raw => match parse_scope_specs raw with [] => defaults | l => l end
  | None => defaults
  end.

Definition parse_replication_scopes (c : ServerConfig) : list Scope :=
  let single := [mkScope (default (cfg_default_database c) (cfg_replication_database c))
                         (default (cfg_default_namespace c) (cfg_replication_namespace c))] in
  match cfg_replication_scopes c with
  | Some raw => match parse_scopes raw with [] => single | l => l end
  | None => single
  end.

(** ** Transport security and the cluster file *)

Inductive TlsClientAuthMode := ClientAuthNone | ClientAuthRequest | ClientAuthRequire.
#[export] Instance TlsClientAuthMode_eq_dec : EqDecision TlsClientAuthMode.
Proof. solve_decision. Defined.

Definition parse_client_auth (raw : string) : Checked TlsClientAuthMode :=
  let v := to_ascii_lowercase (trim raw) in
  if String.eqb v "none" then inl ClientAuthNone
  else if String.eqb v "request" then inl ClientAuthRequest
  else if String.eqb v "require" then inl ClientAuthRequire
  else inr ("invalid PELAGO_TLS_CLIENT_AUTH value '" ++ v ++ "'; expected one of: none, request, require")%string.

(** The identity of the server, the certificate clients are checked against, and
    whether a client may come without one. *)
Record ServerTls := mkServerTls { tls_identity : bytes * bytes; client_ca_root : option bytes; client_auth_optional : bool }.

Definition nonblank (o : option string) : option string := o ≫= fun s => let t := trim s in if String.eqb t "" then None else Some t.

Section Files.
Context (read_file : string -> option bytes).

Definition read_pem (what path : string) : Checked bytes :=
  match read_file path with Some b => inl b | None => inr ("failed to read TLS " ++ what ++ " '" ++ path ++ "'")%string end.

Definition build_server_tls_config (c : ServerConfig) : Checked (option ServerTls) :=
  let tls_cert := nonblank (cfg_tls_cert c) in
  let tls_key := nonblank (cfg_tls_key c) in
  let tls_ca := nonblank (cfg_tls_ca c) in
  match tls_cert, tls_key, tls_ca with
  | None, None, None => inl None
  | _, _, _ =>
      cert_path ← require tls_cert "PELAGO_TLS_CERT is required when TLS configuration is enabled";
      key_path ← require tls_key "PELAGO_TLS_KEY is required when TLS configuration is enabled";
      cert_pem ← read_pem "cert" cert_path;
      key_pem ← read_pem "key" key_path;
      mode ← parse_client_auth (cfg_tls_client_auth c);
      match mode with
      | ClientAuthNone => inl (Some (mkServerTls (cert_pem, key_pem) None false))
      | _ =>
          ca_path ← require tls_ca ("PELAGO_TLS_CA is required when PELAGO_TLS_CLIENT_AUTH is '" ++ cfg_tls_client_auth c ++ "'")%string;
          ca_pem ← read_pem "CA cert" ca_path;
          inl (Some (mkServerTls (cert_pem, key_pem) (Some ca_pem) (bool_decide (mode = ClientAuthRequest))))
      end
  end.
End Files.

Definition resolve_fdb_cluster_file (file_exists : string -> bool) (env : ProcessEnv) (configured : string) : string :=
  if file_exists configured then configured
  else match env !! "FDB_CLUSTER_FILE" with
  | Some path => if file_exists path then path else if file_exists "fdb.cluster" then "fdb.cluster" else configured
  | None => if file_exists "fdb.cluster" then "fdb.cluster" else configured
  end.
