(* ===== verification/Replicator.v ===== *)
(** * The replicator

    [pelago-server/src/replicator.rs]: for every scope and peer a loop that holds a
    lease, pulls the peer's log from its checkpoint, applies what the peer's site
    wrote, mirrors what it applied into the local log and records its position.
    What the network delivers is an input of a turn of the loop: whether the peer
    could be reached, and the messages of its stream. *)

From S2P Require Import Prelude Bytes Text Errors Types Encoding Subspace SchemaTypes Fdb MemFdb Cdc Consumer Ids Index.
From S2P Require Import TermIndex Namespace Jobs SchemaRegistry Node Edge EdgeCascade NodeDelete Rows Replication Security Service Auth StateM RocksCache Wire GraphService ReplService Config.

(** ** Configuration *)

Record ReplicationPeer := mkPeer { peer_site : string; peer_endpoint : string }.

Inductive ReplicationTlsMode := TlsDisabled | TlsSystemRoots | TlsCustomCa | TlsMutual.
#[export] Instance ReplicationTlsMode_eq_dec : EqDecision ReplicationTlsMode.
Proof. solve_decision. Defined.

Definition parse_tls_mode (raw : string) : Checked ReplicationTlsMode :=
  let v := to_ascii_lowercase (trim raw) in
  if bool_decide (v ∈ ["disabled"; "off"; "none"]) then inl TlsDisabled
  else if bool_decide (v ∈ ["system-roots"; "system_roots"; "system"]) then inl TlsSystemRoots
  else if bool_decide (v ∈ ["custom-ca"; "custom_ca"]) then inl TlsCustomCa
  else if bool_decide (v ∈ ["mutual-tls"; "mutual_tls"; "mtls"]) then inl TlsMutual
  else inr ("invalid PELAGO_REPLICATION_TLS_MODE '" ++ v ++ "'; expected one of: disabled, system-roots, custom-ca, mutual-tls")%string.

Definition tls_required (m : ReplicationTlsMode) : bool := negb (bool_decide (m = TlsDisabled)).

Record ReplicationTlsConfig := mkTlsConfig {
  tls_mode : ReplicationTlsMode; ca_path : option string; cert_path : option string; key_path : option string; server_name : option string
}.
Definition default_tls : ReplicationTlsConfig := mkTlsConfig TlsDisabled None None None None.

Definition normalize_opt (value : option string) : option string := nonblank value.

Definition has {A} (o : option A) : bool := match o with Some _ => true | None => false end.

Definition tls_from_server_config (c : ServerConfig) : Checked ReplicationTlsConfig :=
  mode ← parse_tls_mode (cfg_replication_tls_mode c);
  let t := mkTlsConfig mode (normalize_opt (cfg_replication_tls_ca c)) (normalize_opt (cfg_replication_tls_cert c))
             (normalize_opt (cfg_replication_tls_key c)) (normalize_opt (cfg_replication_tls_server_name c)) in
  match mode with
  | TlsDisabled | TlsSystemRoots => inl t
  | TlsCustomCa =>
      if has (ca_path t) then inl t
      else inr "PELAGO_REPLICATION_TLS_CA is required when replication TLS mode is custom-ca"
  | TlsMutual =>
      if has (ca_path t) && has (cert_path t) && has (key_path t) then inl t
      else inr "PELAGO_REPLICATION_TLS_CA, PELAGO_REPLICATION_TLS_CERT, and PELAGO_REPLICATION_TLS_KEY are required when replication TLS mode is mutual-tls"
  end.

Definition parse_peers (raw : string) : list ReplicationPeer :=
  omap (fun entry =>
    '(site, endpoint) ← split_once Byte.x3d (sbytes entry);
    let site := trim (bstr site) in let endpoint := trim (bstr endpoint) in
    if String.eqb site "" || String.eqb endpoint "" then None else Some (mkPeer site endpoint)) (entries_of raw).

Record ReplicatorConfig := mkReplicatorConfig {
  enabled : bool; rc_batch_size : Z; poll_ms : Z; rc_api_key : option string; tls : ReplicationTlsConfig;
  lease_enabled : bool; lease_ttl_ms : Z; lease_heartbeat_ms : Z; peers : list ReplicationPeer; scopes : list Scope
}.

Definition u64_saturating_mul (a b : Z) : Z := Z.min (a * b) (2 ^ 64 - 1).

Definition from_server_config (c : ServerConfig) : ReplicatorConfig :=
  let peers := parse_peers (cfg_replication_peers c) in
  let heartbeat := Z.max (cfg_replication_lease_heartbeat_ms c) 200 in
  {| enabled := default (negb (bool_decide (peers = []))) (cfg_replication_enabled c);
     rc_batch_size := Z.max (cfg_replication_batch_size c) 1;
     poll_ms := Z.max (cfg_replication_poll_ms c) 50;
     rc_api_key := cfg_replication_api_key c;
     tls := match tls_from_server_config c with inl t => t | inr _ => default_tls end;
     lease_enabled := cfg_replication_lease_enabled c;
     lease_ttl_ms := Z.max (Z.max (cfg_replication_lease_ttl_ms c) 1000) (u64_saturating_mul heartbeat 2);
     lease_heartbeat_ms := heartbeat;
     peers := peers;
     scopes := parse_replication_scopes c |}.

(** The loops that [start_replicators] spawns. *)
Definition start_replicators (c : ReplicatorConfig) : list (Scope * ReplicationPeer) :=
  if enabled c then s ← scopes c; p ← peers c; mret (s, p) else [].

Definition normalize_endpoint (endpoint : string) (tls_required : bool) : string :=
  if starts_with endpoint "http://" || starts_with endpoint "https://" then endpoint
  else if tls_required then ("https://" ++ endpoint)%string else ("http://" ++ endpoint)%string.

(** How a connection is made: in the clear, or with the roots, the certificate of
    the authority, the identity and the name to check.  [transport_ok] is whether
    the endpoint is well formed and [read_file] reads a file. *)
Record ClientTls := mkClientTls { ct_domain : option string; ct_ca : option bytes; ct_identity : option (bytes * bytes) }.

Definition connect_replication_client (valid_endpoint : string -> bool) (read_file : string -> option bytes) (t : ReplicationTlsConfig) (endpoint : string)
    : Checked (option ClientTls) :=
  if starts_with endpoint "https://" && negb (tls_required (tls_mode t)) then
    inr "HTTPS replication endpoint requires replication TLS mode != disabled"
  else if starts_with endpoint "http://" && tls_required (tls_mode t) then inr "replication TLS mode requires HTTPS endpoint"
  else if negb (valid_endpoint endpoint) then inr ("invalid replication endpoint '" ++ endpoint ++ "'")%string
  else if negb (tls_required (tls_mode t)) then inl None
  else
    ca ← match tls_mode t with
         | TlsCustomCa | TlsMutual =>
             path ← require (ca_path t) "replication TLS mode requires PELAGO_REPLICATION_TLS_CA";
             pem ← require (read_file path) ("failed to read replication TLS CA '" ++ path ++ "'")%string;
             inl (Some pem)
         | _ => inl None
         end;
    identity ← match tls_mode t with
               | TlsMutual =>
                   cert ← require (cert_path t) "replication mutual TLS requires PELAGO_REPLICATION_TLS_CERT";
                   key ← require (key_path t) "replication mutual TLS requires PELAGO_REPLICATION_TLS_KEY";
                   cert_pem ← require (read_file cert) ("failed to read replication TLS cert '" ++ cert ++ "'")%string;
                   key_pem ← require (read_file key) ("failed to read replication TLS key '" ++ key ++ "'")%string;
                   inl (Some (cert_pem, key_pem))
               | _ => inl None
               end;
    inl (Some (mkClientTls (server_name t) ca identity)).

(** ** Applying operations *)

Section Apply.
Context {S : Type} `{Fdb S} `{HashIter} `{DebugValue} `{CharClass} `{UuidSource}.
Context `{Cbor NodeData} `{Cbor EdgeNodeData} `{Cbor EdgeData} `{Cbor EntitySchema} `{Cbor CdcEntry} `{Cbor NamespaceSettings} `{Cbor JobState}.
Context `{Cbor AuditRecord} `{Cbor ReplicationPosition} `{Cbor ReplicationLease}.

(** The operation as it is mirrored, when it was applied. *)
Definition if_applied (op : CdcOperation) (m : M S bool) : M S (option (option CdcOperation)) :=
  applied ← m; mret (Some (if applied : bool then Some op else None)).

(** The outer [None] is out of fuel: the cascade of a deletion. *)
Definition apply_replication_op (fuel : nat) (site_allocator : IdAllocator) (remote database namespace : string) (ts : Z)
    (operation : option Rp.Operation) : M S (option (option CdcOperation)) :=
  match operation with
  | None => mret (Some None)
  | Some (Rp.NodeCreateOp et id props home) =>
      let props := proto_to_core_properties props in
      if_applied (NodeCreate et id props home) (apply_replica_node_create database namespace et id props home ts remote)
  | Some (Rp.NodeUpdateOp et id changed old) =>
      let changed := proto_to_core_properties changed in let old := proto_to_core_properties old in
      if_applied (NodeUpdate et id changed old) (apply_replica_node_update database namespace et id changed old ts remote)
  | Some (Rp.NodeDeleteOp et id) =>
      applied ← apply_replica_node_delete fuel (mkNodeStore site_allocator remote) database namespace et id ts remote;
      mret ((fun b : bool => if b then Some (NodeDelete et id) else None) <$> applied)
  | Some (Rp.EdgeCreateOp st si tty ti ty eid props) =>
      let props := proto_to_core_properties props in
      if_applied (EdgeCreate st si tty ti ty eid props)
        (apply_replica_edge_create database namespace (mkNodeRef database namespace st si) (mkNodeRef database namespace tty ti) ty eid props ts remote)
  | Some (Rp.EdgeDeleteOp st si tty ti ty) =>
      if_applied (EdgeDelete st si tty ti ty)
        (apply_replica_edge_delete database namespace (mkNodeRef database namespace st si) (mkNodeRef database namespace tty ti) ty ts remote)
  | Some (Rp.SchemaRegisterOp et v schema) =>
      proto ← lift (ok_or schema (SchemaValidation "replicated schema register missing schema payload"));
      s ← match proto_to_core_schema proto Pb.INDEX_DEFAULT_MODE_AUTO_BY_TYPE_V1 with
          | inl s => mret s
          | inr e => throw (SchemaValidation ("invalid replicated schema payload: " ++ status_message e))
          end;
      if negb (String.eqb (name s) et) then
        throw (SchemaValidation ("schema payload name '" ++ name s ++ "' does not match op entity_type '" ++ et ++ "'"))
      else if_applied (SchemaRegister et v s) (apply_replica_schema_register database namespace s v remote)
  | Some (Rp.OwnershipTransferOp et id previous current) =>
      if_applied (OwnershipTransfer et id previous current)
        (apply_replica_ownership_transfer database namespace et id previous current ts remote)
  end.

Definition load_checkpoint (database namespace remote : string) : M S (option Versionstamp.t) :=
  r ← attempt (get_replication_positions_scoped database namespace);
  mret (match r with
        | Ok positions => List.find (fun p => String.eqb (remote_site_id p) remote) positions ≫= last_applied_versionstamp
        | Err _ => None
        end).

Definition record_replication_conflict (remote database namespace reason : string) : M S unit :=
  attempt (append_audit_record (mkAuditRecord "" 0 ("replicator:" ++ remote) "replication.conflict" (database ++ "/" ++ namespace) false
    reason {["remote_site_id" := remote]})) ;; mret tt.

(** ** The loop *)

(** What a replicator keeps from turn to turn. *)
Record Replicator := mkReplicator { after : option Versionstamp.t; conflict_count : Z; has_lease : bool }.
Definition set_after (vs : Versionstamp.t) (r : Replicator) : Replicator := mkReplicator (Some vs) (conflict_count r) (has_lease r).
Definition add_conflict (r : Replicator) : Replicator := mkReplicator (after r) (wrap_i64 (conflict_count r + 1)) (has_lease r).
Definition set_lease (b : bool) (r : Replicator) : Replicator := mkReplicator (after r) (conflict_count r) b.

Abbreviation L := (T Replicator S).

Definition new_replicator (c : ReplicatorConfig) (scope : Scope) (peer : ReplicationPeer) : M S Replicator :=
  vs ← load_checkpoint (scope_database scope) (scope_namespace scope) (peer_site peer);
  mret (mkReplicator vs 0 (negb (lease_enabled c))).

Section Turn.
Context (fuel : nat) (allocator : IdAllocator) (c : ReplicatorConfig) (local_site holder : string) (scope : Scope) (peer : ReplicationPeer).
Local Abbreviation db := (scope_database scope).
Local Abbreviation ns := (scope_namespace scope).
Local Abbreviation remote := (peer_site peer).

Definition conflict (reason : string) : L unit :=
  set_st add_conflict ;; on_db (record_replication_conflict remote db ns reason).

(** The loop over the operations of an entry: those applied, or out of fuel. *)
Fixpoint apply_operations (ts : Z) (ops : list (option Rp.Operation)) (mirrored : list CdcOperation) : L (option (list CdcOperation)) :=
  match ops with
  | [] => mret (Some mirrored)
  | op :: ops' =>
      r ← on_db (attempt (apply_replication_op fuel allocator remote db ns ts op));
      match r with
      | Ok None => mret None
      | Ok (Some (Some op)) => apply_operations ts ops' (mirrored ++ [op])
      | Ok (Some None) => conflict "operation skipped by ownership/LWW filter" ;; apply_operations ts ops' mirrored
      | Err e => conflict ("operation apply failed: " ++ display e) ;; apply_operations ts ops' mirrored
      end
  end.

Definition mirror (ts : Z) (batch : string) (ops : list CdcOperation) : L unit :=
  match ops with
  | [] => mret tt
  | _ =>
      r ← on_db (attempt (append_cdc_entry db ns (mkCdcEntry remote ts (if String.eqb batch "" then None else Some batch) ops)));
      match r with
      | Ok _ => mret tt
      | Err e => conflict ("failed to append mirrored CDC entry: " ++ display e)
      end
  end.

(** One message of the stream: whether it counts as seen; [None] is out of fuel. *)
Definition handle_event (ev : Rp.CdcEventResponse) : L (option bool) :=
  match Versionstamp.from_bytes (Rp.versionstamp ev) with
  | None => conflict "invalid versionstamp in replication event" ;; mret (Some false)
  | Some vs =>
      match Rp.entry ev with
      | None => conflict "missing CDC entry payload" ;; mret (Some false)
      | Some entry =>
          if negb (String.eqb (Rp.site entry) remote) then
            conflict ("source-site mismatch: expected " ++ remote ++ ", got " ++ Rp.site entry) ;;
            set_st (set_after vs) ;; mret (Some false)
          else
            ops ← apply_operations (Rp.ev_timestamp entry) (Rp.ops entry) [];
            match ops with
            | None => mret None
            | Some ops => mirror (Rp.ev_timestamp entry) (Rp.batch entry) ops ;; set_st (set_after vs) ;; mret (Some true)
            end
      end
  end.

(** The stream until it ends or breaks ([None] is an error): how many were seen. *)
Fixpoint handle_stream (stream : list (option Rp.CdcEventResponse)) (seen : nat) : L (option nat) :=
  match stream with
  | [] | None :: _ => mret (Some seen)
  | Some ev :: stream' =>
      r ← handle_event ev;
      match r with
      | None => mret None
      | Some b => handle_stream stream' (if b : bool then Datatypes.S seen else seen)
      end
  end.

(** Whether the replicator holds the lease afterwards. *)
Definition refresh_lease : L unit :=
  r ← on_db (attempt (try_acquire_replicator_lease local_site db ns holder (lease_ttl_ms c)));
  match r with
  | Ok (Some _) => set_st (set_lease true)
  | Ok None => set_st (set_lease false)
  | Err _ =>
      r ← on_db (attempt (get_replicator_lease local_site db ns));
      match r with
      | Ok (Some l) =>
          if String.eqb (holder_id l) holder then t ← on_db now; set_st (set_lease (t <? lease_expires_at l))
          else set_st (set_lease false)
      | _ => set_st (set_lease false)
      end
  end.

(** What the outside delivers in a turn: the shutdown signal, whether the heartbeat
    has elapsed, whether the peer was reached and accepted the request, and the
    messages of its answer to the position it was asked from. *)
Record TurnInput := mkTurnInput {
  shutdown : bool; refresh_due : bool; connected : bool; answer : option Versionstamp.t -> option (list (option Rp.CdcEventResponse))
}.

(** A turn: whether the loop goes on, and whether it sleeps; [None] is out of fuel. *)
Definition replicator_turn (i : TurnInput) : L (option (bool * bool)) :=
  if shutdown i then mret (Some (false, false)) else
  (if lease_enabled c && refresh_due i then refresh_lease else mret tt) ;;
  held ← get_st has_lease;
  if negb held then mret (Some (true, true)) else
  if negb (connected i) then mret (Some (true, true)) else
  from ← get_st after;
  match answer i from with
  | None => mret (Some (true, true))
  | Some stream =>
      seen ← handle_stream stream 0;
      match seen with
      | None => mret None
      | Some seen =>
          vs ← get_st after; n ← get_st conflict_count;
          on_db (attempt (update_replication_position_scoped db ns remote vs n)) ;;
          mret (Some (true, Nat.eqb seen 0))
      end
  end.

(** The loop over the turns that the outside gives it. *)
Fixpoint run_turns (inputs : list TurnInput) : L (option unit) :=
  match inputs with
  | [] => mret (Some tt)
  | i :: inputs' =>
      r ← replicator_turn i;
      match r with
      | None => mret None
      | Some (true, _) => run_turns inputs'
      | Some (false, _) => mret (Some tt)
      end
  end.
End Turn.
End Apply.
