(* ===== verification/ReplicatorSpec.v ===== *)
(** * The replicator against the log of its peer

    A pull returns the entries of the asked site after the asked position; a
    replicator that polls a peer handles the entries of the peer's site once each
    and in their order, whatever the batch size, and mirrors operations as the
    peer wrote them. *)

From S2P Require Import Prelude Bytes Text Errors Types Encoding Subspace SchemaTypes Fdb MemFdb Cdc Consumer Ids Index.
From S2P Require Import TermIndex Namespace Jobs SchemaRegistry Node Edge EdgeCascade NodeDelete Rows Replication Security Service Auth StateM RocksCache Wire GraphService ReplService Config Replicator.

Create HintDb counts.

(** ** What a pull returns *)

Lemma strongly_sorted_filter {A} (R : A -> A -> Prop) (P : A -> Prop) `{forall x, Decision (P x)} (l : list A) :
  StronglySorted R l -> StronglySorted R (filter P l).
Proof.
  induction 1 as [|x l Hs IH Hf]; [constructor|]. rewrite filter_cons. case_decide; [|done].
  constructor; [done|]. rewrite Forall_forall in *. intros y [_ Hy]%list_elem_of_filter. by apply Hf.
Qed.

Section Peer.
Context {S : Type} `{FdbLaws S} `{CborLaws CdcEntry canon_entry storable_entry} `{Cbor AuthPolicy} `{Cbor AuditRecord} `{UuidSource}.
Context (env : Env) (Henv : no_faults env) (ctx : RequestContext) (source_site : string).
Implicit Types (t : S) (w : World S) (from : option Versionstamp.t).
Local Abbreviation db := (ctx_database ctx).
Local Abbreviation ns := (ctx_namespace ctx).

(** The answer of a peer without authentication, as the messages of a stream. *)
Definition peer_answer (fuel : nat) (limit : Z) w from : option (list (option Rp.CdcEventResponse)) :=
  match (pull_cdc_events (W:=World S) fuel None (Some ctx) (default [] from) limit source_site env w).1 with
  | inl (Some l) => Some (map Some l)
  | _ => None
  end.

(** The entries of the site that a position has not covered. *)
Definition unseen t from : list (Versionstamp.t * CdcEntry) := of_site source_site (log_after db ns t from).

Definition events (l : list (Versionstamp.t * CdcEntry)) : list (option Rp.CdcEventResponse) := map (fun e => Some (event_msg e)) l.

Lemma peer_answer_exact fuel limit w from :
  cdc_wf db ns (w_kv w) -> good_after from -> 0 < limit -> source_site <> "" -> (length (log_after db ns (w_kv w) from) < fuel)%nat ->
  peer_answer fuel limit w from = Some (events (take (Z.to_nat limit) (unseen (w_kv w) from))).
Proof.
  intros Hwf Hg Hl Hs Hf. unfold peer_answer, pull_cdc_events. cbn [require_field from_option]. rewrite run_gret. cbn [authorize]. rewrite run_gret.
  destruct (run_collect_entries env Henv db ns fuel from (Z.to_nat limit) (Some source_site) w Hwf Hg ltac:(lia) Hf) as (w' & E & _).
  assert (Ea : requested_position (W:=World S) (default [] from) env w = (inl from, w)).
  { destruct from as [vs|]; [|done]. destruct (Hg vs eq_refl) as [Hlen _]. cbn [default id].
    unfold requested_position, Versionstamp.from_bytes. destruct vs as [|b vs]; [done|]. by rewrite decide_True. }
  rewrite (gbind_run _ _ _ _ _ _ Ea). rewrite (proj2 (Z.ltb_lt 0 limit)) by done. rewrite (proj2 (String.eqb_neq source_site "")) by done.
  assert (Ec : call (W:=World S) into_status (collect_cdc_entries (read_cdc_entries db ns) fuel from (Z.to_nat limit) (Some source_site)) env w
    = (inl (Some (pulled db ns (w_kv w) from (Z.to_nat limit) (Some source_site))), w')) by exact (run_call into_status _ env w _ w' E).
  rewrite (gbind_run _ _ _ _ _ _ Ec). cbn [fst mret G_ret fmap option_fmap option_map]. unfold pulled, events. rewrite map_map. done.
Qed.

Lemma unseen_good t from e : cdc_wf db ns t -> e ∈ unseen t from -> length e.1 = 10%nat /\ e.1 <> STAMP_MAX /\ entry_site e.2 = source_site.
Proof.
  intros Hwf [Hs Hin]%list_elem_of_filter. assert (Hl : e ∈ cdc_log db ns t).
  { unfold log_after in Hin. destruct from; [by apply list_elem_of_filter in Hin as [_ ?]|done]. }
  destruct (log_stamps db ns t e Hwf Hl) as (Hlen & Hff & _). split; [done|]. split; [|done]. intros E. rewrite E in Hff. by apply Hff.
Qed.

(** From the last entry of a batch, the rest of the entries is unseen. *)
Lemma unseen_next t from n e : cdc_wf db ns t -> last (take n (unseen t from)) = Some e -> unseen t (Some e.1) = drop n (unseen t from).
Proof.
  intros Hwf Hl. set (h := default Versionstamp.zero from).
  assert (Hu : forall x, unseen t x = filter (fun e => blt (default Versionstamp.zero x) e.1) (of_site source_site (cdc_log db ns t))).
  { intros x. unfold unseen. rewrite log_after_from by done. unfold beyond, of_site. rewrite !list_filter_filter.
    apply list_filter_iff. intros y. tauto. }
  rewrite !Hu in *. cbn [default]. apply beyond_last; [|exact Hl]. apply strongly_sorted_filter, (log_sorted env Henv db ns t Hwf).
Qed.
End Peer.

(** ** Batches *)

Section Batches.
Context {A : Type}.
Implicit Types (l : list A).

(** The first [k] windows of [b] items. *)
Definition batches (k b : nat) l : list (list A) := map (fun j => take b (drop (j * b) l)) (List.seq 0 k).

Lemma batches_S k b l : batches (Datatypes.S k) b l = take b l :: batches k b (drop b l).
Proof.
  unfold batches. cbn [List.seq map]. rewrite drop_0. f_equal. rewrite <- seq_shift, map_map. apply map_ext. intros j.
  rewrite drop_drop. do 2 f_equal; lia.
Qed.

Lemma batches_concat k b l : concat (batches k b l) = take (k * b) l.
Proof.
  revert l. induction k as [|k IH]; intros l; [done|]. rewrite batches_S. cbn [concat]. rewrite IH.
  rewrite <- (take_drop b (take (Datatypes.S k * b) l)), take_take, Nat.min_l by lia. f_equal.
  rewrite skipn_firstn_comm. f_equal. lia.
Qed.
End Batches.

(** ** The replicator *)

Section Follows.
Context {S : Type} `{FdbLaws S} `{HashIter} `{DebugValue} `{CharClass} `{UuidSource}.
Context `{Cbor NodeData} `{Cbor EdgeNodeData} `{Cbor EdgeData} `{Cbor EntitySchema} `{CborLaws CdcEntry canon_entry storable_entry} `{Cbor NamespaceSettings} `{Cbor JobState}.
Context `{Cbor AuthPolicy} `{Cbor AuditRecord} `{Cbor ReplicationPosition} `{Cbor ReplicationLease}.
Context (fuel : nat) (allocator : IdAllocator) (c : ReplicatorConfig) (local_site holder : string) (scope : Scope) (peer : ReplicationPeer) (env : Env).
Implicit Types (w : World S) (r : Replicator) (l : list (Versionstamp.t * CdcEntry)).
Local Abbreviation L := (T Replicator S).

(** A computation that only counts conflicts. *)
Definition counts_only {A} (m : L A) : Prop := forall r w a r' w',
  m env (r, w) = (a, (r', w')) -> after r' = after r /\ has_lease r' = has_lease r.

Lemma counts_ret {A} (a : A) : counts_only (mret a).
Proof. intros r w a' r' w' [= <- <- <-]. done. Qed.
Lemma counts_on_db {A} (m : M S A) : counts_only (on_db m).
Proof. intros r w a r' w'. unfold on_db. destruct (m env _) as [x w1]. by intros [= <- <- <-]. Qed.
Lemma counts_bind {A B} (m : L A) (f : A -> L B) : counts_only m -> (forall a, counts_only (f a)) -> counts_only (m ≫= f).
Proof.
  intros Hm Hf r w b r' w'. unfold mbind, T_bind. destruct (m env (r, w)) as [[a|e] [r1 w1]] eqn:E.
  - intros E2. destruct (Hm _ _ _ _ _ E) as [<- <-]. by eapply Hf.
  - intros [= <- <- <-]. by eapply Hm.
Qed.
Lemma counts_conflict reason : counts_only (conflict scope peer reason).
Proof.
  intros r w a r' w'. unfold conflict. rewrite run_set_st. unfold on_db. destruct (record_replication_conflict _ _ _ _ env _) as [x w1].
  by intros [= <- <- <-].
Qed.
Local Hint Resolve counts_ret counts_on_db counts_conflict : counts.
Local Hint Extern 2 (counts_only (_ ≫= _)) => (apply counts_bind; [|intros ?]) : counts.

Lemma counts_apply_operations ts ops mirrored : counts_only (apply_operations fuel allocator scope peer ts ops mirrored).
Proof.
  revert mirrored. induction ops as [|op ops IH]; intros mirrored; cbn [apply_operations]; [auto with counts|].
  apply counts_bind; [auto with counts|]. intros [[[op'|]|]|e]; auto with counts.
Qed.
Lemma counts_mirror ts b ops : counts_only (mirror scope peer ts b ops).
Proof. unfold mirror. destruct ops; [auto with counts|]. apply counts_bind; [auto with counts|]. intros [|]; auto with counts. Qed.

(** An entry of the peer's site, under a stamp. *)
Definition from_peer (e : Versionstamp.t * CdcEntry) : Prop := length e.1 = 10%nat /\ entry_site e.2 = peer_site peer.

(** The stamp a list of entries ends with. *)
Definition ends (l : list (Versionstamp.t * CdcEntry)) (from : option Versionstamp.t) : option Versionstamp.t :=
  match last l with Some e => Some e.1 | None => from end.

Lemma handle_event_moves e r w b r' w' : from_peer e ->
  handle_event fuel allocator scope peer (event_msg e) env (r, w) = (Ok (Some b), (r', w')) ->
  after r' = Some e.1 /\ has_lease r' = has_lease r.
Proof.
  intros [Hlen Hs]. unfold handle_event, event_msg. cbn [Rp.versionstamp Rp.entry Rp.site]. unfold Versionstamp.from_bytes.
  rewrite decide_True, Hs, String.eqb_refl by done. cbn [negb]. unfold mbind at 1, T_bind at 1.
  destruct (apply_operations _ _ _ _ _ _ _ env (r, w)) as [[[ops|]|x] [r1 w1]] eqn:E; [|done..].
  destruct (counts_apply_operations _ _ _ _ _ _ _ _ E) as [_ Hl1]. unfold mbind at 1, T_bind at 1.
  destruct (mirror _ _ _ _ _ env (r1, w1)) as [[u|x] [r2 w2]] eqn:E2; [|done].
  destruct (counts_mirror _ _ _ _ _ _ _ _ E2) as [_ Hl2]. rewrite run_set_st. intros [= _ <- <-]. cbn. split; [done|congruence].
Qed.

Lemma handle_stream_moves l : forall seen r w k r' w', Forall from_peer l ->
  handle_stream fuel allocator scope peer (events l) seen env (r, w) = (Ok (Some k), (r', w')) ->
  after r' = ends l (after r) /\ has_lease r' = has_lease r.
Proof.
  induction l as [|e l IH]; intros seen r w k r' w' Hf; cbn [events map handle_stream]; [by intros [= _ <- <-]|].
  apply Forall_cons in Hf as [He Hf]. unfold mbind at 1, T_bind at 1.
  destruct (handle_event _ _ _ _ _ env (r, w)) as [[[b|]|x] [r1 w1]] eqn:E; [|done..].
  destruct (handle_event_moves _ _ _ _ _ _ He E) as [Ha Hl]. intros E2. destruct (IH _ _ _ _ _ _ Hf E2) as [Ha' Hl']. split; [|congruence].
  rewrite Ha'. unfold ends. destruct l; [done|]. rewrite last_cons_cons. by destruct (last _) eqn:El; [|apply last_None in El].
Qed.

(** What the turns amount to: every batch is handled and the position saved. *)
Fixpoint run_batches (bs : list (list (Versionstamp.t * CdcEntry))) : L (option unit) :=
  match bs with
  | [] => mret (Some tt)
  | b :: bs' =>
      seen ← handle_stream fuel allocator scope peer (events b) 0;
      match seen with
      | None => mret None
      | Some _ =>
          vs ← get_st after; n ← get_st conflict_count;
          on_db (attempt (update_replication_position_scoped (scope_database scope) (scope_namespace scope) (peer_site peer) vs n)) ;;
          run_batches bs'
      end
  end.

Context (remote_fuel : nat) (remote_env : Env) (Hremote : no_faults remote_env) (wr : World S).
Local Abbreviation ctx := (mkRequestContext (scope_database scope) (scope_namespace scope)).
Local Abbreviation t := (w_kv wr).
Local Abbreviation unseen := (unseen ctx (peer_site peer) t).

(** A turn that finds the peer and needs no lease. *)
Definition polls (i : TurnInput) : Prop :=
  shutdown i = false /\ lease_enabled c && refresh_due i = false /\ connected i = true /\
  answer i = peer_answer remote_env ctx (peer_site peer) remote_fuel (rc_batch_size c mod 2 ^ 32) wr.

Context (Hwf : cdc_wf (scope_database scope) (scope_namespace scope) t) (Hsite : peer_site peer <> "")
  (Hbatch : 0 < rc_batch_size c < 2 ^ 32) (Hfuel : (length (cdc_log (scope_database scope) (scope_namespace scope) t) < remote_fuel)%nat).

Lemma unseen_from_peer from n : Forall from_peer (take n (unseen from)).
Proof.
  apply Forall_take, Forall_forall. intros e He.
  destruct (unseen_good ctx (peer_site peer) t from e Hwf He) as (? & _ & ?). done.
Qed.

(** The position after a batch. *)
Lemma ends_next from n : good_after from -> good_after (ends (take n (unseen from)) from) /\
  unseen (ends (take n (unseen from)) from) = drop n (unseen from).
Proof.
  intros Hg. unfold ends. destruct (last (take n (unseen from))) as [e|] eqn:El.
  - split; [|by apply (unseen_next remote_env Hremote)]. intros vs [= <-].
    assert (He : e ∈ unseen from) by (apply last_Some_elem_of in El; by apply elem_of_take_1 in El).
    by destruct (unseen_good ctx (peer_site peer) t from e Hwf He) as (? & ? & _).
  - split; [done|]. apply last_None in El. rewrite <- (take_drop n (unseen from)) at 1. by rewrite El.
Qed.

(** Handling a batch and saving the position. *)
Definition settled (l : list (Versionstamp.t * CdcEntry)) r w : result (option nat) * (Replicator * World S) :=
  match handle_stream fuel allocator scope peer (events l) 0 env (r, w) with
  | (Ok (Some seen), (r1, w1)) =>
      (Ok (Some seen), (r1, (attempt (update_replication_position_scoped (scope_database scope) (scope_namespace scope) (peer_site peer)
        (after r1) (conflict_count r1)) env w1).2))
  | s => s
  end.

Lemma run_turn i r w : polls i -> has_lease r = true -> good_after (after r) ->
  replicator_turn fuel allocator c local_site holder scope peer i env (r, w) =
    match settled (take (Z.to_nat (rc_batch_size c)) (unseen (after r))) r w with
    | (Ok (Some seen), s) => (Ok (Some (true, Nat.eqb seen 0)), s)
    | (Ok None, s) => (Ok None, s)
    | (Err e, s) => (Err e, s)
    end.
Proof.
  intros (Hs & Hr & Hc & Ha) Hl Hg. unfold replicator_turn, settled. rewrite Hs, Hr, Hc.
  rewrite (tbind_run (mret tt) _ env (r, w) tt (r, w) eq_refl), run_get_st, Hl. cbn [negb]. rewrite run_get_st, Ha.
  rewrite (Z.mod_small (rc_batch_size c)) by lia.
  rewrite (peer_answer_exact remote_env Hremote ctx (peer_site peer) remote_fuel (rc_batch_size c) wr (after r) Hwf Hg (proj1 Hbatch) Hsite)
    by (eapply Nat.le_lt_trans; [|exact Hfuel]; unfold log_after; destruct (after r); [apply length_filter|done]).
  unfold mbind at 1, T_bind at 1. destruct (handle_stream _ _ _ _ _ _ env (r, w)) as [[[seen|]|e] [r1 w1]]; [|done..].
  rewrite !run_get_st. unfold mbind, T_bind, on_db, attempt. cbn [fst snd].
  by destruct (update_replication_position_scoped _ _ _ _ _ env w1) as [x w2].
Qed.

Lemma run_batches_cons l ls r w :
  run_batches (l :: ls) env (r, w) =
    match settled l r w with
    | (Ok (Some _), s) => run_batches ls env s
    | (Ok None, s) => (Ok None, s)
    | (Err e, s) => (Err e, s)
    end.
Proof.
  cbn [run_batches]. unfold settled, mbind at 1, T_bind at 1.
  destruct (handle_stream _ _ _ _ _ _ env (r, w)) as [[[seen|]|e] [r1 w1]]; [|done..].
  rewrite !run_get_st. unfold mbind at 1, T_bind at 1, on_db, attempt. cbn [fst snd].
  by destruct (update_replication_position_scoped _ _ _ _ _ env w1) as [x w2].
Qed.

Lemma run_turns_batches k : forall i r w, polls i -> has_lease r = true -> good_after (after r) ->
  let b := Z.to_nat (rc_batch_size c) in
  run_turns fuel allocator c local_site holder scope peer (replicate k i) env (r, w) = run_batches (batches k b (unseen (after r))) env (r, w) /\
  forall u r' w', run_turns fuel allocator c local_site holder scope peer (replicate k i) env (r, w) = (Ok (Some u), (r', w')) ->
    unseen (after r') = drop (k * b) (unseen (after r)).
Proof.
  induction k as [|k IH]; intros i r w Hp Hl Hg b; [split; [done|]; by intros u r' w' [= _ <- _]|].
  rewrite batches_S, run_batches_cons. cbn [replicate run_turns]. unfold mbind at 1 2, T_bind at 1 2. rewrite (run_turn i r w Hp Hl Hg). fold b.
  unfold settled. destruct (handle_stream _ _ _ _ _ _ env (r, w)) as [[[seen|]|e] [r1 w1]] eqn:E; [|done..].
  destruct (handle_stream_moves _ _ _ _ _ _ _ (unseen_from_peer _ _) E) as [Ha1 Hl1]. rewrite Hl in Hl1.
  destruct (ends_next (after r) b Hg) as [Hg' Hu]. rewrite <- Ha1 in Hg', Hu.
  match goal with |- context [attempt ?m env w1] => set (w2 := (attempt m env w1).2) end.
  destruct (IH i r1 w2 Hp Hl1 Hg') as [IHa IHb]. fold b in IHa, IHb. rewrite Hu in IHa, IHb. split; [exact IHa|].
  intros u r' w' E'. rewrite (IHb u r' w' E'), drop_drop. f_equal.
Qed.
End Follows.

(** ** Operations on the wire *)

(** An operation as the other site sees it: a schema arrives without its version. *)
Definition wire_op (op : CdcOperation) : CdcOperation :=
  match op with SchemaRegister et v s => SchemaRegister et v (Schemas.set_version s 1) | op => op end.
Definition op_sendable (op : CdcOperation) : Prop :=
  match op with SchemaRegister _ _ s => map_Forall (fun _ e => edge_sendable e) (edges s) | _ => True end.

Section Mirrored.
Context {S : Type} `{Fdb S} `{HashIter} `{DebugValue} `{CharClass} `{UuidSource}.
Context `{Cbor NodeData} `{Cbor EdgeNodeData} `{Cbor EdgeData} `{Cbor EntitySchema} `{Cbor CdcEntry} `{Cbor NamespaceSettings} `{Cbor JobState} `{Cbor AuditRecord}.
Context (fuel : nat) (allocator : IdAllocator) (scope : Scope) (peer : ReplicationPeer) (env : Env).
Implicit Types (w : World S).

Lemma if_applied_op op (m : M S bool) op' w w' : if_applied op m env w = (Ok (Some (Some op')), w') -> op' = op.
Proof. unfold if_applied. intros (b & w1 & _ & E)%bind_ok. destruct b; [|done]. by injection E as <- _. Qed.

Lemma applied_as_written remote db ns ts op op' w w' : op_sendable op ->
  apply_replication_op fuel allocator remote db ns ts (cdc_op_to_proto op) env w = (Ok (Some (Some op')), w') -> op' = wire_op op.
Proof.
  intros Hs. unfold apply_replication_op, cdc_op_to_proto. destruct op; cbn [wire_op]; rewrite ?properties_roundtrip; try apply if_applied_op.
  - intros (b & w1 & _ & E)%bind_ok. destruct b as [[]|]; [|done..]. by injection E as <- _.
  - cbn [ok_or]. rewrite run_lift, (schema_roundtrip _ _ Hs), run_ret. destruct (negb _); [done|]. apply if_applied_op.
Qed.

(** What an entry mirrors are operations of the entry, in their order. *)
Lemma mirrored_as_written ts ops : forall mirrored r w l s', Forall op_sendable ops ->
  apply_operations fuel allocator scope peer ts (map cdc_op_to_proto ops) mirrored env (r, w) = (Ok (Some l), s') ->
  exists l', l = mirrored ++ l' /\ sublist l' (map wire_op ops).
Proof.
  induction ops as [|op ops IH]; intros mirrored r w l s' Hf; cbn [map apply_operations].
  { intros [= <- _]. exists []. by rewrite app_nil_r. }
  apply Forall_cons in Hf as [Hs Hf]. unfold mbind at 1, T_bind at 1, on_db, attempt. cbn [fst snd].
  destruct (apply_replication_op _ _ _ _ _ _ (cdc_op_to_proto op) env w) as [x w1] eqn:E.
  assert (Hskip : forall reason, (conflict scope peer reason ;; apply_operations fuel allocator scope peer ts (map cdc_op_to_proto ops) mirrored) env (r, w1)
      = (Ok (Some l), s') -> exists l', l = mirrored ++ l' /\ sublist l' (wire_op op :: map wire_op ops)).
  { intros reason. unfold mbind, T_bind. destruct (conflict scope peer reason env (r, w1)) as [[u|e] [r2 w2]]; [|done].
    intros E2. destruct (IH _ _ _ _ _ Hf E2) as (l' & -> & Hl). exists l'. split; [done|]. by constructor. }
  destruct x as [[[op'|]|]|e]; [|by apply Hskip|done|by apply Hskip].
  intros E2. destruct (IH _ _ _ _ _ Hf E2) as (l' & -> & Hl). exists (op' :: l'). rewrite <- app_assoc. split; [done|].
  rewrite (applied_as_written _ _ _ _ _ _ _ _ Hs E). by constructor.
Qed.
End Mirrored.

(** C9: following a peer.  Against a peer whose log stands still, a
    replicator that holds its lease and polls [k] times does exactly this: it
    handles the entries that the peer's site wrote after its checkpoint, each once
    and in the order of the log, in batches of the configured size, and saves its
    position after every batch.  When no cascade runs out of fuel it ends where the
    handled entries end, so that nothing is skipped and nothing is handled twice. *)
Theorem replication_covers_log {S} `{FdbLaws S} `{HashIter} `{DebugValue} `{CharClass} `{UuidSource}
    `{Cbor NodeData} `{Cbor EdgeNodeData} `{Cbor EdgeData} `{Cbor EntitySchema} `{CborLaws CdcEntry canon_entry storable_entry} `{Cbor NamespaceSettings} `{Cbor JobState}
    `{Cbor AuthPolicy} `{Cbor AuditRecord} `{Cbor ReplicationPosition} `{Cbor ReplicationLease}
    (fuel remote_fuel k : nat) (allocator : IdAllocator) (c : ReplicatorConfig) (local_site holder : string) (scope : Scope) (peer : ReplicationPeer)
    (env remote_env : Env) (wr w : World S) (i : TurnInput) (r : Replicator) :
  let db := scope_database scope in let ns := scope_namespace scope in let t := w_kv wr in
  let entries := unseen (mkRequestContext db ns) (peer_site peer) t in
  let bs := batches k (Z.to_nat (rc_batch_size c)) (entries (after r)) in
  no_faults remote_env -> cdc_wf db ns t -> peer_site peer <> "" -> 0 < rc_batch_size c < 2 ^ 32 ->
  (length (cdc_log db ns t) < remote_fuel)%nat -> polls c scope peer remote_fuel remote_env wr i ->
  has_lease r = true -> good_after (after r) ->
  run_turns fuel allocator c local_site holder scope peer (replicate k i) env (r, w) = run_batches fuel allocator scope peer bs env (r, w) /\
  concat bs = take (k * Z.to_nat (rc_batch_size c)) (entries (after r)) /\
  forall r' w', run_turns fuel allocator c local_site holder scope peer (replicate k i) env (r, w) = (Ok (Some tt), (r', w')) ->
    entries (after r') = drop (k * Z.to_nat (rc_batch_size c)) (entries (after r)).
Proof.
  intros db ns t entries bs Hr Hwf Hs Hb Hf Hp Hl Hg.
  destruct (run_turns_batches fuel allocator c local_site holder scope peer env remote_fuel remote_env Hr wr Hwf Hs Hb Hf k i r w Hp Hl Hg) as [E Ha].
  split; [exact E|]. split; [apply batches_concat|]. intros r' w'. apply Ha.
Qed.
