(* ===== verification/ReplicatorExamples.v ===== *)
(** * Replication on concrete logs

    A replicator of site 2 that follows site 1, and behaviours an operator does not
    expect.  Nothing of the program is modelled here. *)

From S2P Require Import Prelude Bytes Text Errors Types Encoding Subspace SchemaTypes Fdb MemFdb Cdc Consumer Ids Index.
From S2P Require Import TermIndex Namespace Jobs SchemaRegistry Node NodeAtomic NodeSpec NodeReplica Edge EdgeCascade NodeDelete Rows Replication Security Service Auth StateM RocksCache Wire GraphService ReplService Config Replicator ReplicatorSpec.

#[local] Instance replica_uuids : UuidSource | 100 := tick_uuid.

Definition db_ns_scope : Scope := mkScope "db" "ns".
Definition site_1 : ReplicationPeer := mkPeer "1" "site-1:50051".
#[local] Instance replica_chars : CharClass | 100 := ascii_class.
Definition follow_config : ReplicatorConfig := mkReplicatorConfig true 1 50 None default_tls false 1000 200 [site_1] [db_ns_scope].

(** Site 2 knows the schema and has no nodes. *)
Definition site_2_world : World MemKv := account_world.
Definition idle_replicator : Replicator := mkReplicator None 0 true.
Definition replica_ids : IdAllocator := mkIdAllocator 2 100.

(** A poll of site 1, whose log holds the creation of one account. *)
Definition poll : TurnInput :=
  mkTurnInput false false true (peer_answer quiet_env (mkRequestContext "db" "ns") "1" 5 (rc_batch_size follow_config mod 2 ^ 32) account_world1).

Definition follow_twice (env : Env) : result (option unit) * (Replicator * World MemKv) :=
  run_turns 3 replica_ids follow_config "2" "holder" db_ns_scope site_1 [poll; poll] env (idle_replicator, site_2_world).

Lemma replication_covers_log_witness :
  let entries := unseen (mkRequestContext "db" "ns") "1" (w_kv account_world1) in
  follow_twice quiet_env = run_batches 3 replica_ids db_ns_scope site_1 (batches 2 1 (entries None)) quiet_env (idle_replicator, site_2_world) /\
  (length (entries None) = 1)%nat /\ entries (after (follow_twice quiet_env).2.1) = [].
Proof.
  destruct (replication_covers_log 3 5 2 replica_ids follow_config "2" "holder" db_ns_scope site_1 quiet_env quiet_env account_world1 site_2_world
    poll idle_replicator) as (E & _ & _).
  - apply quiet_env_ok.
  - apply account_world1_ok.
  - discriminate.
  - split; reflexivity.
  - vm_compute. lia.
  - split; [reflexivity|]. split; [reflexivity|]. split; reflexivity.
  - reflexivity.
  - discriminate.
  - split; [exact E|]. split; vm_compute; reflexivity.
Defined.

(** What a client of site 2 finds, and the mirrored entries by site. *)
Definition replica_state (x : result (option unit) * (Replicator * World MemKv)) : option Props * list string * option Z :=
  (match (get_node "db" "ns" "Account" "1_0" quiet_env x.2.2).1 with Ok (Some n) => Some (sn_properties n) | _ => None end,
   map (fun e => entry_site e.2) (cdc_log "db" "ns" (w_kv x.2.2)),
   match (get_replication_positions_scoped "db" "ns" quiet_env x.2.2).1 with Ok [p] => Some (lag_events p) | _ => None end).

Theorem account_replicated : replica_state (follow_twice quiet_env) = (Some ada, ["1"], Some 0).
Proof. vm_compute. reflexivity. Qed.

(** ** A transient failure loses an operation *)

(** The database fails once, while the creation is applied. *)
Definition blip (n : nat) : Env := mkEnv (fun _ => 1) (fun k => if Nat.eqb k n then Some "timeout" else None).

(** The operation is counted as a conflict and the position moves past it: the
    second poll finds nothing to do, and the account never arrives.  The counter
    of conflicts is what is stored as the lag. *)
Theorem transient_failure_loses_operation :
  replica_state (follow_twice (blip 1)) = (None, [], Some 1) /\
  unseen (mkRequestContext "db" "ns") "1" (w_kv account_world1) (after (follow_twice (blip 1)).2.1) = [].
Proof. split; vm_compute; reflexivity. Qed.
