(* ===== verification/Server.v ===== *)
(** * The server

    How [pelago-server/src/main.rs] puts the parts together: the services behind the
    authentication interceptor, the tasks started in the background and the
    retention sweeps.  The theorems are about the configuration and the guard. *)

From S2P Require Import Prelude Bytes Text Errors Types Encoding Subspace SchemaTypes Fdb MemFdb Cdc Jobs Rows Replication Security Service Auth WatchState Config Replicator.

(** ** Serving requests *)

Inductive ServiceName :=
  | SchemaService | NodeService | EdgeService | QueryService | ReplicationService | AdminService | HealthService | WatchService | AuthService.

(** [add_service]: all services but the authentication service are registered with
    the interceptor. *)
Definition with_interceptor (s : ServiceName) : bool := match s with AuthService => false | _ => true end.

(** What the transport knows of a request. *)
Record Transport := mkTransport { peer_certs : option (list bytes); metadata : string -> option string }.

Inductive ServingStatus := Serving | NotServing.
(** [HealthServiceImpl::check] *)
Definition health_check (serving : bool) : ServingStatus := if serving then Serving else NotServing.

Section Guard.
Context {S : Type} `{Fdb S} `{Cbor AuthTokenSession} `{Sha256}.

Definition auth_interceptor (auth_required : bool) (mtls_subject_header : string) (req : Transport) : G (Server S) (option AuthPrincipal) :=
  if negb auth_required then mret None
  else
    p ← resolve_principal_from_tonic_request (to_ascii_lowercase mtls_subject_header) (peer_certs req) (metadata req);
    match p with
    | Some p => mret (Some p)
    | None => refuse (St.unauthenticated "authentication required: provide mTLS client cert, bearer token, or x-api-key")
    end.

(** A request as the server runs it: the handler gets the principal that the
    interceptor left in the request, or none. *)
Definition serve {A} (c : ServerConfig) (s : ServiceName) (req : Transport) (handler : option AuthPrincipal -> G (Server S) A) : G (Server S) A :=
  p ← (if with_interceptor s then auth_interceptor (cfg_auth_required c) (cfg_mtls_subject_header c) req else mret None);
  handler p.
End Guard.

(** ** Background tasks *)

Inductive BackgroundTask :=
  | RunJobs (database namespace : string)
  | Project (scope : Scope)
  | SweepAudit (retention_secs : Z) (batch : nat)
  | SweepWatchStates (retention_secs : Z) (batch : nat)
  | Replicate (scope : Scope) (peer : ReplicationPeer)
  | ServeDocs
  | ServeUi.

Definition retention_secs (days : Z) : Z := u64_saturating_mul (Z.max days 1) 86400.
Definition sweep_batch (n : Z) : nat := Z.to_nat (Z.max n 1).

Definition background_tasks (c : ServerConfig) : list BackgroundTask :=
  [RunJobs (cfg_default_database c) (cfg_default_namespace c)] ++
  (if cfg_cache_enabled c then map Project (resolve_cache_projector_scopes c) else []) ++
  (if cfg_audit_enabled c then [SweepAudit (retention_secs (cfg_audit_retention_days c)) (sweep_batch (cfg_audit_retention_batch c))] else []) ++
  (if cfg_watch_state_retention_enabled c
   then [SweepWatchStates (retention_secs (cfg_watch_state_retention_days c)) (sweep_batch (cfg_watch_state_retention_batch c))] else []) ++
  map (fun sp => Replicate sp.1 sp.2) (start_replicators (from_server_config c)) ++
  (if cfg_docs_enabled c then [ServeDocs] else []) ++ (if cfg_ui_enabled c then [ServeUi] else []).

(** One round of a retention task; a failure is logged and the task goes on. *)
Definition sweep_round {S} `{Fdb S} (fuel : nat) (t : BackgroundTask) : M S (result nat) :=
  match t with
  | SweepAudit secs batch => attempt (cleanup_audit_records secs batch)
  | SweepWatchStates secs batch => attempt (cleanup_query_watch_states fuel secs batch)
  | _ => mret (Ok 0%nat)
  end.

(** ** Scopes *)

Lemma push_scope_elem l (s x : Scope) : x ∈ push_scope l s <-> x ∈ l \/ x = s.
Proof. unfold push_scope. case_decide; [naive_solver|]. rewrite elem_of_app, list_elem_of_singleton. done. Qed.

Lemma push_scope_nodup l (s : Scope) : NoDup l -> NoDup (push_scope l s).
Proof.
  unfold push_scope. case_decide; [done|]. intros Hl. apply NoDup_app. split; [done|]. split; [|apply NoDup_singleton].
  intros x Hx ->%list_elem_of_singleton. done.
Qed.

Lemma push_all_elem l acc (x : Scope) : x ∈ foldl push_scope acc l <-> x ∈ acc \/ x ∈ l.
Proof.
  revert acc. induction l as [|s l IH]; intros acc; cbn [foldl]; [set_solver|]. rewrite IH, push_scope_elem. set_solver.
Qed.

Lemma push_all_nodup l acc : NoDup acc -> NoDup (foldl push_scope acc l : list Scope).
Proof. revert acc. induction l as [|s l IH]; intros acc Hacc; cbn [foldl]; [done|]. by apply IH, push_scope_nodup. Qed.

Lemma parse_scope_specs_nodup raw : NoDup (parse_scope_specs raw).
Proof.
  unfold parse_scope_specs. assert (forall acc, NoDup acc -> NoDup (foldl (fun scopes entry => match scope_entry entry with
    | Some s => push_scope scopes s | None => scopes end) acc (entries_of raw))) as Hl.
  { induction (entries_of raw) as [|e l IH]; intros acc Hacc; cbn [foldl]; [done|]. apply IH.
    destruct (scope_entry e); [by apply push_scope_nodup|done]. }
  apply Hl. constructor.
Qed.

(** The scopes of the background tasks.  No scope is projected twice.
    Unless the projected scopes are configured, the default scope and every scope
    that a replicator writes are projected into the cache, so that replicated
    changes reach the cached reads. *)
Theorem projected_scopes_cover (c : ServerConfig) :
  NoDup (resolve_cache_projector_scopes c) /\
  (cfg_cache_projector_scopes c = None -> cfg_cache_enabled c = true ->
    Project (mkScope (cfg_default_database c) (cfg_default_namespace c)) ∈ background_tasks c /\
    forall s p, Replicate s p ∈ background_tasks c -> Project s ∈ background_tasks c).
Proof.
  assert (Hsame : forall raw, parse_scopes raw = parse_scope_specs raw) by done.
  split.
  { unfold resolve_cache_projector_scopes. destruct (cfg_cache_projector_scopes c) as [raw|]; [pose proof (parse_scope_specs_nodup raw) as Hn;
      destruct (parse_scope_specs raw); [|exact Hn]|];
    (destruct (cfg_replication_scopes c) as [raw2|]; [destruct (parse_scope_specs raw2)|]);
    repeat first [apply push_scope_nodup | apply push_all_nodup]; constructor. }
  intros Hnone Hc. unfold background_tasks. rewrite Hc. split.
  - apply elem_of_app. right. apply elem_of_app. left. apply list_elem_of_fmap. eexists. split; [reflexivity|].
    unfold resolve_cache_projector_scopes. rewrite Hnone.
    destruct (cfg_replication_scopes c) as [raw2|]; [destruct (parse_scope_specs raw2)|]; rewrite ?push_all_elem, ?push_scope_elem; naive_solver.
  - intros s p Hin. apply elem_of_app. right. apply elem_of_app. left. apply list_elem_of_fmap. exists s. split; [done|].
    assert (Hs : s ∈ parse_replication_scopes c).
    { repeat (apply elem_of_app in Hin as [Hin|Hin]).
      - apply list_elem_of_singleton in Hin. done.
      - apply list_elem_of_fmap in Hin as (? & ? & _). done.
      - destruct (cfg_audit_enabled c); [apply list_elem_of_singleton in Hin; done|by apply not_elem_of_nil in Hin].
      - destruct (cfg_watch_state_retention_enabled c); [apply list_elem_of_singleton in Hin; done|by apply not_elem_of_nil in Hin].
      - apply list_elem_of_fmap in Hin as ([s' p'] & [= -> ->] & Hin). unfold start_replicators in Hin.
        destruct (enabled _); [|by apply not_elem_of_nil in Hin]. apply list_elem_of_bind in Hin as (s1 & Hin & Hs1).
        apply list_elem_of_bind in Hin as (p1 & Hin & _). apply list_elem_of_singleton in Hin. by injection Hin as -> ->.
      - destruct (cfg_docs_enabled c); [apply list_elem_of_singleton in Hin; done|by apply not_elem_of_nil in Hin].
      - destruct (cfg_ui_enabled c); [apply list_elem_of_singleton in Hin; done|by apply not_elem_of_nil in Hin]. }
    unfold parse_replication_scopes in Hs. unfold resolve_cache_projector_scopes. rewrite Hnone.
    destruct (cfg_replication_scopes c) as [raw2|]; [rewrite Hsame in Hs; destruct (parse_scope_specs raw2) as [|s0 l0]|];
      rewrite ?push_all_elem, ?push_scope_elem; [right; set_solver|by right|right; set_solver].
Qed.

(** ** The configuration file and the environment *)

Lemma fill_env_exact `{F64Display} table pairs env env' :
  NoDup pairs.*2 -> fill_env table pairs env = inl env' ->
  forall name, env' !! name =
    match env !! name with
    | Some v => Some v
    | None => kv ← List.find (fun kv => String.eqb kv.2 name) pairs; table !! kv.1 ≫= toml_value_to_string
    end.
Proof.
  revert env. induction pairs as [|[key en] pairs IH]; intros env Hnd E name; cbn [fill_env] in E.
  { injection E as ->. cbn [List.find]. by destruct (env' !! name). }
  rewrite fmap_cons, NoDup_cons in Hnd. destruct Hnd as [Hni Hnd]. cbn [List.find snd].
  assert (Hnone : List.find (fun kv => String.eqb kv.2 en) pairs = None).
  { destruct (List.find _ pairs) as [[k e]|] eqn:Ef; [|done]. apply List.find_some in Ef as [Hin He%String.eqb_eq]. cbn in He. subst e.
    exfalso. apply Hni, list_elem_of_fmap. exists (k, en). split; [done|]. by apply list_elem_of_In. }
  destruct (env !! en) as [v|] eqn:Een.
  - rewrite (IH _ Hnd E name). destruct (env !! name) as [v'|] eqn:Ev; [done|].
    destruct (String.eqb_spec en name) as [<-|]; [congruence|done].
  - destruct (table !! key) as [tv|] eqn:Et.
    + destruct (toml_value_to_string tv) as [s|] eqn:Es; [|done]. rewrite (IH _ Hnd E name).
      destruct (String.eqb_spec en name) as [<-|Hne].
      * rewrite lookup_insert_eq, Een. cbn [mbind option_bind fst]. rewrite Et. cbn. by rewrite Es.
      * rewrite lookup_insert_ne by done. done.
    + rewrite (IH _ Hnd E name). destruct (String.eqb_spec en name) as [<-|Hne]; [|done].
      rewrite Een, Hnone. cbn [mbind option_bind fst]. by rewrite Et.
Qed.

(** The configuration file.  When a file is loaded, every variable that
    was set keeps its value; a variable that was not set gets the text of its key
    in the file, if the file has the key; nothing else changes.  With no file the
    environment stays as it is. *)
Theorem config_file_fills_env `{F64Display} (file_exists : string -> bool) (read_text : string -> option string)
    (parse_toml : string -> option (option (gmap string Toml))) (args : list string) (env env' : ProcessEnv) :
  load_server_config_file_into_env file_exists read_text parse_toml args env = inl env' ->
  match bootstrap_config_path file_exists env args with
  | None => env' = env
  | Some path => exists table, (read_text path ≫= parse_toml) = Some (Some table) /\
      forall name, env' !! name =
        match env !! name with
        | Some v => Some v
        | None => kv ← List.find (fun kv => String.eqb kv.2 name) config_key_env_pairs; table !! kv.1 ≫= toml_value_to_string
        end
  end.
Proof.
  unfold load_server_config_file_into_env. destruct (bootstrap_config_path file_exists env args) as [path|]; [|by intros [= ->]].
  unfold require, mbind, Checked_bind. destruct (read_text path) as [raw|]; [|done]. cbn [option_bind].
  destruct (parse_toml raw) as [[table|]|]; [|done..].
  destruct (fill_env table config_key_env_pairs env) as [e|key] eqn:E; [|done]. intros [= ->]. exists table. split; [done|].
  apply fill_env_exact; [|exact E]. apply (bool_decide_eq_true_1 _). vm_compute. reflexivity.
Qed.

#[local] Instance example_floats : F64Display := {| show_f64 _ := "1.5" |}.

Lemma config_file_fills_env_witness :
  let env : ProcessEnv := {["PELAGO_SITE_ID" := "3"]} in
  let table : gmap string Toml := <["site_id" := TomlInteger 7]> {["cache_enabled" := TomlBoolean false]} in
  let load := load_server_config_file_into_env (fun p => String.eqb p "pelago-server.toml") (fun _ => Some "...") (fun _ => Some (Some table)) [] env in
  match load with inl env' => env' !! "PELAGO_SITE_ID" = Some "3" /\ env' !! "PELAGO_CACHE_ENABLED" = Some "false" | inr _ => False end.
Proof.
  intros env table load.
  pose proof (config_file_fills_env (fun p => String.eqb p "pelago-server.toml") (fun _ => Some "...") (fun _ => Some (Some table)) [] env) as Hc.
  fold load in Hc. assert (is_ok : exists env', load = inl env') by (eexists; vm_compute; reflexivity). destruct is_ok as [env' E]. rewrite E.
  destruct (Hc env' E) as (table' & [= <-] & Hn). split; [rewrite (Hn "PELAGO_SITE_ID")|rewrite (Hn "PELAGO_CACHE_ENABLED")]; vm_compute; reflexivity.
Defined.

(** ** The guard *)


(** ** What the composition leaves open *)

(** A policy that lets a principal do everything. *)
Definition open_policy : AuthPolicy := mkAuthPolicy "p1" "mallory" [mkPolicyPermission "*" "*" "*" ["*"] ""] 1.
#[local] Existing Instance tick_uuid.
#[local] Instance no_hash : Sha256 := {| sha256 _ := [] |}.

(** A request without credentials stores a policy although authentication is
    required, and the policy is in force afterwards. *)
Theorem auth_service_unguarded (c : ServerConfig) :
  cfg_auth_required c = true ->
  let anonymous := mkTransport None (fun _ => None) in
  let r := serve c AuthService anonymous (fun p => create_policy p (Some (mkRequestContext "db" "ns")) (Some open_policy)) quiet_env server0 in
  r.1 = inl open_policy /\
  (check_permission "mallory" "node.write" "db" "ns" "Person" quiet_env (sv_world r.2)).1 = Ok true.
Proof. intros _. split; vm_compute; reflexivity. Qed.

(** Jobs are run for the default scope only. *)
Theorem jobs_run_in_default_scope (c : ServerConfig) (db ns : string) :
  RunJobs db ns ∈ background_tasks c <-> db = cfg_default_database c /\ ns = cfg_default_namespace c.
Proof.
  unfold background_tasks. split.
  - intros Hin. repeat (apply elem_of_app in Hin as [Hin|Hin]).
    + apply list_elem_of_singleton in Hin. by injection Hin as -> ->.
    + destruct (cfg_cache_enabled c); [|by apply not_elem_of_nil in Hin]. by apply list_elem_of_fmap in Hin as (? & ? & _).
    + destruct (cfg_audit_enabled c); [by apply list_elem_of_singleton in Hin|by apply not_elem_of_nil in Hin].
    + destruct (cfg_watch_state_retention_enabled c); [by apply list_elem_of_singleton in Hin|by apply not_elem_of_nil in Hin].
    + by apply list_elem_of_fmap in Hin as (? & ? & _).
    + destruct (cfg_docs_enabled c); [by apply list_elem_of_singleton in Hin|by apply not_elem_of_nil in Hin].
    + destruct (cfg_ui_enabled c); [by apply list_elem_of_singleton in Hin|by apply not_elem_of_nil in Hin].
  - intros [-> ->]. apply elem_of_app. left. by apply list_elem_of_singleton.
Qed.

(** Mutual TLS without the path of an authority is not an error: the replicator runs
    without TLS and connects to the peer in the clear. *)
Theorem missing_ca_disables_tls (c : ServerConfig) (endpoint : string) :
  cfg_replication_tls_mode c = "mutual-tls" -> cfg_replication_tls_ca c = None -> starts_with endpoint "https://" = false ->
  tls (from_server_config c) = default_tls /\
  connect_replication_client (fun _ => true) (fun _ => None) (tls (from_server_config c)) endpoint = inl None.
Proof.
  intros Hm Hc He. assert (E : tls (from_server_config c) = default_tls).
  { unfold from_server_config, tls_from_server_config. cbn [tls]. rewrite Hm, Hc. reflexivity. }
  split; [exact E|]. rewrite E. unfold connect_replication_client. rewrite He. cbn. by rewrite andb_false_r.
Qed.
