(* ===== verification/Traversal.v ===== *)
(** * Traversal

    [pelago-query/src/traversal.rs]: breadth-first traversal along a list of hops,
    with filters on edges and nodes, a limit on results and a token from which a
    truncated traversal goes on.

    The clock of the timeout is an input: [late n] says whether the [n]-th look at
    it finds the timeout passed.  The nodes of one expansion are fetched by parallel
    tasks that only read, and their results are put into the order of the edges;
    here they are read in that order.  The loop takes fuel, and [None] is out of
    fuel. *)

From S2P Require Import Prelude Bytes Text Errors Types Encoding Subspace SchemaTypes Fdb Ids Index TermIndex Cdc SchemaRegistry Node Edge NodeDelete.
From S2P Require Import Predicate Cel Rows Service StateM RocksCache Wire GraphService.

Record TraversalConfig := mkTraversalConfig { tc_max_depth : Z; max_results : Z; timeout_ms : Z; buffer_size : Z }.

Definition default_traversal_config : TraversalConfig := mkTraversalConfig 10 1000 30000 100.

Inductive TraversalDirection := Outbound | Inbound | Both.

Record TraversalHop := mkHop {
  edge_labels : list string; direction : TraversalDirection; edge_filter : option string; node_filter : option string
}.

Definition new_hop (d : TraversalDirection) : TraversalHop := mkHop [] d None None.
Definition with_labels (h : TraversalHop) (labels : list string) : TraversalHop :=
  mkHop labels (direction h) (edge_filter h) (node_filter h).
Definition with_edge_filter (h : TraversalHop) (f : string) : TraversalHop := mkHop (edge_labels h) (direction h) (Some f) (node_filter h).
Definition with_node_filter (h : TraversalHop) (f : string) : TraversalHop := mkHop (edge_labels h) (direction h) (edge_filter h) (Some f).

Record PathHop := mkPathHop { hop_edge : StoredEdge; hop_node : StoredNode }.

Record TraversalPath := mkPath { start : StoredNode; path_hops : list PathHop }.

Definition new_path (s : StoredNode) : TraversalPath := mkPath s [].
Definition path_push (p : TraversalPath) (e : StoredEdge) (n : StoredNode) : TraversalPath :=
  mkPath (start p) (path_hops p ++ [mkPathHop e n]).
Definition end_node (p : TraversalPath) : StoredNode := match last (path_hops p) with Some h => hop_node h | None => start p end.
Definition path_depth (p : TraversalPath) : nat := length (path_hops p).

Record FrontierEntry := mkFrontier { fe_hop_idx : nat; fe_path : TraversalPath }.

Record ContinuationState := mkContinuation { cs_visited : list string; cs_frontier : list FrontierEntry }.

Record TraversalResults := mkTraversalResults {
  paths : list TraversalPath;
  truncated : bool;
  continuation_token : option bytes;
  frontier : list (string * string);
  tr_scanned_keys : Z;
  tr_result_bytes : Z
}.

Definition pelago_value_to_cel (v : Value) : CelValue :=
  match v with
  | VString s => CvString s
  | VInt n => CvInt n
  | VFloat f => CvFloat f
  | VBool b => CvBool b
  | VTimestamp t => CvInt t
  | VBytes b => CvBytes b
  | VNull => CvNull
  end.

(** The type and the identifier of a node. *)
Definition node_ident (n : StoredNode) : string * string := (sn_entity_type n, sn_id n).

(** [format!] of a type and an identifier. *)
Definition visited_key (entity_type node_id : string) : string := (entity_type ++ ":" ++ node_id)%string.

(** The target of an edge followed from the node [current], a type and an
    identifier. *)
Definition hop_target (d : TraversalDirection) (current : string * string) (e : StoredEdge) : string * string :=
  let far := (ref_entity_type (se_target e), ref_node_id (se_target e)) in
  let near := (ref_entity_type (se_source e), ref_node_id (se_source e)) in
  match d with
  | Outbound => far
  | Inbound => near
  | Both => if String.eqb (ref_entity_type (se_source e)) current.1 && String.eqb (ref_node_id (se_source e)) current.2
            then far else near
  end.

(** The edges whose targets have not been visited, with their targets. *)
Fixpoint pending_targets (d : TraversalDirection) (current : string * string) (visited : gset string) (edges : list StoredEdge)
    : list (StoredEdge * (string * string)) :=
  match edges with
  | [] => []
  | e :: rest =>
      let tgt := hop_target d current e in
      if decide (visited_key tgt.1 tgt.2 ∈ visited) then pending_targets d current visited rest
      else (e, tgt) :: pending_targets d current visited rest
  end.

Section Filters.
Context `{CelEngine}.

Definition filter_outcome (filter : string) (props : Props) : result bool :=
  match cel_compile filter with
  | inr message => Err (CelSyntax filter message)
  | inl program => match cel_execute program (pelago_value_to_cel <$> props) with inl (CvBool b) => Ok b | _ => Ok false end
  end.

Definition matches_edge_filter (e : StoredEdge) (filter : string) : result bool := filter_outcome filter (se_properties e).
Definition matches_node_filter (n : StoredNode) (filter : string) : result bool := filter_outcome filter (sn_properties n).

Fixpoint filter_edges (edges : list StoredEdge) (filter : string) : result (list StoredEdge) :=
  match edges with
  | [] => Ok []
  | e :: rest => m ← matches_edge_filter e filter; kept ← filter_edges rest filter; Ok (if m : bool then e :: kept else kept)
  end.

(** The fetched targets that enter the queue, in the order of the edges. *)
Fixpoint enqueue_targets (hop : TraversalHop) (current_path : TraversalPath) (hop_idx : nat) (visited : gset string)
    (fetched : list (StoredEdge * (string * string) * option StoredNode)) : result (gset string * list (TraversalPath * nat)) :=
  match fetched with
  | [] => Ok (visited, [])
  | (_, None) :: rest => enqueue_targets hop current_path hop_idx visited rest
  | (e, tgt, Some target_node) :: rest =>
      m ← match node_filter hop with Some f => matches_node_filter target_node f | None => Ok true end;
      if negb m then enqueue_targets hop current_path hop_idx visited rest
      else if decide (visited_key tgt.1 tgt.2 ∈ visited) then enqueue_targets hop current_path hop_idx visited rest
      else
        r ← enqueue_targets hop current_path hop_idx ({[visited_key tgt.1 tgt.2]} ∪ visited) rest;
        Ok (r.1, (path_push current_path e target_node, Datatypes.S hop_idx) :: r.2)
  end.
End Filters.

Definition estimate_traversal_result_bytes `{Cbor StoredNode} `{Cbor StoredEdge} (l : list TraversalPath) : Z :=
  let size {A} `{Cbor A} (a : A) : Z := match encode_cbor a with Ok b => Z.of_nat (length b) | Err _ => 0 end in
  foldr (fun p acc =>
    usize_saturating_add (size (start p)) (foldr (fun h acc => size (hop_node h) + size (hop_edge h) + acc) 0 (path_hops p)) + acc) 0 l.

Section Traverse.
Context {S : Type} `{Fdb S} `{Cbor NodeData} `{Cbor EdgeData} `{Cbor StoredNode} `{Cbor StoredEdge} `{Cbor ContinuationState}.
Context `{HashIter} `{CelEngine}.
Context (config : TraversalConfig) (late : nat -> bool) (database namespace : string).

Definition get_edges_for_hop (entity_type node_id : string) (hop : TraversalHop) (read_version : option Z) : M S (list StoredEdge) :=
  let label_filter := match edge_labels hop with [l] => Some l | _ => None end in
  let outgoing := list_edges_at_read_version database namespace entity_type node_id label_filter 1000 read_version in
  let incoming := list_incoming_edges_at_read_version database namespace entity_type node_id label_filter 1000 read_version in
  edges ← match direction hop with
          | Outbound => outgoing
          | Inbound => incoming
          | Both => o ← outgoing; i ← incoming; mret (merge_edges ∅ (o ++ i))
          end;
  mret (if Nat.ltb 1 (length (edge_labels hop)) then List.filter (fun e => bool_decide (se_label e ∈ edge_labels hop)) edges else edges).

Fixpoint fetch_targets (pending : list (StoredEdge * (string * string))) (read_version : option Z)
    : M S (list (StoredEdge * (string * string) * option StoredNode)) :=
  match pending with
  | [] => mret []
  | (e, tgt) :: rest =>
      n ← get_node_at_read_version database namespace tgt.1 tgt.2 read_version;
      r ← fetch_targets rest read_version;
      mret ((e, tgt, n) :: r)
  end.

(** One entry of the queue expanded: the visited keys, the new entries and the
    number of edges read. *)
Definition expand (hop : TraversalHop) (current_path : TraversalPath) (hop_idx : nat) (visited : gset string) (read_version : option Z)
    : M S (gset string * list (TraversalPath * nat) * nat) :=
  let current_node := end_node current_path in
  edges ← get_edges_for_hop (sn_entity_type current_node) (sn_id current_node) hop read_version;
  filtered ← lift (match edge_filter hop with Some f => filter_edges edges f | None => Ok edges end);
  fetched ← fetch_targets (pending_targets (direction hop) (node_ident current_node) visited filtered) read_version;
  r ← lift (enqueue_targets hop current_path hop_idx visited fetched);
  mret (r, length edges).

Definition as_u32 (n : nat) : Z := Z.of_nat n mod 2 ^ 32.

Record Bfs := mkBfs { bfs_results : list TraversalPath; bfs_visited : gset string; bfs_queue : list (TraversalPath * nat); bfs_scanned : Z }.

Fixpoint bfs (fuel looks : nat) (hops : list TraversalHop) (read_version : option Z) (st : Bfs) : M S (option Bfs) :=
  match bfs_queue st with
  | [] => mret (Some st)
  | (current_path, hop_idx) :: rest =>
      match fuel with
      | O => mret None
      | Datatypes.S fuel =>
          let done_with_path := mkBfs (bfs_results st ++ [current_path]) (bfs_visited st) rest (bfs_scanned st) in
          if late looks then throw (TraversalTimeout (tc_max_depth config) (as_u32 hop_idx))
          else if max_results config <=? Z.of_nat (length (bfs_results st)) then mret (Some st)
          else
            match hops !! hop_idx with
            | None => bfs fuel (Datatypes.S looks) hops read_version done_with_path
            | Some hop =>
                if tc_max_depth config <=? as_u32 hop_idx then bfs fuel (Datatypes.S looks) hops read_version done_with_path
                else
                  x ← expand hop current_path hop_idx (bfs_visited st) read_version;
                  let '(visited, entries, n) := x in
                  bfs fuel (Datatypes.S looks) hops read_version
                    (mkBfs (bfs_results st) visited (rest ++ entries) (usize_saturating_add (bfs_scanned st) (Z.of_nat n)))
            end
      end
  end.

Definition initial_state (start_entity_type start_node_id : string) (start_node : StoredNode) (token : option bytes) : result Bfs :=
  match token with
  | Some b =>
      state ← decode_cbor b;
      Ok (mkBfs [] (list_to_set (cs_visited state)) (map (fun e => (fe_path e, fe_hop_idx e)) (cs_frontier state)) 0)
  | None => Ok (mkBfs [] {[visited_key start_entity_type start_node_id]} [(new_path start_node, 0%nat)] 0)
  end.

(** Iteration over the visited set, in the unspecified order of the hash map. *)
Definition visited_vec (s : gset string) : list string := (hm_iter (mapset.mapset_car s)).*1.

Definition traversal_results (st : Bfs) : result TraversalResults :=
  let is_truncated := (max_results config <=? Z.of_nat (length (bfs_results st))) && negb (bool_decide (bfs_queue st = [])) in
  token ← (if is_truncated && negb (bool_decide (bfs_queue st = [])) then
             let entries := map (fun e => mkFrontier e.2 e.1) (bfs_queue st) in
             b ← encode_cbor (mkContinuation (visited_vec (bfs_visited st)) entries);
             Ok (Some b, map (fun e => node_ident (end_node (fe_path e))) entries)
           else Ok (None, []));
  Ok (mkTraversalResults (bfs_results st) is_truncated token.1 token.2 (bfs_scanned st) (estimate_traversal_result_bytes (bfs_results st))).

Definition traverse_with_options (fuel : nat) (start_entity_type start_node_id : string) (hops : list TraversalHop)
    (token : option bytes) (read_version : option Z) : M S (option TraversalResults) :=
  node ← get_node_at_read_version database namespace start_entity_type start_node_id read_version;
  match node with
  | None => throw (NodeNotFound start_entity_type start_node_id)
  | Some start_node =>
      st ← lift (initial_state start_entity_type start_node_id start_node token);
      st ← bfs fuel 0 hops read_version st;
      match st with
      | None => mret None
      | Some st => r ← lift (traversal_results st); mret (Some r)
      end
  end.

Definition traverse (fuel : nat) (start_entity_type start_node_id : string) (hops : list TraversalHop) (token : option bytes)
    : M S (option TraversalResults) :=
  traverse_with_options fuel start_entity_type start_node_id hops token None.

(** What the receiver of a stream gets: the paths, or one error. *)
Definition traverse_streaming (fuel : nat) (start_entity_type start_node_id : string) (hops : list TraversalHop)
    : M S (option (list (result TraversalPath))) :=
  r ← attempt (traverse fuel start_entity_type start_node_id hops None);
  mret (match r with
        | Ok None => None
        | Ok (Some r) => Some (map Ok (paths r))
        | Err e => Some [Err e]
        end).
End Traverse.
