(* ===== verification/TraversalSpec.v ===== *)
(** * What a traversal finds

    The traversal with its queue is compared with the waves of the graph: the nodes
    reached first after one hop, two hops and so on.  Following the tokens of a
    truncated traversal gives the whole last wave, each node once, by a path that
    the store contains. *)

From S2P Require Import Prelude Bytes Text Errors Types Encoding Subspace SchemaTypes Fdb Ids Index TermIndex Cdc SchemaRegistry.
From S2P Require Import Node NodeAtomic NodeSpec Edge EdgeSpec EdgeList NodeDelete Predicate Cel Rows Service Watch WatchSpec.
From S2P Require Import StateM RocksCache RocksSpec Wire GraphService GraphSpec Traversal.

(** ** The graph in the store *)

Section Graph.
Context {S : Type} `{FdbLaws S} `{CborLaws EdgeData canon_edge storable_edge} `{Cbor NodeData} `{CelEngine}.
Context (db ns : string) (conf : string -> option EntitySchema) (t : S).
Implicit Types (hop : TraversalHop) (x y : string * string) (e : StoredEdge) (n : StoredNode) (p : TraversalPath).

(** The node stored under a type and an identifier. *)
Definition node_at y : option StoredNode :=
  match parse_node_id y.2 with
  | Ok id =>
      b ← kv_get t (NodeSpec.node_key db ns y.1 (NodeIds.to_bytes id));
      match decode_cbor b with Ok d => Some (stored_of y.2 y.1 d) | Err _ => None end
  | Err _ => None
  end.

(** A filter that compiles, and its outcome. *)
Definition compiles (f : option string) : Prop := forall s, f = Some s -> exists c, cel_compile s = inl c.
Definition holds_filter (f : option string) (props : Props) : bool :=
  match f with Some s => match filter_outcome s props with Ok b => b | Err _ => false end | None => true end.

(** The stored edges that a hop may follow from a node. *)
Definition incident hop x (d : EdgeData) : Prop :=
  match direction hop with
  | Outbound => leaves db ns conf x.1 x.2 None d
  | Inbound => enters db ns conf x.1 x.2 None d
  | Both => leaves db ns conf x.1 x.2 None d \/ enters db ns conf x.1 x.2 None d
  end.
Definition labelled hop e : Prop := edge_labels hop = [] \/ se_label e ∈ edge_labels hop.

(** The edge [e] takes the hop from [x] to the node [n]. *)
Definition takes hop x e n : Prop :=
  (exists d, stored db ns conf t d /\ e = view d /\ incident hop x d) /\ labelled hop e /\
  holds_filter (edge_filter hop) (se_properties e) = true /\
  node_at (hop_target (direction hop) x e) = Some n /\ holds_filter (node_filter hop) (sn_properties n) = true.

(** A path along the hops. *)
Fixpoint walks x (hops : list TraversalHop) (phs : list PathHop) : Prop :=
  match hops, phs with
  | [], [] => True
  | hop :: hops, ph :: phs => takes hop x (hop_edge ph) (hop_node ph) /\ walks (node_ident (hop_node ph)) hops phs
  | _, _ => False
  end.

(** The nodes seen after [i] hops, and those seen first then. *)
Fixpoint waves x (hops : list TraversalHop) (i : nat) : (string * string -> Prop) * (string * string -> Prop) :=
  match i with
  | O => (eq x, eq x)
  | Datatypes.S i =>
      let '(seen, last) := waves x hops i in
      let next y := (exists z hop e n, last z /\ hops !! i = Some hop /\ takes hop z e n /\ y = node_ident n) /\ ~ seen y in
      (fun y => seen y \/ next y, next)
  end.

(** The store is one a traversal can read: well-formed edges, at most a thousand
    rows at a node, identifiers that parse, rows that decode to values the codec
    keeps, and edges told apart by their identities. *)
Record walkable : Prop := {
  wk_edges : edges_wf db ns conf t;
  wk_out : forall et id o, (length (kv_range t (forward_prefix db ns et id o) (forward_prefix db ns et id o ++ [Byte.xff])) <= 1000)%nat;
  wk_in : forall et id o, (length (kv_range t (reverse_prefix db ns et id o) (reverse_prefix db ns et id o ++ [Byte.xff])) <= 1000)%nat;
  wk_ids : forall d, stored db ns conf t d ->
    is_Some (ok (parse_node_id (ref_node_id (se_source (view d))))) /\ is_Some (ok (parse_node_id (ref_node_id (se_target (view d)))));
  wk_rows : forall et id b, kv_get t (NodeSpec.node_key db ns et id) = Some b ->
    exists d, decode_cbor b = Ok d /\ storable_props (nd_properties d) /\ canon_props (nd_properties d) = nd_properties d;
  wk_kept : forall d, stored db ns conf t d -> storable_props (ed_properties d) /\ canon_props (ed_properties d) = ed_properties d;
  wk_idents : forall d d', stored db ns conf t d -> stored db ns conf t d' -> edge_identity (view d) = edge_identity (view d') -> view d = view d'
}.
End Graph.

(** ** Keys of visited nodes *)

Lemma split_on_elem sep l c : c ∈ l -> c = sep \/ exists p, p ∈ split_on sep l /\ c ∈ p.
Proof.
  induction l as [|a l IH]; [by intros ?%not_elem_of_nil|]. cbn [split_on]. intros [->|Hc]%elem_of_cons.
  - destruct (decide (a = sep)); [by left|]. right. destruct (split_on sep l) as [|p ps]; eexists; (split; [left|left]).
  - destruct (IH Hc) as [->|(p & Hp & Hin)]; [by left|]. right. destruct (decide (a = sep)).
    + exists p. split; [by right|done].
    + destruct (split_on sep l) as [|q qs]; [by apply not_elem_of_nil in Hp|].
      apply elem_of_cons in Hp as [->|Hp]; [exists (a :: q); split; [left|by right]|exists p; split; [by right|done]].
Qed.

Lemma parse_digits_elem max acc l n c : parse_digits max acc l = Some n -> c ∈ l -> is_digit c = true.
Proof.
  revert acc. induction l as [|a l IH]; intros acc; [by intros _ ?%not_elem_of_nil|]. cbn [parse_digits].
  destruct (is_digit a) eqn:E; [|done]. cbv zeta. destruct (_ <=? max); [|done]. intros Hp [->|Hc]%elem_of_cons; [done|eauto].
Qed.

Lemma parse_u_elem max l n c : parse_u max l = Some n -> c ∈ l -> is_digit c = true \/ u8b c = 43.
Proof.
  unfold parse_u. destruct l as [|a l]; [done|].
  assert (Hd : parse_digits max 0 (a :: l) = Some n -> c ∈ a :: l -> is_digit c = true) by apply parse_digits_elem.
  destruct (Z.eqb_spec (u8b a) 43) as [E|].
  - destruct l as [|b l]; [done|]. intros Hp [->|Hc]%elem_of_cons; [by right|left]. by eapply parse_digits_elem.
  - destruct l; eauto.
Qed.

Lemma parsed_no_colon id n : parse_node_id id = Ok n -> Byte.x3a ∉ sbytes id.
Proof.
  unfold parse_node_id, NodeIds.from_str. intros Hp Hc.
  destruct (split_on_elem Byte.x5f _ _ Hc) as [|(p & Hin & Hcp)]; [done|].
  destruct (split_on Byte.x5f (sbytes id)) as [|p0 [|p1 [|]]]; try done.
  destruct (parse_u U8_MAX p0) eqn:E0; [|done]. destruct (parse_u U64_MAX p1) eqn:E1; [|done].
  rewrite !elem_of_cons, elem_of_nil in Hin. destruct Hin as [->|[->|[]]].
  - by destruct (parse_u_elem _ _ _ _ E0 Hcp).
  - by destruct (parse_u_elem _ _ _ _ E1 Hcp).
Qed.

Definition key_of (y : string * string) : string := visited_key y.1 y.2.
Definition parses (y : string * string) : Prop := is_Some (ok (parse_node_id y.2)).

Lemma key_of_inj y z : parses y -> parses z -> key_of y = key_of z -> y = z.
Proof.
  destruct y as [et id], z as [et' id']. unfold parses. cbn [snd].
  destruct (parse_node_id id) eqn:E; [|by intros [? ?]]. destruct (parse_node_id id') eqn:E'; [|by intros ? [? ?]].
  intros _ _. apply (watch_key_inj et id et' id'); by eapply parsed_no_colon.
Qed.

Definition path_end (p : TraversalPath) : string * string := node_ident (end_node p).

Lemma end_push p e n : end_node (path_push p e n) = n.
Proof. unfold end_node, path_push. cbn [path_hops]. by rewrite last_snoc. Qed.

(** ** Level by level

    The reference: all entries of a level are expanded before the next level. *)

Section Levels.
Context (fetch : string * string -> option StoredNode) (out : TraversalHop -> string * string -> list StoredEdge).
Context (accepts : TraversalHop -> StoredNode -> bool).
Context (fetch_ident : forall y n, fetch y = Some n -> node_ident n = y /\ parses y).
Implicit Types (hop : TraversalHop) (x y z : string * string) (e : StoredEdge) (n : StoredNode) (p : TraversalPath) (V : gset string).

Fixpoint spread hop p V (es : list StoredEdge) : gset string * list TraversalPath :=
  match es with
  | [] => (V, [])
  | e :: es =>
      let y := hop_target (direction hop) (path_end p) e in
      match fetch y with
      | Some n =>
          if accepts hop n && negb (bool_decide (key_of y ∈ V)) then
            let r := spread hop p ({[key_of y]} ∪ V) es in (r.1, path_push p e n :: r.2)
          else spread hop p V es
      | None => spread hop p V es
      end
  end.

Fixpoint level hop V (ps : list TraversalPath) : gset string * list TraversalPath :=
  match ps with
  | [] => (V, [])
  | p :: ps =>
      let r := spread hop p V (out hop (path_end p)) in
      let q := level hop r.1 ps in (q.1, r.2 ++ q.2)
  end.

Fixpoint levels (hops : list TraversalHop) V (ps : list TraversalPath) : gset string * list TraversalPath :=
  match hops with
  | [] => (V, ps)
  | hop :: hops => let r := level hop V ps in levels hops r.1 r.2
  end.

Definition cand hop x e n : Prop := e ∈ out hop x /\ fetch (hop_target (direction hop) x e) = Some n /\ accepts hop n = true.

(** What one step adds: paths to nodes not seen before, each node once. *)
Record adds (V V' : gset string) (ps : list TraversalPath) (reach : string * string -> Prop) : Prop := {
  ad_seen : forall k, k ∈ V' <-> k ∈ V \/ k ∈ key_of <$> (path_end <$> ps);
  ad_new : forall y, y ∈ path_end <$> ps <-> reach y /\ key_of y ∉ V;
  ad_once : NoDup (path_end <$> ps);
  ad_parse : forall y, reach y -> parses y
}.

Lemma adds_nil V (reach : string * string -> Prop) : (forall y, ~ reach y) -> adds V V [] reach.
Proof.
  intros Hn. split; [set_solver| |constructor|by intros y ?%Hn].
  intros y. split; [by intros ?%not_elem_of_nil|by intros [?%Hn _]].
Qed.

Lemma adds_app V V1 V2 ps qs (f g h : string * string -> Prop) :
  adds V V1 ps f -> adds V1 V2 qs g -> (forall y, h y <-> f y \/ g y) -> adds V V2 (ps ++ qs) h.
Proof.
  intros [Hs1 Hn1 Ho1 Hp1] [Hs2 Hn2 Ho2 Hp2] Hh.
  assert (Hp : forall y, h y -> parses y) by (intros y [?|?]%Hh; auto).
  assert (Hk : forall y, h y -> key_of y ∈ key_of <$> (path_end <$> ps) -> y ∈ path_end <$> ps).
  { intros y Hy (z & Hkz & Hz)%list_elem_of_fmap. apply key_of_inj in Hkz as ->; [done|auto|]. apply Hp1, Hn1, Hz. }
  split; [|intros y| |done].
  - intros k. rewrite Hs2, Hs1, !fmap_app, elem_of_app. tauto.
  - rewrite fmap_app, elem_of_app, Hn1, Hn2, Hh, Hs1. split; [naive_solver|]. intros [[Hy|Hy] Hv]; [by left|].
    destruct (decide (y ∈ path_end <$> ps)) as [Hin|Hin]; [left; by apply Hn1|right]. split; [done|]. intros [?|Hk1]; [done|].
    apply Hin, Hk; [|done]. apply Hh. by right.
  - rewrite fmap_app. apply NoDup_app. split; [done|]. split; [|done]. intros y Hy [_ Hv]%Hn2. apply Hv, Hs1. right.
    by apply list_elem_of_fmap_2.
Qed.

Lemma spread_adds hop p es V : adds V (spread hop p V es).1 (spread hop p V es).2
  (fun y => exists e n, e ∈ es /\ fetch (hop_target (direction hop) (path_end p) e) = Some n /\ accepts hop n = true /\ y = node_ident n).
Proof.
  revert V. induction es as [|e es IH]; intros V; cbn [spread]; [apply adds_nil; intros y (? & ? & Hin & _); by apply not_elem_of_nil in Hin|].
  set (tgt := hop_target _ _ e).
  assert (Hskip : forall V', adds V V' [] (fun y => exists n, fetch tgt = Some n /\ accepts hop n = true /\ y = node_ident n) ->
    adds V (spread hop p V' es).1 (spread hop p V' es).2 (fun y => exists e' n, e' ∈ e :: es /\
      fetch (hop_target (direction hop) (path_end p) e') = Some n /\ accepts hop n = true /\ y = node_ident n)).
  { intros V' Ha. eapply (adds_app V V' _ []); [exact Ha|apply IH|]. intros y. split; [|set_solver].
    intros (e' & n & [->|Hin]%elem_of_cons & Hf & Hac & Hy); [left; eauto|right; eauto 8]. }
  destruct (fetch tgt) as [n|] eqn:Ef; [|apply Hskip, adds_nil; naive_solver].
  destruct (fetch_ident _ _ Ef) as [Hid Hpar]. destruct (accepts hop n) eqn:Ea; cbn [andb];
    [|apply Hskip, adds_nil; intros y (n' & [= <-] & Ha & _); congruence].
  destruct (bool_decide_reflect (key_of tgt ∈ V)) as [Hv|Hv]; cbn [negb].
  { apply Hskip. split; [set_solver| |constructor|intros y (n' & [= <-] & _ & ->); by rewrite Hid].
    intros y. split; [by intros ?%not_elem_of_nil|]. intros [(n' & [= <-] & _ & ->) Hn]. by rewrite Hid in Hn. }
  cbn [fst snd]. eapply (adds_app V ({[key_of tgt]} ∪ V) _ [path_push p e n]); [|apply IH|].
  - assert (Hend : path_end <$> [path_push p e n] = [tgt]) by (cbn [fmap list_fmap]; unfold path_end; by rewrite end_push, Hid).
    instantiate (1 := fun y => y = tgt). split; rewrite ?Hend.
    + set_solver.
    + intros y. rewrite list_elem_of_singleton. naive_solver.
    + apply NoDup_singleton.
    + by intros y ->.
  - intros y. split.
    + intros (e' & n' & [->|Hin]%elem_of_cons & Hf & Hac & Hy); [left; naive_solver|right; eauto 8].
    + intros [->|(e' & n' & Hin & ?)]; [exists e, n; split; [left|]; naive_solver|exists e', n'; set_solver].
Qed.

Lemma level_adds hop ps V : adds V (level hop V ps).1 (level hop V ps).2
  (fun y => exists p e n, p ∈ ps /\ cand hop (path_end p) e n /\ y = node_ident n).
Proof.
  revert V. induction ps as [|p ps IH]; intros V; cbn [level]; [apply adds_nil; intros y (? & ? & ? & Hin & _); by apply not_elem_of_nil in Hin|].
  eapply adds_app; [apply spread_adds|apply IH|]. unfold cand. intros y. cbv beta. split.
  - intros (q & e & n & [->|Hin]%elem_of_cons & (? & ? & ?) & ?); [left|right]; eauto 10.
  - intros [(e & n & ? & ? & ? & ->)|(q & e & n & Hin & ? & ->)]; [exists p, e, n; set_solver|exists q, e, n; set_solver].
Qed.

Lemma level_wave hop V ps (seen last : string * string -> Prop) :
  (forall y, parses y -> key_of y ∈ V <-> seen y) -> (forall y, y ∈ path_end <$> ps <-> last y) ->
  let next y := (exists z e n, last z /\ cand hop z e n /\ y = node_ident n) /\ ~ seen y in
  (forall y, parses y -> key_of y ∈ (level hop V ps).1 <-> seen y \/ next y) /\
  (forall y, y ∈ path_end <$> (level hop V ps).2 <-> next y) /\ NoDup (path_end <$> (level hop V ps).2).
Proof.
  intros Hseen Hlast next. destruct (level_adds hop ps V) as [Hs Hn Ho Hp].
  assert (Hnext : forall y, y ∈ path_end <$> (level hop V ps).2 <-> next y).
  { intros y. rewrite Hn. unfold next. split.
    - intros [Hr Hv]. pose proof (Hp y Hr) as Hy. rewrite Hseen in Hv by done. split; [|done].
      destruct Hr as (p & e & n & Hin & Hc & ->). exists (path_end p), e, n. split; [|done]. apply Hlast. by apply list_elem_of_fmap_2.
    - intros [(z & e & n & Hz & Hc & ->) Hv]. apply Hlast, list_elem_of_fmap in Hz as (p & -> & Hin).
      assert (Hr : exists p' e' n', p' ∈ ps /\ cand hop (path_end p') e' n' /\ node_ident n = node_ident n') by eauto 8.
      split; [done|]. rewrite Hseen by (by apply Hp). done. }
  split; [|done]. intros y Hy. rewrite Hs, Hseen, <- Hnext by done. split; [|intros [?|?]; [by left|right; by apply list_elem_of_fmap_2]].
  intros [?|(z & Hk & Hz)%list_elem_of_fmap]; [by left|right]. apply key_of_inj in Hk as ->; [done..|]. by apply Hp, Hn.
Qed.

Lemma spread_from hop p q es : forall V, q ∈ (spread hop p V es).2 ->
  exists e n, e ∈ es /\ fetch (hop_target (direction hop) (path_end p) e) = Some n /\ accepts hop n = true /\ q = path_push p e n.
Proof.
  induction es as [|e es IH]; intros V; cbn [spread]; [by intros ?%not_elem_of_nil|].
  assert (Hrec : forall V', q ∈ (spread hop p V' es).2 -> exists e' n, e' ∈ e :: es /\
    fetch (hop_target (direction hop) (path_end p) e') = Some n /\ accepts hop n = true /\ q = path_push p e' n).
  { intros V' (e' & n & Hin & ?)%IH. exists e', n. split; [by right|done]. }
  destruct (fetch _) as [n|] eqn:Ef; [|apply Hrec]. destruct (accepts hop n) eqn:Ea; cbn [andb]; [|apply Hrec].
  destruct (negb _); [|apply Hrec]. cbn [snd]. intros [->|Hin]%elem_of_cons; [|by eapply Hrec]. exists e, n. split; [left|done].
Qed.

Lemma level_from hop q ps : forall V, q ∈ (level hop V ps).2 ->
  exists p e n, p ∈ ps /\ cand hop (path_end p) e n /\ q = path_push p e n.
Proof.
  induction ps as [|p ps IH]; intros V; cbn [level]; [by intros ?%not_elem_of_nil|]. cbn [snd]. intros [Hin|Hin]%elem_of_app.
  - apply spread_from in Hin as (e & n & ? & ? & ? & ->). exists p, e, n. split; [left|]. by unfold cand.
  - apply IH in Hin as (p' & e & n & ? & ? & ->). exists p', e, n. split; [by right|done].
Qed.

(** The number of entries that pass through the queue. *)
Fixpoint entries (hops : list TraversalHop) V (ps : list TraversalPath) : nat :=
  length ps + match hops with [] => 0 | hop :: hops => entries hops (level hop V ps).1 (level hop V ps).2 end.

Lemma spread_length hop p es : forall V, (length (spread hop p V es).2 <= length es)%nat.
Proof.
  induction es as [|e es IH]; intros V; cbn [spread]; [done|]. destruct (fetch _) as [n|]; [|etrans; [apply IH|cbn; lia]].
  destruct (_ && _); [cbn [length snd]; specialize (IH ({[key_of (hop_target (direction hop) (path_end p) e)]} ∪ V)); lia|].
  etrans; [apply IH|cbn; lia].
Qed.

Fixpoint walk_bound (n : nat) : nat := match n with O => 1 | Datatypes.S n => 1 + 2000 * walk_bound n end.

Context (out_length : forall hop x, (length (out hop x) <= 2000)%nat).

Lemma level_length hop ps : forall V, (length (level hop V ps).2 <= 2000 * length ps)%nat.
Proof.
  induction ps as [|p ps IH]; intros V; cbn [level snd]; [done|]. rewrite length_app. cbn [length].
  pose proof (spread_length hop p (out hop (path_end p)) V). pose proof (out_length hop (path_end p)).
  specialize (IH (spread hop p V (out hop (path_end p))).1). lia.
Qed.

Lemma entries_bound hops : forall V ps, (entries hops V ps <= length ps * walk_bound (length hops))%nat.
Proof.
  induction hops as [|hop hops IH]; intros V ps; cbn [entries length walk_bound]; [lia|].
  etrans; [apply Nat.add_le_mono_l, IH|]. pose proof (level_length hop ps V). nia.
Qed.

Lemma levels_entries hops : forall V ps, (length (levels hops V ps).2 <= entries hops V ps)%nat.
Proof. induction hops as [|hop hops IH]; intros V ps; cbn [levels entries snd]; [lia|]. specialize (IH (level hop V ps).1 (level hop V ps).2). lia. Qed.
End Levels.

(** ** The code reads the graph *)

Section Walk.
Context {S : Type} `{FdbLaws S} `{CborLaws EdgeData canon_edge storable_edge} `{Cbor NodeData} `{CelEngine}.
Context (env : Env) (Henv : no_faults env).
Context (db ns : string) (conf : string -> option EntitySchema) (t : S) (Hwk : walkable db ns conf t).
Implicit Types (hop : TraversalHop) (x y : string * string) (e : StoredEdge) (n : StoredNode) (p : TraversalPath) (w : World S).
Local Abbreviation node_at := (node_at db ns t).
Local Abbreviation stored := (stored db ns conf t).
Local Abbreviation takes := (takes db ns conf t).

Definition label_filter hop : option string := match edge_labels hop with [l] => Some l | _ => None end.
Definition listed_out hop x : list StoredEdge := map (fun kv => view_row kv.2) (out_rows db ns t x.1 x.2 (label_filter hop) 1000).
Definition listed_in hop x : list StoredEdge :=
  List.filter (at_node x.1 x.2) (map (fun kv => view_row kv.2) (in_rows db ns t x.1 x.2 (label_filter hop) 1000)).
Definition hop_edges hop x : list StoredEdge :=
  let l := match direction hop with
           | Outbound => listed_out hop x
           | Inbound => listed_in hop x
           | Both => merge_edges ∅ (listed_out hop x ++ listed_in hop x)
           end in
  if Nat.ltb 1 (length (edge_labels hop)) then List.filter (fun e => bool_decide (se_label e ∈ edge_labels hop)) l else l.
Definition passing hop x : list StoredEdge := List.filter (fun e => holds_filter (edge_filter hop) (se_properties e)) (hop_edges hop x).
Definition accepts hop n : bool := holds_filter (node_filter hop) (sn_properties n).

Lemma run_edges_for_hop hop x w : w_kv w = t ->
  exists w', get_edges_for_hop db ns x.1 x.2 hop None env w = (Ok (hop_edges hop x), w') /\ idle w w'.
Proof.
  intros Hw. unfold get_edges_for_hop. fold (label_filter hop). pose proof (wk_edges _ _ _ _ Hwk) as Hwf. rewrite <- Hw in Hwf.
  destruct (run_list_edges env Henv db ns conf w x.1 x.2 (label_filter hop) 1000 Hwf) as (w1 & E1 & Hi1).
  pose proof Hwf as Hwf1. rewrite <- (proj1 Hi1) in Hwf1.
  assert (Hwk1 : w_kv w1 = t) by (rewrite <- Hw; apply Hi1).
  destruct (run_list_incoming env Henv db ns conf w x.1 x.2 (label_filter hop) 1000 Hwf) as (w2 & E2 & Hi2).
  destruct (run_list_incoming env Henv db ns conf w1 x.1 x.2 (label_filter hop) 1000 Hwf1) as (w3 & E3 & Hi3).
  rewrite Hw in E1, E2. rewrite Hwk1 in E3. fold (listed_out hop x) in E1. fold (listed_in hop x) in E2, E3.
  unfold list_edges, list_incoming_edges in *. unfold hop_edges. destruct (direction hop).
  - rewrite (bind_run _ _ _ _ _ _ E1). by exists w1.
  - rewrite (bind_run _ _ _ _ _ _ E2). by exists w2.
  - exists w3. split; [|by transitivity w1].
    rewrite (bind_run (_ ≫= _) _ env w (merge_edges ∅ (listed_out hop x ++ listed_in hop x)) w3); [done|].
    rewrite (bind_run _ _ _ _ _ _ E1), (bind_run _ _ _ _ _ _ E3). done.
Qed.

Lemma run_node_at y w : w_kv w = t -> parses y ->
  exists w', get_node_at_read_version db ns y.1 y.2 None env w = (Ok (node_at y), w') /\ idle w w'.
Proof.
  intros Hw [id Hp]. unfold get_node_at_read_version, TraversalSpec.node_at. destruct (parse_node_id y.2) as [i|]; [|done].
  mrun Henv. cbn [snapshot]. rewrite Hw. change (data_key _ _ _) with (NodeSpec.node_key db ns y.1 (NodeIds.to_bytes i)).
  destruct (kv_get t _) as [b|] eqn:Eb; [|eexists; done]. destruct (wk_rows _ _ _ _ Hwk _ _ _ Eb) as (d & Hd & _).
  cbn [mbind option_bind]. rewrite Hd. mrun Henv. eexists. done.
Qed.

Lemma node_at_ident y n : node_at y = Some n -> node_ident n = y /\ parses y.
Proof.
  unfold TraversalSpec.node_at, parses. destruct (parse_node_id y.2) as [id|]; [|done]. cbn [ok].
  destruct (kv_get t _) as [b|]; [|done]. cbn [mbind option_bind]. destruct (decode_cbor b) as [d|]; [|done].
  intros [= <-]. split; [by destruct y|done].
Qed.

Lemma run_fetch_targets l w : w_kv w = t -> Forall (fun q => parses q.2) l ->
  exists w', fetch_targets db ns l None env w = (Ok (map (fun q => (q, node_at q.2)) l), w') /\ idle w w'.
Proof.
  revert w. induction l as [|[e y] l IH]; intros w Hw Hl; cbn [fetch_targets map]; [by exists w|].
  apply Forall_cons in Hl as [Hy Hl]. destruct (run_node_at y w Hw Hy) as (w1 & E1 & Hi1). rewrite (bind_run _ _ _ _ _ _ E1).
  destruct (IH w1) as (w2 & E2 & Hi2); [by rewrite (proj1 Hi1)|done|]. rewrite (bind_run _ _ _ _ _ _ E2).
  eexists. split; [done|by transitivity w1].
Qed.

Lemma run_filter_edges f l : compiles (Some f) ->
  filter_edges l f = Ok (List.filter (fun e => holds_filter (Some f) (se_properties e)) l).
Proof.
  intros Hc. destruct (Hc f eq_refl) as [c Ec]. induction l as [|e l IH]; cbn [filter_edges List.filter]; [done|].
  rewrite IH. unfold holds_filter, matches_edge_filter, filter_outcome. rewrite Ec.
  destruct (cel_execute _ _) as [[]|]; try done.
Qed.

Lemma pending_parse hop x V l : Forall (fun e => parses (hop_target (direction hop) x e)) l ->
  Forall (fun q => parses q.2) (pending_targets (direction hop) x V l).
Proof. induction 1 as [|e l He Hl IH]; cbn [pending_targets]; [done|]. destruct (decide _); [done|by constructor]. Qed.

Lemma enqueue_spread hop p i l V0 : compiles (node_filter hop) -> forall V, V0 ⊆ V ->
  enqueue_targets hop p i V (map (fun q => (q, node_at q.2)) (pending_targets (direction hop) (path_end p) V0 l))
    = let r := spread node_at accepts hop p V l in Ok (r.1, map (fun q => (q, Datatypes.S i)) r.2).
Proof.
  intros Hc. induction l as [|e l IH]; intros V HV; cbn [pending_targets spread map]; [done|].
  set (y := hop_target _ _ e). destruct (decide (visited_key y.1 y.2 ∈ V0)) as [Hin|Hout].
  { rewrite IH by done. destruct (node_at y) as [n|]; [|done]. rewrite (bool_decide_true (key_of y ∈ V)) by (by apply HV).
    by rewrite andb_false_r. }
  cbn [map enqueue_targets snd]. destruct (node_at y) as [n|]; [|by apply IH].
  assert (Hf : match node_filter hop with Some f => matches_node_filter n f | None => Ok true end = Ok (accepts hop n)).
  { unfold accepts, holds_filter. destruct (node_filter hop) as [f|]; [|done]. destruct (Hc f eq_refl) as [c Ec].
    unfold matches_node_filter, filter_outcome. rewrite Ec. destruct (cel_execute _ _) as [[]|]; done. }
  rewrite Hf. cbn [mbind result_bind]. destruct (accepts hop n); cbn [negb andb]; [|by apply IH].
  unfold key_of. destruct (decide (visited_key y.1 y.2 ∈ V)) as [Hv|Hv].
  - rewrite bool_decide_true by done. by apply IH.
  - rewrite bool_decide_false by done. rewrite IH by set_solver. done.
Qed.

Lemma view_label d s tg l sk ks : edge_row db ns conf d s tg l sk ks -> se_label (view d) = l.
Proof. intros He. unfold view, stored_outgoing. cbn [se_label]. by rewrite (er_label _ _ _ _ _ _ _ _ _ He). Qed.

Lemma leaves_label x o d : leaves db ns conf x.1 x.2 o d <-> leaves db ns conf x.1 x.2 None d /\ label_in o (se_label (view d)).
Proof.
  split.
  - intros (s & tg & l & sk & ks & He & Hl & Hn). rewrite (view_label _ _ _ _ _ _ He). split; [|done]. by exists s, tg, l, sk, ks.
  - intros [(s & tg & l & sk & ks & He & _ & Hn) Hl]. rewrite (view_label _ _ _ _ _ _ He) in Hl. by exists s, tg, l, sk, ks.
Qed.

Lemma enters_label x o d : enters db ns conf x.1 x.2 o d <-> enters db ns conf x.1 x.2 None d /\ label_in o (se_label (view d)).
Proof.
  split.
  - intros (s & tg & l & sk & ks & He & Hl & Hn). rewrite (view_label _ _ _ _ _ _ He). split; [|done]. by exists s, tg, l, sk, ks.
  - intros [(s & tg & l & sk & ks & He & _ & Hn) Hl]. rewrite (view_label _ _ _ _ _ _ He) in Hl. by exists s, tg, l, sk, ks.
Qed.

Lemma listed_out_elem hop x e : e ∈ listed_out hop x <->
  exists d, stored d /\ e = view d /\ leaves db ns conf x.1 x.2 None d /\ label_in (label_filter hop) (se_label e).
Proof.
  split.
  - intros (d & Hs & Hl & ->)%(elem_out_rows db ns conf); [|apply Hwk]. apply leaves_label in Hl as [??]. eauto 8.
  - intros (d & Hs & -> & Hl & Hlab). apply (out_rows_elem db ns conf); [apply Hwk|done|]. by apply leaves_label.
Qed.

Lemma listed_in_elem hop x e : e ∈ listed_in hop x <->
  exists d, stored d /\ e = view d /\ enters db ns conf x.1 x.2 None d /\ label_in (label_filter hop) (se_label e).
Proof.
  split.
  - intros (d & Hs & Hl & ->)%(elem_in_rows db ns conf); [|apply Hwk]. apply enters_label in Hl as [??]. eauto 8.
  - intros (d & Hs & -> & Hl & Hlab). apply (in_rows_elem db ns conf); [apply Hwk|done|]. by apply enters_label.
Qed.

Lemma elem_of_filter_b {A} (f : A -> bool) (l : list A) a : a ∈ List.filter f l <-> a ∈ l /\ f a = true.
Proof. rewrite !list_elem_of_In. apply filter_In. Qed.

Lemma listed_label hop (l : string) : (label_in (label_filter hop) l /\ (Nat.ltb 1 (length (edge_labels hop)) = true -> l ∈ edge_labels hop)) <->
  (edge_labels hop = [] \/ l ∈ edge_labels hop).
Proof.
  unfold label_filter. destruct (edge_labels hop) as [|a [|b ls]]; cbn [label_in length Nat.ltb Nat.leb].
  - split; [by left|]. by intros _.
  - rewrite list_elem_of_singleton. naive_solver.
  - naive_solver.
Qed.

Lemma hop_edges_elem hop x e :
  e ∈ hop_edges hop x <-> (exists d, stored d /\ e = view d /\ incident db ns conf hop x d) /\ labelled hop e.
Proof.
  unfold labelled. rewrite <- listed_label. unfold hop_edges.
  match goal with |- context [if _ then _ else ?l] => set (lst := l) end.
  assert (Hl : e ∈ lst <-> (exists d, stored d /\ e = view d /\ incident db ns conf hop x d) /\ label_in (label_filter hop) (se_label e)).
  { unfold lst, incident. destruct (direction hop).
    - rewrite listed_out_elem. naive_solver.
    - rewrite listed_in_elem. naive_solver.
    - rewrite merge_elem.
      + rewrite elem_of_app, listed_out_elem, listed_in_elem. split; [naive_solver|]. intros [(d & ? & ? & [?|?]) ?]; (split; [|set_solver]); [left|right]; eauto 8.
      + intros e1 e2. rewrite !elem_of_app, !listed_out_elem, !listed_in_elem.
        intros He1 He2. assert (exists d, stored d /\ e1 = view d) as (d1 & Hd1 & ->) by naive_solver.
        assert (exists d, stored d /\ e2 = view d) as (d2 & Hd2 & ->) by naive_solver. by apply (wk_idents _ _ _ _ Hwk). }
  destruct (Nat.ltb 1 _) eqn:El; [rewrite elem_of_filter_b, Hl, bool_decide_eq_true|rewrite Hl]; naive_solver.
Qed.

Lemma takes_cand hop x e n : takes hop x e n <-> cand node_at passing accepts hop x e n.
Proof.
  unfold TraversalSpec.takes, cand, passing, accepts. rewrite elem_of_filter_b, hop_edges_elem. tauto.
Qed.

Lemma hop_edges_length hop x : (length (passing hop x) <= 2000)%nat.
Proof.
  assert (Hf : forall (f : StoredEdge -> bool) l, (length (List.filter f l) <= length l)%nat).
  { intros f l. induction l as [|a l IH]; [done|]. cbn [List.filter]. destruct (f a); cbn [length]; lia. }
  assert (Hm : forall l s, (length (merge_edges s l) <= length l)%nat).
  { induction l as [|a l IH]; intros s; [done|]. cbn [merge_edges]. destruct (decide _); cbn [length]; [specialize (IH s)|specialize (IH ({[edge_identity a]} ∪ s))]; lia. }
  assert (Ho : (length (listed_out hop x) <= 1000)%nat) by (unfold listed_out, out_rows; rewrite length_map, length_take; lia).
  assert (Hi : (length (listed_in hop x) <= 1000)%nat)
    by (unfold listed_in, in_rows; etrans; [apply Hf|]; rewrite length_map, length_take; lia).
  unfold passing, hop_edges. etrans; [apply Hf|].
  match goal with |- context [if _ then _ else ?l] => assert ((length l <= 2000)%nat) as Hl end.
  { destruct (direction hop); [lia..|]. etrans; [apply Hm|]. rewrite length_app. lia. }
  destruct (Nat.ltb _ _); [etrans; [apply Hf|]|]; done.
Qed.

Lemma targets_parse hop x e : e ∈ hop_edges hop x -> parses (hop_target (direction hop) x e).
Proof.
  intros [(d & Hd & -> & _) _]%hop_edges_elem. destruct (wk_ids _ _ _ _ Hwk d Hd) as [Hs Ht]. unfold parses, hop_target.
  destruct (direction hop); [done..|]. by destruct (_ && _).
Qed.

Lemma keep_all {A} (l : list A) : List.filter (fun _ => true) l = l.
Proof. induction l as [|a l IH]; [done|]. cbn [List.filter]. by f_equal. Qed.

Lemma run_expand hop p i V w : w_kv w = t -> compiles (edge_filter hop) -> compiles (node_filter hop) ->
  exists w', expand db ns hop p i V None env w
    = (Ok (let r := spread node_at accepts hop p V (passing hop (path_end p)) in (r.1, map (fun q => (q, Datatypes.S i)) r.2),
           length (hop_edges hop (path_end p))), w') /\ idle w w'.
Proof.
  intros Hw He Hn. unfold expand. destruct (run_edges_for_hop hop (path_end p) w Hw) as (w1 & E1 & Hi1).
  change (sn_entity_type (end_node p)) with (path_end p).1. change (sn_id (end_node p)) with (path_end p).2.
  rewrite (bind_run _ _ _ _ _ _ E1).
  assert (Hf : match edge_filter hop with Some f => filter_edges (hop_edges hop (path_end p)) f | None => Ok (hop_edges hop (path_end p)) end
    = Ok (passing hop (path_end p))).
  { unfold passing. destruct (edge_filter hop) as [f|]; [by apply run_filter_edges|]. 
    by rewrite keep_all. }
  rewrite Hf, run_lift. change (node_ident (end_node p)) with (path_end p).
  destruct (run_fetch_targets (pending_targets (direction hop) (path_end p) V (passing hop (path_end p))) w1) as (w2 & E2 & Hi2).
  { by rewrite (proj1 Hi1). }
  { apply pending_parse, Forall_forall. intros e [Hin _]%elem_of_filter_b. by apply targets_parse. }
  rewrite (bind_run _ _ _ _ _ _ E2), enqueue_spread, run_lift by done. exists w2. split; [done|by transitivity w1].
Qed.

(** ** The queue *)

Context (config : TraversalConfig) (late : nat -> bool) (Hlate : forall k, late k = false).
Context (Hresults : 0 < max_results config) (Hdepth : 0 <= tc_max_depth config < 2 ^ 32).
Context (hops : list TraversalHop) (Hfilters : Forall (fun hop => compiles (edge_filter hop) /\ compiles (node_filter hop)) hops).
Local Abbreviation bfs := (bfs config late db ns).
Local Abbreviation level := (level node_at passing accepts).
Local Abbreviation levels := (levels node_at passing accepts).
Local Abbreviation entries := (entries node_at passing accepts).
Definition at_hop (i : nat) (ps : list TraversalPath) : list (TraversalPath * nat) := map (fun q => (q, i)) ps.
Definition route : list TraversalHop := take (Z.to_nat (tc_max_depth config)) hops.

Lemma at_hop_app i ps qs : at_hop i (ps ++ qs) = at_hop i ps ++ at_hop i qs.
Proof. apply map_app. Qed.

(** The entries of one level are replaced by those of the next. *)
Lemma run_level i hop (todo : list TraversalPath) : hops !! i = Some hop -> as_u32 i < tc_max_depth config ->
  forall fuel looks V next sc w, w_kv w = t ->
  exists looks' sc' w', bfs (length todo + fuel) looks hops None (mkBfs [] V (at_hop i todo ++ at_hop (Datatypes.S i) next) sc) env w
    = bfs fuel looks' hops None (mkBfs [] (level hop V todo).1 (at_hop (Datatypes.S i) (next ++ (level hop V todo).2)) sc') env w' /\ idle w w'.
Proof.
  intros Hi Hd. assert (Hc : compiles (edge_filter hop) /\ compiles (node_filter hop)).
  { eapply (proj1 (Forall_lookup _ _) Hfilters); done. }
  induction todo as [|p todo IH]; intros fuel looks V next sc w Hw; cbn [TraversalSpec.level fst snd].
  { exists looks, sc, w. by rewrite app_nil_r. }
  destruct (run_expand hop p i V w Hw (proj1 Hc) (proj2 Hc)) as (w1 & E1 & Hi1).
  set (r := spread _ _ _ _ _ _) in *. cbn [length Nat.add at_hop map app].
  destruct (IH fuel (Datatypes.S looks) r.1 (next ++ r.2) (usize_saturating_add sc (Z.of_nat (length (hop_edges hop (path_end p)))))
    w1) as (looks' & sc' & w' & E & Hi'); [by rewrite (proj1 Hi1)|].
  exists looks', sc', w'. split; [|by transitivity w1]. cbn [Traversal.bfs bfs_queue bfs_results length]. rewrite Hlate, Hi.
  destruct (Z.leb_spec (max_results config) (Z.of_nat 0)) as [|_]; [lia|].
  destruct (Z.leb_spec (tc_max_depth config) (as_u32 i)) as [|_]; [lia|]. cbn [bfs_visited bfs_scanned].
  rewrite (bind_run _ _ _ _ _ _ E1). cbv beta iota zeta.
  change (map (fun q => (q, Datatypes.S i)) r.2) with (at_hop (Datatypes.S i) r.2).
  change (map (fun q => (q, i)) todo) with (at_hop i todo). change (map (fun q => (q, Datatypes.S i)) next) with (at_hop (Datatypes.S i) next).
  rewrite <- app_assoc, <- at_hop_app, E, <- app_assoc. done.
Qed.

(** Entries of the last level become results, up to the limit. *)
Lemma run_collect_paths k V sc : (hops !! k = None \/ tc_max_depth config <= as_u32 k) ->
  forall (ps res : list TraversalPath) fuel looks w, (length ps <= fuel)%nat -> Z.of_nat (length res) <= max_results config ->
  let m := (Z.to_nat (max_results config) - length res)%nat in
  bfs fuel looks hops None (mkBfs res V (at_hop k ps) sc) env w
    = (Ok (Some (mkBfs (res ++ take m ps) V (at_hop k (drop m ps)) sc)), w).
Proof.
  intros Hk ps. induction ps as [|p ps IH]; intros res fuel looks w Hf Hl; cbn zeta.
  { destruct fuel; cbn [Traversal.bfs bfs_queue at_hop map]; by rewrite take_nil, drop_nil, app_nil_r. }
  destruct fuel as [|fuel]; [cbn in Hf; lia|]. cbn [Traversal.bfs bfs_queue at_hop map bfs_results bfs_visited bfs_scanned]. rewrite Hlate.
  destruct (Z.leb_spec (max_results config) (Z.of_nat (length res))) as [Hm|Hm].
  { replace (Z.to_nat (max_results config) - length res)%nat with 0%nat by lia. by rewrite take_0, app_nil_r. }
  assert (Hgo : bfs fuel (Datatypes.S looks) hops None (mkBfs (res ++ [p]) V (at_hop k ps) sc) env w
    = (Ok (Some (mkBfs (res ++ take (Z.to_nat (max_results config) - length res) (p :: ps)) V
        (at_hop k (drop (Z.to_nat (max_results config) - length res) (p :: ps))) sc)), w)).
  { rewrite IH; [|cbn in Hf; lia|rewrite length_app; cbn; lia]. rewrite length_app. cbn [length].
    replace (Z.to_nat (max_results config) - length res)%nat with (Datatypes.S (Z.to_nat (max_results config) - (length res + 1))) by lia.
    cbn [take drop]. by rewrite <- app_assoc. }
  destruct (hops !! k) as [hop|] eqn:Eh; [|exact Hgo]. destruct Hk as [?|Hk]; [done|].
  destruct (Z.leb_spec (tc_max_depth config) (as_u32 k)) as [_|]; [exact Hgo|lia].
Qed.

Lemma as_u32_small i : (i <= Z.to_nat (tc_max_depth config))%nat -> as_u32 i = Z.of_nat i.
Proof. intros Hi. unfold as_u32. apply Z.mod_small. lia. Qed.

Lemma last_index : hops !! length route = None \/ tc_max_depth config <= as_u32 (length route).
Proof.
  unfold route. rewrite length_take. destruct (decide (length hops <= Z.to_nat (tc_max_depth config))%nat) as [Hle|Hgt].
  - left. rewrite Nat.min_r by done. by apply lookup_ge_None.
  - right. rewrite as_u32_small by lia. lia.
Qed.

Lemma run_bfs suf : forall pre V ps fuel looks sc w, route = pre ++ suf -> w_kv w = t -> (entries suf V ps <= fuel)%nat ->
  let r := levels suf V ps in let m := Z.to_nat (max_results config) in
  exists sc' w', bfs fuel looks hops None (mkBfs [] V (at_hop (length pre) ps) sc) env w
    = (Ok (Some (mkBfs (take m r.2) r.1 (at_hop (length route) (drop m r.2)) sc')), w') /\ idle w w'.
Proof.
  induction suf as [|hop suf IH]; intros pre V ps fuel looks sc w Hr Hw Hf; cbn zeta; cbn [TraversalSpec.levels TraversalSpec.entries fst snd] in *.
  - rewrite app_nil_r in Hr. rewrite <- Hr, run_collect_paths; [|apply last_index|lia|cbn; lia].
    exists sc, w. cbn [length]. by rewrite Nat.sub_0_r.
  - assert (Hi : route !! length pre = Some hop) by (by rewrite Hr, list_lookup_middle).
    assert (Hlt : (length pre < Z.to_nat (tc_max_depth config))%nat).
    { apply lookup_lt_Some in Hi. unfold route in Hi. rewrite length_take in Hi. lia. }
    unfold route in Hi. rewrite lookup_take, decide_True in Hi by done.
    destruct (run_level (length pre) hop ps Hi) with (fuel := (fuel - length ps)%nat) (looks := looks) (V := V) (next := [] : list TraversalPath)
      (sc := sc) (w := w) as (looks' & sc' & w1 & E & Hi1); [rewrite as_u32_small by lia; lia|done|].
    replace (length ps + (fuel - length ps))%nat with fuel in E by lia. cbn [at_hop map app] in E. rewrite app_nil_r in E.
    change (map (fun q => (q, length pre)) ps) with (at_hop (length pre) ps) in E. rewrite E.
    destruct (IH (pre ++ [hop]) (level hop V ps).1 (level hop V ps).2 (fuel - length ps)%nat looks' sc' w1) as (sc'' & w' & E' & Hi').
    { by rewrite <- app_assoc. } { by rewrite (proj1 Hi1). } { lia. }
    rewrite length_app, Nat.add_1_r in E'. exists sc'', w'. split; [exact E'|by transitivity w1].
Qed.

(** ** Paths *)

Definition last_ident x (phs : list PathHop) : string * string :=
  match last phs with Some h => node_ident (hop_node h) | None => x end.

Lemma path_end_last p : path_end p = last_ident (node_ident (start p)) (path_hops p).
Proof. unfold path_end, end_node, last_ident. by destruct (last (path_hops p)). Qed.

Lemma last_ident_cons x h phs : last_ident x (h :: phs) = last_ident (node_ident (hop_node h)) phs.
Proof. unfold last_ident. destruct phs as [|g phs]; [done|]. rewrite last_cons_cons. by destruct (last (g :: phs)) eqn:E; [|apply last_None in E]. Qed.

Lemma walks_snoc pre : forall x phs hop e n, walks db ns conf t x pre phs -> takes hop (last_ident x phs) e n ->
  walks db ns conf t x (pre ++ [hop]) (phs ++ [mkPathHop e n]).
Proof.
  induction pre as [|h pre IH]; intros x phs hop e n Hw Ht; destruct phs as [|ph phs]; cbn [walks app] in *; try done.
  destruct Hw as [? Hw]. split; [done|]. apply IH; [done|]. by rewrite last_ident_cons in Ht.
Qed.

Definition path_from (s : StoredNode) (pre : list TraversalHop) p : Prop := start p = s /\ walks db ns conf t (node_ident s) pre (path_hops p).

Lemma levels_paths s suf : forall pre V ps, (forall p, p ∈ ps -> path_from s pre p) ->
  forall p, p ∈ (levels suf V ps).2 -> path_from s (pre ++ suf) p.
Proof.
  induction suf as [|hop suf IH]; intros pre V ps Hps p; cbn [TraversalSpec.levels]; [rewrite app_nil_r; apply Hps|].
  intros Hin. replace (pre ++ hop :: suf) with ((pre ++ [hop]) ++ suf) by (by rewrite <- app_assoc).
  eapply IH; [|exact Hin]. intros q (p0 & e & n & Hp0 & Hc & ->)%level_from. destruct (Hps p0 Hp0) as [Hs Hw].
  split; [done|]. cbn [path_push path_hops]. apply walks_snoc; [done|]. apply takes_cand. rewrite <- Hs, <- path_end_last. done.
Qed.

Lemma levels_waves x suf : forall pre V ps,
  (forall y, parses y -> key_of y ∈ V <-> (waves db ns conf t x route (length pre)).1 y) ->
  (forall y, y ∈ path_end <$> ps <-> (waves db ns conf t x route (length pre)).2 y) -> NoDup (path_end <$> ps) ->
  route = pre ++ suf ->
  (forall y, y ∈ path_end <$> (levels suf V ps).2 <-> (waves db ns conf t x route (length route)).2 y) /\
  NoDup (path_end <$> (levels suf V ps).2).
Proof.
  induction suf as [|hop suf IH]; intros pre V ps Hs Hl Hn Hr; cbn [TraversalSpec.levels snd].
  { rewrite app_nil_r in Hr. by rewrite Hr in *. }
  destruct (waves db ns conf t x route (length pre)) as [seen lst] eqn:Ew. cbn [fst snd] in *.
  destruct (level_wave node_at passing accepts node_at_ident hop V ps seen lst Hs Hl) as (Hs' & Hl' & Hn').
  assert (Hi : route !! length pre = Some hop) by (by rewrite Hr, list_lookup_middle).
  assert (Hnext : forall y, ((exists z h e n, lst z /\ route !! length pre = Some h /\ takes h z e n /\ y = node_ident n) /\ ~ seen y) <->
    ((exists z e n, lst z /\ cand node_at passing accepts hop z e n /\ y = node_ident n) /\ ~ seen y)).
  { intros y. apply and_iff_compat_r. rewrite Hi. split.
    - intros (z & h & e & n & ? & [= <-] & ?%takes_cand & ?). eauto 8.
    - intros (z & e & n & ? & ?%takes_cand & ?). eauto 10. }
  apply (IH (pre ++ [hop])); rewrite ?length_app, ?Nat.add_1_r; cbn [waves]; rewrite ?Ew; cbn [fst snd].
  - intros y Hy. by rewrite (Hs' y Hy), Hnext.
  - intros y. by rewrite Hl', Hnext.
  - done.
  - by rewrite <- app_assoc.
Qed.
End Walk.

(** ** Tokens *)

(** The form in which the codec gives back a token. *)
Definition canon_path (p : TraversalPath) : TraversalPath :=
  mkPath (canon_stored (start p)) (map (fun h => mkPathHop (canon_stored_edge (hop_edge h)) (canon_stored (hop_node h))) (path_hops p)).
Definition canon_continuation (c : ContinuationState) : ContinuationState :=
  mkContinuation (cs_visited c) (map (fun f => mkFrontier (fe_hop_idx f) (canon_path (fe_path f))) (cs_frontier c)).
Definition storable_path (p : TraversalPath) : Prop :=
  storable_stored (start p) /\ Forall (fun h => storable_stored_edge (hop_edge h) /\ storable_stored (hop_node h)) (path_hops p).
Definition storable_continuation (c : ContinuationState) : Prop := Forall (fun f => storable_path (fe_path f)) (cs_frontier c).

(** A client that follows the tokens and keeps the pages. *)
Fixpoint follow_tokens {S} `{Fdb S} `{Cbor NodeData} `{Cbor EdgeData} `{Cbor StoredNode} `{Cbor StoredEdge} `{Cbor ContinuationState} `{HashIter}
    `{CelEngine} (config : TraversalConfig) (late : nat -> bool) (db ns : string) (calls fuel : nat) (et id : string)
    (hops : list TraversalHop) (token : option bytes) : M S (option (list (list TraversalPath))) :=
  match calls with
  | O => mret None
  | Datatypes.S calls =>
      r ← traverse config late db ns fuel et id hops token;
      match r with
      | None => mret None
      | Some r =>
          match continuation_token r with
          | None => mret (Some [paths r])
          | Some b =>
              rest ← follow_tokens config late db ns calls fuel et id hops (Some b);
              mret (cons (paths r) <$> rest)
          end
      end
  end.

Section Pages.
Context {S : Type} `{FdbLaws S} `{CborLaws EdgeData canon_edge storable_edge} `{Cbor NodeData} `{Cbor StoredNode} `{Cbor StoredEdge}.
Context `{CborLaws ContinuationState canon_continuation storable_continuation} `{HashIter} `{CelEngine}.
Context (env : Env) (Henv : no_faults env).
Context (db ns : string) (conf : string -> option EntitySchema) (t : S) (Hwk : walkable db ns conf t).
Context (config : TraversalConfig) (late : nat -> bool) (Hlate : forall k, late k = false).
Context (Hresults : 0 < max_results config) (Hdepth : 0 <= tc_max_depth config < 2 ^ 32).
Context (hops : list TraversalHop) (Hfilters : Forall (fun hop => compiles (edge_filter hop) /\ compiles (node_filter hop)) hops).
Context (et id : string) (s : StoredNode) (Hs : node_at db ns t (et, id) = Some s).
Local Abbreviation route := (route config hops).
Local Abbreviation m := (Z.to_nat (max_results config)).
Local Abbreviation levels := (levels (node_at db ns t) (passing db ns t) accepts).
Local Abbreviation entries := (entries (node_at db ns t) (passing db ns t) accepts).
Implicit Types (p : TraversalPath) (w : World S) (V : gset string).

Lemma visited_vec_set V : list_to_set (visited_vec V) = V.
Proof.
  apply set_eq. intros k. rewrite elem_of_list_to_set. unfold visited_vec. rewrite list_elem_of_fmap. destruct V as [V]. split.
  - intros ([k' []] & -> & Hin%elem_of_hm_iter). exact Hin.
  - intros Hk. exists (k, ()). split; [done|]. by apply elem_of_hm_iter.
Qed.

Lemma node_kept y n : node_at db ns t y = Some n -> storable_stored n /\ canon_stored n = n.
Proof.
  unfold node_at. destruct (parse_node_id y.2) as [i|]; [|done]. destruct (kv_get t _) as [b|] eqn:Eb; [|done]. cbn [mbind option_bind].
  destruct (wk_rows _ _ _ _ Hwk _ _ _ Eb) as (d & Hd & Hst & Hc). rewrite Hd. intros [= <-].
  unfold storable_stored, canon_stored, stored_of. cbn [sn_id sn_entity_type sn_properties sn_locality sn_created_at sn_updated_at].
  by rewrite Hc.
Qed.

Lemma path_kept p : path_from db ns conf t s route p -> storable_path p /\ canon_path p = p.
Proof.
  destruct p as [st phs]. intros [Hst Hw]. cbn [start path_hops] in *. subst st. destruct (node_kept _ _ Hs) as [Hns Hnc].
  assert (Hh : Forall (fun h => (storable_stored_edge (hop_edge h) /\ storable_stored (hop_node h)) /\
    mkPathHop (canon_stored_edge (hop_edge h)) (canon_stored (hop_node h)) = h) phs).
  { revert Hw. generalize route (node_ident s). clear -Hwk. intros r x. revert x phs.
    induction r as [|hop r IH]; intros x [|[e n] phs]; cbn [walks hop_edge hop_node]; try done. intros [((d & Hd & -> & _) & _ & _ & Hn & _) Hw].
    constructor; [|by eapply IH]. cbn [hop_edge hop_node] in *. destruct (node_kept _ _ Hn) as [Hs1 Hc1]. rewrite Hc1.
    destruct (wk_kept _ _ _ _ Hwk d Hd) as [Hs2 Hc2]. unfold storable_stored_edge, canon_stored_edge, view, stored_outgoing.
    cbn [se_edge_id se_source se_target se_label se_properties se_created_at].
    by rewrite Hc2. }
  unfold storable_path, canon_path. cbn [start path_hops]. rewrite Hnc. split.
  - split; [done|]. eapply Forall_impl; [exact Hh|]. by intros h [? _].
  - f_equal. clear -Hh. induction Hh as [|h phs [_ E] _ IH]; cbn [map]; [done|]. by rewrite E, IH.
Qed.

(** One call: it continues the levels from where its token stands. *)
Lemma run_page_of suf pre V ps fuel token w : route = pre ++ suf -> w_kv w = t ->
  initial_state et id s token = Ok (mkBfs [] V (at_hop (length pre) ps) 0) ->
  (forall p, p ∈ (levels suf V ps).2 -> path_from db ns conf t s route p) -> (entries suf V ps <= fuel)%nat ->
  exists r w', traverse config late db ns fuel et id hops token env w = (Ok (Some r), w') /\ idle w w' /\
    let all := (levels suf V ps).2 in
    paths r = take m all /\
    match continuation_token r with
    | None => drop m all = []
    | Some b => drop m all <> [] /\ initial_state et id s (Some b) = Ok (mkBfs [] (levels suf V ps).1 (at_hop (length route) (drop m all)) 0)
    end.
Proof.
  intros Hr Hw Hst Hp Hf. unfold traverse, traverse_with_options. pose proof (node_at_ident db ns t (et, id) s Hs) as [_ Hpar].
  destruct (run_node_at env Henv db ns conf t Hwk (et, id) w Hw Hpar) as (w1 & E1 & Hi1). cbn [fst snd] in E1.
  rewrite (bind_run _ _ _ _ _ _ E1), Hs, Hst, run_lift. assert (Hw1 : w_kv w1 = t) by (by rewrite (proj1 Hi1)).
  destruct (run_bfs env Henv db ns conf t Hwk config late Hlate Hresults Hdepth hops Hfilters suf pre V ps fuel 0 0 w1 Hr Hw1 Hf)
    as (sc & w2 & E2 & Hi2).
  rewrite (bind_run _ _ _ _ _ _ E2). cbv beta iota. set (all := (levels suf V ps).2) in *. set (V' := (levels suf V ps).1) in *.
  unfold traversal_results. cbn [bfs_results bfs_queue bfs_visited bfs_scanned].
  destruct (decide (drop m all = [])) as [Hd|Hd].
  - rewrite Hd. cbn [at_hop map]. rewrite (bool_decide_true ([] = [])), andb_false_r by done. cbn [negb andb mbind result_bind fst snd]. rewrite run_lift.
    eexists _, w2. split; [done|]. split; [by transitivity w1|]. split; [done|]. done.
  - rewrite (bool_decide_false (at_hop _ _ = [])) by (intros E; apply Hd; by destruct (drop m all)).
    assert (Hlen : length (take m all) = m).
    { apply length_take_le. destruct (decide (m <= length all)%nat); [done|]. destruct Hd. apply drop_ge. lia. }
    rewrite Hlen. destruct (Z.leb_spec (max_results config) (Z.of_nat m)) as [_|]; [|lia]. cbn [negb andb].
    set (c := mkContinuation _ _). destruct (cbor_total c) as (b & Eb & Hb). unfold encode_cbor at 1. rewrite Eb.
    cbn [mbind result_bind fst snd]. rewrite run_lift.
    eexists _, w2. split; [done|]. split; [by transitivity w1|]. split; [done|]. split; [done|]. cbn [continuation_token initial_state].
    assert (Hk : Forall (fun p => storable_path p /\ canon_path p = p) (drop m all)).
    { apply Forall_forall. intros p Hin. apply path_kept, Hp. rewrite <- (take_drop m all). apply elem_of_app. by right. }
    unfold decode_cbor. rewrite (cbor_roundtrip c b); [| |done].
    + cbn [mbind result_bind]. unfold c, canon_continuation. cbn [cs_visited cs_frontier]. rewrite visited_vec_set. do 2 f_equal.
      unfold at_hop. rewrite !map_map. cbn [fe_path fe_hop_idx fst snd]. clear -Hk. induction Hk as [|p l [_ E] _ IH]; cbn [map]; [done|].
      by rewrite E, IH.
    + unfold storable_continuation, c. cbn [cs_frontier]. unfold at_hop. rewrite map_map, Forall_map. eapply Forall_impl; [exact Hk|].
      by intros p [? _].
Qed.

Lemma run_rest calls : forall fuel V ps token w, w_kv w = t -> initial_state et id s (Some token) = Ok (mkBfs [] V (at_hop (length route) ps) 0) ->
  (forall p, p ∈ ps -> path_from db ns conf t s route p) -> (length ps <= fuel)%nat -> (length ps < calls)%nat ->
  exists pages w', follow_tokens config late db ns calls fuel et id hops (Some token) env w = (Ok (Some pages), w') /\ idle w w' /\
    concat pages = ps /\ Forall (fun page => (length page <= m)%nat) pages.
Proof.
  induction calls as [|calls IH]; intros fuel V ps token w Hw Hst Hp Hf Hc; [lia|]. cbn [follow_tokens].
  destruct (run_page_of [] route V ps fuel (Some token) w) as (r & w1 & E1 & Hi1 & Hpg & Htk); try done; [by rewrite app_nil_r|cbn; lia|].
  cbn [TraversalSpec.levels fst snd] in Hpg, Htk. rewrite (bind_run _ _ _ _ _ _ E1). destruct (continuation_token r) as [b|].
  - destruct Htk as [Hne Hb]. destruct (IH fuel V (drop m ps) b w1) as (pages & w2 & E2 & Hi2 & Hcat & Hlen).
    { by rewrite (proj1 Hi1). } { done. } { intros p Hin. apply Hp. rewrite <- (take_drop m ps). apply elem_of_app. by right. }
    { rewrite length_drop. lia. }
    { assert (0 < length ps)%nat by (destruct ps; [by rewrite drop_nil in Hne|cbn; lia]). rewrite length_drop. lia. }
    rewrite (bind_run _ _ _ _ _ _ E2). exists (paths r :: pages), w2. split; [done|]. split; [by transitivity w1|].
    split; [cbn [concat]; by rewrite Hpg, Hcat, take_drop|]. constructor; [rewrite Hpg, length_take; lia|done].
  - exists [paths r], w1. split; [done|]. split; [done|]. cbn [concat]. rewrite app_nil_r, Hpg.
    split; [by rewrite <- (take_drop m ps) at 2; rewrite Htk, app_nil_r|]. constructor; [rewrite length_take; lia|done].
Qed.

(** The pages together are the last level. *)
Lemma run_pages calls fuel w : w_kv w = t ->
  let all := (levels route {[visited_key et id]} [new_path s]).2 in
  (forall p, p ∈ all -> path_from db ns conf t s route p) ->
  (entries route {[visited_key et id]} [new_path s] <= fuel)%nat -> (length all <= fuel)%nat /\ (length all < calls)%nat ->
  exists pages w', follow_tokens config late db ns calls fuel et id hops None env w = (Ok (Some pages), w') /\ w_kv w' = t /\
    Forall (fun page => (length page <= m)%nat) pages /\ concat pages = all.
Proof.
  intros Hw all Hp Hf [Hl Hc]. destruct calls as [|calls]; [lia|]. cbn [follow_tokens].
  destruct (run_page_of route [] {[visited_key et id]} [new_path s] fuel None w) as (r & w1 & E1 & Hi1 & Hpg & Htk); try done.
  fold all in Hpg, Htk. rewrite (bind_run _ _ _ _ _ _ E1).
  assert (Hlen : (length (paths r) <= m)%nat) by (rewrite Hpg, length_take; lia).
  destruct (continuation_token r) as [b|].
  - destruct Htk as [Hne Hb'].
    destruct (run_rest calls fuel _ _ b w1 (eq_trans (proj1 Hi1) Hw) Hb') as (pages & w2 & E2 & Hi2 & Hcat & Hall).
    + intros p Hin. apply Hp. rewrite <- (take_drop m all). apply elem_of_app. by right.
    + rewrite length_drop. lia.
    + rewrite length_drop. assert (0 < length all)%nat by (destruct all; [by rewrite drop_nil in Hne|cbn; lia]). lia.
    + rewrite (bind_run _ _ _ _ _ _ E2). exists (paths r :: pages), w2. split; [done|].
      split; [by rewrite (proj1 Hi2), (proj1 Hi1)|]. split; [by constructor|]. cbn [concat]. by rewrite Hcat, Hpg, take_drop.
  - exists [paths r], w1. split; [done|]. split; [by rewrite (proj1 Hi1)|]. split; [by constructor|]. cbn [concat]. rewrite app_nil_r, Hpg.
    by rewrite <- (take_drop m all) at 2; rewrite Htk, app_nil_r.
Qed.
End Pages.

