(* ===== verification/TraversalExamples.v ===== *)
(** * Traversals of a concrete graph

    Three persons, who know and like each other, and the walks between them.
    Nothing of the program is modelled here. *)

From S2P Require Import Prelude Bytes Text Errors Types Encoding Subspace SchemaTypes Fdb MemFdb Cdc Consumer Ids Index TermIndex Namespace Jobs.
From S2P Require Import SchemaRegistry Node NodeAtomic NodeSpec Edge EdgeSpec EdgeList EdgeCascade EdgeWrite NodeDelete Predicate Planner Cel.
From S2P Require Import Executor ExecutorSpec TermQuery QueryExamples Rows Service Watch WatchSpec StateM RocksCache Projector RocksSpec ProjectorSpec.
From S2P Require Import RocksExamples Wire GraphService GraphSpec Traversal TraversalSpec.

#[export] Instance PathHop_eq_dec : EqDecision PathHop.
Proof. solve_decision. Defined.
#[export] Instance PathHop_countable : Countable PathHop.
Proof. refine (inj_countable' (fun h => (hop_edge h, hop_node h)) (fun '(e, n) => mkPathHop e n) _). by intros []. Defined.
#[export] Instance TraversalPath_eq_dec : EqDecision TraversalPath.
Proof. solve_decision. Defined.
#[export] Instance TraversalPath_countable : Countable TraversalPath.
Proof. refine (inj_countable' (fun p => (start p, path_hops p)) (fun '(s, l) => mkPath s l) _). by intros []. Defined.
#[export] Instance FrontierEntry_eq_dec : EqDecision FrontierEntry.
Proof. solve_decision. Defined.
#[export] Instance FrontierEntry_countable : Countable FrontierEntry.
Proof. refine (inj_countable' (fun f => (fe_hop_idx f, fe_path f)) (fun '(i, p) => mkFrontier i p) _). by intros []. Defined.
#[export] Instance ContinuationState_eq_dec : EqDecision ContinuationState.
Proof. solve_decision. Defined.
#[export] Instance ContinuationState_countable : Countable ContinuationState.
Proof. refine (inj_countable' (fun c => (cs_visited c, cs_frontier c)) (fun '(v, f) => mkContinuation v f) _). by intros []. Defined.
#[export] Instance continuation_cbor : Cbor ContinuationState | 100 := countable_cbor ContinuationState canon_continuation.
#[export] Instance continuation_cbor_laws : CborLaws ContinuationState canon_continuation storable_continuation.
Proof. apply countable_cbor_laws. Qed.

(** ** The graph can be walked *)

(** The edges found in the rows of a store. *)
Definition row_edges (t : MemKv) : list EdgeData :=
  omap (fun kv => match decode_cbor kv.2 with Ok d => match ed_source d with Some _ => Some d | None => None end | Err _ => None end)
    (map_to_list (mem_map t)).

Lemma stored_row_edges conf t d : stored "db" "ns" conf t d -> d ∈ row_edges t.
Proof.
  intros (s & tg & l & sk & ks & v & He & _ & Hd & Hk). apply list_elem_of_omap. exists (forward_key ks, v). split.
  - apply elem_of_map_to_list. apply Hk, forward_in_keys.
  - cbn [snd]. by rewrite Hd, (er_source _ _ _ _ _ _ _ _ _ He).
Qed.

Lemma range_length (t : MemKv) b e : (length (kv_range t b e) <= size (mem_map t))%nat.
Proof.
  change (kv_range t b e) with (mem_range t b e). unfold mem_range. rewrite (Permutation_length (merge_sort_Permutation _ _)).
  rewrite length_map_to_list. apply map_subseteq_size, map_filter_subseteq.
Qed.

Definition edge_fine (d : EdgeData) : bool :=
  is_ok (parse_node_id (ref_node_id (se_source (view d)))) && is_ok (parse_node_id (ref_node_id (se_target (view d)))) &&
  bool_decide (ed_properties d = ∅).

Definition told_apart (l : list EdgeData) : bool :=
  forallb (fun d => forallb (fun d' => implb (String.eqb (edge_identity (view d)) (edge_identity (view d'))) (bool_decide (view d = view d'))) l) l.

Lemma is_ok_Some {A} (r : result A) : is_ok r = true -> is_Some (ok r).
Proof. destruct r; [by eexists|done]. Qed.

(** The rows of nodes decode, to nodes without properties. *)
Definition data_rows_fine (t : MemKv) : bool :=
  let p := prefix (Sub.data (Sub.namespace "db" "ns")) in
  forallb (fun kv => implb (bool_decide (take (length p) kv.1 = p))
    match decode_cbor kv.2 with Ok d => bool_decide (nd_properties d = ∅) | Err _ => false end) (map_to_list (mem_map t)).

Lemma node_key_prefix et id : exists r, NodeSpec.node_key "db" "ns" et id = prefix (Sub.data (Sub.namespace "db" "ns")) ++ r.
Proof. unfold NodeSpec.node_key, data_key. tuple_norm. eauto. Qed.

Lemma walkable_by_rows conf (t : MemKv) : edges_wf "db" "ns" conf t -> (size (mem_map t) <= 1000)%nat ->
  forallb edge_fine (row_edges t) = true -> told_apart (row_edges t) = true -> data_rows_fine t = true -> walkable "db" "ns" conf t.
Proof.
  intros Hwf Hsz Hfine Happ Hrows. rewrite forallb_forall in Hfine.
  assert (Hd : forall d, stored "db" "ns" conf t d -> edge_fine d = true) by (intros d ?%stored_row_edges; by apply Hfine, list_elem_of_In).
  split; [done|intros; etrans; [apply range_length|done]..| | | |].
  - intros d Hs. apply Hd in Hs. unfold edge_fine in Hs. apply andb_true_iff in Hs as [[? ?]%andb_true_iff _]. split; by apply is_ok_Some.
  - intros et id b Hb. unfold data_rows_fine in Hrows. rewrite forallb_forall in Hrows. specialize (Hrows (NodeSpec.node_key "db" "ns" et id, b)).
    cbn [fst snd] in Hrows. destruct (node_key_prefix et id) as [r Er]. rewrite (bool_decide_true (take _ _ = _)) in Hrows by (by rewrite Er, take_app_length).
    cbn [implb] in Hrows. destruct (decode_cbor b) as [d|].
    + exists d. split; [done|]. rewrite (bool_decide_eq_true_1 _ (Hrows (proj1 (list_elem_of_In _ _) (proj2 (elem_of_map_to_list _ _ _) Hb)))).
      split; [apply map_Forall_empty|apply fmap_empty].
    + by specialize (Hrows (proj1 (list_elem_of_In _ _) (proj2 (elem_of_map_to_list _ _ _) Hb))).
  - intros d Hs. apply Hd in Hs. unfold edge_fine in Hs. apply andb_true_iff in Hs as [_ ->%bool_decide_eq_true].
    split; [apply map_Forall_empty|apply fmap_empty].
  - intros d d' Hs Hs' E. unfold told_apart in Happ. rewrite forallb_forall in Happ.
    apply stored_row_edges, list_elem_of_In in Hs, Hs'. specialize (Happ d Hs). rewrite forallb_forall in Happ. specialize (Happ d' Hs').
    rewrite E, String.eqb_refl in Happ. exact (bool_decide_eq_true_1 _ Happ).
Qed.

Lemma people_walkable : walkable "db" "ns" graph_conf people_kv.
Proof. apply walkable_by_rows; [apply people_wf|vm_compute; lia|vm_compute; reflexivity..]. Qed.

(** ** A walk of two hops *)

Definition two_hops : list TraversalHop := [with_labels (new_hop Outbound) ["KNOWS"]; new_hop Both].
Definition pages_of_one : TraversalConfig := mkTraversalConfig 10 1 30000 100.
Definition in_time (_ : nat) : bool := false.
Definition stored_person (id : string) : StoredNode := mkStoredNode id "Person" ∅ 1 5 5.

(** Whom [1_1] knows, and one step further in either direction: [1_3] and not
    [1_1] itself. *)
Example two_hops_end :
  (follow_tokens pages_of_one in_time "db" "ns" 9 9 "Person" "1_1" two_hops None quiet_env people_world).1
    = Ok (Some [[path_push (path_push (new_path (stored_person "1_1")) (view knows) (stored_person "1_2")) (view other) (stored_person "1_3")]]).
Proof. vm_compute. reflexivity. Qed.


(** ** Walks that miss *)

Definition ends_of (hops : list TraversalHop) (id : string) (w : World MemKv) : option (list (string * string)) :=
  match (traverse default_traversal_config in_time "db" "ns" 9 "Person" id hops None quiet_env w).1 with
  | Ok (Some r) => Some (path_end <$> paths r)
  | _ => None
  end.

(** A bidirectional edge can be followed outwards from its source only: from the
    other end its target is the node itself. *)
Theorem acquaintance_walked_one_way :
  ends_of [with_labels (new_hop Outbound) ["KNOWS"]] "1_1" people_world = Some [("Person", "1_2")] /\
  ends_of [with_labels (new_hop Outbound) ["KNOWS"]] "1_2" people_world = Some [].
Proof. split; vm_compute; reflexivity. Qed.

(** An edge to a node of another namespace leads to the node of this namespace that
    has the same type and identifier. *)
Definition abroad : EdgeData := mkEdgeData "1_7" ∅ 14 (Some (person "1_1")) (Some (mkNodeRef "db" "elsewhere" "Person" "1_3")) (Some "LIKES").
Theorem foreign_target_read_here :
  ends_of [with_labels (new_hop Outbound) ["LIKES"]] "1_1" (set_kv people_world (add_edge people_kv abroad)) = Some [("Person", "1_3")].
Proof. vm_compute. reflexivity. Qed.
