(* ===== verification/QueryService.v ===== *)
(** * The query service

    [pelago-api/src/query_service.rs]: searches, traversals and queries of the query
    language, with the budget of a strict snapshot.

    Inputs that the environment decides are arguments: the times a request has
    taken ([elapsed_ms]) and the timeouts of traversals ([late]).  The parser of the
    query language is a class ([PqlParser]).  A panic ends a request ([crashed]).
    The responses of a stream are a list, and [None] is out of fuel. *)

From S2P Require Import Prelude Bytes Text Errors Types Encoding Subspace SchemaTypes Fdb Ids Index TermIndex Cdc SchemaRegistry Node Edge NodeDelete.
From S2P Require Import Jobs Predicate Planner Cel Executor Rows Security Service Auth Pql StateM RocksCache Wire GraphService Traversal.

Definition NODE_ID_CURSOR_LEN : nat := 9.
Definition KEYSET_CURSOR_VERSION : byte := Byte.x01.
Definition C5_STRICT_MAX_SNAPSHOT_MS : Z := 2000.
Definition C5_STRICT_MAX_SCAN_KEYS : Z := 50000.
Definition C5_STRICT_MAX_RESULT_BYTES : Z := 8 * 1024 * 1024.

(** ** Cursors *)

Inductive FindNodesCursor := Offset (n : Z) | Keyset (cursor : option bytes).

Definition decode_find_nodes_cursor (cursor : bytes) : Conv FindNodesCursor :=
  match cursor with
  | [] => inl (Keyset None)
  | c :: rest =>
      if decide (c = KEYSET_CURSOR_VERSION) then
        match rest with
        | [] => inr (St.invalid_argument "invalid keyset cursor: expected non-empty payload, got 0 bytes")
        | _ => inl (Keyset (Some rest))
        end
      else if Nat.eqb (length cursor) OFFSET_CURSOR_LEN then
        match decode_offset_cursor cursor with inl n => inl (Offset n) | inr s => inr s end
      else if Nat.eqb (length cursor) NODE_ID_CURSOR_LEN then inl (Keyset (Some cursor))
      else inr (St.invalid_argument ("invalid cursor: unsupported length " ++ ustr (Z.of_nat (length cursor))))
  end.

Definition encode_keyset_cursor (cursor : bytes) : bytes := KEYSET_CURSOR_VERSION :: cursor.

(** ** Snapshots *)

Inductive SnapshotMode := SnapStrict | SnapBestEffort.

Definition default_find_nodes_snapshot_mode (raw : Z) : SnapshotMode := if raw =? 2 then SnapBestEffort else SnapStrict.
Definition default_traverse_snapshot_mode (raw : Z) : SnapshotMode := if raw =? 1 then SnapStrict else SnapBestEffort.
Definition default_execute_pql_snapshot_mode (raw : Z) : SnapshotMode := if raw =? 1 then SnapStrict else SnapBestEffort.

Record SnapshotResponseMeta := mkMeta {
  consistency_applied : SnapshotMode; snapshot_read_version : option Z; degraded : bool; degraded_reason : string
}.

Definition validate_snapshot_guardrail (operation : string) (mode : SnapshotMode) (allow_degrade : bool) (strict_read_version : option Z)
    (scanned result_size elapsed_ms : Z) : Conv SnapshotResponseMeta :=
  let meta := mkMeta mode strict_read_version false "" in
  match mode with
  | SnapBestEffort => inl meta
  | SnapStrict =>
      let exceeded := (C5_STRICT_MAX_SCAN_KEYS <? scanned) || (C5_STRICT_MAX_RESULT_BYTES <? result_size)
                      || (C5_STRICT_MAX_SNAPSHOT_MS <? elapsed_ms) in
      if negb exceeded then inl meta
      else if allow_degrade then inl (mkMeta SnapBestEffort None true "SNAPSHOT_BUDGET_EXCEEDED")
      else inr (into_status (SnapshotBudgetExceeded operation scanned result_size elapsed_ms C5_STRICT_MAX_SNAPSHOT_MS))
  end.

(** ** Messages *)

Record NodeResult := mkNodeResult { nr_node : NodeMsg; nr_next_cursor : bytes; nr_meta : SnapshotResponseMeta }.

Record TraverseResult := mkTraverseResult {
  tr_depth : Z; tr_path : list NodeRef; tr_node : option NodeMsg; tr_edge : option EdgeMsg; tr_next_cursor : bytes; tr_meta : SnapshotResponseMeta
}.

Record PqlResult := mkPqlResult { pr_block_name : string; pr_node : option NodeMsg; pr_explain : string; pr_meta : SnapshotResponseMeta }.

Definition stored_node_ref_to_proto (n : StoredNode) : NodeRef := mkNodeRef "" "" (sn_entity_type n) (sn_id n).
Definition core_node_ref_to_proto (r : NodeRef) : NodeRef :=
  mkNodeRef (ref_database r) (ref_namespace r) (ref_entity_type r) (ref_node_id r).
Definition stored_node_to_proto (n : StoredNode) : NodeMsg := node_msg n (sn_properties n).
Definition stored_edge_to_proto (e : StoredEdge) : EdgeMsg :=
  mkEdgeMsg (se_edge_id e) (core_node_ref_to_proto (se_source e)) (core_node_ref_to_proto (se_target e)) (se_label e)
    (core_to_proto_properties (se_properties e)) (se_created_at e).

(** A step of a traversal request. *)
Record TraversalStep := mkStep { step_edge_type : string; step_direction : Z; step_edge_filter : string; step_node_filter : string }.

Definition step_to_hop (s : TraversalStep) : TraversalHop :=
  let hop := new_hop (if step_direction s =? 2 then Inbound else if step_direction s =? 3 then Both else Outbound) in
  let hop := if String.eqb (step_edge_type s) "" then hop else with_labels hop [step_edge_type s] in
  let hop := if String.eqb (step_edge_filter s) "" then hop else with_edge_filter hop (step_edge_filter s) in
  if String.eqb (step_node_filter s) "" then hop else with_node_filter hop (step_node_filter s).

Definition compiled_step_to_hop (s : CompiledStep) : TraversalHop :=
  let hop := new_hop (match st_direction s with Pql.DirOutgoing => Outbound | Pql.DirIncoming => Inbound | Pql.DirBoth => Both end) in
  let hop := with_labels hop [st_edge_type s] in
  let hop := match Pql.edge_filter s with Some f => with_edge_filter hop f | None => hop end in
  match Pql.node_filter s with Some f => with_node_filter hop f | None => hop end.

(** ** Parameters of a query *)

Definition is_ident_start (c : bytes) : bool :=
  match c with [b] => in_range 65 90 b || in_range 97 122 b || (u8b b =? 95) | _ => false end.
Definition is_ident_continue (c : bytes) : bool :=
  match c with [b] => ascii_alphanumeric b || (u8b b =? 95) | _ => false end.
Definition is_dollar (c : bytes) : bool := match c with [b] => u8b b =? 36 | _ => false end.

(** The text that stands for a parameter. *)
Definition param_text (params : gmap string string) (key : bytes) : bytes :=
  match params !! bstr key with Some value => sbytes value | None => [Byte.x24] ++ key end.

(** The loop over the characters; [key] is the name being read. *)
Fixpoint substitute (params : gmap string string) (key : option bytes) (l : list bytes) : bytes :=
  let finished := match key with Some k => param_text params k | None => [] end in
  match l with
  | [] => finished
  | c :: rest =>
      if match key with Some _ => is_ident_continue c | None => false end then substitute params ((fun k => k ++ c) <$> key) rest
      else
        finished ++
        match rest with
        | d :: rest' => if is_dollar c && is_ident_start d then substitute params (Some d) rest' else c ++ substitute params None rest
        | [] => c
        end
  end.

Definition apply_params (input : string) (params : gmap string string) : string := bstr (substitute params None (chars (sbytes input))).

Definition estimate_stored_node_bytes `{HashIter} (n : StoredNode) : Z :=
  let text s := Z.of_nat (String.length s) in
  foldl (fun total kv =>
    usize_saturating_add (usize_saturating_add total (text kv.1))
      (match kv.2 with
       | VString s => text s | VInt _ => 8 | VFloat _ => 8 | VBool _ => 1 | VTimestamp _ => 8 | VBytes b => Z.of_nat (length b) | VNull => 1
       end))
    (usize_saturating_add (usize_saturating_add (text (sn_id n)) (text (sn_entity_type n))) 16) (hm_iter (sn_properties n)).

(** ** Variables of a query *)

Abbreviation Variables := (gmap string (list StoredNode)).

Definition node_identity (n : StoredNode) : string * string := (sn_entity_type n, sn_id n).

Definition keep_fields (fields : list string) (n : StoredNode) : StoredNode :=
  mkStoredNode (sn_id n) (sn_entity_type n) (filter (fun kv => kv.1 ∈ fields) (sn_properties n)) (sn_locality n) (sn_created_at n) (sn_updated_at n).
Definition project_fields (fields : list string) (n : StoredNode) : StoredNode :=
  match fields with [] => n | _ => keep_fields fields n end.

Fixpoint union_nodes (seen : gset (string * string)) (l : list StoredNode) : list StoredNode :=
  match l with
  | [] => []
  | n :: rest =>
      if decide (node_identity n ∈ seen) then union_nodes seen rest
      else n :: union_nodes ({[node_identity n]} ∪ seen) rest
  end.

Definition merge_variable_sets (variables : Variables) (names : list string) (op : SetOp) : list StoredNode :=
  match names with
  | [] => []
  | first :: others =>
      let nodes_of name := default [] (variables !! name) in
      let idents name : gset (string * string) := list_to_set (map node_identity (nodes_of name)) in
      match op with
      | Union => union_nodes ∅ (concat (map nodes_of names))
      | Intersect => List.filter (fun n => forallb (fun name => bool_decide (node_identity n ∈ idents name)) others) (nodes_of first)
      | Difference => List.filter (fun n => negb (existsb (fun name => bool_decide (node_identity n ∈ idents name)) others)) (nodes_of first)
      end
  end.

Section VariableFilters.
Context `{CelEngine}.

Definition core_value_to_cel (v : Value) : CelValue :=
  match v with
  | VString s => CvString s
  | VInt n => CvInt n
  | VFloat f => CvFloat f
  | VBool b => CvBool b
  | VTimestamp t => CvInt t
  | VBytes b => CvBytes b
  | VNull => CvNull
  end.

Definition evaluate_node_filter (program : CelProgram) (n : StoredNode) : bool :=
  match cel_execute program (core_value_to_cel <$> sn_properties n) with inl (CvBool matched) => matched | _ => false end.

Definition apply_variable_nodes_pipeline (nodes : list StoredNode) (filter : option string) (fields : list string) (limit offset : option Z)
    : Conv (list StoredNode) :=
  let kept := match filter with
              | None => inl nodes
              | Some f => match cel_compile f with
                          | inl program => inl (List.filter (evaluate_node_filter program) nodes)
                          | inr e => inr (St.invalid_argument ("invalid variable filter '" ++ f ++ "': " ++ e)%string)
                          end
              end in
  match kept with
  | inr s => inr s
  | inl nodes =>
      let nodes := map (project_fields fields) nodes in
      let nodes := drop (Z.to_nat (default 0 offset)) nodes in
      inl (match limit with Some n => take (Z.to_nat n) nodes | None => nodes end)
  end.
End VariableFilters.

(** ** The parser *)

Inductive PqlParseError := UnsupportedFeature (m : string) | OtherParseError (text : string).
Class PqlParser := { parse_pql : string -> PqlQuery + PqlParseError }.

Definition pql_parse_error_to_status (e : PqlParseError) : Status :=
  match e with UnsupportedFeature m => St.failed_precondition m | OtherParseError text => St.invalid_argument text end.

(** [Display] of [PqlError]. *)
Definition display_pql (e : PqlError) : string :=
  match e with
  | UnknownEntityType t => "Unknown entity type: " ++ t
  | UnknownField t f => "Unknown field '" ++ f ++ "' on type '" ++ t ++ "'"
  | UnknownEdge t f => "Unknown edge type '" ++ f ++ "' on type '" ++ t ++ "'"
  | UndefinedVariable v => "Undefined variable: $" ++ v
  | CircularDependency b => "Circular variable dependency involving: " ++ b
  | InvalidRootFunction m => "Invalid root function: " ++ m
  | CompilationError m => "Compilation error: " ++ m
  end%string.

(** ** Handlers *)

Section Queries.
Context {W S : Type} `{HasWorld W S} `{Fdb S} `{HashIter} `{CelEngine} `{PqlParser} `{FloatText}.
Context `{Cbor NodeData} `{Cbor EdgeData} `{Cbor EntitySchema} `{Cbor StoredNode} `{Cbor StoredEdge} `{Cbor ContinuationState}.
Context `{Cbor AuthPolicy} `{Cbor AuditRecord} `{UuidSource}.
Context (config : ExecutorConfig) (kv_read_version : S -> Z).

(** A panic ends the request, and its stream is reset. *)
Definition crashed : Status := St.cancelled "panic".
Definition or_panic {A} (p : panics A) : G W A := match p with Done a => mret a | Panicked => refuse crashed end.

Definition strict_version (mode : SnapshotMode) : G W (option Z) :=
  match mode with
  | SnapStrict => v ← call into_status (get_read_version kv_read_version); mret (Some v)
  | SnapBestEffort => mret None
  end.

(** A search by the term index where the expression allows it, by a plan
    otherwise. *)
Definition run_query (ctx : RequestContext) (entity_type expression : string) (projection : option (gset string)) (limit : option Z)
    (cursor : option bytes) (read_version : option Z) : G W QueryResults :=
  m ← or_panic (execute_term_expression_with_options config (ctx_database ctx) (ctx_namespace ctx) entity_type expression projection limit cursor read_version);
  found ← call into_status m;
  match found with
  | Some results => mret results
  | None =>
      s ← call into_status (get_schema (ctx_database ctx) (ctx_namespace ctx) entity_type);
      schema ← from_option s (St.not_found ("schema '" ++ entity_type ++ "' not found")%string);
      p ← or_panic (plan entity_type expression schema projection limit);
      p ← call into_status (lift p);
      let p := match cursor with Some c => with_cursor p c | None => p end in
      call into_status (execute_with_options config (ctx_database ctx) (ctx_namespace ctx) p read_version)
  end.

Definition U32_MAX : Z := 2 ^ 32 - 1.

Definition find_nodes_rpc (principal : option AuthPrincipal) (context : option RequestContext) (entity_type cel_expression : string)
    (fields : list string) (limit : Z) (cursor : bytes) (snapshot_mode : Z) (allow_degrade : bool) (elapsed_ms : Z) : G W (list NodeResult) :=
  ctx ← from_option context (St.invalid_argument "missing context");
  authorize (S:=S) principal "query.find" (ctx_database ctx) (ctx_namespace ctx) entity_type ;;
  let mode := default_find_nodes_snapshot_mode snapshot_mode in
  read_version ← strict_version mode;
  let page_size := if 0 <? limit then limit else 1000 in
  cursor_mode ← convert (decode_find_nodes_cursor cursor);
  let projection := match fields with [] => None | _ => Some (list_to_set fields) end in
  page ← match cursor_mode with
         | Offset offset =>
             let fetch_limit := Z.min (usize_saturating_add (usize_saturating_add offset page_size) 1) U32_MAX in
             results ← run_query ctx entity_type cel_expression projection (Some fetch_limit) None read_version;
             let total := Z.of_nat (length (nodes results)) in
             let from := Z.min offset total in
             let to := Z.min (usize_saturating_add from page_size) total in
             mret (take (Z.to_nat page_size) (drop (Z.to_nat from) (nodes results)), (if to <? total then encode_offset_cursor to else []),
                   scanned_keys results, result_bytes results)
         | Keyset after =>
             results ← run_query ctx entity_type cel_expression projection (Some (Z.min page_size U32_MAX)) after read_version;
             mret (nodes results,
                   (if has_more results then match Executor.cursor results with Some raw => encode_keyset_cursor raw | None => [] end else []),
                   scanned_keys results, result_bytes results)
         end;
  let '(page_nodes, next_cursor, scanned, size) := page in
  meta ← convert (validate_snapshot_guardrail "find_nodes" mode allow_degrade read_version scanned size elapsed_ms);
  mret (map (fun nc => mkNodeResult (stored_node_to_proto nc.1) nc.2 meta) (with_cursor_on_last page_nodes next_cursor)).

Definition traverse_rpc (fuel : nat) (late : nat -> bool) (principal : option AuthPrincipal) (context : option RequestContext)
    (start_ref : option NodeRef) (steps : list TraversalStep) (max_depth limit timeout : Z) (cursor : bytes) (snapshot_mode : Z)
    (allow_degrade : bool) (elapsed_ms : Z) : G W (option (list TraverseResult)) :=
  ctx ← from_option context (St.invalid_argument "missing context");
  authorize (S:=S) principal "query.traverse" (ctx_database ctx) (ctx_namespace ctx) "*" ;;
  from ← from_option start_ref (St.invalid_argument "missing start node");
  let mode := default_traverse_snapshot_mode snapshot_mode in
  read_version ← strict_version mode;
  let engine := mkTraversalConfig (Z.max max_depth 1) (Z.max limit 1) (Z.max timeout 1) 100 in
  r ← call into_status (traverse_with_options engine late (ctx_database ctx) (ctx_namespace ctx) fuel (ref_entity_type from) (ref_node_id from)
        (map step_to_hop steps) (match cursor with [] => None | _ => Some cursor end) read_version);
  match r with
  | None => mret None
  | Some results =>
      meta ← convert (validate_snapshot_guardrail "traverse" mode allow_degrade read_version (tr_scanned_keys results) (tr_result_bytes results) elapsed_ms);
      let token := default [] (continuation_token results) in
      let out := map (fun pc =>
        mkTraverseResult (Z.of_nat (path_depth pc.1))
          (stored_node_ref_to_proto (start pc.1) :: map (fun h => stored_node_ref_to_proto (hop_node h)) (path_hops pc.1))
          (Some (stored_node_to_proto (end_node pc.1))) (stored_edge_to_proto ∘ hop_edge <$> last (path_hops pc.1)) pc.2 meta)
        (with_cursor_on_last (paths results) token) in
      mret (Some (match out, continuation_token results with
                  | [], Some token => [mkTraverseResult 0 [] None None token meta]
                  | _, _ => out
                  end))
  end.

(** *** The query language *)

Fixpoint add_schemas (database namespace : string) (names : list string) (provider : gmap string SchemaInfo) : M S (gmap string SchemaInfo) :=
  match names with
  | [] => mret provider
  | name :: rest =>
      s ← get_schema database namespace name;
      add_schemas database namespace rest
        (match s with
         | Some s => <[SchemaTypes.name s := mkSchemaInfo (SchemaTypes.name s) (hm_iter (properties s)).*1 (hm_iter (edges s)).*1
                        (allow_undeclared_edges (meta s))]> provider
         | None => provider
         end)
  end.

Definition build_pql_schema_provider (database namespace : string) : M S SchemaProvider :=
  names ← list_schemas database namespace;
  provider ← add_schemas database namespace names ∅;
  mret (fun name => provider !! name).

(** What the blocks executed so far have produced. *)
Record PqlState := mkPqlState { ps_variables : Variables; ps_out : list PqlResult; ps_scanned : Z; ps_bytes : Z }.

Definition resolved_of {A} (r : pres A) (mk : string -> Status) : G W A := match r with POk a => mret a | PErr e => refuse (mk (display_pql e)) end.

(** One block: its nodes, the keys read and the bytes returned. *)
Definition execute_block (fuel : nat) (late : nat -> bool) (ctx : RequestContext) (read_version : option Z) (variables : Variables)
    (block : CompiledBlock) : G W (option (list StoredNode * Z * Z)) :=
  match block with
  | Pql.PointLookup _ entity_type node_id fields =>
      n ← call into_status (get_node_at_read_version (ctx_database ctx) (ctx_namespace ctx) entity_type node_id read_version);
      mret (Some (match n with
                  | Some n => let n := project_fields fields n in ([n], 1, estimate_stored_node_bytes n)
                  | None => ([], 0, 0)
                  end))
  | Pql.FindNodes _ entity_type cel_expression fields limit offset =>
      s ← call into_status (get_schema (ctx_database ctx) (ctx_namespace ctx) entity_type);
      schema ← from_option s (St.not_found ("schema '" ++ entity_type ++ "' not found")%string);
      p ← or_panic (plan entity_type (default "" cel_expression) schema (match fields with [] => None | _ => Some (list_to_set fields) end) limit);
      p ← call into_status (lift p);
      results ← call into_status (execute_with_options config (ctx_database ctx) (ctx_namespace ctx) p read_version);
      mret (Some (match offset with Some skip => drop (Z.to_nat skip) (nodes results) | None => nodes results end,
                  scanned_keys results, result_bytes results))
  | Pql.Traverse _ start_entity_type start_node_id steps max_depth cascade limit =>
      r ← call into_status (traverse_with_options (mkTraversalConfig max_depth limit 5000 100) late (ctx_database ctx) (ctx_namespace ctx) fuel
            start_entity_type start_node_id (map compiled_step_to_hop steps) None read_version);
      mret (match r with
            | None => None
            | Some results =>
                Some (List.filter (fun n => negb (cascade && String.eqb (sn_id n) "")) (map end_node (paths results)),
                      tr_scanned_keys results, tr_result_bytes results)
            end)
  | Pql.VariableRef _ variable filter fields limit offset =>
      match variables !! variable with
      | Some l => l ← convert (apply_variable_nodes_pipeline l filter fields limit offset); mret (Some (l, 0, 0))
      | None => mret (Some ([], 0, 0))
      end
  | Pql.VariableSet _ names op filter fields limit offset =>
      l ← convert (apply_variable_nodes_pipeline (merge_variable_sets variables names op) filter fields limit offset);
      mret (Some (l, 0, 0))
  end.

(** The blocks in their order; [elapsed n] is the time taken when the [n]-th is
    done. *)
Fixpoint execute_blocks (fuel : nat) (late : nat -> nat -> bool) (elapsed : nat -> Z) (ctx : RequestContext) (mode : SnapshotMode)
    (allow_degrade : bool) (read_version : option Z) (i : nat) (blocks : list (CompiledBlock * ResolvedBlock)) (st : PqlState)
    : G W (option PqlState) :=
  match blocks with
  | [] => mret (Some st)
  | (block, resolved) :: rest =>
      r ← execute_block fuel (late i) ctx read_version (ps_variables st) block;
      match r with
      | None => mret None
      | Some (block_nodes, scanned, size) =>
          let variables := match qb_capture_as (rb_block resolved) with
                           | Some capture => <[capture := block_nodes]> (ps_variables st)
                           | None => ps_variables st
                           end in
          let scanned := usize_saturating_add (ps_scanned st) scanned in
          let size := usize_saturating_add (ps_bytes st) size in
          meta ← convert (validate_snapshot_guardrail "execute_pql" mode allow_degrade read_version scanned size (elapsed i));
          execute_blocks fuel late elapsed ctx mode allow_degrade read_version (Datatypes.S i) rest
            (mkPqlState variables (ps_out st ++ map (fun n => mkPqlResult (rb_name resolved) (Some (stored_node_to_proto n)) "" meta) block_nodes) scanned size)
      end
  end.

(** The compiled blocks with the blocks they come from. *)
Definition in_order (resolved : ResolvedQuery) (compiled : list CompiledBlock) : list (CompiledBlock * ResolvedBlock) :=
  zip compiled (omap (fun i => rq_blocks resolved !! i) (execution_order resolved)).

Definition execute_pql_rpc (fuel : nat) (late : nat -> nat -> bool) (elapsed : nat -> Z) (principal : option AuthPrincipal)
    (context : option RequestContext) (pql : string) (params : gmap string string) (is_explain : bool) (snapshot_mode : Z) (allow_degrade : bool)
    : G W (option (list PqlResult)) :=
  ctx ← from_option context (St.invalid_argument "missing context");
  authorize (S:=S) principal "query.pql" (ctx_database ctx) (ctx_namespace ctx) "*" ;;
  let mode := default_execute_pql_snapshot_mode snapshot_mode in
  read_version ← strict_version mode;
  ast ← match parse_pql (apply_params pql params) with inl q => mret q | inr e => refuse (pql_parse_error_to_status e) end;
  schemas ← call into_status (build_pql_schema_provider (ctx_database ctx) (ctx_namespace ctx));
  resolved ← resolved_of (resolve ast schemas) St.invalid_argument;
  compiled ← resolved_of (Pql.compile resolved) St.failed_precondition;
  if is_explain then
    meta ← convert (validate_snapshot_guardrail "execute_pql" mode allow_degrade read_version 0 0 0);
    mret (Some [mkPqlResult "explain" None (Pql.explain compiled) meta])
  else
    st ← execute_blocks fuel late elapsed ctx mode allow_degrade read_version 0 (in_order resolved compiled) (mkPqlState ∅ [] 0 0);
    mret (ps_out <$> st).
End Queries.
