(* ===== verification/QuerySpec.v ===== *)
(** * Variables and sets of a query

    The blocks of a query are executed so that a variable is there when it is
    read, and the operations on the variables are those on sets of nodes. *)

From S2P Require Import Prelude Bytes Text Errors Types Encoding Subspace SchemaTypes Fdb MemFdb Ids Index TermIndex Cdc SchemaRegistry Node Edge NodeDelete.
From S2P Require Import Jobs Predicate Planner Cel Executor QueryExamples Rows Security Service Auth Pql PqlSpec StateM RocksCache Wire GraphService Traversal.
From S2P Require Import EdgeCascade EdgeWrite QueryService RocksSpec RocksExamples TraversalSpec TraversalExamples.

(** ** Sets *)

Definition idents_of (variables : Variables) (name : string) : list (string * string) := node_identity <$> default [] (variables !! name).

Lemma union_nodes_elem l : forall seen y, y ∈ node_identity <$> union_nodes seen l <-> y ∈ node_identity <$> l /\ y ∉ seen.
Proof.
  induction l as [|n l IH]; intros seen y; cbn [union_nodes fmap list_fmap]; [set_solver|].
  destruct (decide (node_identity n ∈ seen)) as [Hin|Hout]; cbn [fmap list_fmap]; rewrite ?elem_of_cons, IH; [set_solver|].
  destruct (decide (y = node_identity n)); set_solver.
Qed.

Lemma union_nodes_nodup l : forall seen, NoDup (node_identity <$> union_nodes seen l).
Proof.
  induction l as [|n l IH]; intros seen; cbn [union_nodes]; [constructor|].
  destruct (decide _); [apply IH|]. cbn [fmap list_fmap]. constructor; [|apply IH]. change (list_fmap _ _ node_identity) with (fmap (M:=list) node_identity).
  rewrite union_nodes_elem. set_solver.
Qed.

(** The nodes of the first variable that a test keeps, in their order. *)
Lemma filter_nodes_elem (f : StoredNode -> bool) l n : n ∈ List.filter f l <-> n ∈ l /\ f n = true.
Proof. rewrite !list_elem_of_In. apply filter_In. Qed.

(** The set operations of a query.  The union of variables holds every node of
    any of them once; their intersection, the nodes of the first that all others
    have; their difference, the nodes of the first that no other has.  Nodes are
    told apart by type and identifier; variables that are not bound are empty. *)
Theorem variable_sets_exact (variables : Variables) (first : string) (others : list string) :
  (forall y, y ∈ node_identity <$> merge_variable_sets variables (first :: others) Union <->
     exists name, name ∈ first :: others /\ y ∈ idents_of variables name) /\
  NoDup (node_identity <$> merge_variable_sets variables (first :: others) Union) /\
  (forall n, n ∈ merge_variable_sets variables (first :: others) Intersect <->
     n ∈ default [] (variables !! first) /\ forall name, name ∈ others -> node_identity n ∈ idents_of variables name) /\
  (forall n, n ∈ merge_variable_sets variables (first :: others) Difference <->
     n ∈ default [] (variables !! first) /\ forall name, name ∈ others -> node_identity n ∉ idents_of variables name).
Proof.
  assert (Hid : forall n name, bool_decide (node_identity n ∈ (list_to_set (map node_identity (default [] (variables !! name))) : gset (string * string))) = true
    <-> node_identity n ∈ idents_of variables name) by (intros; by rewrite bool_decide_eq_true, elem_of_list_to_set).
  unfold merge_variable_sets. split; [|split; [apply union_nodes_nodup|split]].
  - intros y. rewrite union_nodes_elem, list_elem_of_fmap. split.
    + intros [(n & -> & (l & Hl & Hn)%list_elem_of_In%in_concat) _]. apply in_map_iff in Hl as (name & <- & Hname%list_elem_of_In).
      exists name. split; [done|]. apply list_elem_of_fmap_2. by apply list_elem_of_In.
    + intros (name & Hname%list_elem_of_In & (n & -> & Hn%list_elem_of_In)%list_elem_of_fmap). split; [|apply not_elem_of_empty].
      exists n. split; [done|]. apply list_elem_of_In, in_concat. eexists. split; [|exact Hn]. by apply (in_map (fun name => default [] (variables !! name))).
  - intros n. rewrite filter_nodes_elem, forallb_forall. apply and_iff_compat_l.
    split; intros Hall name Hin%list_elem_of_In; by apply Hid, Hall.
  - intros n. rewrite filter_nodes_elem, negb_true_iff, <- not_true_iff_false, existsb_exists. apply and_iff_compat_l. split.
    + intros Hno name Hin%list_elem_of_In Hn. apply Hno. exists name. split; [done|]. by apply Hid.
    + intros Hno (name & Hin%list_elem_of_In & Hn%Hid). by eapply Hno.
Qed.

(** ** Variables *)

Definition block_variables (b : CompiledBlock) : list string :=
  match b with
  | Pql.VariableRef _ v _ _ _ _ => [v]
  | Pql.VariableSet _ vs _ _ _ _ _ => vs
  | _ => []
  end.

Lemma set_deps_list vars l t d r : set_deps vars l t d = POk r -> r.2 = d ++ l.
Proof.
  revert t d. induction l as [|x l IH]; intros t d; cbn [set_deps]; [intros [= <-]; by rewrite app_nil_r|].
  destruct (vars !! x); [|done]. intros ->%IH. by rewrite <- app_assoc.
Qed.

Lemma root_deps root vars r : resolve_root_function root vars = POk r ->
  r.2 = match root with RUidVar v => [v] | RUidSet vs _ => vs | _ => [] end.
Proof.
  destruct root; cbn [resolve_root_function]; try done.
  - by intros [= <-].
  - destruct (vars !! v); [|done]. by intros [= <-].
  - intros E. apply (set_deps_list _ _ _ _ _ E).
  - by intros [= <-].
Qed.

Lemma compiled_variables `{FloatText} blk et c : compile_block blk et = POk c ->
  block_variables c = match qb_root blk with RUidVar v => [v] | RUidSet vs _ => vs | _ => [] end.
Proof.
  unfold compile_block. intros ([] & _ & E)%pbind_ok. destruct (qb_root blk); try (by injection E as <-).
  destruct (has_edge_traversals _); [|by injection E as <-]. apply pbind_ok in E as (steps & _ & E). by injection E as <-.
Qed.

(** A variable of a resolved query belongs to a block that captures it, and the
    variables a block depends on are those of its root. *)
Lemma resolve_blocks_captures schemas blocks : forall i vars rbs vars', resolve_blocks schemas i blocks vars = POk (rbs, vars') ->
  (forall v, is_Some (vars !! v) -> is_Some (vars' !! v)) /\
  (forall v info, vars' !! v = Some info -> vars !! v = Some info \/
     exists k b, defined_in_block info = (i + k)%nat /\ rbs !! k = Some b /\ qb_capture_as (rb_block b) = Some v) /\
  (forall k b, rbs !! k = Some b -> (forall v, v ∈ depends_on b -> is_Some (vars' !! v)) /\
     depends_on b = match qb_root (rb_block b) with RUidVar v => [v] | RUidSet vs _ => vs | _ => [] end).
Proof.
  induction blocks as [|blk blocks IH]; intros i vars rbs vars'; cbn [resolve_blocks].
  { intros [= <- <-]. split; [done|]. split; [by left|]. intros k b Hk. by rewrite lookup_nil in Hk. }
  intros ([et deps] & Eroot & E)%pbind_ok. destruct (schemas et) as [schema|]; [|done].
  apply pbind_ok in E as ([] & _ & E). set (vars1 := match qb_capture_as blk with Some _ => _ | None => _ end) in E.
  apply pbind_ok in E as ([rbs1 vars2] & E & Er). injection Er as <- <-. destruct (IH _ _ _ _ E) as (Hs & Hv & Hd).
  assert (Hs1 : forall v, is_Some (vars !! v) -> is_Some (vars1 !! v)).
  { intros v Hv0. subst vars1. destruct (qb_capture_as blk) as [c|]; [|done]. destruct (decide (c = v)) as [->|]; [by rewrite lookup_insert_eq|].
    by rewrite lookup_insert_ne. }
  pose proof (root_deps_defined _ _ _ Eroot) as Hdef. pose proof (root_deps _ _ _ Eroot) as Hroot. cbn [snd] in Hdef, Hroot.
  split; [auto|]. split.
  - intros v info [Hin|(k & b & Hk & Hb & Hc)]%Hv; [|right; exists (Datatypes.S k), b; split; [lia|done]].
    revert Hin. subst vars1. destruct (qb_capture_as blk) as [c|] eqn:Ec; [|by left]. rewrite lookup_insert_Some.
    intros [[<- <-]|[_ ?]]; [right|by left]. exists 0%nat. eexists. split; [cbn; lia|]. split; [reflexivity|]. exact Ec.
  - intros [|k] b Hb; [|by apply (Hd k)]. injection Hb as <-. cbn [depends_on rb_block]. split; [auto|done].
Qed.

Section Execution.
Context {W S : Type} `{HasWorld W S} `{Fdb S} `{HashIter} `{CelEngine} `{FloatText}.
Context `{Cbor NodeData} `{Cbor EdgeData} `{Cbor EntitySchema} `{Cbor StoredNode} `{Cbor StoredEdge} `{Cbor ContinuationState}.
Context (config : ExecutorConfig).

Lemma gbind_inl {A B} (m : G W A) (f : A -> G W B) env w b w' :
  (m ≫= f) env w = (inl b, w') -> exists a w1, m env w = (inl a, w1) /\ f a env w1 = (inl b, w').
Proof. unfold mbind, G_bind. destruct (m env w) as [[a|e] w1]; [eauto|done]. Qed.

(** The blocks executed have bound the variables they capture. *)
Lemma captured_bound fuel late elapsed ctx mode allow rv blocks : forall i st env w st' w',
  execute_blocks config fuel late elapsed ctx mode allow rv i blocks st env w = (inl (Some st'), w') ->
  (forall v, is_Some (ps_variables st !! v) -> is_Some (ps_variables st' !! v)) /\
  (forall rb v, rb ∈ blocks.*2 -> qb_capture_as (rb_block rb) = Some v -> is_Some (ps_variables st' !! v)).
Proof.
  induction blocks as [|[c rb] blocks IH]; intros i st env w st' w'; cbn [execute_blocks].
  { intros [= <- _]. split; [done|]. intros ? ? ?%not_elem_of_nil. done. }
  intros ([[[l sc] sz]|] & w1 & _ & E)%gbind_inl; [|done]. apply gbind_inl in E as (meta & w2 & _ & E). apply IH in E as [Hk Hc].
  cbn [ps_variables] in Hk. split.
  - intros v Hv. apply Hk. destruct (qb_capture_as _) as [x|]; [|done]. destruct (decide (x = v)) as [->|]; [by rewrite lookup_insert_eq|].
    by rewrite lookup_insert_ne.
  - cbn [fmap list_fmap]. intros rb' v [->|Hin]%elem_of_cons Hcap; [|by eapply Hc]. apply Hk. cbn [snd] in Hcap. rewrite Hcap. by rewrite lookup_insert_eq.
Qed.
End Execution.

(** The compiled blocks and the blocks they come from, in execution order. *)
Lemma compile_in_order_zip `{FloatText} rbs order cs : compile_in_order rbs order = POk cs ->
  Forall2 (fun c rb => compile_block (rb_block rb) (rb_entity_type rb) = POk c) cs (omap (fun i => rbs !! i) order).
Proof.
  revert cs. induction order as [|i order IH]; intros cs; cbn [compile_in_order omap list_omap]; [intros [= <-]; constructor|].
  destruct (rbs !! i) as [rb|]; [|apply IH]. intros (c & Ec & (cs' & Ecs & [= <-])%pbind_ok)%pbind_ok. constructor; [done|by apply IH].
Qed.

(** Positions in the execution order are positions among the executed blocks. *)
Lemma omap_split (rbs : list ResolvedBlock) (order : list nat) : (forall i, i ∈ order -> (i < length rbs)%nat) -> forall pre rb post,
  omap (fun i => rbs !! i) order = pre ++ rb :: post ->
  exists before i after, order = before ++ i :: after /\ rbs !! i = Some rb /\ omap (fun i => rbs !! i) before = pre.
Proof.
  induction order as [|i order IH]; intros Hlt pre rb post; cbn [omap list_omap]; [by destruct pre|].
  destruct (lookup_lt_is_Some_2 rbs i) as [b Hb]; [apply Hlt; left|]. rewrite Hb. destruct pre as [|p pre]; cbn [app].
  - intros [= -> _]. by exists [], i, order.
  - intros [-> E]%cons_tail. destruct (IH ltac:(intros; apply Hlt; by right) _ _ _ E) as (before & j & after & -> & Hj & <-).
    exists (i :: before), j, after. split; [done|]. split; [done|]. cbn [omap list_omap]. by rewrite Hb.
Qed.

(** C40: variables of a query are bound when they are read.  In whatever order the
    resolver puts the blocks of a query, when the blocks before one have been
    executed, every variable that it reads has been captured, so that no block
    takes a missing variable for an empty one. *)
Theorem query_variables_bound {W S} `{HasWorld W S} `{Fdb S} `{HashIter} `{CelEngine} `{FloatText} `{Cbor NodeData} `{Cbor EdgeData}
    `{Cbor EntitySchema} `{Cbor StoredNode} `{Cbor StoredEdge} `{Cbor ContinuationState} (config : ExecutorConfig) (env : Env)
    (schemas : SchemaProvider) (q : PqlQuery) (resolved : ResolvedQuery) (compiled : list CompiledBlock)
    (fuel : nat) (late : nat -> nat -> bool) (elapsed : nat -> Z) (ctx : RequestContext) (mode : SnapshotMode) (allow : bool) (rv : option Z)
    (pre post : list (CompiledBlock * ResolvedBlock)) (block : CompiledBlock) (rb : ResolvedBlock) (st : PqlState) (w w' : W) (v : string) :
  resolve q schemas = POk resolved -> Pql.compile resolved = POk compiled -> in_order resolved compiled = pre ++ (block, rb) :: post ->
  execute_blocks config fuel late elapsed ctx mode allow rv 0 pre (mkPqlState ∅ [] 0 0) env w = (inl (Some st), w') ->
  v ∈ block_variables block -> is_Some (ps_variables st !! v).
Proof.
  intros Hr Hc Ho Hex Hv. pose proof Hr as Hr'. unfold resolve in Hr'. apply pbind_ok in Hr' as ([rbs vars] & Eb & _).
  destruct (resolve_ordered _ _ _ _ _ Eb Hr) as (Hb & Hp & Hord). destruct (resolve_blocks_captures _ _ _ _ _ _ Eb) as (_ & Hcap & Hdep).
  apply compile_in_order_zip in Hc. rewrite Hb in Hc. unfold in_order in Ho. rewrite Hb in Ho.
  assert (Hz : (zip compiled (omap (fun i => rbs !! i) (execution_order resolved))).*2 = omap (fun i => rbs !! i) (execution_order resolved))
    by (apply snd_zip; rewrite (Forall2_length _ _ _ Hc); done).
  rewrite Ho, fmap_app, fmap_cons in Hz. symmetry in Hz. cbn [snd] in Hz.
  destruct (omap_split rbs (execution_order resolved)) with (pre := pre.*2) (rb := rb) (post := post.*2)
    as (before & i & after & Hsplit & Hi & Hpre); [|done|].
  { intros i Hi. rewrite Hp in Hi. apply elem_of_seq in Hi. lia. }
  assert (Hblk : compile_block (rb_block rb) (rb_entity_type rb) = POk block).
  { assert (Hin : zip compiled (omap (fun i => rbs !! i) (execution_order resolved)) !! length pre = Some (block, rb))
      by (by rewrite Ho, list_lookup_middle).
    apply lookup_zip_Some in Hin as [Hl1 Hl2]. by apply (Forall2_lookup_lr _ _ _ _ _ _ Hc Hl1 Hl2). }
  destruct (Hdep i rb Hi) as [Hdef Hroot]. rewrite (compiled_variables _ _ _ Hblk), <- Hroot in Hv.
  destruct (Hdef v Hv) as [info Hinfo]. pose proof (Hord before i after rb v info Hsplit Hi Hv Hinfo) as Hbef.
  destruct (Hcap v info Hinfo) as [Hx|(k & b & Hk & Hkb & Hcb)]; [by rewrite lookup_empty in Hx|].
  destruct (captured_bound config fuel late elapsed ctx mode allow rv pre 0 _ env w st w' Hex) as [_ Hcs].
  apply (Hcs b v); [|done]. rewrite <- Hpre. apply list_elem_of_omap. exists k. split; [|done]. by rewrite Hk in Hbef.
Qed.

(** ** On the concrete graph *)

#[local] Existing Instance ascii_floats.

Definition pql_ctx : RequestContext := mkRequestContext "db" "ns".
Definition all_people : CompiledBlock := Pql.FindNodes "a" "Person" None ["name"] None None.
Definition those : CompiledBlock := Pql.VariableRef "b" "x" None ["name"] None None.
Definition block_a : ResolvedBlock := mkResolvedBlock "a" (person_block "a" (Some "x")) "Person" [].
Definition block_b : ResolvedBlock := mkResolvedBlock "b" (var_block "b" "x" None) "Person" ["x"].
Definition on_time (_ _ : nat) : bool := false.
Definition at_once (_ : nat) : Z := 0.

Definition run_blocks (l : list (CompiledBlock * ResolvedBlock)) :=
  execute_blocks (W := World MemKv) default_config 9 on_time at_once pql_ctx SnapBestEffort false None 0 l (mkPqlState ∅ [] 0 0) quiet_env people_world.

(** All persons, and then those of the variable. *)
Example three_and_three :
  match (run_blocks [(all_people, block_a); (those, block_b)]).1 with
  | inl (Some st) => map (fun r => (pr_block_name r, nm_id <$> pr_node r)) (ps_out st)
  | _ => []
  end = [("a", Some "1_1"); ("a", Some "1_2"); ("a", Some "1_3"); ("b", Some "1_1"); ("b", Some "1_2"); ("b", Some "1_3")].
Proof. vm_compute. reflexivity. Qed.

Lemma query_variables_bound_witness :
  exists st w', run_blocks [(all_people, block_a)] = (inl (Some st), w') /\ is_Some (ps_variables st !! "x").
Proof.
  assert (Hrun : match (run_blocks [(all_people, block_a)]).1 with inl (Some _) => true | _ => false end = true) by (vm_compute; reflexivity).
  destruct (run_blocks [(all_people, block_a)]) as [[[st|]|e] w'] eqn:E; [|discriminate Hrun..]. clear Hrun.
  exists st, w'. split; [reflexivity|].
  apply (query_variables_bound default_config quiet_env person_provider (query_of two_blocks)
    (mkResolvedQuery [block_a; block_b] [0; 1]%nat {["x" := mkVariableInfo 0 "Person"]}) [all_people; those]
    9 on_time at_once pql_ctx SnapBestEffort false None [(all_people, block_a)] [] those block_b st people_world w' "x").
  - vm_compute. reflexivity.
  - vm_compute. reflexivity.
  - vm_compute. reflexivity.
  - exact E.
  - left.
Defined.

(** ** Answers that are short *)

Definition ids_of_block (b : CompiledBlock) : list string :=
  match (execute_block (W := World MemKv) default_config 9 (on_time 0) pql_ctx None ∅ b quiet_env people_world).1 with
  | inl (Some (l, _, _)) => sn_id <$> l
  | _ => []
  end.

(** The limit is applied before the offset: the second page of two is one node, and
    the second page of one is empty.  On a variable the offset comes first. *)
Theorem limit_before_offset :
  ids_of_block (Pql.FindNodes "a" "Person" None [] (Some 2) (Some 1)) = ["1_2"] /\
  ids_of_block (Pql.FindNodes "a" "Person" None [] (Some 1) (Some 1)) = [] /\
  (forall l, apply_variable_nodes_pipeline l None [] (Some 1) (Some 1) = inl (take 1 (drop 1 l))).
Proof.
  split; [vm_compute; reflexivity|]. split; [vm_compute; reflexivity|]. intros l. unfold apply_variable_nodes_pipeline, project_fields.
  by rewrite map_id.
Qed.

(** The cursor of a node of site 1 in the form without a version is taken for one
    with a version, and loses its first byte. *)
Theorem plain_cursor_misread (n : Z) :
  decode_find_nodes_cursor (NodeIds.to_bytes (mkNodeId 1 n)) = inl (Keyset (Some (be_bytes 8 n))) /\
  decode_find_nodes_cursor (NodeIds.to_bytes (mkNodeId 2 n)) = inl (Keyset (Some (NodeIds.to_bytes (mkNodeId 2 n)))).
Proof.
  unfold NodeIds.to_bytes, decode_find_nodes_cursor. cbn [site seq].
  change (b8 1) with Byte.x01. change (b8 2) with Byte.x02. cbn [app]. rewrite decide_True by done. rewrite decide_False by done.
  split; [by destruct (be_bytes 8 n) eqn:E; [apply (f_equal length) in E; rewrite length_be_bytes in E|]|].
  cbn [length]. by rewrite length_be_bytes.
Qed.
