(* ===== verification/AdminService.v ===== *)
(** * The administration service

    [pelago-api/src/admin_service.rs]: dropping indexes, types and namespaces, jobs,
    the schema owner of a namespace, sites, replication and the audit log.

    Loops that read pages of rows until none is left take fuel, and [None] is out
    of fuel.  The envelope of an edge row is the ends and the label of its data
    ([edge_ends]). *)

From S2P Require Import Prelude Bytes Text Errors Types Encoding Subspace SchemaTypes Fdb Cdc Ids Index TermIndex Namespace Jobs SchemaRegistry Node Edge.
From S2P Require Import NodeDelete Rows Replication Security Service Auth StateM JobExecutor RocksCache Wire GraphService.

(** ** Clearing rows *)

Section Clearing.
Context {S : Type} `{Fdb S} `{Cbor EdgeData}.

(** [clear_range]: all rows of a half-open range. *)
Definition kv_clear_range (t : S) (b e : bytes) : S := foldl (fun t k => kv_clear t k) t (kv_range t b e).*1.

Definition db_clear_range (b e : bytes) : M S unit :=
  t ← create_transaction;
  commit (fun e => Internal ("Commit failed: " ++ e)%string) (kv_clear_range t b e).

Fixpoint clear_prefix_entries (fuel : nat) (pre : bytes) (deleted : Z) : M S (option Z) :=
  match fuel with
  | O => mret None
  | Datatypes.S fuel =>
      batch ← get_range pre (pre ++ [Byte.xff]) 1000;
      match batch with
      | [] => mret (Some deleted)
      | _ =>
          t ← create_transaction;
          commit (fun e => Internal ("clear prefix batch commit failed: " ++ e)%string) (foldl (fun t k => kv_clear t k) t batch.*1) ;;
          clear_prefix_entries fuel pre (deleted + Z.of_nat (length batch))
      end
  end.

(** The pages of metadata rows: the keys that a row makes disappear are cleared page
    by page. *)
Fixpoint clear_by_meta (fuel : nat) (what : string) (keys_of : bytes * bytes -> option (list bytes)) (range_start range_end : bytes)
    (batch_size : nat) (cleared : Z) : M S (option Z) :=
  match fuel with
  | O => mret None
  | Datatypes.S fuel =>
      rows ← get_range range_start range_end (Nat.max batch_size 1);
      match last rows with
      | None => mret (Some cleared)
      | Some last_row =>
          t ← create_transaction;
          let hits := omap keys_of rows in
          (match hits with
           | [] => mret tt
           | _ => commit (fun e => Internal ("clear " ++ what ++ " commit failed: " ++ e)%string) (foldl (fun t k => kv_clear t k) t (concat hits))
           end) ;;
          let cleared := Z.min (cleared + Z.of_nat (length hits)) I64_MAX in
          if Nat.ltb (length rows) (Nat.max batch_size 1) then mret (Some cleared)
          else clear_by_meta fuel what keys_of (last_row.1 ++ [Byte.x00]) range_end batch_size cleared
      end
  end.

Definition clear_reverse_keys_for_source_type (fuel : nat) (database namespace source_entity_type : string) (batch_size : nat) : M S (option Z) :=
  let edge := Sub.edge (Sub.namespace database namespace) in
  let meta_prefix := Tuple.build (Tuple.add_string (Tuple.add_marker (Sub.pack edge) edge_markers.FORWARD_META) source_entity_type) in
  clear_by_meta fuel "reverse keys by source type"
    (fun kv => '(source, target, label) ← edge_ends kv.2; Some [reverse_like edge source target label])
    meta_prefix (meta_prefix ++ [Byte.xff]) batch_size 0.

Definition forward_key_from_meta_key (edge : Subspace) (meta_key : bytes) : option bytes :=
  let marker_pos := length (prefix edge) in
  match meta_key !! marker_pos with
  | Some m => if decide (m = edge_markers.FORWARD_META) then Some (<[marker_pos := edge_markers.FORWARD]> meta_key) else None
  | None => None
  end.

Definition clear_forward_meta_for_target_type (fuel : nat) (database namespace target_entity_type : string) (batch_size : nat) : M S (option Z) :=
  let edge := Sub.edge (Sub.namespace database namespace) in
  let meta_prefix := Tuple.build (Tuple.add_marker (Sub.pack edge) edge_markers.FORWARD_META) in
  clear_by_meta fuel "forward/meta keys by target type"
    (fun kv => '(source, target, label) ← edge_ends kv.2;
       if negb (String.eqb (ref_entity_type target) target_entity_type) then None
       else Some ([kv.1] ++ option_list (forward_key_from_meta_key edge kv.1)
                  ++ [reverse_like edge source target label; reverse_like edge target source label]))
    meta_prefix (meta_prefix ++ [Byte.xff]) batch_size 0.

(** The rows of one page that point to the type, up to the cap. *)
Fixpoint count_page (target_entity_type : string) (cap matched : nat) (rows : list (bytes * bytes)) : nat :=
  match rows with
  | [] => matched
  | kv :: rest =>
      match decode_cbor (A:=EdgeData) kv.2 with
      | Ok d =>
          match ed_target d with
          | Some target =>
              if String.eqb (ref_entity_type target) target_entity_type then
                if Nat.leb cap (matched + 1) then (matched + 1)%nat else count_page target_entity_type cap (matched + 1) rest
              else count_page target_entity_type cap matched rest
          | None => count_page target_entity_type cap matched rest
          end
      | Err _ => count_page target_entity_type cap matched rest
      end
  end.

Fixpoint count_loop (fuel : nat) (target_entity_type : string) (range_start range_end : bytes) (batch_size cap matched : nat) : M S (option nat) :=
  match fuel with
  | O => mret None
  | Datatypes.S fuel =>
      rows ← get_range range_start range_end (Nat.max batch_size 1);
      match last rows with
      | None => mret (Some matched)
      | Some last_row =>
          let matched := count_page target_entity_type cap matched rows in
          if Nat.leb cap matched then mret (Some matched)
          else if Nat.ltb (length rows) (Nat.max batch_size 1) then mret (Some matched)
          else count_loop fuel target_entity_type (last_row.1 ++ [Byte.x00]) range_end batch_size cap matched
      end
  end.

Definition count_forward_meta_rows_for_target_type_up_to (fuel : nat) (database namespace target_entity_type : string) (batch_size cap : nat)
    : M S (option nat) :=
  if Nat.eqb cap 0 then mret (Some 0%nat) else
  let edge := Sub.edge (Sub.namespace database namespace) in
  let meta_prefix := Tuple.build (Tuple.add_marker (Sub.pack edge) edge_markers.FORWARD_META) in
  count_loop fuel target_entity_type meta_prefix (meta_prefix ++ [Byte.xff]) batch_size cap 0.

Definition count_prefix_entries_up_to (pre : bytes) (cap : nat) : M S nat :=
  if Nat.eqb cap 0 then mret 0%nat else
  rows ← get_range pre (pre ++ [Byte.xff]) cap;
  mret (length rows).
End Clearing.

(** ** Messages *)

Definition storage_status_to_proto (s : JobStatus) : Z :=
  match s with Pending => 1 | Running => 2 | Completed => 3 | Failed => 4 end.

Record JobMsg := mkJobMsg {
  jm_job_id : string; jm_job_type : string; jm_status : Z; jm_created_at : Z; jm_updated_at : Z; jm_progress : Z; jm_error : string
}.
Definition storage_job_to_proto_job (j : JobState) : JobMsg :=
  mkJobMsg (job_id j) (job_type_name (job_type j)) (storage_status_to_proto (status j)) (job_created_at j) (job_updated_at j)
    (progress_pct j) (default "" (job_error j)).

Record NamespaceSettingsMsg := mkSettingsMsg {
  nsm_database : string; nsm_namespace : string; nsm_schema_owner_site_id : string; nsm_epoch : Z; nsm_updated_at : Z
}.
Definition namespace_settings_to_proto (s : NamespaceSettings) : NamespaceSettingsMsg :=
  mkSettingsMsg (ns_database s) (ns_namespace s) (default "" (schema_owner_site_id s)) (epoch s) (ns_updated_at s).

Record SiteMsg := mkSiteMsg { sm_site_id : string; sm_site_name : string; sm_claimed_at : Z; sm_status : string }.
Record PeerMsg := mkPeerMsg { pm_remote_site_id : string; pm_last_applied : bytes; pm_lag_events : Z; pm_updated_at : Z }.

(** ** Handlers *)

Section Admin.
Context {W S : Type} `{HasWorld W S} `{Fdb S} `{UuidSource} `{Cbor EdgeData} `{Cbor JobState} `{Cbor NamespaceSettings} `{Cbor SiteClaim}.
Context `{Cbor ReplicationPosition} `{Cbor AuditRecord} `{Cbor AuthPolicy}.

(** [.map_err(|e| Status::internal(format!(...)))] *)
Definition internally {A} (what : string) (m : M S A) : G W A := call (fun e => St.internal (what ++ ": " ++ display e)%string) m.

Definition admin_context (principal : option AuthPrincipal) (context : option RequestContext) (action : string) (entity_type : string) : G W RequestContext :=
  ctx ← from_option context (St.invalid_argument "missing context");
  authorize (S:=S) principal action (ctx_database ctx) (ctx_namespace ctx) entity_type ;;
  mret ctx.

Definition drop_index_rpc (fuel : nat) (principal : option AuthPrincipal) (context : option RequestContext) (entity_type property_name : string)
    : G W (option Z) :=
  ctx ← admin_context principal context "admin.write" entity_type;
  let pre := Tuple.build (Tuple.add_string (Tuple.add_string (Sub.pack (Sub.index (Sub.namespace (ctx_database ctx) (ctx_namespace ctx)))) entity_type)
               property_name) in
  internally "drop_index failed" (clear_prefix_entries fuel pre 0).

Definition strip_property_rpc (principal : option AuthPrincipal) (context : option RequestContext) (entity_type property_name : string) : G W string :=
  ctx ← admin_context principal context "admin.write" entity_type;
  j ← internally "failed to create strip-property job" (create_job (ctx_database ctx) (ctx_namespace ctx) (StripProperty entity_type property_name));
  mret (job_id j).

Definition get_job_status_rpc (principal : option AuthPrincipal) (context : option RequestContext) (id : string) : G W JobMsg :=
  ctx ← admin_context principal context "admin.read" "*";
  j ← internally "failed to fetch job" (get_job (ctx_database ctx) (ctx_namespace ctx) id);
  from_option (storage_job_to_proto_job <$> j) (St.not_found ("job '" ++ id ++ "' not found")%string).

Definition list_jobs_rpc (principal : option AuthPrincipal) (context : option RequestContext) : G W (list JobMsg) :=
  ctx ← admin_context principal context "admin.read" "*";
  l ← internally "failed to list jobs" (list_jobs (ctx_database ctx) (ctx_namespace ctx));
  mret (map storage_job_to_proto_job l).

(** The estimate of what a drop changes: the keys, and the edge rows of both kinds. *)
Definition estimate_drop (fuel : nat) (ctx : RequestContext) (entity_type : string) (prefixes : list (string * bytes)) : G W (option (list Z * Z)) :=
  let probe_limit := Z.to_nat (C4_TX_MAX_MUTATED_KEYS + 1) in
  counts ← (fix go (l : list (string * bytes)) : G W (list Z) :=
     match l with
     | [] => mret []
     | (what, pre) :: rest =>
         n ← internally ("failed to estimate " ++ what ++ " scope") (count_prefix_entries_up_to pre probe_limit);
         r ← go rest;
         mret (Z.of_nat n :: r)
     end) prefixes;
  targets ← internally "failed to estimate forward/meta target cleanup scope"
    (count_forward_meta_rows_for_target_type_up_to fuel (ctx_database ctx) (ctx_namespace ctx) entity_type 1000 probe_limit);
  mret (match targets with Some n => Some (counts, Z.of_nat n) | None => None end).

(** Steps that may run out of fuel, one after the other. *)
Fixpoint in_turn (steps : list (string * M S (option Z))) : G W (option unit) :=
  match steps with
  | [] => mret (Some tt)
  | (what, m) :: rest =>
      r ← internally ("failed to clear " ++ what) m;
      match r with Some _ => in_turn rest | None => mret None end
  end.

(** The response is the identifier of a job, or none. *)
Definition drop_entity_type_rpc (fuel : nat) (principal : option AuthPrincipal) (context : option RequestContext) (entity_type : string) (mode : Z)
    : G W (option string) :=
  ctx ← admin_context principal context "admin.write" entity_type;
  let ns := Sub.namespace (ctx_database ctx) (ctx_namespace ctx) in
  let of_type s := Tuple.build (Tuple.add_string (Sub.pack s) entity_type) in
  let edges_of m := Tuple.build (Tuple.add_string (Tuple.add_marker (Sub.pack (Sub.edge ns)) m) entity_type) in
  let schema_prefix := of_type (Sub.schema ns) in
  let data_prefix := of_type (Sub.data ns) in
  let idx_prefix := of_type (Sub.index ns) in
  let edge_forward_prefix := edges_of edge_markers.FORWARD in
  let edge_meta_prefix := edges_of edge_markers.FORWARD_META in
  let edge_reverse_target_prefix :=
    Tuple.build (Tuple.add_string (Tuple.add_string (Tuple.add_string (Tuple.add_marker (Sub.pack (Sub.edge ns)) edge_markers.REVERSE)
      (ctx_database ctx)) (ctx_namespace ctx)) entity_type) in
  est ← estimate_drop fuel ctx entity_type
    [("schema", schema_prefix); ("data", data_prefix); ("index", idx_prefix); ("forward edge", edge_forward_prefix);
     ("edge metadata", edge_meta_prefix); ("reverse edge", edge_reverse_target_prefix)];
  match est with
  | None => mret None
  | Some (counts, targets) =>
      let estimated_keys := foldl usize_saturating_add 0 (counts ++ [Z.min (targets * 2) USIZE_MAX]) in
      let estimated_bytes := Z.min (estimated_keys * 256) USIZE_MAX in
      if (C4_TX_MAX_MUTATED_KEYS <? estimated_keys) || (C4_TX_MAX_WRITE_BYTES <? estimated_bytes) then
        match mutation_mode mode with
        | AsyncAllowed =>
            j ← internally "failed to create drop-entity-type cleanup job"
                  (create_job (ctx_database ctx) (ctx_namespace ctx) (DropEntityTypeCleanup entity_type));
            mret (Some (job_id j))
        | InlineStrict =>
            refuse (into_status (MutationScopeTooLarge "drop_entity_type(INLINE_STRICT)" estimated_keys estimated_bytes
              (usize_saturating_add (nth 3 counts 0) (nth 5 counts 0)) "ASYNC_ALLOWED"))
        end
      else
        r ← in_turn
          [("schema", clear_prefix_entries fuel schema_prefix 0);
           ("data", clear_prefix_entries fuel data_prefix 0);
           ("indexes", clear_prefix_entries fuel idx_prefix 0);
           ("forward edges", clear_prefix_entries fuel edge_forward_prefix 0);
           ("reverse edges by dropped source type",
            clear_reverse_keys_for_source_type fuel (ctx_database ctx) (ctx_namespace ctx) entity_type 1000);
           ("forward/meta edges by dropped target type",
            clear_forward_meta_for_target_type fuel (ctx_database ctx) (ctx_namespace ctx) entity_type 1000);
           ("edge metadata", clear_prefix_entries fuel edge_meta_prefix 0);
           ("reverse edges", clear_prefix_entries fuel edge_reverse_target_prefix 0)];
        mret (match r with Some _ => Some "" | None => None end)
  end.

Definition drop_namespace_rpc (principal : option AuthPrincipal) (context : option RequestContext) : G W bool :=
  ctx ← admin_context principal context "admin.write" "*";
  let ns := Sub.namespace (ctx_database ctx) (ctx_namespace ctx) in
  rows ← internally "namespace probe failed" (get_range (prefix ns) (Sub.range_end ns) 1);
  match rows with
  | [] => mret false
  | _ => internally "drop_namespace failed" (db_clear_range (prefix ns) (Sub.range_end ns)) ;; mret true
  end.

Definition get_namespace_settings_rpc (principal : option AuthPrincipal) (context : option RequestContext) : G W (option NamespaceSettingsMsg) :=
  ctx ← admin_context principal context "admin.read" "*";
  s ← internally "get_namespace_settings failed" (get_namespace_settings (ctx_database ctx) (ctx_namespace ctx));
  mret (namespace_settings_to_proto <$> s).

Definition set_namespace_schema_owner_rpc (principal : option AuthPrincipal) (context : option RequestContext) (site_id : string)
    : G W NamespaceSettingsMsg :=
  ctx ← admin_context principal context "admin.write" "*";
  owner ← (if String.eqb (trim site_id) "" then mret None
           else r ← call into_status (resolve_site_identifier (trim site_id)); mret (Some r));
  updated ← internally "set_namespace_schema_owner failed" (set_namespace_schema_owner (ctx_database ctx) (ctx_namespace ctx) owner);
  mret (namespace_settings_to_proto updated).

Definition transfer_namespace_schema_owner_rpc (principal : option AuthPrincipal) (context : option RequestContext)
    (expected_site_id target_site_id : string) : G W NamespaceSettingsMsg :=
  ctx ← admin_context principal context "admin.write" "*";
  (if String.eqb (trim expected_site_id) "" then refuse (St.invalid_argument "expected_site_id must not be empty") else mret tt) ;;
  (if String.eqb (trim target_site_id) "" then refuse (St.invalid_argument "target_site_id must not be empty") else mret tt) ;;
  expected ← call into_status (resolve_site_identifier (trim expected_site_id));
  target ← call into_status (resolve_site_identifier (trim target_site_id));
  updated ← call into_status (transfer_namespace_schema_owner (ctx_database ctx) (ctx_namespace ctx) expected target);
  mret (namespace_settings_to_proto updated).

Definition list_sites_rpc (principal : option AuthPrincipal) (context : option RequestContext) : G W (list SiteMsg) :=
  admin_context principal context "admin.read" "*" ;;
  l ← internally "list_sites failed" list_sites;
  mret (map (fun s => mkSiteMsg (sc_site_id s) (sc_site_name s) (claimed_at s) "active") l).

Definition get_replication_status_rpc (principal : option AuthPrincipal) (context : option RequestContext) : G W (list PeerMsg) :=
  ctx ← admin_context principal context "admin.read" "*";
  l ← internally "get_replication_status failed" (get_replication_positions_scoped (ctx_database ctx) (ctx_namespace ctx));
  mret (map (fun p => mkPeerMsg (remote_site_id p) (default [] (last_applied_versionstamp p)) (lag_events p) (rp_updated_at p)) l).

Definition query_audit_log_rpc (principal : option AuthPrincipal) (context : option RequestContext) (principal_id action : string)
    (from_timestamp to_timestamp limit : Z) : G W (list AuditRecord) :=
  admin_context principal context "admin.read" "*" ;;
  let given s := if String.eqb s "" then None else Some s in
  let at_time t := if t =? 0 then None else Some t in
  internally "query_audit_log failed"
    (query_audit_records (given principal_id) (given action) (at_time from_timestamp) (at_time to_timestamp)
      (Z.to_nat (if limit =? 0 then 100 else limit))).
End Admin.
