(* ===== verification/AdminSpec.v ===== *)
(** * What administration removes

    Dropping an index or a namespace removes exactly its rows; what the schema cache
    and the planner make of it. *)

From S2P Require Import Prelude Bytes Text Errors Types Encoding Subspace SchemaTypes Fdb MemFdb Cdc Ids Index TermIndex Namespace Jobs SchemaRegistry Node.
From S2P Require Import NodeAtomic NodeSpec Edge NodeDelete Predicate Planner Cel Executor ExecutorSpec TermQuery QueryExamples Rows Replication Security Service Auth.
From S2P Require Import StateM JobExecutor RocksCache Wire GraphService AdminService.

Section Clear.
Context {S : Type} `{FdbLaws S} (env : Env) (Henv : no_faults env).
Implicit Types (w : World S) (t : S) (k pre : bytes).

(** The rows of a range are gone and all others are as before. *)
Definition range_gone (b e : bytes) t t' : Prop :=
  (forall k, in_scan b e k -> kv_get t' k = None) /\ (forall k, ~ in_scan b e k -> kv_get t' k = kv_get t k).

Lemma clear_fst t (l : list (bytes * bytes)) : foldl (fun t k => kv_clear t k) t l.*1 = foldl (fun t kv => kv_clear t kv.1) t l.
Proof. revert t. induction l as [|kv l IH]; intros t; cbn; [done|apply IH]. Qed.

Lemma range_empty_gone b e t t' : kv_range t' b e = [] -> (forall k, ~ in_scan b e k -> kv_get t' k = kv_get t k) -> range_gone b e t t'.
Proof.
  intros He Hk. split; [|done]. intros k Hin. destruct (kv_get t' k) as [v|] eqn:E; [|done].
  assert (Hel : (k, v) ∈ kv_range t' b e) by (by apply kv_range_elem). rewrite He in Hel. by apply not_elem_of_nil in Hel.
Qed.

Lemma cleared_outside b e t n k : ~ in_scan b e k -> kv_get (foldl (fun t k => kv_clear t k) t (take n (kv_range t b e)).*1) k = kv_get t k.
Proof.
  intros Hk. rewrite get_clear_keys, decide_False; [done|]. intros ([k' v] & -> & Hin%elem_of_take_1)%list_elem_of_fmap.
  apply kv_range_elem in Hin as [? _]. done.
Qed.

Lemma clear_range_gone b e t : range_gone b e t (kv_clear_range t b e).
Proof.
  unfold kv_clear_range. assert (Ht : kv_range t b e = take (length (kv_range t b e)) (kv_range t b e)) by (by rewrite take_ge).
  rewrite Ht. apply range_empty_gone.
  - rewrite clear_fst. destruct (kv_range_cleared t b e (length (kv_range t b e))) as [-> _]. by apply drop_ge.
  - intros k. apply cleared_outside.
Qed.

Lemma run_clear_prefix pre : forall fuel deleted w, (length (kv_range (w_kv w) pre (pre ++ [Byte.xff])) < fuel)%nat ->
  exists w', clear_prefix_entries fuel pre deleted env w
    = (Ok (Some (deleted + Z.of_nat (length (kv_range (w_kv w) pre (pre ++ [Byte.xff]))))), w') /\
    range_gone pre (pre ++ [Byte.xff]) (w_kv w) (w_kv w').
Proof.
  set (e := pre ++ [Byte.xff]). induction fuel as [|fuel IH]; intros deleted w Hf; [lia|]. cbn [clear_prefix_entries].
  destruct (run_get_range_at env Henv pre e 1000 None w) as [n En]. fold e. unfold get_range. rewrite (bind_run _ _ _ _ _ _ En). clear En. cbn [snapshot].
  destruct (take 1000 (kv_range (w_kv w) pre e)) as [|r rows] eqn:Et.
  { assert (Hnil : kv_range (w_kv w) pre e = []) by (by destruct (kv_range (w_kv w) pre e)). rewrite Hnil. cbn [length]. rewrite Z.add_0_r.
    eexists. split; [done|]. cbn [w_kv]. by apply range_empty_gone. }
  rewrite <- Et. mrun Henv. cbn [w_kv set_kv next_tick].
  set (t1 := foldl _ (w_kv w) _). destruct (kv_range_cleared (w_kv w) pre e 1000) as [Hr _]. rewrite <- clear_fst in Hr. fold t1 in Hr.
  set (w1 := set_kv _ t1). assert (Hlen : (length (kv_range (w_kv w1) pre e) < fuel)%nat).
  { change (w_kv w1) with t1. rewrite Hr, length_drop. apply (f_equal length) in Et. rewrite length_take in Et. change (length (r :: rows)) with (Datatypes.S (length rows)) in Et. lia. }
  destruct (IH (deleted + Z.of_nat (length (take 1000 (kv_range (w_kv w) pre e)))) w1 Hlen) as (w' & E & Hgone & Hkeep).
  change (w_kv w1) with t1 in *. exists w'. rewrite E. split.
  - do 3 f_equal. rewrite Hr. rewrite <- (take_drop 1000 (kv_range (w_kv w) pre e)) at 3. rewrite length_app. lia.
  - split; [done|]. intros k Hk. rewrite Hkeep by done. by apply cleared_outside.
Qed.
End Clear.

Lemma run_admin_context {W S} `{HasWorld W S} `{Fdb S} `{UuidSource} `{Cbor AuditRecord} `{Cbor AuthPolicy} ctx action et env (x : W) :
  admin_context (S:=S) None (Some ctx) action et env x = (inl ctx, x).
Proof. reflexivity. Qed.

(** Dropping an index.  The rows of the index of a property are removed, their
    number is reported, and no other key changes; the rounds of the loop are bounded
    by the rows. *)
Theorem drop_index_exact {W S} `{HasWorld W S} `{FdbLaws S} `{UuidSource} `{Cbor AuditRecord} `{Cbor AuthPolicy}
    (env : Env) (fuel : nat) (ctx : RequestContext) (entity_type property : string) (x : W) :
  let pre := Tuple.build (Tuple.add_string (Tuple.add_string (Sub.pack (Sub.index (Sub.namespace (ctx_database ctx) (ctx_namespace ctx)))) entity_type) property) in
  let rows := kv_range (w_kv (world_of x)) pre (pre ++ [Byte.xff]) in
  no_faults env -> (length rows < fuel)%nat ->
  exists x', drop_index_rpc (S:=S) fuel None (Some ctx) entity_type property env x = (inl (Some (Z.of_nat (length rows))), x') /\
    range_gone pre (pre ++ [Byte.xff]) (w_kv (world_of x)) (w_kv (world_of x')).
Proof.
  intros pre rows Henv Hf. destruct (run_clear_prefix env Henv pre fuel 0 (world_of x) Hf) as (w' & E & Hg). exists (with_world x w').
  unfold drop_index_rpc. rewrite (gbind_run _ _ _ _ _ _ (run_admin_context ctx _ _ env x)). unfold internally, call. fold pre. rewrite E.
  rewrite world_of_with. done.
Qed.

(** Dropping a namespace removes its rows and nothing else. *)
Theorem drop_namespace_exact {W S} `{HasWorld W S} `{FdbLaws S} `{UuidSource} `{Cbor AuditRecord} `{Cbor AuthPolicy}
    (env : Env) (ctx : RequestContext) (x : W) :
  let ns := Sub.namespace (ctx_database ctx) (ctx_namespace ctx) in
  no_faults env ->
  exists dropped x', drop_namespace_rpc (S:=S) None (Some ctx) env x = (inl dropped, x') /\
    range_gone (prefix ns) (Sub.range_end ns) (w_kv (world_of x)) (w_kv (world_of x')) /\
    (dropped = true <-> exists k, in_scan (prefix ns) (Sub.range_end ns) k /\ is_Some (kv_get (w_kv (world_of x)) k)).
Proof.
  intros ns Henv. set (w := world_of x). unfold drop_namespace_rpc.
  rewrite (gbind_run _ _ _ _ _ _ (run_admin_context ctx _ _ env x)). fold ns.
  destruct (run_get_range_at env Henv (prefix ns) (Sub.range_end ns) 1 None w) as [n En]. unfold get_range.
  assert (Erpc : internally "namespace probe failed" (get_range_at_read_version (prefix ns) (Sub.range_end ns) 1 None) env x
    = (inl (take 1 (kv_range (w_kv w) (prefix ns) (Sub.range_end ns))), with_world x (mkWorld (w_kv w) (w_cache w) (w_alloc w) (w_failpoints w) n)))
    by (unfold internally, call; fold w; by rewrite En).
  rewrite (gbind_run _ _ _ _ _ _ Erpc). destruct (kv_range (w_kv w) (prefix ns) (Sub.range_end ns)) as [|[k v] rows] eqn:Er; cbn [take].
  - eexists false, _. split; [done|]. rewrite world_of_with. cbn [w_kv]. split; [by apply range_empty_gone|]. split; [done|]. intros (k & Hk & v & Hv).
    assert (Hel : (k, v) ∈ kv_range (w_kv w) (prefix ns) (Sub.range_end ns)) by (by apply kv_range_elem).
    rewrite Er in Hel. by apply not_elem_of_nil in Hel.
  - unfold internally, call, mbind, G_bind. rewrite world_of_with. unfold db_clear_range. mrun Henv.
    rewrite run_commit by done. eexists true, _. split; [done|]. rewrite world_of_with. cbn [w_kv set_kv next_tick]. split.
    + apply clear_range_gone.
    + split; [|done]. intros _. exists k. assert (Hel : (k, v) ∈ kv_range (w_kv w) (prefix ns) (Sub.range_end ns)) by (rewrite Er; left).
      apply kv_range_elem in Hel as [? Hg]. split; [done|]. by exists v.
Qed.

(** ** What is left behind *)

#[local] Instance example_uuids : UuidSource | 100 := tick_uuid.

Definition accounts_context : RequestContext := mkRequestContext "db" "ns".
Definition without_age_index : World MemKv := (drop_index_rpc 10 None (Some accounts_context) "Account" "age" quiet_env account_world2).2.

(** The declaration of a dropped index stays in the schema: the planner still scans
    the index and the query returns nothing. *)
Theorem dropped_index_answers_nothing :
  plan "Account" "age >= 40" account_schema None None = Done (Ok by_age) /\
  answer by_age account_world2 = Some ["1_1"] /\ answer by_age without_age_index = Some [].
Proof. repeat split; vm_compute; reflexivity. Qed.

Definition without_accounts : World MemKv := (drop_entity_type_rpc 10 None (Some accounts_context) "Account" 0 quiet_env account_world2).2.
Definition account_data : bytes := Tuple.build (Tuple.add_string (Sub.pack (Sub.data (Sub.namespace "db" "ns"))) "Account").

(** Dropping a type clears its rows and keeps its schema in the cache: the server
    goes on creating nodes of the type. *)
Theorem dropped_type_still_cached :
  length (kv_range (w_kv account_world2) account_data (account_data ++ [Byte.xff])) = 2%nat /\
  kv_range (w_kv without_accounts) account_data (account_data ++ [Byte.xff]) = [] /\
  match (create_node account_store "db" "ns" "Account" bob quiet_env without_accounts).1 with
  | Ok node => sn_id node = "1_2"
  | Err _ => False
  end.
Proof. split; [vm_compute; reflexivity|]. split; vm_compute; reflexivity. Qed.
