(* ===== verification/SchemaInput.v ===== *)
(** * Schemas as text

    [pelago-cli/src/schema_input.rs]: a schema definition is JSON or a statement of a
    small SQL dialect; and the JSON and the difference of schemas that
    [pelago-cli/src/commands/schema.rs] prints.

    The JSON parser and printer are a class ([JsonText]); a JSON object is the list
    of its entries in the order of the map.  The parser of the SQL dialect is a
    function of the remaining tokens; its loops take fuel, [None] is out of fuel,
    and [fueled] gives them one round more than there are tokens. *)

From S2P Require Import Prelude Bytes Text Errors Types Encoding Subspace SchemaTypes Fdb Predicate Security Service Wire.

(** ** JSON *)

Inductive Number := PosInt (n : Z) | NegInt (n : Z) | FloatNum (bits : Z).
Inductive Json :=
  | JNull | JBool (b : bool) | JNumber (n : Number) | JString (s : string) | JArray (l : list Json) | JObject (l : list (string * Json)).

Class JsonText := { json_from_str : string -> Json + string; json_to_string : Json -> string }.

Definition as_object (v : Json) : option (list (string * Json)) := match v with JObject l => Some l | _ => None end.
Definition json_str (v : Json) : option string := match v with JString s => Some s | _ => None end.
Definition json_bool (v : Json) : option bool := match v with JBool b => Some b | _ => None end.

Definition number_as_i64 (n : Number) : option Z :=
  match n with PosInt n => if n <=? Predicate.I64_MAX then Some n else None | NegInt n => Some n | FloatNum _ => None end.
Definition as_i64 (v : Json) : option Z := match v with JNumber n => number_as_i64 n | _ => None end.

(** An integer is rounded to the nearest [f64]. *)
Definition number_as_f64 (n : Number) : Z :=
  match n with
  | PosInt n => f64_of_decimal n 0
  | NegInt n => 2 ^ 63 + f64_of_decimal (- n) 0
  | FloatNum bits => bits
  end.
Definition as_f64 (v : Json) : option Z := match v with JNumber n => Some (number_as_f64 n) | _ => None end.

Definition obj_get (obj : list (string * Json)) (key : string) : option Json := (list_to_map obj : gmap string Json) !! key.

Definition get_value_field (obj : list (string * Json)) (keys : list string) : option Json := head (omap (obj_get obj) keys).
Definition get_string_field (obj : list (string * Json)) (keys : list string) : option string := get_value_field obj keys ≫= json_str.
Definition get_bool_field (obj : list (string * Json)) (keys : list string) : option bool := get_value_field obj keys ≫= json_bool.
Definition get_i64_field (obj : list (string * Json)) (keys : list string) : option Z := get_value_field obj keys ≫= as_i64.

(** ** Words *)

(** [str::replace] of one character by another. *)
Definition replace_byte (a b : byte) (s : string) : string := bstr (map (fun c => if decide (c = a) then b else c) (sbytes s)).
Definition normalize_token (token : string) : string := replace_byte Byte.x20 Byte.x5f (replace_byte Byte.x2d Byte.x5f (to_ascii_lowercase (trim token))).

(** A value or a message. *)
Definition Res (A : Type) : Type := (A + string)%type.
#[export] Instance Res_ret : MRet Res := fun A a => inl a.
#[export] Instance Res_bind : MBind Res := fun A B f m => match m with inl a => f a | inr e => inr e end.

Definition res_of {A} (o : option A) (e : string) : Res A := match o with Some a => inl a | None => inr e end.

(** [code as i32] *)
Definition as_i32 (n : Z) : Z := (n + 2 ^ 31) mod 2 ^ 32 - 2 ^ 31.

(** The enumerations are parsed alike: a number that names a variant, or one of
    the words for it. *)
Definition parse_enum_value (v : Json) (variants : Z) (unknown_code : string) (not_text : string) (words : list (list string * Z))
    (unsupported : string -> string) : Res Z :=
  match as_i64 v with
  | Some code => if (0 <=? as_i32 code) && (as_i32 code <? variants) then inl (as_i32 code) else inr (unknown_code ++ bstr (show_i code))%string
  | None =>
      text ← res_of (json_str v) not_text;
      match List.find (fun w => bool_decide (normalize_token text ∈ w.1)) words with
      | Some w => inl w.2
      | None => inr (unsupported text)
      end
  end.

Definition parse_property_type_value (v : Json) : Res Z :=
  parse_enum_value v 7 "Unknown property type enum value: " "Property type must be a string or enum value"
    [(["string"; "str"; "property_type_string"], Pb.PROPERTY_TYPE_STRING);
     (["int"; "integer"; "i64"; "property_type_int"], Pb.PROPERTY_TYPE_INT);
     (["float"; "double"; "f64"; "property_type_float"], Pb.PROPERTY_TYPE_FLOAT);
     (["bool"; "boolean"; "property_type_bool"], Pb.PROPERTY_TYPE_BOOL);
     (["timestamp"; "time"; "property_type_timestamp"], Pb.PROPERTY_TYPE_TIMESTAMP);
     (["bytes"; "binary"; "property_type_bytes"], Pb.PROPERTY_TYPE_BYTES)]
    (fun text => "Unsupported property type '" ++ text ++ "'. Expected one of: string,int,float,bool,timestamp,bytes")%string.

Definition parse_index_type_value (v : Json) : Res Z :=
  parse_enum_value v 4 "Unknown index type enum value: " "Index type must be a string or enum value"
    [(["none"; "index_type_none"], Pb.INDEX_TYPE_NONE);
     (["unique"; "index_type_unique"], Pb.INDEX_TYPE_UNIQUE);
     (["equality"; "eq"; "index_type_equality"], Pb.INDEX_TYPE_EQUALITY);
     (["range"; "index_type_range"], Pb.INDEX_TYPE_RANGE)]
    (fun text => "Unsupported index type '" ++ text ++ "'. Expected one of: none,unique,equality,range")%string.

Definition EXTRAS_POLICY_UNSPECIFIED : Z := 0.
Definition parse_extras_policy_value (v : Json) : Res Z :=
  parse_enum_value v 4 "Unknown extras policy enum value: " "extras_policy must be a string or enum value"
    [(["reject"; "extras_policy_reject"], Pb.EXTRAS_POLICY_REJECT);
     (["allow"; "extras_policy_allow"], Pb.EXTRAS_POLICY_ALLOW);
     (["warn"; "extras_policy_warn"], Pb.EXTRAS_POLICY_WARN);
     (["unspecified"; "extras_policy_unspecified"], EXTRAS_POLICY_UNSPECIFIED)]
    (fun text => "Unsupported extras policy '" ++ text ++ "'. Expected one of: reject,allow,warn")%string.

Definition parse_edge_direction_value (v : Json) : Res Z :=
  parse_enum_value v 3 "Unknown edge direction enum value: " "Edge direction must be a string or enum value"
    [(["outgoing"; "edge_direction_def_outgoing"; "edge_direction_outgoing"], Pb.EDGE_DIRECTION_DEF_OUTGOING);
     (["bidirectional"; "edge_direction_def_bidirectional"; "edge_direction_bidirectional"], Pb.EDGE_DIRECTION_DEF_BIDIRECTIONAL)]
    (fun text => "Unsupported edge direction '" ++ text ++ "'. Expected outgoing|bidirectional")%string.

Definition parse_ownership_mode_value (v : Json) : Res Z :=
  parse_enum_value v 3 "Unknown ownership mode enum value: " "Ownership mode must be a string or enum value"
    [(["source_site"; "sourcesite"; "ownership_mode_source_site"], Pb.OWNERSHIP_MODE_SOURCE_SITE);
     (["independent"; "ownership_mode_independent"], Pb.OWNERSHIP_MODE_INDEPENDENT)]
    (fun text => "Unsupported ownership mode '" ++ text ++ "'. Expected source_site|independent")%string.

Definition parse_target_from_string (target : string) : Pb.EdgeTarget :=
  let target := trim target in
  if String.eqb target "*" || eq_ignore_ascii_case target "polymorphic" then Pb.mkEdgeTarget (Some (Pb.PolymorphicKind true))
  else Pb.mkEdgeTarget (Some (Pb.SpecificType target)).

(** ** Schemas in JSON *)

(** [for (k, v) in map { out.insert(k, parse(k, v)?); }] *)
Fixpoint parse_entries {A} (parse : string -> Json -> Res A) (l : list (string * Json)) (out : gmap string A) : Res (gmap string A) :=
  match l with
  | [] => mret out
  | (k, v) :: rest => a ← parse k v; parse_entries parse rest (<[k := a]> out)
  end.

Definition object_entries {A} (parse : string -> Json -> Res A) (obj : list (string * Json)) (key : string) : Res (gmap string A) :=
  match obj_get obj key ≫= as_object with Some l => parse_entries parse l ∅ | None => mret ∅ end.

Section Values.
Context `{JsonText}.

(** A wrapper object of one entry, under either of two names. *)
Definition wrapped_field (obj : list (string * Json)) (a b : string) : option Json :=
  match obj_get obj a with Some v => Some v | None => obj_get obj b end.

Definition value_of (k : Pb.Kind) : Pb.Value := Pb.mkValue (Some k).

Definition parse_wrapped (obj : list (string * Json)) : option (Res Pb.Value) :=
  match wrapped_field obj "string_value" "stringValue" with
  | Some v => Some (s ← res_of (json_str v) "string_value must be a string"; mret (value_of (Pb.StringValue s)))
  | None =>
  match wrapped_field obj "int_value" "intValue" with
  | Some v => Some (i ← res_of (as_i64 v) "int_value must be an integer"; mret (value_of (Pb.IntValue i)))
  | None =>
  match wrapped_field obj "float_value" "floatValue" with
  | Some v => Some (f ← res_of (as_f64 v) "float_value must be a number"; mret (value_of (Pb.FloatValue f)))
  | None =>
  match wrapped_field obj "bool_value" "boolValue" with
  | Some v => Some (b ← res_of (json_bool v) "bool_value must be true/false"; mret (value_of (Pb.BoolValue b)))
  | None =>
  match wrapped_field obj "timestamp_value" "timestampValue" with
  | Some v => Some (t ← res_of (as_i64 v) "timestamp_value must be an integer (unix micros)"; mret (value_of (Pb.TimestampValue t)))
  | None =>
  match wrapped_field obj "bytes_value" "bytesValue" with
  | Some v => Some (s ← res_of (json_str v) "bytes_value must be a string"; mret (value_of (Pb.BytesValue (sbytes s))))
  | None =>
  match wrapped_field obj "null_value" "nullValue" with
  | Some v => Some (mret (value_of (Pb.NullValue (default true (json_bool v)))))
  | None => None
  end end end end end end end.

Definition parse_proto_value (v : Json) : Res Pb.Value :=
  let plain :=
    match v with
    | JString s => Pb.StringValue s
    | JNumber n => match number_as_i64 n with Some i => Pb.IntValue i | None => Pb.FloatValue (number_as_f64 n) end
    | JBool b => Pb.BoolValue b
    | JNull => Pb.NullValue true
    | JArray _ | JObject _ => Pb.StringValue (json_to_string v)
    end in
  match v with
  | JObject ([_] as obj) => default (mret (value_of plain)) (parse_wrapped obj)
  | _ => mret (value_of plain)
  end.

Definition parse_property_def_json (name : string) (v : Json) : Res Pb.PropertyDef :=
  obj ← res_of (as_object v) ("Property '" ++ name ++ "' must be an object")%string;
  tv ← res_of (get_value_field obj ["type"; "property_type"; "propertyType"])
         ("Property '" ++ name ++ "' missing required field: type")%string;
  t ← parse_property_type_value tv;
  let required := default false (get_bool_field obj ["required"; "not_null"; "notNull"]) in
  index ← match get_value_field obj ["index"] with Some v => i ← parse_index_type_value v; mret (Some i) | None => mret None end;
  d ← match get_value_field obj ["default_value"; "defaultValue"; "default"] with
      | Some v => d ← parse_proto_value v; mret (Some d)
      | None => mret None
      end;
  mret (Pb.mkPropertyDef t required index d).

Definition parse_edge_target_value (v : Json) : Res Pb.EdgeTarget :=
  let specific s := mret (Pb.mkEdgeTarget (Some (Pb.SpecificType s))) in
  let polymorphic := mret (Pb.mkEdgeTarget (Some (Pb.PolymorphicKind true))) in
  let within (obj : list (string * Json)) (otherwise : Res Pb.EdgeTarget) : Res Pb.EdgeTarget :=
    match get_string_field obj ["specific_type"; "specificType"] with
    | Some s => specific s
    | None => match get_bool_field obj ["polymorphic"] with Some true => polymorphic | _ => otherwise end
    end in
  match json_str v with
  | Some target_name => mret (parse_target_from_string target_name)
  | None =>
      obj ← res_of (as_object v) "Edge target must be a string or object";
      within obj
        (let fail := inr "Edge target must include specific_type or polymorphic=true" in
         match obj_get obj "kind" ≫= as_object with Some kind_obj => within kind_obj fail | None => fail end)
  end.

Definition parse_edge_def_json (name : string) (v : Json) : Res Pb.EdgeDef :=
  match json_str v with
  | Some target_name =>
      mret (Pb.mkEdgeDef (Some (parse_target_from_string target_name)) Pb.EDGE_DIRECTION_DEF_OUTGOING ∅ "" Pb.OWNERSHIP_MODE_SOURCE_SITE)
  | None =>
      obj ← res_of (as_object v) ("Edge '" ++ name ++ "' must be an object or target string")%string;
      tv ← res_of (get_value_field obj ["target"]) ("Edge '" ++ name ++ "' missing required field: target")%string;
      target ← parse_edge_target_value tv;
      direction ← match get_value_field obj ["direction"] with
                  | Some v => parse_edge_direction_value v
                  | None => mret Pb.EDGE_DIRECTION_DEF_OUTGOING
                  end;
      ownership ← match get_value_field obj ["ownership"] with
                  | Some v => parse_ownership_mode_value v
                  | None => mret Pb.OWNERSHIP_MODE_SOURCE_SITE
                  end;
      let sort_key := default "" (get_string_field obj ["sort_key"; "sortKey"]) in
      properties ← object_entries parse_property_def_json obj "properties";
      mret (Pb.mkEdgeDef (Some target) direction properties sort_key ownership)
  end.

Definition parse_schema_meta_json (obj : list (string * Json)) : Res Pb.SchemaMeta :=
  let allow := default false (get_bool_field obj ["allow_undeclared_edges"; "allowUndeclaredEdges"]) in
  policy ← match get_value_field obj ["extras_policy"; "extrasPolicy"] with
           | Some v => parse_extras_policy_value v
           | None => mret EXTRAS_POLICY_UNSPECIFIED
           end;
  mret (Pb.mkSchemaMeta allow policy).

Definition parse_schema_json_value (json : Json) : Res Pb.EntitySchema :=
  obj ← res_of (as_object json) "Schema JSON must be an object";
  name ← res_of (get_string_field obj ["name"; "entity_type"; "entityType"]) "Missing required schema field: name";
  properties ← object_entries parse_property_def_json obj "properties";
  edges ← object_entries parse_edge_def_json obj "edges";
  meta ← match get_value_field obj ["meta"; "schema_meta"; "schemaMeta"] ≫= as_object with
         | Some m => m ← parse_schema_meta_json m; mret (Some m)
         | None => mret None
         end;
  mret (Pb.mkEntitySchema name 0 properties edges meta (default 0 (get_i64_field obj ["created_at"; "createdAt"]))
    (default "" (get_string_field obj ["created_by"; "createdBy"]))).

Definition parse_schema_json_str (input : string) : Res Pb.EntitySchema :=
  match json_from_str input with
  | inl json => parse_schema_json_value json
  | inr e => inr ("Failed to parse schema JSON payload: " ++ e)%string
  end.
End Values.

(** ** Tokens *)

Record SqlToken := mkToken { text : string; quoted : bool }.

Definition is_whitespace (c : bytes) : bool := bool_decide (c ∈ white_space).
Definition is_char (b : byte) (c : bytes) : bool := bool_decide (c = [b]).
(** One of [(], [)], [,], [;] and [=]. *)
Definition is_symbol (c : bytes) : bool := bool_decide (c ∈ [[Byte.x28]; [Byte.x29]; [Byte.x2c]; [Byte.x3b]; [Byte.x3d]]).
Definition is_quote (c : bytes) : bool := is_char Byte.x27 c || is_char Byte.x22 c.
Definition dash : byte := Byte.x2d.
Definition hash : byte := Byte.x23.

(** The characters after the end of the line. *)
Fixpoint skip_line (l : list bytes) : list bytes :=
  match l with [] => [] | c :: rest => if is_char Byte.x0a c then rest else skip_line rest end.

(** The text up to the closing quote, and the characters after it. *)
Fixpoint read_quoted (quote : bytes) (escaped : bool) (value : bytes) (l : list bytes) : option (bytes * list bytes) :=
  match l with
  | [] => None
  | c :: rest =>
      if escaped then read_quoted quote false (value ++ c) rest
      else if is_char Byte.x5c c then read_quoted quote true value rest
      else if decide (c = quote) then Some (value, rest)
      else read_quoted quote false (value ++ c) rest
  end.

Definition starts_comment (l : list bytes) : bool :=
  match l with c :: d :: _ => is_char dash c && is_char dash d | _ => false end.

(** The rest of a word, and the characters after it. *)
Fixpoint read_word (word : bytes) (l : list bytes) : bytes * list bytes :=
  match l with
  | [] => (word, [])
  | c :: rest =>
      if is_whitespace c || is_symbol c || is_char hash c || starts_comment l then (word, l)
      else read_word (word ++ c) rest
  end.

Fixpoint tokenize_loop (fuel : nat) (tokens : list SqlToken) (l : list bytes) : option (Res (list SqlToken)) :=
  match fuel with
  | O => None
  | Datatypes.S fuel =>
      match l with
      | [] => Some (inl tokens)
      | c :: rest =>
          if is_whitespace c then tokenize_loop fuel tokens rest
          else if starts_comment l then tokenize_loop fuel tokens (skip_line (tail rest))
          else if is_char hash c then tokenize_loop fuel tokens (skip_line rest)
          else if is_symbol c then tokenize_loop fuel (tokens ++ [mkToken (bstr c) false]) rest
          else if is_quote c then
            match read_quoted c false [] rest with
            | None => Some (inr "Unterminated quoted string in SQL schema definition")
            | Some (value, rest) => tokenize_loop fuel (tokens ++ [mkToken (bstr value) true]) rest
            end
          else
            let '(word, rest) := read_word c rest in
            tokenize_loop fuel (tokens ++ [mkToken (bstr word) false]) rest
      end
  end.

Definition tokenize_sql (input : string) : option (Res (list SqlToken)) :=
  let l := chars (sbytes input) in
  tokenize_loop (Datatypes.S (length l)) [] l.

(** ** The parser *)

(** A parser takes the tokens that are left. *)
Definition Parser (A : Type) : Type := list SqlToken -> option (Res (A * list SqlToken)).
#[export] Instance Parser_ret : MRet Parser := fun A a ts => Some (inl (a, ts)).
#[export] Instance Parser_bind : MBind Parser := fun A B f m ts =>
  match m ts with Some (inl (a, ts')) => f a ts' | Some (inr e) => Some (inr e) | None => None end.

Definition fail {A} (e : string) : Parser A := fun _ => Some (inr e).
Definition out_of_fuel {A} : Parser A := fun _ => None.
Definition of_res {A} (r : Res A) : Parser A := fun ts => match r with inl a => Some (inl (a, ts)) | inr e => Some (inr e) end.
Definition fueled {A} (f : nat -> Parser A) : Parser A := fun ts => f (Datatypes.S (length ts)) ts.

Definition peek : Parser (option SqlToken) := fun ts => Some (inl (head ts, ts)).
Definition peek_text (eof : string) : Parser string := t ← peek; mret (match t with Some t => text t | None => eof end).
Definition is_eof : Parser bool := fun ts => Some (inl (match ts with [] => true | _ => false end, ts)).
Definition next_token (missing : string) : Parser SqlToken :=
  fun ts => match ts with t :: rest => Some (inl (t, rest)) | [] => Some (inr missing) end.

Definition token_is (test : string -> bool) : Parser bool :=
  t ← peek; mret (match t with Some t => negb (quoted t) && test (text t) | None => false end).
Definition check_keyword (keyword : string) : Parser bool := token_is (fun s => eq_ignore_ascii_case s keyword).
Definition check_symbol (symbol : string) : Parser bool := token_is (fun s => String.eqb s symbol).

Definition advance : Parser unit := fun ts => Some (inl (tt, tail ts)).
Definition match_with (check : Parser bool) : Parser bool := b ← check; if (b : bool) then advance ;; mret true else mret false.
Definition match_keyword (keyword : string) : Parser bool := match_with (check_keyword keyword).
Definition match_symbol (symbol : string) : Parser bool := match_with (check_symbol symbol).

(** The position is restored when the second word does not follow. *)
Definition match_compound_keyword (a b : string) : Parser bool := fun ts =>
  match (x ← match_keyword a; if (x : bool) then match_keyword b else mret false) ts with
  | Some (inl (true, rest)) => Some (inl (true, rest))
  | Some (inl (false, _)) => Some (inl (false, ts))
  | r => r
  end.

Definition expect_keyword (expected : string) : Parser unit :=
  b ← match_keyword expected;
  if (b : bool) then mret tt
  else got ← peek_text "<eof>"; fail ("Expected keyword '" ++ expected ++ "' but found '" ++ got ++ "'")%string.
Definition expect_symbol (symbol : string) : Parser unit :=
  b ← match_symbol symbol;
  if (b : bool) then mret tt
  else got ← peek_text "<eof>"; fail ("Expected symbol '" ++ symbol ++ "' but found '" ++ got ++ "'")%string.

Definition expect_identifier (context : string) : Parser string :=
  t ← next_token ("Expected " ++ context ++ " but found end of input")%string;
  if negb (quoted t) && bool_decide (text t ∈ ["("; ")"; ","; ";"; "="]) then fail ("Expected " ++ context ++ " but found '" ++ text t ++ "'")%string
  else mret (text t).

Fixpoint skip_semicolons (fuel : nat) : Parser unit :=
  match fuel with
  | O => out_of_fuel
  | Datatypes.S fuel => b ← match_symbol ";"; if (b : bool) then skip_semicolons fuel else mret tt
  end.
Definition consume_semicolons : Parser unit := fueled skip_semicolons.

Definition parse_bool_literal (field_name : string) : Parser bool :=
  t ← next_token ("Missing boolean value for " ++ field_name)%string;
  let w := normalize_token (text t) in
  if String.eqb w "true" then mret true
  else if String.eqb w "false" then mret false
  else fail (field_name ++ " expects true|false but got '" ++ text t ++ "'")%string.

(** [str::parse::<f64>]: the texts of the infinities and of NaN, or a decimal
    number. *)
Definition parse_f64 (l : bytes) : option Z :=
  let '(neg, r) := strip_sign l in
  let word := to_ascii_lowercase (bstr r) in
  let signed bits := Some (if neg : bool then 2 ^ 63 + bits else bits) in
  if String.eqb word "inf" || String.eqb word "infinity" then signed F64_INF
  else if String.eqb word "nan" then signed 0x7FF8000000000000
  else parse_f64_dotted l.

Definition sql_literal (t : SqlToken) : Pb.Kind :=
  if quoted t then Pb.StringValue (text t) else
  let w := normalize_token (text t) in
  if String.eqb w "true" then Pb.BoolValue true
  else if String.eqb w "false" then Pb.BoolValue false
  else if String.eqb w "null" then Pb.NullValue true
  else match Predicate.parse_i64 (sbytes (text t)) with
       | Some i => Pb.IntValue i
       | None => match parse_f64 (sbytes (text t)) with Some f => Pb.FloatValue f | None => Pb.StringValue (text t) end
       end.

Definition parse_default_literal : Parser Pb.Value :=
  t ← next_token "Missing value after DEFAULT";
  mret (value_of (sql_literal t)).

Definition parse_property_type_token (token : string) : Res Z := parse_property_type_value (JString token).
Definition parse_index_type_token (token : string) : Res Z := parse_index_type_value (JString token).
Definition parse_extras_policy_token (token : string) : Res Z := parse_extras_policy_value (JString token).
Definition parse_edge_direction_token (token : string) : Res Z := parse_edge_direction_value (JString token).
Definition parse_ownership_mode_token (token : string) : Res Z := parse_ownership_mode_value (JString token).

(** The options of a property, up to a comma or a parenthesis. *)
Fixpoint property_options (name scope : string) (fuel : nat) (def : Pb.PropertyDef) : Parser Pb.PropertyDef :=
  match fuel with
  | O => out_of_fuel
  | Datatypes.S fuel =>
      let set_required := Pb.mkPropertyDef (Pb.type def) true (Pb.index def) (Pb.default_value def) in
      eof ← is_eof; comma ← check_symbol ","; close ← check_symbol ")";
      if (eof || comma || close : bool) then mret def else
      b ← match_keyword "required";
      if (b : bool) then property_options name scope fuel set_required else
      b ← match_compound_keyword "not" "null";
      if (b : bool) then property_options name scope fuel set_required else
      b ← match_keyword "index";
      if (b : bool) then
        t ← next_token ("Missing index value for property '" ++ name ++ "'")%string;
        i ← of_res (parse_index_type_token (text t));
        property_options name scope fuel (Pb.mkPropertyDef (Pb.type def) (Pb.required def) (Some i) (Pb.default_value def))
      else
      b ← match_keyword "default";
      if (b : bool) then
        v ← parse_default_literal;
        property_options name scope fuel (Pb.mkPropertyDef (Pb.type def) (Pb.required def) (Pb.index def) (Some v))
      else
      token ← peek_text "<eof>";
      fail ("Unexpected token '" ++ token ++ "' while parsing property '" ++ name ++ "' in " ++ scope)%string
  end.

Definition parse_property (scope : string) : Parser (string * Pb.PropertyDef) :=
  name ← expect_identifier "property name";
  type_token ← next_token ("Missing type for property '" ++ name ++ "' in " ++ scope)%string;
  t ← of_res (parse_property_type_token (text type_token));
  def ← fueled (fun fuel => property_options name scope fuel (Pb.mkPropertyDef t false None None));
  mret (name, def).

Fixpoint property_list (scope : string) (fuel : nat) (properties : gmap string Pb.PropertyDef) : Parser (gmap string Pb.PropertyDef) :=
  match fuel with
  | O => out_of_fuel
  | Datatypes.S fuel =>
      close ← check_symbol ")";
      if (close : bool) then mret properties else
      p ← parse_property scope;
      let properties := <[p.1 := p.2]> properties in
      comma ← match_symbol ",";
      if (comma : bool) then property_list scope fuel properties else
      close ← check_symbol ")";
      if (close : bool) then mret properties else fail ("Expected ',' or ')' while parsing " ++ scope)%string
  end.

Definition parse_property_list (scope : string) : Parser (gmap string Pb.PropertyDef) := fueled (fun fuel => property_list scope fuel ∅).

Fixpoint with_options (fuel : nat) (meta : Pb.SchemaMeta) : Parser Pb.SchemaMeta :=
  match fuel with
  | O => out_of_fuel
  | Datatypes.S fuel =>
      close ← check_symbol ")";
      if (close : bool) then mret meta else
      id ← expect_identifier "WITH option key";
      let key := normalize_token id in
      expect_symbol "=" ;;
      meta ← (if String.eqb key "allow_undeclared_edges" then
                b ← parse_bool_literal "allow_undeclared_edges"; mret (Pb.mkSchemaMeta b (Pb.extras_policy meta))
              else if String.eqb key "extras_policy" then
                v ← next_token "Missing extras_policy value in WITH clause";
                p ← of_res (parse_extras_policy_token (text v));
                mret (Pb.mkSchemaMeta (Pb.allow_undeclared_edges meta) p)
              else fail ("Unsupported WITH option '" ++ key ++ "'")%string);
      comma ← match_symbol ",";
      if (comma : bool) then with_options fuel meta else
      close ← check_symbol ")";
      if (close : bool) then mret meta else fail "Expected ',' or ')' after WITH option"
  end.

Definition parse_with_clause : Parser Pb.SchemaMeta :=
  expect_symbol "(" ;;
  meta ← fueled (fun fuel => with_options fuel (Pb.mkSchemaMeta false EXTRAS_POLICY_UNSPECIFIED));
  expect_symbol ")" ;;
  mret meta.

Fixpoint edge_options (fuel : nat) (e : Pb.EdgeDef) : Parser Pb.EdgeDef :=
  match fuel with
  | O => out_of_fuel
  | Datatypes.S fuel =>
      eof ← is_eof; semi ← check_symbol ";"; edge ← check_keyword "edge"; wth ← check_keyword "with";
      if (eof || semi || edge || wth : bool) then mret e else
      b ← check_symbol "(";
      if (b : bool) then
        expect_symbol "(" ;;
        ps ← parse_property_list "edge properties";
        expect_symbol ")" ;;
        edge_options fuel (Pb.mkEdgeDef (Pb.target e) (Pb.direction e) ps (Pb.sort_key e) (Pb.ownership e))
      else
      b ← match_keyword "direction";
      if (b : bool) then
        t ← next_token "Missing edge direction value";
        d ← of_res (parse_edge_direction_token (text t));
        edge_options fuel (Pb.mkEdgeDef (Pb.target e) d (Pb.edge_properties e) (Pb.sort_key e) (Pb.ownership e))
      else
      b ← match_keyword "ownership";
      if (b : bool) then
        t ← next_token "Missing edge ownership value";
        o ← of_res (parse_ownership_mode_token (text t));
        edge_options fuel (Pb.mkEdgeDef (Pb.target e) (Pb.direction e) (Pb.edge_properties e) (Pb.sort_key e) o)
      else
      a ← match_keyword "sort_key";
      b ← (if (a : bool) then mret true else match_compound_keyword "sort" "key");
      if (b : bool) then
        k ← expect_identifier "sort key property";
        edge_options fuel (Pb.mkEdgeDef (Pb.target e) (Pb.direction e) (Pb.edge_properties e) k (Pb.ownership e))
      else
      token ← peek_text "<eof>";
      fail ("Unexpected token '" ++ token ++ "' in EDGE clause")%string
  end.

Definition parse_edge_clause : Parser (string * Pb.EdgeDef) :=
  label ← expect_identifier "edge label";
  a ← match_keyword "to";
  b ← (if (a : bool) then mret true else match_keyword "target");
  if negb b then fail "EDGE clause requires TO <target>" else
  target_token ← next_token "Missing edge target after TO";
  e ← fueled (fun fuel => edge_options fuel
        (Pb.mkEdgeDef (Some (parse_target_from_string (text target_token))) Pb.EDGE_DIRECTION_DEF_OUTGOING ∅ "" Pb.OWNERSHIP_MODE_SOURCE_SITE));
  mret (label, e).

Definition set_meta (s : Pb.EntitySchema) (m : Pb.SchemaMeta) : Pb.EntitySchema :=
  Pb.mkEntitySchema (Pb.name s) (Pb.version s) (Pb.properties s) (Pb.edges s) (Some m) (Pb.created_at s) (Pb.created_by s).
Definition add_edge_def (s : Pb.EntitySchema) (label : string) (e : Pb.EdgeDef) : Pb.EntitySchema :=
  Pb.mkEntitySchema (Pb.name s) (Pb.version s) (Pb.properties s) (<[label := e]> (Pb.edges s)) (Pb.meta s) (Pb.created_at s) (Pb.created_by s).

Fixpoint schema_clauses (fuel : nat) (s : Pb.EntitySchema) : Parser Pb.EntitySchema :=
  match fuel with
  | O => out_of_fuel
  | Datatypes.S fuel =>
      consume_semicolons ;;
      eof ← is_eof;
      if (eof : bool) then mret s else
      b ← match_keyword "with";
      if (b : bool) then m ← parse_with_clause; schema_clauses fuel (set_meta s m) else
      b ← match_keyword "edge";
      if (b : bool) then e ← parse_edge_clause; schema_clauses fuel (add_edge_def s e.1 e.2) else
      mret s
  end.

Definition parse_schema : Parser Pb.EntitySchema :=
  expect_keyword "create" ;;
  a ← match_keyword "type";
  b ← (if (a : bool) then mret true else match_keyword "schema");
  if negb b then fail "Expected TYPE or SCHEMA after CREATE" else
  name ← expect_identifier "schema name";
  expect_symbol "(" ;;
  properties ← parse_property_list "schema properties";
  expect_symbol ")" ;;
  fueled (fun fuel => schema_clauses fuel (Pb.mkEntitySchema name 0 properties ∅ None 0 "")).

(** A schema and nothing after it. *)
Definition parse_statement : Parser Pb.EntitySchema :=
  schema ← parse_schema;
  consume_semicolons ;;
  eof ← is_eof;
  if (eof : bool) then mret schema
  else t ← peek_text ""; fail ("Unexpected token '" ++ t ++ "' after end of CREATE TYPE definition")%string.

Definition parse_schema_sql (input : string) : option (Res Pb.EntitySchema) :=
  match tokenize_sql input with
  | None => None
  | Some (inr e) => Some (inr e)
  | Some (inl tokens) =>
      match parse_statement tokens with
      | None => None
      | Some (inr e) => Some (inr e)
      | Some (inl (schema, _)) => Some (inl schema)
      end
  end.

Inductive SchemaInputFormat := AutoFormat | JsonFormat | SqlFormat.

Definition parse_schema_input `{JsonText} (input : string) (format : SchemaInputFormat) : option (Res Pb.EntitySchema) :=
  match format with
  | JsonFormat => Some (parse_schema_json_str input)
  | SqlFormat => parse_schema_sql input
  | AutoFormat => match json_from_str input with inl json => Some (parse_schema_json_value json) | inr _ => parse_schema_sql input end
  end.

(** ** Schemas as they are printed *)

Definition property_type_name (v : Z) : string :=
  match v with 1 => "string" | 2 => "int" | 3 => "float" | 4 => "bool" | 5 => "timestamp" | 6 => "bytes" | _ => "unknown" end.
Definition index_type_name (v : Z) : string :=
  match v with 0 => "none" | 1 => "unique" | 2 => "equality" | 3 => "range" | _ => "none" end.
Definition index_type_name_opt (v : option Z) : string := index_type_name (default Pb.INDEX_TYPE_NONE v).

Definition json_of_int (n : Z) : Json := JNumber (if 0 <=? n then PosInt n else NegInt n).

(** A JSON map keeps its entries in the order of their keys. *)
Definition key_le (a b : string * Json) : Prop := String.leb a.1 b.1 = true.
#[export] Instance key_le_dec a b : Decision (key_le a b) := decide (String.leb a.1 b.1 = true).
Definition json_map (m : gmap string Json) : Json := JObject (merge_sort key_le (map_to_list m)).

Definition property_to_json (p : Pb.PropertyDef) : Json :=
  json_map (list_to_map
    [("type", JString (property_type_name (Pb.type p))); ("required", JBool (Pb.required p)); ("index", JString (index_type_name_opt (Pb.index p)))]).

Definition schema_to_json (s : Pb.EntitySchema) : Json :=
  json_map (list_to_map
    [("name", JString (Pb.name s)); ("version", json_of_int (Pb.version s)); ("properties", json_map (property_to_json <$> Pb.properties s));
     ("created_at", json_of_int (Pb.created_at s)); ("created_by", JString (Pb.created_by s))]).

Record SchemaChange := mkChange { change_kind : string; change_field : string; change_old : string; change_new : string }.

Definition describe_property (p : Pb.PropertyDef) : string :=
  ("type=" ++ property_type_name (Pb.type p) ++ ", required=" ++ (if Pb.required p then "true" else "false") ++ ", index="
   ++ index_type_name_opt (Pb.index p))%string.

Definition schema_changes `{HashIter} (left right : Pb.EntitySchema) : list SchemaChange :=
  omap (fun kv =>
    match Pb.properties right !! kv.1 with
    | None => Some (mkChange "removed" kv.1 (describe_property kv.2) "")
    | Some p =>
        if negb (Pb.type kv.2 =? Pb.type p) || negb (Bool.eqb (Pb.required kv.2) (Pb.required p)) || negb (bool_decide (Pb.index kv.2 = Pb.index p))
        then Some (mkChange "changed" kv.1 (describe_property kv.2) (describe_property p)) else None
    end) (hm_iter (Pb.properties left))
  ++ omap (fun kv => match Pb.properties left !! kv.1 with
                     | None => Some (mkChange "added" kv.1 "" (describe_property kv.2))
                     | Some _ => None
                     end) (hm_iter (Pb.properties right)).
