(* ===== verification/SchemaInputSpec.v ===== *)
(** * Schema texts are read back

    The parser of the SQL dialect ends on every input ([parse_schema_sql_total]).
    The text that [schema_text] writes for a schema is read back as that schema
    ([schema_sql_roundtrip]), so that every schema of the registry whose names are
    texts and whose defaults the dialect can write has a statement.  The last part holds a statement with every clause and definitions
    that do not mean what they say. *)

From S2P Require Import Prelude Bytes Text Errors Types Encoding Subspace SchemaTypes Fdb Predicate Security Service Wire SchemaInput.

(** ** Parsers end *)

(** A parser run ends, and a result satisfies a predicate. *)
Definition ends {A} (p : Parser A) (ts : list SqlToken) (Q : A -> list SqlToken -> Prop) : Prop :=
  match p ts with None => False | Some (inl (a, ts')) => Q a ts' | Some (inr _) => True end.

Section Ends.
Context {A B : Type}.
Implicit Types (ts : list SqlToken).

Lemma ends_mono (p : Parser A) ts (Q R : A -> list SqlToken -> Prop) : (forall a ts', Q a ts' -> R a ts') -> ends p ts Q -> ends p ts R.
Proof. unfold ends. intros HQ. destruct (p ts) as [[[a ts']|e]|]; auto. Qed.

Lemma ends_bind (m : Parser A) (f : A -> Parser B) ts Q : ends m ts (fun a ts' => ends (f a) ts' Q) -> ends (m ≫= f) ts Q.
Proof. unfold ends, mbind, Parser_bind. by destruct (m ts) as [[[a ts']|e]|]. Qed.

Lemma ends_ret (a : A) ts (Q : A -> list SqlToken -> Prop) : Q a ts -> ends (mret a) ts Q.
Proof. done. Qed.

Lemma ends_fail e ts (Q : A -> list SqlToken -> Prop) : ends (fail e) ts Q.
Proof. done. Qed.

Lemma ends_of_res (r : Res A) ts (Q : A -> list SqlToken -> Prop) : (forall a, Q a ts) -> ends (of_res r) ts Q.
Proof. unfold ends, of_res. by destruct r. Qed.

Lemma ends_fueled (f : nat -> Parser A) ts Q : ends (f (S (length ts))) ts Q -> ends (fueled f) ts Q.
Proof. done. Qed.
End Ends.

Section Tokens.
Implicit Types (ts : list SqlToken).

Lemma ends_is_eof ts (Q : bool -> list SqlToken -> Prop) : (forall b, Q b ts) -> ends is_eof ts Q.
Proof. unfold ends, is_eof. auto. Qed.

Lemma ends_token_is test ts (Q : bool -> list SqlToken -> Prop) : (forall b, Q b ts) -> ends (token_is test) ts Q.
Proof. unfold token_is, ends, peek, mbind, Parser_bind, mret, Parser_ret. auto. Qed.

Lemma ends_peek_text eof ts (Q : string -> list SqlToken -> Prop) : (forall s, Q s ts) -> ends (peek_text eof) ts Q.
Proof. unfold peek_text, ends, peek, mbind, Parser_bind, mret, Parser_ret. auto. Qed.

Lemma ends_next_token m ts (Q : SqlToken -> list SqlToken -> Prop) :
  (forall t ts', (length ts' < length ts)%nat -> Q t ts') -> ends (next_token m) ts Q.
Proof. unfold ends, next_token. destruct ts as [|t ts]; [done|]. intros HQ. apply HQ. cbn. lia. Qed.

Lemma ends_match test ts (Q : bool -> list SqlToken -> Prop) :
  Q false ts -> (forall ts', (length ts' < length ts)%nat -> Q true ts') -> ends (match_with (token_is test)) ts Q.
Proof.
  unfold match_with, token_is, advance, ends, peek, mbind, Parser_bind, mret, Parser_ret. cbn. intros Hf Ht.
  destruct ts as [|t ts]; cbn; [done|]. destruct (negb (quoted t) && test (text t)); [|done]. apply Ht. cbn. lia.
Qed.

Lemma ends_match_compound a b ts (Q : bool -> list SqlToken -> Prop) :
  Q false ts -> (forall ts', (length ts' < length ts)%nat -> Q true ts') -> ends (match_compound_keyword a b) ts Q.
Proof.
  intros Hf Ht. unfold match_compound_keyword.
  assert (H : ends (x ← match_keyword a; if (x : bool) then match_keyword b else mret false) ts (fun x ts' => x = true -> (length ts' < length ts)%nat)).
  { apply ends_bind, ends_match; [by apply ends_ret|]. intros ts1 Hl. apply ends_match; [done|]. intros ts2 Hl2 _. lia. }
  unfold ends in *. destruct ((x ← match_keyword a; if (x : bool) then match_keyword b else mret false) ts) as [[[[] ts']|e]|]; [|done..].
  by apply Ht, H.
Qed.

Lemma ends_expect_identifier c ts (Q : string -> list SqlToken -> Prop) :
  (forall s ts', (length ts' < length ts)%nat -> Q s ts') -> ends (expect_identifier c) ts Q.
Proof. intros HQ. apply ends_bind, ends_next_token. intros t ts' Hl. case_match; [apply ends_fail|]. by apply ends_ret, HQ. Qed.
End Tokens.

(** Runs a parser through its steps. *)
Ltac ends_step :=
  lazymatch goal with
  | |- ends (_ ≫= _) _ _ => apply ends_bind
  | |- ends (mret _) _ _ => apply ends_ret
  | |- ends (fail _) _ _ => apply ends_fail
  | |- ends (of_res _) _ _ => apply ends_of_res; intros ?
  | |- ends (fueled _) _ _ => apply ends_fueled
  | |- ends is_eof _ _ => apply ends_is_eof; intros ?
  | |- ends (check_symbol _) _ _ => apply ends_token_is; intros ?
  | |- ends (check_keyword _) _ _ => apply ends_token_is; intros ?
  | |- ends (peek_text _) _ _ => apply ends_peek_text; intros ?
  | |- ends (next_token _) _ _ => apply ends_next_token; intros ???
  | |- ends (match_symbol _) _ _ => apply ends_match; [|intros ??]
  | |- ends (match_keyword _) _ _ => apply ends_match; [|intros ??]
  | |- ends (match_compound_keyword _ _) _ _ => apply ends_match_compound; [|intros ??]
  | |- ends (expect_identifier _) _ _ => apply ends_expect_identifier; intros ???
  | |- ends (if ?b then _ else _) _ _ => destruct b
  end.
Ltac ends_run := repeat (cbn beta iota; ends_step).

(** A parser that ends and gives no token back. *)
Definition shrinks {A} (p : Parser A) : Prop := forall ts, ends p ts (fun _ ts' => (length ts' <= length ts)%nat).

Lemma ends_shrinks {A} (p : Parser A) ts (Q : A -> list SqlToken -> Prop) :
  shrinks p -> (forall a ts', (length ts' <= length ts)%nat -> Q a ts') -> ends p ts Q.
Proof. intros Hp HQ. eapply ends_mono; [|apply Hp]. done. Qed.

Lemma expect_keyword_shrinks k : shrinks (expect_keyword k).
Proof. intros ts. unfold expect_keyword. ends_run; lia. Qed.
Lemma expect_symbol_shrinks k : shrinks (expect_symbol k).
Proof. intros ts. unfold expect_symbol. ends_run; lia. Qed.
Lemma parse_default_literal_shrinks : shrinks parse_default_literal.
Proof. intros ts. unfold parse_default_literal. ends_run. lia. Qed.
Lemma parse_bool_literal_shrinks f : shrinks (parse_bool_literal f).
Proof. intros ts. unfold parse_bool_literal. ends_run; lia. Qed.

Lemma skip_semicolons_shrinks : forall n ts, (length ts < n)%nat ->
  ends (skip_semicolons n) ts (fun _ ts' => (length ts' <= length ts)%nat).
Proof.
  induction n as [|n IH]; intros ts Hl; [lia|]. cbn [skip_semicolons]. ends_run; [lia|]. eapply ends_mono; [|apply IH; lia]. cbn beta. lia.
Qed.

Lemma consume_semicolons_shrinks : shrinks consume_semicolons.
Proof. intros ts. apply ends_fueled, skip_semicolons_shrinks. lia. Qed.

Lemma property_options_shrinks name scope : forall n def ts, (length ts < n)%nat ->
  ends (property_options name scope n def) ts (fun _ ts' => (length ts' <= length ts)%nat).
Proof.
  induction n as [|n IH]; intros def ts Hl; [lia|]. cbn [property_options]. ends_run; try lia.
  all: try (apply (ends_shrinks _ _ _ parse_default_literal_shrinks); intros).
  all: eapply ends_mono; [|apply IH; lia]; cbn; lia.
Qed.

Lemma parse_property_eats scope ts : ends (parse_property scope) ts (fun _ ts' => (length ts' < length ts)%nat).
Proof. unfold parse_property. ends_run. eapply ends_mono; [|apply property_options_shrinks; lia]. cbn beta. intros. apply ends_ret. lia. Qed.

Lemma property_list_shrinks scope : forall n m ts, (length ts < n)%nat ->
  ends (property_list scope n m) ts (fun _ ts' => (length ts' <= length ts)%nat).
Proof.
  induction n as [|n IH]; intros m ts Hl; [lia|]. cbn [property_list]. ends_run; [lia|].
  eapply ends_mono; [|apply parse_property_eats]. cbn beta. intros p ts1 Hp. ends_run; [lia|].
  eapply ends_mono; [|apply IH; lia]. cbn beta. lia.
Qed.

Lemma parse_property_list_shrinks scope : shrinks (parse_property_list scope).
Proof. intros ts. apply ends_fueled, property_list_shrinks. lia. Qed.

Lemma with_options_shrinks : forall n m ts, (length ts < n)%nat ->
  ends (with_options n m) ts (fun _ ts' => (length ts' <= length ts)%nat).
Proof.
  induction n as [|n IH]; intros m ts Hl; [lia|]. cbn [with_options]. ends_run; [lia|..].
  all: apply (ends_shrinks _ _ _ (expect_symbol_shrinks _)); intros _ ts2 ?; ends_run.
  - apply (ends_shrinks _ _ _ (parse_bool_literal_shrinks _)). intros b ts3 ?. ends_run; try lia. eapply ends_mono; [|apply IH; lia]. cbn beta. lia.
  - lia.
  - eapply ends_mono; [|apply IH; lia]. cbn beta. lia.
Qed.

Lemma parse_with_clause_shrinks : shrinks parse_with_clause.
Proof.
  intros ts. unfold parse_with_clause. ends_run. apply (ends_shrinks _ _ _ (expect_symbol_shrinks _)). intros _ ts1 ?. ends_run.
  eapply ends_mono; [|apply with_options_shrinks; lia]. cbn beta. intros m ts2 ?. ends_run.
  apply (ends_shrinks _ _ _ (expect_symbol_shrinks _)). intros _ ts3 ?. apply ends_ret. lia.
Qed.

Lemma expect_symbol_eats k ts : ends (expect_symbol k) ts (fun _ ts' => (length ts' < length ts)%nat).
Proof. unfold expect_symbol. ends_run; lia. Qed.

Lemma edge_options_shrinks : forall n e ts, (length ts < n)%nat ->
  ends (edge_options n e) ts (fun _ ts' => (length ts' <= length ts)%nat).
Proof.
  induction n as [|n IH]; intros e ts Hl; [lia|]. cbn [edge_options]. ends_run; try lia.
  1: { eapply ends_mono; [|apply expect_symbol_eats]. cbn beta. intros _ ts1 ?. apply ends_bind, (ends_shrinks _ _ _ (parse_property_list_shrinks _)).
       intros ps ts2 ?. apply ends_bind, (ends_shrinks _ _ _ (expect_symbol_shrinks _)). intros _ ts3 ?. eapply ends_mono; [|apply IH; lia]. cbn beta. lia. }
  all: eapply ends_mono; [|apply IH; lia]; cbn; lia.
Qed.

Lemma parse_edge_clause_shrinks : shrinks parse_edge_clause.
Proof.
  intros ts. unfold parse_edge_clause. ends_run.
  all: eapply ends_mono; [|apply edge_options_shrinks; lia]; cbn beta; intros; apply ends_ret; lia.
Qed.

Lemma schema_clauses_shrinks : forall n s ts, (length ts < n)%nat ->
  ends (schema_clauses n s) ts (fun _ ts' => (length ts' <= length ts)%nat).
Proof.
  induction n as [|n IH]; intros s ts Hl; [lia|]. cbn [schema_clauses].
  apply ends_bind, (ends_shrinks _ _ _ consume_semicolons_shrinks). intros _ ts1 ?. ends_run; try lia.
  - apply (ends_shrinks _ _ _ parse_edge_clause_shrinks). intros e' ts2 ?. eapply ends_mono; [|apply IH; lia]. cbn beta. lia.
  - apply (ends_shrinks _ _ _ parse_with_clause_shrinks). intros m ts2 ?. eapply ends_mono; [|apply IH; lia]. cbn beta. lia.
Qed.

Lemma parse_schema_shrinks : shrinks parse_schema.
Proof.
  intros ts. unfold parse_schema. apply ends_bind, (ends_shrinks _ _ _ (expect_keyword_shrinks _)). intros _ ts1 ?. ends_run.
  all: apply (ends_shrinks _ _ _ (expect_symbol_shrinks _)); intros _ ts3 ?; apply ends_bind, (ends_shrinks _ _ _ (parse_property_list_shrinks _)).
  all: intros ps ts4 ?; apply ends_bind, (ends_shrinks _ _ _ (expect_symbol_shrinks _)); intros _ ts5 ?; apply ends_fueled.
  all: eapply ends_mono; [|apply schema_clauses_shrinks; lia]; cbn; lia.
Qed.

(** ** The tokenizer ends *)

Lemma skip_line_length l : (length (skip_line l) <= length l)%nat.
Proof. induction l as [|c l IH]; cbn [skip_line length]; [done|]. case_match; lia. Qed.

Lemma read_quoted_length q : forall l esc value v rest, read_quoted q esc value l = Some (v, rest) -> (length rest < length l)%nat.
Proof.
  induction l as [|c l IH]; intros esc value v rest; cbn [read_quoted length]; [done|].
  repeat case_match; intros E; simplify_eq; try (apply IH in E); lia.
Qed.

Lemma read_word_length : forall l word, (length (read_word word l).2 <= length l)%nat.
Proof. induction l as [|c l IH]; intros word; cbn [read_word length snd]; [done|]. case_match; cbn [snd length]; [done|]. etrans; [apply IH|lia]. Qed.

Lemma tokenize_loop_ends : forall n tokens l, (length l < n)%nat -> is_Some (tokenize_loop n tokens l).
Proof.
  induction n as [|n IH]; intros tokens l Hl; [lia|]. cbn [tokenize_loop]. destruct l as [|c rest]; [done|]. cbn [length] in Hl.
  case_match; [apply IH; lia|]. case_match.
  { apply IH. pose proof (skip_line_length (tail rest)) as Hs. destruct rest; cbn [tail length] in *; lia. }
  case_match; [apply IH; pose proof (skip_line_length rest); lia|]. case_match; [apply IH; lia|]. case_match.
  { destruct (read_quoted c false [] rest) as [[v r]|] eqn:E; [|done]. apply IH. apply read_quoted_length in E. lia. }
  pose proof (read_word_length rest c) as Hw. destruct (read_word c rest) as [w r]. apply IH. cbn [snd] in Hw. lia.
Qed.

(** Schema texts.  The parser of the SQL dialect ends on every input, with a schema
    or a message: its loops never use up the tokens they are given. *)
Theorem parse_schema_sql_total (input : string) : is_Some (parse_schema_sql input).
Proof.
  unfold parse_schema_sql, tokenize_sql. destruct (tokenize_loop_ends _ [] (chars (sbytes input)) (Nat.lt_succ_diag_r _)) as [r ->].
  destruct r as [tokens|e]; [|done]. assert (H : ends parse_statement tokens (fun _ _ => True)).
  { apply ends_bind, (ends_shrinks _ _ _ parse_schema_shrinks). intros s ts1 ?.
    apply ends_bind, (ends_shrinks _ _ _ consume_semicolons_shrinks). intros _ ts2 ?. by ends_run. }
  unfold ends in H. by destruct (parse_statement tokens) as [[[s ts]|e]|].
Qed.

(** ** Characters *)

Definition lead_byte (l : bytes) : Prop := match l with [] => True | b :: _ => cont_byte b = false end.

Lemma chars_state l1 cs : foldr (fun b st => if cont_byte b then (b :: st.1, st.2) else ([], (b :: st.1) :: st.2)) (@nil byte, cs) l1
  = ((foldr (fun b st => if cont_byte b then (b :: st.1, st.2) else ([], (b :: st.1) :: st.2)) (@nil byte, @nil bytes) l1).1, chars l1 ++ cs).
Proof.
  unfold chars. induction l1 as [|b l1 IH]; cbn [foldr fst snd app]; [done|]. rewrite IH. cbn [fst snd]. by destruct (cont_byte b).
Qed.

Lemma chars_app l1 l2 : lead_byte l2 -> chars (l1 ++ l2) = chars l1 ++ chars l2.
Proof.
  intros Hl. unfold chars at 1. rewrite foldr_app.
  match goal with |- context [foldr ?f ?i l2] => assert (E : foldr f i l2 = ([], chars l2)) end.
  { destruct l2 as [|b l2]; [done|]. cbn [lead_byte] in Hl. unfold chars. cbn [foldr]. by rewrite Hl. }
  rewrite E. by rewrite (chars_state l1 (chars l2)).
Qed.

Lemma chars_byte b l : cont_byte b = false -> lead_byte l -> chars (b :: l) = [b] :: chars l.
Proof. intros Hb Hl. rewrite (chars_app [b] l Hl : chars (b :: l) = _). unfold chars at 1. cbn [foldr]. by rewrite Hb. Qed.

(** The characters of a text. *)
Definition is_text (s : string) : Prop := lead_byte (sbytes s).

Lemma concat_chars l : lead_byte l -> concat (chars l) = l.
Proof.
  intros Hl. assert (H : forall l, (foldr (fun b st => if cont_byte b then (b :: st.1, st.2) else ([], (b :: st.1) :: st.2)) (@nil byte, @nil bytes) l).1
    ++ concat (chars l) = l).
  { clear. unfold chars. induction l as [|b l IH]; [done|]. cbn [foldr]. destruct (cont_byte b); cbn [fst snd concat app]; by f_equal. }
  specialize (H l). destruct l as [|b l]; [done|]. cbn [lead_byte] in Hl. cbn [foldr] in H. rewrite Hl in H. exact H.
Qed.

Definition char_ok (c : bytes) : Prop := match c with [] => False | b :: r => cont_byte b = false /\ Forall (fun b => cont_byte b = true) r end.

Lemma chars_ok l : Forall char_ok (chars l).
Proof.
  assert (H : let st := foldr (fun b st => if cont_byte b then (b :: st.1, st.2) else ([], (b :: st.1) :: st.2)) (@nil byte, @nil bytes) l in
    Forall (fun b => cont_byte b = true) st.1 /\ Forall char_ok st.2).
  { induction l as [|b l [IH1 IH2]]; [done|]. cbn [foldr]. destruct (cont_byte b) eqn:Eb; cbn [fst snd]; [auto|]. split; [done|]. constructor; [done|done]. }
  apply H.
Qed.

Lemma chars_one c : char_ok c -> chars c = [c].
Proof.
  destruct c as [|b r]; [done|]. intros [Hb Hr].
  assert (H : forall r, Forall (fun b => cont_byte b = true) r ->
    foldr (fun b st => if cont_byte b then (b :: st.1, st.2) else ([], (b :: st.1) :: st.2)) (@nil byte, @nil bytes) r = (r, [])).
  { clear. induction 1 as [|b r Hb _ IH]; [done|]. cbn [foldr]. by rewrite IH, Hb. }
  unfold chars. cbn [foldr]. by rewrite (H r Hr), Hb.
Qed.

Lemma chars_concat cs : Forall char_ok cs -> chars (concat cs) = cs.
Proof.
  induction 1 as [|c cs Hc Hcs IH]; [done|]. cbn [concat]. rewrite chars_app, IH, (chars_one c Hc); [done|].
  destruct Hcs as [|d ds Hd _]; [done|]. destruct d as [|b r]; [done|]. apply Hd.
Qed.

(** ** Writing tokens *)

Definition quote_char : bytes := [Byte.x27].
Definition backslash : bytes := [Byte.x5c].
Definition space : bytes := [Byte.x20].
Definition escape_char (c : bytes) : list bytes := if bool_decide (c = quote_char \/ c = backslash) then [backslash; c] else [c].

(** The characters of a token. *)
Definition render (t : SqlToken) : list bytes :=
  if quoted t then [quote_char] ++ flat_map escape_char (chars (sbytes (text t))) ++ [quote_char] else chars (sbytes (text t)).
Definition render_all (ts : list SqlToken) : list bytes := flat_map (fun t => render t ++ [space]) ts.

Definition word_char (c : bytes) : bool := negb (is_whitespace c || is_symbol c || is_char hash c || is_char dash c).
Definition is_word (s : string) : bool :=
  match chars (sbytes s) with
  | c :: cs => (word_char c || is_char dash c) && negb (is_quote c) && forallb word_char cs
  | [] => false
  end.

(** Tokens that can be written: texts in quotes, symbols and words. *)
Definition writable_token (t : SqlToken) : Prop :=
  is_text (text t) /\ if quoted t then True else text t ∈ ["("; ")"; ","; ";"; "="] \/ is_word (text t) = true.

Lemma read_escaped : forall cs value rest,
  read_quoted quote_char false value (flat_map escape_char cs ++ quote_char :: rest) = Some (value ++ concat cs, rest).
Proof.
  induction cs as [|c cs IH]; intros value rest; [cbn; by rewrite app_nil_r|]. cbn [flat_map]. unfold escape_char at 1.
  case_bool_decide as Hc; cbn [app].
  - change (read_quoted quote_char false value (backslash :: c :: flat_map escape_char cs ++ quote_char :: rest))
      with (read_quoted quote_char false (value ++ c) (flat_map escape_char cs ++ quote_char :: rest)). rewrite IH. cbn [concat]. by rewrite <- app_assoc.
  - cbn [read_quoted]. unfold is_char. rewrite bool_decide_eq_false_2 by (intros ->; apply Hc; by right).
    rewrite decide_False by (intros ->; apply Hc; by left). rewrite IH. cbn [concat]. by rewrite <- app_assoc.
Qed.

Lemma read_letters : forall cs word rest, forallb word_char cs = true ->
  read_word word (cs ++ space :: rest) = (word ++ concat cs, space :: rest).
Proof.
  induction cs as [|c cs IH]; intros word rest; cbn [forallb app]; [intros _; cbn; by rewrite app_nil_r|].
  intros [Hc Hcs]%andb_true_iff. cbn [read_word]. unfold word_char in Hc. rewrite negb_true_iff, !orb_false_iff in Hc.
  destruct Hc as [[[-> ->] ->] Hd]. cbn [orb].
  assert (starts_comment (c :: cs ++ space :: rest) = false) as ->.
  { unfold starts_comment. rewrite Hd. by destruct (cs ++ space :: rest). }
  rewrite IH by done. cbn [concat]. by rewrite <- app_assoc.
Qed.

Lemma tokenize_space fuel tokens l : tokenize_loop (S fuel) tokens (space :: l) = tokenize_loop fuel tokens l.
Proof. reflexivity. Qed.

(** A character that starts a text in quotes or a word. *)
Lemma tokenize_start fuel tokens c rest :
  is_whitespace c = false -> starts_comment (c :: rest) = false -> is_char hash c = false -> is_symbol c = false ->
  tokenize_loop (S fuel) tokens (c :: rest) =
  if is_quote c then
    match read_quoted c false [] rest with
    | None => Some (inr "Unterminated quoted string in SQL schema definition")
    | Some (value, rest) => tokenize_loop fuel (tokens ++ [mkToken (bstr value) true]) rest
    end
  else let '(word, rest) := read_word c rest in tokenize_loop fuel (tokens ++ [mkToken (bstr word) false]) rest.
Proof. intros H1 H2 H3 H4. cbn [tokenize_loop]. by rewrite H1, H2, H3, H4. Qed.

Lemma tokenize_quoted s fuel tokens l : is_text s ->
  tokenize_loop (S (S fuel)) tokens (render (mkToken s true) ++ space :: l) = tokenize_loop fuel (tokens ++ [mkToken s true]) l.
Proof.
  intros Ht. unfold render. cbn [quoted text]. rewrite <- !app_assoc. cbn [app].
  rewrite tokenize_start; [|done|by destruct (flat_map escape_char (chars (sbytes s)))|done|done].
  change (is_quote quote_char) with true. cbn iota. rewrite read_escaped. cbn [app]. rewrite concat_chars by done. by rewrite bstr_sbytes, tokenize_space.
Qed.

Lemma word_start s c cs l : chars (sbytes s) = c :: cs -> is_word s = true ->
  is_whitespace c = false /\ starts_comment (c :: cs ++ space :: l) = false /\ is_char hash c = false /\ is_symbol c = false /\
  is_quote c = false /\ forallb word_char cs = true.
Proof.
  unfold is_word. intros -> Hw. rewrite !andb_true_iff, orb_true_iff, negb_true_iff in Hw. destruct Hw as [[Hc Hq] Hcs].
  assert (Hwhole : is_whitespace c = false /\ is_symbol c = false /\ is_char hash c = false).
  { destruct Hc as [Hc|Hc]; [unfold word_char in Hc; rewrite negb_true_iff, !orb_false_iff in Hc; naive_solver|].
    unfold is_char in Hc. apply bool_decide_eq_true in Hc as ->. done. }
  destruct Hwhole as (H1 & H2 & H3). repeat split; [done| |done..].
  unfold starts_comment. destruct cs as [|d cs]; cbn [app forallb] in *; [by rewrite andb_false_r|].
  apply andb_true_iff in Hcs as [Hd _]. unfold word_char in Hd. rewrite negb_true_iff, !orb_false_iff in Hd. destruct Hd as [_ ->]. by rewrite andb_false_r.
Qed.

Lemma tokenize_one t fuel tokens l : writable_token t ->
  tokenize_loop (S (S fuel)) tokens (render t ++ space :: l) = tokenize_loop fuel (tokens ++ [t]) l.
Proof.
  destruct t as [s q]. intros [Ht Hw]. cbn [quoted text] in *. destruct q; [by apply tokenize_quoted|]. destruct Hw as [Hin|Hw].
  { repeat (apply elem_of_cons in Hin as [->|Hin]; [reflexivity|]). by apply not_elem_of_nil in Hin. }
  unfold render. cbn [quoted text]. destruct (chars (sbytes s)) as [|c cs] eqn:Ec; [unfold is_word in Hw; by rewrite Ec in Hw|].
  destruct (word_start s c cs l Ec Hw) as (H1 & H2 & H3 & H4 & H5 & H6). cbn [app]. rewrite tokenize_start by done.
  rewrite H5, read_letters, tokenize_space by done. do 3 f_equal.
  rewrite <- (bstr_sbytes s) at 1. rewrite <- (concat_chars (sbytes s) Ht), Ec. done.
Qed.

Lemma render_nonempty t : writable_token t -> render t <> [].
Proof.
  destruct t as [s q]. intros [_ Hw]. unfold render. cbn [quoted text] in *. destruct q; [done|]. destruct Hw as [Hin|Hw].
  - by repeat (apply elem_of_cons in Hin as [->|Hin]; [vm_compute; discriminate|]); apply not_elem_of_nil in Hin.
  - unfold is_word in Hw. by destruct (chars (sbytes s)).
Qed.

Lemma tokenize_render : forall ts fuel tokens, Forall writable_token ts -> (length (render_all ts) < fuel)%nat ->
  tokenize_loop fuel tokens (render_all ts) = Some (inl (tokens ++ ts)).
Proof.
  unfold render_all. induction ts as [|t ts IH]; intros fuel tokens Hw Hl.
  { destruct fuel; [cbn in Hl; lia|]. cbn. by rewrite app_nil_r. }
  inversion_clear Hw as [|? ? Ht Hts]. cbn [flat_map] in *. rewrite <- app_assoc in *. cbn [app] in *. rewrite length_app in Hl. cbn [length] in Hl.
  pose proof (render_nonempty t Ht) as Hne. destruct (render t) eqn:Er; [done|]. cbn [length] in Hl. destruct fuel as [|[|fuel]]; [lia|lia|].
  rewrite <- Er, tokenize_one by done. rewrite IH; [|done|lia]. by rewrite <- app_assoc.
Qed.

Lemma escape_ok c : char_ok c -> Forall char_ok (escape_char c).
Proof. unfold escape_char. intros Hc. case_bool_decide; repeat constructor; try done; cbn; constructor. Qed.

Lemma render_ok t : Forall char_ok (render t).
Proof.
  unfold render. destruct (quoted t); [|apply chars_ok]. rewrite !Forall_app. repeat split; try (repeat constructor; done).
  pose proof (chars_ok (sbytes (text t))) as H. induction H as [|c cs Hc _ IH]; [constructor|]. cbn [flat_map]. rewrite Forall_app. split; [by apply escape_ok|done].
Qed.

Lemma tokenize_text ts : Forall writable_token ts -> tokenize_sql (bstr (concat (render_all ts))) = Some (inl ts).
Proof.
  intros Hw. unfold tokenize_sql. rewrite sbytes_bstr, chars_concat.
  - by rewrite tokenize_render by (done || lia).
  - unfold render_all. clear Hw. induction ts as [|t ts IH]; [constructor|]. cbn [flat_map]. rewrite !Forall_app. repeat split; [apply render_ok| |done].
    repeat constructor.
Qed.

(** ** The tokens of a schema *)

Abbreviation kw s := (mkToken s false).
Abbreviation str s := (mkToken s true).

Definition literal_token (k : Pb.Kind) : SqlToken :=
  match k with
  | Pb.StringValue s => str s
  | Pb.IntValue i => kw (bstr (show_i i))
  | Pb.BoolValue b => kw (if b then "true" else "false")
  | _ => kw "null"
  end.
Definition extras_policy_name (p : Z) : string := match p with 1 => "reject" | 2 => "allow" | 3 => "warn" | _ => "unspecified" end.
Definition direction_name (d : Z) : string := match d with 2 => "bidirectional" | _ => "outgoing" end.
Definition ownership_name (o : Z) : string := match o with 2 => "independent" | _ => "source_site" end.
Definition target_token (t : Pb.EdgeTarget) : SqlToken := match Pb.target_kind t with Some (Pb.SpecificType n) => str n | _ => kw "*" end.

Definition property_tokens (np : string * Pb.PropertyDef) : list SqlToken :=
  [str np.1; kw (property_type_name (Pb.type np.2))]
  ++ (if Pb.required np.2 then [kw "required"] else [])
  ++ match Pb.index np.2 with Some i => [kw "index"; kw (index_type_name i)] | None => [] end
  ++ match Pb.default_value np.2 ≫= Pb.kind with Some k => [kw "default"; literal_token k] | None => [] end
  ++ [kw ","].
Definition properties_tokens (l : list (string * Pb.PropertyDef)) : list SqlToken := [kw "("] ++ flat_map property_tokens l ++ [kw ")"].
Definition with_tokens (m : Pb.SchemaMeta) : list SqlToken :=
  [kw "with"; kw "("; kw "allow_undeclared_edges"; kw "="; kw (if Pb.allow_undeclared_edges m then "true" else "false"); kw ",";
   kw "extras_policy"; kw "="; kw (extras_policy_name (Pb.extras_policy m)); kw ")"].
Definition edge_tokens (le : string * Pb.EdgeDef) : list SqlToken :=
  [kw "edge"; str le.1; kw "to"; match Pb.target le.2 with Some t => target_token t | None => kw "*" end]
  ++ properties_tokens (map_to_list (Pb.edge_properties le.2))
  ++ [kw "direction"; kw (direction_name (Pb.direction le.2)); kw "ownership"; kw (ownership_name (Pb.ownership le.2));
      kw "sort_key"; str (Pb.sort_key le.2); kw ";"].
Definition schema_tokens (s : Pb.EntitySchema) : list SqlToken :=
  [kw "create"; kw "type"; str (Pb.name s)] ++ properties_tokens (map_to_list (Pb.properties s))
  ++ match Pb.meta s with Some m => with_tokens m | None => [] end
  ++ flat_map edge_tokens (map_to_list (Pb.edges s)).

(** The statement of a schema. *)
Definition schema_text (s : Pb.EntitySchema) : string := bstr (concat (render_all (schema_tokens s))).

(** Schemas that a statement can describe: the numbers of the enumerations are
    those of their variants, defaults are texts, integers, truth values or null, and
    the name of a target has no space around it and is no keyword. *)
Definition writable_kind (k : Pb.Kind) : Prop :=
  match k with
  | Pb.StringValue s => is_text s
  | Pb.IntValue i => i64_ok i
  | Pb.BoolValue _ => True
  | Pb.NullValue b => b = true
  | _ => False
  end.
Definition writable_property (n : string) (p : Pb.PropertyDef) : Prop :=
  is_text n /\ 1 <= Pb.type p <= 6 /\ (forall i, Pb.index p = Some i -> 0 <= i <= 3) /\
  (forall v, Pb.default_value p = Some v -> exists k, Pb.kind v = Some k /\ writable_kind k).
Definition writable_target (t : Pb.EdgeTarget) : Prop :=
  match Pb.target_kind t with
  | Some (Pb.SpecificType n) => is_text n /\ trim n = n /\ n <> "*" /\ eq_ignore_ascii_case n "polymorphic" = false
  | Some (Pb.PolymorphicKind b) => b = true
  | None => False
  end.
Definition writable_edge (l : string) (e : Pb.EdgeDef) : Prop :=
  is_text l /\ (exists t, Pb.target e = Some t /\ writable_target t) /\ map_Forall writable_property (Pb.edge_properties e) /\
  1 <= Pb.direction e <= 2 /\ 1 <= Pb.ownership e <= 2 /\ is_text (Pb.sort_key e).
Definition writable_schema (s : Pb.EntitySchema) : Prop :=
  is_text (Pb.name s) /\ map_Forall writable_property (Pb.properties s) /\ map_Forall writable_edge (Pb.edges s) /\
  (forall m, Pb.meta s = Some m -> 0 <= Pb.extras_policy m <= 3).

(** *** They can be written *)

Lemma writable_kw s : (bool_decide (s ∈ ["("; ")"; ","; ";"; "="]) || is_word s) && (match sbytes s with [] => true | b :: _ => negb (cont_byte b) end) = true ->
  writable_token (kw s).
Proof.
  intros [Hw Hl]%andb_true_iff. split.
  - unfold is_text, lead_byte. cbn [text]. destruct (sbytes s); [done|]. by apply negb_true_iff.
  - cbn [quoted text]. apply orb_true_iff in Hw as [Hw%bool_decide_eq_true|Hw]; auto.
Qed.

Lemma digit_bytes_word l : l <> [] -> Forall (fun b => is_digit b = true) l -> forall pre, pre = [] \/ pre = [dash] -> writable_token (kw (bstr (pre ++ l))).
Proof.
  intros Hne Hd pre Hpre.
  assert (Hone : forall b, is_digit b = true -> cont_byte b = false /\ word_char [b] = true /\ is_quote [b] = false) by (intros []; vm_compute; auto; discriminate).
  assert (Hl : chars l = map (fun b => [b]) l /\ lead_byte l /\ forallb word_char (map (fun b => [b]) l) = true).
  { clear Hne. induction Hd as [|b l Hb _ (IH1 & IH2 & IH3)]; [done|]. destruct (Hone b Hb) as (H1 & H2 & _). rewrite chars_byte, IH1 by done.
    split; [done|]. split; [done|]. cbn [map forallb]. by rewrite H2, IH3. }
  destruct Hl as (H1 & H2 & H3). destruct l as [|b l]; [done|]. apply Forall_cons in Hd as [Hb _]. destruct (Hone b Hb) as (Hc & Hw & Hq).
  apply writable_kw. unfold is_word. rewrite sbytes_bstr. destruct Hpre as [-> | ->]; cbn [app].
  - rewrite H1, Hc. cbn [map negb] in *. cbn [forallb] in H3. rewrite Hw in H3. cbn [andb] in H3. rewrite Hw, Hq, H3. cbn. by rewrite orb_true_r.
  - rewrite chars_byte, H1 by done. cbn [map negb] in *. rewrite H3. cbn. by rewrite orb_true_r.
Qed.

Lemma literal_writable k : writable_kind k -> writable_token (literal_token k).
Proof.
  destruct k as [s|i|f|b|t|b|b]; cbn [writable_kind literal_token]; [by split| |done|intros _; apply writable_kw; by destruct b|done|done|intros _; by apply writable_kw].
  intros _. unfold show_i. case_match eqn:Hi.
  - apply (digit_bytes_word (show_u (- i))) with (pre := [dash]); [apply show_u_nonempty|apply show_u_digits; lia|by right].
  - apply (digit_bytes_word (show_u i)) with (pre := []); [apply show_u_nonempty|apply show_u_digits; lia|by left].
Qed.

Lemma type_cases n (P : Z -> Prop) : 1 <= n <= 6 -> P 1 -> P 2 -> P 3 -> P 4 -> P 5 -> P 6 -> P n.
Proof. intros. assert (n = 1 \/ n = 2 \/ n = 3 \/ n = 4 \/ n = 5 \/ n = 6) as [->|[->|[->|[->|[->| ->]]]]] by lia; done. Qed.
Lemma upto3_cases n (P : Z -> Prop) : 0 <= n <= 3 -> P 0 -> P 1 -> P 2 -> P 3 -> P n.
Proof. intros. assert (n = 0 \/ n = 1 \/ n = 2 \/ n = 3) as [->|[->|[->| ->]]] by lia; done. Qed.
Lemma either_cases n (P : Z -> Prop) : 1 <= n <= 2 -> P 1 -> P 2 -> P n.
Proof. intros. assert (n = 1 \/ n = 2) as [->| ->] by lia; done. Qed.

Lemma property_writable np : writable_property np.1 np.2 -> Forall writable_token (property_tokens np).
Proof.
  destruct np as [n p]. cbn [fst snd]. intros (Hn & Ht & Hi & Hd). unfold property_tokens. cbn [fst snd]. rewrite !Forall_app. repeat split.
  - constructor; [by split|]. constructor; [|constructor]. pattern (Pb.type p). apply type_cases; [done|by apply writable_kw..].
  - destruct (Pb.required p); [|constructor]. constructor; [by apply writable_kw|constructor].
  - destruct (Pb.index p) as [i|] eqn:Ei; [|constructor]. constructor; [by apply writable_kw|]. constructor; [|constructor].
    pattern i. apply upto3_cases; [by apply Hi|by apply writable_kw..].
  - destruct (Pb.default_value p) as [v|] eqn:Ev; [|constructor]. destruct (Hd v eq_refl) as (k & Ek & Hk). cbn. rewrite Ek.
    constructor; [by apply writable_kw|]. constructor; [by apply literal_writable|constructor].
  - constructor; [by apply writable_kw|constructor].
Qed.

Lemma properties_writable m : map_Forall writable_property m -> Forall writable_token (properties_tokens (map_to_list m)).
Proof.
  intros Hm. unfold properties_tokens. rewrite !Forall_app. split; [constructor; [by apply writable_kw|constructor]|].
  split; [|constructor; [by apply writable_kw|constructor]].
  assert (H : Forall (fun np => writable_property np.1 np.2) (map_to_list m)).
  { apply Forall_forall. intros [n p] Hin%elem_of_map_to_list. by apply Hm. }
  induction H as [|np l Hnp _ IH]; [constructor|]. cbn [flat_map]. rewrite Forall_app. split; [by apply property_writable|done].
Qed.

Ltac write_words := repeat first [apply Forall_nil_2 | apply Forall_cons_2; [first [by apply writable_kw | by split]|]].

Lemma edge_writable le : writable_edge le.1 le.2 -> Forall writable_token (edge_tokens le).
Proof.
  destruct le as [l e]. cbn [fst snd]. intros (Hl & (t & Et & Ht) & Hp & Hd & Ho & Hk). unfold edge_tokens. cbn [fst snd]. rewrite Et, !Forall_app. repeat split.
  - write_words. constructor; [|constructor]. unfold writable_target, target_token in *. destruct (Pb.target_kind t) as [[n|b]|]; [split; naive_solver|by apply writable_kw|done].
  - by apply properties_writable.
  - constructor; [by apply writable_kw|]. constructor; [pattern (Pb.direction e); apply either_cases; [done|by apply writable_kw..]|].
    constructor; [by apply writable_kw|]. constructor; [pattern (Pb.ownership e); apply either_cases; [done|by apply writable_kw..]|]. write_words.
Qed.

Lemma schema_writable s : writable_schema s -> Forall writable_token (schema_tokens s).
Proof.
  intros (Hn & Hp & He & Hm). unfold schema_tokens. rewrite !Forall_app. repeat split; [write_words|by apply properties_writable|..].
  - destruct (Pb.meta s) as [m|]; [|constructor]. specialize (Hm m eq_refl). unfold with_tokens. destruct (Pb.allow_undeclared_edges m).
    all: pattern (Pb.extras_policy m); apply upto3_cases; [done|write_words..].
  - assert (H : Forall (fun le => writable_edge le.1 le.2) (map_to_list (Pb.edges s))).
    { apply Forall_forall. intros [l e] Hin%elem_of_map_to_list. by apply He. }
    induction H as [|le l Hle _ IH]; [constructor|]. cbn [flat_map]. rewrite Forall_app. split; [by apply edge_writable|done].
Qed.

(** *** They are read back *)

(** Numbers are their own trimmed texts and no keywords. *)
Definition number_byte (b : byte) : Prop := is_digit b = true \/ b = dash.

Lemma number_visible b : number_byte b -> visible b.
Proof. intros [Hb| ->]; [|done]. unfold is_digit, visible, in_range in *. lia. Qed.

Lemma normalize_bytes s : sbytes (normalize_token s)
  = map (fun c => if decide (c = Byte.x20) then Byte.x5f else c) (map (fun c => if decide (c = Byte.x2d) then Byte.x5f else c) (map ascii_lower (sbytes (trim s)))).
Proof. unfold normalize_token, replace_byte, to_ascii_lowercase. by rewrite !sbytes_bstr. Qed.

Lemma show_i_bytes i : exists b b', head (show_i i) = Some b /\ last (show_i i) = Some b' /\ number_byte b /\ number_byte b'.
Proof.
  assert (Hu : forall n, 0 <= n -> exists b b', head (show_u n) = Some b /\ last (show_u n) = Some b' /\ number_byte b /\ number_byte b').
  { intros n Hn. pose proof (show_u_digits n Hn) as Hd. pose proof (show_u_nonempty n) as Hne. destruct (show_u n) as [|b l]; [done|].
    destruct (last (b :: l)) as [b'|] eqn:El; [|by apply last_None in El]. exists b, b'. rewrite Forall_forall in Hd. split; [done|]. split; [done|].
    split; left; apply Hd; [left|]. apply last_Some in El as [r ->]. apply elem_of_app. right. left. }
  unfold show_i. destruct (Z.ltb_spec i 0); [|apply Hu; lia]. destruct (Hu (- i) ltac:(lia)) as (b & b' & Hh & Hl & _ & Hb'). exists dash, b'.
  split; [done|]. split; [|split; [by right|done]]. destruct (show_u (- i)); [done|exact Hl].
Qed.

Lemma number_no_word i w : w ∈ ["true"; "false"; "null"] -> String.eqb (normalize_token (bstr (show_i i))) w = false.
Proof.
  intros Hw. destruct (show_i_bytes i) as (b & b' & Hh & Hl & Hb & Hb'). apply String.eqb_neq. intros E. apply (f_equal sbytes) in E.
  rewrite normalize_bytes, (trim_visible _ b b'), sbytes_bstr in E by (done || by apply number_visible). destruct (show_i i) as [|c l]; [done|]. injection Hh as ->.
  apply (f_equal head) in E. cbn [map head] in E. assert (Hf : head (sbytes w) ∈ [Some Byte.x74; Some Byte.x66; Some Byte.x6e]).
  { repeat (apply elem_of_cons in Hw as [->|Hw]; [vm_compute; set_solver|]). by apply not_elem_of_nil in Hw. }
  rewrite <- E in Hf. destruct Hb as [Hb| ->]; [destruct b; try discriminate Hb|]; vm_compute in Hf; set_solver.
Qed.

Lemma parse_show_i i : i64_ok i -> Predicate.parse_i64 (show_i i) = Some i.
Proof.
  unfold i64_ok. intros Hi. unfold show_i, Predicate.parse_i64. destruct (Z.ltb_spec i 0) as [Hn|Hn].
  - rewrite decide_True by done. assert (E : parse_digits (2 ^ 63) 0 (show_u (- i)) = Some (- i)).
    { rewrite <- parse_u_digits, parse_show_u; [done|lia|apply show_u_nonempty|apply show_u_digits; lia]. }
    pose proof (show_u_nonempty (- i)) as Hne. destruct (show_u (- i)) as [|b l]; [done|]. rewrite E. cbn. f_equal. lia.
  - assert (E : parse_u Predicate.I64_MAX (show_u i) = Some i) by (apply parse_show_u; unfold Predicate.I64_MAX; lia).
    pose proof (show_u_nonempty i) as Hne. pose proof (show_u_digits i Hn) as Hd. destruct (show_u i) as [|b l]; [done|].
    apply Forall_cons in Hd as [Hb _]. rewrite decide_False; [done|]. by intros ->.
Qed.

Lemma literal_read k : writable_kind k -> sql_literal (literal_token k) = k.
Proof.
  destruct k as [s|i|f|b|t|b|b]; cbn [writable_kind literal_token]; [done| |done|by destruct b|done|done|by intros ->].
  intros Hi. unfold sql_literal. cbn [quoted text]. rewrite !number_no_word by set_solver. by rewrite sbytes_bstr, parse_show_i.
Qed.

Section Options.
Context (name scope : string).
Implicit Types (def : Pb.PropertyDef) (ts : list SqlToken) (fuel : nat).

Lemma option_required fuel def ts : property_options name scope (S fuel) def (kw "required" :: ts)
  = property_options name scope fuel (Pb.mkPropertyDef (Pb.type def) true (Pb.index def) (Pb.default_value def)) ts.
Proof. reflexivity. Qed.

Lemma option_index fuel def i ts : 0 <= i <= 3 -> property_options name scope (S fuel) def (kw "index" :: kw (index_type_name i) :: ts)
  = property_options name scope fuel (Pb.mkPropertyDef (Pb.type def) (Pb.required def) (Some i) (Pb.default_value def)) ts.
Proof. intros Hi. pattern i. by apply upto3_cases. Qed.

Lemma option_default fuel def t ts : property_options name scope (S fuel) def (kw "default" :: t :: ts)
  = property_options name scope fuel (Pb.mkPropertyDef (Pb.type def) (Pb.required def) (Pb.index def) (Some (value_of (sql_literal t)))) ts.
Proof. reflexivity. Qed.

Lemma options_end fuel def ts : property_options name scope (S fuel) def (kw "," :: ts) = Some (inl (def, kw "," :: ts)).
Proof. reflexivity. Qed.
End Options.

Lemma property_read scope np ts : writable_property np.1 np.2 -> parse_property scope (property_tokens np ++ ts) = Some (inl (np, kw "," :: ts)).
Proof.
  destruct np as [n [t r i d]]. cbn [fst snd]. intros (_ & Ht & Hi & Hd). cbn [Pb.type Pb.index Pb.default_value] in *. unfold property_tokens.
  cbn [fst snd Pb.type Pb.required Pb.index Pb.default_value]. rewrite <- !app_assoc. cbn [app].
  set (opts := (if r then [kw "required"] else []) ++ _).
  assert (E : parse_property scope (str n :: kw (property_type_name t) :: opts)
    = (def ← fueled (fun fuel => property_options n scope fuel (Pb.mkPropertyDef t false None None)); mret (n, def)) opts).
  { pattern t. by apply type_cases. }
  rewrite E. clear E Ht. assert (Ed : d = value_of <$> (d ≫= Pb.kind)).
  { destruct d as [[k]|]; [|done]. destruct (Hd _ eq_refl) as (k' & Ek & _). cbn in *. by subst k. }
  assert (Hk : forall k, d ≫= Pb.kind = Some k -> writable_kind k).
  { intros k Ek. destruct d as [v|]; [|done]. destruct (Hd v eq_refl) as (k' & Ek' & Hk'). cbn in Ek. congruence. }
  rewrite Ed at 1. clear Ed Hd. unfold mbind at 1, Parser_bind, fueled, opts. destruct (d ≫= Pb.kind) as [k|].
  1: specialize (Hk k eq_refl). all: destruct r, i as [i|]; cbn [app length fmap option_fmap option_map].
  all: rewrite ?option_required, ?option_index by (by apply Hi).
  all: rewrite ?option_default; rewrite options_end.
  all: cbn [Pb.type Pb.required Pb.index Pb.default_value]; rewrite ?literal_read by done; reflexivity.
Qed.

Lemma property_list_read scope : forall l fuel m ts, Forall (fun np => writable_property np.1 np.2) l -> (length l < fuel)%nat ->
  property_list scope fuel m (flat_map property_tokens l ++ kw ")" :: ts)
  = Some (inl (foldl (fun m np => <[np.1 := np.2]> m) m l, kw ")" :: ts)).
Proof.
  induction l as [|np l IH]; intros fuel m ts Hl Hf; (destruct fuel as [|fuel]; [cbn in Hf; lia|]); [reflexivity|].
  inversion_clear Hl as [|? ? Hnp Hl']. cbn [flat_map foldl length] in *. rewrite <- app_assoc.
  change (property_list scope (S fuel) m (property_tokens np ++ flat_map property_tokens l ++ kw ")" :: ts))
    with ((p ← parse_property scope; let properties := <[p.1 := p.2]> m in comma ← match_symbol ",";
      if (comma : bool) then property_list scope fuel properties else
      close ← check_symbol ")";
      if (close : bool) then mret properties else fail ("Expected ',' or ')' while parsing " ++ scope)%string)
      (property_tokens np ++ flat_map property_tokens l ++ kw ")" :: ts)).
  unfold mbind at 1, Parser_bind. rewrite property_read by done.
  change (property_list scope fuel (<[np.1 := np.2]> m) (flat_map property_tokens l ++ kw ")" :: ts) = Some (inl (foldl (fun m np => <[np.1 := np.2]> m) (<[np.1 := np.2]> m) l, kw ")" :: ts))).
  apply IH; [done|lia].
Qed.

Lemma foldl_insert {A} (m : gmap string A) : foldl (fun m np => <[np.1 := np.2]> m) ∅ (map_to_list m) = m.
Proof.
  assert (H : forall l : list (string * A), foldl (fun m np => <[np.1 := np.2]> m) ∅ l = list_to_map (M := gmap string A) (reverse l)).
  { induction l as [|[k a] l IH] using rev_ind; [done|]. rewrite foldl_app, reverse_snoc, list_to_map_cons. cbn [foldl fst snd]. by rewrite IH. }
  rewrite H. symmetry. apply list_to_map_flip. by rewrite reverse_Permutation.
Qed.

Lemma parse_properties_read scope (m : gmap string Pb.PropertyDef) ts : map_Forall writable_property m ->
  parse_property_list scope (flat_map property_tokens (map_to_list m) ++ kw ")" :: ts) = Some (inl (m, kw ")" :: ts)).
Proof.
  intros Hm. unfold parse_property_list, fueled. rewrite property_list_read; [by rewrite foldl_insert|..].
  - apply Forall_forall. intros [n p] Hin%elem_of_map_to_list. by apply Hm.
  - rewrite length_app. assert (H : forall l, (length l <= length (flat_map property_tokens l))%nat); [|specialize (H (map_to_list m)); lia].
    induction l as [|np l IH]; cbn [flat_map length]; [done|]. rewrite length_app. cbn. lia.
Qed.

Lemma with_read (m : Pb.SchemaMeta) ts : 0 <= Pb.extras_policy m <= 3 -> parse_with_clause (tail (with_tokens m) ++ ts) = Some (inl (m, ts)).
Proof.
  destruct m as [a p]. unfold with_tokens. cbn [Pb.extras_policy Pb.allow_undeclared_edges]. intros Hp. pattern p.
  apply upto3_cases; [done|by destruct a..].
Qed.

Section EdgeOptions.
Implicit Types (e : Pb.EdgeDef) (ts : list SqlToken) (fuel : nat).

Lemma edge_option_properties fuel e m ts : map_Forall writable_property m -> edge_options (S fuel) e (properties_tokens (map_to_list m) ++ ts)
  = edge_options fuel (Pb.mkEdgeDef (Pb.target e) (Pb.direction e) m (Pb.sort_key e) (Pb.ownership e)) ts.
Proof.
  intros Hm. unfold properties_tokens. rewrite <- !app_assoc. cbn [app].
  change (edge_options (S fuel) e (kw "(" :: flat_map property_tokens (map_to_list m) ++ kw ")" :: ts))
    with ((ps ← parse_property_list "edge properties"; expect_symbol ")" ;;
      edge_options fuel (Pb.mkEdgeDef (Pb.target e) (Pb.direction e) ps (Pb.sort_key e) (Pb.ownership e)))
      (flat_map property_tokens (map_to_list m) ++ kw ")" :: ts)).
  unfold mbind at 1, Parser_bind. rewrite parse_properties_read by done. reflexivity.
Qed.

Lemma edge_option_direction fuel e d ts : 1 <= d <= 2 -> edge_options (S fuel) e (kw "direction" :: kw (direction_name d) :: ts)
  = edge_options fuel (Pb.mkEdgeDef (Pb.target e) d (Pb.edge_properties e) (Pb.sort_key e) (Pb.ownership e)) ts.
Proof. intros Hd. pattern d. by apply either_cases. Qed.

Lemma edge_option_ownership fuel e o ts : 1 <= o <= 2 -> edge_options (S fuel) e (kw "ownership" :: kw (ownership_name o) :: ts)
  = edge_options fuel (Pb.mkEdgeDef (Pb.target e) (Pb.direction e) (Pb.edge_properties e) (Pb.sort_key e) o) ts.
Proof. intros Ho. pattern o. by apply either_cases. Qed.

Lemma edge_option_sort_key fuel e k ts : edge_options (S fuel) e (kw "sort_key" :: str k :: ts)
  = edge_options fuel (Pb.mkEdgeDef (Pb.target e) (Pb.direction e) (Pb.edge_properties e) k (Pb.ownership e)) ts.
Proof. reflexivity. Qed.

Lemma edge_options_end fuel e ts : edge_options (S fuel) e (kw ";" :: ts) = Some (inl (e, kw ";" :: ts)).
Proof. reflexivity. Qed.
End EdgeOptions.

Lemma target_read t : writable_target t -> parse_target_from_string (text (target_token t)) = t.
Proof.
  destruct t as [[[n|b]|]]; cbn [writable_target target_token Pb.target_kind text]; [|by intros ->|done].
  intros (_ & Ht & Hs & Hp). unfold parse_target_from_string. rewrite Ht, Hp. by rewrite (proj2 (String.eqb_neq _ _) Hs).
Qed.

Lemma edge_read le ts : writable_edge le.1 le.2 -> parse_edge_clause (tail (edge_tokens le) ++ ts) = Some (inl (le, kw ";" :: ts)).
Proof.
  destruct le as [l [t d ps k o]]. intros (_ & (t' & Et & Ht) & Hp & Hd & Ho & _). cbn in Et. subst t.
  cbn [fst snd Pb.edge_properties Pb.direction Pb.ownership Pb.sort_key] in *. unfold edge_tokens. cbn [fst snd Pb.target Pb.edge_properties Pb.direction Pb.ownership Pb.sort_key].
  cbn [app tail]. rewrite <- !app_assoc. cbn [app]. set (opts := properties_tokens (map_to_list ps) ++ _).
  change (parse_edge_clause (str l :: kw "to" :: target_token t' :: opts)) with
    ((e ← fueled (fun fuel => edge_options fuel (Pb.mkEdgeDef (Some (parse_target_from_string (text (target_token t'))))
        Pb.EDGE_DIRECTION_DEF_OUTGOING ∅ "" Pb.OWNERSHIP_MODE_SOURCE_SITE)); mret (l, e)) opts).
  rewrite target_read by done. unfold mbind, Parser_bind, fueled. assert (Hn : exists n, S (length opts) = S (S (S (S (S n))))).
  { unfold opts. rewrite length_app. cbn [length]. eexists. rewrite !Nat.add_succ_r. reflexivity. }
  destruct Hn as [n ->]. unfold opts. by rewrite edge_option_properties, edge_option_direction, edge_option_ownership, edge_option_sort_key, edge_options_end by done.
Qed.

Lemma semicolon_read ts : consume_semicolons (kw ";" :: ts) = consume_semicolons ts.
Proof. reflexivity. Qed.

Lemma clauses_end fuel s : schema_clauses (S fuel) s [] = Some (inl (s, [])).
Proof. reflexivity. Qed.

Lemma clauses_semicolon fuel s ts : schema_clauses (S fuel) s (kw ";" :: ts) = schema_clauses (S fuel) s ts.
Proof. reflexivity. Qed.

Lemma clauses_with fuel s m ts : 0 <= Pb.extras_policy m <= 3 ->
  schema_clauses (S fuel) s (with_tokens m ++ ts) = schema_clauses fuel (set_meta s m) ts.
Proof.
  intros Hm. change (schema_clauses (S fuel) s (with_tokens m ++ ts))
    with ((m ← parse_with_clause; schema_clauses fuel (set_meta s m)) (tail (with_tokens m) ++ ts)).
  unfold mbind, Parser_bind. by rewrite with_read.
Qed.

Lemma clauses_edge fuel s le ts : writable_edge le.1 le.2 ->
  schema_clauses (S fuel) s (edge_tokens le ++ ts) = schema_clauses fuel (add_edge_def s le.1 le.2) (kw ";" :: ts).
Proof.
  intros He. change (schema_clauses (S fuel) s (edge_tokens le ++ ts))
    with ((e ← parse_edge_clause; schema_clauses fuel (add_edge_def s e.1 e.2)) (tail (edge_tokens le) ++ ts)).
  unfold mbind, Parser_bind. by rewrite edge_read.
Qed.

Lemma clauses_edges : forall l fuel s, Forall (fun le => writable_edge le.1 le.2) l -> (length l < fuel)%nat ->
  schema_clauses fuel s (flat_map edge_tokens l) = Some (inl (foldl (fun s le => add_edge_def s le.1 le.2) s l, [])).
Proof.
  induction l as [|le l IH]; intros fuel s Hl Hf; (destruct fuel as [|fuel]; [cbn in Hf; lia|]); [apply clauses_end|].
  inversion_clear Hl as [|? ? Hle Hl']. cbn [flat_map foldl length] in *. rewrite clauses_edge by done. destruct fuel as [|fuel]; [lia|].
  rewrite clauses_semicolon. apply IH; [done|lia].
Qed.

(** The registry assigns the version and the time. *)
Definition unstamped (s : Pb.EntitySchema) : Pb.EntitySchema := Pb.mkEntitySchema (Pb.name s) 0 (Pb.properties s) (Pb.edges s) (Pb.meta s) 0 "".

Lemma add_edges s l : foldl (fun s le => add_edge_def s le.1 le.2) s l
  = Pb.mkEntitySchema (Pb.name s) (Pb.version s) (Pb.properties s) (foldl (fun m le => <[le.1 := le.2]> m) (Pb.edges s) l) (Pb.meta s)
      (Pb.created_at s) (Pb.created_by s).
Proof. revert s. induction l as [|le l IH]; intros s; cbn [foldl]; [by destruct s|]. by rewrite IH. Qed.

Lemma flat_map_length {A B} (f : A -> list B) l : (forall a, f a <> []) -> (length l <= length (flat_map f l))%nat.
Proof.
  intros Hf. induction l as [|a l IH]; cbn [flat_map length]; [done|]. rewrite length_app. specialize (Hf a). destruct (f a); [done|]. cbn. lia.
Qed.

Lemma clauses_read n s ts : writable_schema s -> ts = match Pb.meta s with Some m => with_tokens m | None => [] end ++ flat_map edge_tokens (map_to_list (Pb.edges s)) ->
  (length ts < n)%nat -> schema_clauses n (Pb.mkEntitySchema (Pb.name s) 0 (Pb.properties s) ∅ None 0 "") ts = Some (inl (unstamped s, [])).
Proof.
  intros (_ & _ & He & Hm) -> Hn.
  assert (Hl : Forall (fun le => writable_edge le.1 le.2) (map_to_list (Pb.edges s))) by (apply Forall_forall; intros [l e] Hin%elem_of_map_to_list; by apply He).
  pose proof (flat_map_length edge_tokens (map_to_list (Pb.edges s)) ltac:(done)) as Hlen. unfold unstamped. destruct (Pb.meta s) as [m|].
  - rewrite length_app in Hn. cbn [length with_tokens] in Hn. destruct n as [|n]; [lia|]. rewrite clauses_with by (by apply Hm).
    rewrite clauses_edges, add_edges by (done || lia). cbn [Pb.edges set_meta]. by rewrite foldl_insert.
  - cbn [app] in *. rewrite clauses_edges, add_edges by (done || lia). cbn [Pb.edges]. by rewrite foldl_insert.
Qed.

Lemma schema_read s : writable_schema s -> parse_statement (schema_tokens s) = Some (inl (unstamped s, [])).
Proof.
  intros Hs. unfold schema_tokens, properties_tokens. rewrite <- !app_assoc. cbn [app]. set (ts := match Pb.meta s with Some m => _ | None => _ end ++ _).
  set (body := flat_map property_tokens (map_to_list (Pb.properties s)) ++ kw ")" :: ts).
  assert (E : parse_schema (kw "create" :: kw "type" :: str (Pb.name s) :: kw "(" :: body) = Some (inl (unstamped s, []))).
  { change (parse_schema (kw "create" :: kw "type" :: str (Pb.name s) :: kw "(" :: body)) with
      ((ps ← parse_property_list "schema properties"; expect_symbol ")" ;;
        fueled (fun fuel => schema_clauses fuel (Pb.mkEntitySchema (Pb.name s) 0 ps ∅ None 0 ""))) body).
    unfold mbind at 1, Parser_bind, body. rewrite parse_properties_read by apply Hs.
    change (schema_clauses (S (length ts)) (Pb.mkEntitySchema (Pb.name s) 0 (Pb.properties s) ∅ None 0 "") ts = Some (inl (unstamped s, []))).
    apply clauses_read; [done|done|lia]. }
  unfold parse_statement, mbind at 1, Parser_bind at 1. rewrite E. reflexivity.
Qed.

Lemma schema_sql_roundtrip s : writable_schema s -> parse_schema_sql (schema_text s) = Some (inl (unstamped s)).
Proof. intros Hs. unfold parse_schema_sql, schema_text. rewrite tokenize_text by (by apply schema_writable). by rewrite schema_read. Qed.


(** ** Schemas as JSON *)

Lemma json_map_list m : (list_to_map (merge_sort key_le (map_to_list m)) : gmap string Json) = m.
Proof. symmetry. apply list_to_map_flip. by rewrite merge_sort_Permutation. Qed.

Lemma json_map_get m k : obj_get (merge_sort key_le (map_to_list m)) k = m !! k.
Proof. unfold obj_get. by rewrite json_map_list. Qed.

(** What the printed JSON says of a property. *)
Definition printed_property (p : Pb.PropertyDef) : Pb.PropertyDef :=
  Pb.mkPropertyDef (Pb.type p) (Pb.required p) (Some (default Pb.INDEX_TYPE_NONE (Pb.index p))) None.

Section Printed.
Context `{JsonText}.

Lemma field_here obj k ks v : obj_get obj k = Some v -> get_value_field obj (k :: ks) = Some v.
Proof. intros E. unfold get_value_field. cbn [omap list_omap]. by rewrite E. Qed.
Lemma field_skip obj k ks : obj_get obj k = None -> get_value_field obj (k :: ks) = get_value_field obj ks.
Proof. intros E. unfold get_value_field. cbn [omap list_omap]. by rewrite E. Qed.

Lemma printed_read n p : 1 <= Pb.type p <= 6 -> (forall i, Pb.index p = Some i -> 0 <= i <= 3) ->
  parse_property_def_json n (property_to_json p) = inl (printed_property p).
Proof.
  intros Ht Hi. unfold parse_property_def_json, property_to_json, json_map, get_bool_field, get_value_field. cbn [as_object res_of mbind Res_bind].
  cbn [omap list_omap]. rewrite !json_map_get. unfold printed_property.
  assert (Hi' : 0 <= default Pb.INDEX_TYPE_NONE (Pb.index p) <= 3) by (destruct (Pb.index p) as [i|]; [by apply Hi|done]).
  unfold index_type_name_opt. revert Ht Hi'. generalize (default Pb.INDEX_TYPE_NONE (Pb.index p)). generalize (Pb.type p). intros t i Ht Hi'.
  pattern t. apply type_cases; [done|..]; (pattern i; apply upto3_cases; [done|reflexivity..]).
Qed.

Lemma parse_entries_all {A} (parse : string -> Json -> Res A) (back : A -> Json) (f : A -> A) (m : gmap string A) :
  (forall k a, m !! k = Some a -> parse k (back a) = inl (f a)) ->
  forall l out, NoDup l.*1 -> (forall k v, (k, v) ∈ l -> (back <$> m) !! k = Some v) ->
  exists res, parse_entries parse l out = inl res /\ forall k, res !! k = if decide (k ∈ l.*1) then f <$> m !! k else out !! k.
Proof.
  intros Hp. induction l as [|[k v] l IH]; intros out Hn Hin; cbn [parse_entries].
  { exists out. split; [done|]. intros k. by rewrite decide_False by set_solver. }
  inversion_clear Hn as [|? ? Hk Hn']. pose proof (Hin k v ltac:(left)) as Hv. rewrite lookup_fmap in Hv.
  destruct (m !! k) as [a|] eqn:Ea; [|done]. injection Hv as <-. rewrite (Hp k a Ea). cbn [mbind Res_bind].
  destruct (IH (<[k := f a]> out) Hn' ltac:(intros; apply Hin; by right)) as (res & E & Hres). exists res. split; [exact E|].
  intros i. rewrite Hres. cbn [fmap list_fmap fst]. destruct (decide (i = k)) as [->|Hne].
  - rewrite decide_False by done. rewrite decide_True by left. by rewrite lookup_insert_eq, Ea.
  - rewrite lookup_insert_ne by done. destruct (decide (i ∈ l.*1)); [by rewrite decide_True by (by right)|].
    rewrite decide_False; [done|]. intros [?|?]%elem_of_cons; done.
Qed.

(** The JSON that the client prints for a schema is itself a definition of a
    schema, but of another one: the name, the types, what is required and the
    indexes are read back, and the edges, the settings and the defaults are lost. *)
Theorem printed_schema_loses s : i64_ok (Pb.created_at s) ->
  map_Forall (fun _ p => 1 <= Pb.type p <= 6 /\ forall i, Pb.index p = Some i -> 0 <= i <= 3) (Pb.properties s) ->
  parse_schema_json_value (schema_to_json s) = inl (Pb.mkEntitySchema (Pb.name s) 0 (printed_property <$> Pb.properties s) ∅ None (Pb.created_at s) (Pb.created_by s)).
Proof.
  intros Hc Hs. unfold schema_to_json, json_map at 1. set (ps := property_to_json <$> Pb.properties s). set (fields := list_to_map _).
  set (obj := merge_sort key_le _). assert (Hget : forall k, obj_get obj k = fields !! k) by apply json_map_get. clearbody obj.
  unfold parse_schema_json_value. cbn [as_object res_of mbind Res_bind]. unfold get_string_field, get_i64_field, object_entries.
  rewrite (field_here obj "name" _ (JString (Pb.name s))) by (by rewrite Hget). cbn [mbind option_bind json_str res_of Res_bind].
  rewrite (Hget "properties"), (Hget "edges" : _ = None). change (fields !! "properties") with (Some (json_map ps)).
  cbn [mbind option_bind as_object json_map]. destruct (parse_entries_all parse_property_def_json property_to_json printed_property (Pb.properties s))
    with (l := merge_sort key_le (map_to_list ps)) (out := ∅ : gmap string Pb.PropertyDef) as (res & Er & Hres).
  { intros k p Hp. destruct (Hs k p Hp). by apply printed_read. }
  { rewrite merge_sort_Permutation. apply NoDup_fst_map_to_list. }
  { intros k v. rewrite merge_sort_Permutation. apply elem_of_map_to_list. }
  rewrite Er. cbn [mbind Res_bind mret Res_ret].
  rewrite !(field_skip obj "meta"), !(field_skip obj "schema_meta"), !(field_skip obj "schemaMeta") by (by rewrite Hget).
  rewrite (field_here obj "created_at" _ (json_of_int (Pb.created_at s))), (field_here obj "created_by" _ (JString (Pb.created_by s))) by (by rewrite Hget).
  cbn [get_value_field omap list_omap head mbind option_bind json_str Res_bind mret Res_ret default].
  assert (Hi : as_i64 (json_of_int (Pb.created_at s)) = Some (Pb.created_at s)).
  { unfold json_of_int, as_i64, number_as_i64. unfold i64_ok in Hc. destruct (Z.leb_spec 0 (Pb.created_at s)); [|done].
    unfold Predicate.I64_MAX. destruct (Z.leb_spec (Pb.created_at s) (2 ^ 63 - 1)); [done|lia]. }
  rewrite Hi. do 2 f_equal. apply map_eq. intros k. rewrite Hres, lookup_fmap. case_decide as Hk; [done|]. rewrite lookup_empty.
  destruct (Pb.properties s !! k) as [p|] eqn:Ep; [|done]. exfalso. apply Hk. rewrite merge_sort_Permutation. apply list_elem_of_fmap.
  exists (k, property_to_json p). split; [done|]. apply elem_of_map_to_list. unfold ps. by rewrite lookup_fmap, Ep.
Qed.
End Printed.

From S2P Require Import MemFdb Cdc Ids Index TermIndex Jobs SchemaRegistry Node.
From S2P Require Import Predicate Security Service Wire SchemaInput.

(** ** A statement *)

Definition person_statement : string :=
  "CREATE TYPE Person ( -- a person
     email STRING REQUIRED INDEX UNIQUE, age INT INDEX RANGE DEFAULT -1,
     active BOOL DEFAULT true)
   WITH (allow_undeclared_edges = false, extras_policy = reject)
   EDGE WORKS_AT TO Company (since TIMESTAMP) OWNERSHIP SOURCE_SITE SORT KEY since;".

Definition statement_properties (input : string) : option (list (string * (Z * bool * option Z))) :=
  match parse_schema_sql input with
  | Some (inl s) => Some (map (fun np => (np.1, (Pb.type np.2, Pb.required np.2, Pb.index np.2))) (map_to_list (Pb.properties s)))
  | _ => None
  end.

Example person_statement_read :
  statement_properties person_statement = Some [("email", (1, true, Some 1)); ("age", (2, false, Some 3)); ("active", (4, false, None))].
Proof. vm_compute. reflexivity. Qed.

(** ** A schema and its statement *)

Definition club : EntitySchema :=
  Schemas.with_edge (Schemas.with_property (Schemas.new "Club 'n'") "size" (PropDefs.with_default (PropDefs.with_index (PropDefs.new PInt) IdxRange) (VInt (-3))))
    "HAS" (EdgeDefs.with_sort_key (EdgeDefs.new (Specific "Person")) "since").

Lemma club_writable : writable_schema (core_to_proto_schema club).
Proof.
  split; [reflexivity|]. split; [|split].
  - apply map_Forall_fmap, map_Forall_insert_2; [|apply map_Forall_empty]. split; [reflexivity|]. split; [split; discriminate|]. split.
    + intros i [= <-]. split; discriminate.
    + intros v [= <-]. eexists. split; [reflexivity|]. split; discriminate || reflexivity.
  - apply map_Forall_fmap, map_Forall_insert_2; [|apply map_Forall_empty]. split; [reflexivity|]. split.
    { eexists. split; [reflexivity|]. split; [reflexivity|]. split; [vm_compute; reflexivity|]. split; [discriminate|vm_compute; reflexivity]. }
    split; [apply map_Forall_fmap; apply map_Forall_empty|]. split; [split; discriminate|]. split; [split; discriminate|reflexivity].
  - intros m [= <-]. split; discriminate.
Qed.


(** ** Definitions that do not mean what they say *)

(** A number is an integer also for a property of another type: the statement is
    registered, and every creation that relies on the default is refused. *)
Theorem timestamp_default_refused :
  exists p schema, parse_schema_sql "CREATE TYPE Event (at TIMESTAMP DEFAULT 7)" = Some (inl p) /\ proto_to_core_schema p 1 = inl schema /\
    validate_properties "Event" schema (apply_defaults schema ∅) = Err (TypeMismatch "at" "timestamp" "int").
Proof. eexists _, _. split; [vm_compute; reflexivity|]. split; vm_compute; reflexivity. Qed.

(** The difference of two schemas is that of their properties: an edge that is added
    does not show, nor a default that changes. *)
Definition bare_club : EntitySchema := Schemas.with_property (Schemas.new "Club 'n'") "size" (PropDefs.with_index (PropDefs.new PInt) IdxRange).

Theorem edge_changes_not_shown :
  bare_club <> club /\ schema_changes (core_to_proto_schema bare_club) (core_to_proto_schema club) = [].
Proof. split; [discriminate|]. vm_compute. reflexivity. Qed.
