(* ===== verification/Operator.v ===== *)
(** * The Kubernetes operator

    [pelago-operator/src]: the custom resource of a site (api/v1alpha1.rs), its
    defaults and validation (webhook.rs), the objects it stands for
    (resources/mod.rs), its conditions (status.rs) and the reconciliation
    (controller.rs).

    Objects of Kubernetes are records of the fields that the operator sets from the
    resource; what is the same for every site (API versions, the metric of the
    autoscaler, the strategy of a deployment) is left out.  Parts
    that it copies from the resource without looking at them (resource requirements,
    tolerations, affinities, other sources of volumes and variables) are JSON.  The
    Kubernetes API is a class ([KubeApi]); a call may fail. *)

From S2P Require Import Prelude Bytes Text Errors Types Encoding Subspace SchemaTypes Fdb Security Service Auth Wire SchemaInput.

Module Op.

(** ** The custom resource *)

Record SecretKeyRef := mkSecretKeyRef { secret_name : string; secret_key : string }.
#[export] Instance SecretKeyRef_eq_dec : EqDecision SecretKeyRef.
Proof. solve_decision. Defined.

Record ImageSpec := mkImageSpec { repository : string; tag : string; pull_policy : string }.
Definition default_image : ImageSpec := mkImageSpec "ghcr.io/pelagodb/pelago-server" "latest" "IfNotPresent".

Record SiteSpec := mkSiteSpec { id : Z; site_name : string }.
Record DefaultsSpec := mkDefaultsSpec { database : string; namespace : string }.
Definition default_defaults : DefaultsSpec := mkDefaultsSpec "default" "default".
Record AuthSpec := mkAuthSpec { auth_required : bool; api_keys_secret_ref : option SecretKeyRef }.

Inductive ServiceType := ClusterIP | NodePort | LoadBalancer.
Definition as_k8s_value (t : ServiceType) : string :=
  match t with ClusterIP => "ClusterIP" | NodePort => "NodePort" | LoadBalancer => "LoadBalancer" end.

Record ApiServiceSpec := mkApiServiceSpec { service_type : ServiceType; port : Z; service_annotations : gmap string string }.
Record CacheSpec := mkCacheSpec { cache_enabled : bool; cache_path : string; projector_batch_size : Z }.
Record ApiHpaSpec := mkApiHpaSpec { hpa_enabled : bool; min_replicas : Z; max_replicas : Z; target_cpu_utilization_percentage : Z }.
Record ApiPdbSpec := mkApiPdbSpec { pdb_enabled : bool; min_available : Z }.
Record ApiTierSpec := mkApiTierSpec {
  api_replicas : Z; service : ApiServiceSpec; api_resources : option Json; cache : CacheSpec; hpa : ApiHpaSpec; pdb : ApiPdbSpec
}.
Definition default_api : ApiTierSpec :=
  mkApiTierSpec 3 (mkApiServiceSpec ClusterIP 27615 ∅) None (mkCacheSpec true "/var/lib/pelago/cache" 1000) (mkApiHpaSpec true 3 15 65)
    (mkApiPdbSpec false 2).

Record ReplicatorLeaseSpec := mkLeaseSpec { lease_on : bool; ttl_ms : Z; heartbeat_ms : Z }.
Record ReplicationScopeSpec := mkScopeSpec { scope_db : string; scope_ns : string }.
#[export] Instance ReplicationScopeSpec_eq_dec : EqDecision ReplicationScopeSpec.
Proof. solve_decision. Defined.
Record ReplicationPeerSpec := mkPeerSpec { site_id : string; endpoint : string; api_key_secret_ref : option SecretKeyRef }.

Inductive ReplicationTlsMode := Disabled | SystemRoots | CustomCA | MutualTLS.
Definition as_env_value (m : ReplicationTlsMode) : string :=
  match m with Disabled => "disabled" | SystemRoots => "system-roots" | CustomCA => "custom-ca" | MutualTLS => "mutual-tls" end.

Definition tls_required (m : ReplicationTlsMode) : bool := match m with Disabled => false | _ => true end.

Record ReplicationTlsSpec := mkTlsSpec {
  mode : ReplicationTlsMode; ca_bundle_secret_ref : option SecretKeyRef; client_cert_secret_ref : option SecretKeyRef;
  client_key_secret_ref : option SecretKeyRef; server_name : option string
}.
Record ReplicatorSpec := mkReplicatorSpec {
  enabled : option bool; replicas : Z; resources : option Json; batch_size : Z; poll_ms : Z; lease : ReplicatorLeaseSpec;
  scopes : list ReplicationScopeSpec; peers : list ReplicationPeerSpec; tls : ReplicationTlsSpec
}.
Definition default_replicator : ReplicatorSpec :=
  mkReplicatorSpec None 2 None 512 300 (mkLeaseSpec true 10000 2000) [] [] (mkTlsSpec Disabled None None None None).
Definition is_enabled (r : ReplicatorSpec) : bool := default (negb (bool_decide (length (peers r) = 0%nat))) (enabled r).

(** A variable of a container: a text, a key of a secret, or another source. *)
Record EnvVar := mkEnvVar { env_name : string; env_value : option string; env_secret : option SecretKeyRef; env_other : option Json }.
Inductive VolumeSource := EmptyDir | SecretItem (secret key path : string) | OtherSource (j : Json).
Record Volume := mkVolume { volume_name : string; volume_source : VolumeSource }.
Record VolumeMount := mkMount { mount_name : string; mount_path : string; read_only : option bool }.

Record PodTemplateSpec := mkPodTemplateSpec {
  pod_labels : gmap string string; pod_annotations : gmap string string; node_selector : gmap string string; tolerations : list Json;
  affinity : option Json; extra_env : list EnvVar; extra_volume_mounts : list VolumeMount; extra_volumes : list Volume
}.
Record PelagoSiteSpec := mkSpec {
  image : ImageSpec; site : SiteSpec; cluster_file_secret_ref : SecretKeyRef; defaults : DefaultsSpec; auth : AuthSpec; api : ApiTierSpec;
  replicator : ReplicatorSpec; pod_api : PodTemplateSpec; pod_replicator : PodTemplateSpec
}.

Record StatusCondition := mkCondition {
  condition_type : string; condition_status : string; reason : option string; message : option string; last_transition_time : string
}.
Record ApiTierStatus := mkApiStatus { api_ready : Z; api_desired : Z; api_service : option string; api_hpa : option string }.
Record ReplicatorTierStatus := mkReplicatorStatus { repl_ready : Z; repl_desired : Z }.
Record PelagoSiteStatus := mkStatus {
  observed_generation : option Z; conditions : list StatusCondition; status_api : option ApiTierStatus;
  status_replicator : option ReplicatorTierStatus; last_reconcile_time : option string; managed_resources : list string
}.
Definition default_status : PelagoSiteStatus := mkStatus None [] None None None [].

Record PelagoSite := mkSite {
  meta_name : option string; generate_name : option string; meta_namespace : option string; uid : option string; generation : option Z;
  spec : PelagoSiteSpec; status : option PelagoSiteStatus
}.
Definition name_any (s : PelagoSite) : string := default "" (match meta_name s with Some n => Some n | None => generate_name s end).

(** References without repetition, in the order of their first use. *)
Fixpoint dedupe (seen : gset (string * string)) (l : list SecretKeyRef) : list SecretKeyRef :=
  match l with
  | [] => []
  | r :: rest =>
      if decide ((secret_name r, secret_key r) ∈ seen) then dedupe seen rest
      else r :: dedupe ({[(secret_name r, secret_key r)]} ∪ seen) rest
  end.

Definition referenced_secret_keys (s : PelagoSiteSpec) : list SecretKeyRef :=
  let t := tls (replicator s) in
  dedupe ∅ ([cluster_file_secret_ref s] ++ option_list (api_keys_secret_ref (auth s)) ++ omap api_key_secret_ref (peers (replicator s))
    ++ option_list (ca_bundle_secret_ref t) ++ option_list (client_cert_secret_ref t) ++ option_list (client_key_secret_ref t)).

(** ** Defaults and validation *)

Definition set_replicator (s : PelagoSite) (r : ReplicatorSpec) : PelagoSite :=
  let p := spec s in
  mkSite (meta_name s) (generate_name s) (meta_namespace s) (uid s) (generation s)
    (mkSpec (image p) (site p) (cluster_file_secret_ref p) (defaults p) (auth p) (api p) r (pod_api p) (pod_replicator p)) (status s).

Definition apply_defaults (s : PelagoSite) : PelagoSite :=
  let r := replicator (spec s) in
  let on := match enabled r with None => Some (negb (bool_decide (length (peers r) = 0%nat))) | e => e end in
  let sc := match scopes r with [] => [mkScopeSpec (database (defaults (spec s))) (namespace (defaults (spec s)))] | l => l end in
  set_replicator s (mkReplicatorSpec on (replicas r) (resources r) (batch_size r) (poll_ms r) (lease r) sc (peers r) (tls r)).

Definition blank (s : string) : bool := String.eqb (trim s) "".

(** The errors of a list whose entries are checked against those before. *)
Fixpoint check_each {A} (eqb : A -> A -> bool) (check : A -> list string) (duplicate : A -> string) (seen : list A) (l : list A) : list string :=
  match l with
  | [] => []
  | a :: rest => check a ++ (if existsb (eqb a) seen then [duplicate a] else []) ++ check_each eqb check duplicate (a :: seen) rest
  end.

Definition errors_if (b : bool) (e : string) : list string := if b then [e] else [].

Definition validate_peers (local_site : string) (l : list ReplicationPeerSpec) : list string :=
  check_each (fun a b => String.eqb (site_id a) (site_id b))
    (fun p => errors_if (blank (site_id p)) "replicator peer siteId must not be empty"
      ++ errors_if (blank (endpoint p)) "replicator peer endpoint must not be empty"
      ++ errors_if (String.eqb (site_id p) local_site) "replicator peer siteId must not equal local site.id")
    (fun p => "duplicate replicator peer siteId '" ++ site_id p ++ "' in spec.replicator.peers")%string [] l.

Definition validate_scopes (l : list ReplicationScopeSpec) : list string :=
  check_each (fun a b => bool_decide (a = b))
    (fun s => errors_if (blank (scope_db s) || blank (scope_ns s)) "replicator scope database/namespace must both be non-empty")
    (fun s => "duplicate replication scope '" ++ scope_db s ++ "/" ++ scope_ns s ++ "'")%string [] l.

Definition given {A} (o : option A) : bool := match o with Some _ => true | None => false end.

Definition validate_tls (t : ReplicationTlsSpec) : list string :=
  let ca := given (ca_bundle_secret_ref t) in let cert := given (client_cert_secret_ref t) in let key := given (client_key_secret_ref t) in
  match mode t with
  | Disabled => errors_if (ca || cert || key) "replicator.tls secret refs require mode=SystemRoots|CustomCA|MutualTLS"
  | SystemRoots =>
      errors_if ca "replicator.tls.caBundleSecretRef is not used with mode=SystemRoots"
      ++ errors_if (cert || key) "replicator.tls client cert/key refs require mode=MutualTLS"
  | CustomCA =>
      errors_if (negb ca) "replicator.tls.caBundleSecretRef is required with mode=CustomCA"
      ++ errors_if (cert || key) "replicator.tls client cert/key refs require mode=MutualTLS"
  | MutualTLS =>
      errors_if (negb ca || negb cert || negb key)
        "replicator.tls mode=MutualTLS requires caBundleSecretRef, clientCertSecretRef, and clientKeySecretRef"
  end.

Definition validate_peer_api_key_constraints (l : list ReplicationPeerSpec) : list string :=
  match omap api_key_secret_ref l with
  | [] => []
  | (first :: _) as refs =>
      errors_if (existsb (fun r => negb (bool_decide (r = first))) refs) "all spec.replicator.peers[*].apiKeySecretRef values must match in v1"
  end.

Definition u64_saturating_mul (a b : Z) : Z := Z.min (a * b) (2 ^ 64 - 1).

Definition validate_site (s : PelagoSite) : list string :=
  let p := spec s in
  let l := lease (replicator p) in
  errors_if (blank (secret_name (cluster_file_secret_ref p))) "spec.fdb.clusterFileSecretRef.name must not be empty"
  ++ errors_if (blank (secret_key (cluster_file_secret_ref p))) "spec.fdb.clusterFileSecretRef.key must not be empty"
  ++ validate_peers (ustr (id (site p))) (peers (replicator p))
  ++ validate_scopes (scopes (replicator p))
  ++ errors_if (min_replicas (hpa (api p)) <=? 0) "spec.api.hpa.minReplicas must be > 0"
  ++ errors_if (max_replicas (hpa (api p)) <=? 0) "spec.api.hpa.maxReplicas must be > 0"
  ++ errors_if (max_replicas (hpa (api p)) <? min_replicas (hpa (api p))) "spec.api.hpa.minReplicas must be <= maxReplicas"
  ++ errors_if ((heartbeat_ms l =? 0) || (ttl_ms l =? 0)) "replicator lease heartbeatMs/ttlMs must be > 0"
  ++ errors_if (ttl_ms l <? u64_saturating_mul (heartbeat_ms l) 2) "replicator lease ttlMs must be at least 2x heartbeatMs"
  ++ validate_tls (tls (replicator p))
  ++ validate_peer_api_key_constraints (peers (replicator p)).

(** The answers of the webhook to a resource it could decode: a resource with its
    defaults, and a refusal. *)
Definition mutate (s : PelagoSite) : PelagoSite := apply_defaults s.
Definition validate (s : PelagoSite) : option string :=
  match validate_site (apply_defaults s) with [] => None | errors => Some (String.concat "; " errors) end.

(** ** The objects of a site *)

Definition labels (s : PelagoSite) : gmap string string :=
  list_to_map [("app.kubernetes.io/name", "pelagodb"); ("app.kubernetes.io/instance", name_any s); ("app.kubernetes.io/managed-by", "pelago-operator")].
Definition api_selector_labels (s : PelagoSite) : gmap string string := <["pelago.pelagodb.io/role" := "api"]> (labels s).
Definition replicator_selector_labels (s : PelagoSite) : gmap string string := <["pelago.pelagodb.io/role" := "replicator"]> (labels s).

Definition config_map_name (s : PelagoSite) : string := (name_any s ++ "-config")%string.
Definition api_deployment_name (s : PelagoSite) : string := (name_any s ++ "-api")%string.
Definition replicator_deployment_name (s : PelagoSite) : string := (name_any s ++ "-replicator")%string.
Definition api_service_name (s : PelagoSite) : string := (name_any s ++ "-api")%string.
Definition api_hpa_name (s : PelagoSite) : string := (name_any s ++ "-api")%string.
Definition api_pdb_name (s : PelagoSite) : string := (name_any s ++ "-api")%string.

Definition managed_resource_names (s : PelagoSite) : list string :=
  [("ConfigMap/" ++ config_map_name s); ("Deployment/" ++ api_deployment_name s); ("Service/" ++ api_service_name s);
   ("Deployment/" ++ replicator_deployment_name s); ("HorizontalPodAutoscaler/" ++ api_hpa_name s); ("PodDisruptionBudget/" ++ api_pdb_name s)]%string.

Record ObjectMeta := mkMeta {
  om_name : string; om_namespace : option string; om_labels : gmap string string; om_annotations : option (gmap string string);
  om_owner : option (string * string)
}.
(** The owner is the site, by its name and uid. *)
Definition metadata (s : PelagoSite) (name : string) (labels annotations : gmap string string) : ObjectMeta :=
  mkMeta name (meta_namespace s) labels (if decide (annotations = ∅) then None else Some annotations)
    (match meta_name s, uid s with Some n, Some u => Some (n, u) | _, _ => None end).

Definition bool_text (b : bool) : string := if b then "true" else "false".
Definition plain_env (name value : string) : EnvVar := mkEnvVar name (Some value) None None.
Definition secret_env_var (name : string) (r : SecretKeyRef) : EnvVar := mkEnvVar name None (Some r) None.
Definition secret_volume (name : string) (r : SecretKeyRef) (path : string) : Volume :=
  mkVolume name (SecretItem (secret_name r) (secret_key r) path).

(** [join] of a vector of texts. *)
Definition peers_csv (l : list ReplicationPeerSpec) : string := String.concat "," (map (fun p => site_id p ++ "=" ++ endpoint p)%string l).
Definition scopes_csv (l : list ReplicationScopeSpec) (default_db default_ns : string) : string :=
  match l with
  | [] => (default_db ++ "/" ++ default_ns)%string
  | _ => String.concat "," (map (fun s => scope_db s ++ "/" ++ scope_ns s)%string l)
  end.
Definition shared_peer_api_key_secret (l : list ReplicationPeerSpec) : option SecretKeyRef := head (omap api_key_secret_ref l).

Record ConfigMap := mkConfigMap { cm_meta : ObjectMeta; cm_data : gmap string string }.
Definition build_config_map (s : PelagoSite) : ConfigMap :=
  let p := spec s in let r := replicator p in
  let scope := default (mkScopeSpec (database (defaults p)) (namespace (defaults p))) (head (scopes r)) in
  mkConfigMap (metadata s (config_map_name s) (labels s) ∅)
    (list_to_map
      [("PELAGO_SITE_ID", ustr (id (site p))); ("PELAGO_SITE_NAME", site_name (site p)); ("PELAGO_LISTEN_ADDR", "0.0.0.0:27615");
       ("PELAGO_FDB_CLUSTER", "/etc/pelago/fdb.cluster"); ("PELAGO_DEFAULT_DATABASE", database (defaults p));
       ("PELAGO_DEFAULT_NAMESPACE", namespace (defaults p)); ("PELAGO_AUTH_REQUIRED", bool_text (auth_required (auth p)));
       ("PELAGO_AUDIT_ENABLED", "true"); ("PELAGO_CACHE_PROJECTOR_BATCH_SIZE", ustr (projector_batch_size (cache (api p))));
       ("PELAGO_REPLICATION_DATABASE", scope_db scope); ("PELAGO_REPLICATION_NAMESPACE", scope_ns scope);
       ("PELAGO_REPLICATION_SCOPES", scopes_csv (scopes r) (database (defaults p)) (namespace (defaults p)));
       ("PELAGO_REPLICATION_BATCH_SIZE", ustr (batch_size r)); ("PELAGO_REPLICATION_POLL_MS", ustr (poll_ms r));
       ("PELAGO_REPLICATION_LEASE_ENABLED", bool_text (lease_on (lease r))); ("PELAGO_REPLICATION_LEASE_TTL_MS", ustr (ttl_ms (lease r)));
       ("PELAGO_REPLICATION_LEASE_HEARTBEAT_MS", ustr (heartbeat_ms (lease r)))]).

Record KService := mkService { svc_meta : ObjectMeta; svc_selector : gmap string string; svc_type : string; svc_port : string * Z * string }.
Definition build_api_service (s : PelagoSite) : KService :=
  let svc := service (api (spec s)) in
  mkService (metadata s (api_service_name s) (labels s) (service_annotations svc)) (api_selector_labels s) (as_k8s_value (service_type svc))
    ("grpc", port svc, "grpc").

Record Probe := mkProbe { probe_port : string; initial_delay_seconds : Z; period_seconds : Z }.
Definition tcp_probe (port_name : string) (initial_delay period : Z) : Probe := mkProbe port_name initial_delay period.

Record Container := mkContainer {
  container_name : string; container_image : string; image_pull_policy : string; container_port : Z * string; env_from : string;
  env : list EnvVar; volume_mounts : list VolumeMount; readiness_probe : option Probe; liveness_probe : option Probe;
  container_resources : option Json
}.
Record Deployment := mkDeployment {
  dep_meta : ObjectMeta; dep_replicas : Z; dep_selector : gmap string string; template_labels : gmap string string;
  template_annotations : gmap string string; container : Container; dep_node_selector : option (gmap string string);
  dep_tolerations : option (list Json); dep_affinity : option Json; volumes : list Volume
}.

(** Both tiers run the server image under the same rules for pods. *)
Definition build_deployment (s : PelagoSite) (name : string) (n : Z) (selector : gmap string string) (pods : PodTemplateSpec) (c : Container)
    (vs : list Volume) : Deployment :=
  mkDeployment (metadata s name (labels s) ∅) n selector (pod_labels pods ∪ selector) (pod_annotations pods) c
    (if decide (node_selector pods = ∅) then None else Some (node_selector pods))
    (match tolerations pods with [] => None | l => Some l end) (affinity pods) (vs ++ extra_volumes pods).
Definition server_image (s : PelagoSite) : string := (repository (image (spec s)) ++ ":" ++ tag (image (spec s)))%string.

Definition build_api_deployment (s : PelagoSite) : Deployment :=
  let p := spec s in let pods := pod_api p in
  build_deployment s (api_deployment_name s) (api_replicas (api p)) (api_selector_labels s) pods
    (mkContainer "pelagodb-api" (server_image s) (pull_policy (image p)) (27615, "grpc") (config_map_name s)
      ([plain_env "PELAGO_REPLICATION_ENABLED" "false"; plain_env "PELAGO_CACHE_ENABLED" (bool_text (cache_enabled (cache (api p))));
        plain_env "PELAGO_CACHE_PATH" (cache_path (cache (api p)))]
       ++ option_list (secret_env_var "PELAGO_API_KEYS" <$> api_keys_secret_ref (auth p)) ++ extra_env pods)
      ([mkMount "cache" (cache_path (cache (api p))) None; mkMount "fdb-cluster" "/etc/pelago" (Some true)] ++ extra_volume_mounts pods)
      (Some (tcp_probe "grpc" 5 10)) (Some (tcp_probe "grpc" 15 20)) (api_resources (api p)))
    [mkVolume "cache" EmptyDir; secret_volume "fdb-cluster" (cluster_file_secret_ref p) "fdb.cluster"].

(** A secret of the transport: its volume, its mount and the variable that names
    its file. *)
Definition tls_part (r : option SecretKeyRef) (name file dir var : string) : list (Volume * VolumeMount * EnvVar) :=
  match r with
  | Some r => [(secret_volume name r file, mkMount name dir (Some true), plain_env var (dir ++ "/" ++ file)%string)]
  | None => []
  end.
Definition tls_parts (t : ReplicationTlsSpec) : list (Volume * VolumeMount * EnvVar) :=
  tls_part (ca_bundle_secret_ref t) "replication-tls-ca" "ca.pem" "/etc/pelago/tls/ca" "PELAGO_REPLICATION_TLS_CA"
  ++ tls_part (client_cert_secret_ref t) "replication-tls-cert" "tls.crt" "/etc/pelago/tls/cert" "PELAGO_REPLICATION_TLS_CERT"
  ++ tls_part (client_key_secret_ref t) "replication-tls-key" "tls.key" "/etc/pelago/tls/key" "PELAGO_REPLICATION_TLS_KEY".

Definition replicator_env (s : PelagoSite) : list EnvVar :=
  let p := spec s in let r := replicator p in
  [plain_env "PELAGO_REPLICATION_ENABLED" (bool_text (is_enabled r)); plain_env "PELAGO_CACHE_ENABLED" "false";
   plain_env "PELAGO_REPLICATION_PEERS" (peers_csv (peers r));
   plain_env "PELAGO_REPLICATION_SCOPES" (scopes_csv (scopes r) (database (defaults p)) (namespace (defaults p)));
   plain_env "PELAGO_REPLICATION_BATCH_SIZE" (ustr (batch_size r)); plain_env "PELAGO_REPLICATION_POLL_MS" (ustr (poll_ms r));
   plain_env "PELAGO_REPLICATION_LEASE_ENABLED" (bool_text (lease_on (lease r)));
   plain_env "PELAGO_REPLICATION_LEASE_TTL_MS" (ustr (ttl_ms (lease r)));
   plain_env "PELAGO_REPLICATION_LEASE_HEARTBEAT_MS" (ustr (heartbeat_ms (lease r)));
   plain_env "PELAGO_REPLICATION_TLS_MODE" (as_env_value (mode (tls r)))]
  ++ option_list (secret_env_var "PELAGO_REPLICATION_API_KEY" <$> shared_peer_api_key_secret (peers r))
  ++ option_list (secret_env_var "PELAGO_API_KEYS" <$> api_keys_secret_ref (auth p))
  ++ (tls_parts (tls r)).*2
  ++ option_list (plain_env "PELAGO_REPLICATION_TLS_SERVER_NAME" <$> server_name (tls r))
  ++ extra_env (pod_replicator p).

Definition build_replicator_deployment (s : PelagoSite) : Deployment :=
  let p := spec s in let pods := pod_replicator p in
  build_deployment s (replicator_deployment_name s) (replicas (replicator p)) (replicator_selector_labels s) pods
    (mkContainer "pelagodb-replicator" (server_image s) (pull_policy (image p)) (27615, "grpc") (config_map_name s) (replicator_env s)
      ([mkMount "fdb-cluster" "/etc/pelago" (Some true)] ++ (tls_parts (tls (replicator p))).*1.*2 ++ extra_volume_mounts pods)
      None None (resources (replicator p)))
    ([secret_volume "fdb-cluster" (cluster_file_secret_ref p) "fdb.cluster"] ++ (tls_parts (tls (replicator p))).*1.*1).

Record Hpa := mkHpa { hpa_meta : ObjectMeta; hpa_target : string; hpa_min : Z; hpa_max : Z; hpa_cpu : Z }.
Definition build_api_hpa (s : PelagoSite) : option Hpa :=
  let h := hpa (api (spec s)) in
  if hpa_enabled h then
    Some (mkHpa (metadata s (api_hpa_name s) (labels s) ∅) (api_deployment_name s) (min_replicas h) (max_replicas h) (target_cpu_utilization_percentage h))
  else None.

Record Pdb := mkPdb { pdb_meta : ObjectMeta; pdb_min_available : Z; pdb_selector : gmap string string }.
Definition build_api_pdb (s : PelagoSite) : option Pdb :=
  let b := pdb (api (spec s)) in
  if pdb_enabled b then Some (mkPdb (metadata s (api_pdb_name s) (labels s) ∅) (min_available b) (api_selector_labels s)) else None.

(** ** Conditions *)

Definition set_conditions (st : PelagoSiteStatus) (l : list StatusCondition) : PelagoSiteStatus :=
  mkStatus (observed_generation st) l (status_api st) (status_replicator st) (last_reconcile_time st) (managed_resources st).

(** The first condition of the type is updated; its time changes with its status. *)
Fixpoint update_condition (type stat : string) (rsn msg now : string) (l : list StatusCondition) : option (list StatusCondition) :=
  match l with
  | [] => None
  | c :: rest =>
      if String.eqb (condition_type c) type then
        Some (mkCondition (condition_type c) stat (Some rsn) (Some msg)
                (if String.eqb (condition_status c) stat then last_transition_time c else now) :: rest)
      else (fun r => c :: r) <$> update_condition type stat rsn msg now rest
  end.
Definition set_condition (now : string) (st : PelagoSiteStatus) (type stat rsn msg : string) : PelagoSiteStatus :=
  set_conditions st
    (match update_condition type stat rsn msg now (conditions st) with
     | Some l => l
     | None => conditions st ++ [mkCondition type stat (Some rsn) (Some msg) now]
     end).
Definition clear_condition (st : PelagoSiteStatus) (type : string) : PelagoSiteStatus :=
  set_conditions st (List.filter (fun c => negb (String.eqb (condition_type c) type)) (conditions st)).

(** ** The index of secrets *)

Definition SecretIndex : Type := gmap (string * string) (gset string).

Definition update_secret_index (s : PelagoSite) (ns : string) (index : SecretIndex) : SecretIndex :=
  let cleared := (fun refs => refs ∖ {[name_any s]}) <$> index in
  let added := foldl (fun (i : SecretIndex) r => <[(ns, secret_name r) := {[name_any s]} ∪ default ∅ (i !! (ns, secret_name r))]> i)
                 cleared (referenced_secret_keys (spec s)) in
  filter (fun kv => kv.2 <> ∅) added.

Definition map_secret_to_sites (secret_namespace : option string) (secret : string) (index : SecretIndex) : list (string * string) :=
  match secret_namespace with
  | None => []
  | Some ns => match index !! (ns, secret) with Some sites => map (fun n => (ns, n)) (elements sites) | None => [] end
  end.

(** ** Reconciliation *)

Inductive OperatorError :=
  | KubeError (code : option Z) (text : string) | MissingNamespace (name : string) | MissingName | MissingSecret (namespace name : string) | InvalidSpec (text : string).

(** The objects that are applied, and how one is found. *)
Inductive KObject := KConfigMap (o : ConfigMap) | KServiceObj (o : KService) | KDeployment (o : Deployment) | KHpaObj (o : Hpa) | KPdbObj (o : Pdb).
Inductive KKind := ConfigMapKind | ServiceKind | DeploymentKind | HpaKind | PdbKind.
#[export] Instance KKind_eq_dec : EqDecision KKind.
Proof. solve_decision. Defined.
Definition kind_of (o : KObject) : KKind :=
  match o with
  | KConfigMap _ => ConfigMapKind | KServiceObj _ => ServiceKind | KDeployment _ => DeploymentKind | KHpaObj _ => HpaKind | KPdbObj _ => PdbKind
  end.
Definition meta_of (o : KObject) : ObjectMeta :=
  match o with KConfigMap o => cm_meta o | KServiceObj o => svc_meta o | KDeployment o => dep_meta o | KHpaObj o => hpa_meta o | KPdbObj o => pdb_meta o end.

(** What the operator reads of a deployment: the replicas that are ready and the
    replicas of its specification. *)
Record DeploymentView := mkView { view_ready : option Z; view_replicas : option Z }.
Definition ready_replicas (d : DeploymentView) : Z := default 0 (view_ready d).
Definition desired_replicas (d : DeploymentView) : Z := default 0 (view_replicas d).

(** A call to the API server. *)
Definition Call (K A : Type) : Type := K -> (A + OperatorError) * K.
#[export] Instance Call_ret {K} : MRet (Call K) := fun A a k => (inl a, k).
#[export] Instance Call_bind {K} : MBind (Call K) := fun A B f m k => match m k with (inl a, k') => f a k' | (inr e, k') => (inr e, k') end.
Definition stop {K A} (e : OperatorError) : Call K A := fun k => (inr e, k).

Class KubeApi (K : Type) := {
  get_secret : string -> string -> Call K bool;
  patch_object : string -> KObject -> Call K unit;
  delete_object : string -> KKind -> string -> Call K unit;
  get_deployment : string -> string -> Call K DeploymentView;
  patch_site_status : string -> string -> PelagoSiteStatus -> Call K unit;
  now_rfc3339 : Call K string
}.

Section Reconcile.
Context {K : Type} `{KubeApi K}.

Definition apply (ns : string) (o : KObject) : Call K unit := patch_object ns o.

(** An object that is not there counts as deleted. *)
Definition delete_if_exists (ns : string) (kind : KKind) (name : string) : Call K unit := fun k =>
  match delete_object ns kind name k with
  | (inr (KubeError (Some 404) _), k') => (inl tt, k')
  | r => r
  end.

Fixpoint ensure_secrets (ns : string) (l : list SecretKeyRef) : Call K unit :=
  match l with
  | [] => mret tt
  | r :: rest =>
      exists_ ← get_secret ns (secret_name r);
      if negb exists_ then stop (MissingSecret ns (secret_name r)) else ensure_secrets ns rest
  end.
Definition ensure_referenced_secrets (s : PelagoSite) (ns : string) : Call K unit := ensure_secrets ns (referenced_secret_keys (spec s)).

Definition patch_status (s : PelagoSite) (st : PelagoSiteStatus) : Call K unit :=
  match meta_namespace s with
  | None => stop (MissingNamespace (name_any s))
  | Some ns => patch_site_status ns (name_any s) st
  end.

Definition with_condition (st : PelagoSiteStatus) (type stat rsn msg : string) : Call K PelagoSiteStatus :=
  now ← now_rfc3339; mret (set_condition now st type stat rsn msg).

Definition truth (b : bool) : string := if b then "True" else "False".

Definition apply_or_delete (ns : string) (o : option KObject) (kind : KKind) (name : string) : Call K unit :=
  match o with Some o => apply ns o | None => delete_if_exists ns kind name end.

(** The objects of a site, in the order in which they are applied. *)
Definition apply_objects (s : PelagoSite) (ns : string) : Call K unit :=
  apply ns (KConfigMap (build_config_map s)) ;;
  apply ns (KServiceObj (build_api_service s)) ;;
  apply ns (KDeployment (build_api_deployment s)) ;;
  apply ns (KDeployment (build_replicator_deployment s)) ;;
  apply_or_delete ns (KHpaObj <$> build_api_hpa s) HpaKind (api_hpa_name s) ;;
  apply_or_delete ns (KPdbObj <$> build_api_pdb s) PdbKind (api_pdb_name s).

Definition observed_status (s : PelagoSite) (a r : DeploymentView) (now : string) : PelagoSiteStatus :=
  let st := default default_status (status s) in
  mkStatus (generation s) (conditions st)
    (Some (mkApiStatus (ready_replicas a) (desired_replicas a) (Some (api_service_name s))
             (if hpa_enabled (hpa (api (spec s))) then Some (api_hpa_name s) else None)))
    (Some (mkReplicatorStatus (ready_replicas r) (desired_replicas r))) (Some now) (managed_resource_names s).

Definition replicas_text (tier : string) (d : DeploymentView) : string :=
  (tier ++ " readyReplicas=" ++ bstr (show_i (ready_replicas d)) ++ " desiredReplicas=" ++ bstr (show_i (desired_replicas d)))%string.

(** The index of secrets is a variable of the process; the result is the number of
    seconds after which the site is looked at again. *)
Definition reconcile (is_leader : bool) (reconcile_interval : Z) (index : SecretIndex) (resource : PelagoSite)
    : K -> (Z + OperatorError) * SecretIndex * K := fun k =>
  if negb is_leader then (inl 5, index, k) else
  let desired := apply_defaults resource in
  let keep {A} (m : Call K A) (index : SecretIndex) (f : A -> K -> (Z + OperatorError) * SecretIndex * K) (k : K) :=
    match m k with (inl a, k') => f a k' | (inr e, k') => (inr e, index, k') end in
  match validate_site desired with
  | (_ :: _) as errors =>
      keep (st ← with_condition (default default_status (status desired)) "ConfigValid" "False" "ValidationFailed" (String.concat "; " errors);
            st ← with_condition st "Degraded" "True" "ValidationFailed" "PelagoSite spec validation failed";
            patch_status desired st) index
        (fun _ k => (inr (InvalidSpec (String.concat "; " errors)), index, k)) k
  | [] =>
      match meta_namespace desired with
      | None => (inr (MissingNamespace (name_any desired)), index, k)
      | Some ns =>
          keep (ensure_referenced_secrets desired ns) index (fun _ k =>
            let index := update_secret_index desired ns index in
            keep (
              apply_objects desired ns ;;
              a ← get_deployment ns (api_deployment_name desired);
              r ← get_deployment ns (replicator_deployment_name desired);
              now ← now_rfc3339;
              let st := observed_status desired a r now in
              let api_ok := desired_replicas a <=? ready_replicas a in
              let repl_ok := desired_replicas r <=? ready_replicas r in
              st ← with_condition st "ConfigValid" "True" "Validated" "spec accepted";
              st ← with_condition st "ApiAvailable" (truth api_ok) "DeploymentObserved" (replicas_text "api" a);
              st ← with_condition st "ReplicatorAvailable" (truth repl_ok) "DeploymentObserved" (replicas_text "replicator" r);
              st ← with_condition st "Progressing" (truth (negb (api_ok && repl_ok))) "Reconciling" "waiting for rollout convergence";
              st ← with_condition st "Ready" (truth (api_ok && repl_ok)) "ResourcesApplied" "resource reconciliation completed";
              st ← with_condition st "Degraded" "False" "Healthy" "no errors detected";
              patch_status desired st) index (fun _ k => (inl reconcile_interval, index, k)) k) k
      end
  end.

(** After an error the site is looked at again after 15 seconds. *)
Definition error_policy : Z := 15.
End Reconcile.

End Op.
