(* ===== verification/OperatorSpec.v ===== *)
(** * What the operator deploys

    The server that a valid site deploys replicates from the peers and for the
    scopes of the site ([validated_site_replicates]); a reconciliation brings the
    objects of a site to what it says ([reconcile_converges]), reports an invalid site
    ([invalid_site_refused]) and stops at a missing secret; the index finds the
    sites of a secret when they have different names ([secret_index_exact]).  A cluster
    in memory ([mem_kube]) meets the laws of the API.  The last part shows sites for
    which the operator does not do what it means to. *)

From S2P Require Import Prelude Bytes Text Errors Types Encoding Subspace SchemaTypes Fdb Security Service Auth Wire SchemaInput Config Replicator Server Operator.
Import Op.

(** ** Validation *)

Lemma errors_if_nil b e : errors_if b e = [] <-> b = false.
Proof. by destruct b. Qed.

Lemma check_each_nil {A} (eqb : A -> A -> bool) check dup : forall l seen,
  check_each eqb check dup seen l = [] ->
  Forall (fun a => check a = []) l /\ (forall i j a b, l !! i = Some a -> l !! j = Some b -> (i < j)%nat -> eqb b a = false) /\
  (forall a b, a ∈ l -> b ∈ seen -> eqb a b = false).
Proof.
  induction l as [|a l IH]; intros seen; cbn [check_each]; [intros _; split; [constructor|]; split; [done|by intros ? ? ?%not_elem_of_nil]|].
  intros [Hc [Hd Hl]%app_eq_nil]%app_eq_nil. destruct (IH _ Hl) as (H1 & H2 & H3). split; [by constructor|].
  assert (Hs : forall b, b ∈ seen -> eqb a b = false).
  { destruct (existsb (eqb a) seen) eqn:E; [done|]. intros b Hb. apply not_true_iff_false. intros Ht. rewrite <- not_true_iff_false in E. apply E.
    apply existsb_exists. exists b. split; [by apply list_elem_of_In|done]. }
  split.
  - intros [|i] [|j] x y Hx Hy Hij; cbn in Hx, Hy; [lia| |lia|]; [|by apply (H2 i j); [..|lia]].
    injection Hx as <-. apply H3; [by apply list_elem_of_lookup_2 in Hy|left].
  - intros x y [->|Hx]%elem_of_cons Hy; [by apply Hs|]. apply H3; [done|by right].
Qed.

(** Names without separators. *)
Definition plain (s : string) : Prop := s <> "" /\ Forall (fun b => visible b /\ b <> Byte.x2c /\ b <> Byte.x3d /\ b <> Byte.x2f) (sbytes s).
(** An endpoint has a host and a port, and may have slashes. *)
Definition plain_endpoint (s : string) : Prop := s <> "" /\ Forall (fun b => visible b /\ b <> Byte.x2c) (sbytes s).
Definition plain_site (p : PelagoSiteSpec) : Prop :=
  Forall (fun x => plain (site_id x) /\ plain_endpoint (endpoint x)) (Op.peers (replicator p)) /\
  Forall (fun x => plain (scope_db x) /\ plain (scope_ns x)) (Op.scopes (replicator p)).

Lemma visible_trim s : s <> "" -> Forall visible (sbytes s) -> trim s = s.
Proof.
  intros Hne Hv. rewrite <- (bstr_sbytes s). assert (Hs : sbytes s <> []) by (intros E; apply Hne; by rewrite <- (bstr_sbytes s), E).
  rewrite Forall_forall in Hv. destruct (sbytes s) as [|b l]; [done|]. destruct (last (b :: l)) as [b'|] eqn:El; [|by apply last_None in El].
  apply (trim_visible _ b b'); [done|done|apply Hv; left|]. apply Hv. apply last_Some in El as [r ->]. apply elem_of_app. right. left.
Qed.

Lemma sbytes_nonempty s : s <> "" -> sbytes s <> [].
Proof. intros Hne E. apply Hne. by rewrite <- (bstr_sbytes s), E. Qed.

(** Entries joined by commas are read one by one. *)
Lemma entries_join l : Forall (fun e => e <> "" /\ Forall (fun b => visible b /\ b <> Byte.x2c) (sbytes e)) l -> entries_of (String.concat "," l) = l.
Proof.
  assert (Hsplit : forall e l, Forall (fun e => Byte.x2c ∉ sbytes e) (e :: l) -> split_on Byte.x2c (sbytes (String.concat "," (e :: l))) = map sbytes (e :: l)).
  { intros e l'. revert e. induction l' as [|e' l' IH]; intros e Hl.
    - apply Forall_cons in Hl as [He _]. cbn [String.concat]. by apply split_on_none.
    - inversion_clear Hl as [|? ? He Hl']. change (String.concat "," (e :: e' :: l')) with (e ++ "," ++ String.concat "," (e' :: l'))%string.
      rewrite !sbytes_app. change (sbytes ",") with [Byte.x2c]. cbn [app]. rewrite split_on_app by done. by rewrite IH. }
  intros Hl. unfold entries_of. destruct l as [|e l]; [done|]. rewrite Hsplit.
  - assert (Hmap : map (fun b => trim (bstr b)) (map sbytes (e :: l)) = e :: l).
    { rewrite map_map. rewrite <- (map_id (e :: l)) at 2. apply map_ext_in. intros x Hx%list_elem_of_In. rewrite bstr_sbytes.
      rewrite Forall_forall in Hl. destruct (Hl x Hx) as [Hne Hv]. apply visible_trim; [done|]. eapply Forall_impl; [exact Hv|]. naive_solver. }
    rewrite Hmap. apply forallb_filter_id, forallb_forall. intros x Hx%list_elem_of_In. rewrite Forall_forall in Hl. destruct (Hl x Hx) as [Hne _].
    by apply negb_true_iff, String.eqb_neq.
  - eapply Forall_impl; [exact Hl|]. cbn. intros x [_ Hv] Hin. rewrite Forall_forall in Hv. by destruct (Hv _ Hin).
Qed.

Lemma split_once_app sep a b : sep ∉ a -> split_once sep (a ++ sep :: b) = Some (a, b).
Proof.
  induction a as [|c a IH]; cbn [app split_once]; [by rewrite decide_True|]. intros [Hc Ha]%not_elem_of_cons. rewrite decide_False by done. by rewrite IH.
Qed.

Lemma plain_visible s : plain s -> plain_endpoint s.
Proof. intros [Hne Hv]. split; [done|]. eapply Forall_impl; [exact Hv|]. naive_solver. Qed.

Lemma plain_endpoint_trim s : plain_endpoint s -> trim s = s.
Proof. intros [Hne Hv]. apply visible_trim; [done|]. eapply Forall_impl; [exact Hv|]. naive_solver. Qed.

Lemma plain_no s b : plain s -> b = Byte.x2c \/ b = Byte.x3d \/ b = Byte.x2f -> b ∉ sbytes s.
Proof. intros [_ Hv] Hb Hin. rewrite Forall_forall in Hv. destruct (Hv _ Hin) as (_ & ? & ? & ?). naive_solver. Qed.

Lemma joined_entry a b (sep : string) (c : byte) : plain a -> plain_endpoint b -> sbytes sep = [c] -> visible c -> c <> Byte.x2c ->
  (a ++ sep ++ b)%string <> "" /\ Forall (fun x => visible x /\ x <> Byte.x2c) (sbytes (a ++ sep ++ b)%string).
Proof.
  intros Ha [Hb Hvb] Hs Hc Hcc. split.
  - intros E. apply (f_equal sbytes) in E. rewrite !sbytes_app in E. apply app_eq_nil in E as [E _]. by apply (sbytes_nonempty a) in E; [|apply Ha].
  - rewrite !sbytes_app, !Forall_app, Hs. split; [apply (plain_visible a Ha)|]. split; [by constructor|done].
Qed.

Lemma peers_parsed l : Forall (fun x => plain (site_id x) /\ plain_endpoint (endpoint x)) l ->
  parse_peers (peers_csv l) = map (fun x => mkPeer (site_id x) (endpoint x)) l.
Proof.
  intros Hl. unfold parse_peers, peers_csv. rewrite entries_join.
  - induction Hl as [|x l [Hs He] Hl IH]; [done|]. cbn [map]. cbn [omap list_omap]. rewrite IH. clear IH.
    rewrite !sbytes_app. change (sbytes "=") with [Byte.x3d]. cbn [app]. rewrite split_once_app by (apply plain_no; auto). cbn [mbind option_bind].
    rewrite !bstr_sbytes, !plain_endpoint_trim by (done || by apply plain_visible).
    destruct (String.eqb_spec (site_id x) "") as [E|_]; [by destruct Hs|]. destruct (String.eqb_spec (endpoint x) "") as [E|_]; [by destruct He|]. done.
  - apply Forall_map. eapply Forall_impl; [exact Hl|]. cbn. intros x [Hs He]. apply (joined_entry _ _ "=" Byte.x3d); done.
Qed.

Definition to_scope (x : ReplicationScopeSpec) : Scope := mkScope (scope_db x) (scope_ns x).

Lemma scopes_parsed l d n : l <> [] -> Forall (fun x => plain (scope_db x) /\ plain (scope_ns x)) l -> NoDup l ->
  parse_scopes (scopes_csv l d n) = map to_scope l.
Proof.
  intros Hne Hl Hnd. assert (E : scopes_csv l d n = String.concat "," (map (fun s => scope_db s ++ "/" ++ scope_ns s)%string l)) by (by destruct l).
  rewrite E. clear E Hne. unfold parse_scopes. rewrite entries_join.
  - assert (H : forall l acc, Forall (fun x => plain (scope_db x) /\ plain (scope_ns x)) l -> NoDup l -> (forall x, x ∈ l -> to_scope x ∉ acc) ->
      foldl (fun scopes entry => match scope_entry entry with Some s => push_scope scopes s | None => scopes end) acc
        (map (fun s => scope_db s ++ "/" ++ scope_ns s)%string l) = acc ++ map to_scope l); [|apply (H l []); [done|done|intros; apply not_elem_of_nil]].
    clear. induction l as [|x l IH]; intros acc Hl Hnd Hacc; [by rewrite app_nil_r|]. inversion_clear Hl as [|? ? [Hd Hn] Hl'].
    inversion_clear Hnd as [|? ? Hx Hnd']. cbn [map foldl].
    assert (E : scope_entry (scope_db x ++ "/" ++ scope_ns x) = Some (to_scope x)).
    { unfold scope_entry. rewrite !sbytes_app. change (sbytes "/") with [Byte.x2f]. cbn [app]. rewrite split_once_app by (apply plain_no; auto).
      rewrite !bstr_sbytes, !plain_endpoint_trim by (by apply plain_visible).
      destruct (String.eqb_spec (scope_db x) "") as [E|_]; [by destruct Hd|]. destruct (String.eqb_spec (scope_ns x) "") as [E|_]; [by destruct Hn|]. done. }
    rewrite E. assert (push_scope acc (to_scope x) = acc ++ [to_scope x]) as -> by (unfold push_scope; rewrite decide_False; [done|apply Hacc; left]).
    rewrite IH, <- app_assoc; [done|done|done|].
    intros y Hy [Hin|Heq%list_elem_of_singleton]%elem_of_app; [by apply (Hacc y); [right|]|]. apply Hx.
    destruct x, y. injection Heq as -> ->. done.
  - apply Forall_map. eapply Forall_impl; [exact Hl|]. cbn. intros x [Hd Hn]. apply (joined_entry _ _ "/" Byte.x2f); [done|by apply plain_visible|done..].
Qed.

Lemma valid_parts d : validate_site d = [] ->
  NoDup (Op.scopes (replicator (spec d))) /\ validate_tls (Op.tls (replicator (spec d))) = [] /\
  Op.u64_saturating_mul (heartbeat_ms (lease (replicator (spec d)))) 2 <= ttl_ms (lease (replicator (spec d))).
Proof.
  unfold validate_site. rewrite !app_nil. intros (_ & _ & _ & Hs & _ & _ & _ & _ & Hl & Ht & _). split; [|split; [done|by apply errors_if_nil, Z.ltb_ge in Hl]].
  destruct (check_each_nil _ _ _ _ _ Hs) as (_ & Hd & _). apply NoDup_alt. intros i j x Hi Hj.
  destruct (Nat.lt_trichotomy i j) as [Hlt|[?|Hlt]]; [|done|].
  - specialize (Hd i j x x Hi Hj Hlt). by rewrite bool_decide_eq_true_2 in Hd.
  - specialize (Hd j i x x Hj Hi Hlt). by rewrite bool_decide_eq_true_2 in Hd.
Qed.

(** ** The environment of a container *)

(** A variable of the container hides one of the configuration map, and a later one
    an earlier one; the values of secrets are given. *)
Definition container_env (secret : SecretKeyRef -> option string) (cm : gmap string string) (l : list EnvVar) (name : string) : option string :=
  match last (List.filter (fun v => String.eqb (env_name v) name) l) with
  | Some v => match env_value v with Some s => Some s | None => env_secret v ≫= secret end
  | None => cm !! name
  end.
Definition replicator_process_env (secret : SecretKeyRef -> option string) (s : PelagoSite) : string -> option string :=
  container_env secret (cm_data (build_config_map s)) (env (container (build_replicator_deployment s))).

(** A server takes its options from the variables of its environment. *)
Record configured (c : ServerConfig) (E : string -> option string) : Prop := {
  cf_enabled : forall b, E "PELAGO_REPLICATION_ENABLED" = Some (bool_text b) -> cfg_replication_enabled c = Some b;
  cf_peers : cfg_replication_peers c = default "" (E "PELAGO_REPLICATION_PEERS");
  cf_scopes : cfg_replication_scopes c = E "PELAGO_REPLICATION_SCOPES";
  cf_mode : cfg_replication_tls_mode c = default "disabled" (E "PELAGO_REPLICATION_TLS_MODE");
  cf_ca : cfg_replication_tls_ca c = E "PELAGO_REPLICATION_TLS_CA";
  cf_cert : cfg_replication_tls_cert c = E "PELAGO_REPLICATION_TLS_CERT";
  cf_key : cfg_replication_tls_key c = E "PELAGO_REPLICATION_TLS_KEY";
  cf_name : cfg_replication_tls_server_name c = E "PELAGO_REPLICATION_TLS_SERVER_NAME";
  cf_lease : forall b, E "PELAGO_REPLICATION_LEASE_ENABLED" = Some (bool_text b) -> cfg_replication_lease_enabled c = b;
  cf_ttl : forall z, 0 <= z < 2 ^ 64 -> E "PELAGO_REPLICATION_LEASE_TTL_MS" = Some (ustr z) -> cfg_replication_lease_ttl_ms c = z;
  cf_heartbeat : forall z, 0 <= z < 2 ^ 64 -> E "PELAGO_REPLICATION_LEASE_HEARTBEAT_MS" = Some (ustr z) -> cfg_replication_lease_heartbeat_ms c = z
}.

Definition server_mode (m : Op.ReplicationTlsMode) : Replicator.ReplicationTlsMode :=
  match m with Disabled => TlsDisabled | SystemRoots => TlsSystemRoots | CustomCA => TlsCustomCa | MutualTLS => TlsMutual end.

Section Deployed.
Context (secret : SecretKeyRef -> option string) (d : PelagoSite) (Hx : extra_env (pod_replicator (spec d)) = []).

(** The variables that the replicator of a site sees. *)
Lemma replicator_variables :
  let E := replicator_process_env secret d in let r := replicator (spec d) in
  E "PELAGO_REPLICATION_ENABLED" = Some (bool_text (is_enabled r)) /\
  E "PELAGO_REPLICATION_PEERS" = Some (peers_csv (Op.peers r)) /\
  E "PELAGO_REPLICATION_SCOPES" = Some (scopes_csv (Op.scopes r) (database (defaults (spec d))) (namespace (defaults (spec d)))) /\
  E "PELAGO_REPLICATION_TLS_MODE" = Some (as_env_value (mode (Op.tls r))) /\
  E "PELAGO_REPLICATION_TLS_CA" = (fun _ => "/etc/pelago/tls/ca/ca.pem") <$> ca_bundle_secret_ref (Op.tls r) /\
  E "PELAGO_REPLICATION_TLS_CERT" = (fun _ => "/etc/pelago/tls/cert/tls.crt") <$> client_cert_secret_ref (Op.tls r) /\
  E "PELAGO_REPLICATION_TLS_KEY" = (fun _ => "/etc/pelago/tls/key/tls.key") <$> client_key_secret_ref (Op.tls r) /\
  E "PELAGO_REPLICATION_LEASE_ENABLED" = Some (bool_text (lease_on (lease r))) /\
  E "PELAGO_REPLICATION_LEASE_TTL_MS" = Some (ustr (ttl_ms (lease r))) /\
  E "PELAGO_REPLICATION_LEASE_HEARTBEAT_MS" = Some (ustr (heartbeat_ms (lease r))).
Proof.
  cbv zeta. unfold replicator_process_env, build_replicator_deployment, build_deployment. cbn [container env]. unfold replicator_env, tls_parts. rewrite Hx.
  destruct (shared_peer_api_key_secret _), (api_keys_secret_ref _), (ca_bundle_secret_ref _), (client_cert_secret_ref _), (client_key_secret_ref _), (Op.server_name _).
  all: repeat split.
Qed.
End Deployed.

Lemma mode_parsed m : parse_tls_mode (as_env_value m) = inl (server_mode m).
Proof. destruct m; vm_compute; reflexivity. Qed.

Lemma defaulted_scopes s : Op.scopes (replicator (spec (apply_defaults s))) <> [].
Proof. cbn. by destruct (Op.scopes (replicator (spec s))). Qed.

(** C35: from the resource to the replicators.  When a site passes validation, with
    names that contain no separators and no variables of its own for the replicator,
    the server that the operator's deployment starts runs, if replication is on, one
    replicator for each pair of a scope and a peer of the resource, under the
    transport security and the lease of the resource; the fallback to a connection
    without transport security is never taken, and the times of the lease are those
    of the resource once they reach the least values of the server. *)
Theorem validated_site_replicates (secret : SecretKeyRef -> option string) (s : PelagoSite) (c : ServerConfig) :
  let d := apply_defaults s in let r := replicator (spec d) in
  validate_site d = [] -> plain_site (spec d) -> extra_env (pod_replicator (spec d)) = [] -> configured c (replicator_process_env secret d) ->
  let rc := from_server_config c in
  start_replicators rc = (if is_enabled r then x ← map to_scope (Op.scopes r); p ← map (fun p => mkPeer (site_id p) (endpoint p)) (Op.peers r); mret (x, p) else []) /\
  tls_mode (Replicator.tls rc) = server_mode (mode (Op.tls r)) /\ lease_enabled rc = lease_on (lease r) /\
  (200 <= heartbeat_ms (lease r) < 2 ^ 64 -> 1000 <= ttl_ms (lease r) < 2 ^ 64 ->
   lease_heartbeat_ms rc = heartbeat_ms (lease r) /\ lease_ttl_ms rc = ttl_ms (lease r)).
Proof.
  intros d r Hv [Hpp Hps] Hx Hc rc. destruct (valid_parts d Hv) as (Hnd & Ht & Hl).
  destruct (replicator_variables secret d Hx) as (E1 & E2 & E3 & E4 & E5 & E6 & E7 & E8 & E9 & E10).
  fold r in E1, E2, E3, E4, E5, E6, E7, E8, E9, E10, Hnd, Ht, Hl, Hpp, Hps.
  pose proof (cf_peers _ _ Hc) as Cp. rewrite E2 in Cp. pose proof (cf_scopes _ _ Hc) as Cs. rewrite E3 in Cs.
  pose proof (cf_mode _ _ Hc) as Cm. rewrite E4 in Cm. pose proof (cf_ca _ _ Hc) as Ca. rewrite E5 in Ca. pose proof (cf_cert _ _ Hc) as Cc. rewrite E6 in Cc.
  pose proof (cf_key _ _ Hc) as Ck. rewrite E7 in Ck. cbn [default from_option Datatypes.id] in Cp, Cm.
  assert (Hscopes : parse_replication_scopes c = map to_scope (Op.scopes r)).
  { unfold parse_replication_scopes. rewrite Cs, scopes_parsed by (done || apply defaulted_scopes). pose proof (defaulted_scopes s) as Hne. fold d r in Hne.
    by destruct (Op.scopes r). }
  assert (Hpeers : parse_peers (cfg_replication_peers c) = map (fun p => mkPeer (site_id p) (endpoint p)) (Op.peers r)) by (rewrite Cp; by apply peers_parsed).
  assert (Htls : exists t, tls_from_server_config c = inl t /\ tls_mode t = server_mode (mode (Op.tls r))).
  { unfold tls_from_server_config. rewrite Cm, mode_parsed. cbn [mbind Checked_bind]. rewrite Ca, Cc, Ck. unfold validate_tls in Ht.
    destruct (mode (Op.tls r)); cbn [server_mode]; [by eexists|by eexists|..].
    - apply app_nil in Ht as [Hca _]. destruct (ca_bundle_secret_ref (Op.tls r)); [|done]. by eexists.
    - destruct (ca_bundle_secret_ref (Op.tls r)), (client_cert_secret_ref (Op.tls r)), (client_key_secret_ref (Op.tls r)); try done. by eexists. }
  destruct Htls as (t & Et & Hmode). unfold rc, from_server_config, start_replicators. cbn [Replicator.enabled Replicator.scopes Replicator.peers Replicator.tls lease_enabled].
  rewrite (cf_enabled _ _ Hc _ E1), (cf_lease _ _ Hc _ E8), Hscopes, Hpeers, Et. split; [done|]. split; [done|]. split; [done|].
  intros Hhb Httl. cbn [lease_heartbeat_ms lease_ttl_ms]. rewrite (cf_ttl _ _ Hc (ttl_ms (lease r)) ltac:(lia) E9).
  rewrite (cf_heartbeat _ _ Hc (heartbeat_ms (lease r)) ltac:(lia) E10).
  unfold Op.u64_saturating_mul in Hl. unfold Replicator.u64_saturating_mul. lia.
Qed.

(** ** Reconciliation *)

(** An API server that answers: what it stores, and what the calls change. *)
Class KubeLaws (K : Type) `{KubeApi K} := {
  objects : K -> string -> KKind -> string -> option KObject;
  ready_count : K -> string -> string -> option Z;
  statuses : K -> string -> string -> option PelagoSiteStatus;
  secrets : K -> string -> string -> bool;
  same (k k' : K) : Prop :=
    (forall ns kd n, objects k' ns kd n = objects k ns kd n) /\ (forall ns n, ready_count k' ns n = ready_count k ns n) /\
    (forall ns n, statuses k' ns n = statuses k ns n) /\ (forall ns n, secrets k' ns n = secrets k ns n);
  get_secret_ok : forall ns n k, exists k', get_secret ns n k = (inl (secrets k ns n), k') /\ same k k';
  now_ok : forall k, exists t k', now_rfc3339 k = (inl t, k') /\ same k k';
  get_deployment_ok : forall ns n k o, objects k ns DeploymentKind n = Some (KDeployment o) ->
    exists k', get_deployment ns n k = (inl (mkView (ready_count k ns n) (Some (dep_replicas o))), k') /\ same k k';
  patch_object_ok : forall ns o k, exists k', patch_object ns o k = (inl tt, k') /\
    (forall ns' kd n, objects k' ns' kd n = if decide (ns' = ns /\ kd = kind_of o /\ n = om_name (meta_of o)) then Some o else objects k ns' kd n) /\
    (forall ns n, ready_count k' ns n = ready_count k ns n) /\ (forall ns n, statuses k' ns n = statuses k ns n) /\
    (forall ns n, secrets k' ns n = secrets k ns n);
  delete_object_ok : forall ns kd n k, exists r k', delete_object ns kd n k = (r, k') /\ (r = inl tt \/ exists m, r = inr (KubeError (Some 404) m)) /\
    (forall ns' kd' n', objects k' ns' kd' n' = if decide (ns' = ns /\ kd' = kd /\ n' = n) then None else objects k ns' kd' n') /\
    (forall ns n, ready_count k' ns n = ready_count k ns n) /\ (forall ns n, statuses k' ns n = statuses k ns n) /\
    (forall ns n, secrets k' ns n = secrets k ns n);
  patch_status_ok : forall ns n st k, exists k', patch_site_status ns n st k = (inl tt, k') /\
    (forall ns' n', statuses k' ns' n' = if decide (ns' = ns /\ n' = n) then Some st else statuses k ns' n') /\
    (forall ns kd n, objects k' ns kd n = objects k ns kd n) /\ (forall ns n, ready_count k' ns n = ready_count k ns n) /\
    (forall ns n, secrets k' ns n = secrets k ns n)
}.

(** The status of the first condition of a type. *)
Definition condition_of (st : PelagoSiteStatus) (type : string) : option string :=
  condition_status <$> List.find (fun c => String.eqb (condition_type c) type) (conditions st).

Lemma update_condition_find type stat rsn msg now : forall l l', update_condition type stat rsn msg now l = Some l' ->
  forall t, condition_status <$> List.find (fun c => String.eqb (condition_type c) t) l'
    = if decide (t = type) then Some stat else condition_status <$> List.find (fun c => String.eqb (condition_type c) t) l.
Proof.
  induction l as [|c l IH]; intros l'; cbn [update_condition]; [done|]. destruct (String.eqb_spec (condition_type c) type) as [Ec|Ec].
  - intros [= <-] t. cbn [List.find condition_type]. rewrite Ec. destruct (String.eqb_spec type t) as [->|Hne]; [by rewrite decide_True|].
    by rewrite decide_False.
  - destruct (update_condition type stat rsn msg now l) as [r|]; [|done]. intros [= <-] t. cbn [List.find].
    destruct (String.eqb_spec (condition_type c) t) as [<-|]; [by rewrite decide_False|]. by apply IH.
Qed.

Lemma update_condition_none type stat rsn msg now l : update_condition type stat rsn msg now l = None ->
  List.find (fun c => String.eqb (condition_type c) type) l = None.
Proof.
  induction l as [|c l IH]; cbn [update_condition List.find]; [done|]. destruct (String.eqb (condition_type c) type); [done|].
  destruct (update_condition type stat rsn msg now l); [done|auto].
Qed.

Lemma find_snoc {A} (f : A -> bool) l a : List.find f (l ++ [a]) = match List.find f l with Some x => Some x | None => if f a then Some a else None end.
Proof. induction l as [|x l IH]; cbn; [done|]. destruct (f x); [done|exact IH]. Qed.

Lemma condition_set now st type stat rsn msg t :
  condition_of (set_condition now st type stat rsn msg) t = if decide (t = type) then Some stat else condition_of st t.
Proof.
  unfold condition_of, set_condition. cbn [conditions set_conditions]. destruct (update_condition type stat rsn msg now (conditions st)) as [l|] eqn:E.
  - by apply (update_condition_find _ _ _ _ _ _ _ E).
  - rewrite find_snoc. cbn [condition_type]. case_decide as Ht.
    + subst t. rewrite (update_condition_none _ _ _ _ _ _ E), String.eqb_refl. done.
    + rewrite (proj2 (String.eqb_neq type t)) by done. by destruct (List.find _ (conditions st)).
Qed.

(** The objects that a site is to have: [Some None] is an object it is not to
    have. *)
Definition wanted (s : PelagoSite) (kd : KKind) (n : string) : option (option KObject) :=
  match kd with
  | ConfigMapKind => if String.eqb n (config_map_name s) then Some (Some (KConfigMap (build_config_map s))) else None
  | ServiceKind => if String.eqb n (api_service_name s) then Some (Some (KServiceObj (build_api_service s))) else None
  | DeploymentKind =>
      if String.eqb n (replicator_deployment_name s) then Some (Some (KDeployment (build_replicator_deployment s)))
      else if String.eqb n (api_deployment_name s) then Some (Some (KDeployment (build_api_deployment s))) else None
  | HpaKind => if String.eqb n (api_hpa_name s) then Some (KHpaObj <$> build_api_hpa s) else None
  | PdbKind => if String.eqb n (api_pdb_name s) then Some (KPdbObj <$> build_api_pdb s) else None
  end.

Section Converge.
Context {K : Type} `{KubeLaws K}.
Implicit Types (k : K) (s : PelagoSite) (ns n : string).

(** The parts of the cluster that a step does not touch. *)
Definition rest_same (k k' : K) : Prop :=
  (forall ns n, ready_count k' ns n = ready_count k ns n) /\ (forall ns n, statuses k' ns n = statuses k ns n) /\
  (forall ns n, secrets k' ns n = secrets k ns n).

(** A call that succeeds and sets one object, or removes it. *)
Definition puts (m : Call K unit) ns (kd : KKind) n (o : option KObject) : Prop := forall k, exists k', m k = (inl tt, k') /\ rest_same k k' /\
  (forall ns' kd' n', objects k' ns' kd' n' = if decide (ns' = ns /\ kd' = kd /\ n' = n) then o else objects k ns' kd' n').

Lemma apply_puts ns o : puts (apply ns o) ns (kind_of o) (om_name (meta_of o)) (Some o).
Proof. intros k. destruct (patch_object_ok ns o k) as (k' & E & Ho & Hr & Hs & Hse). exists k'. by repeat split. Qed.

Lemma apply_or_delete_puts ns o kd n : (forall x, o = Some x -> kind_of x = kd /\ om_name (meta_of x) = n) -> puts (apply_or_delete ns o kd n) ns kd n o.
Proof.
  intros Ho k. destruct o as [o|]; cbn [apply_or_delete].
  - destruct (Ho o eq_refl) as [<- <-]. exact (apply_puts ns o k).
  - destruct (delete_object_ok ns kd n k) as (r & k' & E & Hr & Hob & Hrest). exists k'. unfold delete_if_exists. rewrite E. split; [|by split].
    destruct Hr as [->|[m ->]]; done.
Qed.

Lemma rest_same_trans k1 k2 k3 : rest_same k1 k2 -> rest_same k2 k3 -> rest_same k1 k3.
Proof. intros (A1 & A2 & A3) (B1 & B2 & B3). repeat split; intros; congruence. Qed.

(** Calls one after the other; the last one for an object counts. *)
Fixpoint overlay (l : list (KKind * string * option KObject)) (kd : KKind) n : option (option KObject) :=
  match l with
  | [] => None
  | (kd', n', o) :: rest =>
      match overlay rest kd n with Some r => Some r | None => if decide (kd = kd' /\ n = n') then Some o else None end
  end.
Definition puts_all (m : Call K unit) ns (l : list (KKind * string * option KObject)) : Prop := forall k, exists k', m k = (inl tt, k') /\ rest_same k k' /\
  (forall ns' kd n, objects k' ns' kd n = if decide (ns' = ns) then default (objects k ns' kd n) (overlay l kd n) else objects k ns' kd n).

Lemma puts_last m ns kd n o : puts m ns kd n o -> puts_all m ns [(kd, n, o)].
Proof.
  intros Hm k. destruct (Hm k) as (k' & E & Hr & Ho). exists k'. split; [done|]. split; [done|]. intros ns' kd' n'. rewrite Ho. cbn [overlay].
  repeat case_decide; naive_solver.
Qed.

Lemma puts_next m m' ns kd n o l : puts m ns kd n o -> puts_all m' ns l -> puts_all (m ;; m') ns ((kd, n, o) :: l).
Proof.
  intros Hm Hm' k. destruct (Hm k) as (k1 & E & R1 & O1). destruct (Hm' k1) as (k2 & E2 & R2 & O2). exists k2. split; [|split; [by eapply rest_same_trans|]].
  - unfold mbind, Call_bind. by rewrite E.
  - intros ns' kd' n'. rewrite O2, O1. cbn [overlay]. case_decide as Hns; [|rewrite decide_False by naive_solver; done].
    destruct (overlay l kd' n') as [r|]; [done|]. cbn [default from_option]. repeat case_decide; naive_solver.
Qed.

Lemma apply_objects_wanted s ns k : exists k', apply_objects s ns k = (inl tt, k') /\ rest_same k k' /\
  (forall ns' kd n, objects k' ns' kd n = if decide (ns' = ns) then default (objects k ns' kd n) (wanted s kd n) else objects k ns' kd n).
Proof.
  assert (H' : puts_all (apply_objects s ns) ns
    [(ConfigMapKind, config_map_name s, Some (KConfigMap (build_config_map s))); (ServiceKind, api_service_name s, Some (KServiceObj (build_api_service s)));
     (DeploymentKind, api_deployment_name s, Some (KDeployment (build_api_deployment s)));
     (DeploymentKind, replicator_deployment_name s, Some (KDeployment (build_replicator_deployment s)));
     (HpaKind, api_hpa_name s, KHpaObj <$> build_api_hpa s); (PdbKind, api_pdb_name s, KPdbObj <$> build_api_pdb s)]).
  { unfold apply_objects. do 4 (apply puts_next; [apply (apply_puts ns)|]). apply puts_next; [|apply puts_last]; apply apply_or_delete_puts.
    - unfold build_api_hpa. intros x. destruct (hpa_enabled _); [by intros [= <-]|done].
    - unfold build_api_pdb. intros x. destruct (pdb_enabled _); [by intros [= <-]|done]. }
  destruct (H' k) as (k' & E & R & O). exists k'. split; [done|]. split; [done|]. intros ns' kd n. rewrite O. case_decide; [|done]. f_equal.
  clear O R E. destruct kd; cbn [overlay wanted].
  all: repeat case_decide; destruct_and?; try discriminate.
  all: repeat match goal with |- context [String.eqb ?m ?x] => destruct (String.eqb_spec m x) end; naive_solver.
Qed.
Lemma same_trans k1 k2 k3 : same k1 k2 -> same k2 k3 -> same k1 k3.
Proof. unfold same. intros (A1 & A2 & A3 & A4) (B1 & B2 & B3 & B4). repeat split; intros; congruence. Qed.

Lemma call_run {A B} (m : Call K A) (f : A -> Call K B) k a k' : m k = (inl a, k') -> (m ≫= f) k = f a k'.
Proof. unfold mbind, Call_bind. by intros ->. Qed.

Lemma run_ensure ns : forall l k, (forall r, r ∈ l -> secrets k ns (secret_name r) = true) ->
  exists k', ensure_secrets ns l k = (inl tt, k') /\ same k k'.
Proof.
  induction l as [|r l IH]; intros k Hl; cbn [ensure_secrets]; [by exists k|]. destruct (get_secret_ok ns (secret_name r) k) as (k1 & E & S1).
  rewrite (call_run _ _ _ _ _ E), Hl by left. cbn [negb]. destruct (IH k1) as (k2 & E2 & S2).
  { intros r' Hr'. destruct S1 as (_ & _ & _ & ->). apply Hl. by right. }
  exists k2. split; [done|]. by eapply same_trans.
Qed.

Lemma run_condition st type stat rsn msg k : exists now k', with_condition st type stat rsn msg k = (inl (set_condition now st type stat rsn msg), k') /\ same k k'.
Proof. destruct (now_ok k) as (now & k' & E & S'). exists now, k'. split; [|done]. unfold with_condition. by rewrite (call_run _ _ _ _ _ E). Qed.

(** The replicas of a deployment are ready. *)
Definition tier_up k ns n (replicas : Z) : bool := replicas <=? default 0 (ready_count k ns n).

(** The last part of a reconciliation: what is observed and reported. *)
Definition report (d : PelagoSite) (ns : string) : Call K unit :=
  a ← get_deployment ns (api_deployment_name d);
  r ← get_deployment ns (replicator_deployment_name d);
  now ← now_rfc3339;
  let st := observed_status d a r now in
  let api_ok := desired_replicas a <=? ready_replicas a in
  let repl_ok := desired_replicas r <=? ready_replicas r in
  st ← with_condition st "ConfigValid" "True" "Validated" "spec accepted";
  st ← with_condition st "ApiAvailable" (truth api_ok) "DeploymentObserved" (replicas_text "api" a);
  st ← with_condition st "ReplicatorAvailable" (truth repl_ok) "DeploymentObserved" (replicas_text "replicator" r);
  st ← with_condition st "Progressing" (truth (negb (api_ok && repl_ok))) "Reconciling" "waiting for rollout convergence";
  st ← with_condition st "Ready" (truth (api_ok && repl_ok)) "ResourcesApplied" "resource reconciliation completed";
  st ← with_condition st "Degraded" "False" "Healthy" "no errors detected";
  patch_status d st.

Lemma run_report d ns k a r : meta_namespace d = Some ns ->
  objects k ns DeploymentKind (api_deployment_name d) = Some (KDeployment a) ->
  objects k ns DeploymentKind (replicator_deployment_name d) = Some (KDeployment r) ->
  let up := tier_up k ns (api_deployment_name d) (dep_replicas a) && tier_up k ns (replicator_deployment_name d) (dep_replicas r) in
  exists st k', report d ns k = (inl tt, k') /\ (forall ns' kd n, objects k' ns' kd n = objects k ns' kd n) /\
    statuses k' ns (name_any d) = Some st /\ condition_of st "Ready" = Some (truth up) /\ condition_of st "Progressing" = Some (truth (negb up)) /\
    condition_of st "ConfigValid" = Some "True" /\ condition_of st "Degraded" = Some "False".
Proof.
  intros Hns Ha Hr up. unfold report. destruct (get_deployment_ok _ _ _ _ Ha) as (k1 & E1 & S1). rewrite (call_run _ _ _ _ _ E1).
  assert (Hr1 : objects k1 ns DeploymentKind (replicator_deployment_name d) = Some (KDeployment r)) by (destruct S1 as [-> _]; exact Hr).
  destruct (get_deployment_ok _ _ _ _ Hr1) as (k2 & E2 & S2). rewrite (call_run _ _ _ _ _ E2). destruct (now_ok k2) as (now & k3 & E3 & S3).
  rewrite (call_run _ _ _ _ _ E3). cbv zeta. unfold desired_replicas, ready_replicas. cbn [view_ready view_replicas].
  assert (Hrc : ready_count k1 ns (replicator_deployment_name d) = ready_count k ns (replicator_deployment_name d)) by (destruct S1 as (_ & -> & _); done).
  rewrite Hrc. change (default 0 (Some (dep_replicas a))) with (dep_replicas a). change (default 0 (Some (dep_replicas r))) with (dep_replicas r).
  fold (tier_up k ns (api_deployment_name d) (dep_replicas a)). fold (tier_up k ns (replicator_deployment_name d) (dep_replicas r)). fold up.
  pose proof (same_trans _ _ _ (same_trans _ _ _ S1 S2) S3) as Hsame. clear E1 E2 E3 S1 S2 S3 Hr1 Hrc.
  do 6 (match goal with |- context [(with_condition ?st ?t ?x ?y ?z ≫= _) ?kk] =>
    let now := fresh "now" in let k' := fresh "k" in let E := fresh "E" in let S' := fresh "S" in
    destruct (run_condition st t x y z kk) as (now & k' & E & S'); rewrite (call_run _ _ _ _ _ E); apply (same_trans _ _ _ Hsame) in S'; clear E Hsame; rename S' into Hsame end).
  unfold patch_status. rewrite Hns. match goal with |- context [patch_site_status _ _ ?st ?kk] =>
    destruct (patch_status_ok ns (name_any d) st kk) as (k' & E & Hst & Ho & _); exists st, k' end.
  split; [exact E|]. split; [intros; rewrite Ho; apply Hsame|]. split; [by rewrite Hst, decide_True|]. rewrite !condition_set. done.
Qed.

Lemma run_ensure_missing ns : forall l k, (exists r, r ∈ l /\ secrets k ns (secret_name r) = false) ->
  exists n k', ensure_secrets ns l k = (inr (MissingSecret ns n), k') /\ same k k' /\ secrets k ns n = false /\ exists r, r ∈ l /\ secret_name r = n.
Proof.
  induction l as [|r l IH]; intros k (r' & Hr & Hs); cbn [ensure_secrets]; [by apply not_elem_of_nil in Hr|].
  destruct (get_secret_ok ns (secret_name r) k) as (k1 & E & S1). rewrite (call_run _ _ _ _ _ E). destruct (secrets k ns (secret_name r)) eqn:Es; cbn [negb].
  - destruct (IH k1) as (n & k2 & E2 & S2 & Hn & r2 & Hr2 & <-).
    + exists r'. destruct S1 as (_ & _ & _ & ->). split; [|done]. apply elem_of_cons in Hr as [->|Hr]; [congruence|done].
    + exists (secret_name r2), k2. split; [done|]. split; [by eapply same_trans|]. destruct S1 as (_ & _ & _ & Hse). rewrite Hse in Hn.
      split; [done|]. exists r2. split; [by right|done].
  - exists (secret_name r), k1. split; [done|]. split; [done|]. split; [done|]. exists r. split; [left|done].
Qed.

(** A secret that is missing.  The reconciliation of a valid site stops before it
    changes anything: the objects and the reported status stay, a site that was ready
    is still reported so, and the site does not enter the index, so that the creation
    of the secret does not lead to it. *)
Theorem missing_secret_changes_nothing (interval : Z) (index : SecretIndex) (s : PelagoSite) ns k :
  let d := apply_defaults s in
  validate_site d = [] -> meta_namespace s = Some ns -> (exists r, r ∈ referenced_secret_keys (spec d) /\ secrets k ns (secret_name r) = false) ->
  exists n k', reconcile true interval index s k = (inr (MissingSecret ns n), index, k') /\ same k k' /\ secrets k ns n = false.
Proof.
  intros d Hv Hns Hm. destruct (run_ensure_missing ns _ k Hm) as (n & k' & E & Hs & Hn & _). exists n, k'. split; [|done].
  unfold reconcile. cbn [negb]. fold d. rewrite Hv. change (meta_namespace d) with (meta_namespace s). rewrite Hns. unfold ensure_referenced_secrets. by rewrite E.
Qed.

(** A site that is not valid is refused: its errors are reported in two conditions,
    every other condition keeps its status, and no object changes. *)
Theorem invalid_site_refused (interval : Z) (index : SecretIndex) (s : PelagoSite) ns k :
  let d := apply_defaults s in
  validate_site d <> [] -> meta_namespace s = Some ns ->
  exists st k', reconcile true interval index s k = (inr (InvalidSpec (String.concat "; " (validate_site d))), index, k') /\
    (forall ns' kd n, objects k' ns' kd n = objects k ns' kd n) /\ statuses k' ns (name_any s) = Some st /\
    forall t, condition_of st t = if decide (t = "Degraded") then Some "True" else if decide (t = "ConfigValid") then Some "False"
      else condition_of (default default_status (status s)) t.
Proof.
  intros d Hv Hns. unfold reconcile. cbn [negb]. cbv beta zeta. fold d. destruct (validate_site d) as [|e l]; [done|]. clear Hv. set (errors := String.concat "; " (e :: l)).
  destruct (run_condition (default default_status (status d)) "ConfigValid" "False" "ValidationFailed" errors k) as (t1 & k1 & E1 & S1).
  rewrite (call_run _ _ _ _ _ E1). match type of E1 with _ = (inl ?x, _) => set (st1 := x) end.
  destruct (run_condition st1 "Degraded" "True" "ValidationFailed" "PelagoSite spec validation failed" k1) as (t2 & k2 & E2 & S2).
  rewrite (call_run _ _ _ _ _ E2). match type of E2 with _ = (inl ?x, _) => set (st2 := x) end. unfold patch_status.
  change (meta_namespace d) with (meta_namespace s). rewrite Hns. destruct (patch_status_ok ns (name_any d) st2 k2) as (k3 & E3 & Hst & Ho & _).
  rewrite E3. exists st2, k3. split; [done|]. pose proof (same_trans _ _ _ S1 S2) as [Hs _]. split; [intros; by rewrite Ho, Hs|].
  split; [by rewrite Hst, decide_True|]. intros t. unfold st2, st1. by rewrite !condition_set.
Qed.
End Converge.

(** ** The index of secrets *)

Lemma index_added (name ns : string) l : forall (i : SecretIndex) ns' sec n,
  n ∈ default ∅ (foldl (fun (i : SecretIndex) r => <[(ns, secret_name r) := {[name]} ∪ default ∅ (i !! (ns, secret_name r))]> i) i l !! (ns', sec)) <->
  n ∈ default ∅ (i !! (ns', sec)) \/ n = name /\ ns' = ns /\ exists r, r ∈ l /\ secret_name r = sec.
Proof.
  unfold SecretIndex. induction l as [|r l IH]; intros i ns' sec n; cbn [foldl].
  { split; [auto|]. intros [?|(_ & _ & r & Hr & _)]; [done|]. by apply not_elem_of_nil in Hr. }
  rewrite IH. destruct (decide ((ns', sec) = (ns, secret_name r))) as [E|Hne].
  - rewrite E, lookup_insert_eq. injection E as E1 E2. cbn [default from_option Datatypes.id]. rewrite elem_of_union, elem_of_singleton.
    setoid_rewrite elem_of_cons. subst. naive_solver.
  - rewrite lookup_insert_ne by congruence. setoid_rewrite elem_of_cons. naive_solver.
Qed.

Lemma index_updated (s : PelagoSite) (ns : string) (i : SecretIndex) ns' sec n :
  n ∈ default ∅ (update_secret_index s ns i !! (ns', sec)) <->
  (n <> name_any s /\ n ∈ default ∅ (i !! (ns', sec))) \/
  n = name_any s /\ ns' = ns /\ exists r, r ∈ referenced_secret_keys (spec s) /\ secret_name r = sec.
Proof.
  unfold update_secret_index, SecretIndex in *. set (added := foldl _ _ _).
  assert (Hf : n ∈ default ∅ (filter (fun kv : (string * string) * gset string => kv.2 <> ∅) added !! (ns', sec)) <-> n ∈ default ∅ (added !! (ns', sec))).
  { rewrite map_lookup_filter. destruct (added !! (ns', sec)) as [x|]; cbn; [|done]. case_guard as Hx; cbn; [done|]. destruct (decide (x = ∅)) as [->|]; [done|]. by destruct Hx. }
  rewrite Hf. unfold added. rewrite index_added. unfold SecretIndex. rewrite lookup_fmap. destruct (i !! (ns', sec)) as [x|]; cbn; [set_solver|]. set_solver.
Qed.

(** The index after a number of reconciliations. *)
Definition index_after (l : list (PelagoSite * string)) : SecretIndex := foldl (fun i x => update_secret_index x.1 x.2 i) ∅ l.

(** Secrets and sites.  When the reconciled sites have different names, a change of a
    secret leads to exactly the sites of its namespace that refer to it. *)
Theorem secret_index_exact (l : list (PelagoSite * string)) (ns sec n : string) :
  NoDup ((fun x => name_any x.1) <$> l) ->
  (ns, n) ∈ map_secret_to_sites (Some ns) sec (index_after l) <->
  exists s, (s, ns) ∈ l /\ name_any s = n /\ exists r, r ∈ referenced_secret_keys (spec s) /\ secret_name r = sec.
Proof.
  intros Hn. assert (Hmap : (ns, n) ∈ map_secret_to_sites (Some ns) sec (index_after l) <-> n ∈ default ∅ (index_after l !! (ns, sec))).
  { unfold map_secret_to_sites. destruct (index_after l !! (ns, sec)) as [x|]; cbn; [|by rewrite elem_of_empty; split; [intros ?%not_elem_of_nil|]].
    rewrite list_elem_of_fmap. split; [intros (n' & [= <-] & Hin)|intros Hin; exists n]; rewrite ?elem_of_elements in *; auto. }
  rewrite Hmap. clear Hmap. unfold index_after. induction l as [|[s ns1] l IH] using rev_ind.
  { cbn [foldl]. unfold SecretIndex. rewrite lookup_empty. cbn. split; [set_solver|]. intros (s & Hs & _). by apply not_elem_of_nil in Hs. }
  rewrite fmap_app, NoDup_app in Hn. destruct Hn as (Hn & Hd & _). rewrite foldl_app. cbn [foldl fst snd]. rewrite index_updated, IH by done. split.
  - intros [(Hne & s' & Hin & Hrest)|(-> & -> & Hr)]; [exists s'|exists s]; (split; [apply elem_of_app|]); [by left|done|right; left|done].
  - intros (s' & [Hin|Heq%list_elem_of_singleton]%elem_of_app & <- & Hr).
    + left. split; [|by exists s']. intros E. apply (Hd (name_any s')); [apply list_elem_of_fmap; by exists (s', ns)|]. rewrite E. left.
    + injection Heq as -> ->. by right.
Qed.

(** ** A cluster in memory *)

Record Cluster := mkCluster {
  cl_objects : string -> KKind -> string -> option KObject; cl_ready : string -> string -> option Z;
  cl_statuses : string -> string -> option PelagoSiteStatus; cl_secrets : string -> string -> bool
}.
#[local] Instance mem_kube : KubeApi Cluster := {|
  get_secret ns n k := (inl (cl_secrets k ns n), k);
  patch_object ns o k :=
    (inl tt, mkCluster (fun ns' kd n => if decide (ns' = ns /\ kd = kind_of o /\ n = om_name (meta_of o)) then Some o else cl_objects k ns' kd n)
               (cl_ready k) (cl_statuses k) (cl_secrets k));
  delete_object ns kd n k :=
    (match cl_objects k ns kd n with Some _ => inl tt | None => inr (KubeError (Some 404) "not found") end,
     mkCluster (fun ns' kd' n' => if decide (ns' = ns /\ kd' = kd /\ n' = n) then None else cl_objects k ns' kd' n') (cl_ready k) (cl_statuses k) (cl_secrets k));
  get_deployment ns n k :=
    (match cl_objects k ns DeploymentKind n with
     | Some (KDeployment o) => inl (mkView (cl_ready k ns n) (Some (dep_replicas o)))
     | _ => inr (KubeError (Some 404) "not found")
     end, k);
  patch_site_status ns n st k :=
    (inl tt, mkCluster (cl_objects k) (cl_ready k) (fun ns' n' => if decide (ns' = ns /\ n' = n) then Some st else cl_statuses k ns' n') (cl_secrets k));
  now_rfc3339 k := (inl "now", k)
|}.
#[local] Instance mem_kube_laws : KubeLaws Cluster.
Proof.
  refine {| objects := cl_objects; ready_count := cl_ready; statuses := cl_statuses; secrets := cl_secrets |}.
  - intros ns n k. by exists k.
  - intros k. by exists "now", k.
  - intros ns n k o Ho. exists k. cbn. by rewrite Ho.
  - intros ns o k. eexists. split; [reflexivity|]. done.
  - intros ns kd n k. eexists _, _. split; [reflexivity|]. split; [|done]. destruct (cl_objects k ns kd n); [by left|right; by eexists].
  - intros ns n st k. eexists. split; [reflexivity|]. done.
Defined.

(** ** A site, deployed *)

Definition read_bool (s : string) : option bool := if String.eqb s "true" then Some true else if String.eqb s "false" then Some false else None.
Definition read_u64 (s : string) : option Z := parse_u (2 ^ 64 - 1) (sbytes s).

(** Options read from an environment, the others as they were. *)
Definition config_of_env (c0 : ServerConfig) (E : string -> option string) : ServerConfig := {|
  cfg_config := cfg_config c0; cfg_no_config := cfg_no_config c0; cfg_fdb_cluster := cfg_fdb_cluster c0; cfg_site_id := cfg_site_id c0;
  cfg_site_name := cfg_site_name c0; cfg_listen_addr := cfg_listen_addr c0; cfg_log_level := cfg_log_level c0;
  cfg_metrics_enabled := cfg_metrics_enabled c0; cfg_metrics_addr := cfg_metrics_addr c0; cfg_id_batch_size := cfg_id_batch_size c0;
  cfg_default_database := cfg_default_database c0; cfg_default_namespace := cfg_default_namespace c0;
  cfg_cache_enabled := cfg_cache_enabled c0; cfg_cache_path := cfg_cache_path c0; cfg_cache_size_mb := cfg_cache_size_mb c0;
  cfg_cache_write_buffer_mb := cfg_cache_write_buffer_mb c0; cfg_cache_max_write_buffers := cfg_cache_max_write_buffers c0;
  cfg_cache_bloom_bits_per_key := cfg_cache_bloom_bits_per_key c0; cfg_cache_prefix_extractor_bytes := cfg_cache_prefix_extractor_bytes c0;
  cfg_cache_use_column_families := cfg_cache_use_column_families c0; cfg_cache_projector_batch_size := cfg_cache_projector_batch_size c0;
  cfg_cache_projector_scopes := cfg_cache_projector_scopes c0; cfg_cache_eventual_max_lag_ms := cfg_cache_eventual_max_lag_ms c0;
  cfg_cache_session_max_lag_ms := cfg_cache_session_max_lag_ms c0; cfg_auth_required := cfg_auth_required c0;
  cfg_api_keys := cfg_api_keys c0; cfg_mtls_enabled := cfg_mtls_enabled c0; cfg_mtls_subject_header := cfg_mtls_subject_header c0;
  cfg_mtls_subjects := cfg_mtls_subjects c0; cfg_mtls_fingerprints := cfg_mtls_fingerprints c0;
  cfg_mtls_default_role := cfg_mtls_default_role c0; cfg_tls_cert := cfg_tls_cert c0; cfg_tls_key := cfg_tls_key c0;
  cfg_tls_ca := cfg_tls_ca c0; cfg_tls_client_auth := cfg_tls_client_auth c0; cfg_audit_enabled := cfg_audit_enabled c0;
  cfg_audit_retention_days := cfg_audit_retention_days c0; cfg_audit_retention_sweep_secs := cfg_audit_retention_sweep_secs c0;
  cfg_audit_retention_batch := cfg_audit_retention_batch c0; cfg_replication_enabled := E "PELAGO_REPLICATION_ENABLED" ≫= read_bool;
  cfg_replication_peers := default "" (E "PELAGO_REPLICATION_PEERS"); cfg_replication_database := cfg_replication_database c0;
  cfg_replication_namespace := cfg_replication_namespace c0; cfg_replication_scopes := E "PELAGO_REPLICATION_SCOPES";
  cfg_replication_batch_size := cfg_replication_batch_size c0; cfg_replication_poll_ms := cfg_replication_poll_ms c0;
  cfg_replication_api_key := cfg_replication_api_key c0; cfg_replication_tls_mode := default "disabled" (E "PELAGO_REPLICATION_TLS_MODE");
  cfg_replication_tls_ca := E "PELAGO_REPLICATION_TLS_CA"; cfg_replication_tls_cert := E "PELAGO_REPLICATION_TLS_CERT";
  cfg_replication_tls_key := E "PELAGO_REPLICATION_TLS_KEY"; cfg_replication_tls_server_name := E "PELAGO_REPLICATION_TLS_SERVER_NAME";
  cfg_replication_lease_enabled := default true (E "PELAGO_REPLICATION_LEASE_ENABLED" ≫= read_bool);
  cfg_replication_lease_ttl_ms := default 10000 (E "PELAGO_REPLICATION_LEASE_TTL_MS" ≫= read_u64);
  cfg_replication_lease_heartbeat_ms := default 2000 (E "PELAGO_REPLICATION_LEASE_HEARTBEAT_MS" ≫= read_u64);
  cfg_docs_enabled := cfg_docs_enabled c0; cfg_docs_addr := cfg_docs_addr c0; cfg_docs_dir := cfg_docs_dir c0;
  cfg_docs_title := cfg_docs_title c0; cfg_ui_enabled := cfg_ui_enabled c0; cfg_ui_addr := cfg_ui_addr c0;
  cfg_ui_assets_dir := cfg_ui_assets_dir c0; cfg_ui_title := cfg_ui_title c0; cfg_watch_max_subscriptions := cfg_watch_max_subscriptions c0;
  cfg_watch_max_namespace_subscriptions := cfg_watch_max_namespace_subscriptions c0;
  cfg_watch_max_query_watches := cfg_watch_max_query_watches c0;
  cfg_watch_max_principal_subscriptions := cfg_watch_max_principal_subscriptions c0; cfg_watch_max_ttl_secs := cfg_watch_max_ttl_secs c0;
  cfg_watch_max_queue_size := cfg_watch_max_queue_size c0; cfg_watch_max_dropped_events := cfg_watch_max_dropped_events c0;
  cfg_watch_state_retention_enabled := cfg_watch_state_retention_enabled c0;
  cfg_watch_state_retention_days := cfg_watch_state_retention_days c0;
  cfg_watch_state_retention_sweep_secs := cfg_watch_state_retention_sweep_secs c0;
  cfg_watch_state_retention_batch := cfg_watch_state_retention_batch c0
|}.

Lemma configured_of_env c0 E : configured (config_of_env c0 E) E.
Proof.
  assert (Hb : forall b, read_bool (bool_text b) = Some b) by (by intros []).
  assert (Hz : forall z, 0 <= z < 2 ^ 64 -> read_u64 (ustr z) = Some z) by (intros z Hz; unfold read_u64, ustr; rewrite sbytes_bstr; apply parse_show_u; lia).
  split; cbn -[read_u64 ustr]; try done.
  - intros b ->. by rewrite <- Hb.
  - intros b ->. cbn. by rewrite Hb.
  - intros z Hr ->. cbn -[read_u64 ustr]. by rewrite Hz.
  - intros z Hr ->. cbn -[read_u64 ustr]. by rewrite Hz.
Qed.

Definition no_pods : PodTemplateSpec := mkPodTemplateSpec ∅ ∅ ∅ [] None [] [] [].
Definition berlin : PelagoSite :=
  mkSite (Some "berlin") None (Some "graphs") (Some "u-1") (Some 1)
    (mkSpec default_image (mkSiteSpec 1 "berlin") (mkSecretKeyRef "fdb" "cluster") default_defaults (mkAuthSpec true None) default_api
       (mkReplicatorSpec None 2 None 512 300 (mkLeaseSpec true 10000 2000) [mkScopeSpec "shop" "eu"; mkScopeSpec "shop" "us"]
          [mkPeerSpec "2" "https://paris:27615" (Some (mkSecretKeyRef "peers" "key")); mkPeerSpec "3" "https://oslo:27615" None]
          (mkTlsSpec CustomCA (Some (mkSecretKeyRef "tls" "ca")) None None None))
       no_pods no_pods) None.
Definition berlin_env : string -> option string := replicator_process_env (fun _ => None) (apply_defaults berlin).

Lemma berlin_plain : plain_site (spec (apply_defaults berlin)).
Proof. split; repeat (apply Forall_cons; split; [|try apply Forall_nil; done]); repeat split; try discriminate; repeat constructor; discriminate. Qed.

Lemma validated_site_replicates_witness :
  start_replicators (from_server_config (config_of_env default_server_config berlin_env)) =
  [(mkScope "shop" "eu", mkPeer "2" "https://paris:27615"); (mkScope "shop" "eu", mkPeer "3" "https://oslo:27615");
   (mkScope "shop" "us", mkPeer "2" "https://paris:27615"); (mkScope "shop" "us", mkPeer "3" "https://oslo:27615")].
Proof.
  destruct (validated_site_replicates (fun _ => None) berlin (config_of_env default_server_config berlin_env) ltac:(vm_compute; reflexivity) berlin_plain
    eq_refl (configured_of_env _ _)) as [E _].
  rewrite E. vm_compute. reflexivity.
Defined.

(** A cluster with the secrets of the site. *)
Definition fresh_cluster : Cluster := mkCluster (fun _ _ _ => None) (fun _ n => if String.eqb n "berlin-api" then Some 3 else Some 2) (fun _ _ => None)
  (fun ns n => String.eqb ns "graphs" && (String.eqb n "fdb" || String.eqb n "peers" || String.eqb n "tls")).


(** ** What goes wrong *)

(** The index keeps names without their namespaces: a site of another namespace with
    the same name takes the place of the first, and a change of a secret of the first
    leads to no site. *)
Definition berlin_in (ns : string) : PelagoSite :=
  mkSite (meta_name berlin) None (Some ns) (uid berlin) (generation berlin) (spec berlin) None.

Theorem same_name_site_forgotten :
  map_secret_to_sites (Some "graphs") "tls" (index_after [(berlin_in "graphs", "graphs")]) = [("graphs", "berlin")] /\
  map_secret_to_sites (Some "graphs") "tls" (index_after [(berlin_in "graphs", "graphs"); (berlin_in "other", "other")]) = [].
Proof. split; vm_compute; reflexivity. Qed.

(** An autoscaler is applied with a deployment that names a number of replicas: what
    the autoscaler had chosen is set back at every reconciliation. *)
Definition scaled (n : Z) (d : Deployment) : Deployment :=
  mkDeployment (dep_meta d) n (dep_selector d) (template_labels d) (template_annotations d) (container d) (dep_node_selector d) (dep_tolerations d)
    (dep_affinity d) (volumes d).
Definition scaled_cluster : Cluster :=
  mkCluster (fun ns kd n => if decide (ns = "graphs" /\ kd = DeploymentKind /\ n = "berlin-api")
                            then Some (KDeployment (scaled 9 (build_api_deployment berlin))) else None)
    (cl_ready fresh_cluster) (cl_statuses fresh_cluster) (cl_secrets fresh_cluster).
Definition api_replicas_in (k : Cluster) : option Z :=
  match cl_objects k "graphs" DeploymentKind "berlin-api" with Some (KDeployment d) => Some (dep_replicas d) | _ => None end.

Theorem autoscaled_replicas_reset :
  hpa_enabled (hpa (api (spec berlin))) = true /\ api_replicas_in scaled_cluster = Some 9 /\
  api_replicas_in (reconcile true 30 ∅ berlin scaled_cluster).2 = Some 3.
Proof. split; [reflexivity|]. split; vm_compute; reflexivity. Qed.

(** Labels of the pods.  A deployment selects its pods unless the resource gives one
    of the labels of the selector another value. *)
Lemma deployment_selects_pods s name n selector pods c vs : map_agree selector (pod_labels pods) <->
  dep_selector (build_deployment s name n selector pods c vs) ⊆ template_labels (build_deployment s name n selector pods c vs).
Proof.
  cbn. rewrite map_agree_spec, map_subseteq_spec. split.
  - intros Ha k v Hk. rewrite lookup_union_Some_raw. destruct (pod_labels pods !! k) as [v'|] eqn:E; [left; f_equal; symmetry; by apply (Ha k)|by right].
  - intros Hs k v v' Hk Hk'. specialize (Hs k v Hk). rewrite lookup_union_Some_raw in Hs. destruct Hs as [Hs|[Hs _]]; congruence.
Qed.

(** The webhook accepts a label that takes the pods out of the selector. *)
Definition relabelled : PelagoSite :=
  let p := spec berlin in
  mkSite (meta_name berlin) None (meta_namespace berlin) (uid berlin) (generation berlin)
    (mkSpec (image p) (site p) (cluster_file_secret_ref p) (defaults p) (auth p) (api p) (replicator p)
       (mkPodTemplateSpec {["pelago.pelagodb.io/role" := "front"]} ∅ ∅ [] None [] [] []) no_pods) None.

Theorem role_label_accepted :
  validate relabelled = None /\ ~ dep_selector (build_api_deployment relabelled) ⊆ template_labels (build_api_deployment relabelled).
Proof.
  split; [vm_compute; reflexivity|]. intros Hs%deployment_selects_pods. rewrite map_agree_spec in Hs.
  specialize (Hs "pelago.pelagodb.io/role" "api" "front" ltac:(vm_compute; reflexivity) ltac:(vm_compute; reflexivity)). discriminate.
Qed.

(** The webhook accepts an endpoint with a separator: the server replicates from a
    peer that the resource does not name, even from its own site. *)
Definition separator_site : PelagoSite :=
  set_replicator berlin
    (mkReplicatorSpec None 2 None 512 300 (mkLeaseSpec true 10000 2000) [mkScopeSpec "shop" "eu"] [mkPeerSpec "2" "paris:27615,1=localhost:27615" None]
       (mkTlsSpec Disabled None None None None)).

Theorem separator_accepted :
  validate separator_site = None /\
  start_replicators (from_server_config (config_of_env default_server_config (replicator_process_env (fun _ => None) (apply_defaults separator_site)))) =
  [(mkScope "shop" "eu", mkPeer "2" "paris:27615"); (mkScope "shop" "eu", mkPeer "1" "localhost:27615")].
Proof. split; vm_compute; reflexivity. Qed.
